(* ===== verification/_CoqProject ===== *)
-Q . S2P
Prelude.v
Result.v
CMem.v
Buffer.v
Descriptor.v
Validate.v
Samples.v
Codec.v
DeepCopy.v
Message.v
Layout.v
LayoutFacts.v
ValidateFacts.v
ValidateSpec.v
CodecFacts.v
CodecRuns.v
Relocate.v
CodecSpec.v
Size.v
CopyFacts.v
CopySpec.v
UnionPtr.v
Examples.v
Serialization.v
SerializationFacts.v
SerializationExamples.v
ControlMessages.v
ControlMessagesFacts.v
Handles.v
HandlesFacts.v
HandlesExamples.v
Arrays.v
ArraysFacts.v
ArraysSpec.v
ArraysExamples.v
Containers.v
ContainersFacts.v
ContainersSpec.v
ContainersExamples.v
RunLoop.v
RunLoopFacts.v
RunLoopSpec.v
RunLoopRuns.v
Waiter.v
WaiterFacts.v
WaiterSpec.v
Environment.v
Router.v
RouterFacts.v
RouterSpec.v
RouterRuns.v
RouterExamples.v
SendExamples.v
ControlMessagesSpec.v
Interfaces.v
InterfacesRouters.v
InterfacesFacts.v
InterfacesSteps.v
InterfacesOps.v
InterfacesPtr.v
InterfacesBinding.v
InterfacesStrong.v
InterfacesSpec.v
InterfacesRoundtrip.v
BindingSets.v
BindingSetsFacts.v
BindingSetsCalls.v
BindingSetsSpec.v
Callbacks.v
CallbacksFacts.v
CallbacksOps.v
CallbacksSpec.v
HandleWatcher.v
HandleWatcherFacts.v
HandleWatcherSpec.v
HandleWatcherRuns.v
HandleWatcherTheorems.v
HandleWatcherExamples.v
HandleWatcherThreads.v
HandleWatcherStops.v
