(* ===== verification/Prelude.v ===== *)
(** * Verification of the Mojo bindings

    The repository is the public SDK of Mojo, an interprocess communication system.
    Programs exchange messages over pipes; a message is a sequence of bytes and of
    handles. The bytes hold a graph of objects - structs, arrays, maps, unions -
    whose pointers are offsets relative to where they are stored, and whose handles
    are indices into the handles of the message. What arrives comes from a peer that
    is not trusted. This development models the code in C and C++ that makes, checks,
    reads and dispatches such messages, and proves that it is correct. Paths below
    are relative to src/.

    ** The parts of the program and how they interact

    - The C bindings (c/lib/bindings, c/include/mojo/bindings) interpret tables of
      type descriptors that a generator emits for each mojom type. A sender builds a
      graph in a buffer ([MojomBuffer_Allocate]), possibly as a deep copy whose size
      it has computed, and encodes it in place. A receiver validates the header and
      the bytes, then decodes them in place.
    - The C++ bindings (cpp/bindings/lib) do the same with generated templates on top
      of a common data path: [FixedBuffer], [BoundsChecker], the encoding of pointers
      and handles, the header validators, the message builders, and the arrays and
      maps. The two libraries are to agree on the wire format.
    - The router (cpp/bindings/lib/router.cc) sits on a connector (connector.cc) that
      owns one end of a pipe. The connector waits for messages with the waiter of the
      environment and passes each one through a chain of validators to the router,
      which pairs responses with requests. Application code runs inside these calls
      and may call back: send, respond, close the pipe, run a nested loop, delete the
      router.
    - Interface pointers and bindings (cpp/bindings/interface_ptr.h, binding.h,
      strong_binding.h) are the two ends of an interface: each owns a router once it is
      bound. Interface handles and requests are pipes that are not bound yet. Control
      messages (lib/control_message_proxy.cc, control_message_handler.cc) ask for the
      version of the other end. Binding sets (binding_set.h, strong_binding_set.h) keep
      bindings until their connections fail.
    - Callbacks (cpp/bindings/callback.h) share what they run, and what that has captured,
      by reference counts (lib/shared_data.h, shared_ptr.h).
    - The run loop (cpp/utility) runs handlers of handles, with deadlines, and delayed
      tasks, on a wait set of the system. Client code runs inside it and may call back.
    - The environment (cpp/environment) gives a program its waiter and its logger. The
      default waiter is a client of the run loop, and the class [AsyncWaiter] a client of
      the waiter, as the connector is. Failed checks end in the default logger.
    - Handles are numbers that the system gives out, and gives out again when they are
      closed or sent. Scoped handles (cpp/system/handle.h) and messages own them.
    - The handle watcher (platform/dart/dart_handle_watcher.cc) is a thread that waits for
      the handles and timers of Dart isolates. It takes commands from a control pipe and
      posts signals to ports; it is started and stopped from other threads.

    ** The files

    Foundations:
    - Prelude: machine integers, the state and error monad [M] with its program logics
      ([wp]: the run returns, with a result in the postcondition; [gwlp]: the run does
      nothing undefined and fails no assertion, unless it may, and if it returns, then
      in the postcondition), loops with fuel, shared lemmas and tactics.
    - Result: result codes, handle rights and signals, time (c/include/mojo/result.h,
      c/include/mojo/system/result.h, handle.h, time.h).
    - CMem: the memory, a finite map from 64-bit addresses to bytes, with little-endian
      loads and stores. An access to an unmapped byte is [Fault].

    The C bindings:
    - Buffer: buffer.c, array.c ([MojomArray_New]); the allocator and its invariant.
    - Descriptor: internal/type_descriptor.h; the tables as data ([denv]) and what it
      means for tables to be well formed ([env_wf]).
    - Validate, Codec, DeepCopy, Size: the four recursive families of functions of
      struct.c, array.c, union.c, map.c and type_descriptor.c, one definition per
      function, in the order of the calls.
    - Message: message.c.
    - Layout, LayoutFacts: the specification of the wire format, an inductive relation
      [lay] between a slot and the objects it leads to, in the encoded and in the
      decoded form. All theorems about the C bindings are stated with it.
    - ValidateFacts and ValidateSpec; CodecFacts, CodecRuns, Relocate and CodecSpec;
      CopyFacts and CopySpec: the proofs and the properties.
    - UnionPtr: unions held by pointer, where the code is wrong: every such union whose
      pointer leads past the end is read there. The other theorems about validation,
      encoding and decoding are of types without them ([no_union_ptr]).
    - Samples, Examples, SendExamples: concrete types and messages, and the theorems
      applied to them.

    The C++ bindings:
    - Serialization, SerializationFacts, SerializationExamples:
      bindings_serialization.cc, fixed_buffer.cc, bounds_checker.cc,
      validation_util.cc, message_header_validator.cc, message_validation.cc,
      message_builder.cc, message_validator.cc.
    - Handles, HandlesFacts, HandlesExamples: system/handle.h, message_pipe.h, data_pipe.h,
      buffer.h, wait.h, the life of a message (message.cc), and
      lib/synchronous_connector.cc.
    - Arrays, ArraysFacts, ArraysSpec, ArraysExamples: array_internal.h,
      array_internal.cc, map_data_internal.h, validate_params.h, and the serialization
      of arrays of plain data, bools and handles (array_serialization.h).
    - Containers, ContainersFacts, ContainersSpec, ContainersExamples: the serialization
      of arrays, maps and strings with elements of any type, nested to any depth
      (array_serialization.h, map_serialization.h, string_serialization.cc, map.h).
    - Router, RouterFacts, RouterSpec, RouterRuns, RouterExamples: connector.cc,
      router.cc and the reading functions of message.cc.
    - ControlMessages, ControlMessagesFacts, ControlMessagesSpec:
      lib/control_message_proxy.cc, control_message_handler.cc and the parameters of
      interfaces/bindings/interface_control_messages.mojom. The generated serialization of
      parameters is the class [Generated], its contract [GeneratedLaws].
    - Interfaces: interface_handle.h, interface_request.h, interface_ptr.h,
      lib/interface_ptr_internal.h, binding.h and strong_binding.h, on a heap of objects
      and of routers, each of which is a world of Router. InterfacesRouters: what a router
      does for them; InterfacesFacts, InterfacesSteps: the invariant; InterfacesOps,
      InterfacesPtr, InterfacesBinding, InterfacesStrong: each operation; InterfacesSpec,
      InterfacesRoundtrip: the properties.
    - BindingSets: binding_set.h and strong_binding_set.h, clients of the bindings of
      Interfaces; BindingSetsFacts, BindingSetsCalls, BindingSetsSpec: the invariant, the
      operations and the properties.
    - Callbacks, CallbacksFacts, CallbacksOps, CallbacksSpec: lib/shared_data.h,
      lib/shared_ptr.h and callback.h.

    The run loop and the environment:
    - RunLoop, RunLoopFacts, RunLoopSpec, RunLoopRuns: utility/lib/run_loop.cc,
      utility/run_loop_handler.h, system/wait_set.h. RunLoopFacts has a program logic for
      clients with state ([client_ok]).
    - Waiter, WaiterFacts, WaiterSpec: environment/lib/default_async_waiter.cc on the run
      loop, and environment/lib/async_waiter.cc on the waiter.
    - Environment: environment/lib/environment.cc, default_logger.cc, logging.cc and
      environment/logging.h.

    The handle watcher of platform/dart/dart_handle_watcher.cc:
    - HandleWatcher: the thread, one definition per function.
    - HandleWatcherSpec: the abstract watcher, a map of watches and a map of alarms.
    - HandleWatcherFacts, HandleWatcherRuns, HandleWatcherTheorems,
      HandleWatcherExamples: the proofs, the properties and concrete runs.
    - HandleWatcherThreads, HandleWatcherStops: Start, Stop and StopAll as steps of
      threads that are interleaved, with the mutex, with commands that isolates send, and
      with the ends of the threads that [join] waits for.

    ** How code is modelled

    A C or C++ function is a definition of the same name in the monad [M]: it takes a
    state (the memory, the validation context, the router's world) and gives a value
    and a state, or [Abort] (an assertion or a [MOJO_CHECK] failed), or [Fault]
    (undefined behaviour: unmapped memory, a deleted object, a descriptor of another
    type), or [OutOfFuel]. Unsigned integers wrap around at their width ([wrap32],
    [wrap64]). Pointers are 64-bit addresses, and the code runs on a little-endian
    machine with 64-bit pointers, as the sources assume. Whether [MOJO_DCHECK] does
    anything is a parameter ([debug]).

    Code outside the sources is a parameter: the tables of descriptors, the generated
    validators of structs and unions, the receivers and handlers of the application,
    and the system, which answers each call with the next answer of a list, arbitrary
    but for the documented behaviour that a theorem names. Application code is data
    ([app] in Router and in Waiter, [client] in RunLoop, [program] in Waiter, [prog] in
    Handles, Interfaces, BindingSets and Callbacks): a tree of calls, each of which may depend on the results before, so that a
    theorem about all such trees is about all applications, whatever they do inside a
    callback. The layers compose: an [AsyncWaiter] program is a Waiter [app], which is a
    [client] of the run loop; the operations of a binding set run those of its bindings,
    which run those of their routers.

    Where a class relies on its users, there is a rule for programs. The operations do not
    know of the rules; what runs a program has a parameter [rules]. With [rules] the program
    is watched: it ends, as [OutOfFuel], when it breaks one. Without, the code runs on,
    whatever the program does. A theorem about such programs is of the run without: if the
    watched run of the same program does not stop, then the run of the code succeeds, with
    the properties that the theorem names ([watches] in Prelude relates the two runs). What
    happens otherwise is shown by theorems and examples. The rules: an interface pointer that
    waits for a version is not moved, and the error handler of a strong binding does not
    delete the implementation and the binding (Interfaces); an implementation is in one
    strong set, once, and the one that is removed is in the set; the destructor of an
    implementation leaves the set alone that runs it (BindingSets); a callback that is
    assigned from is not captured (Callbacks). Uses of objects that the program does not have
    are [OutOfFuel] in both runs ([require]), and so are messages with handles that a program
    of Handles would send by the synchronous connector ([no_handles]).

    ** What is proved

    - Validation ([ValidateSpec]): it ends without leaving the message and accepts exactly
      the messages of the wire format; in what it accepts no slots overlap and no handle
      is used twice.
    - Encoding and decoding ([CodecSpec]): an accepted message decodes into the same
      graph; encoding undoes decoding; a graph that is encoded, moved to another
      address, validated and decoded is the same graph.
    - Copies and sizes ([CopySpec], [Size]): a copy is the same graph; the computed
      size is what it takes; too small a buffer is reported, and nothing else is
      written; the copy can be encoded and is accepted.
    - Buffers, headers and builders ([Buffer], [Message], [SerializationFacts]): blocks
      are disjoint; headers are accepted if and only if they are well formed; C and
      C++ agree; what the builders make is accepted by the header validators of both;
      claimed ranges are disjoint; pointers and handles come back.
    - Arrays ([ArraysFacts], [ArraysSpec]): what is accepted lies in the message with
      all its elements; serialization takes the computed size and is undone by
      deserialization.
    - Containers ([ContainersSpec]): arrays, maps and strings, nested, come back as they
      were, and take the computed size, of a map the keys before the values; nulls are
      refused where they are not allowed.
    - Handles ([HandlesFacts]): every handle that scoped handles and messages take over is
      given away, closed once, or held by one of them; but a message with handles that the
      synchronous connector sent closes what is no longer its own.
    - Router ([RouterSpec], [RouterRuns]): no application, peer or system makes it use
      a deleted object; a release build fails no check if the application leaves the
      pipe alone, and one that drops a callback and then responds always does; each
      responder gets at most one response, to its own request; identifiers do not repeat;
      what is delivered was read, in that order, whatever the application does, and all
      that is in the pipe is delivered to receivers that leave the router at work.
    - Control messages ([ControlMessagesSpec]): the version that is asked for comes back; a
      version that is required is refused exactly when it is newer than the interface's.
    - Interface pointers and bindings ([InterfacesSpec], [InterfacesRoundtrip]): whatever a
      program that keeps the rules does, also inside callbacks, nothing is used after its end,
      every pipe is given away, closed once or held by one object, and each router has one
      owner; a handle that is bound comes back with its version. Of a pointer that is moved
      while it waits for a version, the response always goes to where it was.
    - Binding sets ([BindingSetsSpec]): under the rules, each binding is in one set as long
      as it exists, no iterator is used after it is invalid, no implementation is deleted
      twice. What [RemoveBindings] leaves is described for any number of matches.
    - Callbacks ([CallbacksSpec]): under the rule, each count is the number of references; what is captured
      lives exactly as long as something refers to it; releasing ends and nothing leaks.
    - Run loop ([RunLoopSpec], [RunLoopRuns]): it implements an abstract scheduler of
      handlers and tasks; a registration is for one notification; tasks run once, in
      order, never early; it stops when nothing is due; the destructor notifies all.
    - Waiter ([WaiterSpec]): on the run loop, whatever its clients do, each wait ends once,
      in its callback or by being cancelled, and nothing deleted is used; an
      [AsyncWaiter] completes at most once and not after its destructor.
    - Environment: a failed check ends the program, and nothing below it does, as the
      other files assume of [MOJO_CHECK] and [MOJO_DCHECK].
    - Handle watcher ([HandleWatcherTheorems], [HandleWatcherStops]): while the control pipe
      stays open and its commands are sound ([answer_ok]), the thread keeps its vectors and
      its index in step, implements the abstract watcher, answers only what was asked, and
      ends when told to; threads are told, joined when they have ended, and freed once,
      however calls are interleaved. There is no deadlock as long as commands can be
      written; a command that cannot be written leaves [join] waiting, in [StopAll] with
      the mutex ([failed_write_blocks]).

    Several theorems show defects of the code. In general:
    [Validate_union_ptr_reads_past_end] in UnionPtr, [sync_write_closes_sent_handles] in
    HandlesExamples, [moved_pointer_dangles] in InterfacesRoundtrip,
    [RemoveBindings_erases_one] in BindingSetsSpec, [response_after_dropped_request_aborts]
    in RouterExamples, [failed_write_blocks] in HandleWatcherStops. On concrete inputs: the
    other theorems of UnionPtr, [bool_array_size_wraps] and
    [interface_array_handles_not_encoded] in ArraysExamples, [oversized_array_faults] in
    ContainersExamples, [assign_from_captured_faults] in CallbacksSpec,
    [deadline_leaves_wait_set_entries] in RunLoopRuns, [equal_deadline_timer_lost],
    [WaitDeadline_underflows] and [abandoned_watcher_aborts] in HandleWatcherExamples.
    [strong_handler_deletes_twice] and [null_pointer_stays] show programs that break rules.

    ** Fuel

    - The C functions recurse through the graph and loop over elements. Their fuel
      bounds the depth and each loop. [enough_fuel] asks for two more than the number
      of bytes of the message: each level and each iteration consumes a byte at least.
      With it the theorems say that the result is produced.
    - [run_app] (Router) bounds the depth of nested calls and the messages read in one
      turn. An application may recurse or send to itself for ever, so safety
      and order are stated for every fuel, and delivery with more fuel than messages.
    - [run_client] (RunLoop) bounds the depth of nested runs and the iterations of each
      run; likewise, safety is stated for every fuel, and that runs end for loops that
      have tasks only, with more fuel than tasks.
    - [run_prog] (Handles, Interfaces, BindingSets, Callbacks) bounds the depth of callbacks
      that run callbacks, which programs may nest for ever: safety is stated for every fuel
      with which the watched run does not stop.
      [Release] (Callbacks) recurses through what is captured; [holder_Release] gives it one
      more than the holders that exist, of which each is deleted once, and the theorems say
      that it returns.
    - Loops of Arrays and Serialization run over the elements and need no fuel of their
      own; the nesting of array types is structural.

    ** Not modelled

    - Error strings, log streams and other output; the thread checker and thread-local
      storage of the run loop (one loop per thread is an assumption of the interface).
    - The proxies and stubs that the generator emits for the methods of interfaces, and
      the synchronous interface pointer, which is a proxy on the connector of Handles. The
      waits of interface pointers and bindings for a message only forward to the router.
      [InterfacePtrSet] (interface_ptr_set.h) keeps interface pointers as a binding set
      keeps bindings.
    - The destructors of callbacks that a router deletes with its responders, as far as
      they would run code of the program.
    - C++ containers as a program uses them (array.h, string.h, struct_ptr.h, map.h):
      wrappers of vectors and maps that add a null value; serialization takes their contents.
    - System calls, and the thunks of platform/native, which forward them: the system
      is not in the repository.
    - The embedding of NaCl, the natives of Dart (mojo_natives.cc: conversions of values
      of the Dart VM), the application framework, the headers of GLES2 and the like, and
      the bindings of the other languages, generators and tests. *)
From stdpp Require Import base numbers list option.
From Stdlib Require Import ZArith Lia.
#[global] Open Scope Z_scope.

(** [lia] decides goals with division and remainder by constants. *)
#[global] Ltac Zify.zify_post_hook ::= Z.to_euclidean_division_equations.

(** * Machine-width integers *)

(** Unsigned wrap-around of C's [uint32_t] and of [uint64_t], [size_t] and
    [uintptr_t] on the LP64 platforms modelled. *)
Definition UINT32_MAX : Z := 4294967295.
Definition wrap32 (x : Z) : Z := x mod 2 ^ 32.
Definition wrap64 (x : Z) : Z := x mod 2 ^ 64.

Definition is_u32 (x : Z) : bool := (0 <=? x) && (x <? 2 ^ 32).
Definition is_u64 (x : Z) : bool := (0 <=? x) && (x <? 2 ^ 64).

(** * Outcomes *)

(** What running a C function gives: a value, a failed [assert], undefined
    behaviour (an access outside the mapped memory, a descriptor used at the
    wrong type), or a run cut off because the fuel was too small. *)
Inductive outcome (A : Type) : Type :=
  | Ok (a : A)
  | Abort
  | Fault
  | OutOfFuel.
Arguments Ok {A} a.
Arguments Abort {A}.
Arguments Fault {A}.
Arguments OutOfFuel {A}.

#[export] Instance outcome_ret : MRet outcome := fun A a => Ok a.
#[export] Instance outcome_bind : MBind outcome := fun A B f c =>
  match c with
  | Ok a => f a
  | Abort => Abort
  | Fault => Fault
  | OutOfFuel => OutOfFuel
  end.

Definition of_option {A} (o : option A) : outcome A :=
  match o with Some a => Ok a | None => Fault end.

#[export] Instance outcome_eq_dec {A} `{EqDecision A} : EqDecision (outcome A).
Proof. solve_decision. Defined.

(** Evaluating a run once, to learn that it returns and what holds of the result. *)
Lemma outcome_returns {A} (o : outcome A) (P : A -> bool) :
  match o with Ok a => P a | _ => false end = true -> exists a, o = Ok a /\ P a = true.
Proof. destruct o as [a| | |]; [eauto|done..]. Qed.

Lemma outcome_goes_on {A} (o : outcome A) :
  match o with OutOfFuel => false | _ => true end = true -> o <> OutOfFuel.
Proof. by destruct o. Qed.

(** * Stateful computations *)

(** [M S A]: a C function that reads and writes the objects in [S]. *)
Definition M (S A : Type) : Type := S -> outcome (A * S).

#[export] Instance M_ret {S} : MRet (M S) := fun A a s => Ok (a, s).
#[export] Instance M_bind {S} : MBind (M S) := fun A B f c s =>
  match c s with
  | Ok (a, s') => f a s'
  | Abort => Abort
  | Fault => Fault
  | OutOfFuel => OutOfFuel
  end.

Definition lift {S A} (o : outcome A) : M S A := fun s =>
  match o with
  | Ok a => Ok (a, s)
  | Abort => Abort
  | Fault => Fault
  | OutOfFuel => OutOfFuel
  end.
Definition get {S} : M S S := fun s => Ok (s, s).
Definition put {S} (s' : S) : M S unit := fun _ => Ok (tt, s').
Definition modify {S} (f : S -> S) : M S unit := fun s => Ok (tt, f s).

(** C's [assert], in a build with assertions enabled. *)
Definition assert_ {S} (b : bool) : M S unit :=
  lift (if b then Ok tt else Abort).

(** Evaluating one call of a run at a time. *)
Lemma run_bind {S A B} (c : M S A) (f : A -> M S B) s a s' :
  c s = Ok (a, s') -> (c ≫= f) s = f a s'.
Proof. unfold mbind, M_bind. by intros ->. Qed.

(** [for (x : l) body(x)], where [Some v] is an early [return v] (or a
    [break], when nothing but a return of [v] follows the loop). *)
Fixpoint for_each {S X R} (l : list X) (body : X -> M S (option R)) : M S (option R) :=
  match l with
  | [] => mret None
  | x :: l =>
      r ← body x;
      match r with
      | Some v => mret (Some v)
      | None => for_each l body
      end
  end.

(** [for (i = i0; i < bound; i++) body(i)]: the bound is evaluated again
    before every iteration, as C does. *)
Fixpoint for_upto {S R} (fuel : nat) (i : Z) (bound : M S Z)
    (body : Z -> M S (option R)) : M S (option R) :=
  match fuel with
  | O => lift OutOfFuel
  | Datatypes.S k =>
      n ← bound;
      if i <? n then
        r ← body i;
        match r with
        | Some v => mret (Some v)
        | None => for_upto k (i + 1) bound body
        end
      else mret None
  end.

(** [while (...) body], with the variables of the loop as [A]: the body says
    whether to go on. *)
Fixpoint while_ {S A R} (fuel : nat) (body : A -> M S (A + R)) (a : A) : M S R :=
  match fuel with
  | O => lift OutOfFuel
  | Datatypes.S k =>
      r ← body a;
      match r with
      | inl a' => while_ k body a'
      | inr v => mret v
      end
  end.

(** * Weakest preconditions *)

(** [wp c s Q]: from [s], [c] returns, with a result and a state in [Q]. *)
Definition wp {S A} (c : M S A) (s : S) (Q : A -> S -> Prop) : Prop :=
  match c s with
  | Ok (a, s') => Q a s'
  | _ => False
  end.

Section wp.
Context {S : Type}.

Lemma wp_ret {A} (a : A) (s : S) (Q : A -> S -> Prop) : Q a s -> wp (mret a) s Q.
Proof. done. Qed.

Lemma wp_bind {A B} (c : M S A) (f : A -> M S B) s Q :
  wp c s (fun a s' => wp (f a) s' Q) -> wp (c ≫= f) s Q.
Proof. unfold wp, mbind, M_bind. by destruct (c s) as [[a s']| | |]. Qed.

Lemma wp_mono {A} (c : M S A) s (P Q : A -> S -> Prop) :
  wp c s P -> (forall a s', P a s' -> Q a s') -> wp c s Q.
Proof. unfold wp. destruct (c s) as [[a s']| | |]; eauto. Qed.

Lemma wp_lift {A} (o : outcome A) (a : A) (s : S) (Q : A -> S -> Prop) :
  o = Ok a -> Q a s -> wp (lift o) s Q.
Proof. intros ->. done. Qed.

Lemma wp_assert b (s : S) (Q : unit -> S -> Prop) :
  b = true -> Q tt s -> wp (assert_ b) s Q.
Proof. intros ->. done. Qed.

Lemma wp_get (s : S) (Q : S -> S -> Prop) : Q s s -> wp get s Q.
Proof. done. Qed.

Lemma wp_put s' (s : S) (Q : unit -> S -> Prop) : Q tt s' -> wp (put s') s Q.
Proof. done. Qed.

Lemma wp_modify f (s : S) (Q : unit -> S -> Prop) : Q tt (f s) -> wp (modify f) s Q.
Proof. done. Qed.

Lemma wp_run {A} (c : M S A) s Q :
  wp c s Q <-> exists a s', c s = Ok (a, s') /\ Q a s'.
Proof.
  unfold wp. destruct (c s) as [[a s']| | |]; split.
  1: by intros ?; exists a, s'.
  1: by intros (? & ? & [= -> ->] & ?).
  all: try done; by intros (? & ? & ? & ?).
Qed.

Lemma wp_unit (c : M S unit) s s' : wp c s (fun _ s1 => s1 = s') -> c s = Ok (tt, s').
Proof. unfold wp. by destruct (c s) as [[[] s1]| | |]; intros H; simplify_eq. Qed.

(** Loops: an invariant [I] on the elements (or indices) still to visit. *)
Lemma wp_for_each {X R} (I : list X -> S -> Prop) (l : list X)
    (body : X -> M S (option R)) s (Q : option R -> S -> Prop) :
  I l s ->
  (forall x l' s, I (x :: l') s ->
     wp (body x) s (fun r s' =>
       match r with Some v => Q (Some v) s' | None => I l' s' end)) ->
  (forall s, I [] s -> Q None s) ->
  wp (for_each l body) s Q.
Proof.
  intros HI Hstep Hdone. revert s HI.
  induction l as [|x l IH]; intros s HI; simpl.
  - apply wp_ret. auto.
  - apply wp_bind. eapply wp_mono; [by apply Hstep|].
    intros [v|] s' H'; [by apply wp_ret | by apply IH].
Qed.

Lemma wp_for_upto {R} (I : Z -> S -> Prop) fuel i n (bound : M S Z)
    (body : Z -> M S (option R)) s (Q : option R -> S -> Prop) :
  I i s -> i <= n -> n - i < Z.of_nat fuel ->
  (forall j s, i <= j <= n -> I j s -> wp bound s (fun b s' => b = n /\ s' = s)) ->
  (forall j s, i <= j < n -> I j s ->
     wp (body j) s (fun r s' =>
       match r with Some v => Q (Some v) s' | None => I (j + 1) s' end)) ->
  (forall s, I n s -> Q None s) ->
  wp (for_upto fuel i bound body) s Q.
Proof.
  revert i s.
  induction fuel as [|k IH]; intros i s HI Hle Hfuel Hb Hstep Hdone; [lia|].
  simpl. apply wp_bind. eapply wp_mono; [apply (Hb i); [lia|done]|].
  intros b s' [-> ->].
  destruct (Z.ltb_spec i n).
  - apply wp_bind. eapply wp_mono; [apply (Hstep i); [lia|done]|].
    intros [v|] s' H'; [by apply wp_ret|].
    apply IH; auto; try lia.
    + intros j s0 Hj. apply (Hb j). lia.
    + intros j s0 Hj. apply (Hstep j). lia.
  - apply wp_ret, Hdone. by replace n with i by lia.
Qed.
End wp.

(** ** Liberal preconditions

    [gwlp may_abort c s Q]: from [s], [c] accesses nothing it may not and fails no
    assertion, unless [may_abort], and if it returns, then in [Q]. Used of code
    that runs for as long as its environment answers. *)
Definition gwlp (may_abort : bool) {S A} (c : M S A) (s : S) (Q : A -> S -> Prop) : Prop :=
  match c s with
  | Ok (a, s') => Q a s'
  | OutOfFuel => True
  | Abort => may_abort = true
  | Fault => False
  end.
Abbreviation wlp := (gwlp false).

Section wlp.
Context {S : Type} {b : bool}.

Lemma wlp_ret {A} (a : A) (s : S) (Q : A -> S -> Prop) : Q a s -> gwlp b (mret a) s Q.
Proof. done. Qed.

Lemma wlp_bind {A B} (c : M S A) (f : A -> M S B) s Q :
  gwlp b c s (fun a s' => gwlp b (f a) s' Q) -> gwlp b (c ≫= f) s Q.
Proof. unfold gwlp, mbind, M_bind. by destruct (c s) as [[a s']| | |]. Qed.

Lemma wlp_mono {A} (c : M S A) s (P Q : A -> S -> Prop) :
  gwlp b c s P -> (forall a s', P a s' -> Q a s') -> gwlp b c s Q.
Proof. unfold gwlp. destruct (c s) as [[a s']| | |]; eauto. Qed.

Lemma wlp_lift {A} (o : outcome A) (a : A) (s : S) (Q : A -> S -> Prop) :
  o = Ok a -> Q a s -> gwlp b (lift o) s Q.
Proof. intros ->. done. Qed.

Lemma wlp_assert c (s : S) (Q : unit -> S -> Prop) :
  c = true -> Q tt s -> gwlp b (assert_ c) s Q.
Proof. intros ->. done. Qed.

Lemma wlp_get (s : S) (Q : S -> S -> Prop) : Q s s -> gwlp b get s Q.
Proof. done. Qed.

Lemma wlp_put s' (s : S) (Q : unit -> S -> Prop) : Q tt s' -> gwlp b (put s') s Q.
Proof. done. Qed.

Lemma wlp_modify f (s : S) (Q : unit -> S -> Prop) : Q tt (f s) -> gwlp b (modify f) s Q.
Proof. done. Qed.

Lemma wlp_fuel {A} (s : S) (Q : A -> S -> Prop) : gwlp b (lift OutOfFuel) s Q.
Proof. done. Qed.

Lemma wlp_result {A} (c : M S A) s (Q : A -> S -> Prop) a s' :
  gwlp b c s Q -> c s = Ok (a, s') -> Q a s'.
Proof. unfold gwlp. intros H Hc. by rewrite Hc in H. Qed.

Lemma wlp_while {A R} (I : A -> S -> Prop) fuel (body : A -> M S (A + R)) a s (Q : R -> S -> Prop) :
  I a s ->
  (forall a s, I a s -> gwlp b (body a) s (fun r s' =>
     match r with inl a' => I a' s' | inr v => Q v s' end)) ->
  gwlp b (while_ fuel body a) s Q.
Proof.
  intros HI Hstep. revert a s HI. induction fuel as [|k IH]; intros a s HI; [done|].
  simpl. apply wlp_bind. eapply wlp_mono; [by apply Hstep|]. intros [a'|v] s' H; [by apply IH|done].
Qed.
End wlp.

(** ** Runs that are watched

    [watches m r]: [m] is [r], except that it may stop: it ends without a result, or
    does what [r] does. A contract of the code, such as a rule that its clients are to
    keep, is checked by a run that watches the run of the code; what is proved of the
    one holds of the other as long as the check does not stop it. *)
Definition watches {S A} (m r : M S A) : Prop := forall s, m s = OutOfFuel \/ m s = r s.

Lemma watches_refl {S A} (c : M S A) : watches c c.
Proof. intros s. by right. Qed.
Lemma watches_stop {S A} (c : M S A) : watches (lift OutOfFuel) c.
Proof. intros s. by left. Qed.
Lemma watches_bind {S A B} (c d : M S A) (f g : A -> M S B) :
  watches c d -> (forall a, watches (f a) (g a)) -> watches (c ≫= f) (d ≫= g).
Proof.
  intros Hc Hf s. unfold mbind, M_bind. destruct (Hc s) as [->| ->]; [by left|].
  destruct (d s) as [[a s']| | |]; [apply Hf|by right..].
Qed.
Lemma watches_for_each {S X R} (l : list X) (f g : X -> M S (option R)) :
  (forall x, watches (f x) (g x)) -> watches (for_each l f) (for_each l g).
Proof.
  intros Hf. induction l as [|x l IH]; [apply watches_refl|]. cbn. apply watches_bind; [done|].
  intros [v|]; [apply watches_refl|done].
Qed.
Lemma watches_result {S A} (m r : M S A) s (Q : A -> S -> Prop) :
  watches m r -> wlp m s Q -> m s <> OutOfFuel -> exists a s', r s = Ok (a, s') /\ Q a s'.
Proof.
  intros [|Hr]%(fun H => H s) Hm Hs; [done|]. rewrite <- Hr. unfold gwlp in Hm.
  destruct (m s) as [[a s']| | |]; [by exists a, s'|done..].
Qed.

(** The two runs side by side. *)
Ltac watch :=
  lazymatch goal with
  | |- watches (_ ≫= _) (_ ≫= _) => apply watches_bind; [|intros ?]
  | |- watches (match ?x with _ => _ end) (match ?x with _ => _ end) => destruct x
  | |- watches ?c ?c => apply watches_refl
  | |- watches (lift OutOfFuel) _ => apply watches_stop
  | |- watches (for_each _ _) (for_each _ _) => apply watches_for_each; intros ?
  end.

(** * Width and rounding lemmas *)

Lemma wrap32_small x : 0 <= x < 2 ^ 32 -> wrap32 x = x.
Proof. apply Z.mod_small. Qed.

Lemma wrap64_small x : 0 <= x < 2 ^ 64 -> wrap64 x = x.
Proof. apply Z.mod_small. Qed.

Lemma wrap32_range x : 0 <= wrap32 x < 2 ^ 32.
Proof. by apply Z.mod_pos_bound. Qed.

Lemma wrap64_range x : 0 <= wrap64 x < 2 ^ 64.
Proof. by apply Z.mod_pos_bound. Qed.

Lemma is_u32_spec x : is_u32 x = true <-> 0 <= x < 2 ^ 32.
Proof. unfold is_u32. rewrite andb_true_iff, Z.leb_le, Z.ltb_lt. lia. Qed.

Lemma land_7 x : Z.land x 7 = x mod 8.
Proof. change 7 with (Z.ones 3). by rewrite Z.land_ones. Qed.

(** [(x + 7) & ~7], in unbounded integers: the next multiple of 8. *)
Lemma land_not_7 x : Z.land x (-8) = 8 * (x / 8).
Proof.
  change (-8) with (Z.lnot (Z.ones 3)).
  rewrite <- Z.ldiff_land, Z.ldiff_ones_r by lia.
  rewrite Z.shiftr_div_pow2, Z.shiftl_mul_pow2 by lia.
  change (2 ^ 3) with 8. lia.
Qed.

(** * Tactics *)

(** Splits boolean guards of the source into arithmetic facts. *)
Ltac bool_facts :=
  repeat match goal with
  | H : _ && _ = true |- _ => apply andb_true_iff in H; destruct H
  | H : _ || _ = false |- _ => apply orb_false_iff in H; destruct H
  | H : negb _ = true |- _ => apply negb_true_iff in H
  | H : negb _ = false |- _ => apply negb_false_iff in H
  | H : (_ <=? _) = true |- _ => apply Z.leb_le in H
  | H : (_ <=? _) = false |- _ => apply Z.leb_gt in H
  | H : (_ <? _) = true |- _ => apply Z.ltb_lt in H
  | H : (_ <? _) = false |- _ => apply Z.ltb_ge in H
  | H : (_ =? _) = true |- _ => apply Z.eqb_eq in H
  | H : (_ =? _) = false |- _ => apply Z.eqb_neq in H
  end.

(** One step of a [wp] goal through the monad's operations. *)
Ltac wp_step :=
  lazymatch goal with
  | |- wp (_ ≫= _) _ _ => apply wp_bind
  | |- wp (mret _) _ _ => apply wp_ret
  | |- wp get _ _ => apply wp_get
  | |- wp (put _) _ _ => apply wp_put
  | |- wp (modify _) _ _ => apply wp_modify
  end.

(** The same for [wlp]. *)
Ltac wlp_step :=
  lazymatch goal with
  | |- gwlp _ (_ ≫= _) _ _ => apply wlp_bind
  | |- gwlp _ (mret _) _ _ => apply wlp_ret
  | |- gwlp _ get _ _ => apply wlp_get
  | |- gwlp _ (put _) _ _ => apply wlp_put
  | |- gwlp _ (modify _) _ _ => apply wlp_modify
  | |- gwlp _ (lift OutOfFuel) _ _ => apply wlp_fuel
  end.
