(* ===== verification/Result.v ===== *)
(** Results, handle rights and signals, time: src/c/include/mojo/result.h and
    src/c/include/mojo/system/result.h, handle.h and time.h. A [MojoResult] packs
    a base error code, a subcode and an error space in 32 bits. *)
From stdpp Require Import base numbers list.
From Stdlib Require Import ZArith Lia.
From S2P Require Import Prelude.

Abbreviation MojoResult := Z.

Definition MOJO_RESULT_MAKE (base_error_code error_space error_subcode : Z) : MojoResult :=
  Z.lor (Z.lor base_error_code (wrap32 (Z.shiftl error_space 16))) (wrap32 (Z.shiftl error_subcode 4)).
Definition MOJO_RESULT_GET_CODE (result : MojoResult) : Z := Z.land result 0xf.
Definition MOJO_RESULT_GET_SPACE (result : MojoResult) : Z := Z.shiftr (Z.land result 0xffff0000) 16.
Definition MOJO_RESULT_GET_SUBCODE (result : MojoResult) : Z := Z.shiftr (Z.land result 0xfff0) 4.

(** * Codes *)

Definition MOJO_ERROR_CODE_OK : MojoResult := 0x0.
Definition MOJO_ERROR_CODE_CANCELLED : MojoResult := 0x1.
Definition MOJO_ERROR_CODE_UNKNOWN : MojoResult := 0x2.
Definition MOJO_ERROR_CODE_INVALID_ARGUMENT : MojoResult := 0x3.
Definition MOJO_ERROR_CODE_DEADLINE_EXCEEDED : MojoResult := 0x4.
Definition MOJO_ERROR_CODE_NOT_FOUND : MojoResult := 0x5.
Definition MOJO_ERROR_CODE_ALREADY_EXISTS : MojoResult := 0x6.
Definition MOJO_ERROR_CODE_PERMISSION_DENIED : MojoResult := 0x7.
Definition MOJO_ERROR_CODE_RESOURCE_EXHAUSTED : MojoResult := 0x8.
Definition MOJO_ERROR_CODE_FAILED_PRECONDITION : MojoResult := 0x9.
Definition MOJO_ERROR_CODE_ABORTED : MojoResult := 0xa.
Definition MOJO_ERROR_CODE_OUT_OF_RANGE : MojoResult := 0xb.
Definition MOJO_ERROR_CODE_UNIMPLEMENTED : MojoResult := 0xc.
Definition MOJO_ERROR_CODE_INTERNAL : MojoResult := 0xd.
Definition MOJO_ERROR_CODE_UNAVAILABLE : MojoResult := 0xe.
Definition MOJO_ERROR_CODE_DATA_LOSS : MojoResult := 0xf.
Definition MOJO_ERROR_SUBCODE_GENERIC : MojoResult := 0x000.
Definition MOJO_ERROR_SPACE_SYSTEM : MojoResult := 0x0000.
Definition MOJO_RESULT_OK : MojoResult :=
  MOJO_RESULT_MAKE MOJO_ERROR_CODE_OK 0x0000 MOJO_ERROR_SUBCODE_GENERIC.

Definition MOJO_SYSTEM_ERROR_CODE_INVALID_ARGUMENT_SUBCODE_BAD_HANDLE : MojoResult := 0x001.
Definition MOJO_SYSTEM_ERROR_CODE_INVALID_ARGUMENT_SUBCODE_WRONG_TYPE : MojoResult := 0x002.
Definition MOJO_SYSTEM_ERROR_CODE_FAILED_PRECONDITION_SUBCODE_BUSY : MojoResult := 0x001.
Definition MOJO_SYSTEM_ERROR_CODE_UNAVAILABLE_SUBCODE_SHOULD_WAIT : MojoResult := 0x001.

(** * System results *)

Definition MOJO_SYSTEM_RESULT_CANCELLED : MojoResult :=
  MOJO_RESULT_MAKE MOJO_ERROR_CODE_CANCELLED MOJO_ERROR_SPACE_SYSTEM MOJO_ERROR_SUBCODE_GENERIC.
Definition MOJO_SYSTEM_RESULT_UNKNOWN : MojoResult :=
  MOJO_RESULT_MAKE MOJO_ERROR_CODE_UNKNOWN MOJO_ERROR_SPACE_SYSTEM MOJO_ERROR_SUBCODE_GENERIC.
Definition MOJO_SYSTEM_RESULT_INVALID_ARGUMENT : MojoResult :=
  MOJO_RESULT_MAKE MOJO_ERROR_CODE_INVALID_ARGUMENT MOJO_ERROR_SPACE_SYSTEM MOJO_ERROR_SUBCODE_GENERIC.
Definition MOJO_SYSTEM_RESULT_BAD_HANDLE : MojoResult :=
  MOJO_RESULT_MAKE MOJO_ERROR_CODE_INVALID_ARGUMENT MOJO_ERROR_SPACE_SYSTEM MOJO_SYSTEM_ERROR_CODE_INVALID_ARGUMENT_SUBCODE_BAD_HANDLE.
Definition MOJO_SYSTEM_RESULT_WRONG_TYPE : MojoResult :=
  MOJO_RESULT_MAKE MOJO_ERROR_CODE_INVALID_ARGUMENT MOJO_ERROR_SPACE_SYSTEM MOJO_SYSTEM_ERROR_CODE_INVALID_ARGUMENT_SUBCODE_WRONG_TYPE.
Definition MOJO_SYSTEM_RESULT_DEADLINE_EXCEEDED : MojoResult :=
  MOJO_RESULT_MAKE MOJO_ERROR_CODE_DEADLINE_EXCEEDED MOJO_ERROR_SPACE_SYSTEM MOJO_ERROR_SUBCODE_GENERIC.
Definition MOJO_SYSTEM_RESULT_NOT_FOUND : MojoResult :=
  MOJO_RESULT_MAKE MOJO_ERROR_CODE_NOT_FOUND MOJO_ERROR_SPACE_SYSTEM MOJO_ERROR_SUBCODE_GENERIC.
Definition MOJO_SYSTEM_RESULT_ALREADY_EXISTS : MojoResult :=
  MOJO_RESULT_MAKE MOJO_ERROR_CODE_ALREADY_EXISTS MOJO_ERROR_SPACE_SYSTEM MOJO_ERROR_SUBCODE_GENERIC.
Definition MOJO_SYSTEM_RESULT_PERMISSION_DENIED : MojoResult :=
  MOJO_RESULT_MAKE MOJO_ERROR_CODE_PERMISSION_DENIED MOJO_ERROR_SPACE_SYSTEM MOJO_ERROR_SUBCODE_GENERIC.
Definition MOJO_SYSTEM_RESULT_RESOURCE_EXHAUSTED : MojoResult :=
  MOJO_RESULT_MAKE MOJO_ERROR_CODE_RESOURCE_EXHAUSTED MOJO_ERROR_SPACE_SYSTEM MOJO_ERROR_SUBCODE_GENERIC.
Definition MOJO_SYSTEM_RESULT_FAILED_PRECONDITION : MojoResult :=
  MOJO_RESULT_MAKE MOJO_ERROR_CODE_FAILED_PRECONDITION MOJO_ERROR_SPACE_SYSTEM MOJO_ERROR_SUBCODE_GENERIC.
Definition MOJO_SYSTEM_RESULT_BUSY : MojoResult :=
  MOJO_RESULT_MAKE MOJO_ERROR_CODE_FAILED_PRECONDITION MOJO_ERROR_SPACE_SYSTEM MOJO_SYSTEM_ERROR_CODE_FAILED_PRECONDITION_SUBCODE_BUSY.
Definition MOJO_SYSTEM_RESULT_ABORTED : MojoResult :=
  MOJO_RESULT_MAKE MOJO_ERROR_CODE_ABORTED MOJO_ERROR_SPACE_SYSTEM MOJO_ERROR_SUBCODE_GENERIC.
Definition MOJO_SYSTEM_RESULT_OUT_OF_RANGE : MojoResult :=
  MOJO_RESULT_MAKE MOJO_ERROR_CODE_OUT_OF_RANGE MOJO_ERROR_SPACE_SYSTEM MOJO_ERROR_SUBCODE_GENERIC.
Definition MOJO_SYSTEM_RESULT_UNIMPLEMENTED : MojoResult :=
  MOJO_RESULT_MAKE MOJO_ERROR_CODE_UNIMPLEMENTED MOJO_ERROR_SPACE_SYSTEM MOJO_ERROR_SUBCODE_GENERIC.
Definition MOJO_SYSTEM_RESULT_INTERNAL : MojoResult :=
  MOJO_RESULT_MAKE MOJO_ERROR_CODE_INTERNAL MOJO_ERROR_SPACE_SYSTEM MOJO_ERROR_SUBCODE_GENERIC.
Definition MOJO_SYSTEM_RESULT_UNAVAILABLE : MojoResult :=
  MOJO_RESULT_MAKE MOJO_ERROR_CODE_UNAVAILABLE MOJO_ERROR_SPACE_SYSTEM MOJO_ERROR_SUBCODE_GENERIC.
Definition MOJO_SYSTEM_RESULT_SHOULD_WAIT : MojoResult :=
  MOJO_RESULT_MAKE MOJO_ERROR_CODE_UNAVAILABLE MOJO_ERROR_SPACE_SYSTEM MOJO_SYSTEM_ERROR_CODE_UNAVAILABLE_SUBCODE_SHOULD_WAIT.
Definition MOJO_SYSTEM_RESULT_DATA_LOSS : MojoResult :=
  MOJO_RESULT_MAKE MOJO_ERROR_CODE_DATA_LOSS MOJO_ERROR_SPACE_SYSTEM MOJO_ERROR_SUBCODE_GENERIC.

(** The older names of result.h. *)

Definition MOJO_ERROR_CODE_FAILED_PRECONDITION_SUBCODE_BUSY : MojoResult := 0x001.
Definition MOJO_ERROR_CODE_UNAVAILABLE_SUBCODE_SHOULD_WAIT : MojoResult := 0x001.
Definition MOJO_RESULT_CANCELLED : MojoResult :=
  MOJO_RESULT_MAKE MOJO_ERROR_CODE_CANCELLED MOJO_ERROR_SPACE_SYSTEM MOJO_ERROR_SUBCODE_GENERIC.
Definition MOJO_RESULT_UNKNOWN : MojoResult :=
  MOJO_RESULT_MAKE MOJO_ERROR_CODE_UNKNOWN MOJO_ERROR_SPACE_SYSTEM MOJO_ERROR_SUBCODE_GENERIC.
Definition MOJO_RESULT_INVALID_ARGUMENT : MojoResult :=
  MOJO_RESULT_MAKE MOJO_ERROR_CODE_INVALID_ARGUMENT MOJO_ERROR_SPACE_SYSTEM MOJO_ERROR_SUBCODE_GENERIC.
Definition MOJO_RESULT_DEADLINE_EXCEEDED : MojoResult :=
  MOJO_RESULT_MAKE MOJO_ERROR_CODE_DEADLINE_EXCEEDED MOJO_ERROR_SPACE_SYSTEM MOJO_ERROR_SUBCODE_GENERIC.
Definition MOJO_RESULT_NOT_FOUND : MojoResult :=
  MOJO_RESULT_MAKE MOJO_ERROR_CODE_NOT_FOUND MOJO_ERROR_SPACE_SYSTEM MOJO_ERROR_SUBCODE_GENERIC.
Definition MOJO_RESULT_ALREADY_EXISTS : MojoResult :=
  MOJO_RESULT_MAKE MOJO_ERROR_CODE_ALREADY_EXISTS MOJO_ERROR_SPACE_SYSTEM MOJO_ERROR_SUBCODE_GENERIC.
Definition MOJO_RESULT_PERMISSION_DENIED : MojoResult :=
  MOJO_RESULT_MAKE MOJO_ERROR_CODE_PERMISSION_DENIED MOJO_ERROR_SPACE_SYSTEM MOJO_ERROR_SUBCODE_GENERIC.
Definition MOJO_RESULT_RESOURCE_EXHAUSTED : MojoResult :=
  MOJO_RESULT_MAKE MOJO_ERROR_CODE_RESOURCE_EXHAUSTED MOJO_ERROR_SPACE_SYSTEM MOJO_ERROR_SUBCODE_GENERIC.
Definition MOJO_RESULT_FAILED_PRECONDITION : MojoResult :=
  MOJO_RESULT_MAKE MOJO_ERROR_CODE_FAILED_PRECONDITION MOJO_ERROR_SPACE_SYSTEM MOJO_ERROR_SUBCODE_GENERIC.
Definition MOJO_RESULT_ABORTED : MojoResult :=
  MOJO_RESULT_MAKE MOJO_ERROR_CODE_ABORTED MOJO_ERROR_SPACE_SYSTEM MOJO_ERROR_SUBCODE_GENERIC.
Definition MOJO_RESULT_OUT_OF_RANGE : MojoResult :=
  MOJO_RESULT_MAKE MOJO_ERROR_CODE_OUT_OF_RANGE MOJO_ERROR_SPACE_SYSTEM MOJO_ERROR_SUBCODE_GENERIC.
Definition MOJO_RESULT_UNIMPLEMENTED : MojoResult :=
  MOJO_RESULT_MAKE MOJO_ERROR_CODE_UNIMPLEMENTED MOJO_ERROR_SPACE_SYSTEM MOJO_ERROR_SUBCODE_GENERIC.
Definition MOJO_RESULT_INTERNAL : MojoResult :=
  MOJO_RESULT_MAKE MOJO_ERROR_CODE_INTERNAL MOJO_ERROR_SPACE_SYSTEM MOJO_ERROR_SUBCODE_GENERIC.
Definition MOJO_RESULT_UNAVAILABLE : MojoResult :=
  MOJO_RESULT_MAKE MOJO_ERROR_CODE_UNAVAILABLE MOJO_ERROR_SPACE_SYSTEM MOJO_ERROR_SUBCODE_GENERIC.
Definition MOJO_RESULT_DATA_LOSS : MojoResult :=
  MOJO_RESULT_MAKE MOJO_ERROR_CODE_DATA_LOSS MOJO_ERROR_SPACE_SYSTEM MOJO_ERROR_SUBCODE_GENERIC.
Definition MOJO_RESULT_BUSY : MojoResult :=
  MOJO_RESULT_MAKE MOJO_ERROR_CODE_FAILED_PRECONDITION MOJO_ERROR_SPACE_SYSTEM MOJO_ERROR_CODE_FAILED_PRECONDITION_SUBCODE_BUSY.
Definition MOJO_RESULT_SHOULD_WAIT : MojoResult :=
  MOJO_RESULT_MAKE MOJO_ERROR_CODE_UNAVAILABLE MOJO_ERROR_SPACE_SYSTEM MOJO_ERROR_CODE_UNAVAILABLE_SUBCODE_SHOULD_WAIT.

(** * Handles *)

Definition MOJO_HANDLE_RIGHT_NONE : Z := 0.
Definition MOJO_HANDLE_RIGHT_DUPLICATE : Z := Z.shiftl 1 0.
Definition MOJO_HANDLE_RIGHT_TRANSFER : Z := Z.shiftl 1 1.
Definition MOJO_HANDLE_RIGHT_READ : Z := Z.shiftl 1 2.
Definition MOJO_HANDLE_RIGHT_WRITE : Z := Z.shiftl 1 3.
Definition MOJO_HANDLE_RIGHT_EXECUTE : Z := Z.shiftl 1 4.
Definition MOJO_HANDLE_RIGHT_MAP : Z := Z.shiftl 1 5.
Definition MOJO_HANDLE_RIGHT_GET_OPTIONS : Z := Z.shiftl 1 6.
Definition MOJO_HANDLE_RIGHT_SET_OPTIONS : Z := Z.shiftl 1 7.
Definition MOJO_HANDLE_SIGNAL_NONE : Z := 0.
Definition MOJO_HANDLE_SIGNAL_READABLE : Z := Z.shiftl 1 0.
Definition MOJO_HANDLE_SIGNAL_WRITABLE : Z := Z.shiftl 1 1.
Definition MOJO_HANDLE_SIGNAL_PEER_CLOSED : Z := Z.shiftl 1 2.
Definition MOJO_HANDLE_SIGNAL_SIGNAL0 : Z := Z.shiftl 1 3.
Definition MOJO_HANDLE_SIGNAL_SIGNAL1 : Z := Z.shiftl 1 4.
Definition MOJO_HANDLE_SIGNAL_SIGNAL2 : Z := Z.shiftl 1 5.
Definition MOJO_HANDLE_SIGNAL_SIGNAL3 : Z := Z.shiftl 1 6.
Definition MOJO_HANDLE_SIGNAL_SIGNAL4 : Z := Z.shiftl 1 7.
Definition MOJO_HANDLE_SIGNAL_READ_THRESHOLD : Z := Z.shiftl 1 8.
Definition MOJO_HANDLE_SIGNAL_WRITE_THRESHOLD : Z := Z.shiftl 1 9.
Definition MOJO_HANDLE_SIGNAL_SIGNALED : Z := MOJO_HANDLE_SIGNAL_SIGNAL0.
Definition MOJO_HANDLE_SIGNAL_SIGNALS_MASK : Z := Z.shiftl 31 3.

(** * Time *)

(** [MojoTimeTicks] is a signed 64-bit number of microseconds, [MojoDeadline] an
    unsigned one. *)
Definition MOJO_DEADLINE_INDEFINITE : Z := wrap64 (-1).
Definition kMaxMojoTimeTicks : Z := 2 ^ 63 - 1.

(** * What the packing guarantees *)

Lemma GET_CODE_spec r : MOJO_RESULT_GET_CODE r = r mod 16.
Proof. unfold MOJO_RESULT_GET_CODE. change 0xf with (Z.ones 4). by rewrite Z.land_ones. Qed.

Lemma GET_field_spec r lo n :
  0 <= lo -> 0 <= n ->
  Z.shiftr (Z.land r (Z.shiftl (Z.ones n) lo)) lo = (r / 2 ^ lo) mod 2 ^ n.
Proof.
  intros Hlo Hn. rewrite Z.shiftr_land, Z.shiftr_shiftl_l, Z.sub_diag, Z.shiftl_0_r by done.
  by rewrite Z.land_ones, Z.shiftr_div_pow2 by done.
Qed.

Lemma GET_SUBCODE_spec r : MOJO_RESULT_GET_SUBCODE r = (r / 16) mod 4096.
Proof. apply (GET_field_spec r 4 12); done. Qed.

Lemma GET_SPACE_spec r : MOJO_RESULT_GET_SPACE r = (r / 65536) mod 65536.
Proof. apply (GET_field_spec r 16 16); done. Qed.

(** Or-ing bits above those of the other operand adds. *)
Lemma lor_add a b n : 0 <= n -> 0 <= a < 2 ^ n -> Z.lor a (b * 2 ^ n) = a + b * 2 ^ n.
Proof.
  intros Hn Ha. rewrite <- Z.add_lor_land.
  replace (Z.land a (b * 2 ^ n)) with 0; [lia|]. symmetry.
  apply Z.bits_inj'; intros i Hi. rewrite Z.land_spec, Z.bits_0.
  destruct (Z.ltb_spec i n); [by rewrite Z.mul_pow2_bits_low, andb_false_r|].
  rewrite <- (Z.mod_small a (2 ^ n)) by done. by rewrite Z.mod_pow2_bits_high by lia.
Qed.

Lemma MAKE_spec code space sub :
  0 <= code < 16 -> 0 <= space < 65536 -> 0 <= sub < 4096 ->
  MOJO_RESULT_MAKE code space sub = code + 16 * sub + 65536 * space.
Proof.
  intros Hc Hs Hb. unfold MOJO_RESULT_MAKE. rewrite !Z.shiftl_mul_pow2 by done.
  rewrite !wrap32_small by lia.
  rewrite <- Z.lor_assoc, (Z.lor_comm (space * _)), Z.lor_assoc, (lor_add code sub 4) by lia.
  rewrite (lor_add _ space 16) by lia. lia.
Qed.

(** [MOJO_RESULT_MAKE] and the three [MOJO_RESULT_GET_] macros are inverse to
    each other: the fields of a result made of a 4-bit code, a 16-bit space and
    a 12-bit subcode are those, and every 32-bit result is made of its fields. *)
Theorem MOJO_RESULT_fields :
  (forall code space sub, 0 <= code < 16 -> 0 <= space < 65536 -> 0 <= sub < 4096 ->
     let r := MOJO_RESULT_MAKE code space sub in
     is_u32 r = true /\ MOJO_RESULT_GET_CODE r = code /\ MOJO_RESULT_GET_SPACE r = space /\
     MOJO_RESULT_GET_SUBCODE r = sub) /\
  (forall r, is_u32 r = true ->
     MOJO_RESULT_MAKE (MOJO_RESULT_GET_CODE r) (MOJO_RESULT_GET_SPACE r) (MOJO_RESULT_GET_SUBCODE r) = r).
Proof.
  split.
  - intros code space sub Hc Hs Hb r. unfold r. rewrite MAKE_spec by done.
    rewrite GET_CODE_spec, GET_SPACE_spec, GET_SUBCODE_spec, is_u32_spec.
    repeat split; lia.
  - intros r Hr. apply is_u32_spec in Hr.
    rewrite GET_CODE_spec, GET_SPACE_spec, GET_SUBCODE_spec, MAKE_spec by lia. lia.
Qed.

Definition system_results : list MojoResult := [
  MOJO_RESULT_OK; MOJO_SYSTEM_RESULT_CANCELLED;
  MOJO_SYSTEM_RESULT_UNKNOWN;
  MOJO_SYSTEM_RESULT_INVALID_ARGUMENT;
  MOJO_SYSTEM_RESULT_BAD_HANDLE;
  MOJO_SYSTEM_RESULT_WRONG_TYPE;
  MOJO_SYSTEM_RESULT_DEADLINE_EXCEEDED;
  MOJO_SYSTEM_RESULT_NOT_FOUND;
  MOJO_SYSTEM_RESULT_ALREADY_EXISTS;
  MOJO_SYSTEM_RESULT_PERMISSION_DENIED;
  MOJO_SYSTEM_RESULT_RESOURCE_EXHAUSTED;
  MOJO_SYSTEM_RESULT_FAILED_PRECONDITION;
  MOJO_SYSTEM_RESULT_BUSY;
  MOJO_SYSTEM_RESULT_ABORTED;
  MOJO_SYSTEM_RESULT_OUT_OF_RANGE;
  MOJO_SYSTEM_RESULT_UNIMPLEMENTED;
  MOJO_SYSTEM_RESULT_INTERNAL;
  MOJO_SYSTEM_RESULT_UNAVAILABLE;
  MOJO_SYSTEM_RESULT_SHOULD_WAIT;
  MOJO_SYSTEM_RESULT_DATA_LOSS ].

(** The names of result.h, each with the name that replaces it. *)
Definition renamed_results : list (MojoResult * MojoResult) := [
  (MOJO_RESULT_CANCELLED, MOJO_SYSTEM_RESULT_CANCELLED);
  (MOJO_RESULT_UNKNOWN, MOJO_SYSTEM_RESULT_UNKNOWN);
  (MOJO_RESULT_INVALID_ARGUMENT, MOJO_SYSTEM_RESULT_INVALID_ARGUMENT);
  (MOJO_RESULT_DEADLINE_EXCEEDED, MOJO_SYSTEM_RESULT_DEADLINE_EXCEEDED);
  (MOJO_RESULT_NOT_FOUND, MOJO_SYSTEM_RESULT_NOT_FOUND);
  (MOJO_RESULT_ALREADY_EXISTS, MOJO_SYSTEM_RESULT_ALREADY_EXISTS);
  (MOJO_RESULT_PERMISSION_DENIED, MOJO_SYSTEM_RESULT_PERMISSION_DENIED);
  (MOJO_RESULT_RESOURCE_EXHAUSTED, MOJO_SYSTEM_RESULT_RESOURCE_EXHAUSTED);
  (MOJO_RESULT_FAILED_PRECONDITION, MOJO_SYSTEM_RESULT_FAILED_PRECONDITION);
  (MOJO_RESULT_ABORTED, MOJO_SYSTEM_RESULT_ABORTED);
  (MOJO_RESULT_OUT_OF_RANGE, MOJO_SYSTEM_RESULT_OUT_OF_RANGE);
  (MOJO_RESULT_UNIMPLEMENTED, MOJO_SYSTEM_RESULT_UNIMPLEMENTED);
  (MOJO_RESULT_INTERNAL, MOJO_SYSTEM_RESULT_INTERNAL);
  (MOJO_RESULT_UNAVAILABLE, MOJO_SYSTEM_RESULT_UNAVAILABLE);
  (MOJO_RESULT_DATA_LOSS, MOJO_SYSTEM_RESULT_DATA_LOSS);
  (MOJO_RESULT_BUSY, MOJO_SYSTEM_RESULT_BUSY);
  (MOJO_RESULT_SHOULD_WAIT, MOJO_SYSTEM_RESULT_SHOULD_WAIT) ].

(** The system results are pairwise distinct, so a caller that switches on a
    result takes one case; each of the older names of result.h has the value of
    the name that replaces it. *)
Theorem system_results_distinct :
  NoDup system_results /\ Forall (fun x => x.1 = x.2) renamed_results.
Proof.
  split; [by apply (bool_decide_unpack _); vm_compute|]. by repeat constructor.
Qed.
