(* ===== verification/CMem.v ===== *)
(** The memory the C code runs on: a partial map from 64-bit addresses to
    bytes, little-endian loads and stores of fixed width, [memcpy], and the
    framing lemmas of the proofs. An access to an unmapped byte is [Fault]. *)
From stdpp Require Import base numbers list option gmap.
From coqutil Require Import Byte Word.LittleEndianList.
From Stdlib Require Import ZArith Lia.
From S2P Require Import Prelude.

Abbreviation mem := (gmap Z byte).

(** * Operations *)

Fixpoint load_bytes (m : mem) (a : Z) (n : nat) : option (list byte) :=
  match n with
  | O => Some []
  | S n => b ← m !! a; bs ← load_bytes m (a + 1) n; Some (b :: bs)
  end.

Fixpoint store_bytes (m : mem) (a : Z) (bs : list byte) : mem :=
  match bs with
  | [] => m
  | b :: bs => <[a := b]> (store_bytes m (a + 1) bs)
  end.

Definition load (n : nat) (m : mem) (a : Z) : outcome Z :=
  match load_bytes m a n with
  | Some bs => Ok (le_combine bs)
  | None => Fault
  end.

Definition store (n : nat) (m : mem) (a v : Z) : outcome mem :=
  match load_bytes m a n with
  | Some _ => Ok (store_bytes m a (le_split n v))
  | None => Fault
  end.

Abbreviation load32 := (load 4).
Abbreviation load64 := (load 8).
Abbreviation store32 := (store 4).
Abbreviation store64 := (store 8).

(** C's [memcpy]: undefined on unmapped or overlapping ranges. *)
Definition memcpy (m : mem) (dst src : Z) (n : Z) : outcome mem :=
  if (0 <? n) && (dst <? src + n) && (src <? dst + n) then Fault
  else
    match load_bytes m src (Z.to_nat n), load_bytes m dst (Z.to_nat n) with
    | Some bs, Some _ => Ok (store_bytes m dst bs)
    | _, _ => Fault
    end.

(** * Regions *)

Definition range (lo hi : Z) : Z -> Prop := fun a => lo <= a < hi.

Definition agree (P : Z -> Prop) (m1 m2 : mem) : Prop :=
  forall a, P a -> m1 !! a = m2 !! a.

Definition mapped (m : mem) (lo hi : Z) : Prop :=
  forall a, lo <= a < hi -> is_Some (m !! a).

#[export] Instance agree_equiv P : Equivalence (agree P).
Proof.
  split; unfold agree.
  - done.
  - intros m1 m2 H a Ha. by rewrite H.
  - intros m1 m2 m3 H1 H2 a Ha. by rewrite H1, H2.
Qed.

Lemma agree_weaken (P Q : Z -> Prop) m1 m2 :
  agree P m1 m2 -> (forall a, Q a -> P a) -> agree Q m1 m2.
Proof. unfold agree. auto. Qed.

Lemma mapped_weaken m lo hi lo' hi' :
  mapped m lo hi -> lo <= lo' -> hi' <= hi -> mapped m lo' hi'.
Proof. intros H ?? a ?. apply H. lia. Qed.

Lemma mapped_agree m1 m2 lo hi :
  agree (range lo hi) m1 m2 -> mapped m1 lo hi -> mapped m2 lo hi.
Proof. intros H1 H2 a Ha. rewrite <- H1 by done. by apply H2. Qed.

(** * Loads *)

Lemma load_bytes_mapped m a n :
  mapped m a (a + Z.of_nat n) -> exists bs, load_bytes m a n = Some bs.
Proof.
  revert a. induction n as [|n IH]; intros a H; simpl; [eauto|].
  destruct (H a) as [b Hb]; [lia|]. rewrite Hb. simpl.
  destruct (IH (a + 1)) as [bs Hbs].
  { eapply mapped_weaken; [exact H|lia..]. }
  rewrite Hbs. eauto.
Qed.

Lemma load_bytes_length m a n bs : load_bytes m a n = Some bs -> length bs = n.
Proof.
  revert a bs. induction n as [|n IH]; intros a bs H; simpl in H; [by simplify_eq|].
  destruct (m !! a); [|done]. simpl in H.
  destruct (load_bytes m (a + 1) n) eqn:E; [|done]. simpl in H. simplify_eq.
  simpl. by rewrite (IH _ _ E).
Qed.

Lemma load_bytes_agree m1 m2 a n :
  agree (range a (a + Z.of_nat n)) m1 m2 -> load_bytes m1 a n = load_bytes m2 a n.
Proof.
  revert a. induction n as [|n IH]; intros a H; simpl; [done|].
  rewrite (H a) by (unfold range; lia).
  rewrite (IH (a + 1)); [done|].
  eapply agree_weaken; [exact H|]. unfold range. lia.
Qed.

Lemma load_agree m1 m2 a n :
  agree (range a (a + Z.of_nat n)) m1 m2 -> load n m1 a = load n m2 a.
Proof. intros H. unfold load. by rewrite (load_bytes_agree m1 m2). Qed.

Lemma load_mapped m a n :
  mapped m a (a + Z.of_nat n) ->
  exists v, load n m a = Ok v /\ 0 <= v < 2 ^ (8 * Z.of_nat n).
Proof.
  intros H. destruct (load_bytes_mapped m a n H) as [bs Hbs].
  exists (le_combine bs). unfold load. rewrite Hbs. split; [done|].
  rewrite <- (load_bytes_length _ _ _ _ Hbs). apply le_combine_bound.
Qed.

Lemma load_range m a n v : load n m a = Ok v -> 0 <= v < 2 ^ (8 * Z.of_nat n).
Proof.
  unfold load. destruct (load_bytes m a n) as [bs|] eqn:E; [|done].
  intros [= <-]. rewrite <- (load_bytes_length _ _ _ _ E). apply le_combine_bound.
Qed.

Lemma load_bytes_Some_mapped m a n bs :
  load_bytes m a n = Some bs -> mapped m a (a + Z.of_nat n).
Proof.
  revert a bs. induction n as [|n IH]; intros a bs H x Hx; simpl in H; [lia|].
  destruct (m !! a) eqn:Ea; [|done]. simpl in H.
  destruct (load_bytes m (a + 1) n) eqn:E; [|done].
  destruct (decide (x = a)) as [->|]; [eauto|].
  eapply IH; [exact E|lia].
Qed.

Lemma load_Ok_mapped m a n v : load n m a = Ok v -> mapped m a (a + Z.of_nat n).
Proof.
  unfold load. destruct (load_bytes m a n) eqn:E; [|done]. intros _.
  by eapply load_bytes_Some_mapped.
Qed.

Lemma load_bytes_lookup m a n bs (i : nat) :
  load_bytes m a n = Some bs -> (i < n)%nat -> m !! (a + Z.of_nat i) = bs !! i.
Proof.
  revert a bs i. induction n as [|n IH]; intros a bs i H Hi; simpl in H; [lia|].
  destruct (m !! a) eqn:Ea; [|done]. simpl in H.
  destruct (load_bytes m (a + 1) n) eqn:E; [|done]. simpl in H. simplify_eq.
  destruct i as [|i]; simpl.
  - by rewrite Z.add_0_r.
  - rewrite <- (IH (a + 1)) by (done || lia). f_equal. lia.
Qed.

Lemma load_bytes_Some_lookup m a n bs :
  length bs = n -> (forall i, (i < n)%nat -> m !! (a + Z.of_nat i) = bs !! i) ->
  load_bytes m a n = Some bs.
Proof.
  revert a bs. induction n as [|n IH]; intros a bs Hl H; destruct bs as [|b bs]; try done.
  simpl. pose proof (H O ltac:(lia)) as H0. rewrite Z.add_0_r in H0. rewrite H0. simpl.
  rewrite (IH (a + 1) bs); [done|by simplify_eq/=|].
  intros i Hi. specialize (H (S i) ltac:(lia)). simpl in H.
  by replace (a + 1 + Z.of_nat i) with (a + Z.of_nat (S i)) by lia.
Qed.

Lemma load_bytes_app m a n k bs :
  load_bytes m a (n + k) = Some bs ->
  load_bytes m a n = Some (take n bs) /\ load_bytes m (a + Z.of_nat n) k = Some (drop n bs).
Proof.
  intros H. pose proof (load_bytes_length _ _ _ _ H) as Hl. split.
  - apply load_bytes_Some_lookup; [rewrite length_take; lia|]. intros i Hi.
    rewrite (load_bytes_lookup _ _ _ _ i H) by lia. by rewrite lookup_take_lt.
  - apply load_bytes_Some_lookup; [rewrite length_drop; lia|]. intros i Hi.
    rewrite lookup_drop, <- (load_bytes_lookup _ _ _ _ (n + i) H) by lia. f_equal. lia.
Qed.

(** The two halves of a wide little-endian load. *)
Lemma load_split n k m a v :
  load (n + k) m a = Ok v ->
  load n m a = Ok (v mod 2 ^ (8 * Z.of_nat n)) /\
  load k m (a + Z.of_nat n) = Ok (v / 2 ^ (8 * Z.of_nat n)).
Proof.
  unfold load. destruct (load_bytes m a (n + k)) as [bs|] eqn:Hb; [|done]. intros [= <-].
  pose proof (load_bytes_length _ _ _ _ Hb) as Hl.
  apply load_bytes_app in Hb as [-> ->]. pose proof (take_drop n bs) as Htd.
  pose proof (le_combine_bound (take n bs)) as Hr.
  assert (Hn : length (take n bs) = n) by (rewrite length_take; lia). rewrite Hn in Hr.
  rewrite <- Htd at 2 4. rewrite le_combine_app, Hn, (Z.mul_comm (Z.of_nat n)).
  set (w := 8 * Z.of_nat n) in *. assert (0 <= w) by lia. split; f_equal.
  - rewrite <- Z.land_ones, Z.land_lor_distr_l, !Z.land_ones by done.
    rewrite Z.shiftl_mul_pow2, Z.mod_mul, Z.lor_0_r by lia. symmetry. by apply Z.mod_small.
  - rewrite <- Z.shiftr_div_pow2, Z.shiftr_lor by done.
    rewrite Z.shiftr_shiftl_l, Z.sub_diag, Z.shiftl_0_r by done.
    by rewrite Z.shiftr_div_pow2, Z.div_small by done.
Qed.

(** The high half of a 64-bit value below 2^32 is a 32-bit zero. *)
Lemma load64_high m a v : load64 m a = Ok v -> v < 2 ^ 32 -> load32 m (a + 4) = Ok 0.
Proof.
  intros Hv Hlt. pose proof (load_range _ _ _ _ Hv).
  apply (load_split 4 4) in Hv as [_ Hv]. change (a + Z.of_nat 4) with (a + 4) in Hv.
  rewrite Hv. f_equal. apply Z.div_small. simpl in *. lia.
Qed.

(** * Stores *)

Lemma store_bytes_lookup_out m a bs x :
  x < a \/ a + Z.of_nat (length bs) <= x -> store_bytes m a bs !! x = m !! x.
Proof.
  revert a. induction bs as [|b bs IH]; intros a H; simpl in *; [done|].
  rewrite lookup_insert_ne by lia. apply IH. lia.
Qed.

Lemma load_bytes_store_bytes m a bs :
  load_bytes (store_bytes m a bs) a (length bs) = Some bs.
Proof.
  revert m a. induction bs as [|b bs IH]; intros m a; simpl; [done|].
  rewrite lookup_insert_eq. simpl.
  rewrite (load_bytes_agree _ (store_bytes m (a + 1) bs)).
  - by rewrite IH.
  - intros x Hx. unfold range in Hx. rewrite lookup_insert_ne by lia. done.
Qed.

Lemma store_bytes_load_bytes m a n bs :
  load_bytes m a n = Some bs -> store_bytes m a bs = m.
Proof.
  revert a bs. induction n as [|n IH]; intros a bs H; simpl in H; [by simplify_eq|].
  destruct (m !! a) eqn:Ea; [|done]. simpl in H.
  destruct (load_bytes m (a + 1) n) eqn:E; [|done]. simpl in H. simplify_eq.
  simpl. rewrite (IH _ _ E). by apply insert_id.
Qed.

Lemma store_bytes_dom m a bs :
  mapped m a (a + Z.of_nat (length bs)) ->
  forall x, is_Some (store_bytes m a bs !! x) <-> is_Some (m !! x).
Proof.
  revert a. induction bs as [|b bs IH]; intros a H x; simpl in *; [done|].
  destruct (decide (x = a)) as [->|].
  - rewrite lookup_insert_eq. split; [intros _; apply H; lia|eauto].
  - rewrite lookup_insert_ne by done. apply IH.
    eapply mapped_weaken; [exact H|lia..].
Qed.

Lemma store_Ok m a n v :
  mapped m a (a + Z.of_nat n) ->
  store n m a v = Ok (store_bytes m a (le_split n v)).
Proof.
  intros H. destruct (load_bytes_mapped m a n H) as [bs Hbs].
  unfold store. by rewrite Hbs.
Qed.

Lemma store_inv m a n v m' :
  store n m a v = Ok m' ->
  mapped m a (a + Z.of_nat n) /\ m' = store_bytes m a (le_split n v).
Proof.
  unfold store. destruct (load_bytes m a n) eqn:E; [|done]. intros [= <-].
  split; [by eapply load_bytes_Some_mapped|done].
Qed.

Lemma load_store m a n v m' :
  store n m a v = Ok m' -> load n m' a = Ok (v mod 2 ^ (8 * Z.of_nat n)).
Proof.
  intros [_ ->]%store_inv. unfold load.
  pose proof (load_bytes_store_bytes m a (le_split n v)) as H.
  rewrite length_le_split in H. rewrite H, le_combine_split.
  by rewrite Z.mul_comm.
Qed.

Lemma store_agree m a n v m' (P : Z -> Prop) :
  store n m a v = Ok m' ->
  (forall x, P x -> x < a \/ a + Z.of_nat n <= x) -> agree P m m'.
Proof.
  intros [_ ->]%store_inv HP x Hx.
  rewrite store_bytes_lookup_out; [done|]. rewrite length_le_split. by apply HP.
Qed.

Lemma store_dom m a n v m' :
  store n m a v = Ok m' -> forall x, is_Some (m' !! x) <-> is_Some (m !! x).
Proof.
  intros [Hm ->]%store_inv. apply store_bytes_dom. by rewrite length_le_split.
Qed.

Lemma store_mapped m a n v m' lo hi :
  store n m a v = Ok m' -> mapped m lo hi -> mapped m' lo hi.
Proof. intros Hs H x Hx. apply (store_dom _ _ _ _ _ Hs). by apply H. Qed.

(** Writing back the value loaded, possibly after other values were stored
    there, restores the memory. *)
Lemma store_load m a n v : load n m a = Ok v -> store n m a v = Ok m.
Proof.
  unfold load, store. destruct (load_bytes m a n) as [bs|] eqn:E; [|done].
  intros [= <-]. f_equal.
  rewrite split_le_combine' by (by eapply load_bytes_length).
  by eapply store_bytes_load_bytes.
Qed.

Lemma store_bytes_idemp m a bs bs' :
  length bs = length bs' -> store_bytes (store_bytes m a bs) a bs' = store_bytes m a bs'.
Proof.
  intros Hl. apply map_eq. intros x.
  destruct (decide (a <= x < a + Z.of_nat (length bs'))) as [Hx|Hx].
  - pose proof (load_bytes_store_bytes m a bs') as H1.
    pose proof (load_bytes_store_bytes (store_bytes m a bs) a bs') as H2.
    revert H1 H2 Hx.
    generalize (store_bytes (store_bytes m a bs) a bs') as m2, (store_bytes m a bs') as m1.
    clear. generalize bs' at 2 4 as l. revert a.
    induction bs' as [|b bs' IH]; intros a l m2 m1 H1 H2 Hx; simpl in *; [lia|].
    destruct (m1 !! a) eqn:E1, (m2 !! a) eqn:E2; try done; simpl in *.
    destruct (load_bytes m1 (a + 1) (length bs')) eqn:F1; [|done].
    destruct (load_bytes m2 (a + 1) (length bs')) eqn:F2; [|done]. simpl in *.
    simplify_eq.
    destruct (decide (x = a)) as [->|]; [by rewrite E1, E2|].
    eapply (IH (a + 1)); [exact F1|exact F2|lia].
  - rewrite !store_bytes_lookup_out by lia. done.
Qed.

Lemma store_store m a n v w m' :
  store n m a v = Ok m' -> store n m' a w = store n m a w.
Proof.
  intros Hs. pose proof Hs as [Hm ->]%store_inv.
  rewrite (store_Ok _ _ _ w Hm), store_Ok.
  - f_equal. apply store_bytes_idemp. by rewrite !length_le_split.
  - by eapply store_mapped.
Qed.

Lemma store_load_restore m a n v w m' :
  load n m a = Ok v -> store n m a w = Ok m' -> store n m' a v = Ok m.
Proof. intros Hl Hs. by rewrite (store_store _ _ _ _ _ _ Hs), store_load. Qed.

(** * [memcpy] *)

Lemma load_bytes_ext m1 m2 a1 a2 n :
  (forall i, 0 <= i < Z.of_nat n -> m1 !! (a1 + i) = m2 !! (a2 + i)) ->
  load_bytes m1 a1 n = load_bytes m2 a2 n.
Proof.
  revert a1 a2. induction n as [|n IH]; intros a1 a2 H; simpl; [done|].
  pose proof (H 0 ltac:(lia)) as H0. rewrite !Z.add_0_r in H0. rewrite H0.
  rewrite (IH (a1 + 1) (a2 + 1)); [done|].
  intros i Hi. specialize (H (1 + i) ltac:(lia)). by rewrite !Z.add_assoc in H.
Qed.

(** Loads at corresponding offsets of two equal regions agree. *)
Lemma load_ext m1 m2 a1 a2 n :
  (forall i, 0 <= i < Z.of_nat n -> m1 !! (a1 + i) = m2 !! (a2 + i)) ->
  load n m1 a1 = load n m2 a2.
Proof. intros H. unfold load. by rewrite (load_bytes_ext m1 m2 a1 a2). Qed.

Lemma memcpy_Ok m dst src n :
  0 <= n -> mapped m src (src + n) -> mapped m dst (dst + n) ->
  n = 0 \/ dst + n <= src \/ src + n <= dst ->
  exists m', memcpy m dst src n = Ok m' /\
    (forall i, 0 <= i < n -> m' !! (dst + i) = m !! (src + i)) /\
    agree (fun x => x < dst \/ dst + n <= x) m m' /\
    (forall x, is_Some (m' !! x) <-> is_Some (m !! x)).
Proof.
  intros Hn Hs Hd Hov. unfold memcpy.
  replace (_ && _) with false.
  2: { symmetry. apply not_true_iff_false. rewrite !andb_true_iff, !Z.ltb_lt. lia. }
  destruct (load_bytes_mapped m src (Z.to_nat n)) as [bs Ebs].
  { by rewrite Z2Nat.id. }
  destruct (load_bytes_mapped m dst (Z.to_nat n)) as [bd Ebd].
  { by rewrite Z2Nat.id. }
  rewrite Ebs, Ebd. eexists. split; [done|].
  pose proof (load_bytes_length _ _ _ _ Ebs) as Hl. split; [|split].
  - intros i Hi.
    pose proof (load_bytes_store_bytes m dst bs) as Hst. rewrite Hl in Hst.
    rewrite <- (Z2Nat.id i) by lia.
    rewrite (load_bytes_lookup _ _ _ _ (Z.to_nat i) Hst) by lia.
    by rewrite (load_bytes_lookup _ _ _ _ (Z.to_nat i) Ebs) by lia.
  - intros x Hx. rewrite store_bytes_lookup_out; [done|]. lia.
  - apply store_bytes_dom. rewrite Hl, Z2Nat.id by lia. done.
Qed.
