(* ===== verification/Buffer.v ===== *)
(** The serialization buffer of src/c/lib/bindings/buffer.c and
    src/c/include/mojo/bindings/buffer.h: the bump allocator
    [MojomBuffer_Allocate], the rounding macro it uses, the array constructor
    [MojomArray_New] built on it, and the handle buffer of the encoder. *)
From stdpp Require Import base numbers list option gmap.
From coqutil Require Import Byte.
From Stdlib Require Import ZArith Lia Sorted.
From S2P Require Import Prelude CMem.

(** * State with a memory *)

(** The code that writes memory runs in [M (mem * X)], [X] being the other
    object it updates (the buffer, the handle buffer, the handle array). *)
Definition mload {X} (n : nat) (a : Z) : M (mem * X) Z := fun st =>
  match load n st.1 a with
  | Ok v => Ok (v, st)
  | Abort => Abort
  | Fault => Fault
  | OutOfFuel => OutOfFuel
  end.

Definition mstore {X} (n : nat) (a v : Z) : M (mem * X) unit := fun st =>
  match store n st.1 a v with
  | Ok m => Ok (tt, (m, st.2))
  | Abort => Abort
  | Fault => Fault
  | OutOfFuel => OutOfFuel
  end.

Definition mmemcpy {X} (dst src n : Z) : M (mem * X) unit := fun st =>
  match memcpy st.1 dst src n with
  | Ok m => Ok (tt, (m, st.2))
  | Abort => Abort
  | Fault => Fault
  | OutOfFuel => OutOfFuel
  end.

(** A computation on the other object only. *)
Definition on_snd {X A} (c : M X A) : M (mem * X) A := fun st =>
  match c st.2 with
  | Ok (a, x) => Ok (a, (st.1, x))
  | Abort => Abort
  | Fault => Fault
  | OutOfFuel => OutOfFuel
  end.

Lemma wp_mload {X} n a v (st : mem * X) (Q : Z -> mem * X -> Prop) :
  load n st.1 a = Ok v -> Q v st -> wp (mload n a) st Q.
Proof. unfold wp, mload. by intros ->. Qed.

Lemma wp_mstore {X} n a v m' (st : mem * X) (Q : unit -> mem * X -> Prop) :
  store n st.1 a v = Ok m' -> Q tt (m', st.2) -> wp (mstore n a v) st Q.
Proof. unfold wp, mstore. by intros ->. Qed.

Lemma wp_mmemcpy {X} dst src n m' (st : mem * X) (Q : unit -> mem * X -> Prop) :
  memcpy st.1 dst src n = Ok m' -> Q tt (m', st.2) -> wp (mmemcpy dst src n) st Q.
Proof. unfold wp, mmemcpy. by intros ->. Qed.

Lemma wp_on_snd {X A} (c : M X A) (st : mem * X) (Q : A -> mem * X -> Prop) :
  wp c st.2 (fun a x => Q a (st.1, x)) -> wp (on_snd c) st Q.
Proof. unfold wp, on_snd. by destruct (c st.2) as [[a x]| | |]. Qed.

(** * Rounding *)

(** [MOJOM_INTERNAL_ROUND_TO_8(num)] on a [w]-bit unsigned [num]: the addition
    wraps and [~7] is converted to the width of [num]. *)
Definition MOJOM_INTERNAL_ROUND_TO_8 (w num : Z) : Z :=
  Z.land ((num + 7) mod 2 ^ w) ((-8) mod 2 ^ w).

(** The next multiple of 8, in unbounded integers. *)
Definition round8 (x : Z) : Z := 8 * ((x + 7) / 8).

Lemma ROUND_TO_8_spec w x :
  0 <= w -> 0 <= x -> x + 7 < 2 ^ w -> MOJOM_INTERNAL_ROUND_TO_8 w x = round8 x.
Proof.
  intros Hw Hx Hlt. unfold MOJOM_INTERNAL_ROUND_TO_8, round8.
  rewrite <- !Z.land_ones by done.
  rewrite (Z.land_comm (-8)), Z.land_assoc, <- (Z.land_assoc (x + 7)), Z.land_diag.
  rewrite Z.land_comm, Z.land_assoc, (Z.land_comm (-8)), land_not_7, Z.land_ones by done.
  apply Z.mod_small. lia.
Qed.

Lemma round8_bounds x : x <= round8 x < x + 8.
Proof. unfold round8. lia. Qed.

Lemma round8_mod x : round8 x mod 8 = 0.
Proof. unfold round8. by rewrite Z.mul_comm, Z.mod_mul. Qed.

Lemma round8_id x : x mod 8 = 0 -> round8 x = x.
Proof. intros H. unfold round8. lia. Qed.

(** * [struct MojomBuffer] *)

Record MojomBuffer := {
  buf : Z;
  buf_size : Z;
  num_bytes_used : Z;
}.

Definition NULL : Z := 0.

Definition MojomBuffer_Allocate (num_bytes : Z) : M MojomBuffer Z :=
  b ← get;
  let bytes_used := num_bytes_used b in
  let size := MOJOM_INTERNAL_ROUND_TO_8 64 num_bytes in
  if wrap64 (bytes_used + size) >? buf_size b then mret NULL
  else
    put {| buf := buf b; buf_size := buf_size b;
           num_bytes_used := wrap32 (num_bytes_used b + size) |};;
    mret (buf b + bytes_used).

(** * [MojomArray_New] *)

Definition sizeof_MojomArrayHeader : Z := 8.

Definition MojomArray_New (num_elements element_byte_size : Z) : M (mem * MojomBuffer) Z :=
  let num_bytes := wrap64 (sizeof_MojomArrayHeader + num_elements * element_byte_size) in
  if num_bytes >? UINT32_MAX then mret NULL
  else
    arr ← on_snd (MojomBuffer_Allocate (wrap32 num_bytes));
    if arr =? NULL then mret NULL
    else
      b ← on_snd get;
      assert_ (wrap64 (arr + MOJOM_INTERNAL_ROUND_TO_8 64 num_bytes)
               =? wrap64 (buf b + num_bytes_used b));;
      mstore 4 (arr + 4) num_elements;;
      mstore 4 arr (MOJOM_INTERNAL_ROUND_TO_8 32 (wrap32 num_bytes));;
      mret arr.

(** * [struct MojomHandleBuffer] *)

(** [handles] is [None] for a null array. *)
Record MojomHandleBuffer := {
  handles : option (list Z);
  num_handles : Z;
  num_handles_used : Z;
}.

#[export] Instance MojomHandleBuffer_eq_dec : EqDecision MojomHandleBuffer.
Proof. solve_decision. Defined.

(** * The allocator's invariant *)

(** What the header asks of the user, and what every allocation keeps: the
    buffer is a non-null block of the address space, no more of it is used
    than there is, and the used part is a whole number of 8-byte words. *)
Definition buffer_wf (b : MojomBuffer) : Prop :=
  0 < buf b /\ buf b + buf_size b < 2 ^ 64 /\
  0 <= num_bytes_used b <= buf_size b /\ buf_size b < 2 ^ 32 /\
  num_bytes_used b mod 8 = 0.

(** The memory the buffer has left. *)
Definition buffer_free (b : MojomBuffer) : Z -> Prop :=
  range (buf b + num_bytes_used b) (buf b + buf_size b).

Definition allocated (b : MojomBuffer) (n : Z) : MojomBuffer :=
  {| buf := buf b; buf_size := buf_size b; num_bytes_used := num_bytes_used b + round8 n |}.

Definition fits (b : MojomBuffer) (n : Z) : bool :=
  num_bytes_used b + round8 n <=? buf_size b.

Lemma Allocate_eq b n :
  buffer_wf b -> 0 <= n < 2 ^ 32 ->
  MojomBuffer_Allocate n b =
    if fits b n then Ok (buf b + num_bytes_used b, allocated b n) else Ok (NULL, b).
Proof.
  intros (Hp & Hhi & Hu & Hs & Hm) Hn.
  unfold MojomBuffer_Allocate, fits, allocated. unfold get, mbind, M_bind at 1.
  rewrite ROUND_TO_8_spec by lia.
  pose proof (round8_bounds n). rewrite wrap64_small by lia.
  destruct (Z.leb_spec (num_bytes_used b + round8 n) (buf_size b)).
  - destruct (Z.gtb_spec (num_bytes_used b + round8 n) (buf_size b)); [lia|].
    unfold put, mret, M_ret, M_bind. by rewrite wrap32_small by lia.
  - destruct (Z.gtb_spec (num_bytes_used b + round8 n) (buf_size b)); [done|lia].
Qed.

Lemma allocated_wf b n : buffer_wf b -> 0 <= n -> fits b n = true -> buffer_wf (allocated b n).
Proof.
  intros (?&?&?&?&?) ? Hf. unfold fits in Hf. bool_facts.
  pose proof (round8_bounds n). pose proof (round8_mod n).
  unfold buffer_wf, allocated; simpl. lia.
Qed.

Lemma wp_Allocate b n (Q : Z -> MojomBuffer -> Prop) :
  buffer_wf b -> 0 <= n < 2 ^ 32 ->
  (fits b n = true -> Q (buf b + num_bytes_used b) (allocated b n)) ->
  (fits b n = false -> Q NULL b) ->
  wp (MojomBuffer_Allocate n) b Q.
Proof.
  intros Hb Hn H1 H2. unfold wp. rewrite Allocate_eq by done. destruct (fits b n); auto.
Qed.

(** [MojomBuffer_Allocate] on a well-formed buffer returns NULL and leaves
    the buffer alone exactly when the rounded size does not fit; otherwise it
    returns the first unused byte, 8-aligned within the buffer, the block lies
    in what was free, and the buffer stays well-formed (no 32-bit overflow). *)
Theorem MojomBuffer_Allocate_spec b n (Hb : buffer_wf b) (Hn : 0 <= n < 2 ^ 32) :
  exists p b', MojomBuffer_Allocate n b = Ok (p, b') /\ buffer_wf b' /\
    (p = NULL <-> num_bytes_used b + round8 n > buf_size b) /\
    (p = NULL -> b' = b) /\
    (p <> NULL ->
       p = buf b + num_bytes_used b /\ (p - buf b) mod 8 = 0 /\
       buf b' = buf b /\ buf_size b' = buf_size b /\
       num_bytes_used b' = num_bytes_used b + round8 n /\
       (forall a, p <= a < p + n -> buffer_free b a /\ ~ buffer_free b' a)).
Proof.
  rewrite Allocate_eq by done. pose proof Hb as (?&?&?&?&?). pose proof (round8_bounds n).
  destruct (fits b n) eqn:Hf; pose proof Hf as Hf'; unfold fits in Hf'; bool_facts.
  - eexists _, _. split; [done|]. split; [by apply allocated_wf; [|lia|]|].
    unfold NULL, allocated, buffer_free, range; simpl.
    repeat split; intros; try done; lia.
  - eexists _, _. split; [done|]. split; [done|].
    unfold NULL. repeat split; intros; try done; lia.
Qed.

(** ** Sequences of allocations *)

(** The blocks a caller gets from allocating the sizes [ns] in turn. *)
Fixpoint allocate_all (ns : list Z) : M MojomBuffer (list (Z * Z)) :=
  match ns with
  | [] => mret []
  | n :: ns =>
      p ← MojomBuffer_Allocate n;
      bs ← allocate_all ns;
      mret (if p =? NULL then bs else (p, n) :: bs)
  end.

Definition block_before (x y : Z * Z) : Prop := x.1 + x.2 <= y.1.

Lemma allocate_all_spec ns b :
  buffer_wf b -> Forall (fun n => 0 <= n < 2 ^ 32) ns ->
  wp (allocate_all ns) b (fun bs b' =>
    buffer_wf b' /\ buf b' = buf b /\ buf_size b' = buf_size b /\
    num_bytes_used b <= num_bytes_used b' /\
    StronglySorted block_before bs /\
    Forall (fun x => buf b + num_bytes_used b <= x.1 /\ 0 <= x.2 /\
                     x.1 + x.2 <= buf b + num_bytes_used b') bs).
Proof.
  revert b. induction ns as [|n ns IH]; intros b Hb Hns; simpl.
  - repeat wp_step. repeat split; try apply Hb; try done; constructor.
  - inversion Hns as [|? ? Hn Hns']; subst. pose proof Hb as (?&?&?&?&?).
    pose proof (round8_bounds n).
    wp_step. apply wp_Allocate; [done|done| |]; intros Hf; wp_step.
    + eapply wp_mono; [apply IH; [by apply allocated_wf; [|lia|]|done]|].
      simpl. intros bs b' (Hwf & Hbuf & Hsz & Hu & Hs & Hall). wp_step.
      destruct (Z.eqb_spec (buf b + num_bytes_used b) NULL); [unfold NULL in *; lia|].
      repeat split; try apply Hwf; try done; try lia.
      * constructor; [done|]. eapply Forall_impl; [exact Hall|].
        intros [p' n'] (?&?&?). unfold block_before; simpl in *. lia.
      * constructor; simpl; [lia|]. eapply Forall_impl; [exact Hall|].
        intros [p' n'] (?&?&?); simpl in *. lia.
    + eapply wp_mono; [by apply IH|]. intros bs b' ?. by wp_step.
Qed.

(** Whatever sizes a client asks for, and however many of the requests fail,
    the blocks it gets are pairwise disjoint and in order of allocation, inside
    the buffer and past what was already used. *)
Theorem allocations_disjoint ns b
    (Hb : buffer_wf b) (Hns : Forall (fun n => 0 <= n < 2 ^ 32) ns) :
  exists bs b', allocate_all ns b = Ok (bs, b') /\ buffer_wf b' /\
    StronglySorted block_before bs /\
    Forall (fun x => buf b + num_bytes_used b <= x.1 /\ x.1 + x.2 <= buf b + buf_size b) bs.
Proof.
  pose proof (allocate_all_spec ns b Hb Hns) as H.
  apply wp_run in H as (bs & b' & -> & Hb' & Hbuf & Hsz & _ & Hs & Hall).
  exists bs, b'. split; [done|]. split; [done|]. split; [done|].
  pose proof Hb' as (?&?&?&?&?).
  eapply Forall_impl; [exact Hall|]. intros [p n] (?&?&?); simpl in *. lia.
Qed.

(** ** Array construction *)

Definition array_bytes (n e : Z) : Z := sizeof_MojomArrayHeader + n * e.

Lemma wp_MojomArray_New m b n e (Q : Z -> mem * MojomBuffer -> Prop) :
  buffer_wf b -> mapped m (buf b) (buf b + buf_size b) -> is_u32 n = true -> is_u32 e = true ->
  let k := array_bytes n e in
  let p := buf b + num_bytes_used b in
  (k > UINT32_MAX \/ fits b k = false -> Q NULL (m, b)) ->
  (k <= UINT32_MAX -> fits b k = true ->
     forall m', mapped m' (buf b) (buf b + buf_size b) ->
       load32 m' p = Ok (round8 k) -> load32 m' (p + 4) = Ok n ->
       agree (fun a => a < p \/ p + 8 <= a) m m' ->
       Q p (m', allocated b k)) ->
  wp (MojomArray_New n e) (m, b) Q.
Proof.
  intros Hb Hm Hn He k p Hnull Hok. apply is_u32_spec in Hn, He.
  pose proof Hb as (?&?&?&?&?).
  assert (Hk : 8 <= k < 2 ^ 64) by (unfold k, array_bytes, sizeof_MojomArrayHeader; nia).
  unfold MojomArray_New. fold (array_bytes n e). fold k.
  rewrite (wrap64_small k) by lia.
  destruct (Z.gtb_spec k UINT32_MAX) as [|Hmax]; [wp_step; apply Hnull; lia|].
  unfold UINT32_MAX in Hmax. rewrite (wrap32_small k) by lia.
  wp_step. apply wp_on_snd. apply wp_Allocate; [done|lia| |]; cbn [fst snd]; intros Hf.
  2: { destruct (Z.eqb_spec NULL NULL); [|done]. wp_step. auto. }
  destruct (Z.eqb_spec (buf b + num_bytes_used b) NULL); [unfold NULL in *; lia|].
  fold p. pose proof (round8_bounds k).
  pose proof (round8_mod k). pose proof Hf as Hf'. unfold fits in Hf'. bool_facts.
  destruct (load_mapped m (p + 4) 4) as (? & Hl & _).
  { eapply mapped_weaken; [exact Hm|unfold p; lia..]. }
  pose proof (store_Ok m (p + 4) 4 n (load_Ok_mapped _ _ _ _ Hl)) as Hs1.
  set (m1 := store_bytes _ _ _) in Hs1.
  assert (Hm1 : mapped m1 (buf b) (buf b + buf_size b)) by (by eapply store_mapped).
  pose proof (store_Ok m1 p 4 (MOJOM_INTERNAL_ROUND_TO_8 32 k)) as Hs2.
  set (m2 := store_bytes m1 _ _) in Hs2. specialize (Hs2 ltac:(eapply mapped_weaken; [exact Hm1|unfold p; lia..])).
  repeat wp_step. apply wp_on_snd. repeat wp_step. apply wp_assert; simpl.
  { rewrite ROUND_TO_8_spec by lia. apply Z.eqb_eq. f_equal. unfold p. lia. }
  wp_step. eapply wp_mstore; [exact Hs1|].
  wp_step. eapply wp_mstore; [exact Hs2|]. wp_step. simpl.
  assert (Hk32 : round8 k <= buf_size b) by lia.
  apply Hok; try done.
  - by eapply store_mapped.
  - rewrite (load_store _ _ _ _ _ Hs2).
    rewrite ROUND_TO_8_spec by lia. f_equal. apply Z.mod_small. simpl. lia.
  - rewrite <- (load_agree m1); [|eapply store_agree; [exact Hs2|unfold range; lia]].
    rewrite (load_store _ _ _ _ _ Hs1). f_equal. apply Z.mod_small. simpl. lia.
  - etransitivity; eapply store_agree; [exact Hs1|lia|exact Hs2|lia].
Qed.

(** [MojomArray_New] on a well-formed mapped buffer never fails its
    assertion nor faults. It returns NULL, changing nothing, exactly when the
    array exceeds [UINT32_MAX] bytes or the buffer's space; otherwise the header
    it writes at the start of the block records the number of elements and the
    rounded size, both read back unchanged, and no other byte is written. *)
Theorem MojomArray_New_spec m b n e
    (Hb : buffer_wf b) (Hm : mapped m (buf b) (buf b + buf_size b))
    (Hn : is_u32 n = true) (He : is_u32 e = true) :
  exists p m' b', MojomArray_New n e (m, b) = Ok (p, (m', b')) /\ buffer_wf b' /\
    (p = NULL <-> array_bytes n e > UINT32_MAX \/ fits b (array_bytes n e) = false) /\
    (p = NULL -> m' = m /\ b' = b) /\
    (p <> NULL ->
       b' = allocated b (array_bytes n e) /\ p = buf b + num_bytes_used b /\
       load32 m' p = Ok (round8 (array_bytes n e)) /\
       load32 m' (p + 4) = Ok n /\
       agree (fun a => a < p \/ p + 8 <= a) m m').
Proof.
  pose proof Hb as (?&?&?&?&?). pose proof Hn as Hn'. pose proof He as He'.
  apply is_u32_spec in Hn', He'.
  assert (0 <= array_bytes n e) by (unfold array_bytes, sizeof_MojomArrayHeader; nia).
  assert (Hw : wp (MojomArray_New n e) (m, b) (fun p st =>
    buffer_wf st.2 /\
    (p = NULL <-> array_bytes n e > UINT32_MAX \/ fits b (array_bytes n e) = false) /\
    (p = NULL -> st.1 = m /\ st.2 = b) /\
    (p <> NULL ->
       st.2 = allocated b (array_bytes n e) /\ p = buf b + num_bytes_used b /\
       load32 st.1 p = Ok (round8 (array_bytes n e)) /\ load32 st.1 (p + 4) = Ok n /\
       agree (fun a => a < p \/ p + 8 <= a) m st.1))).
  { apply wp_MojomArray_New; [done..| |].
    - intros Hk. simpl. done.
    - intros Hk Hf m' _ ???. simpl. split; [by apply allocated_wf|].
      split; [|split; [|done]]; unfold NULL; [|lia].
      split; [lia|]. intros [|Hf']; [lia|congruence]. }
  apply wp_run in Hw as (p & [m' b'] & -> & Hw). by exists p, m', b'.
Qed.
