(* ===== verification/Descriptor.v ===== *)
(** Type descriptors (src/c/include/mojo/bindings/internal/type_descriptor.h):
    the tables a bindings generator emits for each struct, union and array, and
    what it means for a set of tables to be well formed. *)
From stdpp Require Import base numbers list option gmap.
From Stdlib Require Import ZArith Lia.
From S2P Require Import Prelude.

(** * The tables *)

Inductive MojomTypeDescriptorType :=
  | MOJOM_TYPE_DESCRIPTOR_TYPE_STRUCT_PTR
  | MOJOM_TYPE_DESCRIPTOR_TYPE_MAP_PTR
  | MOJOM_TYPE_DESCRIPTOR_TYPE_ARRAY_PTR
  | MOJOM_TYPE_DESCRIPTOR_TYPE_UNION_PTR
  | MOJOM_TYPE_DESCRIPTOR_TYPE_UNION
  | MOJOM_TYPE_DESCRIPTOR_TYPE_HANDLE
  | MOJOM_TYPE_DESCRIPTOR_TYPE_INTERFACE
  | MOJOM_TYPE_DESCRIPTOR_TYPE_POD.

#[export] Instance MojomTypeDescriptorType_eq_dec : EqDecision MojomTypeDescriptorType.
Proof. solve_decision. Defined.

(** A [const void*] to a descriptor: NULL, or the name of a table. *)
Abbreviation descptr := (option nat).

Record MojomTypeDescriptorStructVersion := {
  sv_version : Z;
  sv_num_bytes : Z;
}.

Record MojomTypeDescriptorStructEntry := {
  se_elem_type : MojomTypeDescriptorType;
  se_elem_descriptor : descptr;
  se_offset : Z;
  se_min_version : Z;
  se_nullable : bool;
}.

(** [num_versions] and [num_entries] are the lengths of the two arrays. *)
Record MojomTypeDescriptorStruct := {
  sd_versions : list MojomTypeDescriptorStructVersion;
  sd_entries : list MojomTypeDescriptorStructEntry;
}.

Record MojomTypeDescriptorUnionEntry := {
  ue_elem_type : MojomTypeDescriptorType;
  ue_elem_descriptor : descptr;
  ue_tag : Z;
  ue_nullable : bool;
}.

Record MojomTypeDescriptorUnion := {
  ud_num_fields : Z;
  ud_entries : list MojomTypeDescriptorUnionEntry;
}.

Record MojomTypeDescriptorArray := {
  ad_elem_type : MojomTypeDescriptorType;
  ad_elem_descriptor : descptr;
  ad_num_elements : Z;
  ad_elem_num_bits : Z;
  ad_nullable : bool;
}.

Inductive descriptor :=
  | DStruct (d : MojomTypeDescriptorStruct)
  | DUnion (d : MojomTypeDescriptorUnion)
  | DArray (d : MojomTypeDescriptorArray).

(** All the tables of a program. *)
Abbreviation denv := (gmap nat descriptor).

(** Dereferencing a [const void*] cast to each kind of table. *)
Definition struct_desc (E : denv) (p : descptr) : outcome MojomTypeDescriptorStruct :=
  match p ≫= (E !!.) with Some (DStruct d) => Ok d | _ => Fault end.
Definition union_desc (E : denv) (p : descptr) : outcome MojomTypeDescriptorUnion :=
  match p ≫= (E !!.) with Some (DUnion d) => Ok d | _ => Fault end.
Definition array_desc (E : denv) (p : descptr) : outcome MojomTypeDescriptorArray :=
  match p ≫= (E !!.) with Some (DArray d) => Ok d | _ => Fault end.

Definition g_mojom_string_type_description : MojomTypeDescriptorArray := {|
  ad_elem_type := MOJOM_TYPE_DESCRIPTOR_TYPE_POD;
  ad_elem_descriptor := None;
  ad_num_elements := 0;
  ad_elem_num_bits := 8;
  ad_nullable := false;
|}.

Definition MojomType_IsPointer (type : MojomTypeDescriptorType) : bool :=
  bool_decide (type = MOJOM_TYPE_DESCRIPTOR_TYPE_STRUCT_PTR) ||
  bool_decide (type = MOJOM_TYPE_DESCRIPTOR_TYPE_MAP_PTR) ||
  bool_decide (type = MOJOM_TYPE_DESCRIPTOR_TYPE_ARRAY_PTR) ||
  bool_decide (type = MOJOM_TYPE_DESCRIPTOR_TYPE_UNION_PTR).

(** * Layout constants *)

Definition sizeof_MojomStructHeader : Z := 8.
Definition sizeof_MojomPointer : Z := 8.
Definition sizeof_MojomUnionLayout : Z := 16.
Definition sizeof_MojoHandle : Z := 4.
Definition sizeof_MojomInterfaceData : Z := 8.

(** Offset of [data] in [struct MojomUnionLayout]. *)
Definition offsetof_union_data : Z := 8.

(** The bytes a field or an array element of each type occupies in its parent. *)
Definition elem_size (type : MojomTypeDescriptorType) : Z :=
  match type with
  | MOJOM_TYPE_DESCRIPTOR_TYPE_STRUCT_PTR
  | MOJOM_TYPE_DESCRIPTOR_TYPE_MAP_PTR
  | MOJOM_TYPE_DESCRIPTOR_TYPE_ARRAY_PTR
  | MOJOM_TYPE_DESCRIPTOR_TYPE_UNION_PTR => sizeof_MojomPointer
  | MOJOM_TYPE_DESCRIPTOR_TYPE_UNION => sizeof_MojomUnionLayout
  | MOJOM_TYPE_DESCRIPTOR_TYPE_HANDLE => sizeof_MojoHandle
  | MOJOM_TYPE_DESCRIPTOR_TYPE_INTERFACE => sizeof_MojomInterfaceData
  | MOJOM_TYPE_DESCRIPTOR_TYPE_POD => 0
  end.

(** * Well-formed tables *)

(** A struct of version [mv] or newer has at least [hi] bytes: in every row of
    the table that such a version may select, [num_bytes >= hi]. *)
Fixpoint versions_cover (vs : list MojomTypeDescriptorStructVersion) (mv hi : Z) : bool :=
  match vs with
  | [] => true
  | v :: vs' =>
      match vs' with
      | [] => hi <=? sv_num_bytes v
      | w :: _ => ((sv_version w <=? mv) || (hi <=? sv_num_bytes v)) && versions_cover vs' mv hi
      end
  end.

Definition array_entry_at (off : Z) (e : MojomTypeDescriptorStructEntry) : bool :=
  bool_decide (se_elem_type e = MOJOM_TYPE_DESCRIPTOR_TYPE_ARRAY_PTR) &&
  (se_offset e =? off) && (se_min_version e =? 0).

(** A map's table: two arrays, the keys at offset 0 and the values at 8. *)
Definition is_map_desc (d : MojomTypeDescriptorStruct) : bool :=
  existsb (array_entry_at 0) (sd_entries d) && existsb (array_entry_at 8) (sd_entries d).

(** [p] points to a table of the kind that [type] calls for. *)
Definition desc_matches (E : denv) (type : MojomTypeDescriptorType) (p : descptr) : bool :=
  match type with
  | MOJOM_TYPE_DESCRIPTOR_TYPE_STRUCT_PTR =>
      match struct_desc E p with Ok _ => true | _ => false end
  | MOJOM_TYPE_DESCRIPTOR_TYPE_MAP_PTR =>
      match struct_desc E p with Ok d => is_map_desc d | _ => false end
  | MOJOM_TYPE_DESCRIPTOR_TYPE_ARRAY_PTR =>
      match array_desc E p with Ok _ => true | _ => false end
  | MOJOM_TYPE_DESCRIPTOR_TYPE_UNION_PTR | MOJOM_TYPE_DESCRIPTOR_TYPE_UNION =>
      match union_desc E p with Ok _ => true | _ => false end
  | MOJOM_TYPE_DESCRIPTOR_TYPE_HANDLE
  | MOJOM_TYPE_DESCRIPTOR_TYPE_INTERFACE
  | MOJOM_TYPE_DESCRIPTOR_TYPE_POD => true
  end.

Definition is_union_ptr (type : MojomTypeDescriptorType) : bool :=
  bool_decide (type = MOJOM_TYPE_DESCRIPTOR_TYPE_UNION_PTR).
Definition is_union (type : MojomTypeDescriptorType) : bool :=
  bool_decide (type = MOJOM_TYPE_DESCRIPTOR_TYPE_UNION).
Definition is_pod (type : MojomTypeDescriptorType) : bool :=
  bool_decide (type = MOJOM_TYPE_DESCRIPTOR_TYPE_POD).

Definition version_wf (v : MojomTypeDescriptorStructVersion) : bool :=
  is_u32 (sv_version v) && is_u32 (sv_num_bytes v) &&
  (sizeof_MojomStructHeader <=? sv_num_bytes v).

(** Where a field starts and ends in the struct. *)
Definition entry_lo (e : MojomTypeDescriptorStructEntry) : Z :=
  sizeof_MojomStructHeader + se_offset e.
Definition entry_hi (e : MojomTypeDescriptorStructEntry) : Z :=
  entry_lo e + elem_size (se_elem_type e).

Definition entry_wf (E : denv) (vs : list MojomTypeDescriptorStructVersion)
    (e : MojomTypeDescriptorStructEntry) : bool :=
  negb (is_pod (se_elem_type e)) && negb (is_union_ptr (se_elem_type e)) &&
  desc_matches E (se_elem_type e) (se_elem_descriptor e) &&
  is_u32 (se_offset e) && is_u32 (se_min_version e) &&
  versions_cover vs (se_min_version e) (entry_hi e).

Fixpoint entries_disjoint (es : list MojomTypeDescriptorStructEntry) : bool :=
  match es with
  | [] => true
  | e :: es =>
      forallb (fun e' => (entry_hi e <=? entry_lo e') || (entry_hi e' <=? entry_lo e)) es &&
      entries_disjoint es
  end.

Definition struct_wf (E : denv) (d : MojomTypeDescriptorStruct) : bool :=
  negb (bool_decide (sd_versions d = [])) && forallb version_wf (sd_versions d) &&
  forallb (entry_wf E (sd_versions d)) (sd_entries d) && entries_disjoint (sd_entries d).

Definition union_entry_wf (E : denv) (e : MojomTypeDescriptorUnionEntry) : bool :=
  negb (is_union (ue_elem_type e)) && is_u32 (ue_tag e) &&
  desc_matches E (ue_elem_type e) (ue_elem_descriptor e).

Definition union_wf (E : denv) (d : MojomTypeDescriptorUnion) : bool :=
  is_u32 (ud_num_fields d) && forallb (union_entry_wf E) (ud_entries d).

Definition array_wf (E : denv) (d : MojomTypeDescriptorArray) : bool :=
  negb (is_union_ptr (ad_elem_type d)) &&
  desc_matches E (ad_elem_type d) (ad_elem_descriptor d) &&
  is_u32 (ad_num_elements d) && is_u32 (ad_elem_num_bits d) &&
  (8 * elem_size (ad_elem_type d) <=? ad_elem_num_bits d).

Definition descriptor_wf (E : denv) (d : descriptor) : bool :=
  match d with
  | DStruct d => struct_wf E d
  | DUnion d => union_wf E d
  | DArray d => array_wf E d
  end.

Definition env_wf (E : denv) : bool :=
  forallb (fun kd => descriptor_wf E kd.2) (map_to_list E).

(** No union has a union field (which would be an out-of-line union). *)
Definition no_union_ptr (E : denv) : bool :=
  forallb (fun kd =>
    match kd.2 with
    | DUnion d => forallb (fun e => negb (is_union_ptr (ue_elem_type e))) (ud_entries d)
    | _ => true
    end) (map_to_list E).

(** * Consequences *)

Lemma env_wf_lookup E i d : env_wf E = true -> E !! i = Some d -> descriptor_wf E d = true.
Proof.
  unfold env_wf. rewrite forallb_forall. intros H Hi.
  apply (H (i, d)). apply list_elem_of_In. by apply elem_of_map_to_list.
Qed.

Lemma struct_desc_wf E p d : env_wf E = true -> struct_desc E p = Ok d -> struct_wf E d = true.
Proof.
  unfold struct_desc. intros HE H. destruct p as [i|]; [|done]. simpl in H.
  destruct (E !! i) as [[d'| |]|] eqn:Ei; simplify_eq. by apply (env_wf_lookup E i (DStruct d)).
Qed.

Lemma union_desc_wf E p d : env_wf E = true -> union_desc E p = Ok d -> union_wf E d = true.
Proof.
  unfold union_desc. intros HE H. destruct p as [i|]; [|done]. simpl in H.
  destruct (E !! i) as [[ |d'| ]|] eqn:Ei; simplify_eq. by apply (env_wf_lookup E i (DUnion d)).
Qed.

Lemma array_desc_wf E p d : env_wf E = true -> array_desc E p = Ok d -> array_wf E d = true.
Proof.
  unfold array_desc. intros HE H. destruct p as [i|]; [|done]. simpl in H.
  destruct (E !! i) as [[ | |d']|] eqn:Ei; simplify_eq. by apply (env_wf_lookup E i (DArray d)).
Qed.

Lemma no_union_ptr_entry E p d e :
  no_union_ptr E = true -> union_desc E p = Ok d -> e ∈ ud_entries d ->
  ue_elem_type e <> MOJOM_TYPE_DESCRIPTOR_TYPE_UNION_PTR.
Proof.
  unfold no_union_ptr, union_desc. rewrite forallb_forall. intros HE H He.
  destruct p as [i|]; [|done]. simpl in H.
  destruct (E !! i) as [[ |d'| ]|] eqn:Ei; simplify_eq.
  specialize (HE (i, DUnion d)). simpl in HE. rewrite forallb_forall in HE.
  assert (Hn : negb (is_union_ptr (ue_elem_type e)) = true).
  { apply HE; [|by apply list_elem_of_In].
    apply list_elem_of_In. by apply elem_of_map_to_list. }
  unfold is_union_ptr in Hn. by apply negb_true_iff, bool_decide_eq_false in Hn.
Qed.
