(* ===== verification/Validate.v ===== *)
(** The validator: src/c/include/mojo/bindings/validation.h and the
    [Validate] functions of type_descriptor.c, struct.c, array.c, union.c and
    map.c under src/c/lib/bindings/. *)
From stdpp Require Import base numbers list option gmap.
From coqutil Require Import Byte.
From Stdlib Require Import ZArith Lia.
From S2P Require Import Prelude CMem Buffer Descriptor.

(** * Results *)

Abbreviation MojomValidationResult := Z.

Definition MOJOM_VALIDATION_ERROR_NONE : MojomValidationResult := 0.
Definition MOJOM_VALIDATION_MISALIGNED_OBJECT : MojomValidationResult := 1.
Definition MOJOM_VALIDATION_ILLEGAL_MEMORY_RANGE : MojomValidationResult := 2.
Definition MOJOM_VALIDATION_UNEXPECTED_STRUCT_HEADER : MojomValidationResult := 3.
Definition MOJOM_VALIDATION_UNEXPECTED_ARRAY_HEADER : MojomValidationResult := 4.
Definition MOJOM_VALIDATION_ILLEGAL_HANDLE : MojomValidationResult := 5.
Definition MOJOM_VALIDATION_UNEXPECTED_INVALID_HANDLE : MojomValidationResult := 6.
Definition MOJOM_VALIDATION_ILLEGAL_POINTER : MojomValidationResult := 7.
Definition MOJOM_VALIDATION_UNEXPECTED_NULL_POINTER : MojomValidationResult := 8.
Definition MOJOM_VALIDATION_MESSAGE_HEADER_INVALID_FLAGS : MojomValidationResult := 9.
Definition MOJOM_VALIDATION_MESSAGE_HEADER_MISSING_REQUEST_ID : MojomValidationResult := 10.
Definition MOJOM_VALIDATION_MESSAGE_HEADER_UNKNOWN_METHOD : MojomValidationResult := 11.
Definition MOJOM_VALIDATION_DIFFERENT_SIZED_ARRAYS_IN_MAP : MojomValidationResult := 12.
Definition MOJOM_VALIDATION_UNEXPECTED_NULL_UNION : MojomValidationResult := 13.

Definition is_none_result (r : MojomValidationResult) : bool := r =? MOJOM_VALIDATION_ERROR_NONE.

(** [(MojoHandle)-1] *)
Definition kEncodedHandleInvalid : Z := 4294967295.
Definition MOJO_HANDLE_INVALID : Z := 0.

Record MojomValidationContext := {
  next_handle_index : Z;
  next_pointer : Z;
}.

Definition set_next_pointer (p : Z) (c : MojomValidationContext) : MojomValidationContext :=
  {| next_handle_index := next_handle_index c; next_pointer := p |}.
Definition set_next_handle_index (h : Z) (c : MojomValidationContext) : MojomValidationContext :=
  {| next_handle_index := h; next_pointer := next_pointer c |}.

Definition non_null (p : Z) : bool := negb (p =? NULL).
Definition desc_non_null (p : descptr) : bool := match p with Some _ => true | None => false end.

(** * Field addresses *)

(** [MOJOM_ARRAY_INDEX(base, type, index)], [size] being [sizeof(type)]. *)
Definition MOJOM_ARRAY_INDEX (base size index : Z) : Z :=
  base + sizeof_MojomArrayHeader + size * index.

Definition array_index_by_type (array : Z) (type : MojomTypeDescriptorType) (index : Z) : outcome Z :=
  match type with
  | MOJOM_TYPE_DESCRIPTOR_TYPE_STRUCT_PTR
  | MOJOM_TYPE_DESCRIPTOR_TYPE_MAP_PTR
  | MOJOM_TYPE_DESCRIPTOR_TYPE_ARRAY_PTR => Ok (MOJOM_ARRAY_INDEX array sizeof_MojomPointer index)
  | MOJOM_TYPE_DESCRIPTOR_TYPE_UNION => Ok (MOJOM_ARRAY_INDEX array sizeof_MojomUnionLayout index)
  | MOJOM_TYPE_DESCRIPTOR_TYPE_HANDLE => Ok (MOJOM_ARRAY_INDEX array sizeof_MojoHandle index)
  | MOJOM_TYPE_DESCRIPTOR_TYPE_INTERFACE =>
      Ok (MOJOM_ARRAY_INDEX array sizeof_MojomInterfaceData index)
  | MOJOM_TYPE_DESCRIPTOR_TYPE_UNION_PTR
  | MOJOM_TYPE_DESCRIPTOR_TYPE_POD => Abort
  end.

Definition bits_to_bytes (bits : Z) : Z := wrap64 (bits + 7) / 8.

Section Validate.
(** The descriptor tables, and the memory, which validation only reads. *)
Context (E : denv) (m : mem).

Abbreviation V := (M MojomValidationContext).

(** * Leaves *)

Definition validate_pointer (pointer max_offset : Z) (is_nullable : bool) :
    V MojomValidationResult :=
  offset ← lift (load64 m pointer);
  if (offset >? max_offset) || (offset >? UINT32_MAX) then
    mret MOJOM_VALIDATION_ILLEGAL_POINTER
  else
    c ← get;
    if negb (offset =? 0) && (wrap64 (pointer + offset) <? next_pointer c) then
      mret MOJOM_VALIDATION_ILLEGAL_MEMORY_RANGE
    else
      (if negb (offset =? 0) then modify (set_next_pointer (wrap64 (pointer + offset)))
       else mret tt);;
      if negb (Z.land offset 7 =? 0) then mret MOJOM_VALIDATION_MISALIGNED_OBJECT
      else if negb is_nullable && (offset =? 0) then
        mret MOJOM_VALIDATION_UNEXPECTED_NULL_POINTER
      else mret MOJOM_VALIDATION_ERROR_NONE.

Definition validate_handle (encoded_handle num_handles : Z) (is_nullable : bool) :
    V MojomValidationResult :=
  if negb is_nullable && (encoded_handle =? kEncodedHandleInvalid) then
    mret MOJOM_VALIDATION_UNEXPECTED_INVALID_HANDLE
  else if negb (encoded_handle =? kEncodedHandleInvalid) then
    c ← get;
    if (encoded_handle >=? num_handles) || (encoded_handle <? next_handle_index c) then
      mret MOJOM_VALIDATION_ILLEGAL_HANDLE
    else
      modify (set_next_handle_index (wrap32 (encoded_handle + 1)));;
      mret MOJOM_VALIDATION_ERROR_NONE
  else mret MOJOM_VALIDATION_ERROR_NONE.

(** The loop [for (; i > 0 && versions[i].version > version; i--);]. *)
Fixpoint seek_version (versions : list MojomTypeDescriptorStructVersion)
    (version : Z) (i : nat) : outcome nat :=
  match i with
  | O => Ok O
  | S i' =>
      v ← of_option (versions !! i);
      if sv_version v >? version then seek_version versions version i' else Ok i
  end.

(** With [num_versions] 0 the index wraps to [UINT32_MAX], out of bounds. *)
Definition is_valid_size_for_version (in_struct : Z)
    (versions : list MojomTypeDescriptorStructVersion) : outcome bool :=
  match versions with
  | [] => Fault
  | _ :: _ =>
      version ← load32 m (in_struct + 4);
      i ← seek_version versions version (length versions - 1);
      v ← of_option (versions !! i);
      num_bytes ← load32 m in_struct;
      mret (if version =? sv_version v then num_bytes =? sv_num_bytes v
            else num_bytes >=? sv_num_bytes v)
  end.

Definition validate_array_header (d : MojomTypeDescriptorArray) (in_array in_buf_size : Z) :
    outcome MojomValidationResult :=
  if in_buf_size <? sizeof_MojomArrayHeader then mret MOJOM_VALIDATION_ILLEGAL_MEMORY_RANGE
  else
    num_bytes ← load32 m in_array;
    if num_bytes <? sizeof_MojomArrayHeader then mret MOJOM_VALIDATION_UNEXPECTED_ARRAY_HEADER
    else if num_bytes >? in_buf_size then mret MOJOM_VALIDATION_ILLEGAL_MEMORY_RANGE
    else
      num_elements ← load32 m (in_array + 4);
      if negb (ad_num_elements d =? 0) && negb (num_elements =? ad_num_elements d) then
        mret MOJOM_VALIDATION_UNEXPECTED_ARRAY_HEADER
      else if num_bytes <? wrap64 (sizeof_MojomArrayHeader +
                                   bits_to_bytes (wrap64 (ad_elem_num_bits d * num_elements))) then
        mret MOJOM_VALIDATION_UNEXPECTED_ARRAY_HEADER
      else mret MOJOM_VALIDATION_ERROR_NONE.

(** * Objects

    Each function takes the dispatcher it calls back for the fields; the
    recursion is tied in [MojomType_DispatchValidate]. *)

Abbreviation dispatch_t :=
  (MojomTypeDescriptorType -> descptr -> bool -> Z -> Z -> Z -> V MojomValidationResult).

(** A loop body's [if (result != NONE) return result;]. *)
Definition return_error (r : MojomValidationResult) : option MojomValidationResult :=
  if is_none_result r then None else Some r.

Definition MojomStruct_Validate (dispatch : dispatch_t) (in_type_desc : descptr)
    (in_struct in_struct_size in_num_handles : Z) : V MojomValidationResult :=
  assert_ (desc_non_null in_type_desc);;
  assert_ (non_null in_struct);;
  if in_struct_size <? sizeof_MojomStructHeader then mret MOJOM_VALIDATION_ILLEGAL_MEMORY_RANGE
  else
    num_bytes ← lift (load32 m in_struct);
    if num_bytes >? in_struct_size then mret MOJOM_VALIDATION_ILLEGAL_MEMORY_RANGE
    else
      d ← lift (struct_desc E in_type_desc);
      valid ← lift (is_valid_size_for_version in_struct (sd_versions d));
      if negb valid then mret MOJOM_VALIDATION_UNEXPECTED_STRUCT_HEADER
      else if negb (Z.land num_bytes 7 =? 0) then mret MOJOM_VALIDATION_MISALIGNED_OBJECT
      else
        modify (set_next_pointer (in_struct + num_bytes));;
        r ← for_each (sd_entries d) (fun entry =>
          version ← lift (load32 m (in_struct + 4));
          if version <? se_min_version entry then mret None
          else
            let elem_data := in_struct + sizeof_MojomStructHeader + se_offset entry in
            result ← dispatch (se_elem_type entry) (se_elem_descriptor entry)
              (se_nullable entry) elem_data (wrap32 (in_struct_size - (elem_data - in_struct)))
              in_num_handles;
            mret (return_error result));
        mret (default MOJOM_VALIDATION_ERROR_NONE r).

(** [fuel] bounds the iterations of the loop over the elements. *)
Definition MojomArray_Validate (fuel : nat) (dispatch : dispatch_t) (in_type_desc : descptr)
    (in_array in_array_size in_num_handles : Z) : V MojomValidationResult :=
  assert_ (desc_non_null in_type_desc);;
  assert_ (non_null in_array);;
  d ← lift (array_desc E in_type_desc);
  result ← lift (validate_array_header d in_array in_array_size);
  if negb (is_none_result result) then mret result
  else
    num_bytes ← lift (load32 m in_array);
    modify (set_next_pointer (in_array + num_bytes));;
    if is_pod (ad_elem_type d) then mret MOJOM_VALIDATION_ERROR_NONE
    else
      r ← for_upto fuel 0 (lift (load32 m (in_array + 4))) (fun i =>
        elem_data ← lift (array_index_by_type in_array (ad_elem_type d) i);
        result ← dispatch (ad_elem_type d) (ad_elem_descriptor d) (ad_nullable d) elem_data
          (wrap32 (in_array_size - wrap32 (elem_data - in_array))) in_num_handles;
        mret (return_error result));
      mret (default MOJOM_VALIDATION_ERROR_NONE r).

Definition MojomUnion_Validate (dispatch : dispatch_t) (in_type_desc : descptr)
    (in_nullable : bool) (in_union in_union_size in_num_handles : Z) : V MojomValidationResult :=
  d ← lift (union_desc E in_type_desc);
  r ← for_each (ud_entries d) (fun entry =>
    tag ← lift (load32 m (in_union + 4));
    if negb (tag =? ue_tag entry) then mret None
    else if is_pod (ue_elem_type entry) then mret (Some MOJOM_VALIDATION_ERROR_NONE)
    else
      size ← lift (load32 m in_union);
      if negb in_nullable && negb (size =? sizeof_MojomUnionLayout) then
        mret (Some MOJOM_VALIDATION_UNEXPECTED_NULL_UNION)
      else
        result ← dispatch (ue_elem_type entry) (ue_elem_descriptor entry) (ue_nullable entry)
          (in_union + offsetof_union_data)
          (wrap32 (in_union_size - offsetof_union_data)) in_num_handles;
        mret (Some result));
  mret (default MOJOM_VALIDATION_ERROR_NONE r).

(** [keys] and [values] are at offsets 8 and 16 of [struct MojomMapLayout]. *)
Definition MojomMap_Validate (in_struct : Z) : V MojomValidationResult :=
  keys_offset ← lift (load64 m (in_struct + 8));
  values_offset ← lift (load64 m (in_struct + 16));
  let keys_arr := wrap64 (in_struct + wrap64 (8 + keys_offset)) in
  let values_arr := wrap64 (in_struct + wrap64 (16 + values_offset)) in
  keys_num ← lift (load32 m (keys_arr + 4));
  values_num ← lift (load32 m (values_arr + 4));
  if negb (keys_num =? values_num) then mret MOJOM_VALIDATION_DIFFERENT_SIZED_ARRAYS_IN_MAP
  else mret MOJOM_VALIDATION_ERROR_NONE.

(** The [MOJOM_TYPE_DESCRIPTOR_TYPE_UNION] case, also reached by falling
    through from [..._UNION_PTR]. *)
Definition validate_union_case (dispatch : dispatch_t) (in_type_desc : descptr)
    (in_nullable : bool) (in_buf union_data in_buf_size in_num_handles : Z) :
    V MojomValidationResult :=
  size ← lift (load32 m union_data);
  if size =? 0 then
    mret (if in_nullable then MOJOM_VALIDATION_ERROR_NONE
          else MOJOM_VALIDATION_UNEXPECTED_NULL_UNION)
  else
    MojomUnion_Validate dispatch in_type_desc in_nullable union_data
      (wrap32 (in_buf_size - (union_data - in_buf))) in_num_handles.

(** [fuel] bounds the nesting depth and the iterations of each array loop. *)
Fixpoint MojomType_DispatchValidate (fuel : nat) (in_elem_type : MojomTypeDescriptorType)
    (in_type_desc : descptr) (in_nullable : bool) (in_buf in_buf_size in_num_handles : Z) :
    V MojomValidationResult :=
  match fuel with
  | O => lift OutOfFuel
  | S fuel =>
      let dispatch := MojomType_DispatchValidate fuel in
      assert_ (non_null in_buf);;
      match in_elem_type with
      | MOJOM_TYPE_DESCRIPTOR_TYPE_MAP_PTR
      | MOJOM_TYPE_DESCRIPTOR_TYPE_STRUCT_PTR =>
          result ← validate_pointer in_buf in_buf_size in_nullable;
          offset ← lift (load64 m in_buf);
          if negb (is_none_result result) || (offset =? 0) then mret result
          else
            result ← MojomStruct_Validate dispatch in_type_desc (wrap64 (in_buf + offset))
              (wrap32 (in_buf_size - offset)) in_num_handles;
            if is_none_result result &&
               bool_decide (in_elem_type = MOJOM_TYPE_DESCRIPTOR_TYPE_MAP_PTR) then
              MojomMap_Validate (wrap64 (in_buf + offset))
            else mret result
      | MOJOM_TYPE_DESCRIPTOR_TYPE_ARRAY_PTR =>
          result ← validate_pointer in_buf in_buf_size in_nullable;
          offset ← lift (load64 m in_buf);
          if negb (is_none_result result) || (offset =? 0) then mret result
          else
            MojomArray_Validate fuel dispatch in_type_desc (wrap64 (in_buf + offset))
              (wrap32 (in_buf_size - offset)) in_num_handles
      | MOJOM_TYPE_DESCRIPTOR_TYPE_UNION_PTR =>
          result ← validate_pointer in_buf in_buf_size in_nullable;
          offset ← lift (load64 m in_buf);
          if negb (is_none_result result) || (offset =? 0) then mret result
          else
            modify (fun c => set_next_pointer (next_pointer c + sizeof_MojomUnionLayout) c);;
            validate_union_case dispatch in_type_desc in_nullable in_buf
              (wrap64 (in_buf + offset)) in_buf_size in_num_handles
      | MOJOM_TYPE_DESCRIPTOR_TYPE_UNION =>
          validate_union_case dispatch in_type_desc in_nullable in_buf in_buf in_buf_size
            in_num_handles
      | MOJOM_TYPE_DESCRIPTOR_TYPE_HANDLE
      | MOJOM_TYPE_DESCRIPTOR_TYPE_INTERFACE =>
          handle ← lift (load32 m in_buf);
          validate_handle handle in_num_handles in_nullable
      | MOJOM_TYPE_DESCRIPTOR_TYPE_POD => mret MOJOM_VALIDATION_ERROR_NONE
      end
  end.
End Validate.

(** What generated code calls to validate a message of a given struct type. *)
Definition validate_struct (E : denv) (m : mem) (fuel : nat) (in_type_desc : descptr)
    (in_struct in_struct_size in_num_handles : Z) (c : MojomValidationContext) :
    outcome (MojomValidationResult * MojomValidationContext) :=
  MojomStruct_Validate E m (MojomType_DispatchValidate E m fuel) in_type_desc in_struct
    in_struct_size in_num_handles c.
