(* ===== verification/Samples.v ===== *)
(** Sample types and messages, on which the theorems of the other files are
    instantiated: a struct with an array of structs, a handle and a union, a map,
    and a union nested in a union. *)
From stdpp Require Import base numbers list option gmap.
From coqutil Require Import Byte Word.LittleEndianList.
From Stdlib Require Import ZArith Lia.
From S2P Require Import Prelude CMem Buffer Descriptor Validate.

(** A memory holding 32-bit words from [base] on, and nothing else. *)
Definition words (ws : list Z) : list byte := mjoin (le_split 4 <$> ws).
Definition mem_of (base : Z) (ws : list Z) : mem := store_bytes ∅ base (words ws).

Lemma length_words ws : length (words ws) = (4 * length ws)%nat.
Proof.
  induction ws as [|w ws IH]; [done|].
  change (words (w :: ws)) with (le_split 4 w ++ words ws).
  rewrite length_app, length_le_split, IH. simpl. lia.
Qed.

Lemma mem_of_mapped base ws : mapped (mem_of base ws) base (base + 4 * Z.of_nat (length ws)).
Proof.
  pose proof (load_bytes_store_bytes ∅ base (words ws)) as H.
  apply load_bytes_Some_mapped in H. rewrite length_words in H.
  eapply mapped_weaken; [exact H|lia..].
Qed.

(** * Types *)

Abbreviation STRUCT_PTR := MOJOM_TYPE_DESCRIPTOR_TYPE_STRUCT_PTR.
Abbreviation MAP_PTR := MOJOM_TYPE_DESCRIPTOR_TYPE_MAP_PTR.
Abbreviation ARRAY_PTR := MOJOM_TYPE_DESCRIPTOR_TYPE_ARRAY_PTR.
Abbreviation UNION_PTR := MOJOM_TYPE_DESCRIPTOR_TYPE_UNION_PTR.
Abbreviation UNION := MOJOM_TYPE_DESCRIPTOR_TYPE_UNION.
Abbreviation HANDLE := MOJOM_TYPE_DESCRIPTOR_TYPE_HANDLE.
Abbreviation POD := MOJOM_TYPE_DESCRIPTOR_TYPE_POD.

Definition entry ty p off nullable : MojomTypeDescriptorStructEntry := {|
  se_elem_type := ty; se_elem_descriptor := p; se_offset := off; se_min_version := 0;
  se_nullable := nullable;
|}.

Definition version_row v nb : MojomTypeDescriptorStructVersion :=
  {| sv_version := v; sv_num_bytes := nb |}.

(** [struct Leaf { handle? h; };] *)
Definition leaf_struct := {|
  sd_versions := [version_row 0 16]; sd_entries := [entry HANDLE None 0 true];
|}.

(** [array<Leaf?>] *)
Definition leaves_array := {|
  ad_elem_type := STRUCT_PTR; ad_elem_descriptor := Some 3%nat; ad_num_elements := 0;
  ad_elem_num_bits := 64; ad_nullable := true;
|}.

(** [union U { int32 i; Leaf leaf; };] *)
Definition sample_union := {|
  ud_num_fields := 2;
  ud_entries := [{| ue_elem_type := STRUCT_PTR; ue_elem_descriptor := Some 3%nat; ue_tag := 1;
                    ue_nullable := false |}];
|}.

(** [struct Root { array<Leaf?> leaves; handle h; U? u; };], with a version 1
    that adds 8 bytes of plain data. *)
Definition root_struct := {|
  sd_versions := [version_row 0 40; version_row 1 48];
  sd_entries := [entry ARRAY_PTR (Some 1%nat) 0 false; entry HANDLE None 8 false;
                 entry UNION (Some 2%nat) 16 true];
|}.

(** [map<uint64, uint64>], and a struct that holds one. *)
Definition ints_array := {|
  ad_elem_type := POD; ad_elem_descriptor := None; ad_num_elements := 0; ad_elem_num_bits := 64;
  ad_nullable := false;
|}.
Definition map_struct := {|
  sd_versions := [version_row 0 24];
  sd_entries := [entry ARRAY_PTR (Some 4%nat) 0 false; entry ARRAY_PTR (Some 4%nat) 8 false];
|}.
Definition holder_struct := {|
  sd_versions := [version_row 0 16]; sd_entries := [entry MAP_PTR (Some 5%nat) 0 false];
|}.

Definition sample_env : denv := list_to_map [
  (0%nat, DStruct root_struct); (1%nat, DArray leaves_array); (2%nat, DUnion sample_union); (3%nat, DStruct leaf_struct);
  (4%nat, DArray ints_array); (5%nat, DStruct map_struct); (6%nat, DStruct holder_struct)].

(** A union whose field 1 is a nullable union of the same type, out of line,
    and a struct that holds one. *)
Definition nested_union := {|
  ud_num_fields := 3;
  ud_entries := [{| ue_elem_type := UNION_PTR; ue_elem_descriptor := Some 1%nat; ue_tag := 1;
                    ue_nullable := true |};
                 {| ue_elem_type := STRUCT_PTR; ue_elem_descriptor := Some 2%nat; ue_tag := 2;
                    ue_nullable := false |}];
|}.
Definition nested_env : denv := list_to_map [
  (0%nat, DStruct {| sd_versions := [version_row 0 24];
                     sd_entries := [entry UNION (Some 1%nat) 0 false] |});
  (1%nat, DUnion nested_union); (2%nat, DStruct leaf_struct)].

(** * Messages *)

(** A [Root] at 4096, its array at 4136 (a null and a [Leaf] at 4160), its union
    holding a [Leaf] at 4176; handle indices 0, 1 and 2 in traversal order. *)
Definition sample_words : list Z :=
  [ 40; 0;   32; 0;   1; 0;   16; 1;   48; 0;
    24; 2;   0; 0;   8; 0;
    16; 0;   0; 0;
    16; 0;   2; 0 ].
Definition sample_mem : mem := mem_of 4096 sample_words.
Definition sample_size : Z := 96.
Definition start_context : MojomValidationContext :=
  {| next_handle_index := 0; next_pointer := 4096 |}.

(** A [holder] at 4096 with a map at 4112 of one key (7) and one value (9). *)
Definition sample_map_words : list Z :=
  [ 16; 0;   8; 0;
    24; 0;   16; 0;   24; 0;
    16; 1;   7; 0;
    16; 1;   9; 0 ].

Example sample_envs_wf :
  env_wf sample_env = true /\ no_union_ptr sample_env = true /\
  env_wf nested_env = true /\ no_union_ptr nested_env = false.
Proof. vm_compute. done. Qed.

Example sample_validates :
  validate_struct sample_env sample_mem 98 (Some 0%nat) 4096 96 3 start_context =
    Ok (MOJOM_VALIDATION_ERROR_NONE, {| next_handle_index := 3; next_pointer := 4192 |}).
Proof. vm_compute. done. Qed.

Example sample_map_validates :
  validate_struct sample_env (mem_of 4096 sample_map_words) 98 (Some 6%nat) 4096 72 0 start_context =
    Ok (MOJOM_VALIDATION_ERROR_NONE, {| next_handle_index := 0; next_pointer := 4168 |}).
Proof. vm_compute. done. Qed.

(** One handle fewer, and the last index is out of range. *)
Example sample_missing_handle :
  exists c, validate_struct sample_env sample_mem 98 (Some 0%nat) 4096 96 2 start_context =
    Ok (MOJOM_VALIDATION_ILLEGAL_HANDLE, c).
Proof. eexists. vm_compute. done. Qed.

(** ** A union in a union

    A [nested_env] struct at 4096, its union (tag 1) at 4104 pointing from 4112
    to a union (tag 2) at 4120, which points from 4128 to a [Leaf] at 4136. *)

Definition nested_size : Z := 56.
Definition nested_wire : mem :=
  mem_of 4096 [24; 0;   16; 1;   8; 0;   16; 2;   8; 0;   16; 0;   4294967295; 0].
Definition nested_built : mem :=
  mem_of 4096 [24; 0;   16; 1;   4120; 0;   16; 2;   4136; 0;   16; 0;   0; 0].

(** 24 bytes only: the nested union would start where the buffer ends. *)
Definition nested_truncated : mem := mem_of 4096 [24; 0;   16; 1;   8; 0].
