(* ===== verification/Codec.v ===== *)
(** Encoding and decoding of pointers and handles in place: the
    [EncodePointersAndHandles] and [DecodePointersAndHandles] functions of
    type_descriptor.c, struct.c, array.c and union.c under src/c/lib/bindings/. *)
From stdpp Require Import base numbers list option gmap.
From coqutil Require Import Byte.
From Stdlib Require Import ZArith Lia.
From S2P Require Import Prelude CMem Buffer Descriptor Validate.

(** The encoder's [struct MojomHandleBuffer*] and the decoder's [MojoHandle*],
    each possibly NULL; the arrays they lead to are apart from the message. *)
Abbreviation encM := (M (mem * option MojomHandleBuffer)).
Abbreviation decM := (M (mem * option (list Z))).

(** * Leaves *)

Definition encode_pointer {X} (pointer max_offset : Z) : M (mem * X) unit :=
  ptr ← mload 8 pointer;
  if ptr =? NULL then mstore 8 pointer 0
  else
    assert_ (ptr >? pointer);;
    assert_ (wrap64 (ptr - pointer) <? max_offset);;
    mstore 8 pointer (wrap64 (ptr - pointer)).

Definition decode_pointer {X} (pointer : Z) : M (mem * X) unit :=
  offset ← mload 8 pointer;
  if offset =? 0 then mstore 8 pointer NULL
  else mstore 8 pointer (wrap64 (pointer + offset)).

Definition encode_handle (nullable : bool) (handle : Z) : encM unit :=
  assert_ (non_null handle);;
  handles_buffer ← on_snd get;
  match handles_buffer with
  | None => lift Abort
  | Some hb =>
      match handles hb with
      | None => lift Abort
      | Some hs =>
          h ← mload 4 handle;
          if h =? MOJO_HANDLE_INVALID then
            assert_ nullable;;
            mstore 4 handle kEncodedHandleInvalid
          else
            let used := num_handles_used hb in
            assert_ (used <? num_handles hb);;
            lift (of_option (hs !! Z.to_nat used));;
            on_snd (put (Some {| handles := Some (<[Z.to_nat used := h]> hs);
                                 num_handles := num_handles hb;
                                 num_handles_used := wrap32 (used + 1) |}));;
            mstore 4 handle used
      end
  end.

Definition decode_handle (handle in_num_handles : Z) : decM unit :=
  assert_ (non_null handle);;
  inout_handles ← on_snd get;
  match inout_handles with
  | None => lift Abort
  | Some hs =>
      index ← mload 4 handle;
      if index =? kEncodedHandleInvalid then mstore 4 handle MOJO_HANDLE_INVALID
      else
        assert_ (index <? in_num_handles);;
        h ← lift (of_option (hs !! Z.to_nat index));
        mstore 4 handle h;;
        on_snd (put (Some (<[Z.to_nat index := MOJO_HANDLE_INVALID]> hs)))
  end.

(** [assert(inout_handles != NULL || in_num_handles == 0)] *)
Definition assert_handles (in_num_handles : Z) : decM unit :=
  inout_handles ← on_snd get;
  assert_ (bool_decide (is_Some inout_handles) || (in_num_handles =? 0)).

(** * Encoding *)

Section Encode.
Context (E : denv).

Abbreviation dispatch_t :=
  (MojomTypeDescriptorType -> descptr -> bool -> Z -> Z -> encM unit).

Definition MojomStruct_EncodePointersAndHandles (dispatch : dispatch_t) (in_type_desc : descptr)
    (inout_struct in_struct_size : Z) : encM unit :=
  assert_ (desc_non_null in_type_desc);;
  assert_ (non_null inout_struct);;
  assert_ (in_struct_size >=? sizeof_MojomStructHeader);;
  d ← lift (struct_desc E in_type_desc);
  for_each (R := unit) (sd_entries d) (fun entry =>
    version ← mload 4 (inout_struct + 4);
    if version <? se_min_version entry then mret None
    else
      assert_ (sizeof_MojomStructHeader + se_offset entry <? in_struct_size);;
      let elem_data := inout_struct + sizeof_MojomStructHeader + se_offset entry in
      dispatch (se_elem_type entry) (se_elem_descriptor entry) (se_nullable entry) elem_data
        (wrap32 (in_struct_size - (elem_data - inout_struct)));;
      mret None);;
  mret tt.

Definition MojomArray_EncodePointersAndHandles (fuel : nat) (dispatch : dispatch_t)
    (in_type_desc : descptr) (inout_array in_array_size : Z) : encM unit :=
  assert_ (desc_non_null in_type_desc);;
  assert_ (non_null inout_array);;
  assert_ (in_array_size >=? sizeof_MojomArrayHeader);;
  num_bytes ← mload 4 inout_array;
  assert_ (in_array_size >=? num_bytes);;
  d ← lift (array_desc E in_type_desc);
  if is_pod (ad_elem_type d) then mret tt
  else
    for_upto (R := unit) fuel 0 (mload 4 (inout_array + 4)) (fun i =>
      elem_data ← lift (array_index_by_type inout_array (ad_elem_type d) i);
      assert_ (elem_data <? inout_array + in_array_size);;
      dispatch (ad_elem_type d) (ad_elem_descriptor d) (ad_nullable d) elem_data
        (wrap32 (in_array_size - wrap32 (elem_data - inout_array)));;
      mret None);;
    mret tt.

Definition MojomUnion_EncodePointersAndHandles (dispatch : dispatch_t) (in_type_desc : descptr)
    (inout_union in_buf_size : Z) : encM unit :=
  assert_ (in_buf_size >=? sizeof_MojomUnionLayout);;
  d ← lift (union_desc E in_type_desc);
  for_each (ud_entries d) (fun entry =>
    tag ← mload 4 (inout_union + 4);
    if negb (tag =? ue_tag entry) then mret None
    else if is_pod (ue_elem_type entry) then mret (Some tt)
    else
      dispatch (ue_elem_type entry) (ue_elem_descriptor entry) (ue_nullable entry)
        (inout_union + offsetof_union_data) (wrap32 (in_buf_size - offsetof_union_data));;
      mret (Some tt));;
  mret tt.

(** The [..._UNION] case, also reached by falling through from [..._UNION_PTR]:
    the test looks at [union_buf], the call is made on [inout_buf]. *)
Definition encode_union_case (dispatch : dispatch_t) (in_type_desc : descptr)
    (in_nullable : bool) (inout_buf union_buf in_buf_size : Z) : encM unit :=
  present ← (if negb in_nullable then mret true
             else if union_buf =? NULL then mret false
             else size ← mload 4 union_buf; mret (negb (size =? 0)));
  if (present : bool) then
    MojomUnion_EncodePointersAndHandles dispatch in_type_desc inout_buf in_buf_size
  else mret tt.

Fixpoint MojomType_DispatchEncodePointersAndHandles (fuel : nat)
    (in_elem_type : MojomTypeDescriptorType) (in_type_desc : descptr) (in_nullable : bool)
    (inout_buf in_buf_size : Z) : encM unit :=
  match fuel with
  | O => lift OutOfFuel
  | S fuel =>
      let dispatch := MojomType_DispatchEncodePointersAndHandles fuel in
      assert_ (non_null inout_buf);;
      match in_elem_type with
      | MOJOM_TYPE_DESCRIPTOR_TYPE_MAP_PTR
      | MOJOM_TYPE_DESCRIPTOR_TYPE_STRUCT_PTR =>
          inout_struct ← mload 8 inout_buf;
          encode_pointer inout_buf in_buf_size;;
          if negb in_nullable || non_null inout_struct then
            MojomStruct_EncodePointersAndHandles dispatch in_type_desc inout_struct
              (wrap32 (in_buf_size - (inout_struct - inout_buf)))
          else mret tt
      | MOJOM_TYPE_DESCRIPTOR_TYPE_ARRAY_PTR =>
          inout_array ← mload 8 inout_buf;
          encode_pointer inout_buf in_buf_size;;
          if negb in_nullable || non_null inout_array then
            MojomArray_EncodePointersAndHandles fuel dispatch in_type_desc inout_array
              (wrap32 (in_buf_size - (inout_array - inout_buf)))
          else mret tt
      | MOJOM_TYPE_DESCRIPTOR_TYPE_UNION_PTR =>
          union_buf ← mload 8 inout_buf;
          encode_pointer inout_buf in_buf_size;;
          encode_union_case dispatch in_type_desc in_nullable inout_buf union_buf in_buf_size
      | MOJOM_TYPE_DESCRIPTOR_TYPE_UNION =>
          encode_union_case dispatch in_type_desc in_nullable inout_buf inout_buf in_buf_size
      | MOJOM_TYPE_DESCRIPTOR_TYPE_HANDLE
      | MOJOM_TYPE_DESCRIPTOR_TYPE_INTERFACE => encode_handle in_nullable inout_buf
      | MOJOM_TYPE_DESCRIPTOR_TYPE_POD => lift Abort
      end
  end.
End Encode.

(** * Decoding *)

Section Decode.
Context (E : denv) (in_num_handles : Z).

Abbreviation dispatch_t :=
  (MojomTypeDescriptorType -> descptr -> bool -> Z -> Z -> decM unit).

Definition MojomStruct_DecodePointersAndHandles (dispatch : dispatch_t) (in_type_desc : descptr)
    (inout_struct in_struct_size : Z) : decM unit :=
  assert_ (desc_non_null in_type_desc);;
  assert_ (non_null inout_struct);;
  assert_handles in_num_handles;;
  d ← lift (struct_desc E in_type_desc);
  for_each (R := unit) (sd_entries d) (fun entry =>
    version ← mload 4 (inout_struct + 4);
    if version <? se_min_version entry then mret None
    else
      assert_ (sizeof_MojomStructHeader + se_offset entry <? in_struct_size);;
      let elem_data := inout_struct + sizeof_MojomStructHeader + se_offset entry in
      dispatch (se_elem_type entry) (se_elem_descriptor entry) (se_nullable entry) elem_data
        (wrap32 (in_struct_size - (elem_data - inout_struct)));;
      mret None);;
  mret tt.

Definition MojomArray_DecodePointersAndHandles (fuel : nat) (dispatch : dispatch_t)
    (in_type_desc : descptr) (inout_array in_array_size : Z) : decM unit :=
  assert_ (desc_non_null in_type_desc);;
  assert_ (non_null inout_array);;
  assert_handles in_num_handles;;
  d ← lift (array_desc E in_type_desc);
  if is_pod (ad_elem_type d) then mret tt
  else
    for_upto (R := unit) fuel 0 (mload 4 (inout_array + 4)) (fun i =>
      elem_data ← lift (array_index_by_type inout_array (ad_elem_type d) i);
      assert_ (elem_data <? inout_array + in_array_size);;
      dispatch (ad_elem_type d) (ad_elem_descriptor d) (ad_nullable d) elem_data
        (wrap32 (in_array_size - wrap32 (elem_data - inout_array)));;
      mret None);;
    mret tt.

Definition MojomUnion_DecodePointersAndHandles (dispatch : dispatch_t) (in_type_desc : descptr)
    (inout_union in_union_size : Z) : decM unit :=
  assert_ (in_union_size >=? sizeof_MojomUnionLayout);;
  assert_handles in_num_handles;;
  d ← lift (union_desc E in_type_desc);
  for_each (ud_entries d) (fun entry =>
    tag ← mload 4 (inout_union + 4);
    if negb (tag =? ue_tag entry) then mret None
    else if is_pod (ue_elem_type entry) then mret (Some tt)
    else
      dispatch (ue_elem_type entry) (ue_elem_descriptor entry) (ue_nullable entry)
        (inout_union + offsetof_union_data) (wrap32 (in_union_size - offsetof_union_data));;
      mret (Some tt));;
  mret tt.

Definition decode_union_case (dispatch : dispatch_t) (in_type_desc : descptr)
    (in_nullable : bool) (inout_buf union_buf in_buf_size : Z) : decM unit :=
  present ← (if negb in_nullable then mret true
             else if union_buf =? NULL then mret false
             else size ← mload 4 union_buf; mret (negb (size =? 0)));
  if (present : bool) then
    MojomUnion_DecodePointersAndHandles dispatch in_type_desc inout_buf in_buf_size
  else mret tt.

Fixpoint MojomType_DispatchDecodePointersAndHandles (fuel : nat)
    (in_elem_type : MojomTypeDescriptorType) (in_type_desc : descptr) (in_nullable : bool)
    (inout_buf in_buf_size : Z) : decM unit :=
  match fuel with
  | O => lift OutOfFuel
  | S fuel =>
      let dispatch := MojomType_DispatchDecodePointersAndHandles fuel in
      assert_ (non_null inout_buf);;
      match in_elem_type with
      | MOJOM_TYPE_DESCRIPTOR_TYPE_MAP_PTR
      | MOJOM_TYPE_DESCRIPTOR_TYPE_STRUCT_PTR =>
          decode_pointer inout_buf;;
          inout_struct ← mload 8 inout_buf;
          assert_ ((inout_struct =? NULL) || (inout_struct <? inout_buf + in_buf_size));;
          if negb in_nullable || non_null inout_struct then
            MojomStruct_DecodePointersAndHandles dispatch in_type_desc inout_struct
              (wrap32 (in_buf_size - (inout_struct - inout_buf)))
          else mret tt
      | MOJOM_TYPE_DESCRIPTOR_TYPE_ARRAY_PTR =>
          decode_pointer inout_buf;;
          inout_array ← mload 8 inout_buf;
          assert_ ((inout_array =? NULL) || (inout_array <? inout_buf + in_buf_size));;
          if negb in_nullable || non_null inout_array then
            MojomArray_DecodePointersAndHandles fuel dispatch in_type_desc inout_array
              (wrap32 (in_buf_size - (inout_array - inout_buf)))
          else mret tt
      | MOJOM_TYPE_DESCRIPTOR_TYPE_UNION_PTR =>
          decode_pointer inout_buf;;
          union_buf ← mload 8 inout_buf;
          assert_ ((union_buf =? NULL) || (union_buf <? inout_buf + in_buf_size));;
          decode_union_case dispatch in_type_desc in_nullable inout_buf union_buf in_buf_size
      | MOJOM_TYPE_DESCRIPTOR_TYPE_UNION =>
          decode_union_case dispatch in_type_desc in_nullable inout_buf inout_buf in_buf_size
      | MOJOM_TYPE_DESCRIPTOR_TYPE_HANDLE
      | MOJOM_TYPE_DESCRIPTOR_TYPE_INTERFACE => decode_handle inout_buf in_num_handles
      | MOJOM_TYPE_DESCRIPTOR_TYPE_POD => lift Abort
      end
  end.
End Decode.

(** What generated code calls on a whole message, a struct. *)
Definition encode_struct (E : denv) (fuel : nat) (in_type_desc : descptr)
    (inout_struct in_struct_size : Z) : encM unit :=
  MojomStruct_EncodePointersAndHandles E (MojomType_DispatchEncodePointersAndHandles E fuel)
    in_type_desc inout_struct in_struct_size.

Definition decode_struct (E : denv) (fuel : nat) (in_type_desc : descptr)
    (inout_struct in_struct_size in_num_handles : Z) : decM unit :=
  MojomStruct_DecodePointersAndHandles E in_num_handles
    (MojomType_DispatchDecodePointersAndHandles E in_num_handles fuel)
    in_type_desc inout_struct in_struct_size.
