(* ===== verification/DeepCopy.v ===== *)
(** Deep copies into a buffer: the [DeepCopy] functions of type_descriptor.c,
    struct.c, array.c and union.c under src/c/lib/bindings/. *)
From stdpp Require Import base numbers list option gmap.
From coqutil Require Import Byte.
From Stdlib Require Import ZArith Lia.
From S2P Require Import Prelude CMem Buffer Descriptor Validate.

Definition UNION_TAG_UNKNOWN : Z := 4294967295.

Section DeepCopy.
Context (E : denv).

Abbreviation copyM := (M (mem * MojomBuffer)).
Abbreviation dispatch_t := (MojomTypeDescriptorType -> descptr -> Z -> Z -> copyM bool).

(** A loop body's [if (!copied) return false;]. *)
Definition return_false (copied : bool) : option bool := if copied then None else Some false.

(** [out_struct] and [out_array] are the addresses of the pointers to set. *)
Definition MojomStruct_DeepCopy (dispatch : dispatch_t) (in_type_desc : descptr)
    (in_struct out_struct : Z) : copyM bool :=
  assert_ (desc_non_null in_type_desc);;
  assert_ (non_null in_struct);;
  assert_ (non_null out_struct);;
  num_bytes ← mload 4 in_struct;
  p ← on_snd (MojomBuffer_Allocate num_bytes);
  mstore 8 out_struct p;;
  if p =? NULL then mret false
  else
    num_bytes ← mload 4 in_struct;
    mmemcpy p in_struct num_bytes;;
    d ← lift (struct_desc E in_type_desc);
    r ← for_each (sd_entries d) (fun entry =>
      version ← mload 4 (in_struct + 4);
      if version <? se_min_version entry then mret None
      else
        let in_elem_data := in_struct + sizeof_MojomStructHeader + se_offset entry in
        out ← mload 8 out_struct;
        let out_elem_data := out + sizeof_MojomStructHeader + se_offset entry in
        copied ← dispatch (se_elem_type entry) (se_elem_descriptor entry) in_elem_data out_elem_data;
        mret (return_false copied));
    mret (default true r).

Definition MojomArray_DeepCopy (fuel : nat) (dispatch : dispatch_t) (in_type_desc : descptr)
    (in_array out_array : Z) : copyM bool :=
  assert_ (desc_non_null in_type_desc);;
  assert_ (non_null in_array);;
  assert_ (non_null out_array);;
  num_bytes ← mload 4 in_array;
  p ← on_snd (MojomBuffer_Allocate num_bytes);
  mstore 8 out_array p;;
  if p =? NULL then mret false
  else
    num_bytes ← mload 4 in_array;
    mmemcpy p in_array num_bytes;;
    d ← lift (array_desc E in_type_desc);
    if is_pod (ad_elem_type d) then mret true
    else
      r ← for_upto fuel 0 (mload 4 (in_array + 4)) (fun i =>
        in_elem_data ← lift (array_index_by_type in_array (ad_elem_type d) i);
        out ← mload 8 out_array;
        out_elem_data ← lift (array_index_by_type out (ad_elem_type d) i);
        copied ← dispatch (ad_elem_type d) (ad_elem_descriptor d) in_elem_data out_elem_data;
        mret (return_false copied));
      mret (default true r).

Definition MojomUnion_DeepCopy (dispatch : dispatch_t) (in_type_desc : descptr)
    (in_union_data out_union_data : Z) : copyM bool :=
  mmemcpy out_union_data in_union_data sizeof_MojomUnionLayout;;
  size ← mload 4 in_union_data;
  if size =? 0 then mret true
  else
    d ← lift (union_desc E in_type_desc);
    r ← for_each (ud_entries d) (fun entry =>
      tag ← mload 4 (in_union_data + 4);
      if negb (tag =? ue_tag entry) then mret None
      else if is_pod (ue_elem_type entry) then mret (Some true)
      else
        copied ← dispatch (ue_elem_type entry) (ue_elem_descriptor entry)
          (in_union_data + offsetof_union_data) (out_union_data + offsetof_union_data);
        mret (Some (copied : bool)));
    match r with
    | Some copied => mret copied
    | None =>
        tag ← mload 4 (in_union_data + 4);
        mret ((tag <? ud_num_fields d) || (tag =? UNION_TAG_UNKNOWN))
    end.

Fixpoint MojomType_DispatchDeepCopy (fuel : nat) (in_elem_type : MojomTypeDescriptorType)
    (in_type_desc : descptr) (in_data out_data : Z) : copyM bool :=
  match fuel with
  | O => lift OutOfFuel
  | S fuel =>
      let dispatch := MojomType_DispatchDeepCopy fuel in
      assert_ (non_null in_data);;
      match in_elem_type with
      | MOJOM_TYPE_DESCRIPTOR_TYPE_MAP_PTR
      | MOJOM_TYPE_DESCRIPTOR_TYPE_STRUCT_PTR =>
          in_pointer ← mload 8 in_data;
          if in_pointer =? NULL then mstore 8 out_data NULL;; mret true
          else MojomStruct_DeepCopy dispatch in_type_desc in_pointer out_data
      | MOJOM_TYPE_DESCRIPTOR_TYPE_ARRAY_PTR =>
          in_pointer ← mload 8 in_data;
          if in_pointer =? NULL then mstore 8 out_data NULL;; mret true
          else MojomArray_DeepCopy fuel dispatch in_type_desc in_pointer out_data
      | MOJOM_TYPE_DESCRIPTOR_TYPE_UNION_PTR =>
          in_union_data ← mload 8 in_data;
          if in_union_data =? NULL then mstore 8 out_data NULL;; mret true
          else
            out_union_data ← on_snd (MojomBuffer_Allocate sizeof_MojomUnionLayout);
            if out_union_data =? NULL then mret false
            else
              mstore 8 out_data out_union_data;;
              MojomUnion_DeepCopy dispatch in_type_desc in_union_data out_union_data
      | MOJOM_TYPE_DESCRIPTOR_TYPE_UNION =>
          MojomUnion_DeepCopy dispatch in_type_desc in_data out_data
      | MOJOM_TYPE_DESCRIPTOR_TYPE_HANDLE
      | MOJOM_TYPE_DESCRIPTOR_TYPE_INTERFACE
      | MOJOM_TYPE_DESCRIPTOR_TYPE_POD => mret true
      end
  end.
End DeepCopy.

(** What a user calls to copy a whole message, a struct: the address of the
    pointer to set is [out_struct]. *)
Definition deep_copy_struct (E : denv) (fuel : nat) (in_type_desc : descptr)
    (in_struct out_struct : Z) : M (mem * MojomBuffer) bool :=
  MojomStruct_DeepCopy E (MojomType_DispatchDeepCopy E fuel) in_type_desc in_struct out_struct.
