(* ===== verification/Message.v ===== *)
(** Message headers: src/c/lib/bindings/message.c and
    src/c/include/mojo/bindings/message.h. *)
From stdpp Require Import base numbers list option gmap.
From coqutil Require Import Byte.
From Stdlib Require Import ZArith Lia.
From S2P Require Import Prelude CMem Buffer Descriptor Validate Samples.

Definition MOJOM_MESSAGE_FLAGS_EXPECTS_RESPONSE : Z := Z.shiftl 1 0.
Definition MOJOM_MESSAGE_FLAGS_IS_RESPONSE : Z := Z.shiftl 1 1.

Definition sizeof_MojomMessage : Z := 16.
Definition sizeof_MojomMessageWithRequestId : Z := 24.

(** [msg->flags & flag], as a condition. *)
Definition has_flag (flags flag : Z) : bool := negb (Z.land flags flag =? 0).

Section Message.
Context (m : mem).

(** Fields of [struct MojomMessage]: [num_bytes] at 0, [version] at 4, [flags]
    at 12. *)
Definition msg_flags (in_buf : Z) : outcome Z := load32 m (in_buf + 12).

Definition MojomMessage_ValidateHeader (in_buf in_buf_size : Z) : outcome MojomValidationResult :=
  if in_buf_size <? sizeof_MojomStructHeader then mret MOJOM_VALIDATION_ILLEGAL_MEMORY_RANGE
  else
    num_bytes ← load32 m in_buf;
    if in_buf_size <? num_bytes then mret MOJOM_VALIDATION_ILLEGAL_MEMORY_RANGE
    else
      version ← load32 m (in_buf + 4);
      early ←
        (if version =? 0 then
           if negb (num_bytes =? sizeof_MojomMessage) then
             mret (Some MOJOM_VALIDATION_UNEXPECTED_STRUCT_HEADER)
           else
             flags ← msg_flags in_buf;
             if has_flag flags MOJOM_MESSAGE_FLAGS_EXPECTS_RESPONSE ||
                has_flag flags MOJOM_MESSAGE_FLAGS_IS_RESPONSE then
               mret (Some MOJOM_VALIDATION_MESSAGE_HEADER_MISSING_REQUEST_ID)
             else mret None
         else if version =? 1 then
           if negb (num_bytes =? sizeof_MojomMessageWithRequestId) then
             mret (Some MOJOM_VALIDATION_UNEXPECTED_STRUCT_HEADER)
           else mret None
         else if version >? 1 then
           if num_bytes <? sizeof_MojomMessageWithRequestId then
             mret (Some MOJOM_VALIDATION_UNEXPECTED_STRUCT_HEADER)
           else mret None
         else mret None);
      match early with
      | Some result => mret result
      | None =>
          flags ← msg_flags in_buf;
          if has_flag flags MOJOM_MESSAGE_FLAGS_EXPECTS_RESPONSE &&
             has_flag flags MOJOM_MESSAGE_FLAGS_IS_RESPONSE then
            mret MOJOM_VALIDATION_MESSAGE_HEADER_INVALID_FLAGS
          else mret MOJOM_VALIDATION_ERROR_NONE
      end.

Definition MojomMessage_ValidateRequestExpectingResponse (in_buf : Z) :
    outcome MojomValidationResult :=
  flags ← msg_flags in_buf;
  mret (if has_flag flags MOJOM_MESSAGE_FLAGS_EXPECTS_RESPONSE then MOJOM_VALIDATION_ERROR_NONE
        else MOJOM_VALIDATION_MESSAGE_HEADER_INVALID_FLAGS).

Definition MojomMessage_ValidateRequestWithoutResponse (in_buf : Z) :
    outcome MojomValidationResult :=
  flags ← msg_flags in_buf;
  mret (if negb (has_flag flags MOJOM_MESSAGE_FLAGS_EXPECTS_RESPONSE) &&
           negb (has_flag flags MOJOM_MESSAGE_FLAGS_IS_RESPONSE) then MOJOM_VALIDATION_ERROR_NONE
        else MOJOM_VALIDATION_MESSAGE_HEADER_INVALID_FLAGS).

Definition MojomMessage_ValidateResponse (in_buf : Z) : outcome MojomValidationResult :=
  flags ← msg_flags in_buf;
  mret (if has_flag flags MOJOM_MESSAGE_FLAGS_IS_RESPONSE then MOJOM_VALIDATION_ERROR_NONE
        else MOJOM_VALIDATION_MESSAGE_HEADER_INVALID_FLAGS).
End Message.

(** * What a valid header is *)

(** The three kinds of message. *)
Inductive message_kind := Request | RequestExpectingResponse | Response.

#[export] Instance message_kind_eq_dec : EqDecision message_kind.
Proof. solve_decision. Defined.

(** The kind that two flag bits say, when they do not contradict each other. *)
Definition kind_of (flags : Z) : option message_kind :=
  match Z.testbit flags 0, Z.testbit flags 1 with
  | false, false => Some Request
  | true, false => Some RequestExpectingResponse
  | false, true => Some Response
  | true, true => None
  end.

(** A header of [version], [num_bytes] and [flags], in a buffer of [size] bytes:
    version 0 has no request id, and so is a request without response; later
    versions have at least the fields of version 1. *)
Definition header_ok (size num_bytes version flags : Z) : Prop :=
  num_bytes <= size /\
  (version = 0 /\ num_bytes = 16 /\ kind_of flags = Some Request \/
   version = 1 /\ num_bytes = 24 /\ is_Some (kind_of flags) \/
   1 < version /\ 24 <= num_bytes /\ is_Some (kind_of flags)).

Lemma has_flag_testbit flags n : 0 <= n -> has_flag flags (Z.shiftl 1 n) = Z.testbit flags n.
Proof.
  intros Hn. unfold has_flag. rewrite Z.shiftl_1_l. destruct (Z.testbit flags n) eqn:Hb.
  - apply negb_true_iff, Z.eqb_neq. intros H.
    assert (Hz : Z.testbit (Z.land flags (2 ^ n)) n = false) by (by rewrite H, Z.bits_0).
    by rewrite Z.land_spec, Hb, Z.pow2_bits_true in Hz.
  - apply negb_false_iff, Z.eqb_eq. apply Z.bits_inj_0. intros i.
    rewrite Z.land_spec, Z.pow2_bits_eqb by done.
    destruct (Z.eqb_spec n i) as [<-|]; [by rewrite Hb|by rewrite andb_false_r].
Qed.

Section Facts.
Context (m : mem) (in_buf in_buf_size : Z).
Context (Hmap : mapped m in_buf (in_buf + in_buf_size)).

Lemma header_word k :
  0 <= k -> k + 4 <= in_buf_size -> exists v, load32 m (in_buf + k) = Ok v /\ 0 <= v < 2 ^ 32.
Proof. intros ??. apply (load_mapped _ _ 4). eapply mapped_weaken; [exact Hmap|lia..]. Qed.
End Facts.

Lemma expects_testbit flags :
  has_flag flags MOJOM_MESSAGE_FLAGS_EXPECTS_RESPONSE = Z.testbit flags 0.
Proof. by apply has_flag_testbit. Qed.

Lemma is_response_testbit flags :
  has_flag flags MOJOM_MESSAGE_FLAGS_IS_RESPONSE = Z.testbit flags 1.
Proof. by apply has_flag_testbit. Qed.

Ltac destruct_exists := repeat match goal with H : exists _, _ |- _ => destruct H end.

Ltac header_cases :=
  repeat match goal with
  | |- context [Z.ltb ?a ?b] => destruct (Z.ltb_spec a b); simpl
  | |- context [Z.gtb ?a ?b] => rewrite (Z.gtb_ltb a b)
  | |- context [Z.eqb ?a ?b] => destruct (Z.eqb_spec a b); simpl
  end;
  try lia; (eexists; split; [reflexivity|]); (split; [try done|]); intros; try done;
  destruct_and?; destruct_or?; destruct_and?; unfold is_Some in *; destruct_and?; destruct_exists;
  simplify_eq; try lia;
  (split; [lia|]);
  first [left; by eauto | right; left; by eauto | right; right; (split; [lia|]; split; [lia|]);
         by eauto].

(** The validator on the words of the header, when it has the 16 bytes of
    [struct MojomMessage]. *)
Lemma ValidateHeader_words m in_buf in_buf_size num_bytes version flags :
  load32 m in_buf = Ok num_bytes -> load32 m (in_buf + 4) = Ok version ->
  load32 m (in_buf + 12) = Ok flags -> 0 <= version -> 16 <= in_buf_size ->
  exists r, MojomMessage_ValidateHeader m in_buf in_buf_size = Ok r /\
    (r = MOJOM_VALIDATION_ERROR_NONE <-> header_ok in_buf_size num_bytes version flags).
Proof.
  intros Hnb Hv Hfl Hver Hsz.
  unfold MojomMessage_ValidateHeader, msg_flags, header_ok, kind_of, sizeof_MojomStructHeader,
    sizeof_MojomMessage, sizeof_MojomMessageWithRequestId.
  rewrite Hnb, Hv, Hfl. unfold mbind, outcome_bind, mret, outcome_ret.
  rewrite expects_testbit, is_response_testbit.
  destruct (Z.testbit flags 0), (Z.testbit flags 1); simpl; header_cases.
Qed.

(** Without those 16 bytes the flags are not read. *)
Lemma ValidateHeader_short m in_buf in_buf_size num_bytes version :
  load32 m in_buf = Ok num_bytes -> load32 m (in_buf + 4) = Ok version ->
  0 <= version -> in_buf_size < 16 ->
  exists r, MojomMessage_ValidateHeader m in_buf in_buf_size = Ok r /\
    r <> MOJOM_VALIDATION_ERROR_NONE.
Proof.
  intros Hnb Hv Hver Hsz.
  unfold MojomMessage_ValidateHeader, sizeof_MojomStructHeader,
    sizeof_MojomMessage, sizeof_MojomMessageWithRequestId.
  rewrite Hnb, Hv. unfold mbind, outcome_bind, mret, outcome_ret.
  repeat match goal with
  | |- context [Z.ltb ?a ?b] => destruct (Z.ltb_spec a b); simpl; eauto; try lia
  | |- context [Z.gtb ?a ?b] => rewrite (Z.gtb_ltb a b)
  | |- context [Z.eqb ?a ?b] => destruct (Z.eqb_spec a b); simpl; eauto; try lia
  end.
Qed.

(** Well-formed headers in a buffer: the size that the version calls for, and flags
    that name one kind of message. *)
Definition well_formed_header (m : mem) (in_buf in_buf_size : Z) : Prop :=
  8 <= in_buf_size /\
  exists num_bytes version flags, load32 m in_buf = Ok num_bytes /\
    load32 m (in_buf + 4) = Ok version /\ load32 m (in_buf + 12) = Ok flags /\
    header_ok in_buf_size num_bytes version flags.

Lemma ValidateHeader_returns m in_buf in_buf_size :
  mapped m in_buf (in_buf + in_buf_size) ->
  exists r, MojomMessage_ValidateHeader m in_buf in_buf_size = Ok r /\
    (r = MOJOM_VALIDATION_ERROR_NONE <-> well_formed_header m in_buf in_buf_size).
Proof.
  intros Hmap. unfold well_formed_header.
  destruct (Z.ltb_spec in_buf_size 8) as [Hs|Hs].
  { unfold MojomMessage_ValidateHeader, sizeof_MojomStructHeader.
    destruct (Z.ltb_spec in_buf_size 8); [|lia].
    eexists. split; [done|]. split; [done|]. intros [? _]. lia. }
  destruct (header_word m _ _ Hmap 0) as (nb & Hnb & ?); [lia..|]. rewrite Z.add_0_r in Hnb.
  destruct (header_word m _ _ Hmap 4) as (v & Hv & ?); [lia..|].
  destruct (Z.ltb_spec in_buf_size 16).
  - destruct (ValidateHeader_short m in_buf in_buf_size nb v) as (r & -> & Hr); [done..|lia|done|].
    exists r. split; [done|]. split; [done|].
    intros (_ & nb' & v' & fl & ? & ? & _ & Hok). unfold header_ok in Hok. simplify_eq. lia.
  - destruct (header_word m _ _ Hmap 12) as (fl & Hfl & _); [lia..|].
    destruct (ValidateHeader_words m in_buf in_buf_size nb v fl) as (r & -> & Hr);
      [done..|lia|done|].
    exists r. split; [done|]. rewrite Hr. split; [by eauto 10|].
    intros (_ & ? & ? & ? & ? & ? & ? & ?). congruence.
Qed.

(** On any mapped bytes, [MojomMessage_ValidateHeader] returns without reading
    outside the buffer, and returns [MOJOM_VALIDATION_ERROR_NONE] exactly on
    well-formed headers: the size that the version calls for, and flags that
    name one kind of message, which a header without request id restricts to
    requests without response. *)
Theorem ValidateHeader_spec m in_buf in_buf_size
    (Hmap : mapped m in_buf (in_buf + in_buf_size)) :
  exists r, MojomMessage_ValidateHeader m in_buf in_buf_size = Ok r /\
    (r = MOJOM_VALIDATION_ERROR_NONE <-> well_formed_header m in_buf in_buf_size).
Proof. exact (ValidateHeader_returns m in_buf in_buf_size Hmap). Qed.

(** The three validators of the message's kind. *)
Definition validate_kind (m : mem) (k : message_kind) (in_buf : Z) :
    outcome MojomValidationResult :=
  match k with
  | Request => MojomMessage_ValidateRequestWithoutResponse m in_buf
  | RequestExpectingResponse => MojomMessage_ValidateRequestExpectingResponse m in_buf
  | Response => MojomMessage_ValidateResponse m in_buf
  end.

(** After a header is accepted, the message has exactly one kind: of the three
    validators a receiver chooses from, the one of that kind accepts it and the
    two others return [MOJOM_VALIDATION_MESSAGE_HEADER_INVALID_FLAGS]. *)
Theorem validated_message_has_one_kind m in_buf in_buf_size
    (Hmap : mapped m in_buf (in_buf + in_buf_size))
    (Hok : MojomMessage_ValidateHeader m in_buf in_buf_size = Ok MOJOM_VALIDATION_ERROR_NONE) :
  exists kind, forall k, validate_kind m k in_buf =
    Ok (if decide (k = kind) then MOJOM_VALIDATION_ERROR_NONE
        else MOJOM_VALIDATION_MESSAGE_HEADER_INVALID_FLAGS).
Proof.
  destruct (Z.ltb_spec in_buf_size 8).
  { unfold MojomMessage_ValidateHeader, sizeof_MojomStructHeader in Hok.
    by destruct (Z.ltb_spec in_buf_size 8); [|lia]. }
  destruct (header_word m _ _ Hmap 0) as (nb & Hnb & ?); [lia..|]. rewrite Z.add_0_r in Hnb.
  destruct (header_word m _ _ Hmap 4) as (v & Hv & ?); [lia..|].
  destruct (Z.ltb_spec in_buf_size 16).
  { destruct (ValidateHeader_short m in_buf in_buf_size nb v) as (r & ? & ?);
      [done..|lia|done|]. congruence. }
  destruct (header_word m _ _ Hmap 12) as (fl & Hfl & _); [lia..|].
  destruct (ValidateHeader_words m in_buf in_buf_size nb v fl) as (r & Hr & Hiff);
    [done..|lia|done|].
  assert (Hhd : header_ok in_buf_size nb v fl) by (apply Hiff; congruence).
  assert (Hk : is_Some (kind_of fl)) by (destruct Hhd as [_ [(_ & _ & ->)|[(_ & _ & ?)|(_ & _ & ?)]]]; eauto).
  destruct Hk as [kind Hk]. exists kind. intros k. unfold validate_kind,
    MojomMessage_ValidateRequestWithoutResponse, MojomMessage_ValidateRequestExpectingResponse,
    MojomMessage_ValidateResponse, msg_flags.
  rewrite Hfl. unfold mbind, outcome_bind. rewrite expects_testbit, is_response_testbit.
  unfold kind_of in Hk. destruct (Z.testbit fl 0), (Z.testbit fl 1); simplify_eq; by destruct k.
Qed.
