(* ===== verification/Layout.v ===== *)
(** The wire format as a specification: an inductive relation saying that a
    region of memory holds a well-formed object graph of a given type, laid out
    the way the C bindings lay it out - every object once, in traversal order,
    no two overlapping - and the list of pointer and handle slots met on the
    way. The same relation describes the encoded form (relative offsets) and
    the decoded form (absolute pointers). *)
From stdpp Require Import base numbers list option gmap.
From coqutil Require Import Byte.
From Stdlib Require Import ZArith Lia.
From S2P Require Import Prelude CMem Buffer Descriptor.

(** * Slots and events *)

(** A field of a struct, an element of an array or the data of a union: its
    type and the address where it is stored. *)
Record slot := {
  s_type : MojomTypeDescriptorType;
  s_desc : descptr;
  s_nullable : bool;
  s_addr : Z;
}.

Definition slot_end (s : slot) : Z := s_addr s + elem_size (s_type s).

(** The slots that encoding and decoding rewrite, in traversal order. *)
Inductive event :=
  | EPtr (a : Z)
  | EHandle (a : Z) (nullable : bool).

Definition event_addr (e : event) : Z :=
  match e with EPtr a => a | EHandle a _ => a end.
Definition event_size (e : event) : Z :=
  match e with EPtr _ => 8 | EHandle _ _ => 4 end.
Definition event_bytes (e : event) : Z -> Prop :=
  range (event_addr e) (event_addr e + event_size e).

(** * The two forms of a pointer *)

Inductive form := Encoded | Decoded.

(** The pointer stored at [a] as [v], not null, leads to: *)
Definition target (f : form) (a v : Z) : Z :=
  match f with Encoded => a + v | Decoded => v end.

(** * Structs, arrays and unions *)

(** The row of the version table that applies to version [v]: the last one not
    newer than [v], or the first row. *)
Definition row_for (vs : list MojomTypeDescriptorStructVersion) (v : Z) :
    option MojomTypeDescriptorStructVersion :=
  match vs with
  | [] => None
  | first :: vs' => Some (default first (last (filter (fun r => sv_version r <= v) vs')))
  end.

(** A known version has exactly its size, an unknown one at least the size of
    the newest known version before it. *)
Definition size_ok (d : MojomTypeDescriptorStruct) (v nb : Z) : Prop :=
  match row_for (sd_versions d) v with
  | Some r => if decide (v = sv_version r) then nb = sv_num_bytes r else sv_num_bytes r <= nb
  | None => False
  end.

Definition entry_slot (t : Z) (e : MojomTypeDescriptorStructEntry) : slot := {|
  s_type := se_elem_type e; s_desc := se_elem_descriptor e; s_nullable := se_nullable e;
  s_addr := t + sizeof_MojomStructHeader + se_offset e;
|}.

(** The fields present in a struct of version [v] at [t]. *)
Definition struct_slots (es : list MojomTypeDescriptorStructEntry) (v t : Z) : list slot :=
  entry_slot t <$> filter (fun e => se_min_version e <= v) es.

Definition element_slot (d : MojomTypeDescriptorArray) (t i : Z) : slot := {|
  s_type := ad_elem_type d; s_desc := ad_elem_descriptor d; s_nullable := ad_nullable d;
  s_addr := t + sizeof_MojomArrayHeader + elem_size (ad_elem_type d) * i;
|}.

(** The elements [i], [i + 1], ..., [i + k - 1] of an array at [t]. *)
Fixpoint element_slots (d : MojomTypeDescriptorArray) (t i : Z) (k : nat) : list slot :=
  match k with
  | O => []
  | S k => element_slot d t i :: element_slots d t (i + 1) k
  end.

Definition array_slots (d : MojomTypeDescriptorArray) (t n : Z) : list slot :=
  if is_pod (ad_elem_type d) then [] else element_slots d t 0 (Z.to_nat n).

Definition array_header_ok (d : MojomTypeDescriptorArray) (nb n : Z) : Prop :=
  sizeof_MojomArrayHeader <= nb /\
  (ad_num_elements d = 0 \/ n = ad_num_elements d) /\
  sizeof_MojomArrayHeader + (ad_elem_num_bits d * n + 7) / 8 <= nb.

Definition union_entry_slot (u : Z) (e : MojomTypeDescriptorUnionEntry) : slot := {|
  s_type := ue_elem_type e; s_desc := ue_elem_descriptor e; s_nullable := ue_nullable e;
  s_addr := u + offsetof_union_data;
|}.

(** The entry for [tag], when [tag] is a pointer or handle field. *)
Definition active_entry (es : list MojomTypeDescriptorUnionEntry) (tag : Z) :
    option MojomTypeDescriptorUnionEntry :=
  match list_find (fun e => tag = ue_tag e) es with
  | Some (_, e) => if is_pod (ue_elem_type e) then None else Some e
  | None => None
  end.

(** Number of elements of the array whose pointer is stored at [a]. *)
Definition map_count (f : form) (m : mem) (a : Z) : outcome Z :=
  v ← load64 m a; if v =? 0 then Ok 0 else load32 m (target f a v + 4).

Definition is_struct_ptr (ty : MojomTypeDescriptorType) : bool :=
  bool_decide (ty = MOJOM_TYPE_DESCRIPTOR_TYPE_STRUCT_PTR) ||
  bool_decide (ty = MOJOM_TYPE_DESCRIPTOR_TYPE_MAP_PTR).

Definition is_object_ptr (ty : MojomTypeDescriptorType) : bool :=
  is_struct_ptr ty || bool_decide (ty = MOJOM_TYPE_DESCRIPTOR_TYPE_ARRAY_PTR).

(** * The relation *)

Section Layout.
(** The tables, the form of pointers, the memory, and the end of the buffer. *)
Context (E : denv) (f : form) (m : mem) (lim : Z).

(** A pointer stored at [a] may lead to [t], [np] being the end of the objects
    met so far: forward, past all of them, 8-byte aligned relative to the
    slot, inside the buffer. *)
Definition pointer_ok (np a t : Z) : Prop :=
  a < t /\ np <= t /\ t <= lim /\ (t - a) mod 8 = 0.

(** [lay s np np' evs]: slot [s] holds a well-formed value whose out-of-line
    objects lie, in traversal order, between [np] and [np']. *)
Inductive lay : slot -> Z -> Z -> list event -> Prop :=
  | lay_null s np :
      is_object_ptr (s_type s) = true -> s_nullable s = true ->
      load64 m (s_addr s) = Ok 0 ->
      lay s np np [EPtr (s_addr s)]
  | lay_struct s np np' evs v t d nb ver :
      is_struct_ptr (s_type s) = true ->
      load64 m (s_addr s) = Ok v -> v <> 0 -> t = target f (s_addr s) v ->
      pointer_ok np (s_addr s) t -> struct_desc E (s_desc s) = Ok d ->
      load32 m t = Ok nb -> load32 m (t + 4) = Ok ver ->
      sizeof_MojomStructHeader <= nb -> t + nb <= lim -> nb mod 8 = 0 -> size_ok d ver nb ->
      lays (struct_slots (sd_entries d) ver t) (t + nb) np' evs ->
      (s_type s = MOJOM_TYPE_DESCRIPTOR_TYPE_MAP_PTR ->
       exists n, map_count f m (t + 8) = Ok n /\ map_count f m (t + 16) = Ok n) ->
      lay s np np' (EPtr (s_addr s) :: evs)
  | lay_array s np np' evs v t d nb n :
      s_type s = MOJOM_TYPE_DESCRIPTOR_TYPE_ARRAY_PTR ->
      load64 m (s_addr s) = Ok v -> v <> 0 -> t = target f (s_addr s) v ->
      pointer_ok np (s_addr s) t -> array_desc E (s_desc s) = Ok d ->
      load32 m t = Ok nb -> load32 m (t + 4) = Ok n ->
      t + nb <= lim -> array_header_ok d nb n ->
      lays (array_slots d t n) (t + nb) np' evs ->
      lay s np np' (EPtr (s_addr s) :: evs)
  | lay_union_null s np :
      s_type s = MOJOM_TYPE_DESCRIPTOR_TYPE_UNION -> s_nullable s = true ->
      load32 m (s_addr s) = Ok 0 ->
      lay s np np []
  | lay_union_inactive s np d sz tag :
      s_type s = MOJOM_TYPE_DESCRIPTOR_TYPE_UNION ->
      load32 m (s_addr s) = Ok sz -> sz <> 0 ->
      union_desc E (s_desc s) = Ok d -> load32 m (s_addr s + 4) = Ok tag ->
      active_entry (ud_entries d) tag = None ->
      lay s np np []
  | lay_union_active s np np' evs d sz tag e :
      s_type s = MOJOM_TYPE_DESCRIPTOR_TYPE_UNION ->
      load32 m (s_addr s) = Ok sz -> sz <> 0 ->
      s_nullable s = true \/ sz = sizeof_MojomUnionLayout ->
      union_desc E (s_desc s) = Ok d -> load32 m (s_addr s + 4) = Ok tag ->
      active_entry (ud_entries d) tag = Some e ->
      lay (union_entry_slot (s_addr s) e) np np' evs ->
      lay s np np' evs
  | lay_handle s np :
      s_type s = MOJOM_TYPE_DESCRIPTOR_TYPE_HANDLE \/
      s_type s = MOJOM_TYPE_DESCRIPTOR_TYPE_INTERFACE ->
      lay s np np [EHandle (s_addr s) (s_nullable s)]
with lays : list slot -> Z -> Z -> list event -> Prop :=
  | lays_nil np : lays [] np np []
  | lays_cons s l np np1 np2 evs1 evs2 :
      lay s np np1 evs1 -> lays l np1 np2 evs2 ->
      lays (s :: l) np np2 (evs1 ++ evs2).

(** The whole message: a struct at [t], the first object of the buffer. *)
Definition lay_top (p : descptr) (t np' : Z) (evs : list event) : Prop :=
  exists d nb ver,
    struct_desc E p = Ok d /\ load32 m t = Ok nb /\ load32 m (t + 4) = Ok ver /\
    sizeof_MojomStructHeader <= nb /\ t + nb <= lim /\ nb mod 8 = 0 /\ size_ok d ver nb /\
    lays (struct_slots (sd_entries d) ver t) (t + nb) np' evs.
End Layout.

Scheme lay_mut := Minimality for lay Sort Prop
  with lays_mut := Minimality for lays Sort Prop.
Combined Scheme lay_lays_ind from lay_mut, lays_mut.
