(* ===== verification/LayoutFacts.v ===== *)
(** Facts about the layout relation: well-formed tables give slots that lie in
    their object and do not overlap, the objects of a graph lie one after the
    other, and the relation depends only on the bytes of the graph. *)
From stdpp Require Import base numbers list option gmap.
From coqutil Require Import Byte.
From Stdlib Require Import ZArith Lia.
From S2P Require Import Prelude CMem Buffer Descriptor Layout.

(** * Version tables *)

Lemma last_filter_cons {A} (P : A -> Prop) `{forall x, Decision (P x)} x l :
  last (filter P (x :: l)) =
    match last (filter P l) with
    | Some y => Some y
    | None => if decide (P x) then Some x else None
    end.
Proof.
  rewrite filter_cons. destruct (decide (P x)).
  - rewrite last_cons. by destruct (last (filter P l)).
  - by destruct (last (filter P l)).
Qed.

Lemma row_for_in vs v r : row_for vs v = Some r -> r ∈ vs.
Proof.
  destruct vs as [|x vs]; simpl; [done|]. intros [= <-].
  destruct (last _) as [y|] eqn:Hl; simpl; [|apply list_elem_of_here].
  apply last_Some in Hl as [l' Hl].
  assert (Hy : y ∈ filter (fun r => sv_version r <= v) vs) by (rewrite Hl; apply elem_of_app; right; apply list_elem_of_here).
  apply list_elem_of_filter in Hy as [_ Hy]. by apply list_elem_of_further.
Qed.

(** [row_for] by recursion: what the table's coverage check follows. *)
Lemma row_for_cons x y vs v :
  row_for (x :: y :: vs) v =
    match row_for (y :: vs) v with
    | Some r => if decide (sv_version y <= v) then Some r
                else match last (filter (fun r => sv_version r <= v) vs) with
                     | Some r => Some r
                     | None => Some x
                     end
    | None => None
    end.
Proof.
  unfold row_for. rewrite last_filter_cons.
  destruct (last (filter _ vs)) as [z|]; simpl; by destruct (decide (sv_version y <= v)).
Qed.

Lemma versions_cover_row vs mv hi v r :
  versions_cover vs mv hi = true -> mv <= v -> row_for vs v = Some r -> hi <= sv_num_bytes r.
Proof.
  revert r. induction vs as [|x vs IH]; intros r Hc Hv Hr; [done|].
  destruct vs as [|y vs].
  - simpl in Hc, Hr. simplify_eq. by apply Z.leb_le.
  - cbn [versions_cover] in Hc. apply andb_true_iff in Hc as [Hor Hc].
    rewrite row_for_cons in Hr.
    destruct (row_for (y :: vs) v) as [r'|] eqn:Hr'; [|done].
    assert (hi <= sv_num_bytes r') by (by eapply IH).
    destruct (decide (sv_version y <= v)) as [Hle|Hgt]; [by simplify_eq|].
    cbn [row_for] in Hr'. simplify_eq.
    destruct (last (filter _ vs)) as [z|]; simpl in *; simplify_eq; [done|].
    apply orb_true_iff in Hor as [Hor|Hor]; apply Z.leb_le in Hor; lia.
Qed.

Lemma size_ok_entry E d e v nb :
  struct_wf E d = true -> size_ok d v nb -> e ∈ sd_entries d -> se_min_version e <= v ->
  entry_wf E (sd_versions d) e = true /\ entry_hi e <= nb.
Proof.
  intros Hwf Hsz He Hv. unfold struct_wf in Hwf. bool_facts.
  rewrite forallb_forall in H1. specialize (H1 e ltac:(by apply list_elem_of_In)).
  split; [done|]. unfold entry_wf in H1. bool_facts.
  unfold size_ok in Hsz. destruct (row_for _ v) as [r|] eqn:Hr; [|done].
  assert (entry_hi e <= sv_num_bytes r) by (by eapply versions_cover_row).
  case_decide; lia.
Qed.

Lemma size_ok_min E d v nb :
  struct_wf E d = true -> size_ok d v nb -> sizeof_MojomStructHeader <= nb.
Proof.
  intros Hwf Hsz. unfold struct_wf in Hwf. bool_facts.
  unfold size_ok in Hsz. destruct (row_for _ v) as [r|] eqn:Hr; [|done].
  apply row_for_in in Hr. rewrite forallb_forall in H2.
  specialize (H2 r ltac:(by apply list_elem_of_In)). unfold version_wf in H2. bool_facts.
  case_decide; lia.
Qed.

(** * Well-formed slots *)

Section Facts.
Context (E : denv) (HE : env_wf E = true) (Hnu : no_union_ptr E = true).

Definition slot_wf (s : slot) : Prop :=
  s_type s <> MOJOM_TYPE_DESCRIPTOR_TYPE_POD /\
  s_type s <> MOJOM_TYPE_DESCRIPTOR_TYPE_UNION_PTR /\
  desc_matches E (s_type s) (s_desc s) = true /\ 0 < s_addr s.

Definition slot_bytes (s : slot) : Z -> Prop := range (s_addr s) (slot_end s).

Definition slot_disjoint (s1 s2 : slot) : Prop :=
  slot_end s1 <= s_addr s2 \/ slot_end s2 <= s_addr s1.

(** The slots of one object: well formed, past its header at [lo], before the
    end [np] of the objects met so far, and pairwise disjoint. *)
Inductive slots_ok (lo np : Z) : list slot -> Prop :=
  | slots_ok_nil : slots_ok lo np []
  | slots_ok_cons s l :
      slot_wf s -> lo <= s_addr s -> slot_end s <= np -> Forall (slot_disjoint s) l ->
      slots_ok lo np l ->
      slots_ok lo np (s :: l).

Lemma slots_ok_weaken lo np np' l : slots_ok lo np l -> np <= np' -> slots_ok lo np' l.
Proof. induction 1; constructor; auto; lia. Qed.

Lemma slots_ok_range lo np l s :
  slots_ok lo np l -> s ∈ l -> slot_wf s /\ lo <= s_addr s /\ slot_end s <= np.
Proof. induction 1; intros Hs; inversion Hs; subst; auto. Qed.

Lemma elem_size_nonneg ty : 0 <= elem_size ty.
Proof. by destruct ty. Qed.

Lemma struct_slots_ok d v t nb :
  struct_wf E d = true -> size_ok d v nb -> 0 < t ->
  slots_ok (t + 8) (t + nb) (struct_slots (sd_entries d) v t).
Proof.
  intros Hwf Hsz Ht.
  assert (Hall : forall e, e ∈ sd_entries d -> se_min_version e <= v ->
    slot_wf (entry_slot t e) /\ t + 8 <= s_addr (entry_slot t e) /\
    slot_end (entry_slot t e) <= t + nb).
  { intros e He Hv. destruct (size_ok_entry E d e v nb Hwf Hsz He Hv) as [H1 H2].
    unfold entry_wf in H1. bool_facts.
    unfold slot_wf, slot_end, entry_slot, entry_hi, entry_lo, sizeof_MojomStructHeader in *; simpl.
    unfold is_pod, is_union_ptr in *. rewrite is_u32_spec in *.
    repeat split; try done; try lia; by eapply bool_decide_eq_false_1. }
  unfold struct_wf in Hwf. bool_facts. revert H0 Hall. clear.
  unfold struct_slots. induction (sd_entries d) as [|e es IH]; intros Hd Hall; [constructor|].
  simpl in Hd. apply andb_true_iff in Hd as [Hf Hd].
  rewrite filter_cons. destruct (decide (se_min_version e <= v)).
  2: { apply IH; [done|]. intros e' He'. by apply Hall, list_elem_of_further. }
  rewrite fmap_cons. destruct (Hall e) as (Hs & Hlo & Hend); [apply list_elem_of_here|done|].
  constructor; [done..| |].
  2: { apply IH; [done|intros e' He'; by apply Hall, list_elem_of_further]. }
  apply Forall_fmap, Forall_forall. intros e' He'. apply list_elem_of_filter in He' as [_ He'].
  rewrite forallb_forall in Hf. specialize (Hf e' ltac:(by apply list_elem_of_In)).
  unfold slot_disjoint, slot_end, entry_slot, entry_hi, entry_lo in *; simpl.
  apply orb_true_iff in Hf as [Hf|Hf]; apply Z.leb_le in Hf; lia.
Qed.

Lemma array_element_end d nb n i :
  array_wf E d = true -> array_header_ok d nb n -> 0 <= i < n ->
  sizeof_MojomArrayHeader + elem_size (ad_elem_type d) * (i + 1) <= nb.
Proof.
  intros Hwf (?&_&Hb) Hi. unfold array_wf in Hwf. bool_facts. rewrite is_u32_spec in *.
  pose proof (elem_size_nonneg (ad_elem_type d)).
  set (k := elem_size (ad_elem_type d)) in *. unfold sizeof_MojomArrayHeader in *.
  assert (k * (i + 1) <= k * n) by nia.
  assert (8 * (k * n) <= ad_elem_num_bits d * n) by nia.
  assert (k * n <= (ad_elem_num_bits d * n + 7) / 8) by (apply Z.div_le_lower_bound; lia).
  lia.
Qed.

Lemma element_slots_ok d nb n t i k :
  array_wf E d = true -> array_header_ok d nb n -> 0 < t ->
  is_pod (ad_elem_type d) = false -> 0 <= i -> i + Z.of_nat k <= n ->
  slots_ok (t + 8) (t + nb) (element_slots d t i k) /\
  Forall (fun s => s_addr (element_slot d t i) <= s_addr s) (element_slots d t i k).
Proof.
  intros Hwf Hh Ht Hp. revert i.
  induction k as [|k IH]; intros i Hi Hk; simpl; [split; constructor|].
  destruct (IH (i + 1)) as [IH1 IH2]; [lia|lia|].
  pose proof (array_element_end d nb n i Hwf Hh ltac:(lia)).
  unfold array_wf in Hwf. bool_facts.
  unfold is_pod, is_union_ptr in *.
  pose proof (elem_size_nonneg (ad_elem_type d)).
  unfold element_slot, sizeof_MojomArrayHeader in *; simpl in *.
  split; constructor; try done.
  - unfold slot_wf; simpl. repeat split; try done.
    + by eapply bool_decide_eq_false_1.
    + by eapply bool_decide_eq_false_1.
    + nia.
  - simpl. nia.
  - unfold slot_end; simpl. lia.
  - eapply Forall_impl; [exact IH2|]. intros s Hs.
    left. unfold slot_end; simpl in *. lia.
  - eapply Forall_impl; [exact IH2|]. intros s Hs. simpl in *. lia.
Qed.

Lemma array_slots_ok d nb n t :
  array_wf E d = true -> array_header_ok d nb n -> 0 <= n -> 0 < t ->
  slots_ok (t + 8) (t + nb) (array_slots d t n).
Proof.
  intros. unfold array_slots. destruct (is_pod _) eqn:Hp; [constructor|].
  eapply element_slots_ok; eauto; lia.
Qed.

Lemma active_entry_in es tag e :
  active_entry es tag = Some e ->
  e ∈ es /\ ue_tag e = tag /\ ue_elem_type e <> MOJOM_TYPE_DESCRIPTOR_TYPE_POD.
Proof.
  unfold active_entry. destruct (list_find _ es) as [[i e']|] eqn:Hf; [|done].
  destruct (is_pod _) eqn:Hp; [done|]. intros [= ->].
  apply list_find_Some in Hf as (Hi & Htag & _). split; [|split].
  - by eapply list_elem_of_lookup_2.
  - done.
  - by apply bool_decide_eq_false in Hp.
Qed.

Lemma active_entry_slot_wf p d tag e u :
  union_desc E p = Ok d -> active_entry (ud_entries d) tag = Some e -> 0 < u ->
  slot_wf (union_entry_slot u e) /\ slot_end (union_entry_slot u e) <= u + 16 /\
  ue_elem_type e <> MOJOM_TYPE_DESCRIPTOR_TYPE_UNION.
Proof.
  intros Hd He Hu. apply active_entry_in in He as (He & _ & Hpod).
  pose proof (no_union_ptr_entry E p d e Hnu Hd He) as Hnup.
  apply (union_desc_wf E) in Hd; [|done]. unfold union_wf in Hd. bool_facts.
  rewrite forallb_forall in H0. specialize (H0 e ltac:(by apply list_elem_of_In)).
  unfold union_entry_wf in H0. bool_facts.
  unfold is_union in H0. apply bool_decide_eq_false in H0.
  unfold slot_wf, slot_end, union_entry_slot, offsetof_union_data; simpl.
  repeat split; try done; try lia.
  destruct (ue_elem_type e); simpl; unfold sizeof_MojomPointer, sizeof_MojoHandle,
    sizeof_MojomInterfaceData; try lia; done.
Qed.

(** * Footprints *)

(** The bytes of a graph: its slots, and the objects out of line. *)
Definition fp (l : list slot) (np np' : Z) : Z -> Prop := fun a =>
  Exists (fun s => slot_bytes s a) l \/ np <= a < np'.

Definition event_disjoint (e1 e2 : event) : Prop :=
  event_addr e1 + event_size e1 <= event_addr e2 \/
  event_addr e2 + event_size e2 <= event_addr e1.

Fixpoint events_disjoint (evs : list event) : Prop :=
  match evs with
  | [] => True
  | e :: evs => Forall (event_disjoint e) evs /\ events_disjoint evs
  end.

Lemma events_disjoint_app evs1 evs2 :
  events_disjoint evs1 -> events_disjoint evs2 ->
  Forall (fun e => Forall (event_disjoint e) evs2) evs1 ->
  events_disjoint (evs1 ++ evs2).
Proof.
  induction evs1 as [|e evs1 IH]; intros H1 H2 H12; simpl in *; [done|].
  inversion H12; subst. destruct H1 as [H1 H1']. split; [|by apply IH].
  by apply Forall_app.
Qed.

Lemma event_size_pos e : 0 < event_size e.
Proof. by destruct e. Qed.

Lemma event_disjoint_alt e1 e2 :
  (forall a, event_bytes e1 a -> event_bytes e2 a -> False) -> event_disjoint e1 e2.
Proof.
  unfold event_bytes, range, event_disjoint. intros H.
  pose proof (event_size_pos e1). pose proof (event_size_pos e2).
  specialize (H (Z.max (event_addr e1) (event_addr e2))). lia.
Qed.

(** An event rewrites a whole slot of the graph or whole bytes out of line. *)
Definition events_in (P : Z -> Prop) (evs : list event) : Prop :=
  Forall (fun e => forall a, event_bytes e a -> P a) evs.

Lemma events_in_weaken (P Q : Z -> Prop) evs :
  events_in P evs -> (forall a, P a -> Q a) -> events_in Q evs.
Proof. intros H HPQ. eapply Forall_impl; [exact H|]. simpl. eauto. Qed.

Lemma events_in_disjoint (P Q : Z -> Prop) evs1 evs2 :
  events_in P evs1 -> events_in Q evs2 -> (forall a, P a -> Q a -> False) ->
  Forall (fun e => Forall (event_disjoint e) evs2) evs1.
Proof.
  intros H1 H2 HPQ. eapply Forall_impl; [exact H1|]. intros e1 He1.
  eapply Forall_impl; [exact H2|]. intros e2 He2. apply event_disjoint_alt. simpl in *. eauto.
Qed.

(** Where the graphs of a list of slots lie: what a proof by induction on the
    layout needs to know of each part. *)
Definition bounds (lim : Z) (l : list slot) (np np' : Z) (evs : list event) : Prop :=
  np <= np' /\ (np' = np \/ np' <= lim) /\ events_in (fp l np np') evs /\ events_disjoint evs.

Lemma fp_nil_cons s l np np1 np2 :
  np <= np1 -> np1 <= np2 ->
  (forall a, fp [s] np np1 a -> fp (s :: l) np np2 a) /\
  (forall a, fp l np1 np2 a -> fp (s :: l) np np2 a).
Proof.
  intros H1 H2. unfold fp. split; intros a [H|H]; try (right; lia); left.
  - inversion H as [? ? Hs|? ? Hn]; subst; [by left|by inversion Hn].
  - by right.
Qed.

(** The slot at the head of a list and the rest do not share bytes. *)
Lemma fp_head_disjoint lo s l np np1 np2 a :
  slots_ok lo np (s :: l) -> np <= np1 -> fp [s] np np1 a -> fp l np1 np2 a -> False.
Proof.
  intros Hok Hnp H1 H2. inversion Hok as [|? ? Hs Hlo Hend Hd Hl]; subst.
  assert (Hs1 : slot_bytes s a \/ np <= a < np1).
  { destruct H1 as [H1|H1]; [left|by right]. by inversion H1 as [? ? H0|? ? H0]; subst; [|inversion H0]. }
  destruct H2 as [H2|H2].
  - apply Exists_exists in H2 as (s' & Hs' & Ha).
    destruct (slots_ok_range lo np l s' Hl Hs') as (_ & _ & Hend').
    rewrite Forall_forall in Hd. specialize (Hd s' Hs').
    unfold slot_bytes, range, slot_disjoint in *. lia.
  - unfold slot_bytes, range in *. lia.
Qed.

Lemma fp_single s np np' a : fp [s] np np' a <-> slot_bytes s a \/ np <= a < np'.
Proof.
  unfold fp. rewrite Exists_cons, Exists_nil. tauto.
Qed.

(** The graphs of an object's slots lie in the object or after it. *)
Lemma fp_object lo np l np' a :
  slots_ok lo np l -> fp l np np' a -> lo <= a < np \/ np <= a < np'.
Proof.
  intros Hok [H|H]; [left|by right]. apply Exists_exists in H as (s & Hs & Ha).
  destruct (slots_ok_range lo np l s Hok Hs) as (_ & ? & ?).
  unfold slot_bytes, range in Ha. lia.
Qed.

Lemma object_ptr_size s : is_object_ptr (s_type s) = true -> slot_end s = s_addr s + 8.
Proof. unfold slot_end. by destruct (s_type s). Qed.

Lemma struct_ptr_object ty : is_struct_ptr ty = true -> is_object_ptr ty = true.
Proof. unfold is_object_ptr. by intros ->. Qed.

Lemma EPtr_in_slot s np np' :
  slot_end s = s_addr s + 8 -> forall a, event_bytes (EPtr (s_addr s)) a -> fp [s] np np' a.
Proof.
  intros H a Ha. apply fp_single. left. unfold slot_bytes, event_bytes, range in *. simpl in Ha. lia.
Qed.

Lemma bounds_object lim s t nb l np np' evs :
  slot_end s = s_addr s + 8 -> slot_end s <= np -> pointer_ok lim np (s_addr s) t ->
  8 <= nb -> t + nb <= lim ->
  slots_ok (t + 8) (t + nb) l -> bounds lim l (t + nb) np' evs ->
  bounds lim [s] np np' (EPtr (s_addr s) :: evs).
Proof.
  intros Hsz Hend (?&?&?&?) Hnb Hlim Hok (?&?&Hin&Hd).
  assert (Hin' : events_in (fun a => np <= a < np') evs).
  { eapply events_in_weaken; [exact Hin|]. intros a Ha.
    apply (fp_object _ _ _ _ _ Hok) in Ha. lia. }
  split; [lia|]. split; [lia|]. split; [|split; [|done]].
  - constructor; [by apply EPtr_in_slot|].
    eapply events_in_weaken; [exact Hin'|]. intros a Ha. apply fp_single. by right.
  - eapply Forall_impl; [exact Hin'|]. intros e He. apply event_disjoint_alt.
    intros a Ha1 Ha2. specialize (He a Ha2). unfold event_bytes, range in Ha1. simpl in *. lia.
Qed.

Lemma bounds_cons lim lo s l np np1 np2 evs1 evs2 :
  slots_ok lo np (s :: l) ->
  bounds lim [s] np np1 evs1 -> bounds lim l np1 np2 evs2 ->
  bounds lim (s :: l) np np2 (evs1 ++ evs2).
Proof.
  intros Hok (?&?&Hin1&Hd1) (?&?&Hin2&Hd2).
  destruct (fp_nil_cons s l np np1 np2) as [Hs Hl]; [lia|lia|].
  split; [lia|]. split; [lia|]. split.
  - apply Forall_app. split; eapply events_in_weaken; eauto.
  - apply events_disjoint_app; [done|done|].
    eapply events_in_disjoint; [exact Hin1|exact Hin2|].
    intros a. by eapply fp_head_disjoint.
Qed.

Lemma bounds_nil_events lim s np : bounds lim [s] np np [].
Proof. split; [lia|]. split; [lia|]. split; [constructor|done]. Qed.

Lemma bounds_single_event lim s np e :
  (forall a, event_bytes e a -> slot_bytes s a) -> bounds lim [s] np np [e].
Proof.
  intros He. split; [lia|]. split; [lia|]. split; [|by repeat constructor].
  constructor; [|constructor]. intros a Ha. apply fp_single. auto.
Qed.

(** A union's active field lies within the union. *)
Lemma union_field_bytes p d tag e s a :
  s_type s = MOJOM_TYPE_DESCRIPTOR_TYPE_UNION -> slot_wf s ->
  union_desc E p = Ok d -> active_entry (ud_entries d) tag = Some e ->
  slot_bytes (union_entry_slot (s_addr s) e) a -> slot_bytes s a.
Proof.
  intros Hty (_&_&_&Hpos) Hd He Ha.
  destruct (active_entry_slot_wf p d tag e (s_addr s) Hd He Hpos) as (_ & Hend & _).
  unfold slot_bytes, range in *.
  assert (slot_end s = s_addr s + 16) by (unfold slot_end; by rewrite Hty).
  unfold union_entry_slot, offsetof_union_data in Ha; simpl in Ha.
  unfold union_entry_slot, offsetof_union_data in Hend; simpl in Hend. lia.
Qed.

Lemma lay_bounds f m lim :
  (forall s np np' evs, lay E f m lim s np np' evs ->
     slot_wf s -> slot_end s <= np -> bounds lim [s] np np' evs) /\
  (forall l np np' evs, lays E f m lim l np np' evs ->
     forall lo, slots_ok lo np l -> bounds lim l np np' evs).
Proof.
  apply lay_lays_ind.
  - intros s np Hty Hn Hv Hwf Hend. apply bounds_single_event.
    intros a Ha. unfold slot_bytes. rewrite (object_ptr_size s Hty). exact Ha.
  - intros s np np' evs v t d nb ver Hty Hv Hv0 Ht Hp Hd Hnb Hver Hmin Hlim Hmod Hsz _ IH _ Hwf Hend.
    pose proof (object_ptr_size s (struct_ptr_object _ Hty)).
    apply struct_desc_wf in Hd; [|done]. pose proof Hwf as (_&_&_&Hpos). pose proof Hp as (?&_&_&_).
    pose proof (struct_slots_ok d ver t nb Hd Hsz ltac:(lia)) as Hok.
    eapply bounds_object; eauto.
  - intros s np np' evs v t d nb n Hty Hv Hv0 Ht Hp Hd Hnb Hn Hlim Hh _ IH Hwf Hend.
    assert (slot_end s = s_addr s + 8) by (unfold slot_end; by rewrite Hty).
    apply array_desc_wf in Hd; [|done]. pose proof Hwf as (_&_&_&Hpos). pose proof Hp as (?&_&_&_).
    pose proof (load_range _ _ _ _ Hn). pose proof Hh as (?&_&_).
    pose proof (array_slots_ok d nb n t Hd Hh ltac:(lia) ltac:(lia)) as Hok.
    eapply bounds_object; eauto.
  - intros. apply bounds_nil_events.
  - intros. apply bounds_nil_events.
  - intros s np np' evs d sz tag e Hty Hsz Hsz0 Hn Hd Htag He _ IH Hwf Hend.
    pose proof Hwf as (_&_&_&Hpos).
    destruct (active_entry_slot_wf _ d tag e (s_addr s) Hd He Hpos) as (Hwf' & Hend' & _).
    assert (slot_end s = s_addr s + 16) by (unfold slot_end; by rewrite Hty).
    destruct IH as (?&?&Hin&Hdis); [done|lia|].
    split; [done|]. split; [done|]. split; [|done].
    eapply events_in_weaken; [exact Hin|]. intros a. rewrite !fp_single.
    intros [Ha|Ha]; [left|by right]. by eapply union_field_bytes.
  - intros s np Hty Hwf Hend. apply bounds_single_event. intros a Ha.
    unfold slot_bytes, event_bytes, range, slot_end in *; simpl in *.
    destruct Hty as [-> | ->]; simpl; unfold sizeof_MojoHandle, sizeof_MojomInterfaceData; lia.
  - intros np lo Hok. split; [lia|]. split; [lia|]. split; [constructor|done].
  - intros s l np np1 np2 evs1 evs2 _ IHs _ IHl lo Hok.
    inversion Hok as [|? ? Hs ? Hend ? Hl]; subst.
    specialize (IHs Hs Hend). pose proof IHs as (?&_).
    eapply bounds_cons; [exact Hok|exact IHs|].
    eapply IHl, slots_ok_weaken; [exact Hl|done].
Qed.

(** * Parts of a graph *)

Lemma lays_elem f m lim l np np' evs lo s :
  lays E f m lim l np np' evs -> slots_ok lo np l -> s ∈ l ->
  exists np1 np2 evs1, lay E f m lim s np1 np2 evs1 /\ np <= np1 /\ np2 <= np' /\
    slot_wf s /\ lo <= s_addr s /\ slot_end s <= np.
Proof.
  intros H. revert lo. induction H as [|s0 l np np1 np2 evs1 evs2 Hs Hl IH]; intros lo Hok Hin;
    [by inversion Hin|].
  inversion Hok as [|? ? Hwf Hlo Hend ? Hok']; subst.
  pose proof (proj1 (lay_bounds f m lim) _ _ _ _ Hs Hwf Hend) as (Hle&_).
  pose proof (slots_ok_weaken _ _ _ _ Hok' Hle) as Hok1.
  pose proof (proj2 (lay_bounds f m lim) _ _ _ _ Hl lo Hok1) as (?&_).
  inversion Hin; subst.
  - exists np, np1, evs1. repeat (split; [done || lia|]). done.
  - destruct (IH lo Hok1) as (a&b&c&?&?&?&?&?&?); [done|].
    destruct (slots_ok_range _ _ _ s Hok') as (_&_&?); [done|].
    exists a, b, c. repeat (split; [done || lia|]). lia.
Qed.

Lemma map_slots d ver t off :
  existsb (array_entry_at off) (sd_entries d) = true -> 0 <= ver ->
  exists s, s ∈ struct_slots (sd_entries d) ver t /\
    s_type s = MOJOM_TYPE_DESCRIPTOR_TYPE_ARRAY_PTR /\ s_addr s = t + 8 + off.
Proof.
  rewrite existsb_exists. intros (e & He & Hat) Hver.
  unfold array_entry_at in Hat. apply andb_true_iff in Hat as [Hat Hmin].
  apply andb_true_iff in Hat as [Hty Hoff]. apply bool_decide_eq_true in Hty.
  apply Z.eqb_eq in Hoff, Hmin.
  exists (entry_slot t e). split; [|by rewrite <- Hoff].
  apply list_elem_of_fmap. exists e. split; [done|].
  apply list_elem_of_filter. split; [lia|]. by apply list_elem_of_In.
Qed.

Lemma array_ptr_header f m lim s np np' evs :
  lay E f m lim s np np' evs -> s_type s = MOJOM_TYPE_DESCRIPTOR_TYPE_ARRAY_PTR ->
  slot_wf s -> slot_end s <= np ->
  load64 m (s_addr s) = Ok 0 \/
  exists v, load64 m (s_addr s) = Ok v /\ v <> 0 /\ np <= target f (s_addr s) v /\
    target f (s_addr s) v + 8 <= np' /\ s_addr s < target f (s_addr s) v.
Proof.
  intros H Hty Hwf Hend.
  destruct H as [s np ? ? ? | s np np' evs v t d nb ver Hst
    | s np np' evs v t d nb n _ Hv Hv0 -> Hp Hd Hnb Hn Hlim Hh Hl
    | | | | s np Hh]; try congruence.
  - by left.
  - by rewrite Hty in Hst.
  - right. exists v. split; [done|]. split; [done|]. pose proof Hp as (Hlt&?&_&_).
    apply array_desc_wf in Hd; [|done]. pose proof (load_range _ _ _ _ Hn).
    pose proof Hh as (?&_&_). pose proof Hwf as (_&_&_&?).
    pose proof (array_slots_ok _ _ _ (target f (s_addr s) v) Hd Hh ltac:(lia) ltac:(lia)) as Hok.
    pose proof (proj2 (lay_bounds f m lim) _ _ _ _ Hl _ Hok) as (?&_).
    unfold sizeof_MojomArrayHeader in *. lia.
  - rewrite Hty in Hh. by destruct Hh.
Qed.

(** * Transport

    A graph keeps its layout when its control data (headers, union sizes and
    tags) is kept and its pointers lead to the same places, whatever their
    form. *)

Definition untouched (evs : list event) (a : Z) : Prop :=
  Forall (fun e => ~ event_bytes e a) evs.

Definition same_control (P : Z -> Prop) (evs : list event) (m m' : mem) : Prop :=
  forall a, P a -> untouched evs a -> m !! a = m' !! a.

Definition same_pointers (f f' : form) (evs : list event) (m m' : mem) : Prop :=
  forall a, EPtr a ∈ evs -> exists v v',
    load64 m a = Ok v /\ load64 m' a = Ok v' /\ (v = 0 <-> v' = 0) /\
    (v <> 0 -> target f a v = target f' a v').

Lemma load_control P evs m m' n a :
  same_control P evs m m' ->
  (forall x, a <= x < a + Z.of_nat n -> P x /\ untouched evs x) ->
  load n m a = load n m' a.
Proof.
  intros Hc H. apply load_agree. intros x Hx. unfold range in Hx.
  destruct (H x Hx). by apply Hc.
Qed.

Lemma untouched_in P evs a : events_in P evs -> ~ P a -> untouched evs a.
Proof. intros H Ha. eapply Forall_impl; [exact H|]. simpl. eauto. Qed.

Lemma untouched_app evs1 evs2 a :
  untouched (evs1 ++ evs2) a <-> untouched evs1 a /\ untouched evs2 a.
Proof. apply Forall_app. Qed.

Lemma same_pointers_app f f' evs1 evs2 m m' :
  same_pointers f f' (evs1 ++ evs2) m m' ->
  same_pointers f f' evs1 m m' /\ same_pointers f f' evs2 m m'.
Proof. intros H. split; intros a Ha; apply H; apply elem_of_app; auto. Qed.

Lemma same_control_cons lo f lim m0 P s l np np1 np2 evs1 evs2 m m' :
  lay E f m0 lim s np np1 evs1 -> lays E f m0 lim l np1 np2 evs2 ->
  slots_ok lo np (s :: l) ->
  (forall a, fp (s :: l) np np2 a -> P a) ->
  same_control P (evs1 ++ evs2) m m' ->
  same_control (fp [s] np np1) evs1 m m' /\ same_control (fp l np1 np2) evs2 m m'.
Proof.
  intros Hs Hl Hok HP Hc. inversion Hok as [|? ? Hwf Hlo Hend Hdj Hok']; subst.
  pose proof (proj1 (lay_bounds f m0 lim) _ _ _ _ Hs Hwf Hend) as (Hle&_&Hin1&_).
  pose proof (slots_ok_weaken _ _ _ _ Hok' Hle) as Hok1.
  pose proof (proj2 (lay_bounds f m0 lim) _ _ _ _ Hl lo Hok1) as (Hle2&_&Hin2&_).
  destruct (fp_nil_cons s l np np1 np2 Hle Hle2) as [Hfs Hfl].
  split; intros a Ha Hu; apply Hc; auto; apply untouched_app; split; auto.
  - eapply untouched_in; [exact Hin2|]. intros Ha2. by eapply fp_head_disjoint.
  - eapply untouched_in; [exact Hin1|]. intros Ha1. by eapply fp_head_disjoint.
Qed.

Lemma same_control_object lo f lim m0 s t nb l np np' evs m m' :
  slot_end s = s_addr s + 8 -> slot_end s <= np -> np <= t -> lo = t + 8 -> 8 <= nb ->
  slots_ok lo (t + nb) l -> lays E f m0 lim l (t + nb) np' evs ->
  same_control (fp [s] np np') (EPtr (s_addr s) :: evs) m m' ->
  same_control (fp l (t + nb) np') evs m m' /\
  (forall n a, t <= a -> a + Z.of_nat n <= t + 8 -> load n m a = load n m' a).
Proof.
  intros Hse Hend Ht -> Hnb Hok Hl Hc.
  pose proof (proj2 (lay_bounds f m0 lim) _ _ _ _ Hl _ Hok) as (Hle&_&Hin&_).
  assert (Hobj : forall a, fp l (t + nb) np' a -> t + 8 <= a < np').
  { intros a Ha. apply (fp_object _ _ _ _ _ Hok) in Ha. lia. }
  assert (Hslot : forall a, t <= a -> ~ event_bytes (EPtr (s_addr s)) a).
  { intros a Ha. unfold event_bytes, range; simpl. lia. }
  split.
  - intros a Ha Hu. specialize (Hobj a Ha). apply Hc; [apply fp_single; right; lia|].
    constructor; [apply Hslot; lia|done].
  - intros n a Ha Hn. eapply load_control; [exact Hc|]. intros x Hx.
    split; [apply fp_single; right; lia|].
    constructor; [apply Hslot; lia|].
    eapply untouched_in; [exact Hin|]. intros Hx'. specialize (Hobj x Hx'). lia.
Qed.

Lemma map_count_target f f' m m' a v v' :
  load64 m a = Ok v -> load64 m' a = Ok v' -> (v = 0 <-> v' = 0) ->
  (v <> 0 -> target f a v = target f' a v') ->
  (v <> 0 -> load32 m (target f a v + 4) = load32 m' (target f a v + 4)) ->
  map_count f m a = map_count f' m' a.
Proof.
  intros Hv Hv' H0 Ht Hl. unfold map_count. rewrite Hv, Hv'. simpl.
  destruct (Z.eqb_spec v 0), (Z.eqb_spec v' 0); try tauto.
  rewrite Hl, Ht; auto.
Qed.

(** The number of elements behind an array slot, kept by transport so that
    maps stay maps. *)
Definition count_kept (f f' : form) (m m' : mem) (s : slot) : Prop :=
  s_type s = MOJOM_TYPE_DESCRIPTOR_TYPE_ARRAY_PTR ->
  map_count f' m' (s_addr s) = map_count f m (s_addr s).

Lemma map_kept f f' m m' p d t ver :
  desc_matches E MOJOM_TYPE_DESCRIPTOR_TYPE_MAP_PTR p = true ->
  struct_desc E p = Ok d -> 0 <= ver ->
  (forall s, s ∈ struct_slots (sd_entries d) ver t -> count_kept f f' m m' s) ->
  map_count f' m' (t + 8) = map_count f m (t + 8) /\
  map_count f' m' (t + 16) = map_count f m (t + 16).
Proof.
  intros Hm Hd Hver H. simpl in Hm. rewrite Hd in Hm. unfold is_map_desc in Hm.
  apply andb_true_iff in Hm as [Hk Hv].
  destruct (map_slots d ver t 0 Hk Hver) as (s1 & Hs1 & Ht1 & Ha1).
  destruct (map_slots d ver t 8 Hv Hver) as (s2 & Hs2 & Ht2 & Ha2).
  specialize (H s1 Hs1 Ht1) as H1. specialize (H s2 Hs2 Ht2) as H2.
  rewrite Ha1, Z.add_0_r in H1. rewrite Ha2 in H2.
  replace (t + 8 + 8) with (t + 16) in H2 by lia. done.
Qed.

Lemma lay_transport f f' m m' lim :
  (forall s np np' evs, lay E f m lim s np np' evs ->
     slot_wf s -> slot_end s <= np ->
     same_control (fp [s] np np') evs m m' -> same_pointers f f' evs m m' ->
     lay E f' m' lim s np np' evs /\ count_kept f f' m m' s) /\
  (forall l np np' evs, lays E f m lim l np np' evs ->
     forall lo, slots_ok lo np l ->
     same_control (fp l np np') evs m m' -> same_pointers f f' evs m m' ->
     lays E f' m' lim l np np' evs /\ forall s, s ∈ l -> count_kept f f' m m' s).
Proof.
  apply lay_lays_ind.
  - intros s np Hty Hn Hv Hwf Hend Hc Hp.
    destruct (Hp (s_addr s)) as (v & v' & Ev & Ev' & Hz & _); [apply list_elem_of_here|].
    assert (v = 0) as -> by congruence. assert (v' = 0) as -> by tauto.
    split; [by apply lay_null|]. intros _. by eapply map_count_target; [exact Ev'|exact Ev|..].
  - intros s np np' evs v t d nb ver Hty Hv Hv0 -> Hp Hd Hnb Hver Hmin Hlim Hmod Hsz Hl IH Hmap
      Hwf Hend Hc Hsp.
    pose proof (object_ptr_size s (struct_ptr_object _ Hty)) as Hse.
    pose proof (struct_desc_wf E _ _ HE Hd) as Hdwf.
    pose proof Hwf as (_&_&Hdm&Hpos). pose proof Hp as (?&?&_&_).
    set (t := target f (s_addr s) v) in *.
    pose proof (struct_slots_ok d ver t nb Hdwf Hsz ltac:(lia)) as Hok.
    edestruct (same_control_object (t + 8) f lim m s t nb) as [Hc' Hld]; [done..|].
    destruct (Hsp (s_addr s)) as (w & v' & Ev & Ev' & Hz & Ht); [apply list_elem_of_here|].
    assert (w = v) as -> by congruence.
    destruct (IH _ Hok Hc') as [Hl' Hcnt]; [intros a Ha; apply Hsp; by apply list_elem_of_further|].
    split; [|intros Hty'; by rewrite Hty' in Hty].
    eapply (lay_struct _ _ _ _ s np np' evs v' t d nb ver); try done.
    + tauto.
    + by apply Ht.
    + rewrite <- Hld; [done|lia|lia].
    + rewrite <- Hld; [done|lia|lia].
    + intros Htm. destruct (Hmap Htm) as (n & Hk & Hvs). exists n.
      rewrite Htm in Hdm. pose proof (load_range _ _ _ _ Hver).
      destruct (map_kept f f' m m' _ d t ver Hdm Hd ltac:(lia) Hcnt) as [-> ->]. done.
  - intros s np np' evs v t d nb n Hty Hv Hv0 -> Hp Hd Hnb Hn Hlim Hh Hl IH Hwf Hend Hc Hsp.
    assert (Hse : slot_end s = s_addr s + 8) by (unfold slot_end; by rewrite Hty).
    pose proof (array_desc_wf E _ _ HE Hd) as Hdwf.
    pose proof Hwf as (_&_&Hdm&Hpos). pose proof Hp as (?&?&_&_). pose proof Hh as (Hmin&_&_).
    set (t := target f (s_addr s) v) in *. pose proof (load_range _ _ _ _ Hn).
    pose proof (array_slots_ok d nb n t Hdwf Hh ltac:(lia) ltac:(lia)) as Hok.
    edestruct (same_control_object (t + 8) f lim m s t nb) as [Hc' Hld]; [done..|].
    destruct (Hsp (s_addr s)) as (w & v' & Ev & Ev' & Hz & Ht); [apply list_elem_of_here|].
    assert (w = v) as -> by congruence.
    destruct (IH _ Hok Hc') as [Hl' _]; [intros a Ha; apply Hsp; by apply list_elem_of_further|].
    split.
    + eapply (lay_array _ _ _ _ s np np' evs v' t d nb n); try done.
      * tauto.
      * by apply Ht.
      * rewrite <- Hld; [done|lia|lia].
      * rewrite <- Hld; [done|lia|lia].
    + intros _. symmetry. eapply map_count_target; try done.
      intros _. apply Hld; lia.
  - intros s np Hty Hn Hsz Hwf Hend Hc _. split; [|intros Hty'; congruence].
    apply lay_union_null; [done|done|]. rewrite <- Hsz. symmetry.
    eapply load_control; [exact Hc|]. intros x Hx. split; [|constructor].
    apply fp_single. left. unfold slot_bytes, range, slot_end. rewrite Hty. simpl in *.
    unfold sizeof_MojomUnionLayout. lia.
  - intros s np d sz tag Hty Hsz Hsz0 Hd Htag He Hwf Hend Hc _. split; [|intros Hty'; congruence].
    assert (Hld : forall a, s_addr s <= a -> a + 4 <= s_addr s + 16 -> load32 m a = load32 m' a).
    { intros a ??. eapply load_control; [exact Hc|]. intros x Hx. split; [|constructor].
      apply fp_single. left. unfold slot_bytes, range, slot_end. rewrite Hty. simpl in *.
      unfold sizeof_MojomUnionLayout. lia. }
    eapply lay_union_inactive; try done; rewrite <- Hld; done || lia.
  - intros s np np' evs d sz tag e Hty Hsz Hsz0 Hn Hd Htag He Hl IH Hwf Hend Hc Hsp.
    pose proof Hwf as (_&_&_&Hpos).
    destruct (active_entry_slot_wf _ d tag e (s_addr s) Hd He Hpos) as (Hwf' & Hend' & _).
    assert (Hse : slot_end s = s_addr s + 16) by (unfold slot_end; by rewrite Hty).
    pose proof (proj1 (lay_bounds f m lim) _ _ _ _ Hl Hwf' ltac:(lia)) as (Hle&_&Hin&_).
    assert (Hsub : s_addr (union_entry_slot (s_addr s) e) = s_addr s + 8) by done.
    assert (Hld : forall a, s_addr s <= a -> a + 4 <= s_addr s + 8 -> load32 m a = load32 m' a).
    { intros a ??. eapply load_control; [exact Hc|]. intros x Hx. simpl in Hx. split.
      - apply fp_single. left. unfold slot_bytes, range. lia.
      - eapply untouched_in; [exact Hin|]. intros Hx'. apply fp_single in Hx'.
        unfold slot_bytes, range in Hx'. lia. }
    destruct IH as [Hl' _]; [done|lia| |done|].
    { intros a Ha Hu. apply Hc; [|done]. apply fp_single. apply fp_single in Ha.
      destruct Ha as [Ha|Ha]; [left|by right]. by eapply union_field_bytes. }
    split; [|intros Hty'; congruence].
    eapply lay_union_active; try done; rewrite <- Hld; done || lia.
  - intros s np Hty _ _ _ _. split; [by apply lay_handle|].
    intros Hty'. rewrite Hty' in Hty. by destruct Hty.
  - intros np lo _ _ _. split; [constructor|]. intros s Hs. inversion Hs.
  - intros s l np np1 np2 evs1 evs2 Hs IHs Hl IHl lo Hok Hc Hsp.
    inversion Hok as [|? ? Hwf Hlo Hend Hdj Hok']; subst.
    destruct (same_control_cons lo f lim m (fp (s :: l) np np2) s l np np1 np2 evs1 evs2 m m')
      as [Hc1 Hc2]; [done..|].
    apply same_pointers_app in Hsp as [Hsp1 Hsp2].
    pose proof (proj1 (lay_bounds f m lim) _ _ _ _ Hs Hwf Hend) as (Hle&_).
    destruct IHs as [Hs' Hk]; [done..|].
    destruct (IHl lo) as [Hl' Hkl]; [by eapply slots_ok_weaken|done..|].
    split; [by econstructor|].
    intros s' Hin. inversion Hin; subst; auto.
Qed.
End Facts.

(** * Determinism *)

Ltac same_load :=
  repeat match goal with
  | H1 : ?o = Ok ?a, H2 : ?o = Ok ?b |- _ =>
      tryif unify a b then fail else (assert (a = b) by congruence; subst)
  | H1 : ?o = Some ?a, H2 : ?o = Some ?b |- _ =>
      tryif unify a b then fail else (assert (a = b) by congruence; subst)
  end.

Ltac type_clash s :=
  exfalso; unfold is_object_ptr, is_struct_ptr in *; destruct (s_type s); simpl in *; intuition congruence.

Lemma is_object_ptr_cases ty :
  is_object_ptr ty = true ->
  ty <> MOJOM_TYPE_DESCRIPTOR_TYPE_UNION /\ ty <> MOJOM_TYPE_DESCRIPTOR_TYPE_HANDLE /\
  ty <> MOJOM_TYPE_DESCRIPTOR_TYPE_INTERFACE.
Proof. by destruct ty. Qed.

(** A memory holds at most one graph at a slot. *)
Lemma lay_deterministic E f m lim :
  (forall s np np1 evs1, lay E f m lim s np np1 evs1 ->
     forall np2 evs2, lay E f m lim s np np2 evs2 -> np2 = np1 /\ evs2 = evs1) /\
  (forall l np np1 evs1, lays E f m lim l np np1 evs1 ->
     forall np2 evs2, lays E f m lim l np np2 evs2 -> np2 = np1 /\ evs2 = evs1).
Proof.
  apply lay_lays_ind.
  1: intros s np Hty Hn Hv np2 evs2 H2.
  2: intros s np np' evs v t d nb ver Hty Hv Hv0 Ht _ Hd Hnb Hver _ _ _ _ _ IH _ np2 evs2 H2.
  3: intros s np np' evs v t d nb n Hty Hv Hv0 Ht _ Hd Hnb Hn _ _ _ IH np2 evs2 H2.
  4: intros s np Hty Hn Hsz np2 evs2 H2.
  5: intros s np d sz tag Hty Hsz Hsz0 Hd Htag Hact np2 evs2 H2.
  6: intros s np np' evs d sz tag e Hty Hsz Hsz0 Hn Hd Htag Hact _ IH np2 evs2 H2.
  7: intros s np Hty np2 evs2 H2.
  1-7: inversion H2; subst; same_load; try done; try (type_clash s).
  - match goal with H : lays _ _ _ _ _ _ _ _ |- _ => by destruct (IH _ _ H) as [-> ->] end.
  - match goal with H : lays _ _ _ _ _ _ _ _ |- _ => by destruct (IH _ _ H) as [-> ->] end.
  - auto.
  - intros np np2 evs2 H2. by inversion H2.
  - intros s l np np1 np2 evs1 evs2 _ IHs _ IHl np' evs' H2. inversion H2; subst.
    match goal with H : lay _ _ _ _ _ _ _ _ |- _ => destruct (IHs _ _ H) as [-> ->] end.
    match goal with H : lays _ _ _ _ _ np1 _ _ |- _ => by destruct (IHl _ _ H) as [-> ->] end.
Qed.

Lemma lay_top_deterministic E f m lim p t np1 evs1 np2 evs2 :
  lay_top E f m lim p t np1 evs1 -> lay_top E f m lim p t np2 evs2 -> np2 = np1 /\ evs2 = evs1.
Proof.
  intros (d & nb & ver & Hd & Hnb & Hver & _ & _ & _ & _ & Hl) (d' & nb' & ver' & Hd' & Hnb' & Hver' & _ & _ & _ & _ & Hl').
  same_load. by apply (proj2 (lay_deterministic E f m lim) _ _ _ _ Hl).
Qed.
