(* ===== verification/ValidateFacts.v ===== *)
(** The validator against the layout relation: validation of untrusted bytes
    always returns, never reads outside the buffer, and accepts exactly the
    messages the relation describes. *)
From stdpp Require Import base numbers list option gmap.
From coqutil Require Import Byte.
From Stdlib Require Import ZArith Lia Sorting.Sorted.
From S2P Require Import Prelude CMem Buffer Descriptor Validate Layout LayoutFacts.

(** * Version tables *)

Lemma row_for_snoc l w v :
  l <> [] -> row_for (l ++ [w]) v = if decide (sv_version w <= v) then Some w else row_for l v.
Proof.
  destruct l as [|x l]; [done|]. intros _. cbn [app row_for].
  rewrite filter_app. rewrite (filter_cons _ w []). destruct (decide (sv_version w <= v)).
  - by rewrite filter_nil, last_snoc.
  - by rewrite filter_nil, app_nil_r.
Qed.

Lemma seek_version_row vs v i :
  (i < length vs)%nat ->
  exists j r, seek_version vs v i = Ok j /\ vs !! j = Some r /\ row_for (take (S i) vs) v = Some r.
Proof.
  induction i as [|i IH]; intros Hi.
  - destruct vs as [|x vs]; [simpl in Hi; lia|]. by exists O, x.
  - destruct (lookup_lt_is_Some_2 vs (S i) Hi) as [w Hw].
    rewrite (take_S_r vs (S i) w Hw). cbn [seek_version]. rewrite Hw. cbn.
    rewrite row_for_snoc by (destruct vs; done).
    destruct (Z.gtb_spec (sv_version w) v).
    + rewrite decide_False by lia. apply IH. lia.
    + rewrite decide_True by lia. by exists (S i), w.
Qed.

(** The reverse scan of the code finds the row of the specification. *)
Lemma seek_version_spec vs v :
  vs <> [] -> exists j, seek_version vs v (length vs - 1) = Ok j /\ vs !! j = row_for vs v.
Proof.
  intros Hvs. assert (length vs <> O) by (by destruct vs).
  destruct (seek_version_row vs v (length vs - 1)) as (j & r & Hj & Hr & Hrow); [lia|].
  exists j. split; [done|]. rewrite Hr, <- Hrow.
  by rewrite take_ge by lia.
Qed.

(** Rows passed over are newer; the row stopped at is not, unless it is the first. *)
Lemma seek_version_stops vs v i0 i :
  seek_version vs v i0 = Ok i ->
  (forall j r, (i < j <= i0)%nat -> vs !! j = Some r -> v < sv_version r) /\
  (i <> O -> forall r, vs !! i = Some r -> sv_version r <= v).
Proof.
  induction i0 as [|k IH]; cbn [seek_version]; intros H.
  { simplify_eq. split; [intros; lia|done]. }
  destruct (vs !! S k) as [w|] eqn:Hw; [|done]. cbn in H.
  destruct (Z.gtb_spec (sv_version w) v).
  - destruct (IH H) as [H1 H2]. split; [|done]. intros j r Hj Hr.
    destruct (decide (j = S k)) as [->|]; [simplify_eq; lia|]. apply (H1 j r); [lia|done].
  - simplify_eq. split; [intros; lia|]. intros _ r Hr. simplify_eq. lia.
Qed.

Lemma size_ok_code d m t nb ver :
  sd_versions d <> [] -> load32 m t = Ok nb -> load32 m (t + 4) = Ok ver ->
  exists b, is_valid_size_for_version m t (sd_versions d) = Ok b /\ (b = true <-> size_ok d ver nb).
Proof.
  intros Hvs Hnb Hver. destruct (seek_version_spec (sd_versions d) ver Hvs) as (j & Hj & Hrow).
  unfold is_valid_size_for_version, size_ok.
  destruct (sd_versions d) as [|x vs] eqn:E; [done|]. rewrite <- E in *.
  rewrite Hver. cbn. rewrite Hj. cbn. rewrite Hrow.
  destruct (row_for (sd_versions d) ver) as [r|] eqn:Hr.
  2: { by rewrite E in Hr. }
  cbn. rewrite Hnb. cbn. eexists. split; [done|].
  destruct (Z.eqb_spec ver (sv_version r)).
  - rewrite decide_True by done. apply Z.eqb_eq.
  - rewrite decide_False by done. rewrite Z.geb_leb. apply Z.leb_le.
Qed.

(** * Leaves *)

(** What [validate_pointer] decides, in unbounded integers. *)
Definition pointer_check (np a off max : Z) (nullable : bool) : MojomValidationResult :=
  if max <? off then MOJOM_VALIDATION_ILLEGAL_POINTER
  else if negb (off =? 0) && (a + off <? np) then MOJOM_VALIDATION_ILLEGAL_MEMORY_RANGE
  else if negb (off mod 8 =? 0) then MOJOM_VALIDATION_MISALIGNED_OBJECT
  else if negb nullable && (off =? 0) then MOJOM_VALIDATION_UNEXPECTED_NULL_POINTER
  else MOJOM_VALIDATION_ERROR_NONE.

Definition pointer_next (np a off max : Z) : Z :=
  if (off <=? max) && negb (off =? 0) && (np <=? a + off) then a + off else np.

Lemma validate_pointer_eq m a off max nullable c :
  load64 m a = Ok off -> 0 < a -> max < 2 ^ 32 -> a + max < 2 ^ 64 ->
  validate_pointer m a max nullable c =
    Ok (pointer_check (next_pointer c) a off max nullable,
        set_next_pointer (pointer_next (next_pointer c) a off max) c).
Proof.
  intros Hl Ha Hmax Hw. pose proof (load_range _ _ _ _ Hl) as Hoff.
  unfold validate_pointer, pointer_check, pointer_next.
  unfold mbind at 1, M_bind at 1, lift at 1. rewrite Hl.
  destruct c as [h np]. unfold set_next_pointer; cbn [next_pointer next_handle_index].
  destruct (Z.gtb_spec off max) as [Hgt|Hle].
  { rewrite (proj2 (Z.ltb_lt max off)) by lia.
    rewrite (proj2 (Z.leb_gt off max)) by lia. done. }
  rewrite (proj2 (Z.ltb_ge max off)), (proj2 (Z.leb_le off max)) by lia.
  assert ((off >? UINT32_MAX) = false) as ->.
  { rewrite Z.gtb_ltb. apply Z.ltb_ge. unfold UINT32_MAX. lia. }
  cbn [orb]. unfold mbind at 1, M_bind at 1, get. cbn [next_pointer].
  rewrite wrap64_small by lia. rewrite land_7.
  destruct (Z.eqb_spec off 0) as [->|Hnz]; cbn [negb andb].
  - cbn. by destruct nullable.
  - destruct (Z.ltb_spec (a + off) np) as [Hlt|Hge].
    + rewrite (proj2 (Z.leb_gt np (a + off))) by lia. done.
    + rewrite (proj2 (Z.leb_le np (a + off))) by lia.
      rewrite andb_false_r. destruct (Z.eqb_spec (off mod 8) 0); done.
Qed.

Lemma array_header_code d m t size :
  is_u32 (ad_elem_num_bits d) = true -> mapped m t (t + size) ->
  exists r, validate_array_header m d t size = Ok r /\
    (r = MOJOM_VALIDATION_ERROR_NONE <->
     exists nb n, load32 m t = Ok nb /\ load32 m (t + 4) = Ok n /\ nb <= size /\
       array_header_ok d nb n).
Proof.
  intros Hbits Hm. apply is_u32_spec in Hbits. unfold validate_array_header, sizeof_MojomArrayHeader.
  destruct (Z.ltb_spec size 8) as [Hs|Hs].
  { eexists. split; [done|]. split; [done|]. intros (nb & n & _ & _ & ? & ? & _).
    unfold sizeof_MojomArrayHeader in *. lia. }
  destruct (load_mapped m t 4) as (nb & Hnb & _); [eapply mapped_weaken; [exact Hm|lia..]|].
  destruct (load_mapped m (t + 4) 4) as (n & Hn & Hnr); [eapply mapped_weaken; [exact Hm|lia..]|].
  rewrite Hnb. cbn [mbind outcome_bind]. rewrite Hn. cbn [mbind outcome_bind].
  unfold bits_to_bytes.
  rewrite (wrap64_small (ad_elem_num_bits d * n)) by nia.
  rewrite (wrap64_small (_ * _ + 7)) by nia.
  rewrite wrap64_small by (split; [apply Z.add_nonneg_nonneg; [lia|apply Z.div_pos; nia]|
    apply Z.le_lt_trans with (8 + (ad_elem_num_bits d * n + 7)); [|nia];
    apply Z.add_le_mono_l, Z.div_le_upper_bound; nia]).
  assert (Hiff : forall r : Z, (r = MOJOM_VALIDATION_ERROR_NONE <-> nb <= size /\ array_header_ok d nb n) ->
    (r = MOJOM_VALIDATION_ERROR_NONE <->
     exists nb' n', Ok nb = Ok nb' /\ Ok n = Ok n' /\ nb' <= size /\
       array_header_ok d nb' n')).
  { intros r ->. split; [intros [??]; eauto 10|]. by intros (nb' & n' & [= <-] & [= <-] & ?). }
  unfold array_header_ok, sizeof_MojomArrayHeader in *.
  destruct (Z.ltb_spec nb 8).
  { eexists. split; [done|]. apply Hiff. split; [done|lia]. }
  destruct (Z.gtb_spec nb size).
  { eexists. split; [done|]. apply Hiff. split; [done|lia]. }
  destruct (Z.eqb_spec (ad_num_elements d) 0), (Z.eqb_spec n (ad_num_elements d)); cbn [negb andb].
  all: try (eexists; split; [done|]; apply Hiff; split; [done|lia]).
  all: destruct (Z.ltb_spec nb (8 + (ad_elem_num_bits d * n + 7) / 8)).
  all: eexists; split; [done|]; apply Hiff; split; try done; lia.
Qed.

(** * Handles *)

(** The handle slots of [evs] hold indices that increase strictly, all at least
    [h] and below [nh], or the null index where it is allowed; [h'] is one past
    the last. *)
Inductive handles_ok (m : mem) (nh : Z) : Z -> list event -> Z -> Prop :=
  | handles_nil h : handles_ok m nh h [] h
  | handles_ptr h a evs h' : handles_ok m nh h evs h' -> handles_ok m nh h (EPtr a :: evs) h'
  | handles_null h a evs h' :
      load32 m a = Ok kEncodedHandleInvalid -> handles_ok m nh h evs h' ->
      handles_ok m nh h (EHandle a true :: evs) h'
  | handles_index h a b e evs h' :
      load32 m a = Ok e -> e <> kEncodedHandleInvalid -> h <= e < nh ->
      handles_ok m nh (e + 1) evs h' -> handles_ok m nh h (EHandle a b :: evs) h'.

Lemma handles_ok_app m nh h evs1 evs2 h' :
  handles_ok m nh h (evs1 ++ evs2) h' <->
  exists h1, handles_ok m nh h evs1 h1 /\ handles_ok m nh h1 evs2 h'.
Proof.
  revert h. induction evs1 as [|e evs1 IH]; intros h; simpl.
  - split; [intros H; exists h; split; [constructor|done]|].
    intros (h1 & H1 & H2). by inversion H1; subst.
  - split.
    + intros H. inversion H; subst.
      1: apply IH in H4 as (h1 & ? & ?); exists h1; split; [by apply handles_ptr|done].
      1: apply IH in H5 as (h1 & ? & ?); exists h1; split; [by apply handles_null|done].
      apply IH in H7 as (h1 & ? & ?); exists h1; split; [by eapply handles_index|done].
    + intros (h1 & H1 & H2). inversion H1; subst.
      1: apply handles_ptr, IH; eauto.
      1: apply handles_null; [done|apply IH; eauto].
      eapply handles_index; [done..|apply IH; eauto].
Qed.

Lemma handles_one m nh h a b h' :
  handles_ok m nh h [EHandle a b] h' ->
  (b = true /\ load32 m a = Ok kEncodedHandleInvalid /\ h' = h) \/
  (exists e, load32 m a = Ok e /\ e <> kEncodedHandleInvalid /\ h <= e < nh /\ h' = e + 1).
Proof.
  intros H. inversion H as [| |? ? ? ? Ha Hr|? ? ? e ? ? Ha Hne Hb Hr]; subst; inversion Hr; subst.
  - by left.
  - right. by exists e.
Qed.

(** The indices a message's handle slots take out of the handle array. *)
Fixpoint taken (m : mem) (evs : list event) : list Z :=
  match evs with
  | [] => []
  | EPtr _ :: evs => taken m evs
  | EHandle a _ :: evs =>
      match load32 m a with
      | Ok i => if i =? kEncodedHandleInvalid then taken m evs else i :: taken m evs
      | _ => taken m evs
      end
  end.

Lemma taken_increasing m nh h evs h' : handles_ok m nh h evs h' ->
  Forall (fun i => h <= i < nh) (taken m evs) /\ StronglySorted Z.lt (taken m evs).
Proof.
  induction 1 as [|h a evs h' _ IH|h a evs h' Ha _ IH|h a b i evs h' Ha Hi Hr _ [IHr IHs]]; cbn [taken].
  - split; constructor.
  - done.
  - by rewrite Ha.
  - rewrite Ha, (proj2 (Z.eqb_neq i kEncodedHandleInvalid)) by done. split; constructor; try done || lia.
    + eapply Forall_impl; [exact IHr|]. simpl. lia.
    + eapply List.Forall_impl; [|exact IHr]. simpl. lia.
Qed.

Lemma handles_ok_mono m nh h evs h' : handles_ok m nh h evs h' -> h <= h' /\ (h' = h \/ h' <= nh).
Proof. induction 1; lia. Qed.

Definition handle_check (h e nh : Z) (nullable : bool) : MojomValidationResult :=
  if e =? kEncodedHandleInvalid then
    if nullable then MOJOM_VALIDATION_ERROR_NONE else MOJOM_VALIDATION_UNEXPECTED_INVALID_HANDLE
  else if (nh <=? e) || (e <? h) then MOJOM_VALIDATION_ILLEGAL_HANDLE
  else MOJOM_VALIDATION_ERROR_NONE.

Definition handle_next (h e nh : Z) : Z :=
  if negb (e =? kEncodedHandleInvalid) && (h <=? e) && (e <? nh) then e + 1 else h.

Lemma validate_handle_eq e nh nullable c :
  0 <= e -> nh < 2 ^ 32 ->
  validate_handle e nh nullable c =
    Ok (handle_check (next_handle_index c) e nh nullable,
        set_next_handle_index (handle_next (next_handle_index c) e nh) c).
Proof.
  intros He Hnh. unfold validate_handle, handle_check, handle_next.
  destruct c as [h np]. unfold set_next_handle_index; cbn [next_handle_index next_pointer].
  destruct (Z.eqb_spec e kEncodedHandleInvalid); cbn [negb andb].
  { rewrite andb_true_r. by destruct nullable. }
  rewrite andb_false_r. cbn [negb]. unfold mbind at 1, M_bind at 1, get. cbn [next_handle_index].
  rewrite Z.geb_leb.
  destruct (Z.leb_spec nh e), (Z.ltb_spec e h); cbn [orb].
  1,2: rewrite (proj2 (Z.ltb_ge e nh)) by lia; by rewrite andb_false_r.
  1: rewrite (proj2 (Z.leb_gt h e)) by lia; done.
  rewrite (proj2 (Z.ltb_lt e nh)), (proj2 (Z.leb_le h e)) by lia.
  cbn. unfold modify. cbn. by rewrite wrap32_small by lia.
Qed.

(** * Validity *)

Section Valid.
Context (E : denv) (m : mem) (lim nh : Z).

(** What validation of one slot means: the slot holds an encoded graph past
    [next_pointer], with handle indices past [next_handle_index]; [c'] is the
    context after it. *)
Definition valid (s : slot) (c c' : MojomValidationContext) : Prop :=
  exists evs, lay E Encoded m lim s (next_pointer c) (next_pointer c') evs /\
    handles_ok m nh (next_handle_index c) evs (next_handle_index c').

Definition valids (l : list slot) (c c' : MojomValidationContext) : Prop :=
  exists evs, lays E Encoded m lim l (next_pointer c) (next_pointer c') evs /\
    handles_ok m nh (next_handle_index c) evs (next_handle_index c').

(** The same for a whole message, a struct at [t]. *)
Definition valid_message (p : descptr) (t : Z) (c c' : MojomValidationContext) : Prop :=
  exists evs, lay_top E Encoded m lim p t (next_pointer c') evs /\
    handles_ok m nh (next_handle_index c) evs (next_handle_index c').

Lemma context_eq c c' :
  next_pointer c = next_pointer c' -> next_handle_index c = next_handle_index c' -> c = c'.
Proof. destruct c, c'; simpl. by intros -> ->. Qed.

Lemma valids_nil c c' : valids [] c c' <-> c' = c.
Proof.
  split.
  - intros (evs & H1 & H2). inversion H1; subst. inversion H2; subst. by apply context_eq.
  - intros ->. exists []. split; constructor.
Qed.

Lemma valids_cons s l c c' : valids (s :: l) c c' <-> exists c1, valid s c c1 /\ valids l c1 c'.
Proof.
  split.
  - intros (evs & H1 & H2). inversion H1; subst.
    apply handles_ok_app in H2 as (h1 & ? & ?).
    exists {| next_handle_index := h1; next_pointer := np1 |}.
    split; eexists; split; done.
  - intros (c1 & (evs1 & ? & ?) & (evs2 & ? & ?)). exists (evs1 ++ evs2).
    split; [by econstructor|]. apply handles_ok_app. eauto.
Qed.

(** The outcome [r], [c'] of a validation function is right for what it
    validates when it accepts exactly what is valid, with that context. *)
Definition decides (P : MojomValidationContext -> Prop) (r : MojomValidationResult)
    (c' : MojomValidationContext) : Prop :=
  forall c'', P c'' <-> r = MOJOM_VALIDATION_ERROR_NONE /\ c'' = c'.

Lemma decides_reject (P : MojomValidationContext -> Prop) r c' :
  r <> MOJOM_VALIDATION_ERROR_NONE -> (forall c'', ~ P c'') -> decides P r c'.
Proof. intros Hr HP c''. split; [intros H; by destruct (HP c'')|by intros [? _]]. Qed.

Lemma decides_accept (P : MojomValidationContext -> Prop) c' :
  P c' -> (forall c'', P c'' -> c'' = c') -> decides P MOJOM_VALIDATION_ERROR_NONE c'.
Proof. intros H1 H2 c''. split; [auto|by intros [_ ->]]. Qed.

Lemma decides_iff (P Q : MojomValidationContext -> Prop) r c' :
  (forall c'', Q c'' <-> P c'') -> decides P r c' -> decides Q r c'.
Proof. intros HPQ HP c''. by rewrite HPQ. Qed.
End Valid.

Lemma array_index_eq ty t i :
  is_pod ty = false -> is_union_ptr ty = false ->
  array_index_by_type t ty i = Ok (t + sizeof_MojomArrayHeader + elem_size ty * i).
Proof. intros Hpod Hup. destruct ty; try done; vm_compute in Hpod, Hup; done. Qed.

(** * The recursive validator *)

Section Recursion.
Context (E : denv) (HE : env_wf E = true) (Hnu : no_union_ptr E = true).
Context (m : mem) (lo lim nh : Z).
Context (Hlo : 0 < lo) (Hlim : lim < 2 ^ 64) (Hsize : lim - lo < 2 ^ 32).
Context (Hm : mapped m lo lim) (Hnh : nh < 2 ^ 32).

Abbreviation valid := (valid E m lim nh).
Abbreviation valids := (valids E m lim nh).

Lemma load_in n a :
  lo <= a -> a + Z.of_nat n <= lim -> exists v, load n m a = Ok v /\ 0 <= v < 2 ^ (8 * Z.of_nat n).
Proof. intros ??. apply load_mapped. eapply mapped_weaken; [exact Hm|lia..]. Qed.

Lemma decides_cons_accept s l c c1 r c' :
  decides (valid s c) MOJOM_VALIDATION_ERROR_NONE c1 -> decides (valids l c1) r c' ->
  decides (valids (s :: l) c) r c'.
Proof.
  intros H1 H2 c''. rewrite valids_cons. split.
  - intros (c2 & Hs & Hl). apply H1 in Hs as [_ ->]. by apply H2.
  - intros H. exists c1. split; [by apply H1|by apply H2].
Qed.

Lemma decides_cons_reject s l c c1 r c' :
  decides (valid s c) r c1 -> r <> MOJOM_VALIDATION_ERROR_NONE ->
  decides (valids (s :: l) c) r c'.
Proof.
  intros H1 Hr. apply decides_reject; [done|]. intros c'' H.
  apply valids_cons in H as (c2 & Hs & _). by apply H1 in Hs as [? _].
Qed.

Definition slot_pre (s : slot) (c : MojomValidationContext) : Prop :=
  slot_wf E s /\ lo <= s_addr s /\ slot_end s <= lim /\ slot_end s <= next_pointer c.

(** Fuel for a slot: the bytes the validator has not claimed yet, and a level
    or two for the slot itself. *)
Definition need (s : slot) (c : MojomValidationContext) : Z :=
  Z.max 0 (lim - next_pointer c) + (if is_union (s_type s) then 2 else 1).

Abbreviation dispatch_t :=
  (MojomTypeDescriptorType -> descptr -> bool -> Z -> Z -> Z ->
   M MojomValidationContext MojomValidationResult).

(** What the object validators may assume of the dispatcher they call back. *)
Definition dispatch_spec (k : nat) (dispatch : dispatch_t) : Prop :=
  forall s c, slot_pre s c -> need s c <= Z.of_nat k ->
    wp (dispatch (s_type s) (s_desc s) (s_nullable s) (s_addr s) (lim - s_addr s) nh) c
      (decides (valid s c)).

Lemma valid_next s c c' : slot_pre s c -> valid s c c' -> next_pointer c <= next_pointer c'.
Proof.
  intros (Hwf & _ & _ & Hend) (evs & Hl & _).
  by pose proof (proj1 (lay_bounds E HE Hnu Encoded m lim) _ _ _ _ Hl Hwf Hend) as (?&_).
Qed.

Lemma need_bound s c k :
  Z.max 0 (lim - next_pointer c) + 2 <= k -> need s c <= k.
Proof. unfold need. destruct (is_union _); lia. Qed.

Lemma decides_accepted s c r c' :
  decides (valid s c) r c' -> r = MOJOM_VALIDATION_ERROR_NONE -> valid s c c'.
Proof. intros H Hr. by apply H. Qed.

(** One iteration of the loops over fields and elements. *)
Lemma wp_visit dispatch k s l c size rest :
  dispatch_spec k dispatch ->
  slots_ok E lo (next_pointer c) (s :: l) -> slot_end s <= lim ->
  Z.max 0 (lim - next_pointer c) + 2 <= Z.of_nat k -> size = lim - s_addr s ->
  (forall c1, slots_ok E lo (next_pointer c1) l -> next_pointer c <= next_pointer c1 ->
     wp rest c1 (fun r c' => decides (valids l c1) (default MOJOM_VALIDATION_ERROR_NONE r) c')) ->
  wp (result ← dispatch (s_type s) (s_desc s) (s_nullable s) (s_addr s) size nh;
      mret (return_error result)) c
    (fun r c1 => wp (match r with Some v => mret (Some v) | None => rest end) c1
      (fun r c' => decides (valids (s :: l) c) (default MOJOM_VALIDATION_ERROR_NONE r) c')).
Proof.
  intros Hd Hok Hend Hk -> Hrest. inversion Hok as [|? ? Hwf Hlo' Hnp Hdj Hok']; subst.
  assert (Hpre : slot_pre s c) by done.
  wp_step. eapply wp_mono; [apply Hd; [done|by apply need_bound]|].
  intros r c1 Hr. wp_step. unfold return_error, is_none_result.
  destruct (Z.eqb_spec r MOJOM_VALIDATION_ERROR_NONE) as [->|Hne].
  - pose proof (valid_next s c c1 Hpre (decides_accepted s c _ c1 Hr eq_refl)) as Hle.
    eapply wp_mono; [apply Hrest; [by eapply slots_ok_weaken|done]|].
    intros r' c' H'. by eapply decides_cons_accept.
  - wp_step. by eapply decides_cons_reject.
Qed.

Lemma struct_loop dispatch k t ver es c :
  dispatch_spec k dispatch -> load32 m (t + 4) = Ok ver -> lo <= t ->
  slots_ok E lo (next_pointer c) (struct_slots es ver t) ->
  Forall (fun s => t <= s_addr s /\ slot_end s <= lim) (struct_slots es ver t) ->
  Z.max 0 (lim - next_pointer c) + 2 <= Z.of_nat k ->
  wp (for_each es (fun entry =>
        version ← lift (load32 m (t + 4));
        if version <? se_min_version entry then mret None
        else
          let elem_data := t + sizeof_MojomStructHeader + se_offset entry in
          result ← dispatch (se_elem_type entry) (se_elem_descriptor entry)
            (se_nullable entry) elem_data (wrap32 (lim - t - (elem_data - t))) nh;
          mret (return_error result))) c
    (fun r c' => decides (valids (struct_slots es ver t) c)
       (default MOJOM_VALIDATION_ERROR_NONE r) c').
Proof.
  intros Hd Hver Ht. revert c. induction es as [|e es IH]; intros c Hok Hall Hk.
  - cbn. apply decides_accept; [by apply valids_nil|].
    intros c''. by rewrite valids_nil.
  - unfold struct_slots in *. rewrite filter_cons in *. cbn [for_each].
    apply wp_bind, wp_bind. eapply wp_lift; [exact Hver|].
    destruct (Z.ltb_spec ver (se_min_version e)) as [Hlt|Hge].
    + rewrite decide_False in * by lia. wp_step. auto.
    + rewrite decide_True in * by lia. rewrite fmap_cons in *.
      inversion Hall as [|? ? [Hst Hse] Hall']; subst.
      pose proof (elem_size_nonneg (se_elem_type e)).
      unfold slot_end in Hse. cbn [entry_slot s_addr s_type] in Hst, Hse.
      apply (wp_visit dispatch k (entry_slot t e)); try done.
      * cbn [entry_slot s_addr]. rewrite wrap32_small by lia. lia.
      * intros c1 Hok1 Hle. apply IH; [done|done|lia].
Qed.

Lemma array_loop dispatch k t n d fuel j i c :
  dispatch_spec k dispatch -> load32 m (t + 4) = Ok n -> lo <= t ->
  is_pod (ad_elem_type d) = false -> is_union_ptr (ad_elem_type d) = false ->
  n = i + Z.of_nat j -> (j < fuel)%nat ->
  slots_ok E lo (next_pointer c) (element_slots d t i j) ->
  Forall (fun s => t <= s_addr s /\ slot_end s <= lim) (element_slots d t i j) ->
  Z.max 0 (lim - next_pointer c) + 2 <= Z.of_nat k ->
  wp (for_upto fuel i (lift (load32 m (t + 4))) (fun i =>
        elem_data ← lift (array_index_by_type t (ad_elem_type d) i);
        result ← dispatch (ad_elem_type d) (ad_elem_descriptor d) (ad_nullable d) elem_data
          (wrap32 (lim - t - wrap32 (elem_data - t))) nh;
        mret (return_error result))) c
    (fun r c' => decides (valids (element_slots d t i j) c)
       (default MOJOM_VALIDATION_ERROR_NONE r) c').
Proof.
  intros Hd Hn Ht Hpod Hup. revert fuel i c.
  induction j as [|j IH]; intros fuel i c Hij Hfuel Hok Hall Hk;
    (destruct fuel as [|fuel]; [lia|]); cbn [for_upto element_slots];
    apply wp_bind; (eapply wp_lift; [exact Hn|]).
  - rewrite (proj2 (Z.ltb_ge i n)) by lia. wp_step.
    apply decides_accept; [by apply valids_nil|]. intros c''. by rewrite valids_nil.
  - rewrite (proj2 (Z.ltb_lt i n)) by lia. cbn [element_slots] in *.
    inversion Hall as [|? ? [Hst Hse] Hall']; subst.
    pose proof (elem_size_nonneg (ad_elem_type d)).
    unfold slot_end in Hse. cbn [element_slot s_addr s_type] in Hst, Hse.
    apply wp_bind, wp_bind.
    apply (wp_lift _ (s_addr (element_slot d t i))).
    { by apply array_index_eq. }
    apply (wp_visit dispatch k (element_slot d t i)); try done.
    + cbn [element_slot s_addr].
      rewrite (wrap32_small (_ + _ - t)) by lia. rewrite wrap32_small by lia. lia.
    + intros c1 Hok1 Hle. apply IH; [lia|lia|done|done|lia].
Qed.

(** ** Structs and arrays *)

Lemma slots_end_lim l np :
  slots_ok E lo np l -> np <= lim -> forall t, lo <= t -> slots_ok E (t + 8) np l ->
  Forall (fun s => t <= s_addr s /\ slot_end s <= lim) l.
Proof.
  intros _ Hnp t Ht Hok. apply Forall_forall. intros s Hs.
  destruct (slots_ok_range _ _ _ _ _ Hok Hs) as (_&?&?). lia.
Qed.

Lemma slots_ok_lo a b np l : slots_ok E a np l -> b <= a -> slots_ok E b np l.
Proof. induction 1; constructor; auto; lia. Qed.

Lemma struct_desc_non_null p d : struct_desc E p = Ok d -> desc_non_null p = true.
Proof. by destruct p. Qed.

Lemma array_desc_non_null p d : array_desc E p = Ok d -> desc_non_null p = true.
Proof. by destruct p. Qed.

Lemma non_null_pos t : 0 < t -> non_null t = true.
Proof. intros H. unfold non_null, NULL. destruct (Z.eqb_spec t 0); [lia|done]. Qed.

Lemma valid_message_iff p t c c'' d nb ver :
  struct_desc E p = Ok d -> load32 m t = Ok nb -> load32 m (t + 4) = Ok ver ->
  valid_message E m lim nh p t c c'' <->
    (sizeof_MojomStructHeader <= nb /\ t + nb <= lim /\ nb mod 8 = 0 /\ size_ok d ver nb) /\
    valids (struct_slots (sd_entries d) ver t) (set_next_pointer (t + nb) c) c''.
Proof.
  intros Hd Hnb Hver. split.
  - intros (evs & (d' & nb' & ver' & Hd' & Hnb' & Hver' & ? & ? & ? & ? & Hl) & Hh).
    assert (d' = d /\ nb' = nb /\ ver' = ver) as (-> & -> & ->) by (split; [|split]; congruence).
    split; [done|]. by exists evs.
  - intros ((?&?&?&?) & evs & Hl & Hh). exists evs. split; [|done].
    exists d, nb, ver. done.
Qed.

Lemma struct_spec dispatch k p t d c :
  dispatch_spec k dispatch -> struct_desc E p = Ok d -> lo <= t <= lim ->
  (8 <= lim - t -> lim - t - 8 + 2 <= Z.of_nat k) ->
  wp (MojomStruct_Validate E m dispatch p t (lim - t) nh) c
    (decides (valid_message E m lim nh p t c)).
Proof.
  intros Hdisp Hd Ht Hk. unfold MojomStruct_Validate, sizeof_MojomStructHeader.
  pose proof (struct_desc_wf E p d HE Hd) as Hdwf.
  wp_step. apply wp_assert; [by eapply struct_desc_non_null|].
  wp_step. apply wp_assert; [apply non_null_pos; lia|].
  destruct (Z.ltb_spec (lim - t) 8) as [Hs|Hs].
  { wp_step. apply decides_reject; [done|].
    intros c'' (evs & (d' & nb & ver & _ & _ & _ & ? & ? & _) & _).
    unfold sizeof_MojomStructHeader in *. lia. }
  destruct (load_in 4 t) as (nb & Hnb & Hnbr); [lia|lia|].
  destruct (load_in 4 (t + 4)) as (ver & Hver & Hverr); [lia|lia|].
  pose proof (fun c'' => valid_message_iff p t c c'' d nb ver Hd Hnb Hver) as Hiff.
  wp_step. eapply wp_lift; [exact Hnb|].
  destruct (Z.gtb_spec nb (lim - t)) as [Hb|Hb].
  { wp_step. apply decides_reject; [done|]. intros c'' H. apply Hiff in H as [(?&?&_) _]. lia. }
  wp_step. eapply wp_lift; [exact Hd|].
  destruct (size_ok_code d m t nb ver) as (b & Hb' & Hsz); [|done|done|].
  { unfold struct_wf in Hdwf. bool_facts. by eapply bool_decide_eq_false_1. }
  wp_step. eapply wp_lift; [exact Hb'|].
  destruct b; cbn [negb].
  2: { wp_step. apply decides_reject; [done|]. intros c'' H.
       apply Hiff in H as [(_&_&_&H) _]. by apply Hsz in H. }
  apply proj1 in Hsz. specialize (Hsz eq_refl).
  pose proof (size_ok_min E d ver nb Hdwf Hsz) as Hmin.
  rewrite land_7. destruct (Z.eqb_spec (nb mod 8) 0) as [Hmod|Hmod]; cbn [negb].
  2: { wp_step. apply decides_reject; [done|]. intros c'' H. by apply Hiff in H as [(_&_&?&_) _]. }
  unfold sizeof_MojomStructHeader in Hmin.
  pose proof (struct_slots_ok E d ver t nb Hdwf Hsz ltac:(lia)) as Hok.
  pose proof (slots_ok_lo _ lo _ _ Hok ltac:(lia)) as Hok'.
  wp_step. wp_step. wp_step.
  eapply wp_mono; [apply (struct_loop dispatch k t ver (sd_entries d)); try done|].
  - lia.
  - eapply slots_end_lim; [exact Hok'|lia|lia|exact Hok].
  - cbn [set_next_pointer next_pointer]. lia.
  - intros r c' Hr. wp_step. eapply decides_iff; [|exact Hr].
    intros c''. rewrite Hiff. unfold sizeof_MojomStructHeader. split; [by intros [_ ?]|].
    intros H. split; [|done]. repeat split; try done; lia.
Qed.

(** An encoded array at [t]: what follows its pointer. *)
Definition valid_array (p : descptr) (t : Z) (c c' : MojomValidationContext) : Prop :=
  exists d nb n, array_desc E p = Ok d /\ load32 m t = Ok nb /\ load32 m (t + 4) = Ok n /\
    t + nb <= lim /\ array_header_ok d nb n /\
    valids (array_slots d t n) (set_next_pointer (t + nb) c) c'.

Lemma array_spec fuel dispatch k p t d c :
  dispatch_spec k dispatch -> array_desc E p = Ok d -> lo <= t <= lim ->
  (8 <= lim - t -> lim - t - 8 + 2 <= Z.of_nat k) ->
  (8 <= lim - t -> lim - t - 8 < Z.of_nat fuel) ->
  wp (MojomArray_Validate E m fuel dispatch p t (lim - t) nh) c (decides (valid_array p t c)).
Proof.
  intros Hdisp Hd Ht Hk Hfuel. unfold MojomArray_Validate.
  pose proof (array_desc_wf E p d HE Hd) as Hdwf.
  wp_step. apply wp_assert; [by eapply array_desc_non_null|].
  wp_step. apply wp_assert; [apply non_null_pos; lia|].
  wp_step. eapply wp_lift; [exact Hd|].
  pose proof Hdwf as Hdwf'. unfold array_wf in Hdwf'. bool_facts.
  destruct (array_header_code d m t (lim - t)) as (r & Hr & Hiff); [done| |].
  { eapply mapped_weaken; [exact Hm|lia..]. }
  wp_step. eapply wp_lift; [exact Hr|]. unfold is_none_result.
  destruct (Z.eqb_spec r MOJOM_VALIDATION_ERROR_NONE) as [Hnone|Hne]; cbn [negb].
  2: { wp_step. apply decides_reject; [done|].
       intros c'' (d' & nb & n & Hd' & Hnb & Hn & Hlim' & Hh & _). apply Hne, Hiff.
       assert (d' = d) as -> by congruence. exists nb, n. repeat split; try done; [lia|apply Hh..]. }
  apply Hiff in Hnone as (nb & n & Hnb & Hn & Hle & Hh).
  wp_step. eapply wp_lift; [exact Hnb|]. wp_step. wp_step.
  pose proof (load_range _ _ _ _ Hn) as Hnr. pose proof Hh as (Hmin&_&_).
  assert (Hval : forall c'', valid_array p t c c'' <->
    valids (array_slots d t n) (set_next_pointer (t + nb) c) c'').
  { intros c''. split.
    - intros (d' & nb' & n' & Hd' & Hnb' & Hn' & _ & _ & Hv).
      by assert (d' = d /\ nb' = nb /\ n' = n) as (-> & -> & ->) by (split; [|split]; congruence).
    - intros Hv. exists d, nb, n. repeat split; try done; [lia|apply Hh..]. }
  pose proof (array_slots_ok E d nb n t Hdwf Hh ltac:(lia) ltac:(lia)) as Hok.
  pose proof (slots_ok_lo _ lo _ _ Hok ltac:(lia)) as Hok'.
  pose proof (slots_end_lim _ _ Hok' ltac:(lia) t ltac:(lia) Hok) as Hends.
  unfold array_slots in Hval, Hok', Hends. destruct (is_pod (ad_elem_type d)) eqn:Hpod.
  { wp_step. apply decides_accept; [apply Hval; by apply valids_nil|].
    intros c''. rewrite Hval. by rewrite valids_nil. }
  assert (Hn8 : 8 * n <= 8 * (nb - 8)).
  { destruct Hh as (_&_&Hh). unfold sizeof_MojomArrayHeader in *.
    assert (32 <= ad_elem_num_bits d).
    { assert (4 <= elem_size (ad_elem_type d)); [|lia].
      clear -Hpod H. unfold is_union_ptr, is_pod in *. destruct (ad_elem_type d); done. }
    assert (32 * n <= ad_elem_num_bits d * n) by nia. lia. }
  wp_step. eapply wp_mono.
  { apply (array_loop dispatch k t n d fuel (Z.to_nat n) 0); try done; try lia.
    cbn [set_next_pointer next_pointer]. unfold sizeof_MojomArrayHeader in *. lia. }
  intros r' c' Hr'. wp_step. eapply decides_iff; [|exact Hr']. exact Hval.
Qed.

(** ** Unions *)

Lemma active_entry_cons e es tag :
  active_entry (e :: es) tag =
    if decide (tag = ue_tag e) then (if is_pod (ue_elem_type e) then None else Some e)
    else active_entry es tag.
Proof.
  unfold active_entry. cbn [list_find]. case_decide; [done|].
  by destruct (list_find _ es) as [[i e']|].
Qed.

(** What a present union asks of its active field. *)
Definition valid_active (nullable : bool) (u sz : Z) (o : option MojomTypeDescriptorUnionEntry)
    (c c' : MojomValidationContext) : Prop :=
  match o with
  | None => c' = c
  | Some e => (nullable = true \/ sz = sizeof_MojomUnionLayout) /\
              valid (union_entry_slot u e) c c'
  end.

Lemma valid_union_iff s sz tag d c c' :
  s_type s = MOJOM_TYPE_DESCRIPTOR_TYPE_UNION -> load32 m (s_addr s) = Ok sz -> sz <> 0 ->
  load32 m (s_addr s + 4) = Ok tag -> union_desc E (s_desc s) = Ok d ->
  valid s c c' <->
  valid_active (s_nullable s) (s_addr s) sz (active_entry (ud_entries d) tag) c c'.
Proof.
  intros Hty Hsz Hsz0 Htag Hd. split.
  - intros (evs & Hl & Hh).
    inversion Hl as [? ? Ho | ? ? ? ? ? ? ? ? ? Ho | ? ? ? ? ? ? ? ? ? Ho | | ? ? d' sz' tag' _ Hsz' _ Hd' Htag' Ha
      | ? ? ? ? d' sz' tag' e _ Hsz' _ Hn Hd' Htag' Ha Hl' | ? ? Ho];
      subst; rewrite ?Hty in *; try done; try congruence.
    + assert (d' = d /\ tag' = tag) as [-> ->] by (split; congruence).
      rewrite Ha. simpl. inversion Hh; subst. by apply context_eq.
    + assert (d' = d /\ tag' = tag /\ sz' = sz) as (-> & -> & ->) by (repeat split; congruence).
      rewrite Ha. simpl. split; [done|]. by exists evs.
    + by destruct Ho.
  - unfold valid_active. destruct (active_entry _ tag) as [e|] eqn:Ha.
    + intros (Hn & evs & Hl & Hh). exists evs. split; [|done]. by eapply lay_union_active.
    + intros ->. exists []. split; [by eapply lay_union_inactive|constructor].
Qed.

Lemma valid_null_union_iff s c c' :
  s_type s = MOJOM_TYPE_DESCRIPTOR_TYPE_UNION -> load32 m (s_addr s) = Ok 0 ->
  valid s c c' <-> s_nullable s = true /\ c' = c.
Proof.
  intros Hty Hsz. split.
  - intros (evs & Hl & Hh).
    inversion Hl; subst; rewrite ?Hty in *; try done; try congruence.
    1: inversion Hh; subst; split; [done|by apply context_eq].
    match goal with H : _ \/ _ |- _ => by destruct H end.
  - intros [Hn ->]. exists []. split; [by apply lay_union_null|constructor].
Qed.

Lemma union_loop dispatch k nullable u sz tag es c :
  dispatch_spec k dispatch -> load32 m u = Ok sz -> load32 m (u + 4) = Ok tag ->
  (forall e, active_entry es tag = Some e ->
     slot_pre (union_entry_slot u e) c /\ need (union_entry_slot u e) c <= Z.of_nat k) ->
  lim - (u + 8) < 2 ^ 32 -> u + 16 <= lim ->
  wp (for_each es (fun entry =>
        tag ← lift (load32 m (u + 4));
        if negb (tag =? ue_tag entry) then mret None
        else if is_pod (ue_elem_type entry) then mret (Some MOJOM_VALIDATION_ERROR_NONE)
        else
          size ← lift (load32 m u);
          if negb nullable && negb (size =? sizeof_MojomUnionLayout) then
            mret (Some MOJOM_VALIDATION_UNEXPECTED_NULL_UNION)
          else
            result ← dispatch (ue_elem_type entry) (ue_elem_descriptor entry)
              (ue_nullable entry) (u + offsetof_union_data)
              (wrap32 (lim - u - offsetof_union_data)) nh;
            mret (Some result))) c
    (fun r c' => decides (valid_active nullable u sz (active_entry es tag) c)
       (default MOJOM_VALIDATION_ERROR_NONE r) c').
Proof.
  intros Hd Hsz Htag Hpre Hw Hend. induction es as [|e es IH].
  - by apply (decides_accept (valid_active nullable u sz None c)).
  - rewrite active_entry_cons in *. cbn [for_each].
    apply wp_bind, wp_bind. eapply wp_lift; [exact Htag|].
    destruct (Z.eqb_spec tag (ue_tag e)) as [Heq|Hne]; cbn [negb].
    2: { rewrite decide_False in * by done. wp_step. by apply IH. }
    rewrite decide_True in * by done.
    destruct (is_pod (ue_elem_type e)) eqn:Hpod.
    { wp_step. wp_step. by apply (decides_accept (valid_active nullable u sz None c)). }
    specialize (Hpre e eq_refl) as [Hpre Hneed].
    wp_step. eapply wp_lift; [exact Hsz|].
    destruct (negb nullable && negb (sz =? sizeof_MojomUnionLayout)) eqn:Hnull.
    { wp_step. wp_step. apply decides_reject; [done|]. bool_facts.
      intros c'' [[?|?] _]; [congruence|done]. }
    assert (Hn : nullable = true \/ sz = sizeof_MojomUnionLayout).
    { destruct nullable; [by left|right]. cbn in Hnull. bool_facts. done. }
    specialize (Hd _ _ Hpre Hneed). cbn [union_entry_slot s_type s_desc s_nullable s_addr] in Hd.
    unfold offsetof_union_data in *. rewrite wrap32_small by lia.
    replace (lim - u - 8) with (lim - (u + 8)) by lia.
    wp_step. eapply wp_mono; [exact Hd|]. intros r c' Hr. repeat wp_step.
    eapply decides_iff; [|exact Hr]. intros c''. cbn. unfold offsetof_union_data. tauto.
Qed.

Lemma union_spec dispatch k s c :
  dispatch_spec k dispatch -> slot_pre s c -> need s c <= Z.of_nat (S k) ->
  s_type s = MOJOM_TYPE_DESCRIPTOR_TYPE_UNION ->
  wp (validate_union_case E m dispatch (s_desc s) (s_nullable s) (s_addr s) (s_addr s)
        (lim - s_addr s) nh) c (decides (valid s c)).
Proof.
  intros Hd Hpre Hneed Hty. pose proof Hpre as (Hwf & Hlo' & Hend & Hnp).
  pose proof Hwf as (_&_&Hdm&_). rewrite Hty in Hdm. cbn in Hdm.
  assert (Hse : slot_end s = s_addr s + 16) by (unfold slot_end; by rewrite Hty).
  destruct (load_in 4 (s_addr s)) as (sz & Hsz & _); [lia|lia|].
  destruct (load_in 4 (s_addr s + 4)) as (tag & Htag & _); [lia|lia|].
  unfold validate_union_case. wp_step. eapply wp_lift; [exact Hsz|].
  destruct (union_desc E (s_desc s)) as [d| | |] eqn:Hdesc; try done.
  destruct (Z.eqb_spec sz 0) as [->|Hsz0].
  { wp_step. destruct (s_nullable s) eqn:Hn.
    - apply decides_accept; [by apply (valid_null_union_iff s)|].
      intros c'' Hv. by apply (valid_null_union_iff s) in Hv as [_ ?].
    - apply decides_reject; [done|]. intros c'' Hv.
      apply (valid_null_union_iff s) in Hv as [? _]; congruence. }
  unfold MojomUnion_Validate. rewrite Z.sub_diag, Z.sub_0_r. rewrite (wrap32_small (lim - _)) by lia.
  wp_step. eapply wp_lift; [exact Hdesc|].
  wp_step. eapply wp_mono; [eapply (union_loop dispatch k)|]; try done; try lia.
  - intros e He.
    destruct (active_entry_slot_wf E HE Hnu _ d tag e (s_addr s) Hdesc He ltac:(lia)) as (Hwf' & Hend' & Hnu').
    unfold slot_pre. split.
    + split; [done|]. cbn [union_entry_slot s_addr]. unfold offsetof_union_data. lia.
    + unfold need in *. rewrite Hty in Hneed. cbn [union_entry_slot s_type] in *.
      replace (is_union (ue_elem_type e)) with false; [simpl in Hneed; lia|].
      symmetry. by apply bool_decide_eq_false.
  - intros r c' Hr. wp_step. eapply decides_iff; [|exact Hr].
    intros c''. by apply valid_union_iff.
Qed.

(** ** Maps *)

(** The code's two loads find the element count of an array slot. *)
Lemma map_count_code s np np' evs t k :
  lay E Encoded m lim s np np' evs -> s_type s = MOJOM_TYPE_DESCRIPTOR_TYPE_ARRAY_PTR ->
  slot_wf E s -> slot_end s <= np -> np' <= lim -> s_addr s = t + k -> lo <= t -> 0 <= k ->
  exists off n, load64 m (t + k) = Ok off /\ map_count Encoded m (t + k) = Ok n /\
    load32 m (wrap64 (t + wrap64 (k + off)) + 4) = Ok n.
Proof.
  intros Hl Hty Hwf Hend Hnp' Ha Ht Hk. rewrite <- Ha.
  assert (slot_end s = s_addr s + 8) by (unfold slot_end; by rewrite Hty).
  pose proof (proj1 (lay_bounds E HE Hnu Encoded m lim) _ _ _ _ Hl Hwf Hend) as (?&_).
  destruct (array_ptr_header E HE Hnu Encoded m lim s np np' evs Hl Hty Hwf Hend)
    as [Hz | (off & Hv & Hv0 & Hb & Hb' & Hlt)].
  - exists 0, 0. unfold map_count. rewrite Hz. repeat split.
    rewrite Z.add_0_r, (wrap64_small k), wrap64_small by lia.
    rewrite <- Ha. by apply (load64_high _ _ _ Hz).
  - cbn [target] in *. pose proof (load_range _ _ _ _ Hv).
    destruct (load_in 4 (s_addr s + off + 4)) as (n & Hn & _); [lia|lia|].
    exists off, n. unfold map_count. rewrite Hv. cbn.
    destruct (Z.eqb_spec off 0); [done|]. split; [done|]. split; [done|].
    rewrite (wrap64_small (k + off)), wrap64_small by lia.
    by replace (t + (k + off)) with (s_addr s + off) by lia.
Qed.

Lemma map_spec d t ver np np' evs c :
  is_map_desc d = true -> 0 <= ver -> lo <= t ->
  slots_ok E (t + 8) np (struct_slots (sd_entries d) ver t) ->
  lays E Encoded m lim (struct_slots (sd_entries d) ver t) np np' evs -> np' <= lim ->
  wp (MojomMap_Validate m t) c (fun r c' => c' = c /\
    (r = MOJOM_VALIDATION_ERROR_NONE <->
     exists n, map_count Encoded m (t + 8) = Ok n /\ map_count Encoded m (t + 16) = Ok n)).
Proof.
  intros Hmap Hver Ht Hok Hl Hnp'. unfold is_map_desc in Hmap.
  apply andb_true_iff in Hmap as [Hk Hv].
  destruct (map_slots d ver t 0 Hk Hver) as (s1 & Hs1 & Ht1 & Ha1).
  destruct (map_slots d ver t 8 Hv Hver) as (s2 & Hs2 & Ht2 & Ha2).
  destruct (lays_elem E HE Hnu _ _ _ _ _ _ _ _ _ Hl Hok Hs1) as (a1 & b1 & e1 & Hl1 & ? & ? & Hwf1 & ? & Hend1).
  destruct (lays_elem E HE Hnu _ _ _ _ _ _ _ _ _ Hl Hok Hs2) as (a2 & b2 & e2 & Hl2 & ? & ? & Hwf2 & ? & Hend2).
  destruct (map_count_code s1 a1 b1 e1 t 8 Hl1 Ht1 Hwf1) as (o1 & n1 & Ho1 & Hn1 & Hc1); try lia.
  destruct (map_count_code s2 a2 b2 e2 t 16 Hl2 Ht2 Hwf2) as (o2 & n2 & Ho2 & Hn2 & Hc2); try lia.
  unfold MojomMap_Validate. wp_step. eapply wp_lift; [exact Ho1|].
  wp_step. eapply wp_lift; [exact Ho2|]. wp_step. eapply wp_lift; [exact Hc1|].
  wp_step. eapply wp_lift; [exact Hc2|]. rewrite Hn1, Hn2.
  destruct (Z.eqb_spec n1 n2) as [->|Hne]; cbn [negb]; wp_step.
  - split; [done|]. split; [by exists n2|done].
  - split; [done|]. split; [done|]. intros (n & [= ->] & [= ->]). done.
Qed.

(** ** Pointers *)

(** What a pointer slot asks of the object its offset leads to. *)
Definition valid_target (s : slot) (t : Z) (c c' : MojomValidationContext) : Prop :=
  if is_struct_ptr (s_type s) then
    valid_message E m lim nh (s_desc s) t c c' /\
    (s_type s = MOJOM_TYPE_DESCRIPTOR_TYPE_MAP_PTR ->
     exists n, map_count Encoded m (t + 8) = Ok n /\ map_count Encoded m (t + 16) = Ok n)
  else valid_array (s_desc s) t c c'.

Lemma valid_pointer_iff s off c c' :
  is_object_ptr (s_type s) = true -> load64 m (s_addr s) = Ok off ->
  valid s c c' <->
    (off = 0 /\ s_nullable s = true /\ c' = c) \/
    (off <> 0 /\ pointer_ok lim (next_pointer c) (s_addr s) (s_addr s + off) /\
     valid_target s (s_addr s + off) c c').
Proof.
  intros Hty Hoff. unfold valid_target. split.
  - intros (evs & Hl & Hh).
    inversion Hl as [? ? _ Hn Hv | ? ? ? ? v t d nb ver Hst Hv Hv0 Ht Hp Hd Hnb Hver Hmin Hlim' Hmod Hsz Hls Hmap
      | ? ? ? ? v t d nb n Hat Hv Hv0 Ht Hp Hd Hnb Hn Hlim' Hah Hls | ? ? Hu | ? ? ? ? ? Hu
      | ? ? ? ? ? ? ? ? Hu | ? ? Hu]; subst.
    4-7: exfalso; clear -Hty Hu; destruct (s_type s); try done; by destruct Hu.
    + left. assert (off = 0) by congruence. inversion Hh as [|? ? ? ? Hh'| |]; subst.
      inversion Hh'; subst. split; [done|]. split; [done|]. by apply context_eq.
    + right. assert (v = off) as -> by congruence. inversion Hh; subst.
      split; [done|]. split; [done|]. rewrite Hst. split; [|done].
      eexists. split; [|done]. exists d, nb, ver. done.
    + right. assert (v = off) as -> by congruence. inversion Hh; subst.
      split; [done|]. split; [done|]. rewrite Hat. cbn.
      exists d, nb, n. repeat split; try done; try apply Hah. eexists. done.
  - intros [(-> & Hn & ->) | (Hoff0 & Hp & Ht)].
    + exists [EPtr (s_addr s)]. split; [by apply lay_null|]. repeat constructor.
    + destruct (is_struct_ptr (s_type s)) eqn:Hst.
      * destruct Ht as ((evs & (d & nb & ver & ? & ? & ? & ? & ? & ? & ? & Hls) & Hh) & Hmap).
        exists (EPtr (s_addr s) :: evs). split; [by eapply lay_struct|by constructor].
      * destruct Ht as (d & nb & n & ? & ? & ? & ? & ? & evs & Hls & Hh).
        exists (EPtr (s_addr s) :: evs). split; [|by constructor].
        eapply lay_array; try done. unfold is_object_ptr in Hty. rewrite Hst in Hty.
        by apply bool_decide_eq_true in Hty.
Qed.

Lemma pointer_check_none np a off nullable :
  0 <= off -> a < lim ->
  pointer_check np a off (lim - a) nullable = MOJOM_VALIDATION_ERROR_NONE <->
    (off = 0 /\ nullable = true) \/ (off <> 0 /\ pointer_ok lim np a (a + off)).
Proof.
  intros Hoff Ha. unfold pointer_check, pointer_ok. replace (a + off - a) with off by lia.
  destruct (Z.ltb_spec (lim - a) off); [split; [done|lia]|].
  destruct (Z.eqb_spec off 0) as [->|Hnz]; cbn [negb andb].
  - cbn. destruct nullable; cbn; split; try done; [auto|intros [[_ ?]|[? _]]; done].
  - destruct (Z.ltb_spec (a + off) np); [split; [done|lia]|].
    rewrite andb_false_r. destruct (Z.eqb_spec (off mod 8) 0); cbn; split; try done; lia.
Qed.

Lemma valid_target_next s t c c' p : valid_target s t (set_next_pointer p c) c' <-> valid_target s t c c'.
Proof. done. Qed.

Lemma message_lim p t c c' :
  valid_message E m lim nh p t c c' -> 0 < t -> next_pointer c' <= lim.
Proof.
  intros (evs & (d & nb & ver & Hd & _ & _ & _ & Hb & _ & Hsz & Hl) & _) Ht.
  pose proof (struct_slots_ok E d ver t nb (struct_desc_wf E p d HE Hd) Hsz Ht) as Hok.
  pose proof (proj2 (lay_bounds E HE Hnu Encoded m lim) _ _ _ _ Hl _ Hok) as (?&?&_). lia.
Qed.

Lemma pointer_dispatch dispatch k s c :
  dispatch_spec k dispatch -> slot_pre s c -> need s c <= Z.of_nat (S k) ->
  is_object_ptr (s_type s) = true ->
  wp (result ← validate_pointer m (s_addr s) (lim - s_addr s) (s_nullable s);
      offset ← lift (load64 m (s_addr s));
      if negb (is_none_result result) || (offset =? 0) then mret result
      else if is_struct_ptr (s_type s) then
        result ← MojomStruct_Validate E m dispatch (s_desc s) (wrap64 (s_addr s + offset))
          (wrap32 (lim - s_addr s - offset)) nh;
        if is_none_result result &&
           bool_decide (s_type s = MOJOM_TYPE_DESCRIPTOR_TYPE_MAP_PTR) then
          MojomMap_Validate m (wrap64 (s_addr s + offset))
        else mret result
      else
        MojomArray_Validate E m k dispatch (s_desc s) (wrap64 (s_addr s + offset))
          (wrap32 (lim - s_addr s - offset)) nh) c (decides (valid s c)).
Proof.
  intros Hdisp (Hwf & Hlo' & Hend & Hnp) Hneed Hty.
  pose proof (object_ptr_size s Hty) as Hse. pose proof Hwf as (_&_&Hdm&_).
  destruct (load_in 8 (s_addr s)) as (off & Hoff & Hoffr); [lia|lia|].
  pose proof (fun c' => valid_pointer_iff s off c c' Hty Hoff) as Hiff.
  pose proof (pointer_check_none (next_pointer c) (s_addr s) off (s_nullable s) ltac:(lia) ltac:(lia)) as Hpc.
  assert (Hneed' : Z.max 0 (lim - next_pointer c) <= Z.of_nat k).
  { unfold need in Hneed. destruct (is_union _); lia. }
  wp_step. unfold wp at 1. rewrite (validate_pointer_eq m _ off) by (done || lia).
  wp_step. eapply wp_lift; [exact Hoff|]. unfold is_none_result at 1.
  destruct (Z.eqb_spec (pointer_check (next_pointer c) (s_addr s) off (lim - s_addr s) (s_nullable s))
    MOJOM_VALIDATION_ERROR_NONE) as [Hnone|Hne]; cbn [negb orb].
  2: { wp_step. apply decides_reject; [done|]. intros c' Hcv. apply Hiff in Hcv. tauto. }
  rewrite Hnone. apply Hpc in Hnone.
  destruct (Z.eqb_spec off 0) as [->|Hoff0].
  { wp_step. destruct Hnone as [[_ Hn]|[? _]]; [|done].
    unfold pointer_next. rewrite andb_false_r. destruct c as [h np].
    apply decides_accept; [apply Hiff; by left|].
    intros c' Hcv. apply Hiff in Hcv as [(_&_&?)|[? _]]; done. }
  destruct Hnone as [[? _]|[_ Hp]]; [done|]. pose proof Hp as (?&?&?&_).
  set (t := s_addr s + off) in *. rewrite (wrap64_small t), wrap32_small by lia.
  replace (lim - s_addr s - off) with (lim - t) by lia.
  assert (Hiff' : forall c', valid s c c' <-> valid_target s t c c').
  { intros c'. rewrite Hiff. tauto. }
  set (c1 := set_next_pointer _ c).
  destruct (is_struct_ptr (s_type s)) eqn:Hst.
  - assert (exists d, struct_desc E (s_desc s) = Ok d /\
      (s_type s = MOJOM_TYPE_DESCRIPTOR_TYPE_MAP_PTR -> is_map_desc d = true)) as (d & Hd & Hmapd).
    { clear -Hst Hdm. destruct (s_type s); try done; cbn in Hdm;
        destruct (struct_desc E (s_desc s)); try done; by eexists. }
    wp_step. eapply wp_mono; [apply (struct_spec dispatch k _ t d c1); [done|done|lia|lia]|].
    intros r c2 Hr. unfold is_none_result.
    destruct (Z.eqb_spec r MOJOM_VALIDATION_ERROR_NONE) as [->|Hne]; cbn [andb].
    2: { wp_step. apply decides_reject; [done|]. intros c' Hcv. apply Hiff' in Hcv.
         unfold valid_target in Hcv. rewrite Hst in Hcv. destruct Hcv as [Hcv _].
         by apply Hr in Hcv as [? _]. }
    assert (Hv : valid_message E m lim nh (s_desc s) t c1 c2) by by apply Hr.
    destruct (bool_decide_reflect (s_type s = MOJOM_TYPE_DESCRIPTOR_TYPE_MAP_PTR)) as [Hmp|Hmp].
    + pose proof (message_lim _ _ _ _ Hv ltac:(lia)) as Hl2.
      destruct Hv as (evs & (d' & nb & ver & Hd' & Hnb & Hver & Hmin & Hb & _ & Hsz & Hl) & _).
      assert (d' = d) as -> by congruence. pose proof (load_range _ _ _ _ Hver).
      pose proof (struct_slots_ok E d ver t nb (struct_desc_wf E _ d HE Hd) Hsz ltac:(lia)) as Hok.
      eapply wp_mono; [eapply (map_spec d t ver); try done; auto; lia|].
      intros r c3 [-> Hr3] c'. rewrite Hiff'. unfold valid_target. rewrite Hst, Hr3.
      specialize (Hr c'). change (valid_message E m lim nh (s_desc s) t c1 c') with
        (valid_message E m lim nh (s_desc s) t c c') in Hr. tauto.
    + wp_step. intros c'. rewrite Hiff'. unfold valid_target. rewrite Hst.
      specialize (Hr c'). change (valid_message E m lim nh (s_desc s) t c1 c') with
        (valid_message E m lim nh (s_desc s) t c c') in Hr. tauto.
  - assert (exists d, array_desc E (s_desc s) = Ok d) as (d & Hd).
    { clear -Hst Hty Hdm. destruct (s_type s); try done; cbn in Hdm;
        destruct (array_desc E (s_desc s)); try done; by eexists. }
    eapply wp_mono; [apply (array_spec k dispatch k _ t d c1); [done|done|lia|lia|lia]|].
    intros r c2 Hr c'. rewrite Hiff'. unfold valid_target. rewrite Hst. apply Hr.
Qed.

(** ** The dispatcher *)

Lemma handle_dispatch s c :
  slot_pre s c ->
  s_type s = MOJOM_TYPE_DESCRIPTOR_TYPE_HANDLE \/ s_type s = MOJOM_TYPE_DESCRIPTOR_TYPE_INTERFACE ->
  wp (handle ← lift (load32 m (s_addr s)); validate_handle handle nh (s_nullable s)) c
    (decides (valid s c)).
Proof.
  intros (_ & Hlo' & Hend & _) Hty.
  assert (s_addr s + 4 <= slot_end s) by
    (unfold slot_end; by destruct Hty as [-> | ->]; unfold elem_size, sizeof_MojoHandle, sizeof_MojomInterfaceData; lia).
  destruct (load_in 4 (s_addr s)) as (e & He & Her); [lia|lia|].
  wp_step. eapply wp_lift; [exact He|]. unfold wp. rewrite validate_handle_eq by lia.
  assert (Hiff : forall c', valid s c c' <->
    next_pointer c' = next_pointer c /\
    handles_ok m nh (next_handle_index c) [EHandle (s_addr s) (s_nullable s)] (next_handle_index c')).
  { intros c'. split.
    - intros (evs & Hl & Hh). inversion Hl as [? ? Ho|? ? ? ? ? ? ? ? ? Ho|? ? ? ? ? ? ? ? ? Ho|? ? Ho|? ? ? ? ? Ho|? ? ? ? ? ? ? ? Ho|]; subst.
      1-6: exfalso; clear -Hty Ho; destruct Hty as [Hty|Hty]; by rewrite Hty in Ho.
      done.
    - intros [Hn Hh]. eexists. split; [|exact Hh]. rewrite Hn. by apply lay_handle. }
  destruct c as [h np]. cbn [next_handle_index next_pointer] in *.
  unfold handle_check, handle_next, set_next_handle_index; cbn [next_pointer].
  destruct (Z.eqb_spec e kEncodedHandleInvalid) as [->|Hne]; cbn [negb andb].
  { destruct (s_nullable s) eqn:Hn.
    - apply decides_accept.
      + apply Hiff. split; [done|]. apply handles_null; [done|constructor].
      + intros c' Hv. apply Hiff in Hv as [? Hv]. apply context_eq; [done|].
        by apply handles_one in Hv as [(_ & _ & ->) | (e & ? & ? & _)]; [|congruence].
    - apply decides_reject; [done|]. intros c' Hv. apply Hiff in Hv as [_ Hv].
      apply handles_one in Hv as [(? & _) | (e & ? & ? & _)]; congruence. }
  destruct (Z.leb_spec nh e), (Z.ltb_spec e h); cbn [orb].
  1-3: apply decides_reject; [done|]; intros c' Hv; apply Hiff in Hv as [_ Hv];
    apply handles_one in Hv as [(_ & ? & _) | (e' & ? & _ & ? & _)];
    [congruence|assert (e' = e) by congruence; lia].
  rewrite (proj2 (Z.leb_le h e)), (proj2 (Z.ltb_lt e nh)) by lia. cbn [andb].
  apply decides_accept.
  - apply Hiff. split; [done|]. eapply handles_index; [done|done|lia|constructor].
  - intros c' Hv. apply Hiff in Hv as [? Hv]. apply context_eq; [done|]. cbn.
    apply handles_one in Hv as [(_ & ? & _) | (e' & ? & _ & _ & ->)]; [congruence|].
    by assert (e' = e) as -> by congruence.
Qed.

Lemma dispatch_ok k : dispatch_spec k (MojomType_DispatchValidate E m k).
Proof.
  induction k as [|k IH]; intros s c Hpre Hneed.
  { unfold need in Hneed. destruct (is_union _); lia. }
  pose proof Hpre as ((Hpod & Hup & _ & Hpos) & _).
  cbn [MojomType_DispatchValidate]. wp_step. apply wp_assert; [by apply non_null_pos|].
  pose proof (pointer_dispatch _ k s c IH Hpre Hneed) as Hptr.
  pose proof (handle_dispatch s c Hpre) as Hh.
  pose proof (union_spec _ k s c IH Hpre Hneed) as Hu.
  destruct (s_type s) eqn:Hty; try done.
  - by apply Hptr.
  - by apply Hptr.
  - by apply Hptr.
  - by apply Hu.
  - apply Hh. by left.
  - apply Hh. by right.
Qed.
End Recursion.
