(* ===== verification/ValidateSpec.v ===== *)
(** What validation guarantees: the theorems about the validator, its leaves,
    and the out-of-line union case where the guarantee fails. *)
From stdpp Require Import base numbers list option gmap.
From coqutil Require Import Byte.
From Stdlib Require Import ZArith Lia Sorting.Sorted.
From S2P Require Import Prelude CMem Buffer Descriptor Validate Layout LayoutFacts ValidateFacts.

(** A message received from a peer: its type, the [size] bytes at [t] that hold
    it, and the number of handles that came with it. Nothing is assumed of the
    bytes. *)
Record received (E : denv) (m : mem) (p : descptr) (t size nh : Z) : Prop := {
  rv_env : env_wf E = true;
  rv_flat : no_union_ptr E = true;
  rv_desc : exists d, struct_desc E p = Ok d;
  rv_addr : 0 < t /\ t + size < 2 ^ 64;
  rv_size : 0 <= size < 2 ^ 32;
  rv_mapped : mapped m t (t + size);
  rv_handles : 0 <= nh < 2 ^ 32;
}.

(** Enough fuel for any message of that size: its number of bytes, and two. *)
Definition enough_fuel (fuel : nat) (size : Z) : Prop := size + 2 <= Z.of_nat fuel.

Section Received.
Context {E : denv} {m : mem} {p : descptr} {t size nh : Z}.
Context (R : received E m p t size nh).

Lemma validate_struct_decides fuel c :
  enough_fuel fuel size ->
  exists r c', validate_struct E m fuel p t size nh c = Ok (r, c') /\
    decides (valid_message E m (t + size) nh p t c) r c'.
Proof.
  intros Hf. unfold enough_fuel in Hf. destruct R as [HE Hnu [d Hd] Ha Hs Hm Hh].
  unfold validate_struct. apply wp_run.
  replace size with (t + size - t) at 1 by lia.
  apply (struct_spec E HE Hnu m t (t + size) nh) with (k := fuel) (d := d); try lia; try done.
  apply dispatch_ok; try lia; done.
Qed.

Lemma lay_top_events f lim np' evs d :
  struct_desc E p = Ok d -> 0 < t -> lay_top E f m lim p t np' evs ->
  t + 8 <= np' <= lim /\ events_in (range (t + 8) np') evs /\ events_disjoint evs.
Proof.
  intros Hd Ht (d' & nb & ver & Hd' & _ & _ & Hmin & Hlim & _ & Hsz & Hl).
  pose proof (rv_env _ _ _ _ _ _ R) as HE. pose proof (rv_flat _ _ _ _ _ _ R) as Hnu.
  pose proof (struct_slots_ok E d' ver t nb (struct_desc_wf E p d' HE Hd') Hsz Ht) as Hok.
  pose proof (proj2 (lay_bounds E HE Hnu f m lim) _ _ _ _ Hl _ Hok) as (Hle&Hle'&Hin&Hdis).
  unfold sizeof_MojomStructHeader in *.
  split; [lia|]. split; [|done]. eapply events_in_weaken; [exact Hin|].
  intros a Ha. apply (fp_object _ _ _ _ _ _ Hok) in Ha. unfold range. lia.
Qed.
End Received.

(** * Validation of untrusted messages *)

(** C1: validation is correct: it returns [MOJOM_VALIDATION_ERROR_NONE] exactly
    on the messages of the wire format - those that hold, for the receiver's
    type, an encoded object graph laid out in traversal order inside the buffer,
    with handle indices in increasing order - and then the context records the
    end of the graph and the next free handle index. *)
Theorem Validate_accepts_wire_format E m p t size nh fuel c
    (R : received E m p t size nh) (Hfuel : enough_fuel fuel size) :
  exists r c', validate_struct E m fuel p t size nh c = Ok (r, c') /\
    (r = MOJOM_VALIDATION_ERROR_NONE <->
     exists evs np' h', lay_top E Encoded m (t + size) p t np' evs /\
       handles_ok m nh (next_handle_index c) evs h') /\
    (r = MOJOM_VALIDATION_ERROR_NONE ->
     exists evs, lay_top E Encoded m (t + size) p t (next_pointer c') evs /\
       handles_ok m nh (next_handle_index c) evs (next_handle_index c')).
Proof.
  destruct (validate_struct_decides R fuel c Hfuel) as (r & c' & H & Hd).
  exists r, c'. split; [done|]. split.
  - split.
    + intros Hr. destruct (proj2 (Hd c') ltac:(done)) as (evs & Hl & Hh). eauto.
    + intros (evs & np' & h' & Hl & Hh).
      destruct (Hd {| next_handle_index := h'; next_pointer := np' |}) as [Hd' _].
      apply Hd'. by exists evs.
  - intros Hr. by apply Hd.
Qed.

(** C2: An accepted message has no aliasing: the pointer and handle slots that the traversal
    meets are pairwise disjoint and lie between the header of the root struct and the new
    [next_pointer], which is inside the buffer; and the indices of its handles are those of
    handles that came with the message, in increasing order, so that no handle is used
    twice, and none that an earlier message used. *)
Theorem Validate_no_sharing E m p t size nh fuel c c'
    (R : received E m p t size nh) (Hfuel : enough_fuel fuel size)
    (Hr : validate_struct E m fuel p t size nh c = Ok (MOJOM_VALIDATION_ERROR_NONE, c')) :
  t + 8 <= next_pointer c' <= t + size /\
  next_handle_index c <= next_handle_index c' /\
  (next_handle_index c' = next_handle_index c \/ next_handle_index c' <= nh) /\
  exists evs, lay_top E Encoded m (t + size) p t (next_pointer c') evs /\
    events_in (range (t + 8) (next_pointer c')) evs /\ events_disjoint evs /\
    Forall (fun i => next_handle_index c <= i < nh) (taken m evs) /\ StronglySorted Z.lt (taken m evs).
Proof.
  destruct (validate_struct_decides R fuel c Hfuel) as (r & c1 & H & Hd).
  rewrite Hr in H. injection H as <- <-.
  destruct (proj2 (Hd c') ltac:(done)) as (evs & Hl & Hh).
  destruct (rv_desc _ _ _ _ _ _ R) as [d Hdesc]. destruct (rv_addr _ _ _ _ _ _ R) as [Ht _].
  destruct (lay_top_events R Encoded _ _ _ d Hdesc Ht Hl) as (?&?&?).
  destruct (handles_ok_mono _ _ _ _ _ Hh). destruct (taken_increasing _ _ _ _ _ Hh). eauto 10.
Qed.

(** The wire format is unambiguous: at most one object graph, with one end
    and one list of pointer and handle slots in traversal order, is laid out at
    an address of a memory for a given type. *)
Theorem message_unambiguous E f m p t lim np1 evs1 np2 evs2
    (H1 : lay_top E f m lim p t np1 evs1) (H2 : lay_top E f m lim p t np2 evs2) :
  np1 = np2 /\ evs1 = evs2.
Proof. by destruct (lay_top_deterministic _ _ _ _ _ _ _ _ _ _ H2 H1). Qed.

(** * Leaves *)

(** [validate_pointer] classifies an offset in this order: past the end of
    the buffer, before the end of the objects already claimed, misaligned, null
    where null is not allowed; and it claims the target (moves [next_pointer])
    exactly when the offset is in range and not backwards. *)
Theorem validate_pointer_classifies m a off max nullable c
    (Hoff : load64 m a = Ok off) (Ha : 0 < a) (Hmax : max < 2 ^ 32) (Hend : a + max < 2 ^ 64) :
  exists r c', validate_pointer m a max nullable c = Ok (r, c') /\
    (r = MOJOM_VALIDATION_ILLEGAL_POINTER <-> max < off) /\
    (r = MOJOM_VALIDATION_ILLEGAL_MEMORY_RANGE <->
       off <= max /\ off <> 0 /\ a + off < next_pointer c) /\
    (r = MOJOM_VALIDATION_ERROR_NONE <->
       (off = 0 /\ max >= 0 /\ nullable = true) \/
       (0 < off <= max /\ next_pointer c <= a + off /\ off mod 8 = 0)) /\
    (r = MOJOM_VALIDATION_ERROR_NONE -> off <> 0 -> next_pointer c' = a + off) /\
    next_handle_index c' = next_handle_index c /\ next_pointer c <= next_pointer c'.
Proof.
  pose proof (load_range _ _ _ _ Hoff).
  eexists _, _. split; [by apply validate_pointer_eq|].
  unfold pointer_check, pointer_next; cbn [set_next_pointer next_pointer next_handle_index].
  destruct (Z.ltb_spec max off).
  { rewrite (proj2 (Z.leb_gt off max)) by lia. cbn. repeat split; done || lia. }
  rewrite (proj2 (Z.leb_le off max)) by lia.
  destruct (Z.eqb_spec off 0) as [->|Hnz]; cbn [negb andb].
  { cbn. destruct nullable; cbn; repeat split; try done; try lia.
    all: try (intros [(_&_&?)|?]; [done|lia]). }
  destruct (Z.ltb_spec (a + off) (next_pointer c)).
  { rewrite (proj2 (Z.leb_gt (next_pointer c) (a + off))) by lia. repeat split; done || lia. }
  rewrite (proj2 (Z.leb_le (next_pointer c) (a + off))) by lia. rewrite andb_false_r.
  destruct (Z.eqb_spec (off mod 8) 0); cbn; repeat split; done || lia.
Qed.

(** The reverse scan in [is_valid_size_for_version] finds the newest known
    version not newer than the struct's (the first row when there is none), and
    the size test is then exact for a known version and a lower bound for an
    unknown one. *)
Theorem is_valid_size_for_version_spec d m t nb ver
    (Hvs : sd_versions d <> []) (Hnb : load32 m t = Ok nb) (Hver : load32 m (t + 4) = Ok ver) :
  exists i r b, seek_version (sd_versions d) ver (length (sd_versions d) - 1) = Ok i /\
    sd_versions d !! i = Some r /\
    (forall j r', (i < j)%nat -> sd_versions d !! j = Some r' -> ver < sv_version r') /\
    (i <> O -> sv_version r <= ver) /\
    is_valid_size_for_version m t (sd_versions d) = Ok b /\
    (b = true <-> if decide (ver = sv_version r) then nb = sv_num_bytes r else sv_num_bytes r <= nb).
Proof.
  destruct (seek_version_spec (sd_versions d) ver Hvs) as (i & Hi & Hrow).
  destruct (size_ok_code d m t nb ver Hvs Hnb Hver) as (b & Hb & Hsz).
  unfold size_ok in Hsz. destruct (row_for (sd_versions d) ver) as [r|] eqn:Hr.
  2: { by destruct (sd_versions d). }
  exists i, r, b. split; [done|]. split; [done|].
  destruct (seek_version_stops (sd_versions d) ver _ _ Hi) as [Hgt Hle].
  split; [|split; [|done]].
  - intros j r' Hj Hr'. apply (Hgt j r'); [|done].
    apply lookup_lt_Some in Hr'. lia.
  - intros Hi0. by apply Hle.
Qed.
