(* ===== verification/CodecFacts.v ===== *)
(** Encoding and decoding as a walk: on a well-formed graph both visit the
    pointer and handle slots of the layout relation, in its order, and do
    nothing else. The loops over fields and elements are treated once for both. *)
From stdpp Require Import base numbers list option gmap.
From coqutil Require Import Byte.
From Stdlib Require Import ZArith Lia.
From S2P Require Import Prelude CMem Buffer Descriptor Validate Layout LayoutFacts ValidateFacts Codec.

(** * Runs over a list of events *)

Section Run.
Context {X : Type} (step : event -> M (mem * X) unit).

(** [runs evs st st']: doing [step] for each event in turn leads from [st] to [st']. *)
Inductive runs : list event -> mem * X -> mem * X -> Prop :=
  | runs_nil st : runs [] st st
  | runs_cons e evs st st1 st' :
      step e st = Ok (tt, st1) -> runs evs st1 st' -> runs (e :: evs) st st'.

Lemma runs_app evs1 evs2 st st' :
  runs (evs1 ++ evs2) st st' <-> exists st1, runs evs1 st st1 /\ runs evs2 st1 st'.
Proof.
  revert st. induction evs1 as [|e evs1 IH]; intros st; simpl.
  - split; [intros H; exists st; split; [constructor|done]|].
    intros (st1 & H1 & H2). by inversion H1; subst.
  - split.
    + intros H. inversion H as [|? ? ? st1 ? He Hr]; subst. apply IH in Hr as (st2 & ? & ?).
      exists st2. split; [by econstructor|done].
    + intros (st2 & H1 & H2). inversion H1 as [|? ? ? st1 ? He Hr]; subst.
      econstructor; [done|]. apply IH. eauto.
Qed.

Lemma runs_cons_inv e evs st st' :
  runs (e :: evs) st st' -> exists st1, step e st = Ok (tt, st1) /\ runs evs st1 st'.
Proof. intros H. inversion H; subst. eauto. Qed.

(** A step writes no byte but those of its event. *)
Definition step_local : Prop := forall e st st1,
  step e st = Ok (tt, st1) -> agree (fun a => ~ event_bytes e a) st.1 st1.1.

Context (Hlocal : step_local).

Lemma runs_untouched evs st st' : runs evs st st' -> agree (untouched evs) st.1 st'.1.
Proof.
  induction 1 as [|e evs st st1 st' He Hr IH]; [done|]. etransitivity.
  - eapply agree_weaken; [by eapply Hlocal|]. intros a Ha. by inversion Ha.
  - eapply agree_weaken; [exact IH|]. intros a Ha. by inversion Ha.
Qed.

Lemma runs_outside P evs st st' :
  runs evs st st' -> events_in P evs -> agree (fun a => ~ P a) st.1 st'.1.
Proof.
  intros Hr Hin. eapply agree_weaken; [by apply runs_untouched|].
  intros a Ha. by eapply untouched_in.
Qed.
End Run.

Lemma fp_slot s l np np' a : s ∈ l -> slot_bytes s a -> fp l np np' a.
Proof. intros Hs Ha. left. apply Exists_exists. eauto. Qed.

(** The bytes of an array of pointers or handles bound its number of elements. *)
Lemma array_count_bound d nb n E :
  array_wf E d = true -> is_pod (ad_elem_type d) = false -> array_header_ok d nb n ->
  0 <= n -> n <= nb - 8.
Proof.
  intros Hwf Hpod (?&_&Hh) Hn. unfold sizeof_MojomArrayHeader in *.
  unfold array_wf in Hwf. bool_facts.
  assert (32 <= ad_elem_num_bits d).
  { assert (4 <= elem_size (ad_elem_type d)); [|lia].
    unfold is_union_ptr, is_pod in *. by destruct (ad_elem_type d). }
  assert (32 * n <= ad_elem_num_bits d * n) by nia. lia.
Qed.

(** * The loops shared by the encoder and the decoder

    What the functions of each object do after their assertions. *)

Section Loops.
Context (E : denv) {X : Type}.

Abbreviation dispatch_t :=
  (MojomTypeDescriptorType -> descptr -> bool -> Z -> Z -> M (mem * X) unit).

Definition fields_loop (dispatch : dispatch_t) (p : descptr) (t size : Z) : M (mem * X) unit :=
  d ← lift (struct_desc E p);
  for_each (R := unit) (sd_entries d) (fun entry =>
    version ← mload 4 (t + 4);
    if version <? se_min_version entry then mret None
    else
      assert_ (sizeof_MojomStructHeader + se_offset entry <? size);;
      let elem_data := t + sizeof_MojomStructHeader + se_offset entry in
      dispatch (se_elem_type entry) (se_elem_descriptor entry) (se_nullable entry) elem_data
        (wrap32 (size - (elem_data - t)));;
      mret None);;
  mret tt.

Definition elements_loop (fuel : nat) (dispatch : dispatch_t) (p : descptr) (t size : Z) :
    M (mem * X) unit :=
  d ← lift (array_desc E p);
  if is_pod (ad_elem_type d) then mret tt
  else
    for_upto (R := unit) fuel 0 (mload 4 (t + 4)) (fun i =>
      elem_data ← lift (array_index_by_type t (ad_elem_type d) i);
      assert_ (elem_data <? t + size);;
      dispatch (ad_elem_type d) (ad_elem_descriptor d) (ad_nullable d) elem_data
        (wrap32 (size - wrap32 (elem_data - t)));;
      mret None);;
    mret tt.

Definition active_loop (dispatch : dispatch_t) (p : descptr) (u size : Z) : M (mem * X) unit :=
  d ← lift (union_desc E p);
  for_each (ud_entries d) (fun entry =>
    tag ← mload 4 (u + 4);
    if negb (tag =? ue_tag entry) then mret None
    else if is_pod (ue_elem_type entry) then mret (Some tt)
    else
      dispatch (ue_elem_type entry) (ue_elem_descriptor entry) (ue_nullable entry)
        (u + offsetof_union_data) (wrap32 (size - offsetof_union_data));;
      mret (Some tt));;
  mret tt.
End Loops.

(** * The walk *)

Section Walk.
Context (E : denv) (HE : env_wf E = true) (Hnu : no_union_ptr E = true).
Context {X : Type} (step : event -> M (mem * X) unit) (Hlocal : step_local step).
(** What a step needs of, and keeps in, the other object. *)
Context (Inv : X -> Prop)
  (Hinv : forall e st st1, step e st = Ok (tt, st1) -> Inv st.2 -> Inv st1.2).
Context (f : form) (m : mem) (lo lim : Z).
Context (Hlo : 0 < lo) (Hlim : lim < 2 ^ 64) (Hsize : lim - lo < 2 ^ 32).

Abbreviation lay := (lay E f m lim).
Abbreviation lays := (lays E f m lim).
Abbreviation slots_ok := (slots_ok E).
Abbreviation runs := (runs step).
Abbreviation dispatch_t :=
  (MojomTypeDescriptorType -> descptr -> bool -> Z -> Z -> M (mem * X) unit).

Definition fuel_for (s : slot) (np : Z) : Z :=
  Z.max 0 (lim - np) + (if is_union (s_type s) then 2 else 1).

(** A dispatcher walks the graph of any slot as the layout's events say. *)
Definition walks (k : nat) (dispatch : dispatch_t) : Prop :=
  forall s np np' evs st st',
    lay s np np' evs -> slot_wf E s -> lo <= s_addr s -> slot_end s <= np -> slot_end s <= lim ->
    fuel_for s np <= Z.of_nat k -> agree (fp [s] np np') m st.1 -> Inv st.2 ->
    runs evs st st' ->
    dispatch (s_type s) (s_desc s) (s_nullable s) (s_addr s) (lim - s_addr s) st = Ok (tt, st').

Lemma runs_inv evs st st' : runs evs st st' -> Inv st.2 -> Inv st'.2.
Proof. induction 1; eauto. Qed.

Lemma fuel_for_bound s np k : Z.max 0 (lim - np) + 2 <= k -> fuel_for s np <= k.
Proof. unfold fuel_for. destruct (is_union _); lia. Qed.

(** What the walk of the first slot of an object leaves for the others. *)
Lemma walk_cons dispatch k t s l np np2 evs st st' :
  walks k dispatch -> lays (s :: l) np np2 evs ->
  lo <= t -> slots_ok (t + 8) np (s :: l) -> slot_end s <= lim ->
  Z.max 0 (lim - np) + 2 <= Z.of_nat k ->
  agree (fp (s :: l) np np2) m st.1 -> Inv st.2 -> runs evs st st' ->
  exists np1 evs2 st1,
    dispatch (s_type s) (s_desc s) (s_nullable s) (s_addr s) (lim - s_addr s) st = Ok (tt, st1) /\
    np <= np1 /\ (np1 = np \/ np1 <= lim) /\ lays l np1 np2 evs2 /\ slots_ok (t + 8) np1 l /\
    agree (fp l np1 np2) m st1.1 /\ Inv st1.2 /\ runs evs2 st1 st' /\
    agree (fun a => a < t + 8) st.1 st1.1.
Proof.
  intros Hw Hl Ht Hok Hend Hk Hag HI Hr.
  inversion Hl as [|? ? ? np1 ? evs1 evs2 Hs Hl2]; subst.
  pose proof Hok as Hok0. inversion Hok0 as [|? ? Hwf Hlo' Hnp Hdj Hok']; subst.
  apply runs_app in Hr as (st1 & Hr1 & Hr2).
  pose proof (proj1 (lay_bounds E HE Hnu f m lim) _ _ _ _ Hs Hwf Hnp) as (Hle&Hlim1&Hin&_).
  pose proof (slots_ok_weaken _ _ _ _ _ Hok' Hle) as Hok1.
  pose proof (proj2 (lay_bounds E HE Hnu f m lim) _ _ _ _ Hl2 _ Hok1) as (Hle2&_).
  destruct (fp_nil_cons s l np np1 np2 Hle Hle2) as [Hfs Hfl].
  pose proof (runs_outside step Hlocal _ _ _ _ Hr1 Hin) as Hout.
  exists np1, evs2, st1. split; [|repeat (split; [done|]); split; [|split; [|split]]].
  - eapply Hw; try done; [lia|by apply fuel_for_bound|]. by eapply agree_weaken.
  - etransitivity; [by eapply agree_weaken|]. eapply agree_weaken; [exact Hout|].
    intros a Ha Ha'. by eapply (fp_head_disjoint E).
  - by eapply runs_inv.
  - done.
  - eapply agree_weaken; [exact Hout|]. intros a Ha H. apply fp_single in H.
    pose proof (elem_size_nonneg (s_type s)). unfold slot_end in Hnp.
    unfold slot_bytes, range in H. lia.
Qed.

(** The loop over the fields of a struct. *)
Lemma walk_fields dispatch k t ver es np np' evs st st' :
  walks k dispatch -> load32 st.1 (t + 4) = Ok ver -> lo <= t -> t + 8 <= np <= lim ->
  slots_ok (t + 8) np (struct_slots es ver t) ->
  Forall (fun s => slot_end s <= lim) (struct_slots es ver t) ->
  lays (struct_slots es ver t) np np' evs ->
  Z.max 0 (lim - np) + 2 <= Z.of_nat k ->
  agree (fp (struct_slots es ver t) np np') m st.1 -> Inv st.2 -> runs evs st st' ->
  wp (for_each (R := unit) es (fun entry =>
        version ← mload 4 (t + 4);
        if version <? se_min_version entry then mret None
        else
          assert_ (sizeof_MojomStructHeader + se_offset entry <? lim - t);;
          let elem_data := t + sizeof_MojomStructHeader + se_offset entry in
          dispatch (se_elem_type entry) (se_elem_descriptor entry) (se_nullable entry) elem_data
            (wrap32 (lim - t - (elem_data - t)));;
          mret None)) st
    (fun r s' => s' = st').
Proof.
  intros Hw Hver Ht Hnp. revert np evs st Hver Hnp. unfold struct_slots.
  induction es as [|e es IH]; intros np evs st Hver Hnp Hok Hall Hl Hk Hag HI Hr.
  - cbn in Hl. inversion Hl; subst. by inversion Hr; subst.
  - rewrite filter_cons in *. cbn [for_each]. apply wp_bind, wp_bind.
    eapply wp_mload; [exact Hver|].
    destruct (Z.ltb_spec ver (se_min_version e)) as [Hlt|Hge].
    { rewrite decide_False in * by lia. wp_step. by eapply IH. }
    rewrite decide_True in * by lia. rewrite fmap_cons in *.
    inversion Hall as [|? ? Hse Hall']; subst.
    pose proof (walk_cons _ _ _ _ _ _ _ _ _ _ Hw Hl Ht Hok Hse Hk Hag HI Hr)
      as (np1 & evs2 & st1 & Hd & Hle & Hlim1 & Hl2 & Hok2 & Hag2 & HI2 & Hr2 & Hsame).
    inversion Hok as [|? ? (Hpod&Hup&_) Hs8 _ _ _]; subst.
    cbn [entry_slot s_addr s_type] in Hs8, Hpod, Hup.
    assert (0 < elem_size (se_elem_type e)) by (by destruct (se_elem_type e)).
    unfold slot_end in Hse. cbn [entry_slot s_addr s_type] in Hse.
    wp_step. apply wp_assert; [apply Z.ltb_lt; lia|]. cbn zeta.
    replace (wrap32 _) with (lim - s_addr (entry_slot t e)).
    2: { cbn [entry_slot s_addr]. rewrite wrap32_small; lia. }
    wp_step. apply wp_run. exists tt, st1. split; [exact Hd|]. wp_step.
    apply (IH np1 evs2 st1); try done; [|lia|lia].
    rewrite <- Hver. symmetry. apply load_agree. eapply agree_weaken; [exact Hsame|].
    unfold range. simpl. lia.
Qed.

(** The loop over the elements of an array. *)
Lemma walk_elements dispatch k t n d fuel j i np np' evs st st' :
  walks k dispatch -> load32 st.1 (t + 4) = Ok n -> lo <= t -> t + 8 <= np <= lim ->
  is_pod (ad_elem_type d) = false -> is_union_ptr (ad_elem_type d) = false ->
  n = i + Z.of_nat j -> (j < fuel)%nat ->
  slots_ok (t + 8) np (element_slots d t i j) ->
  Forall (fun s => slot_end s <= lim) (element_slots d t i j) ->
  lays (element_slots d t i j) np np' evs ->
  Z.max 0 (lim - np) + 2 <= Z.of_nat k ->
  agree (fp (element_slots d t i j) np np') m st.1 -> Inv st.2 -> runs evs st st' ->
  wp (for_upto (R := unit) fuel i (mload 4 (t + 4)) (fun i =>
        elem_data ← lift (array_index_by_type t (ad_elem_type d) i);
        assert_ (elem_data <? t + (lim - t));;
        dispatch (ad_elem_type d) (ad_elem_descriptor d) (ad_nullable d) elem_data
          (wrap32 (lim - t - wrap32 (elem_data - t)));;
        mret None)) st
    (fun r s' => s' = st').
Proof.
  intros Hw Hn Ht Hnp Hpod Hup. revert fuel i np evs st Hn Hnp.
  induction j as [|j IH]; intros fuel i np evs st Hn Hnp Hij Hfuel Hok Hall Hl Hk Hag HI Hr;
    (destruct fuel as [|fuel]; [lia|]); cbn [for_upto element_slots] in *;
    apply wp_bind; (eapply wp_mload; [exact Hn|]).
  - rewrite (proj2 (Z.ltb_ge i n)) by lia. inversion Hl; subst. by inversion Hr; subst.
  - rewrite (proj2 (Z.ltb_lt i n)) by lia.
    inversion Hall as [|? ? Hse Hall']; subst.
    pose proof (walk_cons _ _ _ _ _ _ _ _ _ _ Hw Hl Ht Hok Hse Hk Hag HI Hr)
      as (np1 & evs2 & st1 & Hd & Hle & Hlim1 & Hl2 & Hok2 & Hag2 & HI2 & Hr2 & Hsame).
    inversion Hok as [|? ? _ Hs8 _ _ _]; subst. cbn [element_slot s_addr s_type] in Hs8.
    assert (0 < elem_size (ad_elem_type d)) by (by destruct (ad_elem_type d)).
    unfold slot_end in Hse. cbn [element_slot s_addr s_type] in Hse.
    apply wp_bind, wp_bind. apply (wp_lift _ (s_addr (element_slot d t i))).
    { by apply array_index_eq. }
    wp_step. apply wp_assert; [apply Z.ltb_lt; cbn [element_slot s_addr]; lia|].
    replace (wrap32 (_ - wrap32 _)) with (lim - s_addr (element_slot d t i)).
    2: { cbn [element_slot s_addr]. rewrite (wrap32_small (_ + _ - t)) by lia.
         rewrite wrap32_small; lia. }
    wp_step. apply wp_run. exists tt, st1. split; [exact Hd|]. wp_step.
    apply (IH fuel (i + 1) np1 evs2 st1); try done; [|lia..].
    rewrite <- Hn. symmetry. apply load_agree. eapply agree_weaken; [exact Hsame|].
    unfold range. simpl. lia.
Qed.

(** The search for the active field of a union. *)
Lemma walk_active (dispatch : dispatch_t) u tag es st st' :
  load32 st.1 (u + 4) = Ok tag -> 8 <= lim - u < 2 ^ 32 ->
  (forall e, active_entry es tag = Some e ->
     dispatch (ue_elem_type e) (ue_elem_descriptor e) (ue_nullable e) (u + 8) (lim - (u + 8)) st
       = Ok (tt, st')) ->
  (active_entry es tag = None -> st' = st) ->
  wp (for_each es (fun entry =>
        tag ← mload 4 (u + 4);
        if negb (tag =? ue_tag entry) then mret None
        else if is_pod (ue_elem_type entry) then mret (Some tt)
        else
          dispatch (ue_elem_type entry) (ue_elem_descriptor entry) (ue_nullable entry)
            (u + offsetof_union_data) (wrap32 (lim - u - offsetof_union_data));;
          mret (Some tt))) st
    (fun r s' => s' = st').
Proof.
  clear Hinv Hlocal.
  intros Htag Hsz. induction es as [|e es IH]; intros Hsome Hnone.
  - cbn. by rewrite Hnone.
  - rewrite active_entry_cons in *. cbn [for_each]. apply wp_bind, wp_bind.
    eapply wp_mload; [exact Htag|].
    destruct (Z.eqb_spec tag (ue_tag e)); cbn [negb].
    2: { rewrite decide_False in * by done. wp_step. by apply IH. }
    rewrite decide_True in * by done.
    destruct (is_pod (ue_elem_type e)); [wp_step; wp_step; by rewrite Hnone|].
    specialize (Hsome e eq_refl). unfold offsetof_union_data.
    replace (wrap32 _) with (lim - (u + 8)) by (rewrite wrap32_small; lia).
    wp_step. apply wp_run. exists tt, st'. split; [done|]. by repeat wp_step.
Qed.

(** After the slot of a pointer to an object at [t] is rewritten, the rest of
    its graph is as it was. *)
Lemma walk_object s t nb l np np' evs st st1 :
  slot_end s = s_addr s + 8 -> slot_end s <= np -> np <= t -> 8 <= nb ->
  slots_ok (t + 8) (t + nb) l -> lays l (t + nb) np' evs ->
  step (EPtr (s_addr s)) st = Ok (tt, st1) ->
  agree (fp [s] np np') m st.1 ->
  agree (fp l (t + nb) np') m st1.1 /\
  (forall n a, t <= a -> a + Z.of_nat n <= t + 8 -> load n st1.1 a = load n m a).
Proof.
  intros Hse Hend Ht Hnb Hok Hl Hst Hag.
  pose proof (proj2 (lay_bounds E HE Hnu f m lim) _ _ _ _ Hl _ Hok) as (Hle&_).
  assert (Hout : agree (fun a => t <= a < np') m st1.1).
  { etransitivity; (eapply agree_weaken; [first [exact Hag|exact (Hlocal _ _ _ Hst)]|]).
    - intros a Ha. apply fp_single. lia.
    - intros a Ha. unfold event_bytes, range. simpl. lia. }
  split.
  - eapply agree_weaken; [exact Hout|]. intros a Ha.
    apply (fp_object _ _ _ _ _ _ Hok) in Ha. cbn beta. lia.
  - intros n a ??. symmetry. apply load_agree. eapply agree_weaken; [exact Hout|].
    unfold range. lia.
Qed.

(** ** What the object functions do after their assertions *)

Lemma walk_struct_body (dispatch : dispatch_t) k p t d nb ver np' evs st st' :
  walks k dispatch -> struct_desc E p = Ok d -> lo <= t -> t + nb <= lim -> size_ok d ver nb ->
  lays (struct_slots (sd_entries d) ver t) (t + nb) np' evs ->
  load32 st.1 (t + 4) = Ok ver ->
  agree (fp (struct_slots (sd_entries d) ver t) (t + nb) np') m st.1 ->
  Inv st.2 -> runs evs st st' -> lim - (t + nb) + 2 <= Z.of_nat k ->
  wp (fields_loop E dispatch p t (lim - t)) st (fun _ s' => s' = st').
Proof.
  intros Hw Hd Ht Hnb Hsz Hl Hver Hag HI Hr Hk.
  pose proof (struct_desc_wf E p d HE Hd) as Hdwf.
  pose proof (size_ok_min E d ver nb Hdwf Hsz) as Hmin. unfold sizeof_MojomStructHeader in Hmin.
  pose proof (struct_slots_ok E d ver t nb Hdwf Hsz ltac:(lia)) as Hok.
  unfold fields_loop. wp_step. eapply wp_lift; [exact Hd|]. wp_step. eapply wp_mono.
  { apply (walk_fields dispatch k t ver (sd_entries d) (t + nb) np' evs); try done; try lia.
    apply Forall_forall. intros s Hs.
    destruct (slots_ok_range _ _ _ _ _ Hok Hs) as (_&_&?). lia. }
  intros r s' ->. by wp_step.
Qed.

Lemma walk_array_body fuel (dispatch : dispatch_t) k p t d nb n np' evs st st' :
  walks k dispatch -> array_desc E p = Ok d -> lo <= t -> t + nb <= lim -> array_header_ok d nb n ->
  lays (array_slots d t n) (t + nb) np' evs ->
  load32 st.1 (t + 4) = Ok n ->
  agree (fp (array_slots d t n) (t + nb) np') m st.1 ->
  Inv st.2 -> runs evs st st' -> lim - (t + nb) + 2 <= Z.of_nat k -> nb - 8 < Z.of_nat fuel ->
  wp (elements_loop E fuel dispatch p t (lim - t)) st (fun _ s' => s' = st').
Proof.
  intros Hw Hd Ht Hnb Hh Hl Hn Hag HI Hr Hk Hfuel.
  pose proof (array_desc_wf E p d HE Hd) as Hdwf. pose proof (load_range _ _ _ _ Hn) as Hnr.
  pose proof Hh as (Hmin&_&_).
  pose proof (array_slots_ok E d nb n t Hdwf Hh ltac:(lia) ltac:(lia)) as Hok.
  pose proof Hdwf as Hdwf'. unfold array_wf in Hdwf'. bool_facts.
  unfold elements_loop. wp_step. eapply wp_lift; [exact Hd|]. unfold array_slots in *.
  destruct (is_pod (ad_elem_type d)) eqn:Hpod.
  { inversion Hl; subst. inversion Hr; subst. by wp_step. }
  pose proof (array_count_bound d nb n E Hdwf Hpod Hh ltac:(lia)).
  wp_step. eapply wp_mono.
  { unfold sizeof_MojomArrayHeader in Hmin.
    apply (walk_elements dispatch k t n d fuel (Z.to_nat n) 0 (t + nb) np' evs); try done; try lia.
    apply Forall_forall. intros s Hs.
    destruct (slots_ok_range _ _ _ _ _ Hok Hs) as (_&_&?). lia. }
  intros r s' ->. by wp_step.
Qed.

Lemma walk_union_body (dispatch : dispatch_t) k s np np' evs d tag st st' :
  walks k dispatch -> s_type s = MOJOM_TYPE_DESCRIPTOR_TYPE_UNION -> slot_wf E s ->
  lo <= s_addr s -> slot_end s <= np -> slot_end s <= lim ->
  union_desc E (s_desc s) = Ok d -> load32 st.1 (s_addr s + 4) = Ok tag ->
  match active_entry (ud_entries d) tag with
  | Some e => lay (union_entry_slot (s_addr s) e) np np' evs
  | None => evs = []
  end ->
  Z.max 0 (lim - np) + 1 <= Z.of_nat k ->
  agree (fp [s] np np') m st.1 -> Inv st.2 -> runs evs st st' ->
  wp (active_loop E dispatch (s_desc s) (s_addr s) (lim - s_addr s)) st (fun _ s' => s' = st').
Proof.
  intros Hw Hty Hwf Hs Hend Hendl Hd Htag He Hk Hag HI Hr.
  assert (Hse : slot_end s = s_addr s + 16) by (unfold slot_end; by rewrite Hty).
  pose proof Hwf as (_&_&_&Hpos).
  unfold active_loop. wp_step. eapply wp_lift; [exact Hd|]. wp_step. eapply wp_mono.
  { apply (walk_active dispatch (s_addr s) tag (ud_entries d) st st'); [done|lia| |].
    - intros e Hact. rewrite Hact in He.
      destruct (active_entry_slot_wf E HE Hnu _ d tag e (s_addr s) Hd Hact Hpos)
        as (Hwf' & Hend' & Hnot).
      apply (Hw (union_entry_slot (s_addr s) e) np np' evs); try done; try lia.
      + cbn [union_entry_slot s_addr]. unfold offsetof_union_data. lia.
      + unfold fuel_for. cbn [union_entry_slot s_type]. unfold is_union.
        by rewrite bool_decide_eq_false_2.
      + eapply agree_weaken; [exact Hag|]. intros a Ha. apply fp_single. apply fp_single in Ha.
        destruct Ha as [Ha|Ha]; [left|by right].
        by eapply (union_field_bytes E HE Hnu).
    - intros Hact. rewrite Hact in He. subst. by inversion Hr. }
  intros r s' ->. by wp_step.
Qed.

(** ** The interface

    What a dispatcher [dispatch'] that calls back [dispatch] for the parts
    promises: each case does the step of its slot, then the loop of its object. *)
Record walker (fuel : nat) (dispatch dispatch' : dispatch_t) : Prop := {
  walk_null ty p a size st st1 :
    is_object_ptr ty = true -> 0 < a < 2 ^ 64 -> load64 st.1 a = Ok 0 ->
    step (EPtr a) st = Ok (tt, st1) ->
    wp (dispatch' ty p true a size) st (fun _ s => s = st1);
  walk_struct ty p nullable a v t nb st st1 Q :
    is_struct_ptr ty = true -> desc_non_null p = true -> lo <= a ->
    load64 st.1 a = Ok v -> v <> 0 -> t = target f a v -> a < t -> 8 <= nb -> t + nb <= lim ->
    step (EPtr a) st = Ok (tt, st1) -> Inv st1.2 -> load32 st1.1 t = Ok nb ->
    wp (fields_loop E dispatch p t (lim - t)) st1 Q ->
    wp (dispatch' ty p nullable a (lim - a)) st Q;
  walk_array p nullable a v t nb st st1 Q :
    desc_non_null p = true -> lo <= a ->
    load64 st.1 a = Ok v -> v <> 0 -> t = target f a v -> a < t -> 8 <= nb -> t + nb <= lim ->
    step (EPtr a) st = Ok (tt, st1) -> Inv st1.2 -> load32 st1.1 t = Ok nb ->
    wp (elements_loop E fuel dispatch p t (lim - t)) st1 Q ->
    wp (dispatch' MOJOM_TYPE_DESCRIPTOR_TYPE_ARRAY_PTR p nullable a (lim - a)) st Q;
  walk_union_null p a size st :
    0 < a -> load32 st.1 a = Ok 0 ->
    wp (dispatch' MOJOM_TYPE_DESCRIPTOR_TYPE_UNION p true a size) st (fun _ s => s = st);
  walk_union p nullable a sz st Q :
    lo <= a -> a + 16 <= lim -> load32 st.1 a = Ok sz -> sz <> 0 -> Inv st.2 ->
    wp (active_loop E dispatch p a (lim - a)) st Q ->
    wp (dispatch' MOJOM_TYPE_DESCRIPTOR_TYPE_UNION p nullable a (lim - a)) st Q;
  walk_handle ty p nullable a size st st1 :
    ty = MOJOM_TYPE_DESCRIPTOR_TYPE_HANDLE \/ ty = MOJOM_TYPE_DESCRIPTOR_TYPE_INTERFACE ->
    0 < a -> step (EHandle a nullable) st = Ok (tt, st1) ->
    wp (dispatch' ty p nullable a size) st (fun _ s => s = st1);
}.

Lemma load_slot s np np' (st : mem * X) :
  agree (fp [s] np np') m st.1 ->
  forall n a, s_addr s <= a -> a + Z.of_nat n <= slot_end s -> load n st.1 a = load n m a.
Proof.
  intros Hag n a ??. symmetry. apply load_agree. eapply agree_weaken; [exact Hag|].
  intros x Hx. apply fp_single. left. unfold slot_bytes, range in *. lia.
Qed.

Section Step.
Context (k : nat) (dispatch dispatch' : dispatch_t).
Context (W : walker k dispatch dispatch') (Hw : walks k dispatch).

Abbreviation visits s st st' :=
  (wp (dispatch' (s_type s) (s_desc s) (s_nullable s) (s_addr s) (lim - s_addr s)) st
     (fun _ s' => s' = st')).

Lemma walks_struct s np np' evs v t d nb ver st st' :
  is_struct_ptr (s_type s) = true -> load64 m (s_addr s) = Ok v -> v <> 0 ->
  t = target f (s_addr s) v -> pointer_ok lim np (s_addr s) t ->
  struct_desc E (s_desc s) = Ok d -> load32 m t = Ok nb -> load32 m (t + 4) = Ok ver ->
  8 <= nb -> t + nb <= lim -> size_ok d ver nb ->
  lays (struct_slots (sd_entries d) ver t) (t + nb) np' evs ->
  slot_wf E s -> lo <= s_addr s -> slot_end s <= np -> lim - np <= Z.of_nat k ->
  agree (fp [s] np np') m st.1 -> Inv st.2 -> runs (EPtr (s_addr s) :: evs) st st' ->
  visits s st st'.
Proof.
  intros Hty Hv Hv0 Ht Hp Hd Hnb Hver Hmin Hlimt Hsz Hl Hwf Hs Hend Hk Hag HI Hr.
  apply runs_cons_inv in Hr as (st1 & Hst & Hr). pose proof Hp as (?&?&?&_).
  pose proof (struct_slots_ok E d ver t nb (struct_desc_wf E _ _ HE Hd) Hsz ltac:(lia)) as Hok.
  pose proof (object_ptr_size _ (struct_ptr_object _ Hty)) as Hse.
  destruct (walk_object s t nb _ np np' evs st st1 Hse Hend ltac:(lia) Hmin Hok Hl Hst Hag)
    as [Hag1 Hhdr].
  pose proof (Hinv _ _ _ Hst HI) as HI1.
  eapply (walk_struct _ _ _ W) with (v := v) (t := t) (nb := nb) (st1 := st1); try done.
  - by eapply struct_desc_non_null.
  - rewrite (load_slot s np np') by (done || lia). done.
  - by rewrite Hhdr by lia.
  - apply (walk_struct_body dispatch k _ t d nb ver np' evs); try done; try lia; by rewrite Hhdr by lia.
Qed.

Lemma walks_array s np np' evs v t d nb n st st' :
  s_type s = MOJOM_TYPE_DESCRIPTOR_TYPE_ARRAY_PTR -> load64 m (s_addr s) = Ok v -> v <> 0 ->
  t = target f (s_addr s) v -> pointer_ok lim np (s_addr s) t ->
  array_desc E (s_desc s) = Ok d -> load32 m t = Ok nb -> load32 m (t + 4) = Ok n ->
  t + nb <= lim -> array_header_ok d nb n ->
  lays (array_slots d t n) (t + nb) np' evs ->
  slot_wf E s -> lo <= s_addr s -> slot_end s <= np -> lim - np <= Z.of_nat k ->
  agree (fp [s] np np') m st.1 -> Inv st.2 -> runs (EPtr (s_addr s) :: evs) st st' ->
  visits s st st'.
Proof.
  intros Hty Hv Hv0 Ht Hp Hd Hnb Hn Hlimt Hh Hl Hwf Hs Hend Hk Hag HI Hr.
  apply runs_cons_inv in Hr as (st1 & Hst & Hr). pose proof Hp as (?&?&?&_).
  pose proof (load_range _ _ _ _ Hn). pose proof Hh as (Hmin&_&_).
  pose proof (array_slots_ok E d nb n t (array_desc_wf E _ _ HE Hd) Hh ltac:(lia) ltac:(lia)) as Hok.
  assert (Hse : slot_end s = s_addr s + 8) by (unfold slot_end; by rewrite Hty).
  destruct (walk_object s t nb _ np np' evs st st1 Hse Hend ltac:(lia) Hmin Hok Hl Hst Hag)
    as [Hag1 Hhdr].
  pose proof (Hinv _ _ _ Hst HI) as HI1. rewrite Hty. unfold sizeof_MojomArrayHeader in *.
  eapply (walk_array _ _ _ W) with (v := v) (t := t) (nb := nb) (st1 := st1); try done.
  - by eapply array_desc_non_null.
  - rewrite (load_slot s np np') by (done || lia). done.
  - by rewrite Hhdr by lia.
  - apply (walk_array_body k dispatch k _ t d nb n np' evs); try done; try lia; by rewrite Hhdr by lia.
Qed.

Lemma walks_union s np np' evs d sz tag st st' :
  s_type s = MOJOM_TYPE_DESCRIPTOR_TYPE_UNION -> load32 m (s_addr s) = Ok sz -> sz <> 0 ->
  union_desc E (s_desc s) = Ok d -> load32 m (s_addr s + 4) = Ok tag ->
  match active_entry (ud_entries d) tag with
  | Some e => lay (union_entry_slot (s_addr s) e) np np' evs
  | None => evs = []
  end ->
  slot_wf E s -> lo <= s_addr s -> slot_end s <= np -> slot_end s <= lim ->
  Z.max 0 (lim - np) + 1 <= Z.of_nat k ->
  agree (fp [s] np np') m st.1 -> Inv st.2 -> runs evs st st' ->
  visits s st st'.
Proof.
  intros Hty Hsz Hsz0 Hd Htag He Hwf Hs Hend Hendl Hk Hag HI Hr.
  assert (Hse : slot_end s = s_addr s + 16) by (unfold slot_end; by rewrite Hty).
  rewrite Hty. eapply (walk_union _ _ _ W) with (sz := sz); try done; [lia| |].
  - by rewrite (load_slot s np np') by (done || lia).
  - eapply walk_union_body with (np := np) (np' := np'); try done.
    by rewrite (load_slot s np np') by (done || lia).
Qed.

Lemma walker_step : walks (S k) dispatch'.
Proof.
  intros s np np' evs st st' Hl Hwf Hs Hend Hendl Hf Hag HI Hr. unfold fuel_for in Hf.
  pose proof Hwf as (_&_&_&Hpos).
  assert (Hk : lim - np <= Z.of_nat k) by (destruct (is_union _); lia).
  apply wp_unit.
  destruct Hl as [s np Hty Hn Hv | s np np' evs v t d nb ver | s np np' evs v t d nb n
    | s np Hty Hn Hsz | s np d sz tag Hty Hsz Hsz0 Hd Htag Hact
    | s np np' evs d sz tag e Hty Hsz Hsz0 Hn Hd Htag Hact Hl | s np Hty].
  - apply runs_cons_inv in Hr as (st1 & Hst & Hr). inversion Hr; subst.
    pose proof (object_ptr_size _ Hty). rewrite Hn.
    apply (walk_null _ _ _ W); try done; try lia. by rewrite (load_slot s np np) by (done || lia).
  - by eapply walks_struct.
  - by eapply walks_array.
  - inversion Hr; subst. rewrite Hty, Hn. apply (walk_union_null _ _ _ W); [done|].
    assert (slot_end s = s_addr s + 16) by (unfold slot_end; by rewrite Hty).
    by rewrite (load_slot s np np) by (done || lia).
  - rewrite Hty in Hf. change (is_union _) with true in Hf.
    apply (walks_union s np np [] d sz tag); try done; [by rewrite Hact|lia].
  - rewrite Hty in Hf. change (is_union _) with true in Hf.
    apply (walks_union s np np' evs d sz tag); try done; [by rewrite Hact|lia].
  - apply runs_cons_inv in Hr as (st1 & Hst & Hr). inversion Hr; subst.
    by apply (walk_handle _ _ _ W).
Qed.
End Step.

Lemma walks_zero dispatch : walks 0 dispatch.
Proof.
  intros s np np' evs st st' _ _ _ _ _ Hf. unfold fuel_for in Hf. destruct (is_union _); lia.
Qed.
End Walk.

(** * Decoding is the walk *)

Lemma mstore_inv {X} n a v (st : mem * X) r st1 :
  mstore n a v st = Ok (r, st1) -> store n st.1 a v = Ok st1.1 /\ st1.2 = st.2.
Proof. unfold mstore. destruct (store n st.1 a v) eqn:Es; [|done..]. by intros [= _ <-]. Qed.

Lemma mload_inv {X} n a (st : mem * X) v st1 :
  mload n a st = Ok (v, st1) -> load n st.1 a = Ok v /\ st1 = st.
Proof. unfold mload. destruct (load n st.1 a) eqn:Es; [|done..]. by intros [= <- <-]. Qed.

Lemma bind_inv {S A B} (c : M S A) (g : A -> M S B) s b s' :
  (c ≫= g) s = Ok (b, s') -> exists a s1, c s = Ok (a, s1) /\ g a s1 = Ok (b, s').
Proof. unfold mbind, M_bind. destruct (c s) as [[a s1]| | |] eqn:Ec; [|done..]. eauto. Qed.

Lemma assert_inv {S} b (s : S) r s' : assert_ b s = Ok (r, s') -> b = true /\ s' = s.
Proof. destruct b; unfold assert_, lift; [|done]. by intros [= <- <-]. Qed.

Lemma lift_inv {S A} (o : outcome A) (s : S) a s' : lift o s = Ok (a, s') -> o = Ok a /\ s' = s.
Proof. destruct o; unfold lift; try done. by intros [= -> ->]. Qed.

Lemma on_snd_get_inv {X} (st : mem * X) x st1 : on_snd get st = Ok (x, st1) -> x = st.2 /\ st1 = st.
Proof. unfold on_snd, get. destruct st. by intros [= <- <-]. Qed.

Lemma on_snd_put_inv {X} (x : X) (st : mem * X) r st1 :
  on_snd (put x) st = Ok (r, st1) -> st1 = (st.1, x).
Proof. unfold on_snd, put. by intros [= _ <-]. Qed.

(** Takes apart a successful run of a computation. *)
Ltac run_inv :=
  repeat match goal with
  | H : (_ ≫= _) _ = Ok _ |- _ =>
      let a := fresh "x" in let s := fresh "st" in let H1 := fresh "Hrun" in
      apply bind_inv in H as (a & s & H1 & H)
  | H : mload _ _ _ = Ok _ |- _ => apply mload_inv in H as [H ->]
  | H : mstore _ _ _ _ = Ok _ |- _ => apply mstore_inv in H as [H ?]
  | H : assert_ _ _ = Ok _ |- _ => apply assert_inv in H as [H ->]
  | H : lift _ _ = Ok _ |- _ => apply lift_inv in H as [H ->]
  | H : on_snd get _ = Ok _ |- _ => apply on_snd_get_inv in H as [-> ->]
  | H : on_snd (put _) _ = Ok _ |- _ => apply on_snd_put_inv in H as ->
  end.

Definition decode_step (nh : Z) (e : event) : decM unit :=
  match e with
  | EPtr a => decode_pointer a
  | EHandle a _ => decode_handle a nh
  end.

Definition decode_inv (nh : Z) (handles : option (list Z)) : Prop := is_Some handles \/ nh = 0.

Lemma decode_step_local nh : step_local (decode_step nh).
Proof.
  intros [a|a b] st st1 H; cbn [decode_step] in H; unfold decode_pointer, decode_handle in H; run_inv.
  - destruct (_ =? 0); run_inv; (eapply store_agree; [eassumption|]);
      unfold event_bytes, range; simpl; lia.
  - destruct st.2; [|by run_inv]. run_inv.
    destruct (_ =? kEncodedHandleInvalid); run_inv; (eapply store_agree; [eassumption|]);
      unfold event_bytes, range; simpl; lia.
Qed.

Lemma decode_step_inv nh e st st1 :
  decode_step nh e st = Ok (tt, st1) -> decode_inv nh st.2 -> decode_inv nh st1.2.
Proof.
  intros H. destruct e as [a|a b]; cbn [decode_step] in H;
    unfold decode_pointer, decode_handle in H; run_inv.
  - destruct (_ =? 0); run_inv; congruence.
  - destruct st.2 eqn:Est; [|by run_inv]. run_inv. intros _. left.
    destruct (_ =? kEncodedHandleInvalid); run_inv; [exists l; congruence|by eexists].
Qed.

(** A non-null pointer, once decoded, is the address it led to. *)
Lemma decode_pointer_target {X} a v (st st1 : mem * X) :
  decode_pointer a st = Ok (tt, st1) -> load64 st.1 a = Ok v -> 0 <= a + v < 2 ^ 64 ->
  load64 st1.1 a = Ok (if v =? 0 then 0 else a + v) /\ st1.2 = st.2.
Proof.
  unfold decode_pointer. intros H Hv Hr. run_inv.
  assert (x = v) as -> by congruence.
  destruct (v =? 0); run_inv; split; try done; rewrite (load_store _ _ _ _ _ H); [done|].
  rewrite wrap64_small by done. f_equal. by apply Z.mod_small.
Qed.

(** The decoder keeps the walk's promises. *)
Section DecodeWalk.
Context (E : denv) (HE : env_wf E = true) (Hnu : no_union_ptr E = true) (nh : Z).
Context (m : mem) (lo lim : Z).
Context (Hlo : 0 < lo) (Hlim : lim < 2 ^ 64) (Hsize : lim - lo < 2 ^ 32).

Abbreviation Dispatch := (MojomType_DispatchDecodePointersAndHandles E nh).

Lemma wp_assert_handles (st : mem * option (list Z)) Q :
  decode_inv nh st.2 -> Q tt st -> wp (assert_handles nh) st Q.
Proof.
  intros HI HQ. unfold assert_handles. wp_step. apply wp_on_snd. wp_step.
  destruct st as [m0 hs]. apply wp_assert; [|done]. simpl in *.
  apply orb_true_iff. destruct HI; [left; by apply bool_decide_eq_true|right; by apply Z.eqb_eq].
Qed.

Lemma decode_object (body : Z -> decM unit) (nullable : bool) a v t max st st1 Q :
  load64 st.1 a = Ok v -> v <> 0 -> t = a + v -> 0 <= t < 2 ^ 64 -> t <> 0 -> t < a + max ->
  decode_pointer a st = Ok (tt, st1) -> wp (body t) st1 Q ->
  wp (decode_pointer a;;
      o ← mload 8 a;
      assert_ ((o =? NULL) || (o <? a + max));;
      if negb nullable || non_null o then body o else mret tt) st Q.
Proof.
  intros Hv Hv0 -> Hr Ht0 Hmax Hd Hb.
  destruct (decode_pointer_target a v st st1 Hd Hv Hr) as [Ht _].
  rewrite (proj2 (Z.eqb_neq v 0)) in Ht by done.
  wp_step. apply wp_run. exists tt, st1. split; [done|].
  wp_step. eapply wp_mload; [exact Ht|]. wp_step. apply wp_assert.
  { apply orb_true_iff. right. by apply Z.ltb_lt. }
  unfold non_null, NULL. rewrite (proj2 (Z.eqb_neq (a + v) 0)) by done. by rewrite orb_true_r.
Qed.

Lemma decode_walker k :
  walker E (decode_step nh) (decode_inv nh) Encoded lo lim k (Dispatch k) (Dispatch (S k)).
Proof.
  split; intros; cbn [MojomType_DispatchDecodePointersAndHandles target decode_step] in *;
    (wp_step; apply wp_assert; [apply non_null_pos; lia|]).
  - edestruct (decode_pointer_target a 0 st st1) as [Ht _]; [done..|lia|]. simpl in Ht.
    assert (Hd : wp (decode_pointer a) st (fun _ s => s = st1)) by (apply wp_run; by exists tt, st1).
    destruct ty; try done; (wp_step; eapply wp_mono; [exact Hd|]; intros [] ? ->; wp_step;
      eapply wp_mload; [exact Ht|]; by repeat wp_step).
  - destruct ty; try done; (eapply decode_object; [done..|lia|lia|lia|done|]);
      rewrite wrap32_small by lia; replace (lim - a - (t - a)) with (lim - t) by lia;
      unfold MojomStruct_DecodePointersAndHandles; (wp_step; apply wp_assert; [done|]); (wp_step; apply wp_assert; [apply non_null_pos; lia|]);
      by wp_step; apply wp_assert_handles.
  - eapply decode_object; [done..|lia|lia|lia|done|].
    rewrite wrap32_small by lia; replace (lim - a - (t - a)) with (lim - t) by lia.
    unfold MojomArray_DecodePointersAndHandles.
    wp_step. apply wp_assert; [done|]. wp_step. apply wp_assert; [apply non_null_pos; lia|].
    by wp_step; apply wp_assert_handles.
  - unfold decode_union_case. cbn [negb]. unfold NULL.
    rewrite (proj2 (Z.eqb_neq a 0)) by lia. wp_step. wp_step. eapply wp_mload; [done|].
    by repeat wp_step.
  - unfold decode_union_case. wp_step. apply (wp_mono _ _ (fun b s' => b = true /\ s' = st)).
    { destruct nullable; cbn [negb]; [|by wp_step]. unfold NULL.
      rewrite (proj2 (Z.eqb_neq a 0)) by lia. wp_step. eapply wp_mload; [done|]. wp_step.
      by rewrite (proj2 (Z.eqb_neq sz 0)). }
    intros b s' [-> ->]. unfold MojomUnion_DecodePointersAndHandles.
    wp_step. apply wp_assert; [unfold sizeof_MojomUnionLayout; apply Z.geb_le; lia|].
    by wp_step; apply wp_assert_handles.
  - apply wp_run. exists tt, st1. by destruct H as [-> | ->].
Qed.

Lemma decode_walks k :
  walks E (decode_step nh) (decode_inv nh) Encoded m lo lim k (Dispatch k).
Proof.
  induction k as [|k IH]; [apply walks_zero|].
  eapply walker_step; try done.
  - apply decode_step_local.
  - apply decode_step_inv.
  - apply decode_walker.
Qed.

Lemma decode_struct_runs k p t np' evs hs st' :
  lay_top E Encoded m lim p t np' evs -> lo <= t -> decode_inv nh hs ->
  lim - t <= Z.of_nat k -> runs (decode_step nh) evs (m, hs) st' ->
  decode_struct E k p t (lim - t) nh (m, hs) = Ok (tt, st').
Proof.
  intros (d & nb & ver & Hd & Hnb & Hver & Hmin & Hlimt & Hmod & Hsz & Hl) Ht HI Hk Hr.
  apply wp_unit.
  unfold decode_struct, MojomStruct_DecodePointersAndHandles, sizeof_MojomStructHeader in *.
  wp_step. apply wp_assert; [by eapply struct_desc_non_null|].
  wp_step. apply wp_assert; [apply non_null_pos; lia|].
  wp_step. apply wp_assert_handles; [done|].
  apply (walk_struct_body E HE Hnu (decode_step nh) (decode_step_local nh) (decode_inv nh)
    (decode_step_inv nh) Encoded m lo lim Hlo Hsize _ k p t d nb ver np' evs); try done; try lia.
  apply decode_walks.
Qed.
End DecodeWalk.

(** * Encoding is the walk *)

Definition encode_step (lim : Z) (e : event) : encM unit :=
  match e with
  | EPtr a => encode_pointer a (lim - a)
  | EHandle a nullable => encode_handle nullable a
  end.

Lemma encode_step_local lim : step_local (encode_step lim).
Proof.
  intros [a|a b] st st1 H; cbn [encode_step] in H; unfold encode_pointer, encode_handle in H; run_inv.
  - destruct (_ =? NULL); run_inv; (eapply store_agree; [eassumption|]);
      unfold event_bytes, range; simpl; lia.
  - destruct st.2 as [hb|]; [|by run_inv]. destruct (handles hb) as [hs|]; [|by run_inv]. run_inv.
    destruct (_ =? MOJO_HANDLE_INVALID); run_inv; (eapply store_agree; [eassumption|]);
      unfold event_bytes, range; simpl; lia.
Qed.

(** The encoder keeps the walk's promises. *)
Section EncodeWalk.
Context (E : denv) (HE : env_wf E = true) (Hnu : no_union_ptr E = true).
Context (m : mem) (lo lim : Z).
Context (Hlo : 0 < lo) (Hlim : lim < 2 ^ 64) (Hsize : lim - lo < 2 ^ 32).

Abbreviation Dispatch := (MojomType_DispatchEncodePointersAndHandles E).
Abbreviation no_inv := (fun _ : option MojomHandleBuffer => True).

Lemma encode_object (body : Z -> encM unit) (nullable : bool) a v st st1 Q :
  load64 st.1 a = Ok v -> v <> 0 ->
  encode_pointer a (lim - a) st = Ok (tt, st1) -> wp (body v) st1 Q ->
  wp (o ← mload 8 a;
      encode_pointer a (lim - a);;
      if negb nullable || non_null o then body o else mret tt) st Q.
Proof.
  intros Hv Hv0 Hd Hb. wp_step. eapply wp_mload; [exact Hv|].
  wp_step. apply wp_run. exists tt, st1. split; [done|].
  unfold non_null, NULL. rewrite (proj2 (Z.eqb_neq v 0)) by done. by rewrite orb_true_r.
Qed.

Lemma encode_null_size {X} a size1 size2 (st : mem * X) :
  load64 st.1 a = Ok 0 -> encode_pointer a size2 st = encode_pointer a size1 st.
Proof. intros H. unfold encode_pointer, mbind, M_bind, mload. by rewrite H. Qed.

Lemma encode_walker k :
  walker E (encode_step lim) no_inv Decoded lo lim k (Dispatch k) (Dispatch (S k)).
Proof.
  split; intros; cbn [MojomType_DispatchEncodePointersAndHandles target encode_step] in *;
    (wp_step; apply wp_assert; [apply non_null_pos; lia|]).
  - assert (He : wp (encode_pointer a size) st (fun _ s => s = st1)).
    { apply wp_run. exists tt, st1. split; [|done]. by rewrite (encode_null_size a (lim - a)). }
    destruct ty; try done; (wp_step; eapply wp_mload; [done|];
      wp_step; eapply wp_mono; [exact He|]; intros [] ? ->; by repeat wp_step).
  - subst v. destruct ty; try done; (eapply encode_object; [done..|]);
      rewrite wrap32_small by lia; replace (lim - a - (t - a)) with (lim - t) by lia;
      unfold MojomStruct_EncodePointersAndHandles; (wp_step; apply wp_assert; [done|]); (wp_step; apply wp_assert; [apply non_null_pos; lia|]);
      (wp_step; apply wp_assert; [unfold sizeof_MojomStructHeader; apply Z.geb_le; lia|]); done.
  - subst v. eapply encode_object; [done..|].
    rewrite wrap32_small by lia; replace (lim - a - (t - a)) with (lim - t) by lia.
    unfold MojomArray_EncodePointersAndHandles.
    wp_step. apply wp_assert; [done|]. wp_step. apply wp_assert; [apply non_null_pos; lia|].
    wp_step. apply wp_assert; [unfold sizeof_MojomArrayHeader; apply Z.geb_le; lia|].
    wp_step. eapply wp_mload; [done|]. wp_step. apply wp_assert; [apply Z.geb_le; lia|]. done.
  - unfold encode_union_case. cbn [negb]. unfold NULL.
    rewrite (proj2 (Z.eqb_neq a 0)) by lia. wp_step. wp_step. eapply wp_mload; [done|].
    by repeat wp_step.
  - unfold encode_union_case. wp_step. apply (wp_mono _ _ (fun b s' => b = true /\ s' = st)).
    { destruct nullable; cbn [negb]; [|by wp_step]. unfold NULL.
      rewrite (proj2 (Z.eqb_neq a 0)) by lia. wp_step. eapply wp_mload; [done|]. wp_step.
      by rewrite (proj2 (Z.eqb_neq sz 0)). }
    intros b s' [-> ->]. unfold MojomUnion_EncodePointersAndHandles.
    wp_step. apply wp_assert; [unfold sizeof_MojomUnionLayout; apply Z.geb_le; lia|]. done.
  - apply wp_run. exists tt, st1. by destruct H as [-> | ->].
Qed.

Lemma encode_walks k : walks E (encode_step lim) no_inv Decoded m lo lim k (Dispatch k).
Proof.
  induction k as [|k IH]; [apply walks_zero|].
  eapply walker_step; try done.
  - apply encode_step_local.
  - apply encode_walker.
Qed.

Lemma encode_struct_runs k p t np' evs hb st' :
  lay_top E Decoded m lim p t np' evs -> lo <= t -> lim - t <= Z.of_nat k ->
  runs (encode_step lim) evs (m, hb) st' ->
  encode_struct E k p t (lim - t) (m, hb) = Ok (tt, st').
Proof.
  intros (d & nb & ver & Hd & Hnb & Hver & Hmin & Hlimt & Hmod & Hsz & Hl) Ht Hk Hr.
  apply wp_unit.
  unfold encode_struct, MojomStruct_EncodePointersAndHandles, sizeof_MojomStructHeader in *.
  wp_step. apply wp_assert; [by eapply struct_desc_non_null|].
  wp_step. apply wp_assert; [apply non_null_pos; lia|].
  wp_step. apply wp_assert; [apply Z.geb_le; lia|].
  apply (walk_struct_body E HE Hnu (encode_step lim) (encode_step_local lim) no_inv
    ltac:(done) Decoded m lo lim Hlo Hsize _ k p t d nb ver np' evs); try done; try lia.
  apply encode_walks.
Qed.
End EncodeWalk.
