(* ===== verification/CodecRuns.v ===== *)
(** What a run over a list of disjoint slots does to the memory and to the
    handles: the effect of decoding and of encoding, slot by slot, and the
    relocation of an encoded graph. *)
From stdpp Require Import base numbers list option gmap.
From coqutil Require Import Byte Word.LittleEndianList.
From Stdlib Require Import ZArith Lia.
From S2P Require Import Prelude CMem Buffer Descriptor Validate Layout LayoutFacts ValidateFacts.
From S2P Require Import Codec CodecFacts.

(** * Slots and memories *)

Definition event_width (e : event) : nat := match e with EPtr _ => 8%nat | EHandle _ _ => 4%nat end.

Definition event_load (m : mem) (e : event) : outcome Z := load (event_width e) m (event_addr e).

Lemma event_size_width e : event_size e = Z.of_nat (event_width e).
Proof. by destruct e. Qed.

(** What changes only the bytes of [e] keeps the slots disjoint from it. *)
Lemma event_load_agree m m1 e e' :
  agree (fun a => ~ event_bytes e a) m m1 -> event_disjoint e e' -> event_load m1 e' = event_load m e'.
Proof.
  intros Hag Hd. symmetry. apply load_agree. eapply agree_weaken; [exact Hag|].
  intros a Ha. unfold event_bytes, range, event_disjoint in *.
  pose proof (event_size_width e'). lia.
Qed.

Lemma event_load_untouched m m1 e evs :
  agree (untouched evs) m m1 -> Forall (event_disjoint e) evs -> event_load m1 e = event_load m e.
Proof.
  intros Hag Hd. symmetry. apply load_agree. eapply agree_weaken; [exact Hag|].
  intros a Ha. eapply Forall_impl; [exact Hd|]. intros e' He' Ha'.
  unfold event_bytes, range, event_disjoint in *. pose proof (event_size_width e). lia.
Qed.

(** Pointers that lead forward inside the buffer. *)
Definition pointers_ok (f : form) (m : mem) (lim : Z) (evs : list event) : Prop :=
  forall a, EPtr a ∈ evs -> exists v, load64 m a = Ok v /\ (v <> 0 -> a < target f a v < lim).

Lemma loads_ext (P : outcome Z -> event -> Prop) m m1 e evs :
  agree (fun a => ~ event_bytes e a) m m1 -> Forall (event_disjoint e) evs ->
  Forall (fun e => P (event_load m e) e) evs <-> Forall (fun e => P (event_load m1 e) e) evs.
Proof.
  intros Hag Hd. rewrite !Forall_forall. rewrite Forall_forall in Hd.
  split; intros H e' He'; specialize (H e' He'); specialize (Hd e' He');
    by rewrite (event_load_agree m m1 e e') in *.
Qed.

Lemma pointers_ok_cons f m m1 lim e evs :
  agree (fun a => ~ event_bytes e a) m m1 -> Forall (event_disjoint e) evs ->
  pointers_ok f m lim (e :: evs) -> pointers_ok f m1 lim evs.
Proof.
  intros Hag Hd Hp a Ha. destruct (Hp a) as (v & Hv & Hlim); [by apply list_elem_of_further|].
  exists v. split; [|done]. rewrite Forall_forall in Hd. rewrite <- Hv.
  apply (event_load_agree m m1 e (EPtr a)); auto.
Qed.

Lemma handles_ok_agree m m1 nh h evs h' e :
  agree (fun a => ~ event_bytes e a) m m1 -> Forall (event_disjoint e) evs ->
  handles_ok m nh h evs h' -> handles_ok m1 nh h evs h'.
Proof.
  intros Hag Hd H. induction H as [|h a evs h' _ IH|h a evs h' Ha _ IH|h a b i evs h' Ha Hi Hr _ IH];
    inversion Hd as [|? ? Hde Hd']; subst; [constructor|apply handles_ptr; auto| |].
  - apply handles_null; [|auto]. rewrite <- Ha. by apply (event_load_agree m m1 e (EHandle a true)).
  - eapply handles_index; [|done..|auto]. rewrite <- Ha.
    by apply (event_load_agree m m1 e (EHandle a b)).
Qed.

(** * Decoding *)

Definition decoded_event (m m' : mem) (hs : list Z) (e : event) : Prop :=
  exists v v', event_load m e = Ok v /\ event_load m' e = Ok v' /\
    match e with
    | EPtr a => v' = if v =? 0 then NULL else a + v
    | EHandle _ _ => if v =? kEncodedHandleInvalid then v' = MOJO_HANDLE_INVALID
                     else hs !! Z.to_nat v = Some v'
    end.

Lemma taken_agree m m1 e evs :
  agree (fun a => ~ event_bytes e a) m m1 -> Forall (event_disjoint e) evs ->
  taken m1 evs = taken m evs.
Proof.
  intros Hag. induction 1 as [|e' evs He _ IH]; [done|].
  destruct e' as [a|a b]; cbn [taken]; [done|]. rewrite IH.
  pose proof (event_load_agree m m1 e (EHandle a b) Hag He) as Hl.
  unfold event_load in Hl; simpl in Hl. by rewrite Hl.
Qed.

Lemma taken_ge m nh h evs h' : handles_ok m nh h evs h' -> Forall (fun i => h <= i) (taken m evs).
Proof. intros [Ht _]%taken_increasing. eapply Forall_impl; [exact Ht|]. simpl. lia. Qed.

Lemma mstore_Ok {X} n a v (m : mem) (x : X) :
  mapped m a (a + Z.of_nat n) ->
  exists m1, mstore n a v (m, x) = Ok (tt, (m1, x)) /\
    load n m1 a = Ok (v mod 2 ^ (8 * Z.of_nat n)).
Proof.
  intros Hm. pose proof (store_Ok m a n v Hm) as Hs. eexists. unfold mstore; simpl. rewrite Hs.
  split; [done|]. by eapply load_store.
Qed.

Lemma decode_pointer_run {X} m (x : X) a v :
  load64 m a = Ok v -> 0 <= a + v < 2 ^ 64 ->
  exists m1, decode_pointer a (m, x) = Ok (tt, (m1, x)) /\
    load64 m1 a = Ok (if v =? 0 then NULL else a + v).
Proof.
  intros Hv Hr. unfold decode_pointer.
  unfold mbind at 1, M_bind at 1, mload. cbn [fst]. rewrite Hv.
  pose proof (load_Ok_mapped _ _ _ _ Hv) as Hm.
  destruct (v =? 0).
  - destruct (mstore_Ok 8 a NULL m x Hm) as (m1 & Hs & Hl). by exists m1.
  - destruct (mstore_Ok 8 a (wrap64 (a + v)) m x Hm) as (m1 & Hs & Hl). exists m1. split; [done|].
    rewrite Hl, wrap64_small by done. f_equal. by apply Z.mod_small.
Qed.

Lemma decode_handle_null_run m hs a nh :
  0 < a -> load32 m a = Ok kEncodedHandleInvalid ->
  exists m1, decode_handle a nh (m, Some hs) = Ok (tt, (m1, Some hs)) /\
    load32 m1 a = Ok MOJO_HANDLE_INVALID.
Proof.
  intros Ha Hv. unfold decode_handle. rewrite (non_null_pos a Ha).
  destruct (mstore_Ok 4 a MOJO_HANDLE_INVALID m (Some hs)) as (m1 & Hs & Hl);
    [by eapply load_Ok_mapped|].
  exists m1. split; [|done]. apply wp_unit.
  wp_step. apply wp_assert; [done|]. wp_step. apply wp_on_snd. wp_step. cbn [snd].
  wp_step. eapply wp_mload; [exact Hv|]. rewrite Z.eqb_refl. apply wp_run. by eexists _, _.
Qed.

Lemma decode_handle_index_run m hs a nh i h :
  0 < a -> load32 m a = Ok i -> i <> kEncodedHandleInvalid -> i < nh ->
  hs !! Z.to_nat i = Some h -> 0 <= h < 2 ^ 32 ->
  exists m1, decode_handle a nh (m, Some hs) =
      Ok (tt, (m1, Some (<[Z.to_nat i := MOJO_HANDLE_INVALID]> hs))) /\
    load32 m1 a = Ok h.
Proof.
  intros Ha Hv Hi Hnh Hh Hr. unfold decode_handle. rewrite (non_null_pos a Ha).
  destruct (mstore_Ok 4 a h m (Some hs)) as (m1 & Hs & Hl); [by eapply load_Ok_mapped|].
  exists m1. split; [|rewrite Hl; f_equal; by apply Z.mod_small]. apply wp_unit.
  wp_step. apply wp_assert; [done|]. wp_step. apply wp_on_snd. wp_step. cbn [snd].
  wp_step. eapply wp_mload; [exact Hv|].
  rewrite (proj2 (Z.eqb_neq i kEncodedHandleInvalid)) by done.
  wp_step. apply wp_assert; [by apply Z.ltb_lt|].
  wp_step. apply (wp_lift _ h); [by rewrite Hh|].
  wp_step. apply wp_run. eexists _, _. split; [exact Hs|]. by apply wp_on_snd; wp_step.
Qed.

(** One more slot decoded before the others. *)
Lemma decoded_cons m m1 m' hs hs1 e evs :
  agree (fun a => ~ event_bytes e a) m m1 -> agree (untouched evs) m1 m' ->
  Forall (event_disjoint e) evs ->
  (forall i, i ∈ taken m evs -> hs1 !! Z.to_nat i = hs !! Z.to_nat i) ->
  decoded_event m m1 hs e -> Forall (decoded_event m1 m' hs1) evs ->
  Forall (decoded_event m m' hs) (e :: evs).
Proof.
  intros Hag Hag' Hd Hhs (v & v' & Hv & Hv' & He) Hall. constructor.
  { exists v, v'. split; [done|]. split; [|done].
    by rewrite <- Hv', (event_load_untouched m1 m' e evs). }
  rewrite Forall_forall in *. intros e' He'.
  destruct (Hall e' He') as (w & w' & Hw & Hw' & Hee). exists w, w'.
  rewrite (event_load_agree m m1 e e' Hag (Hd e' He')) in Hw.
  split; [done|]. split; [done|]. destruct e' as [a|a b]; [done|].
  destruct (Z.eqb_spec w kEncodedHandleInvalid); [done|]. rewrite <- Hhs; [done|].
  clear -He' Hw n. unfold event_load in Hw; simpl in Hw.
  induction evs as [|e evs IH]; [by inversion He'|].
  inversion He'; subst; cbn [taken].
  - rewrite Hw, (proj2 (Z.eqb_neq w _)) by done. by left.
  - destruct e; [auto|]. destruct (load32 m a0); auto. case_match; [auto|right; auto].
Qed.

Section DecodeRun.
Context (lim nh : Z) (Hlim : lim <= 2 ^ 64) (Hnh : nh < 2 ^ 32).

Lemma decode_one e evs m hs h h' :
  0 < event_addr e < 2 ^ 64 -> pointers_ok Encoded m lim (e :: evs) ->
  handles_ok m nh h (e :: evs) h' -> 0 <= h -> Z.of_nat (length hs) = nh ->
  Forall (fun x => 0 <= x < 2 ^ 32) hs ->
  exists m1 hs1 h1, decode_step nh e (m, Some hs) = Ok (tt, (m1, Some hs1)) /\
    decoded_event m m1 hs e /\ length hs1 = length hs /\ 0 <= h1 /\
    handles_ok m nh h1 evs h' /\ Forall (fun x => 0 <= x < 2 ^ 32) hs1 /\
    (hs1 = hs /\ taken m (e :: evs) = taken m evs \/
     exists i, i < h1 /\ 0 <= i < Z.of_nat (length hs) /\ taken m (e :: evs) = i :: taken m evs /\
       hs1 = <[Z.to_nat i := MOJO_HANDLE_INVALID]> hs).
Proof.
  intros Ha Hp Hh Hh0 Hlen Hr. cbn [decode_step taken]. destruct e as [a|a b]; cbn [event_addr] in Ha.
  - destruct (Hp a) as (v & Hv & Hv'); [by left|]. pose proof (load_range _ _ _ _ Hv).
    simpl in Hv'. assert (0 <= a + v < 2 ^ 64) by (destruct (decide (v = 0)); lia).
    destruct (decode_pointer_run m (Some hs) a v) as (m1 & Hst & Hl); [done..|].
    inversion Hh; subst. exists m1, hs, h. repeat (split; [done|]). split; [by exists v; eauto|].
    repeat (split; [done|]). by left.
  - inversion Hh as [| |? ? ? ? Hv Hh'|? ? ? i ? ? Hv Hi Hb Hh']; subst; cbn [decode_step taken];
      rewrite Hv.
    + destruct (decode_handle_null_run m hs a (Z.of_nat (length hs))) as (m1 & Hst & Hl); [lia|done|].
      exists m1, hs, h. split; [done|]. split; [by eexists _, _; cbn; rewrite Z.eqb_refl|].
      repeat (split; [done|]). left. by rewrite Z.eqb_refl.
    + destruct (lookup_lt_is_Some_2 hs (Z.to_nat i)) as [w Hw]; [lia|].
      rewrite Forall_forall in Hr.
      destruct (decode_handle_index_run m hs a (Z.of_nat (length hs)) i w) as (m1 & Hst & Hl); try done;
        [lia|lia|by eapply Hr, list_elem_of_lookup_2|].
      rewrite (proj2 (Z.eqb_neq i kEncodedHandleInvalid)) by done.
      eexists m1, _, (i + 1). split; [exact Hst|].
      split; [eexists _, _; split; [exact Hv|]; split; [exact Hl|];
        by rewrite (proj2 (Z.eqb_neq i kEncodedHandleInvalid))|].
      rewrite length_insert. repeat (split; [done || lia|]). split.
      * apply Forall_insert; [by apply Forall_forall|done].
      * right. exists i. repeat (split; [done || lia|]). done.
Qed.

(** Decoding a list of disjoint slots succeeds, decodes each of them, and
    takes the handles they name out of the array. *)
Lemma runs_decode evs m hs h h' :
  events_disjoint evs -> Forall (fun e => 0 < event_addr e < 2 ^ 64) evs ->
  pointers_ok Encoded m lim evs ->
  handles_ok m nh h evs h' -> 0 <= h -> Z.of_nat (length hs) = nh ->
  Forall (fun x => 0 <= x < 2 ^ 32) hs ->
  exists m' hs', runs (decode_step nh) evs (m, Some hs) (m', Some hs') /\
    Forall (decoded_event m m' hs) evs /\ length hs' = length hs /\
    forall j : nat, hs' !! j =
      if bool_decide (Z.of_nat j ∈ taken m evs) then Some MOJO_HANDLE_INVALID else hs !! j.
Proof.
  revert m hs h. induction evs as [|e evs IH]; intros m hs h Hdis Hpos Hp Hh Hh0 Hlen Hr.
  { exists m, hs. split; [constructor|]. split; [constructor|]. done. }
  destruct Hdis as [Hde Hdis]. inversion_clear Hpos as [|? ? Hpe Hpos'].
  destruct (decode_one e evs m hs h h' Hpe Hp Hh Hh0 Hlen Hr)
    as (m1 & hs1 & h1 & Hst & He & Hl1 & Hh1 & Hh' & Hr1 & Htk).
  pose proof (decode_step_local _ _ _ _ Hst) as Hag; simpl in Hag.
  destruct (IH m1 hs1 h1) as (m' & hs' & Hrun & Hdec & Hl' & Hhs'); try done.
  { by eapply pointers_ok_cons. }
  { by eapply handles_ok_agree. }
  { by rewrite Hl1. }
  rewrite (taken_agree m m1 e evs Hag Hde) in Hhs'.
  exists m', hs'. split; [by econstructor|]. split; [|split; [lia|]].
  - apply (decoded_cons m m1 m' hs hs1); try done.
    + by apply (runs_untouched (decode_step nh) (decode_step_local _)) in Hrun.
    + intros i Hi. destruct Htk as [[-> _]|(i0 & Hlt & Hi0 & _ & ->)]; [done|].
      pose proof (taken_ge _ _ _ _ _ Hh') as Hge. rewrite Forall_forall in Hge.
      specialize (Hge i Hi). rewrite list_lookup_insert_ne; [done|lia].
  - intros j. rewrite Hhs'. destruct Htk as [[-> ->]|(i0 & Hlt & Hi0 & -> & ->)]; [done|].
    destruct (decide (Z.of_nat j = i0)) as [<-|Hne].
    + rewrite (bool_decide_eq_true_2 (_ ∈ _ :: _)) by by left.
      case_bool_decide; [done|]. rewrite Nat2Z.id. apply list_lookup_insert_eq. lia.
    + rewrite list_lookup_insert_ne by lia.
      rewrite (bool_decide_ext (Z.of_nat j ∈ i0 :: taken m evs) (Z.of_nat j ∈ taken m evs)); [done|].
      rewrite elem_of_cons. split; [by intros [?|?]|by right].
Qed.
End DecodeRun.

(** * Encoding *)

(** The valid handles a message refers to, in traversal order: what encoding
    moves to the handle buffer. *)
Fixpoint collected (m : mem) (evs : list event) : list Z :=
  match evs with
  | [] => []
  | EPtr _ :: evs => collected m evs
  | EHandle a _ :: evs =>
      match load32 m a with
      | Ok h => if h =? MOJO_HANDLE_INVALID then collected m evs else h :: collected m evs
      | _ => collected m evs
      end
  end.

(** Every slot encoded, the valid handles by consecutive indices from [u]. *)
Fixpoint encoded_events (m m' : mem) (u : Z) (evs : list event) : Prop :=
  match evs with
  | [] => True
  | EPtr a :: evs =>
      (exists v, load64 m a = Ok v /\ load64 m' a = Ok (if v =? 0 then 0 else v - a)) /\
      encoded_events m m' u evs
  | EHandle a _ :: evs =>
      exists h, load32 m a = Ok h /\
        if h =? MOJO_HANDLE_INVALID
        then load32 m' a = Ok kEncodedHandleInvalid /\ encoded_events m m' u evs
        else load32 m' a = Ok u /\ encoded_events m m' (u + 1) evs
  end.

(** The handle slots can be encoded: null only where it is allowed. *)
Definition handles_present (m : mem) (evs : list event) : Prop :=
  forall a nullable, EHandle a nullable ∈ evs ->
    exists h, load32 m a = Ok h /\ (h = MOJO_HANDLE_INVALID -> nullable = true).

Lemma handles_present_cons m m1 e evs :
  agree (fun a => ~ event_bytes e a) m m1 -> Forall (event_disjoint e) evs ->
  handles_present m (e :: evs) -> handles_present m1 evs.
Proof.
  intros Hag Hd Hp a b Ha. destruct (Hp a b) as (h & Hh & Hn); [by apply list_elem_of_further|].
  exists h. split; [|done]. rewrite Forall_forall in Hd. rewrite <- Hh.
  apply (event_load_agree m m1 e (EHandle a b)); auto.
Qed.

Lemma collected_agree m m1 e evs :
  agree (fun a => ~ event_bytes e a) m m1 -> Forall (event_disjoint e) evs ->
  collected m1 evs = collected m evs.
Proof.
  intros Hag. induction 1 as [|e' evs He _ IH]; [done|].
  destruct e' as [a|a b]; cbn [collected]; [done|]. rewrite IH.
  pose proof (event_load_agree m m1 e (EHandle a b) Hag He) as Hl.
  unfold event_load in Hl; simpl in Hl. by rewrite Hl.
Qed.

Lemma encoded_events_agree m m1 m' u e evs :
  agree (fun a => ~ event_bytes e a) m m1 -> Forall (event_disjoint e) evs ->
  encoded_events m1 m' u evs -> encoded_events m m' u evs.
Proof.
  intros Hag Hd. revert u. induction Hd as [|e' evs He _ IH]; intros u; [done|].
  pose proof (event_load_agree m m1 e e' Hag He) as Hl. unfold event_load in Hl.
  destruct e' as [a|a b]; cbn [encoded_events event_width event_addr] in *; rewrite Hl.
  - intros [? ?]. auto.
  - intros (h & Hh & H). exists h. split; [done|].
    destruct (h =? _); destruct H as [? ?]; auto.
Qed.

Section EncodeRun.
Context (lim : Z) (Hlim : lim <= 2 ^ 64).

Lemma encode_pointer_run {X} m (x : X) a v :
  0 < a -> load64 m a = Ok v -> (v <> 0 -> a < v < lim) ->
  exists m1, encode_pointer a (lim - a) (m, x) = Ok (tt, (m1, x)) /\
    load64 m1 a = Ok (if v =? 0 then 0 else v - a).
Proof.
  intros Ha Hv Hr. pose proof (load_Ok_mapped _ _ _ _ Hv) as Hm. unfold encode_pointer, NULL.
  destruct (Z.eqb_spec v 0) as [->|Hv0].
  - destruct (mstore_Ok 8 a 0 m x Hm) as (m1 & Hs & Hl). exists m1. split; [|done].
    apply wp_unit. wp_step. eapply wp_mload; [exact Hv|]. apply wp_run. by eexists _, _.
  - specialize (Hr Hv0). destruct (mstore_Ok 8 a (v - a) m x Hm) as (m1 & Hs & Hl). exists m1.
    split; [|rewrite Hl; f_equal; apply Z.mod_small; simpl; lia].
    apply wp_unit. wp_step. eapply wp_mload; [exact Hv|].
    rewrite (proj2 (Z.eqb_neq v 0)) by done. rewrite wrap64_small by lia.
    wp_step. apply wp_assert; [apply Z.gtb_lt; lia|].
    wp_step. apply wp_assert; [apply Z.ltb_lt; lia|]. apply wp_run. by eexists _, _.
Qed.

Lemma encode_handle_null_run m hb hs a :
  0 < a -> handles hb = Some hs -> load32 m a = Ok MOJO_HANDLE_INVALID ->
  exists m1, encode_handle true a (m, Some hb) = Ok (tt, (m1, Some hb)) /\
    load32 m1 a = Ok kEncodedHandleInvalid.
Proof.
  intros Ha Hhs Hv.
  destruct (mstore_Ok 4 a kEncodedHandleInvalid m (Some hb)) as (m1 & Hs & Hl);
    [by eapply load_Ok_mapped|].
  exists m1. split; [|done]. apply wp_unit. unfold encode_handle.
  wp_step. apply wp_assert; [by apply non_null_pos|]. wp_step. apply wp_on_snd. wp_step. cbn [snd].
  rewrite Hhs. wp_step. eapply wp_mload; [exact Hv|]. rewrite Z.eqb_refl.
  wp_step. apply wp_assert; [done|]. apply wp_run. by eexists _, _.
Qed.

Definition hbuf (hs : list Z) (num u : Z) : MojomHandleBuffer :=
  {| handles := Some hs; num_handles := num; num_handles_used := u |}.

Lemma encode_handle_index_run m hs num u b a h :
  0 < a -> load32 m a = Ok h -> h <> MOJO_HANDLE_INVALID -> 0 <= u < num ->
  num <= Z.of_nat (length hs) -> num < 2 ^ 32 ->
  exists m1, encode_handle b a (m, Some (hbuf hs num u)) =
      Ok (tt, (m1, Some (hbuf (<[Z.to_nat u := h]> hs) num (u + 1)))) /\
    load32 m1 a = Ok u.
Proof.
  intros Ha Hv Hh Hu Hnum Hnum'.
  destruct (lookup_lt_is_Some_2 hs (Z.to_nat u)) as [w Hw]; [lia|].
  destruct (mstore_Ok 4 a u m (Some (hbuf (<[Z.to_nat u := h]> hs) num (u + 1)))) as (m1 & Hs & Hl);
    [by eapply load_Ok_mapped|].
  exists m1. split; [|rewrite Hl; f_equal; apply Z.mod_small; simpl; lia].
  apply wp_unit. unfold encode_handle.
  wp_step. apply wp_assert; [by apply non_null_pos|]. wp_step. apply wp_on_snd. wp_step.
  cbn [snd hbuf handles num_handles num_handles_used].
  wp_step. eapply wp_mload; [exact Hv|]. rewrite (proj2 (Z.eqb_neq h _)) by done.
  wp_step. apply wp_assert; [apply Z.ltb_lt; lia|].
  wp_step. apply (wp_lift _ w); [by rewrite Hw|].
  wp_step. apply wp_on_snd. wp_step. rewrite wrap32_small by lia.
  apply wp_run. by eexists _, _.
Qed.

Lemma encode_one e evs m hs num u :
  0 < event_addr e < 2 ^ 64 -> Forall (event_disjoint e) evs ->
  pointers_ok Decoded m lim (e :: evs) -> handles_present m (e :: evs) ->
  0 <= u -> u + Z.of_nat (length (collected m (e :: evs))) <= num ->
  num <= Z.of_nat (length hs) -> num < 2 ^ 32 ->
  exists m1 hs1 u1, encode_step lim e (m, Some (hbuf hs num u)) =
      Ok (tt, (m1, Some (hbuf hs1 num u1))) /\ length hs1 = length hs /\ 0 <= u1 /\
    u1 + Z.of_nat (length (collected m evs)) = u + Z.of_nat (length (collected m (e :: evs))) /\
    list_inserts (Z.to_nat u) (collected m (e :: evs)) hs =
      list_inserts (Z.to_nat u1) (collected m evs) hs1 /\
    forall m', agree (untouched evs) m1 m' -> encoded_events m m' u1 evs ->
      encoded_events m m' u (e :: evs).
Proof.
  intros Ha Hd Hp Hh Hu Hnum Hlen Hn. cbn [encode_step collected encoded_events] in *.
  destruct e as [a|a b]; cbn [event_addr] in Ha.
  - destruct (Hp a) as (v & Hv & Hv'); [by left|]. cbn [target] in Hv'.
    destruct (encode_pointer_run m (Some (hbuf hs num u)) a v) as (m1 & Hst & Hl); [lia|done|done|].
    exists m1, hs, u. repeat (split; [done|]). intros m' Hag Henc. split; [|done].
    exists v. split; [done|]. rewrite <- Hl. by apply (event_load_untouched m1 m' (EPtr a) evs).
  - destruct (Hh a b) as (h & Hv & Hb); [by left|]. rewrite Hv in *.
    destruct (Z.eqb_spec h MOJO_HANDLE_INVALID) as [Heq|Hne].
    + rewrite Hb by done. rewrite Heq in Hv.
      destruct (encode_handle_null_run m (hbuf hs num u) hs a) as (m1 & Hst & Hl); [lia|done|done|].
      exists m1, hs, u. repeat (split; [done|]). intros m' Hag Henc. eexists. split; [done|].
      rewrite (proj2 (Z.eqb_eq h _)) by done. split; [|done]. rewrite <- Hl.
      by apply (event_load_untouched m1 m' (EHandle a true) evs).
    + cbn [length] in *.
      destruct (encode_handle_index_run m hs num u b a h) as (m1 & Hst & Hl); try done; [lia|lia|].
      eexists m1, _, (u + 1). split; [exact Hst|]. rewrite length_insert.
      split; [done|]. split; [lia|]. split; [lia|]. split.
      { cbn [list_inserts]. replace (Z.to_nat (u + 1)) with (S (Z.to_nat u)) by lia.
        by rewrite list_insert_inserts_lt by lia. }
      intros m' Hag Henc. exists h. split; [done|]. rewrite (proj2 (Z.eqb_neq h _)) by done.
      split; [|done]. rewrite <- Hl. by apply (event_load_untouched m1 m' (EHandle a b) evs).
Qed.

(** Encoding a list of disjoint slots succeeds, encodes each of them, and
    appends the valid handles to the buffer. *)
Lemma runs_encode evs m hs num u :
  events_disjoint evs -> Forall (fun e => 0 < event_addr e < 2 ^ 64) evs ->
  pointers_ok Decoded m lim evs -> handles_present m evs ->
  0 <= u -> u + Z.of_nat (length (collected m evs)) <= num ->
  num <= Z.of_nat (length hs) -> num < 2 ^ 32 ->
  exists m', runs (encode_step lim) evs (m, Some (hbuf hs num u))
      (m', Some (hbuf (list_inserts (Z.to_nat u) (collected m evs) hs) num
                   (u + Z.of_nat (length (collected m evs))))) /\
    encoded_events m m' u evs.
Proof.
  revert m hs u. induction evs as [|e evs IH]; intros m hs u Hdis Hpos Hp Hh Hu Hnum Hlen Hn.
  { exists m. split; [|done]. simpl. rewrite Z.add_0_r. constructor. }
  destruct Hdis as [Hde Hdis]. inversion Hpos as [|? ? Hpe Hpos']; subst.
  destruct (encode_one e evs m hs num u Hpe Hde Hp Hh Hu Hnum Hlen Hn)
    as (m1 & hs1 & u1 & Hst & Hl1 & Hu1 & Hcnt & Hins & Hev).
  pose proof (encode_step_local _ _ _ _ Hst) as Hag; simpl in Hag.
  pose proof (collected_agree m m1 e evs Hag Hde) as Hcol.
  destruct (IH m1 hs1 u1) as (m' & Hrun & Henc); try done; try (rewrite ?Hcol; lia).
  { by eapply pointers_ok_cons. }
  { by eapply handles_present_cons. }
  exists m'. rewrite Hins, <- Hcnt, <- Hcol. split; [by econstructor|].
  apply Hev; [|by eapply encoded_events_agree].
  by apply (runs_untouched _ (encode_step_local lim)) in Hrun.
Qed.
End EncodeRun.
