(* ===== verification/Relocate.v ===== *)
(** The encoded form does not depend on its address: copying the bytes of an
    encoded graph elsewhere gives the same graph there. Also, what the layout
    relation says of the pointers a graph contains. *)
From stdpp Require Import base numbers list option gmap.
From coqutil Require Import Byte.
From Stdlib Require Import ZArith Lia.
From S2P Require Import Prelude CMem Buffer Descriptor Validate Layout LayoutFacts ValidateFacts.
From S2P Require Import Codec CodecFacts CodecRuns.

Definition shift_slot (delta : Z) (s : slot) : slot := {|
  s_type := s_type s; s_desc := s_desc s; s_nullable := s_nullable s; s_addr := s_addr s + delta;
|}.

Definition shift_event (delta : Z) (e : event) : event :=
  match e with
  | EPtr a => EPtr (a + delta)
  | EHandle a nullable => EHandle (a + delta) nullable
  end.

Lemma struct_slots_shift es ver t delta :
  struct_slots es ver (t + delta) = shift_slot delta <$> struct_slots es ver t.
Proof.
  unfold struct_slots. rewrite <- list_fmap_compose. apply list_fmap_ext. intros _ e _.
  unfold entry_slot, shift_slot; simpl. f_equal. lia.
Qed.

Lemma element_slots_shift d t delta i k :
  element_slots d (t + delta) i k = shift_slot delta <$> element_slots d t i k.
Proof.
  revert i. induction k as [|k IH]; intros i; [done|]. cbn [element_slots]. rewrite fmap_cons, IH.
  f_equal. unfold element_slot, shift_slot; simpl. f_equal. lia.
Qed.

Lemma array_slots_shift d t delta n :
  array_slots d (t + delta) n = shift_slot delta <$> array_slots d t n.
Proof. unfold array_slots. destruct (is_pod _); [done|]. apply element_slots_shift. Qed.

Lemma union_entry_slot_shift u delta e :
  union_entry_slot (u + delta) e = shift_slot delta (union_entry_slot u e).
Proof. unfold union_entry_slot, shift_slot; simpl. f_equal. lia. Qed.

Section Relocate.
Context (E : denv) (HE : env_wf E = true) (Hnu : no_union_ptr E = true).

(** Every pointer of a graph is null or leads forward inside the buffer. *)
Lemma lay_pointers f m lim :
  (forall s np np' evs, lay E f m lim s np np' evs -> slot_wf E s -> pointers_ok f m lim evs) /\
  (forall l np np' evs, lays E f m lim l np np' evs ->
     forall lo, slots_ok E lo np l -> pointers_ok f m lim evs).
Proof.
  apply lay_lays_ind.
  - intros s np Hty Hn Hv _ a Ha. apply list_elem_of_singleton in Ha. simplify_eq.
    by exists 0.
  - intros s np np' evs v t d nb ver Hty Hv Hv0 Ht Hp Hd Hnb Hver Hmin Hlim _ Hsz _ IH _ (_&_&_&Hpos).
    pose proof Hp as (?&?&_&_). unfold sizeof_MojomStructHeader in Hmin.
    pose proof (struct_slots_ok E d ver t nb (struct_desc_wf E _ d HE Hd) Hsz ltac:(lia)) as Hok.
    intros a Ha. inversion Ha; subst; [exists v; split; [done|lia]|by eapply IH].
  - intros s np np' evs v t d nb n Hty Hv Hv0 Ht Hp Hd Hnb Hn Hlim Hh _ IH (_&_&_&Hpos).
    pose proof Hp as (?&?&_&_). pose proof Hh as (Hmin&_&_). unfold sizeof_MojomArrayHeader in Hmin.
    pose proof (load_range _ _ _ _ Hn).
    pose proof (array_slots_ok E d nb n t (array_desc_wf E _ d HE Hd) Hh ltac:(lia) ltac:(lia)) as Hok.
    intros a Ha. inversion Ha; subst; [exists v; split; [done|lia]|by eapply IH].
  - intros s np _ _ _ _ a Ha. inversion Ha.
  - intros s np d sz tag _ _ _ _ _ _ _ a Ha. inversion Ha.
  - intros s np np' evs d sz tag e Hty _ _ _ Hd _ He _ IH (_&_&_&Hpos).
    by destruct (active_entry_slot_wf E HE Hnu _ d tag e (s_addr s) Hd He Hpos) as (Hwf & _); auto.
  - intros s np _ _ a Ha. apply list_elem_of_singleton in Ha. done.
  - intros np lo _ a Ha. inversion Ha.
  - intros s l np np1 np2 evs1 evs2 Hs IHs Hl IHl lo Hok a Ha.
    inversion Hok as [|? ? Hwf Hlo Hend Hdj Hok']; subst.
    pose proof (proj1 (lay_bounds E HE Hnu f m lim) _ _ _ _ Hs Hwf Hend) as (Hle&_).
    apply elem_of_app in Ha as [Ha|Ha]; [by apply IHs|].
    eapply IHl; [by eapply slots_ok_weaken|done].
Qed.

Context (m m2 : mem) (lo lim delta : Z).
Context (Hlo : 0 < lo) (Hlo2 : 0 < lo + delta).
Context (Hcopy : forall a, lo <= a < lim -> m2 !! (a + delta) = m !! a).

Lemma load_shift n a : lo <= a -> a + Z.of_nat n <= lim -> load n m2 (a + delta) = load n m a.
Proof.
  intros ??. apply load_ext. intros i Hi. rewrite <- Hcopy by lia. f_equal. lia.
Qed.

Lemma load_shift_add n a k :
  lo <= a + k -> a + k + Z.of_nat n <= lim -> load n m2 (a + delta + k) = load n m (a + k).
Proof. intros. rewrite <- load_shift by done. f_equal. lia. Qed.

Lemma pointer_ok_shift np a t :
  pointer_ok lim np a t -> pointer_ok (lim + delta) (np + delta) (a + delta) (t + delta).
Proof. unfold pointer_ok. replace (t + delta - (a + delta)) with (t - a) by lia. lia. Qed.

(** The count behind an array slot, for the maps. *)
Definition count_shifted (s : slot) : Prop :=
  s_type s = MOJOM_TYPE_DESCRIPTOR_TYPE_ARRAY_PTR ->
  map_count Encoded m2 (s_addr s + delta) = map_count Encoded m (s_addr s).

Lemma count_shift_ptr a v :
  lo <= a -> a + 8 <= lim -> load64 m a = Ok v -> (v <> 0 -> lo <= a + v /\ a + v + 8 <= lim) ->
  map_count Encoded m2 (a + delta) = map_count Encoded m a.
Proof.
  intros ?? Hv Ht. unfold map_count. rewrite load_shift, Hv by (simpl; lia). cbn.
  destruct (Z.eqb_spec v 0); [done|]. destruct Ht; [done|].
  replace (a + delta + v + 4) with (a + v + 4 + delta) by lia. apply load_shift; simpl; lia.
Qed.

Lemma map_shift p d t ver n :
  desc_matches E MOJOM_TYPE_DESCRIPTOR_TYPE_MAP_PTR p = true -> struct_desc E p = Ok d -> 0 <= ver ->
  (forall s, s ∈ struct_slots (sd_entries d) ver t -> count_shifted s) ->
  map_count Encoded m (t + 8) = Ok n /\ map_count Encoded m (t + 16) = Ok n ->
  map_count Encoded m2 (t + delta + 8) = Ok n /\ map_count Encoded m2 (t + delta + 16) = Ok n.
Proof.
  intros Hm Hd Hver H Hn. simpl in Hm. rewrite Hd in Hm. unfold is_map_desc in Hm.
  apply andb_true_iff in Hm as [Hk Hv].
  destruct (map_slots d ver t 0 Hk Hver) as (s1 & Hs1 & Ht1 & Ha1).
  destruct (map_slots d ver t 8 Hv Hver) as (s2 & Hs2 & Ht2 & Ha2).
  specialize (H s1 Hs1 Ht1) as H1. specialize (H s2 Hs2 Ht2) as H2.
  rewrite Ha1, Z.add_0_r in H1. rewrite Ha2 in H2.
  replace (t + delta + 8) with (t + 8 + delta) by lia. rewrite H1.
  replace (t + delta + 16) with (t + 8 + 8 + delta) by lia. rewrite H2.
  by replace (t + 8 + 8) with (t + 16) by lia.
Qed.

Lemma lay_shift :
  (forall s np np' evs, lay E Encoded m lim s np np' evs ->
     slot_wf E s -> lo <= s_addr s -> slot_end s <= np -> slot_end s <= lim ->
     lay E Encoded m2 (lim + delta) (shift_slot delta s) (np + delta) (np' + delta)
       (shift_event delta <$> evs) /\ count_shifted s) /\
  (forall l np np' evs, lays E Encoded m lim l np np' evs ->
     forall lo', slots_ok E lo' np l -> lo <= lo' -> np <= lim ->
     lays E Encoded m2 (lim + delta) (shift_slot delta <$> l) (np + delta) (np' + delta)
       (shift_event delta <$> evs) /\ forall s, s ∈ l -> count_shifted s).
Proof.
  apply lay_lays_ind.
  - intros s np Hty Hn Hv Hwf Hs Hend Hlim. pose proof (object_ptr_size s Hty). split.
    + apply lay_null; [done..|]. cbn [shift_slot s_addr]. by rewrite load_shift by (simpl; lia).
    + intros _. apply (count_shift_ptr _ 0); [lia|lia|done|done].
  - intros s np np' evs v t d nb ver Hty Hv Hv0 Ht Hp Hd Hnb Hver Hmin Hlimt Hmod Hsz Hl IH Hmap
      Hwf Hs Hend Hlim.
    pose proof (object_ptr_size s (struct_ptr_object _ Hty)). pose proof Hp as (?&?&_&_).
    pose proof Hwf as (_&_&Hdm&_). unfold sizeof_MojomStructHeader in Hmin.
    pose proof (struct_slots_ok E d ver t nb (struct_desc_wf E _ d HE Hd) Hsz ltac:(lia)) as Hok.
    destruct (IH _ Hok ltac:(lia) Hlimt) as [Hl' Hcnt].
    split; [|intros Hty'; by rewrite Hty' in Hty].
    rewrite fmap_cons.
    eapply (lay_struct _ _ _ _ (shift_slot delta s) _ _ _ v (t + delta) d nb ver); cbn [shift_slot s_type s_desc s_addr];
      try done; try lia.
    + by rewrite load_shift by (simpl; lia).
    + subst t. simpl. lia.
    + by apply pointer_ok_shift.
    + by rewrite load_shift by (simpl; lia).
    + by rewrite load_shift_add by (simpl; lia).
    + rewrite struct_slots_shift. by replace (t + delta + nb) with (t + nb + delta) by lia.
    + intros Htm. destruct (Hmap Htm) as (n & Hn). exists n. rewrite Htm in Hdm.
      pose proof (load_range _ _ _ _ Hver). eapply (map_shift _ d t ver); try done; lia.
  - intros s np np' evs v t d nb n Hty Hv Hv0 Ht Hp Hd Hnb Hn Hlimt Hh Hl IH Hwf Hs Hend Hlim.
    assert (Hse : slot_end s = s_addr s + 8) by (unfold slot_end; by rewrite Hty).
    pose proof Hp as (?&?&_&_). pose proof Hh as (Hmin&_&_). unfold sizeof_MojomArrayHeader in Hmin.
    pose proof (load_range _ _ _ _ Hn).
    pose proof (array_slots_ok E d nb n t (array_desc_wf E _ d HE Hd) Hh ltac:(lia) ltac:(lia)) as Hok.
    destruct (IH _ Hok ltac:(lia) Hlimt) as [Hl' _]. split.
    + rewrite fmap_cons.
      eapply (lay_array _ _ _ _ (shift_slot delta s) _ _ _ v (t + delta) d nb n); cbn [shift_slot s_type s_desc s_addr];
        try done; try lia.
      * by rewrite load_shift by (simpl; lia).
      * subst t. simpl. lia.
      * by apply pointer_ok_shift.
      * by rewrite load_shift by (simpl; lia).
      * by rewrite load_shift_add by (simpl; lia).
      * rewrite array_slots_shift. by replace (t + delta + nb) with (t + nb + delta) by lia.
    + intros _. apply (count_shift_ptr _ v); [lia|lia|done|]. subst t. simpl in *. lia.
  - intros s np Hty Hn Hsz Hwf Hs Hend Hlim. split; [|intros Hty'; congruence].
    assert (Hse : slot_end s = s_addr s + 16) by (unfold slot_end; by rewrite Hty).
    apply lay_union_null; [done..|]. cbn [shift_slot s_addr]. by rewrite load_shift by (simpl; lia).
  - intros s np d sz tag Hty Hsz Hsz0 Hd Htag He Hwf Hs Hend Hlim. split; [|intros Hty'; congruence].
    assert (Hse : slot_end s = s_addr s + 16) by (unfold slot_end; by rewrite Hty).
    eapply lay_union_inactive; cbn [shift_slot s_type s_desc s_addr]; try done.
    + by rewrite load_shift by (simpl; lia).
    + by rewrite load_shift_add by (simpl; lia).
  - intros s np np' evs d sz tag e Hty Hsz Hsz0 Hn Hd Htag He Hl IH Hwf Hs Hend Hlim.
    split; [|intros Hty'; congruence].
    assert (Hse : slot_end s = s_addr s + 16) by (unfold slot_end; by rewrite Hty).
    pose proof Hwf as (_&_&_&Hpos).
    destruct (active_entry_slot_wf E HE Hnu _ d tag e (s_addr s) Hd He Hpos) as (Hwf' & Hend' & _).
    destruct IH as [Hl' _]; [done| |lia|lia|].
    { unfold union_entry_slot, offsetof_union_data; simpl. lia. }
    eapply lay_union_active; cbn [shift_slot s_type s_desc s_addr]; try done.
    + by rewrite load_shift by (simpl; lia).
    + by rewrite load_shift_add by (simpl; lia).
    + by rewrite union_entry_slot_shift.
  - intros s np Hty _ _ _ _. split; [by apply lay_handle|]. intros Hty'. rewrite Hty' in Hty.
    by destruct Hty.
  - intros np lo' _ _ _. split; [constructor|]. intros s Hs. inversion Hs.
  - intros s l np np1 np2 evs1 evs2 Hs IHs Hl IHl lo' Hok Hlo' Hnp.
    inversion Hok as [|? ? Hwf Hlos Hend Hdj Hok']; subst.
    pose proof (proj1 (lay_bounds E HE Hnu Encoded m lim) _ _ _ _ Hs Hwf Hend) as (Hle&Hle'&_).
    destruct IHs as [Hs' Hc]; [done|lia|lia|lia|].
    destruct (IHl lo') as [Hl' Hcl]; [by eapply slots_ok_weaken|lia|lia|].
    split.
    + rewrite fmap_cons, fmap_app. by econstructor.
    + intros s' Hin. inversion Hin; subst; auto.
Qed.
End Relocate.
