(* ===== verification/CodecSpec.v ===== *)
(** What encoding and decoding guarantee: a validated message decodes without
    failing an assertion or leaving the buffer; encoding restores it; and a
    graph sent to another address arrives as the same graph. *)
From stdpp Require Import base numbers list list_numbers option gmap.
From coqutil Require Import Byte Word.LittleEndianList.
From Stdlib Require Import ZArith Lia.
From S2P Require Import Prelude CMem Buffer Descriptor Validate Layout LayoutFacts ValidateFacts.
From S2P Require Import ValidateSpec Codec CodecFacts CodecRuns Relocate.

(** * Whole messages *)

Section Top.
Context (E : denv) (HE : env_wf E = true) (Hnu : no_union_ptr E = true).
Context (p : descptr) (t lim : Z) (Ht : 0 < t) (Hlim : lim < 2 ^ 64).

Lemma top_slots f m np' evs :
  lay_top E f m lim p t np' evs ->
  exists d nb ver, struct_desc E p = Ok d /\ load32 m t = Ok nb /\ load32 m (t + 4) = Ok ver /\
    8 <= nb /\ t + nb <= lim /\ nb mod 8 = 0 /\ size_ok d ver nb /\
    lays E f m lim (struct_slots (sd_entries d) ver t) (t + nb) np' evs /\
    slots_ok E (t + 8) (t + nb) (struct_slots (sd_entries d) ver t).
Proof.
  intros (d & nb & ver & Hd & Hnb & Hver & Hmin & Hlimt & Hmod & Hsz & Hl).
  exists d, nb, ver. repeat (split; [done|]).
  by apply (struct_slots_ok E), Ht; [by eapply struct_desc_wf|].
Qed.

(** The slots of a message: disjoint, after the header, before its end. *)
Lemma top_events f m np' evs :
  lay_top E f m lim p t np' evs ->
  t + 8 <= np' <= lim /\ events_disjoint evs /\ events_in (range (t + 8) np') evs /\
  Forall (fun e => 0 < event_addr e < 2 ^ 64) evs /\ pointers_ok f m lim evs.
Proof.
  intros Htop. destruct (top_slots _ _ _ _ Htop) as (d & nb & ver & _&_&_&?&?&_&_& Hl & Hok).
  pose proof (proj2 (lay_bounds E HE Hnu f m lim) _ _ _ _ Hl _ Hok) as (Hle&Hle'&Hin&Hdis).
  assert (Hin' : events_in (range (t + 8) np') evs).
  { eapply events_in_weaken; [exact Hin|]. intros a Ha.
    apply (fp_object _ _ _ _ _ _ Hok) in Ha. unfold range. lia. }
  split; [lia|]. split; [done|]. split; [done|]. split.
  - eapply Forall_impl; [exact Hin'|]. intros e He.
    specialize (He (event_addr e)). unfold event_bytes, range in He.
    pose proof (event_size_pos e). lia.
  - by eapply (proj2 (lay_pointers E HE Hnu f m lim)).
Qed.

(** Rewriting the slots of a message, and nothing else, so that its pointers
    lead to the same places, gives the message in its other form. *)
Lemma top_transport f f' m m' np' evs :
  lay_top E f m lim p t np' evs -> agree (untouched evs) m m' -> same_pointers f f' evs m m' ->
  lay_top E f' m' lim p t np' evs.
Proof.
  intros Htop Hag Hsp. destruct (top_events _ _ _ _ Htop) as (_&_&Hin&_&_).
  destruct (top_slots _ _ _ _ Htop) as (d & nb & ver & Hd & Hnb & Hver & ? & ? & ? & ? & Hl & Hok).
  assert (Hld : forall a, t <= a -> a + 4 <= t + 8 -> load32 m' a = load32 m a).
  { intros a ??. symmetry. apply load_agree. eapply agree_weaken; [exact Hag|].
    intros x Hx. eapply untouched_in; [exact Hin|]. unfold range in *. simpl in Hx. lia. }
  exists d, nb, ver. rewrite !Hld by lia. repeat (split; [done|]).
  eapply (proj2 (lay_transport E HE Hnu f f' m m' lim)); [exact Hl|exact Hok| |done].
  intros a _ Ha. by apply Hag.
Qed.
End Top.

(** Memories that agree on every slot, and outside them, are equal. *)
Lemma load_eq_agree n m m' a v :
  load n m a = Ok v -> load n m' a = Ok v -> agree (range a (a + Z.of_nat n)) m m'.
Proof.
  unfold load. destruct (load_bytes m a n) as [b|] eqn:Hb; [|done].
  destruct (load_bytes m' a n) as [b'|] eqn:Hb'; [|done]. intros [= Hv] [= Hv'].
  assert (b = b') as <-.
  { apply le_combine_inj; [|lia].
    by rewrite (load_bytes_length _ _ _ _ Hb), (load_bytes_length _ _ _ _ Hb'). }
  intros x Hx. unfold range in Hx.
  replace x with (a + Z.of_nat (Z.to_nat (x - a))) by lia.
  rewrite (load_bytes_lookup _ _ _ _ (Z.to_nat (x - a)) Hb) by lia.
  by rewrite (load_bytes_lookup _ _ _ _ (Z.to_nat (x - a)) Hb') by lia.
Qed.

Lemma events_restored m m' evs :
  agree (untouched evs) m m' ->
  Forall (fun e => exists v, event_load m e = Ok v /\ event_load m' e = Ok v) evs -> m' = m.
Proof.
  intros Hag Hev. apply map_eq. intros x.
  destruct (decide (Exists (fun e => event_addr e <= x < event_addr e + event_size e) evs)) as [Hx|Hx].
  - apply Exists_exists in Hx as (e & He & Hx). rewrite Forall_forall in Hev.
    destruct (Hev e He) as (v & Hv & Hv'). rewrite event_size_width in Hx.
    symmetry. by apply (load_eq_agree _ _ _ _ _ Hv Hv').
  - symmetry. apply Hag. apply not_Exists_Forall in Hx; [done|]. intros e. apply _.
Qed.

(** * Decoding a validated message *)

Lemma decoded_same_pointers m m' hs lim evs :
  lim < 2 ^ 64 -> Forall (fun e => 0 < event_addr e < 2 ^ 64) evs ->
  Forall (decoded_event m m' hs) evs -> same_pointers Encoded Decoded evs m m'.
Proof.
  intros Hlim Hpos Hdec a Ha. rewrite Forall_forall in Hdec, Hpos.
  destruct (Hdec _ Ha) as (v & v' & Hv & Hv' & ->). specialize (Hpos _ Ha).
  unfold event_load in *; cbn [event_width event_addr] in *. pose proof (load_range _ _ _ _ Hv).
  eexists _, _. split; [exact Hv|]. split; [exact Hv'|]. unfold NULL.
  destruct (Z.eqb_spec v 0); simpl; split; try done; lia.
Qed.

Section Message.
Context {E : denv} {m : mem} {p : descptr} {t size nh : Z}.
Context (R : received E m p t size nh).

(** Decoding the slots of a message in the wire format. *)
Lemma decode_wire fuel hs h h' np' evs :
  enough_fuel fuel size -> lay_top E Encoded m (t + size) p t np' evs ->
  handles_ok m nh h evs h' -> 0 <= h -> Z.of_nat (length hs) = nh ->
  Forall (fun x => 0 <= x < 2 ^ 32) hs ->
  exists m' hs', decode_struct E fuel p t size nh (m, Some hs) = Ok (tt, (m', Some hs')) /\
    lay_top E Decoded m' (t + size) p t np' evs /\
    agree (untouched evs) m m' /\ Forall (decoded_event m m' hs) evs /\
    length hs' = length hs /\
    forall j : nat, hs' !! j =
      if bool_decide (Z.of_nat j ∈ taken m evs) then Some MOJO_HANDLE_INVALID else hs !! j.
Proof.
  intros Hf Htop Hh Hh0 Hlen Hhs. destruct R as [HE Hnu _ Ha Hs Hm Hn]. unfold enough_fuel in Hf.
  destruct (top_events E HE Hnu p t (t + size) ltac:(lia) ltac:(lia) _ _ _ _ Htop)
    as (? & Hdis & Hin & Hpos & Hptr).
  destruct (runs_decode (t + size) nh ltac:(lia) ltac:(lia) evs m hs h h' Hdis Hpos Hptr Hh Hh0 Hlen Hhs)
    as (m' & hs' & Hrun & Hdec & Hl' & Hhs').
  pose proof (runs_untouched _ (decode_step_local nh) _ _ _ Hrun) as Hag; simpl in Hag.
  exists m', hs'. split; [|split; [|done]].
  - replace size with (t + size - t) at 1 by lia.
    apply (decode_struct_runs E HE Hnu nh m t (t + size)) with (np' := np') (evs := evs);
      try done; try lia. left. eauto.
  - eapply (top_transport E HE Hnu p t (t + size)); [lia|lia|exact Htop|done|].
    by eapply (decoded_same_pointers m m' hs (t + size)); [lia|..].
Qed.
End Message.

(** C3: decoding is safe on validated messages: after [MojomStruct_Validate] has
    returned [MOJOM_VALIDATION_ERROR_NONE], [MojomStruct_DecodePointersAndHandles]
    fails no assertion and touches nothing outside the message. It leaves the
    decoded form of the same graph: only the pointer and handle slots are
    rewritten, each relative offset by the address it led to and each handle
    index by the handle at that index, which is taken out of the array. *)
Theorem Decode_after_Validate E m p t size nh fuel c c' hs
    (R : received E m p t size nh) (Hfuel : enough_fuel fuel size)
    (Hc : 0 <= next_handle_index c)
    (Hr : validate_struct E m fuel p t size nh c = Ok (MOJOM_VALIDATION_ERROR_NONE, c'))
    (Hlen : Z.of_nat (length hs) = nh) (Hhs : Forall (fun x => 0 <= x < 2 ^ 32) hs) :
  exists m' hs' evs,
    decode_struct E fuel p t size nh (m, Some hs) = Ok (tt, (m', Some hs')) /\
    lay_top E Encoded m (t + size) p t (next_pointer c') evs /\
    lay_top E Decoded m' (t + size) p t (next_pointer c') evs /\
    agree (untouched evs) m m' /\ Forall (decoded_event m m' hs) evs /\
    (forall j : nat, hs' !! j =
       if bool_decide (Z.of_nat j ∈ taken m evs) then Some MOJO_HANDLE_INVALID else hs !! j).
Proof.
  destruct (validate_struct_decides R fuel c Hfuel) as (r & c1 & H & Hd).
  rewrite Hr in H. injection H as <- <-.
  destruct (proj2 (Hd c') ltac:(done)) as (evs & Hl & Hh).
  destruct (decode_wire R fuel hs _ _ _ evs Hfuel Hl Hh Hc Hlen Hhs)
    as (m' & hs' & ? & ? & ? & ? & _ & ?).
  by exists m', hs', evs.
Qed.

(** * Encoding a graph *)

(** What a sender has: the decoded form of a graph, laid out in one mapped
    buffer, with a valid handle wherever null is not allowed. *)
Record built (E : denv) (m : mem) (p : descptr) (t size np' : Z) (evs : list event) : Prop := {
  bt_env : env_wf E = true;
  bt_flat : no_union_ptr E = true;
  bt_addr : 0 < t /\ t + size < 2 ^ 64;
  bt_size : 0 <= size < 2 ^ 32;
  bt_mapped : mapped m t (t + size);
  bt_graph : lay_top E Decoded m (t + size) p t np' evs;
  bt_handles : handles_present m evs;
}.

Lemma encoded_pointer m m' u evs a :
  encoded_events m m' u evs -> EPtr a ∈ evs ->
  exists v, load64 m a = Ok v /\ load64 m' a = Ok (if v =? 0 then 0 else v - a).
Proof.
  revert u. induction evs as [|e evs IH]; intros u He Ha; [by inversion Ha|].
  inversion Ha; subst; cbn [encoded_events] in He.
  - by destruct He.
  - destruct e as [b|b c]; [destruct He; eauto|].
    destruct He as (h & _ & He). destruct (h =? _); destruct He; eauto.
Qed.

Lemma encoded_loads m m' u evs :
  encoded_events m m' u evs -> Forall (fun e => exists v, event_load m' e = Ok v) evs.
Proof.
  revert u. induction evs as [|e evs IH]; intros u He; [constructor|].
  destruct e as [b|b c]; cbn [encoded_events] in He.
  - destruct He as [(v & _ & Hv) He]. constructor; eauto.
  - destruct He as (h & _ & He). destruct (h =? _); destruct He; constructor; eauto.
Qed.

Lemma mapped_rewritten m m' evs lo hi :
  agree (untouched evs) m m' -> Forall (fun e => exists v, event_load m' e = Ok v) evs ->
  mapped m lo hi -> mapped m' lo hi.
Proof.
  intros Hag Hev Hm x Hx.
  destruct (decide (Exists (fun e => event_addr e <= x < event_addr e + event_size e) evs)) as [H|H].
  - apply Exists_exists in H as (e & He & Hxe). rewrite Forall_forall in Hev.
    destruct (Hev e He) as (v & Hv). apply load_Ok_mapped in Hv. apply Hv.
    by rewrite event_size_width in Hxe.
  - rewrite <- Hag; [by apply Hm|]. apply not_Exists_Forall in H; [done|]. intros e. apply _.
Qed.

Lemma encoded_same_pointers m m' lim u evs :
  pointers_ok Decoded m lim evs -> encoded_events m m' u evs -> same_pointers Decoded Encoded evs m m'.
Proof.
  intros Hp He a Ha. destruct (Hp a Ha) as (v & Hv & Hr).
  destruct (encoded_pointer _ _ _ _ _ He Ha) as (w & Hw & Hw').
  assert (w = v) as -> by congruence. eexists _, _. split; [exact Hv|]. split; [exact Hw'|].
  cbn [target] in *. destruct (Z.eqb_spec v 0); split; try done; lia.
Qed.

(** Encoded handle slots hold consecutive indices: what validation wants. *)
Lemma encoded_handles_ok m m' nh u evs :
  handles_present m evs -> encoded_events m m' u evs -> 0 <= u ->
  u + Z.of_nat (length (collected m evs)) <= nh -> nh < 2 ^ 32 ->
  handles_ok m' nh u evs (u + Z.of_nat (length (collected m evs))).
Proof.
  revert u. induction evs as [|e evs IH]; intros u Hp He Hu Hn Hnh.
  { simpl. rewrite Z.add_0_r. constructor. }
  assert (Hp' : handles_present m evs).
  { intros a b Ha. apply Hp. by right. }
  destruct e as [a|a b]; cbn [encoded_events collected] in *.
  - destruct He. constructor. auto.
  - destruct (Hp a b) as (h & Hh & Hb); [by left|]. rewrite Hh in *.
    destruct He as (h' & [= <-] & He). destruct (Z.eqb_spec h MOJO_HANDLE_INVALID) as [Heq|Hne].
    + destruct He. rewrite Hb by done. apply handles_null; auto.
    + destruct He as [Hi He]. cbn [length] in *.
      apply (handles_index _ _ _ _ _ u); [done|unfold kEncodedHandleInvalid; lia|lia|].
      replace (u + Z.of_nat (S (length (collected m evs))))
        with (u + 1 + Z.of_nat (length (collected m evs))) by lia.
      apply IH; try done; lia.
Qed.

Section Sender.
Context {E : denv} {m : mem} {p : descptr} {t size np' : Z} {evs : list event}.
Context (B : built E m p t size np' evs).

Lemma encode_built fuel hs num :
  enough_fuel fuel size -> Z.of_nat (length (collected m evs)) <= num ->
  num <= Z.of_nat (length hs) -> num < 2 ^ 32 ->
  exists m1,
    encode_struct E fuel p t size (m, Some (hbuf hs num 0)) =
      Ok (tt, (m1, Some (hbuf (list_inserts 0 (collected m evs) hs) num
                           (Z.of_nat (length (collected m evs)))))) /\
    encoded_events m m1 0 evs /\ agree (untouched evs) m m1 /\
    mapped m1 t (t + size) /\ lay_top E Encoded m1 (t + size) p t np' evs.
Proof.
  intros Hf Hcnt Hlen Hnum. destruct B as [HE Hnu Ha Hs Hm Htop Hh]. unfold enough_fuel in Hf.
  destruct (top_events E HE Hnu p t (t + size) ltac:(lia) ltac:(lia) _ _ _ _ Htop)
    as (? & Hdis & Hin & Hpos & Hptr).
  destruct (runs_encode (t + size) ltac:(lia) evs m hs num 0 Hdis Hpos Hptr Hh) as (m1 & Hrun & Henc);
    [lia..|].
  pose proof (runs_untouched _ (encode_step_local _) _ _ _ Hrun) as Hag; simpl in Hag.
  exists m1. split; [|split; [done|]; split; [done|]; split].
  - replace size with (t + size - t) at 1 by lia.
    apply (encode_struct_runs E HE Hnu m t (t + size)) with (np' := np') (evs := evs);
      try done; try lia.
  - eapply mapped_rewritten; [exact Hag|by eapply encoded_loads|done].
  - eapply (top_transport E HE Hnu p t (t + size)); [lia|lia|exact Htop|done|].
    by eapply encoded_same_pointers.
Qed.
End Sender.

(** Validating what an encoder produced. *)
Lemma wire_validates E m p t size nh fuel evs np' h' c :
  received E m p t size nh -> enough_fuel fuel size ->
  lay_top E Encoded m (t + size) p t np' evs -> handles_ok m nh (next_handle_index c) evs h' ->
  validate_struct E m fuel p t size nh c =
    Ok (MOJOM_VALIDATION_ERROR_NONE, {| next_handle_index := h'; next_pointer := np' |}).
Proof.
  intros R Hf Htop Hh. destruct (validate_struct_decides R fuel c Hf) as (r & c' & -> & Hd).
  destruct (Hd {| next_handle_index := h'; next_pointer := np' |}) as [Hd' _].
  destruct Hd' as [-> <-]; [|done]. by exists evs.
Qed.

(** C6: encoding a graph built in a buffer succeeds - no assertion fails, nothing
    outside the buffer is touched - whenever the handle buffer has room for the
    graph's handles. The handles are appended to the buffer in traversal order,
    and the bytes are accepted by [MojomStruct_Validate], which ends with all
    the handles and all the objects accounted for. *)
Theorem Encode_then_Validate E m p t size np' evs fuel hs num np0
    (B : built E m p t size np' evs) (Hfuel : enough_fuel fuel size)
    (Hroom : Z.of_nat (length (collected m evs)) <= num)
    (Hlen : num <= Z.of_nat (length hs)) (Hnum : num < 2 ^ 32) :
  let n := Z.of_nat (length (collected m evs)) in
  exists m1,
    encode_struct E fuel p t size (m, Some (hbuf hs num 0)) =
      Ok (tt, (m1, Some (hbuf (list_inserts 0 (collected m evs) hs) num n))) /\
    encoded_events m m1 0 evs /\ agree (untouched evs) m m1 /\
    validate_struct E m1 fuel p t size n {| next_handle_index := 0; next_pointer := np0 |} =
      Ok (MOJOM_VALIDATION_ERROR_NONE, {| next_handle_index := n; next_pointer := np' |}).
Proof.
  intros n. destruct (encode_built B fuel hs num Hfuel Hroom Hlen Hnum)
    as (m1 & Henc & Hev & Hag & Hm1 & Htop).
  exists m1. split; [done|]. split; [done|]. split; [done|].
  destruct B as [HE Hnu Ha Hs Hm Hg Hh].
  apply (wire_validates _ _ _ _ _ _ _ evs); [|done|done|].
  - split; try done; [|unfold n; lia]. destruct Htop as (d & _ & _ & Hd & _). eauto.
  - apply (encoded_handles_ok m m1 n 0 evs); try done; unfold n; lia.
Qed.

(** * Sending a graph to another address *)

(** A slot of the sender's graph and the same slot at the receiver: a pointer
    leads to the same place of the graph, a handle is null when it was null. *)
Definition delivered (delta : Z) (m m' : mem) (e : event) : Prop :=
  exists v v', event_load m e = Ok v /\ event_load m' (shift_event delta e) = Ok v' /\
    match e with
    | EPtr _ => v' = if v =? 0 then 0 else v + delta
    | EHandle _ _ => v = MOJO_HANDLE_INVALID <-> v' = MOJO_HANDLE_INVALID
    end.

Lemma delivered_events delta m m1 m2 m3 hs u lim evs :
  encoded_events m m1 u evs ->
  Forall (fun e => event_load m2 (shift_event delta e) = event_load m1 e) evs ->
  Forall (decoded_event m2 m3 hs) (shift_event delta <$> evs) ->
  pointers_ok Decoded m lim evs -> Forall (fun h => h <> MOJO_HANDLE_INVALID) hs ->
  0 <= u -> Z.of_nat (length hs) = u + Z.of_nat (length (collected m evs)) -> 
  Z.of_nat (length hs) < 2 ^ 32 ->
  Forall (delivered delta m m3) evs /\
  collected m3 (shift_event delta <$> evs) = drop (Z.to_nat u) hs.
Proof.
  intros Henc Hcopy Hdec Hp Hhs. revert u Henc. induction evs as [|e evs IH]; intros u Henc Hu Hlen Hmax.
  { split; [constructor|]. cbn in *. symmetry. apply drop_ge. lia. }
  inversion Hcopy as [|? ? Hc Hcopy']; inversion Hdec as [|? ? Hd Hdec']; subst.
  assert (Hp' : pointers_ok Decoded m lim evs) by (intros a Ha; apply Hp; by right).
  destruct Hd as (w & w' & Hw & Hw' & He). rewrite Hc in Hw. specialize (IH Hcopy' Hdec' Hp').
  rewrite fmap_cons. destruct e as [a|a b]; cbn [encoded_events shift_event collected] in *.
  - destruct Henc as [(v & Hv & Hv1) Henc]. destruct (IH u Henc Hu Hlen Hmax) as [IH1 IH2].
    split; [|done]. constructor; [|done]. unfold event_load in *; cbn [event_width event_addr] in *.
    exists v, w'. split; [done|]. split; [done|]. subst w'.
    assert (w = if v =? 0 then 0 else v - a) as -> by congruence.
    destruct (Hp a) as (v0 & Hv0 & Hr); [by left|]. assert (v0 = v) as -> by congruence.
    cbn [target] in Hr. destruct (Z.eqb_spec v 0); [done|].
    rewrite (proj2 (Z.eqb_neq (v - a) 0)) by lia. lia.
  - destruct Henc as (h & Hh & Henc). rewrite Hh in Hlen.
    unfold event_load in *; cbn [event_width event_addr shift_event] in *. rewrite Hw'.
    destruct (Z.eqb_spec h MOJO_HANDLE_INVALID) as [Heq|Hne].
    + destruct Henc as [Hi Henc]. destruct (IH u Henc Hu Hlen Hmax) as [IH1 IH2].
      assert (w = kEncodedHandleInvalid) as -> by congruence. cbn in He. subst w'. cbn.
      split; [|done]. constructor; [|done]. by exists h, MOJO_HANDLE_INVALID.
    + destruct Henc as [Hi Henc]. cbn [length] in Hlen.
      destruct (IH (u + 1) Henc) as [IH1 IH2]; [lia|lia|done|].
      assert (w = u) as -> by congruence.
      rewrite (proj2 (Z.eqb_neq u kEncodedHandleInvalid)) in He by (unfold kEncodedHandleInvalid; lia).
      assert (w' <> MOJO_HANDLE_INVALID) as Hw0.
      { rewrite Forall_forall in Hhs. by eapply Hhs, list_elem_of_lookup_2. }
      rewrite (proj2 (Z.eqb_neq w' _)) by done. split.
      * constructor; [|done]. by exists h, w'.
      * rewrite IH2, (drop_S hs w' (Z.to_nat u)) by done. f_equal. f_equal. lia.
Qed.

Lemma handles_ok_shift delta m1 m2 nh h evs h' :
  Forall (fun e => event_load m2 (shift_event delta e) = event_load m1 e) evs ->
  handles_ok m1 nh h evs h' -> handles_ok m2 nh h (shift_event delta <$> evs) h'.
Proof.
  intros Hc H. revert Hc.
  induction H as [|h a evs h' _ IH|h a evs h' Ha _ IH|h a b i evs h' Ha Hi Hr _ IH];
    intros Hc; rewrite ?fmap_cons; [constructor|..];
    inversion Hc as [|? ? Hl Hc']; subst; unfold event_load in Hl;
    cbn [event_width event_addr shift_event] in *.
  - constructor; auto.
  - apply handles_null; [congruence|auto].
  - apply (handles_index _ _ _ _ _ i); [congruence|done..|auto].
Qed.

Lemma copied_loads delta m1 m2 lo hi evs :
  (forall a, lo <= a < hi -> m2 !! (a + delta) = m1 !! a) -> events_in (range lo hi) evs ->
  Forall (fun e => event_load m2 (shift_event delta e) = event_load m1 e) evs.
Proof.
  intros Hcopy Hin. eapply Forall_impl; [exact Hin|]. intros e He.
  pose proof (event_size_pos e) as Hsz. pose proof (event_size_width e) as Hw.
  pose proof (He (event_addr e)) as H1. pose proof (He (event_addr e + event_size e - 1)) as H2.
  unfold event_bytes, range in H1, H2. unfold event_load.
  replace (event_addr (shift_event delta e)) with (event_addr e + delta) by by destruct e.
  replace (event_width (shift_event delta e)) with (event_width e) by by destruct e.
  apply (load_shift m1 m2 lo hi delta Hcopy); lia.
Qed.

Lemma untouched_shift delta evs a :
  untouched evs a -> untouched (shift_event delta <$> evs) (a + delta).
Proof.
  intros H. apply Forall_fmap. eapply Forall_impl; [exact H|]. intros e He Hx. apply He.
  unfold event_bytes, range in *. destruct e; simpl in *; lia.
Qed.

Lemma top_shift E p m1 m2 t t2 lim lim2 np' evs :
  env_wf E = true -> no_union_ptr E = true -> 0 < t -> lim < 2 ^ 64 -> 0 < t2 ->
  lim2 = lim + (t2 - t) ->
  (forall a, t <= a < lim -> m2 !! (a + (t2 - t)) = m1 !! a) ->
  lay_top E Encoded m1 lim p t np' evs ->
  lay_top E Encoded m2 lim2 p t2 (np' + (t2 - t)) (shift_event (t2 - t) <$> evs).
Proof.
  intros HE Hnu Ht Hlim Ht2 -> Hcopy Htop. assert (Heq : t2 = t + (t2 - t)) by lia.
  set (delta := t2 - t) in *. clearbody delta. subst t2.
  destruct (top_slots E HE p t lim Ht _ _ _ _ Htop) as (d & nb & ver & Hd & Hnb & Hver & ? & ? & ? & ? & Hl & Hok).
  exists d, nb, ver. rewrite (load_shift m1 m2 t lim _ Hcopy) by (simpl; lia).
  rewrite (load_shift_add m1 m2 t lim _ Hcopy) by (simpl; lia).
  unfold sizeof_MojomStructHeader. repeat (split; [done || lia|]).
  rewrite struct_slots_shift. replace (t + delta + nb) with (t + nb + delta) by lia.
  apply (proj2 (lay_shift E HE Hnu m1 m2 t lim delta Ht Hcopy) _ _ _ _ Hl _ Hok); lia.
Qed.

(** C4: a graph survives the trip. Encode it, copy the bytes to any other address
    (a receiver's buffer), and let the receiver validate and decode them with
    the handles it was given: validation accepts, decoding succeeds, and the
    receiver holds the decoded form of the same graph - every pointer leads to
    the same place relative to the buffer, the handles received fill the
    non-null handle slots in order, null handles are still null, and every
    other byte is the sender's. *)
Theorem Encode_transfer_Decode E m m1 m2 p t t2 size np' evs fuel hs num hs2 np0
    (B : built E m p t size np' evs) (Hfuel : enough_fuel fuel size)
    (Hroom : Z.of_nat (length (collected m evs)) <= num)
    (Hlen : num <= Z.of_nat (length hs)) (Hnum : num < 2 ^ 32)
    (Henc : exists hb, encode_struct E fuel p t size (m, Some (hbuf hs num 0)) = Ok (tt, (m1, hb)))
    (Ht2 : 0 < t2 /\ t2 + size < 2 ^ 64)
    (Hcopy : forall i, 0 <= i < size -> m2 !! (t2 + i) = m1 !! (t + i))
    (Hcount : length hs2 = length (collected m evs))
    (Hhs2 : Forall (fun h => 0 < h < 2 ^ 32) hs2) :
  let n := Z.of_nat (length hs2) in
  validate_struct E m2 fuel p t2 size n {| next_handle_index := 0; next_pointer := np0 |} =
    Ok (MOJOM_VALIDATION_ERROR_NONE, {| next_handle_index := n; next_pointer := np' + (t2 - t) |}) /\
  exists m3 hs3,
    decode_struct E fuel p t2 size n (m2, Some hs2) = Ok (tt, (m3, Some hs3)) /\
    lay_top E Decoded m3 (t2 + size) p t2 (np' + (t2 - t)) (shift_event (t2 - t) <$> evs) /\
    Forall (delivered (t2 - t) m m3) evs /\
    collected m3 (shift_event (t2 - t) <$> evs) = hs2 /\
    (forall a, t <= a < t + size -> untouched evs a -> m3 !! (a + (t2 - t)) = m !! a).
Proof.
  intros n. destruct (encode_built B fuel hs num Hfuel Hroom Hlen Hnum)
    as (m1' & Henc' & Hev & Hag & Hm1 & Htop). destruct Henc as [hb Henc].
  rewrite Henc' in Henc. injection Henc as -> _. set (delta := t2 - t) in *.
  destruct B as [HE Hnu Ha Hs Hm Hg Hh].
  assert (Hcp : forall a, t <= a < t + size -> m2 !! (a + delta) = m1 !! a).
  { intros a Hx. replace (a + delta) with (t2 + (a - t)) by lia. rewrite Hcopy by lia. f_equal. lia. }
  destruct (top_events E HE Hnu p t (t + size) ltac:(lia) ltac:(lia) _ _ _ _ Hg)
    as (? & Hdis & Hin & Hpos & Hptr).
  assert (Hld : Forall (fun e => event_load m2 (shift_event delta e) = event_load m1 e) evs).
  { eapply copied_loads; [exact Hcp|]. eapply events_in_weaken; [exact Hin|]. unfold range. lia. }
  assert (Htop2 : lay_top E Encoded m2 (t2 + size) p t2 (np' + delta) (shift_event delta <$> evs)).
  { apply (top_shift E p m1 m2 t t2 (t + size)); try done; lia. }
  assert (R : received E m2 p t2 size n).
  { split; try done; [|intros x Hx; replace x with (x - delta + delta) by lia; rewrite Hcp by lia;
      apply Hm1; lia|unfold n; lia].
    destruct Htop2 as (d & _ & _ & Hd & _). eauto. }
  assert (Hho : handles_ok m2 n 0 (shift_event delta <$> evs) n).
  { eapply handles_ok_shift; [exact Hld|].
    pose proof (encoded_handles_ok m m1 n 0 evs Hh Hev) as Hok. unfold n in *. rewrite Hcount in *.
    apply Hok; lia. }
  split; [by eapply wire_validates|].
  destruct (decode_wire R fuel hs2 0 n (np' + delta) _ Hfuel Htop2 Hho) as
    (m3 & hs3 & Hdec & Htop3 & Hag3 & Hde & _ & _); [done|done|..].
  { eapply Forall_impl; [exact Hhs2|]. simpl. lia. }
  exists m3, hs3. split; [done|]. split; [done|].
  destruct (delivered_events delta m m1 m2 m3 hs2 0 (t + size) evs Hev Hld Hde Hptr) as [Hdel Hcol].
  { eapply Forall_impl; [exact Hhs2|]. unfold MOJO_HANDLE_INVALID. simpl. lia. }
  1-3: lia.
  split; [done|]. split; [done|]. intros a Hx Hu. rewrite <- Hag3.
  - rewrite Hcp by done. symmetry. by apply Hag.
  - by apply untouched_shift.
Qed.

(** * Encoding undoes decoding *)

Definition valid_handles (hs : list Z) : Prop := Forall (fun h => 0 < h < 2 ^ 32) hs.

Lemma valid_handle hs i h : valid_handles hs -> hs !! i = Some h -> h <> MOJO_HANDLE_INVALID.
Proof.
  intros H Hi. unfold valid_handles in H. rewrite Forall_forall in H.
  specialize (H h). unfold MOJO_HANDLE_INVALID. apply list_elem_of_lookup_2 in Hi. specialize (H Hi). lia.
Qed.

(** Decoded handle slots hold the handles taken, in order. *)
Lemma collected_decoded m m' hs evs :
  valid_handles hs -> Forall (decoded_event m m' hs) evs ->
  Forall2 (fun i h => hs !! Z.to_nat i = Some h) (taken m evs) (collected m' evs).
Proof.
  intros Hhs. induction 1 as [|e evs (v & v' & Hv & Hv' & He) _ IH]; [constructor|].
  destruct e as [a|a b]; cbn [taken collected]; [done|].
  unfold event_load in *; cbn [event_width event_addr] in *. rewrite Hv, Hv'.
  destruct (Z.eqb_spec v kEncodedHandleInvalid).
  - subst v'. by rewrite Z.eqb_refl.
  - pose proof (valid_handle _ _ _ Hhs He). rewrite (proj2 (Z.eqb_neq v' _)) by done. by constructor.
Qed.

Lemma collected_dense m m' hs evs :
  valid_handles hs -> Forall (decoded_event m m' hs) evs ->
  taken m evs = seqZ 0 (Z.of_nat (length hs)) -> collected m' evs = hs.
Proof.
  intros Hhs Hdec Hd. pose proof (collected_decoded _ _ _ _ Hhs Hdec) as H. rewrite Hd in H.
  apply list_eq. intros j. destruct (decide (j < length hs)%nat) as [Hj|Hj].
  - destruct (Forall2_lookup_l _ _ _ j (Z.of_nat j) H) as (h & Hc & Hh).
    { apply lookup_seqZ. lia. }
    by rewrite Hc, <- Hh, Nat2Z.id.
  - apply Forall2_length in H. rewrite length_seqZ in H.
    by rewrite !lookup_ge_None_2 by lia.
Qed.

Lemma decoded_handles_present m m' hs nh h evs h' :
  valid_handles hs -> handles_ok m nh h evs h' -> Forall (decoded_event m m' hs) evs ->
  handles_present m' evs.
Proof.
  intros Hhs Hok.
  induction Hok as [|h a evs h' _ IH|h a evs h' Ha _ IH|h a b i evs h' Ha Hi Hr _ IH];
    intros Hdec; [intros a b H; by inversion H|..];
    inversion Hdec as [|? ? (v & v' & Hv & Hv' & He) Hdec']; subst; specialize (IH Hdec');
    intros x y Hxy; inversion Hxy; subst; try by apply IH.
  - exists v'. by split.
  - exists v'. split; [done|]. intros ->. unfold event_load in Hv; simpl in Hv.
    assert (v = i) as -> by congruence.
    rewrite (proj2 (Z.eqb_neq i _)) in He by done. by apply (valid_handle _ _ _ Hhs) in He.
Qed.

Lemma restored_events m m' m'' hs u k evs :
  valid_handles hs -> Forall (fun e => 0 < event_addr e < 2 ^ 64) evs ->
  Forall (decoded_event m m' hs) evs -> encoded_events m' m'' u evs ->
  taken m evs = seqZ u k ->
  Forall (fun e => exists v, event_load m e = Ok v /\ event_load m'' e = Ok v) evs.
Proof.
  intros Hhs Hpos Hdec. revert u k. induction evs as [|e evs IH]; intros u k Henc Htk; [constructor|].
  inversion Hpos as [|? ? Hp Hpos']; inversion Hdec as [|? ? (v & v' & Hv & Hv' & He) Hdec']; subst.
  specialize (IH Hpos' Hdec'). destruct e as [a|a b]; cbn [encoded_events taken] in *;
    unfold event_load in *; cbn [event_width event_addr] in *.
  - destruct Henc as [(w & Hw & Hw') Henc]. constructor; [|by eapply IH].
    assert (w = v') as -> by congruence. subst v'. exists v. split; [done|]. etransitivity; [exact Hw'|]. f_equal.
    pose proof (load_range _ _ _ _ Hv). unfold NULL. destruct (Z.eqb_spec v 0); [cbn; lia|].
    rewrite (proj2 (Z.eqb_neq (a + v) 0)) by lia. lia.
  - destruct Henc as (w & Hw & Henc). assert (w = v') as -> by congruence. rewrite Hv in Htk.
    destruct (Z.eqb_spec v kEncodedHandleInvalid) as [Heq|Hne].
    + rewrite Heq in Hv. subst v'. cbn in Henc. destruct Henc as [Hi Henc].
      constructor; [eauto|by eapply IH].
    + rewrite (proj2 (Z.eqb_neq v' _)) in Henc by (by eapply valid_handle).
      destruct Henc as [Hi Henc].
      destruct (decide (0 < k)) as [Hk|Hk]; [|by rewrite seqZ_nil in Htk by lia].
      rewrite seqZ_cons in Htk by done. injection Htk as -> Htk.
      constructor; [eauto|]. eapply IH; [|exact Htk]. by replace (Z.succ u) with (u + 1) by lia.
Qed.

(** C5: encoding undoes decoding. Take any message that validates and whose
    handle slots use the handles received one after the other (what an encoder
    writes). Decode it and encode the result into an empty handle buffer: the
    message's bytes are back, every one of them, and the handle buffer holds
    exactly the handles that were received. *)
Theorem Encode_undoes_Decode E m p t size nh fuel c c' hs blank evs
    (R : received E m p t size nh) (Hfuel : enough_fuel fuel size)
    (Hc : next_handle_index c = 0)
    (Hr : validate_struct E m fuel p t size nh c = Ok (MOJOM_VALIDATION_ERROR_NONE, c'))
    (Hlen : Z.of_nat (length hs) = nh) (Hhs : valid_handles hs) (Hblank : length blank = length hs)
    (Hgraph : lay_top E Encoded m (t + size) p t (next_pointer c') evs)
    (Hdense : taken m evs = seqZ 0 nh) :
  exists m' hs',
    decode_struct E fuel p t size nh (m, Some hs) = Ok (tt, (m', Some hs')) /\
    encode_struct E fuel p t size (m', Some (hbuf blank nh 0)) = Ok (tt, (m, Some (hbuf hs nh nh))).
Proof.
  destruct (validate_struct_decides R fuel c Hfuel) as (r & c1 & H & Hd).
  rewrite Hr in H. injection H as <- <-.
  destruct (proj2 (Hd c') ltac:(done)) as (evs' & Hl & Hh). rewrite Hc in Hh.
  destruct (lay_top_deterministic _ _ _ _ _ _ _ _ _ _ Hgraph Hl) as [_ ->]. subst nh.
  destruct (decode_wire R fuel hs 0 _ _ evs Hfuel Hl Hh) as (m' & hs' & Hdec & Htop & Hag & Hde & _ & _);
    [done|done|eapply Forall_impl; [exact Hhs|simpl; lia]|].
  destruct R as [HE Hnu _ Ha Hs Hm Hn].
  pose proof (collected_dense _ _ _ _ Hhs Hde Hdense) as Hcol.
  assert (B : built E m' p t size (next_pointer c') evs).
  { split; try done; [|by eapply decoded_handles_present].
    eapply mapped_rewritten; [exact Hag| |done]. eapply Forall_impl; [exact Hde|].
    intros e (v & v' & _ & ? & _). eauto. }
  destruct (encode_built B fuel blank (Z.of_nat (length hs)) Hfuel) as (m'' & Henc & Hev & Hag' & _);
    [by rewrite Hcol|lia|lia|].
  destruct (top_events E HE Hnu p t (t + size) ltac:(lia) ltac:(lia) _ _ _ _ Hl)
    as (_ & _ & _ & Hpos & _).
  assert (m'' = m) as ->.
  { apply (events_restored m m'' evs); [by etransitivity|]. by eapply restored_events. }
  rewrite Hcol in Henc. exists m', hs'. split; [done|]. rewrite Henc.
  replace (list_inserts 0 hs blank) with hs; [done|].
  pose proof (list_inserts_0_l hs [] blank) as Hi. rewrite app_nil_r in Hi. symmetry. apply Hi. lia.
Qed.
