(* ===== verification/Size.v ===== *)
(** Serialized sizes: the [ComputeSerializedSize] functions of
    type_descriptor.c, struct.c, array.c and union.c under src/c/lib/bindings/,
    and what they compute on a well-formed graph. *)
From stdpp Require Import base numbers list option gmap.
From coqutil Require Import Byte.
From Stdlib Require Import ZArith Lia.
From S2P Require Import Prelude CMem Buffer Descriptor Validate Layout LayoutFacts ValidateFacts.
From S2P Require Import Codec CodecFacts CodecRuns Relocate CodecSpec.

(** * The functions

    Nothing is written. The local variable [size] of a function is the state of
    its loop; [size_t] additions wrap around. *)

Definition add_size (n : Z) : M Z unit := modify (fun size => wrap64 (size + n)).

(** Runs a loop from [size = init]; the function then returns [size]. *)
Definition with_size (init : Z) (loop : M Z (option unit)) : outcome Z :=
  '(_, size) ← loop init; mret size.

Section Size.
Context (E : denv) (m : mem).

Abbreviation dispatch_t := (MojomTypeDescriptorType -> descptr -> bool -> Z -> outcome Z).

Definition assert_or_abort (b : bool) : outcome unit := if b then Ok tt else Abort.

(** [!MojomType_IsPointer(type) && type != MOJOM_TYPE_DESCRIPTOR_TYPE_UNION] *)
Definition unsized (type : MojomTypeDescriptorType) : bool :=
  negb (MojomType_IsPointer type) && negb (is_union type).

Definition MojomStruct_ComputeSerializedSize (dispatch : dispatch_t) (in_type_desc : descptr)
    (in_struct : Z) : outcome Z :=
  assert_or_abort (non_null in_struct);;
  assert_or_abort (desc_non_null in_type_desc);;
  num_bytes ← load32 m in_struct;
  d ← struct_desc E in_type_desc;
  with_size num_bytes (for_each (sd_entries d) (fun entry =>
    if unsized (se_elem_type entry) then mret None
    else
      version ← lift (load32 m (in_struct + 4));
      if version <? se_min_version entry then mret None
      else
        n ← lift (dispatch (se_elem_type entry) (se_elem_descriptor entry) (se_nullable entry)
          (in_struct + sizeof_MojomStructHeader + se_offset entry));
        add_size n;;
        mret None)).

Definition MojomArray_ComputeSerializedSize (fuel : nat) (dispatch : dispatch_t)
    (in_type_desc : descptr) (in_array : Z) : outcome Z :=
  assert_or_abort (non_null in_array);;
  assert_or_abort (desc_non_null in_type_desc);;
  num_bytes ← load32 m in_array;
  d ← array_desc E in_type_desc;
  if unsized (ad_elem_type d) then mret num_bytes
  else
    with_size num_bytes (for_upto fuel 0 (lift (load32 m (in_array + 4))) (fun i =>
      elem_data ← lift (array_index_by_type in_array (ad_elem_type d) i);
      n ← lift (dispatch (ad_elem_type d) (ad_elem_descriptor d) (ad_nullable d) elem_data);
      add_size n;;
      mret None)).

(** The state of the loop is not used: it returns at the first matching tag. *)
Definition MojomUnion_ComputeSerializedSize (dispatch : dispatch_t) (in_type_desc : descptr)
    (in_union_data : Z) : outcome Z :=
  assert_or_abort (desc_non_null in_type_desc);;
  assert_or_abort (non_null in_union_data);;
  d ← union_desc E in_type_desc;
  '(r, _) ← for_each (S := unit) (ud_entries d) (fun entry =>
    tag ← lift (load32 m (in_union_data + 4));
    if negb (tag =? ue_tag entry) then mret None
    else if negb (MojomType_IsPointer (ue_elem_type entry)) then mret (Some 0)
    else
      n ← lift (dispatch (ue_elem_type entry) (ue_elem_descriptor entry) (ue_nullable entry)
        (in_union_data + offsetof_union_data));
      mret (Some n)) tt;
  mret (default 0 r).

(** The [..._UNION] case, reached by falling through from [..._UNION_PTR] with
    [udata] the union the pointer leads to and [size] its own size: the test
    looks at [udata], the call is made on [data]. *)
Definition size_union_case (dispatch : dispatch_t) (type_desc : descptr) (nullable : bool)
    (data udata size : Z) : outcome Z :=
  present ← (if negb nullable then mret true
             else if udata =? NULL then mret false
             else usize ← load32 m udata; mret (negb (usize =? 0)));
  if (present : bool) then
    n ← MojomUnion_ComputeSerializedSize dispatch type_desc data;
    mret (wrap64 (size + n))
  else mret size.

Fixpoint MojomType_DispatchComputeSerializedSize (fuel : nat) (type : MojomTypeDescriptorType)
    (type_desc : descptr) (nullable : bool) (data : Z) : outcome Z :=
  match fuel with
  | O => OutOfFuel
  | S fuel =>
      let dispatch := MojomType_DispatchComputeSerializedSize fuel in
      match type with
      | MOJOM_TYPE_DESCRIPTOR_TYPE_MAP_PTR
      | MOJOM_TYPE_DESCRIPTOR_TYPE_STRUCT_PTR =>
          data_ptr ← load64 m data;
          if negb nullable || non_null data_ptr then
            MojomStruct_ComputeSerializedSize dispatch type_desc data_ptr
          else mret 0
      | MOJOM_TYPE_DESCRIPTOR_TYPE_ARRAY_PTR =>
          data_ptr ← load64 m data;
          if negb nullable || non_null data_ptr then
            MojomArray_ComputeSerializedSize fuel dispatch type_desc data_ptr
          else mret 0
      | MOJOM_TYPE_DESCRIPTOR_TYPE_UNION_PTR =>
          data_ptr ← load64 m data;
          size_union_case dispatch type_desc nullable data data_ptr
            (if non_null data_ptr then sizeof_MojomUnionLayout else 0)
      | MOJOM_TYPE_DESCRIPTOR_TYPE_UNION =>
          size_union_case dispatch type_desc nullable data data 0
      | MOJOM_TYPE_DESCRIPTOR_TYPE_HANDLE
      | MOJOM_TYPE_DESCRIPTOR_TYPE_INTERFACE
      | MOJOM_TYPE_DESCRIPTOR_TYPE_POD => Abort
      end
  end.
End Size.

(** The size of a whole message, a struct. *)
Definition compute_serialized_size (E : denv) (m : mem) (fuel : nat) (in_type_desc : descptr)
    (in_struct : Z) : outcome Z :=
  MojomStruct_ComputeSerializedSize E m (MojomType_DispatchComputeSerializedSize E m fuel)
    in_type_desc in_struct.

(** * The size of a graph *)

(** The sum, over the objects that the pointer slots lead to, of a weight [w] of
    their [num_bytes]. *)
Fixpoint objects_total (w : Z -> Z) (f : form) (m : mem) (evs : list event) : Z :=
  match evs with
  | [] => 0
  | EPtr a :: evs =>
      match load64 m a with
      | Ok v =>
          if v =? 0 then objects_total w f m evs
          else match load32 m (target f a v) with
               | Ok num_bytes => w num_bytes + objects_total w f m evs
               | _ => objects_total w f m evs
               end
      | _ => objects_total w f m evs
      end
  | EHandle _ _ :: evs => objects_total w f m evs
  end.

(** The [num_bytes] of every object; and the space they take in a buffer, which
    hands out whole 8-byte words. *)
Abbreviation objects_size := (objects_total (fun num_bytes => num_bytes)).
Abbreviation objects_space := (objects_total round8).

Lemma objects_total_app w f m evs1 evs2 :
  objects_total w f m (evs1 ++ evs2) = objects_total w f m evs1 + objects_total w f m evs2.
Proof.
  induction evs1 as [|e evs1 IH]; cbn [app objects_total]; [done|].
  destruct e as [a|]; [|done].
  destruct (load64 m a) as [v| | |]; [|done..]. destruct (v =? 0); [done|].
  destruct (load32 m _); [rewrite IH; lia|done..].
Qed.

Lemma objects_total_le w1 w2 f m evs :
  (forall n, 0 <= n -> w1 n <= w2 n) -> objects_total w1 f m evs <= objects_total w2 f m evs.
Proof.
  intros Hw. induction evs as [|e evs IH]; cbn [objects_total]; [lia|].
  destruct e as [a|]; [|done]. destruct (load64 m a) as [v| | |]; [|done..].
  destruct (v =? 0); [done|]. destruct (load32 m _) eqn:Hl; [|done..].
  apply load_range in Hl. specialize (Hw _ (proj1 Hl)). lia.
Qed.

Lemma objects_size_nonneg f m evs : 0 <= objects_size f m evs.
Proof.
  replace 0 with (objects_total (fun _ => 0) f m evs); [by apply objects_total_le|].
  induction evs as [|[a|] evs IH]; cbn [objects_total]; rewrite ?IH; [done| |done].
  destruct (load64 m a) as [v| | |]; [|done..]. destruct (v =? 0); [done|].
  by destruct (load32 m _).
Qed.

Lemma objects_size_space f m evs : objects_size f m evs <= objects_space f m evs.
Proof. apply objects_total_le. intros n _. apply round8_bounds. Qed.

Lemma objects_total_ptr w f m a v nb evs :
  load64 m a = Ok v -> v <> 0 -> load32 m (target f a v) = Ok nb ->
  objects_total w f m (EPtr a :: evs) = w nb + objects_total w f m evs.
Proof.
  intros Hv Hv0 Hnb. cbn [objects_total]. by rewrite Hv, (proj2 (Z.eqb_neq v 0)), Hnb.
Qed.

Section Facts.
Context (E : denv) (HE : env_wf E = true) (Hnu : no_union_ptr E = true).

(** A graph's objects fit in the space it takes: they do not overlap. *)
Lemma objects_size_bound f m lim :
  (forall s np np' evs, lay E f m lim s np np' evs -> slot_wf E s -> slot_end s <= np ->
     objects_size f m evs <= np' - np) /\
  (forall l np np' evs, lays E f m lim l np np' evs -> forall lo, slots_ok E lo np l ->
     objects_size f m evs <= np' - np).
Proof.
  apply lay_lays_ind.
  - intros s np _ _ Hv _ _. cbn. unfold load in Hv. unfold load. 
    destruct (load_bytes m (s_addr s) 8); [|lia]. injection Hv as ->. simpl. lia.
  - intros s np np' evs v t d nb ver Hty Hv Hv0 Ht Hp Hd Hnb Hver Hmin Hlim _ Hsz _ IH _ (_&_&_&Hpos) _.
    pose proof Hp as (?&?&_&_). unfold sizeof_MojomStructHeader in Hmin. subst t.
    pose proof (struct_slots_ok E d ver (target f (s_addr s) v) nb (struct_desc_wf E _ d HE Hd) Hsz ltac:(lia)) as Hok.
    rewrite (objects_total_ptr _ f m _ v nb) by done. specialize (IH _ Hok). lia.
  - intros s np np' evs v t d nb n Hty Hv Hv0 Ht Hp Hd Hnb Hn Hlim Hh _ IH (_&_&_&Hpos) _.
    pose proof Hp as (?&?&_&_). subst t. pose proof (load_range _ _ _ _ Hn).
    pose proof (array_slots_ok E d nb n (target f (s_addr s) v) (array_desc_wf E _ d HE Hd) Hh ltac:(lia) ltac:(lia)) as Hok.
    rewrite (objects_total_ptr _ f m _ v nb) by done. specialize (IH _ Hok). lia.
  - intros. simpl. lia.
  - intros. simpl. lia.
  - intros s np np' evs d sz tag e Hty _ _ _ Hd _ He _ IH (_&_&_&Hpos) Hend.
    destruct (active_entry_slot_wf E HE Hnu _ d tag e (s_addr s) Hd He Hpos) as (Hwf & Hend' & _).
    assert (slot_end s = s_addr s + 16) by (unfold slot_end; by rewrite Hty). apply IH; [done|lia].
  - intros. simpl. lia.
  - intros. simpl. lia.
  - intros s l np np1 np2 evs1 evs2 Hs IHs Hl IHl lo Hok.
    inversion Hok as [|? ? Hwf Hlo Hend Hdj Hok']; subst.
    pose proof (proj1 (lay_bounds E HE Hnu f m lim) _ _ _ _ Hs Hwf Hend) as (Hle&_).
    rewrite objects_total_app. specialize (IHs Hwf Hend).
    specialize (IHl lo (slots_ok_weaken E _ _ _ _ Hok' Hle)). lia.
Qed.
Context (m : mem) (lim : Z) (Hlim : lim < 2 ^ 64).

Abbreviation dispatch_t := (MojomTypeDescriptorType -> descptr -> bool -> Z -> outcome Z).

(** A dispatcher computes the size of the objects of any sized slot. *)
Definition sizes (k : nat) (dispatch : dispatch_t) : Prop :=
  forall s np np' evs,
    lay E Decoded m lim s np np' evs -> slot_wf E s -> slot_end s <= np ->
    unsized (s_type s) = false -> fuel_for lim s np <= Z.of_nat k ->
    dispatch (s_type s) (s_desc s) (s_nullable s) (s_addr s) = Ok (objects_size Decoded m evs).

(** A slot of another type has no objects. *)
Lemma unsized_slot s np np' evs :
  lay E Decoded m lim s np np' evs -> unsized (s_type s) = true -> 
  np' = np /\ objects_size Decoded m evs = 0.
Proof.
  intros H Hu. destruct H; try done; exfalso; unfold unsized, is_struct_ptr, is_object_ptr in *;
    destruct (s_type s); done.
Qed.

Lemma unsized_elements d t i k np np' evs :
  lays E Decoded m lim (element_slots d t i k) np np' evs -> unsized (ad_elem_type d) = true ->
  objects_size Decoded m evs = 0.
Proof.
  revert i np evs. induction k as [|k IH]; intros i np evs Hl Hu; cbn [element_slots] in Hl;
    inversion Hl as [|? ? ? np1 ? evs1 evs2 Hs Hl2]; subst; [done|].
  destruct (unsized_slot _ _ _ _ Hs Hu) as [-> Hz]. rewrite objects_total_app, Hz.
  by rewrite (IH _ _ _ Hl2 Hu).
Qed.

(** One slot of an object: what it adds, and what is left. *)
Lemma size_cons dispatch k lo s l np np' evs :
  sizes k dispatch -> slots_ok E lo np (s :: l) -> lays E Decoded m lim (s :: l) np np' evs ->
  Z.max 0 (lim - np) + 2 <= Z.of_nat k ->
  exists np1 evs1 evs2, evs = evs1 ++ evs2 /\ np <= np1 <= np' /\
    slots_ok E lo np1 l /\ lays E Decoded m lim l np1 np' evs2 /\
    0 <= objects_size Decoded m evs1 <= np1 - np /\
    if unsized (s_type s) then objects_size Decoded m evs1 = 0
    else dispatch (s_type s) (s_desc s) (s_nullable s) (s_addr s) = Ok (objects_size Decoded m evs1).
Proof.
  intros Hd Hok Hl Hk. inversion Hl as [|? ? ? np1 ? evs1 evs2 Hs Hl2]; subst.
  inversion Hok as [|? ? Hwf Hlo Hend Hdj Hok']; subst.
  pose proof (proj1 (lay_bounds E HE Hnu Decoded m lim) _ _ _ _ Hs Hwf Hend) as (Hle&_).
  pose proof (slots_ok_weaken E _ _ _ _ Hok' Hle) as Hok1.
  pose proof (proj2 (lay_bounds E HE Hnu Decoded m lim) _ _ _ _ Hl2 _ Hok1) as (Hle2&_).
  pose proof (proj1 (objects_size_bound Decoded m lim) _ _ _ _ Hs Hwf Hend).
  pose proof (objects_size_nonneg Decoded m evs1).
  exists np1, evs1, evs2. repeat (split; [done|]).
  destruct (unsized (s_type s)) eqn:Hu; [by eapply unsized_slot|].
  eapply Hd; try done. by apply fuel_for_bound.
Qed.

Lemma size_fields (dispatch : dispatch_t) k t ver es np np' evs sz :
  sizes k dispatch -> load32 m (t + 4) = Ok ver ->
  slots_ok E (t + 8) np (struct_slots es ver t) ->
  lays E Decoded m lim (struct_slots es ver t) np np' evs ->
  Z.max 0 (lim - np) + 2 <= Z.of_nat k -> 0 <= sz -> sz + (np' - np) < 2 ^ 64 ->
  wp (for_each (R := unit) es (fun entry =>
        if unsized (se_elem_type entry) then mret None
        else
          version ← lift (load32 m (t + 4));
          if version <? se_min_version entry then mret None
          else
            n ← lift (dispatch (se_elem_type entry) (se_elem_descriptor entry) (se_nullable entry)
              (t + sizeof_MojomStructHeader + se_offset entry));
            add_size n;;
            mret None)) sz
    (fun _ s => s = sz + objects_size Decoded m evs).
Proof.
  intros Hd Hver. unfold struct_slots. revert np evs sz.
  induction es as [|e es IH]; intros np evs sz Hok Hl Hk Hsz Hmax.
  - cbn in Hl. inversion Hl; subst. cbn. lia.
  - rewrite filter_cons in *. cbn [for_each]. apply wp_bind.
    destruct (decide (se_min_version e <= ver)) as [Hmv|Hmv].
    2: { destruct (unsized _); [wp_step; by eapply IH|].
         wp_step. eapply wp_lift; [exact Hver|]. rewrite (proj2 (Z.ltb_lt _ _)) by lia.
         wp_step. by eapply IH. }
    rewrite fmap_cons in *.
    destruct (size_cons dispatch k _ _ _ _ _ _ Hd Hok Hl Hk)
      as (np1 & evs1 & evs2 & -> & Hnp1 & Hok1 & Hl1 & Hb & Hone).
    rewrite objects_total_app. cbn [entry_slot s_type s_desc s_nullable s_addr] in Hone.
    destruct (unsized (se_elem_type e)).
    + wp_step. rewrite Hone in *. apply (IH np1); try done; lia.
    + wp_step. eapply wp_lift; [exact Hver|]. rewrite (proj2 (Z.ltb_ge _ _)) by lia.
      wp_step. eapply wp_lift; [exact Hone|]. wp_step. unfold add_size. wp_step. wp_step.
      rewrite wrap64_small by lia. rewrite Z.add_assoc. apply (IH np1); try done; lia.
Qed.

Lemma size_elements (dispatch : dispatch_t) k t n d fuel j i np np' evs sz :
  sizes k dispatch -> load32 m (t + 4) = Ok n -> unsized (ad_elem_type d) = false ->
  is_union_ptr (ad_elem_type d) = false -> n = i + Z.of_nat j -> (j < fuel)%nat ->
  slots_ok E (t + 8) np (element_slots d t i j) ->
  lays E Decoded m lim (element_slots d t i j) np np' evs ->
  Z.max 0 (lim - np) + 2 <= Z.of_nat k -> 0 <= sz -> sz + (np' - np) < 2 ^ 64 ->
  wp (for_upto (R := unit) fuel i (lift (load32 m (t + 4))) (fun i =>
        elem_data ← lift (array_index_by_type t (ad_elem_type d) i);
        n ← lift (dispatch (ad_elem_type d) (ad_elem_descriptor d) (ad_nullable d) elem_data);
        add_size n;;
        mret None)) sz
    (fun _ s => s = sz + objects_size Decoded m evs).
Proof.
  intros Hd Hn Hu Hup. revert fuel i np evs sz.
  induction j as [|j IH]; intros fuel i np evs sz Hij Hfuel Hok Hl Hk Hsz Hmax;
    (destruct fuel as [|fuel]; [lia|]); cbn [for_upto element_slots] in *;
    apply wp_bind; (eapply wp_lift; [exact Hn|]).
  - rewrite (proj2 (Z.ltb_ge i n)) by lia. inversion Hl; subst. cbn. lia.
  - rewrite (proj2 (Z.ltb_lt i n)) by lia.
    destruct (size_cons dispatch k _ _ _ _ _ _ Hd Hok Hl Hk)
      as (np1 & evs1 & evs2 & -> & Hnp1 & Hok1 & Hl1 & Hb & Hone).
    rewrite objects_total_app. cbn [element_slot s_type s_desc s_nullable s_addr] in Hone.
    rewrite Hu in Hone. apply wp_bind, wp_bind. apply (wp_lift _ (s_addr (element_slot d t i))).
    { apply array_index_eq; [|done]. by destruct (ad_elem_type d). }
    wp_step. eapply wp_lift; [exact Hone|]. wp_step. unfold add_size. wp_step. wp_step.
    rewrite wrap64_small by lia. rewrite Z.add_assoc.
    apply (IH fuel (i + 1) np1); try done; lia.
Qed.

Lemma with_size_eq init loop n :
  wp loop init (fun _ s => s = n) -> with_size init loop = Ok n.
Proof. intros H. apply wp_run in H as (a & s & H & ->). unfold with_size. by rewrite H. Qed.

Lemma struct_size (dispatch : dispatch_t) k p t d nb ver np' evs :
  sizes k dispatch -> struct_desc E p = Ok d -> 0 < t -> t + nb <= lim -> load32 m t = Ok nb ->
  load32 m (t + 4) = Ok ver -> size_ok d ver nb ->
  lays E Decoded m lim (struct_slots (sd_entries d) ver t) (t + nb) np' evs ->
  lim - (t + nb) + 2 <= Z.of_nat k ->
  MojomStruct_ComputeSerializedSize E m dispatch p t = Ok (nb + objects_size Decoded m evs).
Proof.
  intros Hd Hp Ht Hlimt Hnb Hver Hsz Hl Hk. unfold MojomStruct_ComputeSerializedSize.
  rewrite (non_null_pos t Ht), (struct_desc_non_null E p d Hp), Hnb, Hp. cbn.
  pose proof (struct_slots_ok E d ver t nb (struct_desc_wf E p d HE Hp) Hsz Ht) as Hok.
  pose proof (load_range _ _ _ _ Hnb).
  pose proof (proj2 (lay_bounds E HE Hnu Decoded m lim) _ _ _ _ Hl _ Hok) as (?&?&_).
  apply with_size_eq. eapply size_fields; try done; lia.
Qed.

Lemma array_size (dispatch : dispatch_t) k fuel p t d nb n np' evs :
  sizes k dispatch -> array_desc E p = Ok d -> 0 < t -> t + nb <= lim -> load32 m t = Ok nb ->
  load32 m (t + 4) = Ok n -> array_header_ok d nb n ->
  lays E Decoded m lim (array_slots d t n) (t + nb) np' evs ->
  lim - (t + nb) + 2 <= Z.of_nat k -> nb - 8 < Z.of_nat fuel ->
  MojomArray_ComputeSerializedSize E m fuel dispatch p t = Ok (nb + objects_size Decoded m evs).
Proof.
  intros Hd Hp Ht Hlimt Hnb Hn Hh Hl Hk Hfuel. unfold MojomArray_ComputeSerializedSize.
  rewrite (non_null_pos t Ht), (array_desc_non_null E p d Hp), Hnb, Hp. cbn.
  pose proof (array_desc_wf E p d HE Hp) as Hwf. pose proof (load_range _ _ _ _ Hn).
  pose proof (array_slots_ok E d nb n t Hwf Hh ltac:(lia) Ht) as Hok.
  pose proof (load_range _ _ _ _ Hnb). pose proof Hh as (Hmin&_&_). unfold sizeof_MojomArrayHeader in Hmin.
  pose proof (proj2 (lay_bounds E HE Hnu Decoded m lim) _ _ _ _ Hl _ Hok) as (?&?&_).
  unfold array_slots in *. destruct (is_pod (ad_elem_type d)) eqn:Hpod.
  { inversion Hl; subst. replace (unsized (ad_elem_type d)) with true by by destruct (ad_elem_type d).
    cbn. f_equal. lia. }
  pose proof (array_count_bound d nb n E Hwf Hpod Hh ltac:(lia)).
  unfold array_wf in Hwf. bool_facts. destruct (unsized (ad_elem_type d)) eqn:Hu.
  - replace (objects_size Decoded m evs) with 0; [cbn; f_equal; lia|]. symmetry.
    eapply unsized_elements; [exact Hl|exact Hu].
  - apply with_size_eq. eapply (size_elements dispatch k t n d fuel (Z.to_nat n) 0 (t + nb) np');
      try done; lia.
Qed.

Lemma active_size (dispatch : dispatch_t) u tag es size :
  load32 m (u + 4) = Ok tag ->
  (forall e, active_entry es tag = Some e ->
     if MojomType_IsPointer (ue_elem_type e)
     then dispatch (ue_elem_type e) (ue_elem_descriptor e) (ue_nullable e) (u + 8) = Ok size
     else size = 0) ->
  (active_entry es tag = None -> size = 0) ->
  wp (for_each (S := unit) es (fun entry =>
        tag ← lift (load32 m (u + 4));
        if negb (tag =? ue_tag entry) then mret None
        else if negb (MojomType_IsPointer (ue_elem_type entry)) then mret (Some 0)
        else
          n ← lift (dispatch (ue_elem_type entry) (ue_elem_descriptor entry) (ue_nullable entry)
            (u + offsetof_union_data));
          mret (Some n))) tt (fun r _ => default 0 r = size).
Proof.
  intros Htag. induction es as [|e es IH]; intros Hsome Hnone; cbn [for_each].
  { wp_step. by rewrite Hnone. }
  rewrite active_entry_cons in *. apply wp_bind, wp_bind. eapply wp_lift; [exact Htag|].
  destruct (Z.eqb_spec tag (ue_tag e)); cbn [negb].
  2: { rewrite decide_False in * by done. wp_step. by apply IH. }
  rewrite decide_True in * by done. destruct (is_pod (ue_elem_type e)) eqn:Hpod.
  { unfold is_pod in Hpod. apply bool_decide_eq_true in Hpod. 
    assert (MojomType_IsPointer (ue_elem_type e) = false) as -> by (by rewrite Hpod).
    cbn [negb]. repeat wp_step. by rewrite Hnone. }
  specialize (Hsome e eq_refl). destruct (MojomType_IsPointer (ue_elem_type e)); cbn [negb].
  - unfold offsetof_union_data. wp_step. eapply wp_lift; [exact Hsome|]. by repeat wp_step.
  - repeat wp_step. by subst size.
Qed.

Lemma union_size (dispatch : dispatch_t) k s np np' evs d tag :
  sizes k dispatch -> s_type s = MOJOM_TYPE_DESCRIPTOR_TYPE_UNION -> slot_wf E s ->
  slot_end s <= np -> union_desc E (s_desc s) = Ok d -> load32 m (s_addr s + 4) = Ok tag ->
  match active_entry (ud_entries d) tag with
  | Some e => lay E Decoded m lim (union_entry_slot (s_addr s) e) np np' evs
  | None => evs = []
  end ->
  Z.max 0 (lim - np) + 1 <= Z.of_nat k ->
  MojomUnion_ComputeSerializedSize E m dispatch (s_desc s) (s_addr s) =
    Ok (objects_size Decoded m evs).
Proof.
  intros Hd Hty Hwf Hend Hp Htag He Hk. pose proof Hwf as (_&_&_&Hpos).
  assert (Hse : slot_end s = s_addr s + 16) by (unfold slot_end; by rewrite Hty).
  unfold MojomUnion_ComputeSerializedSize. rewrite (non_null_pos _ Hpos).
  replace (desc_non_null (s_desc s)) with true by (by destruct (s_desc s)). rewrite Hp. cbn.
  assert (Hact : forall e, active_entry (ud_entries d) tag = Some e ->
    if MojomType_IsPointer (ue_elem_type e)
    then dispatch (ue_elem_type e) (ue_elem_descriptor e) (ue_nullable e) (s_addr s + 8) =
           Ok (objects_size Decoded m evs)
    else objects_size Decoded m evs = 0).
  { intros e Hact. rewrite Hact in He.
    destruct (active_entry_slot_wf E HE Hnu _ d tag e (s_addr s) Hp Hact Hpos) as (Hwf' & Hend' & Hnot).
    destruct (MojomType_IsPointer (ue_elem_type e)) eqn:Hptr.
    - apply (Hd (union_entry_slot (s_addr s) e) np np'); try done; [lia| |].
      + cbn [union_entry_slot s_type]. unfold unsized. by rewrite Hptr.
      + unfold fuel_for. cbn [union_entry_slot s_type]. unfold is_union.
        by rewrite bool_decide_eq_false_2.
    - eapply (unsized_slot _ _ _ _ He). cbn [union_entry_slot s_type]. unfold unsized, is_union.
      by rewrite Hptr, bool_decide_eq_false_2. }
  assert (Hnone : active_entry (ud_entries d) tag = None -> objects_size Decoded m evs = 0).
  { intros Hn. rewrite Hn in He. by subst evs. }
  pose proof (active_size dispatch (s_addr s) tag (ud_entries d) _ Htag Hact Hnone) as H.
  apply wp_run in H as (r & [] & H & <-). by rewrite H.
Qed.

Lemma union_case_size (dispatch : dispatch_t) k s np np' evs d sz tag :
  sizes k dispatch -> s_type s = MOJOM_TYPE_DESCRIPTOR_TYPE_UNION -> slot_wf E s ->
  slot_end s <= np -> union_desc E (s_desc s) = Ok d -> load32 m (s_addr s) = Ok sz -> sz <> 0 ->
  load32 m (s_addr s + 4) = Ok tag ->
  match active_entry (ud_entries d) tag with
  | Some e => lay E Decoded m lim (union_entry_slot (s_addr s) e) np np' evs
  | None => evs = []
  end ->
  Z.max 0 (lim - np) + 1 <= Z.of_nat k -> objects_size Decoded m evs < 2 ^ 64 ->
  size_union_case E m dispatch (s_desc s) (s_nullable s) (s_addr s) (s_addr s) 0 =
    Ok (objects_size Decoded m evs).
Proof.
  intros Hd Hty Hwf Hend Hp Hsz Hsz0 Htag He Hk Hmax. pose proof Hwf as (_&_&_&Hpos).
  unfold size_union_case. rewrite (union_size dispatch k s np np' evs d tag) by done.
  pose proof (objects_size_nonneg Decoded m evs).
  unfold NULL. rewrite (proj2 (Z.eqb_neq (s_addr s) 0)), Hsz by lia.
  destruct (s_nullable s); cbn; rewrite ?(proj2 (Z.eqb_neq sz 0)) by done; cbn;
    f_equal; by apply wrap64_small.
Qed.

Lemma dispatch_sizes k : 0 < lim -> sizes k (MojomType_DispatchComputeSerializedSize E m k).
Proof.
  intros Hlim0. induction k as [|k IH]; intros s np np' evs Hl Hwf Hend Hu Hf.
  { unfold fuel_for in Hf. destruct (is_union _); lia. }
  unfold fuel_for in Hf. pose proof Hwf as (_&_&_&Hpos).
  assert (Hk : lim - np <= Z.of_nat k) by (destruct (is_union _); lia).
  pose proof (proj1 (objects_size_bound Decoded m lim) _ _ _ _ Hl Hwf Hend) as Hob.
  pose proof (proj1 (lay_bounds E HE Hnu Decoded m lim) _ _ _ _ Hl Hwf Hend) as (_&Hb&_).
  assert (Hmax : objects_size Decoded m evs < 2 ^ 64) by (pose proof (elem_size_nonneg (s_type s)); unfold slot_end in *; lia).
  cbn [MojomType_DispatchComputeSerializedSize].
  destruct Hl as [s np Hty Hn Hv | s np np' evs v t d nb ver Hty Hv Hv0 Ht Hp Hd Hnb Hver Hmin Hlimt Hmod Hsz Hl Hmap
    | s np np' evs v t d nb n Hty Hv Hv0 Ht Hp Hd Hnb Hn Hlimt Hh Hl
    | s np Hty Hn Hsz | s np d sz tag Hty Hsz Hsz0 Hd Htag Hact
    | s np np' evs d sz tag e Hty Hsz Hsz0 Hn Hd Htag Hact Hl | s np Hty].
  - assert (objects_size Decoded m [EPtr (s_addr s)] = 0) as ->.
    { cbn [objects_total]. by rewrite Hv. }
    destruct (s_type s); try done; rewrite Hv, Hn; done.
  - pose proof Hp as (?&?&_&_). cbn [target] in Ht. subst t. unfold sizeof_MojomStructHeader in Hmin.
    assert (Hs : MojomStruct_ComputeSerializedSize E m (MojomType_DispatchComputeSerializedSize E m k)
      (s_desc s) v = Ok (nb + objects_size Decoded m evs)) by (eapply struct_size; try done; lia).
    rewrite (objects_total_ptr _ Decoded m _ v nb), <- Hs by done.
    destruct (s_type s); try done; rewrite Hv; cbn; by rewrite (non_null_pos v), orb_true_r by lia.
  - pose proof Hp as (?&?&_&_). cbn [target] in Ht. subst t. pose proof Hh as (Hmin&_&_).
    unfold sizeof_MojomArrayHeader in Hmin.
    assert (Hs : MojomArray_ComputeSerializedSize E m k (MojomType_DispatchComputeSerializedSize E m k)
      (s_desc s) v = Ok (nb + objects_size Decoded m evs)) by (eapply array_size; try done; lia).
    rewrite (objects_total_ptr _ Decoded m _ v nb), <- Hs by done.
    rewrite Hty, Hv; cbn; by rewrite (non_null_pos v), orb_true_r by lia.
  - rewrite Hty. unfold size_union_case, NULL. rewrite Hn, (proj2 (Z.eqb_neq (s_addr s) 0)), Hsz by lia.
    done.
  - rewrite Hty in *. change (is_union _) with true in Hf.
    eapply (union_case_size _ k s np np); try done; [by rewrite Hact|lia].
  - rewrite Hty in *. change (is_union _) with true in Hf.
    eapply (union_case_size _ k s np np'); try done; [by rewrite Hact|lia].
  - exfalso. by destruct Hty as [Hty|Hty]; rewrite Hty in Hu.
Qed.
End Facts.

(** C28: [MojomStruct_ComputeSerializedSize] on a well-formed graph returns - no
    failed assertion, no stray read - the sum of the [num_bytes] of its objects,
    with no 64-bit overflow: at most the space the graph takes in its buffer. *)
Theorem ComputeSerializedSize_spec E m p t lim np' evs fuel
    (HE : env_wf E = true) (Hnu : no_union_ptr E = true) (Ht : 0 < t) (Hlim : lim < 2 ^ 64)
    (Hfuel : lim - t <= Z.of_nat fuel) (Hg : lay_top E Decoded m lim p t np' evs) :
  exists nb, load32 m t = Ok nb /\
    compute_serialized_size E m fuel p t = Ok (nb + objects_size Decoded m evs) /\
    nb <= nb + objects_size Decoded m evs <= np' - t.
Proof.
  destruct (top_slots E HE p t lim Ht _ _ _ _ Hg) as (d & nb & ver & Hd & Hnb & Hver & ? & ? & _ & Hsz & Hl & Hok).
  exists nb. split; [done|].
  pose proof (proj2 (objects_size_bound E HE Hnu Decoded m lim) _ _ _ _ Hl _ Hok).
  pose proof (objects_size_nonneg Decoded m evs). split; [|lia].
  eapply (struct_size E HE Hnu m lim Hlim _ fuel p t d); try done; [|lia].
  apply dispatch_sizes; try done. lia.
Qed.
