(* ===== verification/CopyFacts.v ===== *)
(** Deep copies (DeepCopy.v) of well-formed graphs: the copy is the same graph,
    laid out compactly in the unused part of the buffer. The proof follows the
    calls: a dispatcher copies what one slot leads to, the loops copy slot by
    slot, and every call writes only its slot and the buffer space it takes. *)
From stdpp Require Import base numbers list option gmap.
From coqutil Require Import Byte.
From Stdlib Require Import ZArith Lia.
From S2P Require Import Prelude CMem Buffer Descriptor Validate Layout LayoutFacts ValidateFacts.
From S2P Require Import Codec CodecFacts CodecRuns Relocate CodecSpec DeepCopy Size.

(** * Conditions on the graph *)

(** Tables whose pointers and unions are aligned to 8 bytes in their struct. *)
Definition needs_alignment (ty : MojomTypeDescriptorType) : bool :=
  MojomType_IsPointer ty || is_union ty.

Definition env_aligned (E : denv) : bool :=
  forallb (fun kd =>
    match kd.2 with
    | DStruct d => forallb (fun e => negb (needs_alignment (se_elem_type e)) ||
                                     (se_offset e mod 8 =? 0)) (sd_entries d)
    | _ => true
    end) (map_to_list E).

Definition aligned (base : Z) (s : slot) : Prop :=
  needs_alignment (s_type s) = true -> (s_addr s - base) mod 8 = 0.

Section Graph.
Context (E : denv) (m : mem).

(** The slots directly below a slot of a decoded graph. *)
Inductive below : slot -> slot -> Prop :=
  | below_struct s v d ver s1 :
      is_struct_ptr (s_type s) = true -> load64 m (s_addr s) = Ok v -> v <> 0 ->
      struct_desc E (s_desc s) = Ok d -> load32 m (v + 4) = Ok ver ->
      s1 ∈ struct_slots (sd_entries d) ver v -> below s s1
  | below_array s v d n s1 :
      s_type s = MOJOM_TYPE_DESCRIPTOR_TYPE_ARRAY_PTR -> load64 m (s_addr s) = Ok v -> v <> 0 ->
      array_desc E (s_desc s) = Ok d -> load32 m (v + 4) = Ok n ->
      s1 ∈ array_slots d v n -> below s s1
  | below_union s sz d tag e :
      s_type s = MOJOM_TYPE_DESCRIPTOR_TYPE_UNION -> load32 m (s_addr s) = Ok sz -> sz <> 0 ->
      union_desc E (s_desc s) = Ok d -> load32 m (s_addr s + 4) = Ok tag ->
      active_entry (ud_entries d) tag = Some e -> below s (union_entry_slot (s_addr s) e).

(** A tag that the copying program knows: a field of its version of the union,
    or the tag reserved for unknown fields. *)
Definition tag_known (d : MojomTypeDescriptorUnion) (tag : Z) : Prop :=
  Exists (fun e => ue_tag e = tag) (ud_entries d) \/ tag < ud_num_fields d \/
  tag = UNION_TAG_UNKNOWN.

(** Every union of the graph below [s] that is not null has a known tag. *)
Definition tags_known (s : slot) : Prop :=
  forall s1 d sz tag, rtc below s s1 ->
    s_type s1 = MOJOM_TYPE_DESCRIPTOR_TYPE_UNION -> load32 m (s_addr s1) = Ok sz -> sz <> 0 ->
    union_desc E (s_desc s1) = Ok d -> load32 m (s_addr s1 + 4) = Ok tag -> tag_known d tag.

Lemma tags_known_below s s1 : tags_known s -> below s s1 -> tags_known s1.
Proof. intros H Hb s2 d sz tag Hr. apply H. by eapply rtc_l. Qed.

(** ** Deciding it *)

Definition children (s : slot) : list slot :=
  if is_struct_ptr (s_type s) then
    match load64 m (s_addr s), struct_desc E (s_desc s) with
    | Ok v, Ok d =>
        if v =? 0 then []
        else match load32 m (v + 4) with
             | Ok ver => struct_slots (sd_entries d) ver v
             | _ => []
             end
    | _, _ => []
    end
  else
    match s_type s with
    | MOJOM_TYPE_DESCRIPTOR_TYPE_ARRAY_PTR =>
        match load64 m (s_addr s), array_desc E (s_desc s) with
        | Ok v, Ok d =>
            if v =? 0 then []
            else match load32 m (v + 4) with
                 | Ok n => array_slots d v n
                 | _ => []
                 end
        | _, _ => []
        end
    | MOJOM_TYPE_DESCRIPTOR_TYPE_UNION =>
        match load32 m (s_addr s), union_desc E (s_desc s), load32 m (s_addr s + 4) with
        | Ok sz, Ok d, Ok tag =>
            if sz =? 0 then []
            else match active_entry (ud_entries d) tag with
                 | Some e => [union_entry_slot (s_addr s) e]
                 | None => []
                 end
        | _, _, _ => []
        end
    | _ => []
    end.

Lemma below_children s s1 : below s s1 -> s1 ∈ children s.
Proof.
  intros H. unfold children.
  destruct H as [s v d ver s1 Hty Hv Hv0 Hd Hver Hin|s v d n s1 Hty Hv Hv0 Hd Hn Hin
    |s sz d tag e Hty Hsz Hsz0 Hd Htag He].
  - by rewrite Hty, Hv, Hd, (proj2 (Z.eqb_neq v 0)), Hver.
  - rewrite Hty. simpl. by rewrite Hv, Hd, (proj2 (Z.eqb_neq v 0)), Hn.
  - rewrite Hty. simpl. rewrite Hsz, Hd, Htag, (proj2 (Z.eqb_neq sz 0)), He by done. by left.
Qed.

Definition tag_ok (s : slot) : bool :=
  match s_type s with
  | MOJOM_TYPE_DESCRIPTOR_TYPE_UNION =>
      match load32 m (s_addr s), union_desc E (s_desc s), load32 m (s_addr s + 4) with
      | Ok sz, Ok d, Ok tag =>
          (sz =? 0) || existsb (fun e => ue_tag e =? tag) (ud_entries d) ||
          (tag <? ud_num_fields d) || (tag =? UNION_TAG_UNKNOWN)
      | _, _, _ => true
      end
  | _ => true
  end.

(** [fuel] bounds the depth of the graph. *)
Fixpoint tags_ok (fuel : nat) (s : slot) : bool :=
  match fuel with
  | O => false
  | S fuel => tag_ok s && forallb (tags_ok fuel) (children s)
  end.

Lemma tags_ok_sound fuel s : tags_ok fuel s = true -> tags_known s.
Proof.
  intros Hok s1 d sz tag Hr Hty Hsz Hsz0 Hd Htag. revert fuel Hok.
  induction Hr as [s|s s' s1 Hb _ IH]; intros [|fuel] Hok; cbn [tags_ok] in Hok; try done;
    apply andb_true_iff in Hok as [Ht Hc].
  - unfold tag_ok in Ht. rewrite Hty, Hsz, Hd, Htag, (proj2 (Z.eqb_neq sz 0)) in Ht by done.
    rewrite !orb_true_iff, Z.ltb_lt, Z.eqb_eq in Ht. unfold tag_known.
    destruct Ht as [[[Ht|Ht]|Ht]|Ht]; [done| |by right; left|by right; right].
    left. apply existsb_exists in Ht as (e & He & Ht). apply Z.eqb_eq in Ht.
    apply Exists_exists. exists e. split; [by apply list_elem_of_In|done].
  - apply (IH Hty Hsz Hd Htag fuel). rewrite forallb_forall in Hc. apply Hc, list_elem_of_In.
    by apply below_children.
Qed.

Lemma struct_desc_aligned p d t ver :
  env_aligned E = true -> struct_desc E p = Ok d ->
  Forall (aligned t) (struct_slots (sd_entries d) ver t).
Proof.
  unfold env_aligned, struct_desc. rewrite forallb_forall. intros HE H.
  destruct p as [i|]; [|done]. simpl in H.
  destruct (E !! i) as [[d'| |]|] eqn:Ei; simplify_eq.
  specialize (HE (i, DStruct d)). simpl in HE. rewrite forallb_forall in HE.
  apply Forall_fmap, Forall_forall. intros e He. apply list_elem_of_filter in He as [_ He].
  assert (Ha : negb (needs_alignment (se_elem_type e)) || (se_offset e mod 8 =? 0) = true).
  { apply HE; [apply list_elem_of_In; by apply elem_of_map_to_list|by apply list_elem_of_In]. }
  unfold aligned, entry_slot, sizeof_MojomStructHeader; simpl. intros Hn. rewrite Hn in Ha.
  apply Z.eqb_eq in Ha. lia.
Qed.

Lemma array_slots_aligned d t n : Forall (aligned t) (array_slots d t n).
Proof.
  unfold array_slots. destruct (is_pod _); [constructor|]. generalize 0 as i.
  induction (Z.to_nat n) as [|k IH]; intros i; cbn [element_slots]; constructor; [|apply IH].
  unfold aligned, element_slot, sizeof_MojomArrayHeader; simpl. intros Hn.
  destruct (ad_elem_type d); try done; simpl;
    unfold sizeof_MojomPointer, sizeof_MojomUnionLayout; lia.
Qed.

Lemma aligned_shift delta base base' s :
  aligned base s -> (base + delta - base') mod 8 = 0 -> aligned base' (shift_slot delta s).
Proof.
  unfold aligned; simpl. intros H Hb Hn. specialize (H Hn).
  replace (s_addr s + delta - base') with ((s_addr s - base) + (base + delta - base')) by lia.
  rewrite Z.add_mod, H, Hb by lia. done.
Qed.
End Graph.

(** * What a copy is *)

Section Copy.
Context (E : denv) (m : mem).

Definition ptr_free (evs : list event) (x : Z) : Prop :=
  forall a, EPtr a ∈ evs -> ~ a <= x < a + 8.

(** A slot of the source and the same slot of the copy: pointers are null
    together, or lead to objects with the same bytes but for the pointers in
    them; handles are the same. *)
Definition copied (mf : mem) (evs' : list event) (e e' : event) : Prop :=
  match e, e' with
  | EPtr a, EPtr a' => exists v v', load64 m a = Ok v /\ load64 mf a' = Ok v' /\ (v = 0 <-> v' = 0) /\
      (v <> 0 -> exists nb, load32 m v = Ok nb /\
         forall i, 0 <= i < nb -> ptr_free evs' (v' + i) -> mf !! (v' + i) = m !! (v + i))
  | EHandle a n, EHandle a' n' => n' = n /\ load32 mf a' = load32 m a
  | _, _ => False
  end.

Lemma ptr_free_incl evs1 evs2 x : evs1 ⊆ evs2 -> ptr_free evs2 x -> ptr_free evs1 x.
Proof. intros Hi H a Ha. by apply H, Hi. Qed.

Lemma copied_incl mf evs1 evs2 e e' : evs1 ⊆ evs2 -> copied mf evs1 e e' -> copied mf evs2 e e'.
Proof.
  intros Hi. destruct e, e'; try done. intros (v & v' & ? & ? & ? & H). exists v, v'.
  repeat (split; [done|]). intros Hv. destruct (H Hv) as (nb & ? & Hb). exists nb. split; [done|].
  intros i ??. apply Hb; [done|]. by eapply ptr_free_incl.
Qed.

(** The copy, in [mf], of the slots [l], each [delta] bytes further, with its
    objects between [npd] and [hi] in a buffer that ends at [limd]. *)
Definition copy_of (mf : mem) (limd delta : Z) (l : list slot) (evs : list event)
    (npd hi : Z) : Prop :=
  exists npd' evs', npd' <= hi /\
    lays E Decoded mf limd (shift_slot delta <$> l) npd npd' evs' /\
    Forall2 (copied mf evs') evs evs' /\
    (forall s, s ∈ l -> forall x, slot_bytes s x -> ptr_free evs' (x + delta) ->
       mf !! (x + delta) = m !! x) /\
    (forall s, s ∈ l -> s_type s = MOJOM_TYPE_DESCRIPTOR_TYPE_ARRAY_PTR ->
       map_count Decoded mf (s_addr s + delta) = map_count Decoded m (s_addr s)).

Lemma copy_of_nil mf limd delta npd hi : npd <= hi -> copy_of mf limd delta [] [] npd hi.
Proof.
  intros H. exists npd, []. repeat split; try done; try constructor; intros s Hs; inversion Hs.
Qed.

Lemma copy_of_cons mf limd delta s l evs1 evs2 npd hi1 hi :
  copy_of mf limd delta [s] evs1 npd hi1 ->
  (forall npd', npd' <= hi1 -> copy_of mf limd delta l evs2 npd' hi) ->
  copy_of mf limd delta (s :: l) (evs1 ++ evs2) npd hi.
Proof.
  intros (np1 & evs1' & Hle1 & Hl1 & Hf1 & Hb1 & Hc1) H2.
  destruct (H2 np1 Hle1) as (np2 & evs2' & Hle2 & Hl2 & Hf2 & Hb2 & Hc2). clear H2.
  exists np2, (evs1' ++ evs2'). split; [done|]. 
  rewrite fmap_cons in *. inversion Hl1 as [|? ? ? npa ? ea eb Hs Hn]; subst. inversion Hn; subst.
  rewrite app_nil_r in *. split; [by econstructor|].
  assert (ea ⊆ ea ++ evs2' /\ evs2' ⊆ ea ++ evs2') as [Hi1 Hi2] by set_solver.
  split; [apply Forall2_app; eapply Forall2_impl; [exact Hf1| |exact Hf2|];
    intros ??; by apply copied_incl|].
  split; intros s' Hs'.
  - intros x Hx Hpf. apply elem_of_cons in Hs' as [->|Hs'].
    + apply (Hb1 s); [by left|done|]. by eapply ptr_free_incl.
    + apply (Hb2 s'); [done..|]. by eapply ptr_free_incl.
  - apply elem_of_cons in Hs' as [->|Hs']; [apply Hc1; by left|by apply Hc2].
Qed.
End Copy.

(** * What a call does *)

Section Run.
Context (E : denv) (HE : env_wf E = true) (Hnu : no_union_ptr E = true) (Hal : env_aligned E = true).
(** The source graph lies in [slo, lim), the buffer in [B, B + N). *)
Context (m : mem) (slo lim B N : Z).
Context (Hdisj : lim <= B \/ B + N <= slo) (Hsrcm : mapped m slo lim).

Abbreviation state := (mem * MojomBuffer)%type.
Abbreviation used st := (num_bytes_used (snd st)).
Abbreviation top st := (B + used st).

(** The source is intact, and the buffer is where it was. *)
Definition copy_inv (st : state) : Prop :=
  agree (range slo lim) m st.1 /\ mapped st.1 B (B + N) /\ buffer_wf st.2 /\
  buf st.2 = B /\ buf_size st.2 = N.

(** A run from [st] to [st'] that copies the slots [l], with events [evs], in
    place: it writes their copies and the space it takes from the buffer, which
    is what the objects need; and it returns [false] when that is not there. *)
Definition copied_to (delta : Z) (l : list slot) (evs : list event) (st : state)
    (r : bool) (st' : state) : Prop :=
  copy_inv st' /\ used st <= used st' /\
  agree (fun x => ~ fp (shift_slot delta <$> l) (top st) (top st') x) st.1 st'.1 /\
  (if decide (used st + objects_space Decoded m evs <= N) then
     r = true /\ used st' = used st + objects_space Decoded m evs /\
     forall mf npd, npd <= top st ->
       agree (fp (shift_slot delta <$> l) (top st) (top st')) st'.1 mf ->
       copy_of E m mf (B + N) delta l evs npd (top st')
   else r = false).

(** What the run needs: the slots of the source, the same slots of the copy
    inside the used part of the buffer, holding the same bytes. *)
Record copy_pre (delta lo lo' : Z) (l : list slot) (np : Z) (st : state) : Prop := {
  cp_inv : copy_inv st;
  cp_src : slots_ok E lo np l;
  cp_lo : slo <= lo;
  cp_np : np <= lim;
  cp_dst : slots_ok E lo' (top st) (shift_slot delta <$> l);
  cp_lo' : B <= lo';
  cp_aligned : Forall (aligned B) (shift_slot delta <$> l);
  cp_bytes : forall s x, s ∈ l -> slot_bytes s x -> st.1 !! (x + delta) = m !! x;
  cp_tags : Forall (tags_known E m) l;
}.

Lemma copy_inv_load st n a :
  copy_inv st -> slo <= a -> a + Z.of_nat n <= lim -> load n st.1 a = load n m a.
Proof.
  intros (Hs & _) ??. symmetry. apply load_agree. eapply agree_weaken; [exact Hs|].
  unfold range. lia.
Qed.

Lemma objects_space_nonneg f evs : 0 <= objects_space f m evs.
Proof. pose proof (objects_size_nonneg f m evs). pose proof (objects_size_space f m evs). lia. Qed.

Lemma copied_to_nil delta st : copy_inv st -> copied_to delta [] [] st true st.
Proof.
  intros Hi. split; [done|]. split; [done|]. split; [done|]. simpl.
  pose proof Hi as (_&_&(_&_&Hu&_)&_&HN). rewrite decide_True by lia.
  split; [done|]. split; [lia|]. intros mf npd Hn _. by apply copy_of_nil.
Qed.

Lemma copied_to_cons delta lo' s l evs1 evs2 st r1 st1 r st' :
  slots_ok E lo' (top st) (shift_slot delta <$> s :: l) ->
  copied_to delta [s] evs1 st r1 st1 ->
  (if r1 then copied_to delta l evs2 st1 r st' else r = false /\ st' = st1) ->
  copied_to delta (s :: l) (evs1 ++ evs2) st r st'.
Proof.
  intros Hok (Hi1 & Hu1 & Hf1 & H1) H2. pose proof (objects_space_nonneg Decoded evs2).
  unfold copied_to. rewrite objects_total_app, fmap_cons.
  destruct r1.
  2: { destruct H2 as [-> ->]. case_decide; [by destruct H1|]. rewrite decide_False by lia.
    split; [done|]. split; [done|]. split; [|done]. eapply agree_weaken; [exact Hf1|].
    intros x Hx Hin. apply Hx. destruct Hin as [Hin|Hin]; [left|by right].
    rewrite list_fmap_singleton in Hin. apply Exists_cons in Hin as [Hin|Hin]; [by left|by inversion Hin]. }
  destruct H2 as (Hi2 & Hu2 & Hf2 & H2). rewrite fmap_cons in Hok.
  destruct (fp_nil_cons (shift_slot delta s) (shift_slot delta <$> l) (top st) (top st1) (top st'))
    as [Hin1 Hin2]; [lia..|].
  split; [done|]. split; [lia|]. split.
  { transitivity st1.1; [eapply agree_weaken; [exact Hf1|]|eapply agree_weaken; [exact Hf2|]];
      intros x Hx Hx'; apply Hx; auto. }
  destruct (decide (used st + objects_space Decoded m evs1 <= N)); [|done]. destruct H1 as (_ & Hu1' & Hc1).
  destruct (decide (used st1 + objects_space Decoded m evs2 <= N)); [|rewrite decide_False by lia; done].
  destruct H2 as (-> & Hu2' & Hc2). rewrite decide_True by lia. split; [done|]. split; [lia|].
  intros mf npd Hnpd Hag. apply (copy_of_cons E m mf _ _ _ _ _ _ _ (top st1)).
  - apply Hc1; [done|]. transitivity st'.1; [|eapply agree_weaken; [exact Hag|auto]].
    intros x Hx. apply Hf2. intros Hx'.
    apply (fp_head_disjoint E lo' _ _ (top st) (top st1) (top st') x Hok); [lia|done..].
  - intros npd' Hn. apply Hc2; [done|]. eapply agree_weaken; [exact Hag|auto].
Qed.

Lemma slots_ok_single lo np s :
  slot_wf E s -> lo <= s_addr s -> slot_end s <= np -> slots_ok E lo np [s].
Proof. intros ???. constructor; try done; constructor. Qed.

Lemma copy_pre_head delta lo lo' s l np st :
  copy_pre delta lo lo' (s :: l) np st -> copy_pre delta lo lo' [s] np st.
Proof.
  intros [Hi Hs ? ? Hd ? Ha Hb Ht]. rewrite fmap_cons in *. 
  inversion Hs; inversion Hd; inversion Ha; inversion Ht; subst.
  split; try done; rewrite ?list_fmap_singleton.
  - by apply slots_ok_single.
  - by apply slots_ok_single.
  - by apply Forall_singleton.
  - intros s' x Hs'. apply Hb. apply list_elem_of_singleton in Hs' as ->. by left.
  - by apply Forall_singleton.
Qed.

Lemma copy_pre_tail delta lo lo' s l np st np1 evs1 r1 st1 :
  copy_pre delta lo lo' (s :: l) np st -> copied_to delta [s] evs1 st r1 st1 ->
  lay E Decoded m lim s np np1 evs1 -> copy_pre delta lo lo' l np1 st1.
Proof.
  intros [Hi Hs ? ? Hd ? Ha Hb Ht] (Hi1 & Hu1 & Hf1 & _) Hl. rewrite fmap_cons in *.
  inversion Hs as [|? ? Hwf Hlo Hend Hdj Hok]; subst. inversion Hd; inversion Ha; inversion Ht; subst.
  pose proof (proj1 (lay_bounds E HE Hnu Decoded m lim) _ _ _ _ Hl Hwf Hend) as (Hle&Hle2&_).
  split; try done; try lia.
  - by eapply slots_ok_weaken.
  - eapply slots_ok_weaken; [done|lia].
  - intros s' x Hs' Hx. rewrite <- (Hb s' x); [|by right|done]. symmetry. apply Hf1.
    intros Hin. apply (fp_head_disjoint E lo' _ _ (top st) (top st1) (top st1) (x + delta) Hd);
      [lia|done|]. left. apply Exists_exists. exists (shift_slot delta s').
    split; [by apply list_elem_of_fmap_2|]. unfold slot_bytes, slot_end, range in *; simpl. lia.
Qed.

Abbreviation dispatch_t := (MojomTypeDescriptorType -> descptr -> Z -> Z -> M state bool).

(** A dispatcher copies what one slot leads to. *)
Definition copies (k : nat) (dispatch : dispatch_t) : Prop :=
  forall s np np' evs delta lo lo' st,
    lay E Decoded m lim s np np' evs -> copy_pre delta lo lo' [s] np st ->
    fuel_for lim s np <= Z.of_nat k ->
    wp (dispatch (s_type s) (s_desc s) (s_addr s) (s_addr s + delta)) st
      (copied_to delta [s] evs st).

(** Where the pointer to an object is kept while its slots, past [lo'], are
    copied: it is not overwritten. *)
Definition out_at (lo' out : Z) : Prop := out + 8 <= lo' \/ B + N <= out.

Lemma out_kept delta lo' l evs st r st' out v :
  copied_to delta l evs st r st' -> slots_ok E lo' (top st) (shift_slot delta <$> l) ->
  B <= lo' -> lo' <= top st -> out_at lo' out -> copy_inv st ->
  load64 st.1 out = Ok v -> load64 st'.1 out = Ok v.
Proof.
  intros (Hi & Hu & Hf & _) Hok HB Hlo Hout Hi0 Hv. rewrite <- Hv. symmetry. apply load_agree.
  eapply agree_weaken; [exact Hf|]. intros x Hx Hin.
  apply (fp_object _ _ _ _ _ _ Hok) in Hin. destruct Hi as (_&_&(_&_&Hb&_)&_&HN).
  destruct Hi0 as (_&_&(_&_&Hb0&_)&_&HN0). unfold range, out_at in *. lia.
Qed.
(** One slot of an object copied, and what is left. *)
Lemma copies_cons k dispatch delta lo lo' s l np np' evs st out v :
  copies k dispatch -> copy_pre delta lo lo' (s :: l) np st ->
  lays E Decoded m lim (s :: l) np np' evs -> Z.max 0 (lim - np) + 2 <= Z.of_nat k ->
  out_at lo' out -> load64 st.1 out = Ok v -> lo' <= top st ->
  wp (dispatch (s_type s) (s_desc s) (s_addr s) (s_addr s + delta)) st (fun r1 st1 =>
    if r1 then
      exists np1 evs2, copy_pre delta lo lo' l np1 st1 /\ lays E Decoded m lim l np1 np' evs2 /\
        Z.max 0 (lim - np1) + 2 <= Z.of_nat k /\ load64 st1.1 out = Ok v /\ lo' <= top st1 /\
        forall r st', copied_to delta l evs2 st1 r st' -> copied_to delta (s :: l) evs st r st'
    else copied_to delta (s :: l) evs st false st1).
Proof.
  intros Hd Hpre Hl Hk Hout Hv Htop. inversion Hl as [|? ? ? np1 ? evs1 evs2 Hs Hl2]; subst.
  pose proof (copy_pre_head _ _ _ _ _ _ _ Hpre) as Hpre1.
  pose proof (cp_dst _ _ _ _ _ _ Hpre) as Hok. pose proof (cp_src _ _ _ _ _ _ Hpre) as Hoks.
  inversion Hoks as [|? ? Hwf Hlo Hend Hdj Hok']; subst.
  pose proof (proj1 (lay_bounds E HE Hnu Decoded m lim) _ _ _ _ Hs Hwf Hend) as (Hle&_).
  eapply wp_mono; [eapply (Hd _ _ _ _ _ lo lo'); [exact Hs|exact Hpre1|by apply fuel_for_bound]|].
  intros r1 st1 H1. destruct r1; [|by eapply copied_to_cons].
  pose proof (copy_pre_tail _ _ _ _ _ _ _ _ _ _ _ Hpre H1 Hs) as Hpre2.
  exists np1, evs2. repeat (split; [done || lia|]). split; [|split].
  - eapply out_kept; [exact H1|apply Hpre1|apply Hpre|exact Htop|exact Hout|apply Hpre|exact Hv].
  - pose proof H1 as (_ & Hu & _). lia.
  - intros r st' H2. by eapply copied_to_cons.
Qed.

Lemma copy_fields k dispatch t ver delta lo' out es np np' evs st :
  copies k dispatch -> load32 m (t + 4) = Ok ver -> slo <= t -> t + 8 <= lim ->
  copy_pre delta (t + 8) lo' (struct_slots es ver t) np st ->
  lays E Decoded m lim (struct_slots es ver t) np np' evs ->
  Z.max 0 (lim - np) + 2 <= Z.of_nat k ->
  out_at lo' out -> load64 st.1 out = Ok (t + delta) -> lo' <= top st ->
  wp (for_each es (fun entry =>
        version ← mload 4 (t + 4);
        if version <? se_min_version entry then mret None
        else
          let in_elem_data := t + sizeof_MojomStructHeader + se_offset entry in
          out ← mload 8 out;
          let out_elem_data := out + sizeof_MojomStructHeader + se_offset entry in
          copied ← dispatch (se_elem_type entry) (se_elem_descriptor entry) in_elem_data out_elem_data;
          mret (return_false copied))) st
    (fun r st' => copied_to delta (struct_slots es ver t) evs st (default true r) st').
Proof.
  intros Hd Hver Hslo Hlim Hpre Hl Hk Hout Hv Hlo. revert np evs st Hpre Hl Hk Hv Hlo.
  unfold struct_slots. induction es as [|e es IH]; intros np evs st Hpre Hl Hk Hv Hlo.
  { inversion Hl; subst. cbn [for_each]. wp_step. apply copied_to_nil, Hpre. }
  rewrite filter_cons in *. cbn [for_each]. wp_step. wp_step. eapply wp_mload.
  { rewrite (copy_inv_load _ _ _ (cp_inv _ _ _ _ _ _ Hpre)); [exact Hver|lia|simpl; lia]. }
  destruct (decide (se_min_version e <= ver)).
  2: { rewrite (proj2 (Z.ltb_lt _ _)) by lia. wp_step. by eapply IH. }
  rewrite (proj2 (Z.ltb_ge _ _)) by lia. rewrite fmap_cons in *. cbv zeta.
  wp_step. eapply wp_mload; [exact Hv|]. wp_step.
  replace (t + delta + sizeof_MojomStructHeader + se_offset e)
    with (s_addr (entry_slot t e) + delta) by (simpl; lia).
  eapply wp_mono; [by eapply (copies_cons k dispatch delta _ _ (entry_slot t e))|].
  intros [] st1; [|by repeat wp_step].
  intros (np1 & evs2 & Hpre2 & Hl2 & Hk2 & Hv2 & Hlo2 & Hcons). repeat wp_step.
  eapply wp_mono; [by eapply IH|]. simpl. eauto.
Qed.

Lemma copy_elements k dispatch t d n delta lo' out fuel j i np np' evs st :
  copies k dispatch -> load32 m (t + 4) = Ok n -> slo <= t -> t + 8 <= lim ->
  is_pod (ad_elem_type d) = false -> is_union_ptr (ad_elem_type d) = false ->
  n = i + Z.of_nat j -> (j < fuel)%nat ->
  copy_pre delta (t + 8) lo' (element_slots d t i j) np st ->
  lays E Decoded m lim (element_slots d t i j) np np' evs ->
  Z.max 0 (lim - np) + 2 <= Z.of_nat k ->
  out_at lo' out -> load64 st.1 out = Ok (t + delta) -> lo' <= top st ->
  wp (for_upto fuel i (mload 4 (t + 4)) (fun i =>
        in_elem_data ← lift (array_index_by_type t (ad_elem_type d) i);
        out ← mload 8 out;
        out_elem_data ← lift (array_index_by_type out (ad_elem_type d) i);
        copied ← dispatch (ad_elem_type d) (ad_elem_descriptor d) in_elem_data out_elem_data;
        mret (return_false copied))) st
    (fun r st' => copied_to delta (element_slots d t i j) evs st (default true r) st').
Proof.
  intros Hd Hn Hslo Hlim Hpod Hup. revert fuel i np evs st.
  induction j as [|j IH]; intros fuel i np evs st Hij Hfuel Hpre Hl Hk Hout Hv Hlo;
    (destruct fuel as [|fuel]; [lia|]); cbn [for_upto element_slots] in *; wp_step;
    (eapply wp_mload;
      [rewrite (copy_inv_load _ _ _ (cp_inv _ _ _ _ _ _ Hpre)); [exact Hn|lia|simpl; lia]|]).
  - rewrite (proj2 (Z.ltb_ge i n)) by lia. inversion Hl; subst. wp_step. apply copied_to_nil, Hpre.
  - rewrite (proj2 (Z.ltb_lt i n)) by lia. wp_step. wp_step.
    eapply wp_lift; [by apply array_index_eq|]. wp_step. eapply wp_mload; [exact Hv|]. wp_step.
    eapply wp_lift; [by apply array_index_eq|]. wp_step.
    replace (t + delta + sizeof_MojomArrayHeader + elem_size (ad_elem_type d) * i)
      with (s_addr (element_slot d t i) + delta) by (simpl; lia).
    eapply wp_mono; [by eapply (copies_cons k dispatch delta _ _ (element_slot d t i))|].
    intros [] st1; [|by repeat wp_step].
    intros (np1 & evs2 & Hpre2 & Hl2 & Hk2 & Hv2 & Hlo2 & Hcons). repeat wp_step.
    eapply wp_mono; [eapply IH; try done; lia|]. simpl. eauto.
Qed.
(** ** Objects *)

Lemma lays_single f mf limd s np np' evs :
  lay E f mf limd s np np' evs -> lays E f mf limd [s] np np' evs.
Proof. intros H. rewrite <- (app_nil_r evs). econstructor; [exact H|constructor]. Qed.

(** The copy of an object of [nb] bytes at [t], of slots [l], [delta] further. *)
Definition object_copy (mf : mem) (delta t nb : Z) (l : list slot) (evs : list event) (hi : Z) : Prop :=
  exists npd' evs', npd' <= hi /\
    lays E Decoded mf (B + N) (shift_slot delta <$> l) (t + delta + nb) npd' evs' /\
    Forall2 (copied m mf evs') evs evs' /\
    (forall i, 0 <= i < nb -> ptr_free evs' (t + delta + i) -> mf !! (t + delta + i) = m !! (t + i)) /\
    (forall s, s ∈ l -> s_type s = MOJOM_TYPE_DESCRIPTOR_TYPE_ARRAY_PTR ->
       map_count Decoded mf (s_addr s + delta) = map_count Decoded m (s_addr s)).

(** A run from [st] to [st'] that copies such an object and stores the pointer to
    it at [out]. *)
Definition object_to (t nb : Z) (l : list slot) (evs : list event) (out : Z) (st : state)
    (r : bool) (st' : state) : Prop :=
  copy_inv st' /\ used st <= used st' /\
  agree (fun x => ~ (out <= x < out + 8) /\ ~ (top st <= x < top st')) st.1 st'.1 /\
  (if decide (used st + (round8 nb + objects_space Decoded m evs) <= N) then
     r = true /\ used st' = used st + (round8 nb + objects_space Decoded m evs) /\
     load64 st'.1 out = Ok (top st) /\
     forall mf, agree (range (top st) (top st')) st'.1 mf ->
       object_copy mf (top st - t) t nb l evs (top st')
   else r = false).

(** A pointer variable outside the source and the free part of the buffer. *)
Definition out_ok (out : Z) (st : state) : Prop :=
  mapped st.1 out (out + 8) /\ (out + 8 <= slo \/ lim <= out) /\ (out + 8 <= top st \/ B + N <= out).

Lemma wp_copy_object t nb out st (rest : M state bool) Q :
  copy_inv st -> slo <= t -> 8 <= nb -> t + nb <= lim -> load32 m t = Ok nb -> out_ok out st ->
  (N < used st + round8 nb -> forall m1, copy_inv (m1, st.2) ->
     agree (fun x => ~ (out <= x < out + 8)) st.1 m1 -> Q false (m1, st.2)) ->
  (used st + round8 nb <= N -> forall st1, copy_inv st1 -> used st1 = used st + round8 nb ->
     load64 st1.1 out = Ok (top st) ->
     (forall i, 0 <= i < nb -> st1.1 !! (top st + i) = m !! (t + i)) ->
     agree (fun x => ~ (out <= x < out + 8) /\ ~ (top st <= x < top st1)) st.1 st1.1 ->
     wp rest st1 Q) ->
  wp (num_bytes ← mload 4 t;
      p ← on_snd (MojomBuffer_Allocate num_bytes);
      mstore 8 out p;;
      if p =? NULL then mret false
      else
        num_bytes ← mload 4 t;
        mmemcpy p t num_bytes;;
        rest) st Q.
Proof.
  intros Hi Hslo Hmin Hlimt Hnb (Hout & Hsrc & Hfree) Hfail Hok.
  pose proof Hi as (Hag & Hmap & Hwf & HB & HN). pose proof Hwf as (HB0 & Hhi & Hu & Hs32 & Hm8).
  pose proof (load_range _ _ _ _ Hnb). pose proof (round8_bounds nb).
  wp_step. eapply wp_mload; [rewrite (copy_inv_load _ _ _ Hi); [exact Hnb|lia|simpl; lia]|].
  destruct (load_mapped st.1 out 8 Hout) as (v0 & Hv0 & _).
  wp_step. apply wp_on_snd, wp_Allocate; [done|simpl in *; lia| |]; intros Hf; unfold fits in Hf;
    bool_facts; wp_step; cbn [fst snd].
  - rewrite HB. pose proof (store_Ok st.1 out 8 (top st) Hout) as Hst.
    set (m1 := store_bytes _ _ _) in Hst. eapply wp_mstore; [exact Hst|].
    destruct (Z.eqb_spec (top st) NULL); [unfold NULL in *; lia|]. cbn [fst snd].
    assert (Hag1 : agree (fun x => ~ (out <= x < out + 8)) st.1 m1).
    { eapply store_agree; [exact Hst|simpl; lia]. }
    assert (Hag1' : agree (range slo lim) m m1).
    { transitivity st.1; [done|]. eapply agree_weaken; [exact Hag1|]. unfold range. lia. }
    assert (Hmap1 : mapped m1 B (B + N)) by (by eapply store_mapped).
    assert (Hi1 : copy_inv (m1, allocated st.2 nb)).
    { split; [done|]. split; [done|]. by split; [apply allocated_wf; [|lia|apply Z.leb_le; lia]|]. }
    assert (Hsm : mapped m1 t (t + nb)).
    { eapply mapped_weaken; [by eapply mapped_agree|lia..]. }
    wp_step. eapply wp_mload.
    { cbn [fst]. rewrite <- Hnb. symmetry. apply load_agree. eapply agree_weaken; [exact Hag1'|].
      unfold range; simpl. lia. }
    destruct (memcpy_Ok m1 (top st) t nb) as (m2 & Hcp & Hb2 & Hag2 & Hdom); [lia|done| |lia|].
    { eapply mapped_weaken; [exact Hmap1|lia..]. }
    wp_step. eapply wp_mmemcpy; [exact Hcp|]. cbn [fst snd].
    apply (Hok ltac:(lia) (m2, allocated st.2 nb)); cbn [fst snd].
    + split; [|split; [|apply Hi1]]; cbn [fst].
      * transitivity m1; [done|]. eapply agree_weaken; [exact Hag2|]. unfold range. lia.
      * intros x Hx. apply Hdom. by apply Hmap1.
    + done.
    + rewrite <- (load_agree m1).
      * rewrite (load_store _ _ _ _ _ Hst). f_equal. apply Z.mod_small. simpl. lia.
      * eapply agree_weaken; [exact Hag2|]. unfold range; simpl. lia.
    + intros i Hx. rewrite Hb2 by done. symmetry. apply Hag1'. unfold range. lia.
    + cbn [allocated num_bytes_used]. transitivity m1; eapply agree_weaken; [exact Hag1| |exact Hag2|];
        simpl; lia.
  - pose proof (store_Ok st.1 out 8 NULL Hout) as Hst.
    set (m1 := store_bytes _ _ _) in Hst. eapply wp_mstore; [exact Hst|].
    destruct (Z.eqb_spec NULL NULL); [|done]. cbn [fst snd]. wp_step.
    assert (Hag1 : agree (fun x => ~ (out <= x < out + 8)) st.1 m1).
    { eapply store_agree; [exact Hst|simpl; lia]. }
    apply Hfail; [lia| |done]. split; [|split; [|done]]; cbn [fst].
    + transitivity st.1; [done|]. eapply agree_weaken; [exact Hag1|]. unfold range. lia.
    + by eapply store_mapped.
Qed.
(** An object whose bytes have been copied, before its slots are. *)
Record raw_copy (t nb : Z) (l : list slot) (out : Z) (st st1 : state) : Prop := {
  rc_inv0 : copy_inv st;
  rc_inv : copy_inv st1;
  rc_min : slo <= t /\ 8 <= nb /\ t + nb <= lim;
  rc_used : used st1 = used st + round8 nb;
  rc_out : load64 st1.1 out = Ok (top st);
  rc_out_ok : out_ok out st;
  rc_bytes : forall i, 0 <= i < nb -> st1.1 !! (top st + i) = m !! (t + i);
  rc_frame : agree (fun x => ~ (out <= x < out + 8) /\ ~ (top st <= x < top st1)) st.1 st1.1;
  rc_src : slots_ok E (t + 8) (t + nb) l;
  rc_dst : slots_ok E (top st + 8) (top st + nb) (shift_slot (top st - t) <$> l);
}.

Lemma raw_copy_pre t nb l out st st1 :
  raw_copy t nb l out st st1 -> Forall (aligned t) l -> Forall (tags_known E m) l ->
  copy_pre (top st - t) (t + 8) (top st + 8) l (t + nb) st1.
Proof.
  intros [Hi0 Hi (?&?&?) Hu Hout Hok Hb Hf Hs Hd] Ha Ht.
  destruct Hi0 as (_&_&(_&_&Hu0&_&Hm8)&_). pose proof (round8_bounds nb).
  split; try done; try lia.
  - eapply slots_ok_weaken; [exact Hd|lia].
  - apply Forall_fmap. eapply Forall_impl; [exact Ha|]. intros s Hs'. simpl.
    eapply aligned_shift; [exact Hs'|]. replace (t + (top st - t) - B) with (used st) by lia. done.
  - intros s x Hsl Hx. destruct (slots_ok_range E _ _ _ _ Hs Hsl) as (_ & ? & ?).
    unfold slot_bytes, range in Hx.
    replace (x + (top st - t)) with (top st + (x - t)) by lia. rewrite Hb by lia. f_equal. lia.
Qed.

Lemma raw_copy_bytes t nb l out st st1 r evs st' mf evs' i :
  raw_copy t nb l out st st1 -> copied_to (top st - t) l evs st1 r st' ->
  agree (range (top st) (top st')) st'.1 mf ->
  (forall s, s ∈ l -> forall x, slot_bytes s x -> ptr_free evs' (x + (top st - t)) ->
     mf !! (x + (top st - t)) = m !! x) ->
  0 <= i < nb -> ptr_free evs' (top st + i) -> mf !! (top st + i) = m !! (t + i).
Proof.
  intros [Hi0 Hi (?&?&?) Hu Hout Hok Hb Hf Hs Hd] (_ & Hu' & Hfr & _) Hag Hslots Hrange Hpf.
  pose proof (round8_bounds nb).
  destruct (decide (Exists (fun s => s_addr s <= t + i < slot_end s) l)) as [Hin|Hin].
  - apply Exists_exists in Hin as (s & Hsl & Hx).
    replace (top st + i) with (t + i + (top st - t)) in * by lia. by apply (Hslots s).
  - rewrite <- Hag by (unfold range; lia). rewrite <- Hb by done. symmetry. apply Hfr.
    intros [Hx|Hx]; [|lia]. apply Hin. rewrite Exists_fmap in Hx. eapply Exists_impl; [exact Hx|].
    intros s Hx'. unfold slot_bytes, slot_end, range in *; simpl in *. lia.
Qed.

Lemma raw_copy_finish t nb l out st st1 evs r st' :
  raw_copy t nb l out st st1 -> copied_to (top st - t) l evs st1 r st' ->
  object_to t nb l evs out st r st'.
Proof.
  intros Hraw Hto. pose proof Hto as (Hi' & Hu' & Hfr & Hres).
  pose proof Hraw as [Hi0 Hi (?&?&?) Hu Hout (Hom & Hos & Hof) Hb Hf Hs Hd].
  pose proof (round8_bounds nb). destruct Hi' as (Hag & Hmap & Hwf & HB & HN).
  pose proof Hwf as (_&_&HuN&_). 
  assert (Hobj : forall x, fp (shift_slot (top st - t) <$> l) (top st1) (top st') x ->
    top st <= x < top st').
  { intros x [Hx|Hx]; [|lia].
    assert (Hx' : top st + 8 <= x < top st + nb \/ top st + nb <= x < top st + nb).
    { eapply fp_object; [exact Hd|by left]. }
    lia. }
  split; [by split|]. split; [lia|]. split.
  { transitivity st1.1; [eapply agree_weaken; [exact Hf|]; simpl; lia|].
    eapply agree_weaken; [exact Hfr|]. intros x Hx Hin. apply Hobj in Hin. tauto. }
  replace (used st + (round8 nb + objects_space Decoded m evs))
    with (used st1 + objects_space Decoded m evs) by lia.
  case_decide; [|done]. destruct Hres as (-> & Hu'' & Hc). split; [done|]. split; [done|]. split.
  { rewrite <- Hout. symmetry. apply load_agree. eapply agree_weaken; [exact Hfr|].
    intros x Hx Hin. apply Hobj in Hin. unfold range in Hx. simpl in Hx. lia. }
  intros mf Hmf. destruct (Hc mf (top st + nb)) as (npd' & evs' & Hle & Hl & Hcop & Hsl & Hcnt); [lia| |].
  { eapply agree_weaken; [exact Hmf|done]. }
  exists npd', evs'. split; [done|]. replace (t + (top st - t)) with (top st) by lia.
  split; [done|]. split; [done|]. split; [|done].
  intros i Hx Hpf. by eapply raw_copy_bytes.
Qed.

Lemma object_no_space t nb l evs out st m1 :
  copy_inv st -> N < used st + round8 nb -> copy_inv (m1, st.2) ->
  agree (fun x => ~ (out <= x < out + 8)) st.1 m1 -> object_to t nb l evs out st false (m1, st.2).
Proof.
  intros Hi Hlt Hi1 Hag. pose proof (objects_space_nonneg Decoded evs).
  split; [done|]. split; [done|]. split.
  - eapply agree_weaken; [exact Hag|]. simpl. tauto.
  - by rewrite decide_False by lia.
Qed.
Lemma struct_copies k dispatch p d t out nb ver np' evs st :
  copies k dispatch -> struct_desc E p = Ok d -> 0 < t -> slo <= t -> 0 < out ->
  8 <= nb -> t + nb <= lim -> load32 m t = Ok nb -> load32 m (t + 4) = Ok ver -> size_ok d ver nb ->
  lays E Decoded m lim (struct_slots (sd_entries d) ver t) (t + nb) np' evs ->
  Forall (tags_known E m) (struct_slots (sd_entries d) ver t) ->
  lim - (t + nb) + 2 <= Z.of_nat k -> copy_inv st -> out_ok out st ->
  wp (MojomStruct_DeepCopy E dispatch p t out) st
    (object_to t nb (struct_slots (sd_entries d) ver t) evs out st).
Proof.
  intros Hd Hp Ht Hslo Hout0 Hmin Hlimt Hnb Hver Hsz Hl Htags Hk Hi Hout.
  pose proof Hi as (_ & _ & (HB0 & _ & Hu0 & _) & HB & HN).
  unfold MojomStruct_DeepCopy.
  do 3 (wp_step; apply wp_assert;
    [by eapply struct_desc_non_null || by apply non_null_pos|]).
  pose proof (struct_desc_wf E p d HE Hp) as Hwf.
  apply (wp_copy_object t nb); try done.
  { intros Hlt m1 Hi1 Hag. by apply object_no_space. }
  intros Hfit st1 Hi1 Hu1 Hv Hb Hag. wp_step. eapply wp_lift; [exact Hp|]. wp_step.
  assert (Hraw : raw_copy t nb (struct_slots (sd_entries d) ver t) out st st1).
  { split; try done; try lia.
    - by apply struct_slots_ok.
    - rewrite <- struct_slots_shift. replace (t + (top st - t)) with (top st) by lia.
      apply struct_slots_ok; try done. lia. }
  pose proof (raw_copy_pre _ _ _ _ _ _ Hraw (struct_desc_aligned E p d t ver Hal Hp) Htags) as Hpre.
  pose proof (round8_bounds nb). destruct Hout as (_ & _ & Hof).
  eapply wp_mono; [eapply (copy_fields k dispatch t ver (top st - t) (top st + 8) out); try done; try lia|].
  - unfold out_at. lia.
  - rewrite Hv. f_equal. lia.
  - intros r st' Hto. wp_step. by eapply raw_copy_finish.
Qed.

Lemma array_copies k dispatch fuel p d t out nb n np' evs st :
  copies k dispatch -> array_desc E p = Ok d -> 0 < t -> slo <= t -> 0 < out ->
  t + nb <= lim -> load32 m t = Ok nb -> load32 m (t + 4) = Ok n -> array_header_ok d nb n ->
  lays E Decoded m lim (array_slots d t n) (t + nb) np' evs ->
  Forall (tags_known E m) (array_slots d t n) ->
  lim - (t + nb) + 2 <= Z.of_nat k -> nb - 8 < Z.of_nat fuel -> copy_inv st -> out_ok out st ->
  wp (MojomArray_DeepCopy E fuel dispatch p t out) st
    (object_to t nb (array_slots d t n) evs out st).
Proof.
  intros Hd Hp Ht Hslo Hout0 Hlimt Hnb Hn Hh Hl Htags Hk Hfuel Hi Hout.
  pose proof Hi as (_ & _ & (HB0 & _ & Hu0 & _) & HB & HN).
  unfold MojomArray_DeepCopy.
  do 3 (wp_step; apply wp_assert;
    [by eapply array_desc_non_null || by apply non_null_pos|]).
  pose proof (array_desc_wf E p d HE Hp) as Hwf. pose proof (load_range _ _ _ _ Hn).
  pose proof Hh as (Hmin & _). unfold sizeof_MojomArrayHeader in Hmin.
  apply (wp_copy_object t nb); try done.
  { intros Hlt m1 Hi1 Hag. by apply object_no_space. }
  intros Hfit st1 Hi1 Hu1 Hv Hb Hag. wp_step. eapply wp_lift; [exact Hp|].
  assert (Hraw : raw_copy t nb (array_slots d t n) out st st1).
  { split; try done.
    - apply (array_slots_ok E d nb n); try done; lia.
    - rewrite <- array_slots_shift. replace (t + (top st - t)) with (top st) by lia.
      apply (array_slots_ok E d nb n); try done; lia. }
  pose proof (raw_copy_pre _ _ _ _ _ _ Hraw (array_slots_aligned d t n) Htags) as Hpre.
  pose proof (round8_bounds nb). pose proof Hout as (_ & _ & Hof).
  unfold array_slots in *. destruct (is_pod (ad_elem_type d)) eqn:Hpod.
  { inversion Hl; subst. wp_step. eapply raw_copy_finish; [exact Hraw|]. by apply copied_to_nil. }
  pose proof (array_count_bound d nb n E Hwf Hpod Hh ltac:(lia)).
  unfold array_wf in Hwf. bool_facts. wp_step.
  eapply wp_mono; [eapply (copy_elements k dispatch t d n (top st - t) (top st + 8) out); try done; try lia|].
  - unfold out_at. lia.
  - rewrite Hv. f_equal. lia.
  - intros r st' Hto. wp_step. by eapply raw_copy_finish.
Qed.
(** ** Slots *)

(** A slot inside the used part of the buffer. *)
Lemma copy_pre_slot delta lo lo' s np st :
  copy_pre delta lo lo' [s] np st ->
  slot_wf E s /\ slo <= s_addr s /\ slot_end s <= np /\ slot_wf E (shift_slot delta s) /\
  B <= s_addr s + delta /\ slot_end s + delta <= top st /\ aligned B (shift_slot delta s) /\
  tags_known E m s.
Proof.
  intros [Hi Hs ? ? Hd ? Ha Hb Ht]. rewrite list_fmap_singleton in *.
  rewrite Forall_singleton in Ha, Ht. inversion Hs; inversion Hd; subst.
  unfold slot_end in *; simpl in *. repeat (split; [done || lia|]). done.
Qed.

(** A slot of the copy is a pointer variable, when it is a pointer. *)
Lemma copy_pre_out delta lo lo' s np st :
  copy_pre delta lo lo' [s] np st -> is_object_ptr (s_type s) = true ->
  out_ok (s_addr s + delta) st.
Proof.
  intros Hpre Hty. pose proof (object_ptr_size s Hty).
  destruct (copy_pre_slot _ _ _ _ _ _ Hpre) as (_&?&?&_&?&?&_).
  pose proof (cp_inv _ _ _ _ _ _ Hpre) as (_ & Hmap & (_&_&?&_) & ? & ?).
  split; [eapply mapped_weaken; [exact Hmap|lia..]|]. lia.
Qed.

(** What distinguishes structs from arrays: the layout of a pointer to the
    object, from that of the object. *)
Definition ptr_layout (s : slot) (v nb : Z) (l : list slot) : Prop :=
  forall mf out t' npd npd' evs' delta,
    out = s_addr s + delta -> load64 mf out = Ok t' -> t' <> 0 -> pointer_ok (B + N) npd out t' ->
    t' + nb <= B + N -> load32 mf t' = Ok nb -> load32 mf (t' + 4) = load32 m (v + 4) ->
    lays E Decoded mf (B + N) (shift_slot (t' - v) <$> l) (t' + nb) npd' evs' ->
    (forall s1, s1 ∈ l -> s_type s1 = MOJOM_TYPE_DESCRIPTOR_TYPE_ARRAY_PTR ->
       map_count Decoded mf (s_addr s1 + (t' - v)) = map_count Decoded m (s_addr s1)) ->
    lay E Decoded mf (B + N) (shift_slot delta s) npd npd' (EPtr out :: evs').

Lemma header_copied mf limd t t' nb l npd' evs' n a :
  slots_ok E (t' + 8) (t' + nb) l -> lays E Decoded mf limd l (t' + nb) npd' evs' -> 8 <= nb ->
  (forall i, 0 <= i < nb -> ptr_free evs' (t' + i) -> mf !! (t' + i) = m !! (t + i)) ->
  0 <= a -> a + Z.of_nat n <= 8 -> load n mf (t' + a) = load n m (t + a).
Proof.
  intros Hok Hl Hnb Hb Ha Hn. apply load_ext. intros i Hx.
  rewrite <- !Z.add_assoc. apply Hb; [lia|]. intros p Hp Hpx.
  pose proof (proj2 (lay_bounds E HE Hnu Decoded mf limd) _ _ _ _ Hl _ Hok) as (_&_&Hin&_).
  unfold events_in in Hin. rewrite Forall_forall in Hin.
  specialize (Hin _ Hp (t' + (a + i)) Hpx). apply (fp_object _ _ _ _ _ _ Hok) in Hin. lia.
Qed.

Lemma object_slot_copied delta lo lo' s np st v nb l evs r st' :
  copy_pre delta lo lo' [s] np st -> is_object_ptr (s_type s) = true ->
  load64 m (s_addr s) = Ok v -> v <> 0 -> load32 m v = Ok nb -> 8 <= nb ->
  (forall t, 0 < t -> slots_ok E (t + 8) (t + nb) (shift_slot (t - v) <$> l)) ->
  ptr_layout s v nb l ->
  object_to v nb l evs (s_addr s + delta) st r st' ->
  copied_to delta [s] (EPtr (s_addr s) :: evs) st r st'.
Proof.
  intros Hpre Hty Hv Hv0 Hnb Hmin Hslots Hlay (Hi' & Hu' & Hfr & Hres).
  pose proof (object_ptr_size s Hty) as Hse.
  destruct (copy_pre_slot _ _ _ _ _ _ Hpre) as (_&_&_&_&HB&Hend&Hal1&_).
  pose proof (cp_inv _ _ _ _ _ _ Hpre) as (_ & Hmap & (HB0&_&Hu0&_&Hm8) & HB1 & HN1).
  split; [done|]. split; [done|]. rewrite list_fmap_singleton. split.
  { eapply agree_weaken; [exact Hfr|]. intros x Hx. rewrite fp_single in Hx.
    unfold slot_bytes, slot_end, range in Hx; simpl in Hx. unfold slot_end in Hse. lia. }
  rewrite (objects_total_ptr _ Decoded m _ v nb) by done.
  case_decide as Hfit; [|done]. destruct Hres as (-> & Hu'' & Hout & Hc).
  split; [done|]. split; [done|]. intros mf npd Hnpd Hag.
  destruct (Hc mf) as (npd' & evs' & Hle & Hl & Hcop & Hb & Hcnt).
  { eapply agree_weaken; [exact Hag|]. intros x Hx. apply fp_single. by right. }
  replace (v + (top st - v)) with (top st) in Hl, Hb by lia.
  set (t' := top st) in *. assert (0 < t') by (unfold t'; lia).
  pose proof (objects_space_nonneg Decoded evs). pose proof (round8_bounds nb).
  assert (Hout' : load64 mf (s_addr s + delta) = Ok t').
  { rewrite <- Hout. symmetry. apply load_agree. eapply agree_weaken; [exact Hag|].
    intros x Hx. apply fp_single. left. unfold slot_bytes, slot_end, range in *; simpl in *. lia. }
  assert (Hhd : forall a n, 0 <= a -> a + Z.of_nat n <= 8 -> load n mf (t' + a) = load n m (v + a)).
  { intros a n ??. eapply (header_copied mf (B + N) v t' nb); try done. by apply Hslots. }
  assert (Hlay1 : lay E Decoded mf (B + N) (shift_slot delta s) npd npd'
    (EPtr (s_addr s + delta) :: evs')).
  { apply (Hlay mf _ t' npd npd' evs' delta); try done; [lia| |lia| |].
    - split; [unfold t'; lia|]. split; [done|]. split; [lia|].
      assert (Ha : (s_addr s + delta - B) mod 8 = 0).
      { apply Hal1. simpl. unfold is_object_ptr, is_struct_ptr, needs_alignment in *.
        by destruct (s_type s). }
      unfold t'. lia.
    - specialize (Hhd 0 4%nat). rewrite !Z.add_0_r in Hhd. rewrite Hhd; [done|lia|simpl; lia].
    - apply Hhd; simpl; lia. }
  exists npd', (EPtr (s_addr s + delta) :: evs'). split; [done|]. rewrite list_fmap_singleton.
  split; [by apply lays_single|].
  assert (Hsub : evs' ⊆ EPtr (s_addr s + delta) :: evs') by (intros ? ?; by right).
  split; [|split].
  - constructor; [|eapply Forall2_impl; [exact Hcop|]; intros ??; by apply copied_incl].
    exists v, t'. split; [done|]. split; [done|]. split; [lia|]. intros _. exists nb. split; [done|].
    intros i Hx Hpf. apply Hb; [done|]. by eapply ptr_free_incl.
  - intros s' Hs' x Hx Hpf. apply list_elem_of_singleton in Hs' as ->. exfalso.
    apply (Hpf (s_addr s + delta)); [by left|]. unfold slot_bytes, range in Hx. lia.
  - intros s' Hs' _. apply list_elem_of_singleton in Hs' as ->. unfold map_count.
    rewrite Hv, Hout'. simpl. rewrite (proj2 (Z.eqb_neq v 0)), (proj2 (Z.eqb_neq t' 0)) by lia.
    apply Hhd; simpl; lia.
Qed.
(** A slot without objects is copied with its parent. *)
Lemma slot_unchanged delta lo lo' s np evs evs' st :
  copy_pre delta lo lo' [s] np st -> objects_space Decoded m evs = 0 ->
  s_type s <> MOJOM_TYPE_DESCRIPTOR_TYPE_ARRAY_PTR ->
  (forall mf npd, (forall x, slot_bytes s x -> mf !! (x + delta) = m !! x) ->
     lay E Decoded mf (B + N) (shift_slot delta s) npd npd evs' /\
     Forall2 (copied m mf evs') evs evs') ->
  copied_to delta [s] evs st true st.
Proof.
  intros Hpre Hz Hty Hlay. pose proof (cp_inv _ _ _ _ _ _ Hpre) as Hi.
  pose proof Hi as (_&_&(_&_&Hu&_)&_&HN).
  split; [done|]. split; [done|]. split; [done|]. rewrite Hz, decide_True by lia.
  split; [done|]. split; [lia|]. intros mf npd Hnpd Hag.
  assert (Hb : forall x, slot_bytes s x -> mf !! (x + delta) = m !! x).
  { intros x Hx. rewrite <- (cp_bytes _ _ _ _ _ _ Hpre s x) by (done || by left). symmetry.
    apply Hag. rewrite list_fmap_singleton. apply fp_single. left.
    unfold slot_bytes, slot_end, range in *; simpl. lia. }
  destruct (Hlay mf npd Hb) as [Hl Hc]. exists npd, evs'. split; [done|].
  rewrite list_fmap_singleton. split; [by apply lays_single|]. split; [done|].
  split; intros s' Hs'; apply list_elem_of_singleton in Hs' as ->; [|done].
  intros x Hx _. by apply Hb.
Qed.

Lemma slot_load mf delta s n a :
  (forall x, slot_bytes s x -> mf !! (x + delta) = m !! x) ->
  s_addr s <= a -> a + Z.of_nat n <= slot_end s -> load n mf (a + delta) = load n m a.
Proof.
  intros Hb ??. apply load_ext. intros i ?. 
  replace (a + delta + i) with (a + i + delta) by lia. apply Hb. unfold slot_bytes, range. lia.
Qed.

Lemma null_slot_copied delta lo lo' s np st :
  copy_pre delta lo lo' [s] np st -> is_object_ptr (s_type s) = true -> s_nullable s = true ->
  load64 m (s_addr s) = Ok 0 ->
  wp (mstore 8 (s_addr s + delta) NULL;; mret true) st
    (copied_to delta [s] [EPtr (s_addr s)] st).
Proof.
  intros Hpre Hty Hn Hv. pose proof (copy_pre_out _ _ _ _ _ _ Hpre Hty) as (Hmap & Hsrc & Hfree).
  pose proof (cp_inv _ _ _ _ _ _ Hpre) as (Hag & Hm & Hwf & HB & HN).
  pose proof (object_ptr_size s Hty) as Hse. pose proof Hwf as (_&_&Hu&_).
  pose proof (store_Ok st.1 _ 8 NULL Hmap) as Hst. set (m1 := store_bytes _ _ _) in Hst.
  wp_step. eapply wp_mstore; [exact Hst|]. wp_step.
  assert (Hag1 : agree (fun x => ~ (s_addr s + delta <= x < s_addr s + delta + 8)) st.1 m1).
  { eapply store_agree; [exact Hst|simpl; lia]. }
  split; [split; [|split; [|done]]; cbn [fst]|].
  - transitivity st.1; [done|]. eapply agree_weaken; [exact Hag1|]. unfold range. lia.
  - by eapply store_mapped.
  - cbn [fst snd]. split; [done|]. rewrite list_fmap_singleton. split.
    + eapply agree_weaken; [exact Hag1|]. intros x Hx Hx'. apply Hx, fp_single. left.
      unfold slot_bytes, slot_end, range in *; simpl. lia.
    + cbn [objects_total]. rewrite Hv, decide_True by (simpl; lia). split; [done|]. split; [simpl; lia|].
      intros mf npd Hnpd Hmf.
      assert (Hout : load64 mf (s_addr s + delta) = Ok 0).
      { rewrite <- (load_agree m1); [by rewrite (load_store _ _ _ _ _ Hst)|].
        eapply agree_weaken; [exact Hmf|]. intros x Hx. apply fp_single. left.
        unfold slot_bytes, slot_end, range in *; simpl in *. lia. }
      exists npd, [EPtr (s_addr s + delta)]. split; [done|]. rewrite list_fmap_singleton.
      split; [by apply lays_single, lay_null|]. split.
      { repeat constructor. by exists 0, 0. }
      split; intros s' Hs'; apply list_elem_of_singleton in Hs' as ->.
      * intros x Hx Hpf. exfalso. apply (Hpf (s_addr s + delta)); [by left|].
        unfold slot_bytes, range in Hx. lia.
      * intros _. unfold map_count. by rewrite Hv, Hout.
Qed.

(** ** Unions *)

Lemma memcpy_same mm dst src n :
  0 <= n -> mapped mm src (src + n) -> mapped mm dst (dst + n) ->
  n = 0 \/ dst + n <= src \/ src + n <= dst ->
  (forall i, 0 <= i < n -> mm !! (dst + i) = mm !! (src + i)) -> memcpy mm dst src n = Ok mm.
Proof.
  intros Hn Hs Hd Ho Hb. destruct (memcpy_Ok mm dst src n) as (m' & -> & Hb' & Hag & _); try done.
  f_equal. apply map_eq. intros x. destruct (decide (dst <= x < dst + n)) as [Hx|Hx].
  - replace x with (dst + (x - dst)) by lia. rewrite Hb', Hb by lia. done.
  - symmetry. apply Hag. lia.
Qed.

Lemma copy_active (dispatch : dispatch_t) a a' tag es st Q :
  load32 st.1 (a + 4) = Ok tag ->
  (forall e, active_entry es tag = Some e ->
     wp (dispatch (ue_elem_type e) (ue_elem_descriptor e) (a + offsetof_union_data)
       (a' + offsetof_union_data)) st (fun copied st' => Q (Some copied) st')) ->
  (active_entry es tag = None -> Exists (fun e => ue_tag e = tag) es -> Q (Some true) st) ->
  (~ Exists (fun e => ue_tag e = tag) es -> Q None st) ->
  wp (for_each es (fun entry =>
        tag ← mload 4 (a + 4);
        if negb (tag =? ue_tag entry) then mret None
        else if is_pod (ue_elem_type entry) then mret (Some true)
        else
          copied ← dispatch (ue_elem_type entry) (ue_elem_descriptor entry)
            (a + offsetof_union_data) (a' + offsetof_union_data);
          mret (Some (copied : bool)))) st Q.
Proof.
  intros Htag. induction es as [|e es IH]; intros Hsome Hpod Hnone; cbn [for_each].
  { wp_step. apply Hnone. intros H. inversion H. }
  rewrite active_entry_cons in *. wp_step. wp_step. eapply wp_mload; [exact Htag|].
  destruct (Z.eqb_spec tag (ue_tag e)) as [Heq|Hne]; cbn [negb].
  - rewrite decide_True in * by done. destruct (is_pod (ue_elem_type e)).
    + repeat wp_step. apply Hpod; [done|]. by left.
    + wp_step. eapply wp_mono; [by apply Hsome|]. intros c st' Hc. by repeat wp_step.
  - rewrite decide_False in * by done. wp_step. apply IH; [done| |].
    + intros Ha He. apply Hpod; [done|by right].
    + intros Hn. apply Hnone. intros He. inversion He; subst; [congruence|done].
Qed.
Lemma union_field_pre delta lo lo' s np st e d tag sz :
  copy_pre delta lo lo' [s] np st -> s_type s = MOJOM_TYPE_DESCRIPTOR_TYPE_UNION ->
  load32 m (s_addr s) = Ok sz -> sz <> 0 -> union_desc E (s_desc s) = Ok d ->
  load32 m (s_addr s + 4) = Ok tag -> active_entry (ud_entries d) tag = Some e ->
  copy_pre delta (s_addr s) (s_addr s + delta) [union_entry_slot (s_addr s) e] np st /\
  slot_end (union_entry_slot (s_addr s) e) <= slot_end s.
Proof.
  intros Hpre Hty Hsz Hsz0 Hd Htag He.
  destruct (copy_pre_slot _ _ _ _ _ _ Hpre) as (Hwf&Hslo&Hend&Hwf'&HB&Htop&Hal1&Ht).
  pose proof Hwf as (_&_&_&Hpos). pose proof Hwf' as (_&_&_&Hpos').
  cbn [shift_slot s_addr] in Hpos'.
  destruct (active_entry_slot_wf E HE Hnu _ d tag e (s_addr s) Hd He Hpos) as (Hwu & Hendu & _).
  destruct (active_entry_slot_wf E HE Hnu _ d tag e (s_addr s + delta) Hd He ltac:(lia)) as (Hwu' & Hendu' & _).
  rewrite union_entry_slot_shift in Hwu', Hendu'.
  assert (Hse : slot_end s = s_addr s + 16) by (unfold slot_end; by rewrite Hty).
  split; [|lia]. destruct Hpre as [Hi Hs Hlo Hnp Hds Hlo' Ha Hb Hts].
  split; try done; rewrite ?list_fmap_singleton.
  - apply slots_ok_single; [done| |lia]. cbn [union_entry_slot s_addr]. unfold offsetof_union_data. lia.
  - apply slots_ok_single; [done| |lia]. cbn [union_entry_slot shift_slot s_addr].
    unfold offsetof_union_data. lia.
  - apply Forall_singleton. intros _. cbn [union_entry_slot shift_slot s_addr].
    assert (Hm8 : (s_addr s + delta - B) mod 8 = 0) by (apply Hal1; simpl; by rewrite Hty).
    unfold offsetof_union_data. lia.
  - intros s' x Hs' Hx. apply list_elem_of_singleton in Hs' as ->. apply (Hb s); [by left|].
    unfold slot_bytes, range in *. cbn [union_entry_slot s_addr] in Hx.
    unfold offsetof_union_data in *. lia.
  - apply Forall_singleton. eapply tags_known_below; [exact Ht|]. by eapply below_union.
Qed.

(** The union is copied when its active field is. *)
Lemma union_slot_copied delta lo lo' s np st e d tag sz evs r st' :
  copy_pre delta lo lo' [s] np st -> s_type s = MOJOM_TYPE_DESCRIPTOR_TYPE_UNION ->
  load32 m (s_addr s) = Ok sz -> sz <> 0 -> s_nullable s = true \/ sz = sizeof_MojomUnionLayout ->
  union_desc E (s_desc s) = Ok d ->
  load32 m (s_addr s + 4) = Ok tag -> active_entry (ud_entries d) tag = Some e ->
  copied_to delta [union_entry_slot (s_addr s) e] evs st r st' -> copied_to delta [s] evs st r st'.
Proof.
  intros Hpre Hty Hsz Hsz0 Hn Hd Htag He (Hi' & Hu' & Hfr & Hres).
  destruct (union_field_pre _ _ _ _ _ _ _ _ _ _ Hpre Hty Hsz Hsz0 Hd Htag He) as [Hpre1 Hendu].
  assert (Hse : slot_end s = s_addr s + 16) by (unfold slot_end; by rewrite Hty).
  destruct (copy_pre_slot _ _ _ _ _ _ Hpre) as (_&_&_&_&_&Htop&_&_).
  set (u := union_entry_slot (s_addr s) e) in *.
  assert (Hua : s_addr u = s_addr s + 8) by done.
  rewrite list_fmap_singleton in Hfr.
  assert (Hsub : forall x, fp [shift_slot delta u] (top st) (top st') x ->
    fp [shift_slot delta s] (top st) (top st') x).
  { intros x. rewrite !fp_single. unfold slot_bytes, slot_end, range in *; simpl in *. 
    intros [Hx|Hx]; [left; lia|by right]. }
  split; [done|]. split; [done|]. rewrite list_fmap_singleton. split.
  { eapply agree_weaken; [exact Hfr|]. intros x Hx Hx'. by apply Hx, Hsub. }
  case_decide as Hfit; [|done]. destruct Hres as (-> & Hu'' & Hc). split; [done|]. split; [done|].
  intros mf npd Hnpd Hag. destruct (Hc mf npd) as (npd' & evs' & Hle & Hl & Hcop & Hb & Hcnt); [done| |].
  { rewrite list_fmap_singleton. eapply agree_weaken; [exact Hag|exact Hsub]. }
  assert (Hrest : forall x, slot_bytes s x -> ~ slot_bytes u x -> mf !! (x + delta) = m !! x).
  { intros x Hx Hxu. rewrite <- (cp_bytes _ _ _ _ _ _ Hpre s x) by (done || by left).
    rewrite <- Hag.
    - symmetry. apply Hfr. rewrite fp_single. unfold slot_bytes, slot_end, range in *; simpl in *. lia.
    - apply fp_single. left. unfold slot_bytes, slot_end, range in *; simpl in *. lia. }
  assert (Hhd : forall a, s_addr s <= a -> a + 4 <= s_addr s + 8 -> load32 mf (a + delta) = load32 m a).
  { intros a ??. apply load_ext. intros i Hx. simpl in Hx.
    replace (a + delta + i) with (a + i + delta) by lia.
    apply Hrest; unfold slot_bytes, range; lia. }
  rewrite list_fmap_singleton in Hl. inversion Hl as [|? ? ? npx ? ea eb Hlu Hnil]; subst.
  inversion Hnil; subst. rewrite app_nil_r in *.
  exists npd', ea. split; [done|]. rewrite list_fmap_singleton. split; [|split; [done|split]].
  - apply lays_single. eapply (lay_union_active _ _ _ _ _ _ _ _ d sz tag e); try done.
    + cbn [shift_slot s_addr]. rewrite Hhd; [done|lia..].
    + cbn [shift_slot s_addr]. replace (s_addr s + delta + 4) with (s_addr s + 4 + delta) by lia.
      rewrite Hhd; [done|lia..].
    + cbn [shift_slot s_addr]. rewrite union_entry_slot_shift. exact Hlu.
  - intros s' Hs' x Hx Hpf. apply list_elem_of_singleton in Hs' as ->.
    destruct (decide (s_addr u <= x < slot_end u)) as [Hxu|Hxu].
    + apply (Hb u); [by left|exact Hxu|done].
    + apply Hrest; [done|exact Hxu].
  - intros s' Hs'. apply list_elem_of_singleton in Hs' as ->. by rewrite Hty.
Qed.

Lemma tag_known_accepted d tag :
  tag_known d tag -> ~ Exists (fun e => ue_tag e = tag) (ud_entries d) ->
  (tag <? ud_num_fields d) || (tag =? UNION_TAG_UNKNOWN) = true.
Proof.
  intros [H|[H|H]] Hn; [done| |]; apply orb_true_iff.
  - left. by apply Z.ltb_lt.
  - right. by apply Z.eqb_eq.
Qed.

(** A union of [sz] bytes, not null, and its active field, if any. *)
Lemma union_copies k dispatch delta lo lo' s np np' evs st d sz tag :
  copies k dispatch -> copy_pre delta lo lo' [s] np st ->
  s_type s = MOJOM_TYPE_DESCRIPTOR_TYPE_UNION -> load32 m (s_addr s) = Ok sz ->
  (sz <> 0 -> union_desc E (s_desc s) = Ok d /\ load32 m (s_addr s + 4) = Ok tag /\
     match active_entry (ud_entries d) tag with
     | Some e => lay E Decoded m lim (union_entry_slot (s_addr s) e) np np' evs /\
                 (s_nullable s = true \/ sz = sizeof_MojomUnionLayout)
     | None => evs = []
     end) ->
  (sz = 0 -> evs = [] /\ s_nullable s = true) ->
  Z.max 0 (lim - np) + 1 <= Z.of_nat k ->
  wp (MojomUnion_DeepCopy E dispatch (s_desc s) (s_addr s) (s_addr s + delta)) st
    (copied_to delta [s] evs st).
Proof.
  intros Hd Hpre Hty Hsz Hnz Hz Hk.
  destruct (copy_pre_slot _ _ _ _ _ _ Hpre) as (_&Hslo&Hend&_&HB&Htop&_&Htags).
  pose proof (cp_inv _ _ _ _ _ _ Hpre) as Hi. pose proof Hi as (Hag&Hmap&(_&_&Hu&_)&_&HN).
  pose proof (cp_np _ _ _ _ _ _ Hpre) as Hnp.
  assert (Hse : slot_end s = s_addr s + 16) by (unfold slot_end; by rewrite Hty).
  assert (Hld : forall a, s_addr s <= a -> a + 4 <= s_addr s + 16 -> load32 st.1 a = load32 m a).
  { intros a ??. apply (copy_inv_load _ _ _ Hi); simpl; lia. }
  unfold MojomUnion_DeepCopy, sizeof_MojomUnionLayout in *. wp_step. eapply wp_mmemcpy.
  { apply memcpy_same; [lia| | |lia|].
    - eapply mapped_agree; [eapply agree_weaken; [exact Hag|]|].
      + unfold range. intros x Hx. assert (s_addr s <= x < s_addr s + 16) by exact Hx. lia.
      + eapply mapped_weaken; [exact Hsrcm|lia..].
    - eapply mapped_weaken; [exact Hmap|lia..].
    - intros i Hx. rewrite <- (Hag (s_addr s + i)) by (unfold range; lia).
      replace (s_addr s + delta + i) with (s_addr s + i + delta) by lia.
      apply (cp_bytes _ _ _ _ _ _ Hpre s); [by left|]. unfold slot_bytes, range. lia. }
  wp_step. eapply wp_mload; [cbn [fst]; rewrite Hld; [exact Hsz|lia..]|].
  replace (st.1, st.2) with st by (by destruct st).
  destruct (Z.eqb_spec sz 0) as [Hsz0|Hsz0].
  { destruct (Hz Hsz0) as [-> Hn]. wp_step. apply (slot_unchanged _ lo lo' s np [] []); try done; [by rewrite Hty|].
    intros mf npd Hb. split; [|constructor]. apply lay_union_null; [done|done|].
    cbn [shift_slot s_addr]. rewrite (slot_load mf delta s 4) by (done || lia). by subst sz. }
  destruct (Hnz Hsz0) as (Hp & Htag & Hact). clear Hz Hnz.
  assert (Hinactive : active_entry (ud_entries d) tag = None -> copied_to delta [s] evs st true st).
  { intros Hnone. rewrite Hnone in Hact. subst evs.
    apply (slot_unchanged _ lo lo' s np [] []); try done; [by rewrite Hty|].
    intros mf npd Hb. split; [|constructor]. eapply (lay_union_inactive _ _ _ _ _ _ d sz tag); try done;
      cbn [shift_slot s_addr].
    - rewrite (slot_load mf delta s 4) by (done || lia). done.
    - replace (s_addr s + delta + 4) with (s_addr s + 4 + delta) by lia.
      rewrite (slot_load mf delta s 4) by (done || simpl; lia). done. }
  wp_step. eapply wp_lift; [exact Hp|]. wp_step.
  apply (copy_active dispatch _ _ tag); [rewrite Hld; [done|lia..]|..].
  - intros e He. rewrite He in Hact. destruct Hact as [Hl Hn].
    destruct (union_field_pre _ _ _ _ _ _ _ _ _ _ Hpre Hty Hsz Hsz0 Hp Htag He) as [Hpre1 Hendu].
    pose proof (cp_src _ _ _ _ _ _ Hpre1) as Hsrc1.
    replace (s_addr s + delta + offsetof_union_data)
      with (s_addr (union_entry_slot (s_addr s) e) + delta) by (cbn [union_entry_slot s_addr]; lia).
    eapply wp_mono; [eapply (Hd _ _ _ _ delta _ _ st Hl Hpre1)|].
    + unfold fuel_for. cbn [union_entry_slot s_type]. unfold is_union.
      destruct (active_entry_slot_wf E HE Hnu _ d tag e (s_addr s) Hp He) as (_ & _ & Hnu'); [|].
      { destruct (copy_pre_slot _ _ _ _ _ _ Hpre) as ((_&_&_&?)&_). done. }
      by rewrite bool_decide_eq_false_2.
    + intros c st' Hc. wp_step. by eapply union_slot_copied.
  - intros Hnone _. wp_step. by apply Hinactive.
  - intros Hno. wp_step. eapply wp_mload; [rewrite Hld; [exact Htag|lia..]|]. wp_step.
    rewrite tag_known_accepted; [|by eapply (Htags s); [constructor|..]|done].
    apply Hinactive. destruct (active_entry (ud_entries d) tag) as [e|] eqn:He; [|done].
    exfalso. apply Hno. apply Exists_exists. exists e. apply active_entry_in in He. tauto.
Qed.
Lemma struct_ptr_layout s v d nb ver :
  slot_wf E s -> is_struct_ptr (s_type s) = true -> struct_desc E (s_desc s) = Ok d ->
  load32 m (v + 4) = Ok ver -> 8 <= nb -> nb mod 8 = 0 -> size_ok d ver nb ->
  (s_type s = MOJOM_TYPE_DESCRIPTOR_TYPE_MAP_PTR ->
   exists n, map_count Decoded m (v + 8) = Ok n /\ map_count Decoded m (v + 16) = Ok n) ->
  ptr_layout s v nb (struct_slots (sd_entries d) ver v).
Proof.
  intros (_&_&Hdm&_) Hty Hd Hver Hmin Hmod Hsz Hmap mf out t npd npd' evs' delta -> Hv Ht0 Hp Ht Hnb Hw Hl Hcnt.
  rewrite <- struct_slots_shift in Hl. replace (v + (t - v)) with t in Hl by lia.
  eapply (lay_struct _ _ _ _ (shift_slot delta s) npd npd' evs' t t d nb ver); try done; [by rewrite Hw|].
  cbn [shift_slot s_type]. intros Htm. destruct (Hmap Htm) as (n & Hk1 & Hk2). exists n.
  rewrite Htm in Hdm. simpl in Hdm. rewrite Hd in Hdm. unfold is_map_desc in Hdm.
  apply andb_true_iff in Hdm as [Hm1 Hm2]. pose proof (load_range _ _ _ _ Hver).
  destruct (map_slots d ver v 0 Hm1 ltac:(lia)) as (s1 & Hs1 & Ht1 & Ha1).
  destruct (map_slots d ver v 8 Hm2 ltac:(lia)) as (s2 & Hs2 & Ht2 & Ha2).
  specialize (Hcnt s1 Hs1 Ht1) as Hc1. specialize (Hcnt s2 Hs2 Ht2) as Hc2.
  rewrite Ha1 in Hc1. rewrite Ha2 in Hc2.
  replace (v + 8 + 0 + (t - v)) with (t + 8) in Hc1 by lia.
  replace (v + 8 + 8 + (t - v)) with (t + 16) in Hc2 by lia.
  replace (v + 8 + 0) with (v + 8) in Hc1 by lia. replace (v + 8 + 8) with (v + 16) in Hc2 by lia.
  by rewrite Hc1, Hc2.
Qed.

Lemma array_ptr_layout s v d nb n :
  s_type s = MOJOM_TYPE_DESCRIPTOR_TYPE_ARRAY_PTR -> array_desc E (s_desc s) = Ok d ->
  load32 m (v + 4) = Ok n -> array_header_ok d nb n -> ptr_layout s v nb (array_slots d v n).
Proof.
  intros Hty Hd Hn Hh mf out t npd npd' evs' delta -> Hv Ht0 Hp Ht Hnb Hw Hl _.
  rewrite <- array_slots_shift in Hl. replace (v + (t - v)) with t in Hl by lia.
  eapply (lay_array _ _ _ _ (shift_slot delta s) npd npd' evs' t t d nb n); try done. by rewrite Hw.
Qed.

Lemma struct_slot_copies k delta lo lo' s np st v d nb ver np' evs dispatch :
  copies k dispatch -> copy_pre delta lo lo' [s] np st -> is_struct_ptr (s_type s) = true ->
  load64 m (s_addr s) = Ok v -> v <> 0 -> s_addr s < v -> np <= v -> struct_desc E (s_desc s) = Ok d ->
  load32 m v = Ok nb -> load32 m (v + 4) = Ok ver -> 8 <= nb -> v + nb <= lim -> nb mod 8 = 0 ->
  size_ok d ver nb -> lays E Decoded m lim (struct_slots (sd_entries d) ver v) (v + nb) np' evs ->
  (s_type s = MOJOM_TYPE_DESCRIPTOR_TYPE_MAP_PTR ->
   exists n, map_count Decoded m (v + 8) = Ok n /\ map_count Decoded m (v + 16) = Ok n) ->
  lim - np <= Z.of_nat k ->
  wp (MojomStruct_DeepCopy E dispatch (s_desc s) v (s_addr s + delta)) st
    (copied_to delta [s] (EPtr (s_addr s) :: evs) st).
Proof.
  intros Hdc Hpre Hty Hv Hv0 Hlt Hnpv Hd Hnb Hver Hmin Hlimt Hmod Hsz Hl Hmap Hk.
  pose proof (struct_ptr_object _ Hty) as Hobj.
  destruct (copy_pre_slot _ _ _ _ _ _ Hpre) as (Hwf&Hslo&Hend&(_&_&_&Hpos')&HB&Htop&_&Htags).
  cbn [shift_slot s_addr] in Hpos'. pose proof Hwf as (_&_&_&Hpos).
  eapply wp_mono; [apply (struct_copies k _ _ d v (s_addr s + delta) nb ver np' evs); try done; try lia|].
  - apply Forall_forall. intros s1 Hs1. eapply tags_known_below; [exact Htags|].
    by eapply (below_struct E m s v d ver).
  - by eapply cp_inv.
  - by eapply copy_pre_out.
  - intros r st' Hto. eapply (object_slot_copied delta lo lo' s np st v nb); try done.
    + intros t ?. rewrite <- struct_slots_shift. replace (v + (t - v)) with t by lia.
      apply struct_slots_ok; try done. by eapply struct_desc_wf.
    + by eapply struct_ptr_layout.
Qed.

Lemma array_slot_copies k fuel delta lo lo' s np st v d nb n np' evs dispatch :
  copies k dispatch -> copy_pre delta lo lo' [s] np st -> s_type s = MOJOM_TYPE_DESCRIPTOR_TYPE_ARRAY_PTR ->
  load64 m (s_addr s) = Ok v -> v <> 0 -> s_addr s < v -> np <= v -> array_desc E (s_desc s) = Ok d ->
  load32 m v = Ok nb -> load32 m (v + 4) = Ok n -> v + nb <= lim -> array_header_ok d nb n ->
  lays E Decoded m lim (array_slots d v n) (v + nb) np' evs ->
  lim - np <= Z.of_nat k -> nb - 8 < Z.of_nat fuel ->
  wp (MojomArray_DeepCopy E fuel dispatch (s_desc s) v (s_addr s + delta)) st
    (copied_to delta [s] (EPtr (s_addr s) :: evs) st).
Proof.
  intros Hdc Hpre Hty Hv Hv0 Hlt Hnpv Hd Hnb Hn Hlimt Hh Hl Hk Hfuel.
  assert (Hobj : is_object_ptr (s_type s) = true) by (by rewrite Hty).
  destruct (copy_pre_slot _ _ _ _ _ _ Hpre) as (Hwf&Hslo&Hend&(_&_&_&Hpos')&HB&Htop&_&Htags).
  cbn [shift_slot s_addr] in Hpos'. pose proof Hwf as (_&_&_&Hpos). pose proof Hh as (Hmin&_&_).
  unfold sizeof_MojomArrayHeader in Hmin. pose proof (load_range _ _ _ _ Hn).
  eapply wp_mono; [apply (array_copies k _ fuel _ d v (s_addr s + delta) nb n np' evs); try done; try lia|].
  - apply Forall_forall. intros s1 Hs1. eapply tags_known_below; [exact Htags|].
    by eapply (below_array E m s v d n).
  - by eapply cp_inv.
  - by eapply copy_pre_out.
  - intros r st' Hto. eapply (object_slot_copied delta lo lo' s np st v nb); try done.
    + intros t ?. rewrite <- array_slots_shift. replace (v + (t - v)) with t by lia.
      apply (array_slots_ok E d nb n); try done; [by eapply array_desc_wf|lia].
    + by eapply array_ptr_layout.
Qed.

Lemma handle_slot_copied delta lo lo' s np st :
  copy_pre delta lo lo' [s] np st ->
  s_type s = MOJOM_TYPE_DESCRIPTOR_TYPE_HANDLE \/ s_type s = MOJOM_TYPE_DESCRIPTOR_TYPE_INTERFACE ->
  copied_to delta [s] [EHandle (s_addr s) (s_nullable s)] st true st.
Proof.
  intros Hpre Hty.
  eapply (slot_unchanged _ _ _ _ _ _ [EHandle (s_addr s + delta) (s_nullable s)]); try done.
  { by destruct Hty as [-> | ->]. }
  intros mf npd Hb. split; [by apply (lay_handle _ _ _ _ (shift_slot delta s))|].
  repeat constructor. apply (slot_load mf delta s 4); [done|lia|].
  unfold slot_end. destruct Hty as [-> | ->]; simpl;
    unfold sizeof_MojoHandle, sizeof_MojomInterfaceData; lia.
Qed.

Lemma dispatch_copies k : copies k (MojomType_DispatchDeepCopy E k).
Proof.
  induction k as [|k IH]; intros s np np' evs delta lo lo' st Hl Hpre Hf.
  { unfold fuel_for in Hf. destruct (is_union _); lia. }
  unfold fuel_for in Hf.
  destruct (copy_pre_slot _ _ _ _ _ _ Hpre) as (Hwf&Hslo&Hend&_).
  pose proof Hwf as (_&_&_&Hpos).
  pose proof (cp_inv _ _ _ _ _ _ Hpre) as Hi. pose proof (cp_np _ _ _ _ _ _ Hpre) as Hnp.
  assert (Hk : lim - np <= Z.of_nat k) by (destruct (is_union _); lia).
  cbn [MojomType_DispatchDeepCopy]. wp_step. apply wp_assert; [by apply non_null_pos|].
  destruct Hl as [s np Hty Hn Hv | s np np' evs v t d nb ver Hty Hv Hv0 Ht Hp Hd Hnb Hver Hmin Hlimt Hmod Hsz Hl Hmap
    | s np np' evs v t d nb n Hty Hv Hv0 Ht Hp Hd Hnb Hn Hlimt Hh Hl
    | s np Hty Hn Hsz | s np d sz tag Hty Hsz Hsz0 Hd Htag Hact
    | s np np' evs d sz tag e Hty Hsz Hsz0 Hn Hd Htag Hact Hl | s np Hty].
  - pose proof (object_ptr_size s Hty). pose proof (null_slot_copied _ _ _ _ _ _ Hpre Hty Hn Hv) as Hnull.
    destruct (s_type s); try done; (wp_step; eapply wp_mload;
      [rewrite (copy_inv_load _ _ _ Hi); [exact Hv|lia|simpl; lia]|exact Hnull]).
  - pose proof (object_ptr_size s (struct_ptr_object _ Hty)).
    pose proof Hp as (?&?&_&_). cbn [target] in Ht. subst t. unfold sizeof_MojomStructHeader in Hmin.
    assert (Hs : wp (MojomStruct_DeepCopy E (MojomType_DispatchDeepCopy E k) (s_desc s) v
      (s_addr s + delta)) st (copied_to delta [s] (EPtr (s_addr s) :: evs) st))
      by (by eapply struct_slot_copies).
    destruct (s_type s); try done; (wp_step; eapply wp_mload;
      [rewrite (copy_inv_load _ _ _ Hi); [exact Hv|lia|simpl; lia]|];
      unfold NULL; rewrite (proj2 (Z.eqb_neq v 0)) by done; exact Hs).
  - assert (slot_end s = s_addr s + 8) by (apply object_ptr_size; by rewrite Hty).
    pose proof Hp as (?&?&_&_). cbn [target] in Ht. subst t.
    pose proof Hh as (Hmin&_&_). unfold sizeof_MojomArrayHeader in Hmin.
    rewrite Hty. wp_step. eapply wp_mload.
    { rewrite (copy_inv_load _ _ _ Hi); [exact Hv|lia|simpl; lia]. }
    unfold NULL. rewrite (proj2 (Z.eqb_neq v 0)) by done.
    eapply array_slot_copies; try done. lia.
  - rewrite Hty in Hf |- *. change (is_union _) with true in Hf.
    eapply (union_copies k _ _ _ _ _ np np _ _
      {| ud_num_fields := 0; ud_entries := [] |} 0 0); try done. lia.
  - rewrite Hty in Hf |- *. change (is_union _) with true in Hf.
    eapply (union_copies k _ _ _ _ _ np np _ _ d sz tag); try done; try lia.
    intros _. by rewrite Hact.
  - rewrite Hty in Hf |- *. change (is_union _) with true in Hf.
    eapply (union_copies k _ _ _ _ _ np np' _ _ d sz tag); try done; try lia.
    intros _. by rewrite Hact.
  - pose proof (handle_slot_copied _ _ _ _ _ _ Hpre Hty). by destruct Hty as [-> | ->]; wp_step.
Qed.
End Run.
