(* ===== verification/CopySpec.v ===== *)
(** What deep copies promise: the copy is the graph, it takes the space its
    objects need, a buffer too small is reported, and the copy can be encoded
    and sent. *)
From stdpp Require Import base numbers list option gmap.
From coqutil Require Import Byte.
From Stdlib Require Import ZArith Lia.
From S2P Require Import Prelude CMem Buffer Descriptor Validate Layout LayoutFacts ValidateFacts ValidateSpec.
From S2P Require Import Codec CodecFacts CodecRuns Relocate CodecSpec DeepCopy Size CopyFacts.

(** * The limit of a graph *)

Section Limit.
Context (E : denv) (HE : env_wf E = true) (Hnu : no_union_ptr E = true).

(** A graph that ends at [np'] is a graph of a buffer that ends there. *)
Lemma lay_limit f m lim lim2 :
  (forall s np np' evs, lay E f m lim s np np' evs -> slot_wf E s -> slot_end s <= np ->
     np' <= lim2 -> lay E f m lim2 s np np' evs) /\
  (forall l np np' evs, lays E f m lim l np np' evs -> forall lo, slots_ok E lo np l ->
     np' <= lim2 -> lays E f m lim2 l np np' evs).
Proof.
  apply lay_lays_ind.
  - intros s np Hty Hn Hv _ _ _. by apply lay_null.
  - intros s np np' evs v t d nb ver Hty Hv Hv0 Ht Hp Hd Hnb Hver Hmin Hlim Hmod Hsz Hl IH Hmap (_&_&_&Hpos) _ Hle.
    pose proof Hp as (?&?&?&?). unfold sizeof_MojomStructHeader in *.
    pose proof (struct_slots_ok E d ver t nb (struct_desc_wf E _ d HE Hd) Hsz ltac:(lia)) as Hok.
    pose proof (proj2 (lay_bounds E HE Hnu f m lim) _ _ _ _ Hl _ Hok) as (?&_).
    eapply (lay_struct _ _ _ _ s np np' evs v t d nb ver); try done; [|lia|by eapply IH].
    split; [done|]. split; [done|]. split; [lia|done].
  - intros s np np' evs v t d nb n Hty Hv Hv0 Ht Hp Hd Hnb Hn Hlim Hh Hl IH (_&_&_&Hpos) _ Hle.
    pose proof Hp as (?&?&?&?). pose proof (load_range _ _ _ _ Hn).
    pose proof Hh as (Hmin&_). unfold sizeof_MojomArrayHeader in *.
    pose proof (array_slots_ok E d nb n t (array_desc_wf E _ d HE Hd) Hh ltac:(lia) ltac:(lia)) as Hok.
    pose proof (proj2 (lay_bounds E HE Hnu f m lim) _ _ _ _ Hl _ Hok) as (?&_).
    eapply (lay_array _ _ _ _ s np np' evs v t d nb n); try done; [|lia|by eapply IH].
    split; [done|]. split; [done|]. split; [lia|done].
  - intros s np Hty Hn Hsz _ _ _. by apply lay_union_null.
  - intros s np d sz tag Hty Hsz Hsz0 Hd Htag He _ _ _. by eapply lay_union_inactive.
  - intros s np np' evs d sz tag e Hty Hsz Hsz0 Hn Hd Htag He _ IH (_&_&_&Hpos) Hend Hle.
    destruct (active_entry_slot_wf E HE Hnu _ d tag e (s_addr s) Hd He Hpos) as (Hwf' & Hend' & _).
    assert (Hse : slot_end s = s_addr s + 16) by (unfold slot_end; by rewrite Hty).
    eapply lay_union_active; try done. apply IH; [done|lia|done].
  - intros s np Hty _ _ _. by apply lay_handle.
  - intros np lo _ _. constructor.
  - intros s l np np1 np2 evs1 evs2 Hs IHs Hl IHl lo Hok Hle.
    inversion Hok as [|? ? Hwf Hlo Hend Hdj Hok']; subst.
    pose proof (proj1 (lay_bounds E HE Hnu f m lim) _ _ _ _ Hs Hwf Hend) as (Hle1&_).
    pose proof (slots_ok_weaken E _ _ _ _ Hok' Hle1) as Hok1.
    pose proof (proj2 (lay_bounds E HE Hnu f m lim) _ _ _ _ Hl _ Hok1) as (Hle2&_).
    econstructor; [apply IHs; try done; lia|by eapply IHl].
Qed.
End Limit.

(** * The copy of a message *)

(** What [MojomStruct_DeepCopy] asks for, beside a graph to copy: tables with
    aligned pointers, unions of known tags, a well-formed buffer apart from the
    graph, and a pointer variable outside both. *)
Record copy_args (E : denv) (m : mem) (b : MojomBuffer) (p : descptr) (t size out : Z) : Prop := {
  ca_aligned : env_aligned E = true;
  ca_tags : forall d ver, struct_desc E p = Ok d -> load32 m (t + 4) = Ok ver ->
    Forall (tags_known E m) (struct_slots (sd_entries d) ver t);
  ca_buffer : buffer_wf b;
  ca_mapped : mapped m (buf b) (buf b + buf_size b);
  ca_apart : t + size <= buf b \/ buf b + buf_size b <= t;
  ca_out : 0 < out;
  ca_out_ok : out_ok t (t + size) (buf b) (buf_size b) out (m, b);
}.

(** The space a graph takes: that of the struct and of all the other objects. *)
Definition graph_space (m : mem) (t : Z) (evs : list event) : Z :=
  match load32 m t with
  | Ok num_bytes => round8 num_bytes + objects_space Decoded m evs
  | _ => 0
  end.

Section Spec.
Context {E : denv} {m : mem} {b : MojomBuffer} {p : descptr} {t size out np' : Z} {evs : list event}.
Context (G : built E m p t size np' evs) (A : copy_args E m b p t size out).

(** The struct copied, and the copy of its slots. *)
Lemma deep_copy_runs fuel :
  enough_fuel fuel size ->
  exists d nb ver, struct_desc E p = Ok d /\ load32 m t = Ok nb /\ load32 m (t + 4) = Ok ver /\
    8 <= nb /\ nb mod 8 = 0 /\ size_ok d ver nb /\ graph_space m t evs = nb + objects_space Decoded m evs /\
    wp (deep_copy_struct E fuel p t out) (m, b)
      (object_to E m t (t + size) (buf b) (buf_size b) t nb
        (struct_slots (sd_entries d) ver t) evs out (m, b)).
Proof.
  intros Hfuel. destruct G as [HE Hnu [Ha Ha2] Hs Hm Hg Hh], A as [Hal Htags Hb Hmb Hap Ho Hok].
  destruct (top_slots E HE p t (t + size) Ha _ _ _ _ Hg)
    as (d & nb & ver & Hd & Hnb & Hver & ? & ? & ? & Hsz & Hl & Hoks).
  exists d, nb, ver. repeat (split; [done|]). split.
  { unfold graph_space. rewrite Hnb, round8_id by done. done. }
  unfold enough_fuel in Hfuel.
  eapply (struct_copies E HE Hnu Hal m t (t + size) _ _ Hap Hm fuel); try done; try lia.
  - by apply dispatch_copies.
  - auto.
Qed.
(** What [DeepCopy] may write: the pointer variable and the unused part of the
    buffer, up to what is used afterwards. *)
Definition copy_frame (b' : MojomBuffer) (x : Z) : Prop :=
  ~ out <= x < out + 8 /\ ~ buf b + num_bytes_used b <= x < buf b + num_bytes_used b'.

Lemma copied_collected mf X es es' :
  Forall2 (copied m mf X) es es' -> collected mf es' = collected m es.
Proof.
  induction 1 as [|e e' es es' Hc _ IH]; [done|].
  destruct e as [a|a k], e' as [a'|a' k']; try done.
  cbn [collected]. destruct Hc as [-> ->]. by rewrite IH.
Qed.

Lemma copied_handles mf X es es' :
  Forall2 (copied m mf X) es es' -> handles_present m es -> handles_present mf es'.
Proof.
  intros H Hp a nullable Ha. apply list_elem_of_lookup in Ha as [i Hi].
  destruct (Forall2_lookup_r _ _ _ _ _ H Hi) as (e & He & Hc).
  destruct e as [|a0 n0]; [done|]. destruct Hc as [-> ->].
  apply (Hp a0 n0). by eapply list_elem_of_lookup_2.
Qed.

(** The copy, where [DeepCopy] puts it. *)
Lemma deep_copy_built fuel :
  enough_fuel fuel size -> num_bytes_used b + graph_space m t evs <= buf_size b ->
  exists m' b', deep_copy_struct E fuel p t out (m, b) = Ok (true, (m', b')) /\
    buffer_wf b' /\ buf b' = buf b /\ buf_size b' = buf_size b /\
    num_bytes_used b' = num_bytes_used b + graph_space m t evs /\
    agree (copy_frame b') m m' /\
    let t' := buf b + num_bytes_used b in
    load64 m' out = Ok t' /\
    exists np2 evs' nb, built E m' p t' (graph_space m t evs) np2 evs' /\
      Forall2 (copied m m' evs') evs evs' /\ load32 m t = Ok nb /\
      (forall i, 0 <= i < nb -> ptr_free evs' (t' + i) -> m' !! (t' + i) = m !! (t + i)).
Proof.
  intros Hfuel Hfit. destruct (deep_copy_runs fuel Hfuel)
    as (d & nb & ver & Hd & Hnb & Hver & Hmin & Hmod & Hsz & Hsp & Hrun).
  pose proof A as [Hal Htags Hb Hmb Hap Ho Hok]. pose proof Hb as (HB0 & Hhi & Hu0 & Hs32 & Hm8).
  apply wp_run in Hrun as (r & [m' b'] & Hrun & Hi & Hu & Hfr & Hres). cbn [fst snd] in *.
  rewrite (round8_id nb Hmod), <- Hsp, decide_True in Hres by done.
  destruct Hres as (-> & Hu' & Hout & Hc). pose proof Hi as (Hag & Hmap & Hwf & HB & HN).
  destruct (Hc m') as (npd' & evs' & Hle & Hl & Hcop & Hbytes & _); [done|].
  pose proof G as [HE Hnu [Ha Ha2] Hs Hm Hg Hh]. cbn [fst snd] in *.
  rewrite <- struct_slots_shift in Hl.
  replace (t + (buf b + num_bytes_used b - t)) with (buf b + num_bytes_used b) in Hl, Hbytes by lia.
  set (t' := buf b + num_bytes_used b) in *.
  pose proof (struct_slots_ok E d ver t' nb (struct_desc_wf E p d HE Hd) Hsz ltac:(lia)) as Hoks.
  pose proof (proj2 (lay_bounds E HE Hnu Decoded m' _) _ _ _ _ Hl _ Hoks) as (Hnp&_).
  pose proof (objects_size_nonneg Decoded m evs). pose proof (objects_size_space Decoded m evs).
  assert (Hhd : forall a, 0 <= a -> a + 4 <= 8 -> load32 m' (t' + a) = load32 m (t + a)).
  { intros a ??. by eapply (header_copied E HE Hnu m m' _ t t' nb). }
  exists m', b'. split; [done|]. repeat (split; [done|]).
  exists npd', evs', nb. split; [|done].
  split; try done; [lia|lia| | |by eapply copied_handles].
  - eapply mapped_weaken; [exact Hmap|lia|lia].
  - exists d, nb, ver. unfold sizeof_MojomStructHeader. split; [done|].
    split; [|split; [by rewrite Hhd by lia|]].
    { rewrite <- (Z.add_0_r t'), Hhd, Z.add_0_r by lia. done. }
    repeat (split; [done || lia|]).
    eapply (proj2 (lay_limit E HE Hnu Decoded m' (buf b + buf_size b) _)); [exact Hl|exact Hoks|lia].
Qed.
End Spec.

(** C7: [MojomStruct_DeepCopy] of a well-formed graph, given enough space, returns
    true and makes the pointer variable point to the copy: at the first unused
    byte of the buffer, a well-formed graph of the same type, object for object
    and byte for byte the source but for the pointers, with the same handles.
    Only the pointer variable and the space taken from the buffer are written:
    the source is intact. *)
Theorem DeepCopy_copies_graph E m b p t size out np' evs fuel
    (G : built E m p t size np' evs) (A : copy_args E m b p t size out)
    (Hfuel : enough_fuel fuel size)
    (Hfit : num_bytes_used b + graph_space m t evs <= buf_size b) :
  let t' := buf b + num_bytes_used b in
  exists m' b', deep_copy_struct E fuel p t out (m, b) = Ok (true, (m', b')) /\
    num_bytes_used b' = num_bytes_used b + graph_space m t evs /\
    agree (copy_frame (b := b) (out := out) b') m m' /\ load64 m' out = Ok t' /\
    exists np2 evs' nb, built E m' p t' (graph_space m t evs) np2 evs' /\
      Forall2 (copied m m' evs') evs evs' /\ collected m' evs' = collected m evs /\
      load32 m t = Ok nb /\
      (forall i, 0 <= i < nb -> ptr_free evs' (t' + i) -> m' !! (t' + i) = m !! (t + i)).
Proof.
  intros t'. destruct (deep_copy_built G A fuel Hfuel Hfit)
    as (m' & b' & Hrun & _ & _ & _ & Hu & Hfr & Hout & np2 & evs' & nb & Hb & Hc & Hnb & Hbytes).
  exists m', b'. repeat (split; [done|]). exists np2, evs', nb. split; [done|]. split; [done|].
  split; [by eapply copied_collected|done].
Qed.

(** Whatever the space, [MojomStruct_DeepCopy] of a well-formed graph returns,
    no assertion fails and no access is out of bounds; it returns true exactly
    when the buffer has room for the objects, each rounded up to 8 bytes, and
    even a failed copy leaves the buffer well-formed and writes nothing but the
    pointer variable and unused space. *)
Theorem DeepCopy_reports_space E m b p t size out np' evs fuel
    (G : built E m p t size np' evs) (A : copy_args E m b p t size out)
    (Hfuel : enough_fuel fuel size) :
  exists r m' b', deep_copy_struct E fuel p t out (m, b) = Ok (r, (m', b')) /\
    (r = true <-> num_bytes_used b + graph_space m t evs <= buf_size b) /\
    buffer_wf b' /\ buf b' = buf b /\ buf_size b' = buf_size b /\
    num_bytes_used b <= num_bytes_used b' /\ agree (copy_frame (b := b) (out := out) b') m m'.
Proof.
  destruct (deep_copy_runs G A fuel Hfuel)
    as (d & nb & ver & Hd & Hnb & Hver & Hmin & Hmod & Hsz & Hsp & Hrun).
  apply wp_run in Hrun as (r & [m' b'] & Hrun & (_ & _ & Hwf & HB & HN) & Hu & Hfr & Hres).
  cbn [fst snd] in *. rewrite (round8_id nb Hmod), <- Hsp in Hres.
  exists r, m', b'. split; [done|]. split; [|done].
  case_decide as Hfit; [by destruct Hres as [-> _]|]. subst r. done.
Qed.

(** Objects of whole 8-byte words, as the library's constructors make them. *)
Definition whole_words (m : mem) (evs : list event) : Prop :=
  forall a v nb, EPtr a ∈ evs -> load64 m a = Ok v -> v <> 0 -> load32 m v = Ok nb -> nb mod 8 = 0.

Lemma whole_words_space m evs :
  whole_words m evs -> objects_space Decoded m evs = objects_size Decoded m evs.
Proof.
  intros H. induction evs as [|[a|a n] evs IH]; [done| |]; cbn [objects_total].
  2: { apply IH. intros a' v' nb' Ha. apply H. by right. }
  rewrite IH by (intros a' v' nb' Ha; apply H; by right).
  destruct (load64 m a) as [v| | |] eqn:Hv; [|done..]. destruct (Z.eqb_spec v 0) as [|Hv0]; [done|].
  cbn [target]. destruct (load32 m v) as [nb| | |] eqn:Hnb; [|done..].
  rewrite round8_id; [done|]. apply (H a v nb); [by left|done..].
Qed.

(** A buffer with the space that [MojomStruct_ComputeSerializedSize] announces
    is big enough for [MojomStruct_DeepCopy], which then takes exactly that. *)
Theorem ComputeSerializedSize_suffices E m b p t size out np' evs fuel n
    (G : built E m p t size np' evs) (A : copy_args E m b p t size out)
    (Hfuel : enough_fuel fuel size) (Hwords : whole_words m evs)
    (Hn : compute_serialized_size E m fuel p t = Ok n)
    (Hroom : num_bytes_used b + n <= buf_size b) :
  exists m' b', deep_copy_struct E fuel p t out (m, b) = Ok (true, (m', b')) /\
    num_bytes_used b' = num_bytes_used b + n.
Proof.
  pose proof G as [HE Hnu [Ha Ha2] Hs Hm Hg Hh].
  destruct (deep_copy_runs G A fuel Hfuel) as (d & nb & ver & Hd & Hnb & Hver & Hmin & Hmod & Hsz & Hsp & _).
  assert (n = graph_space m t evs) as ->.
  { rewrite Hsp, whole_words_space by done.
    pose proof (top_slots E HE p t (t + size) Ha _ _ _ _ Hg)
      as (d' & nb' & ver' & Hd' & Hnb' & Hver' & ? & ? & _ & _ & Hl & Hok).
    assert (d' = d) as -> by congruence. assert (nb' = nb) as -> by congruence.
    assert (ver' = ver) as -> by congruence.
    assert (Hc : compute_serialized_size E m fuel p t = Ok (nb + objects_size Decoded m evs)); [|congruence].
    unfold enough_fuel in Hfuel.
    eapply (struct_size E HE Hnu m (t + size) ltac:(lia) _ fuel p t d); try done; [|lia].
    apply dispatch_sizes; try done. lia. }
  destruct (deep_copy_built G A fuel Hfuel Hroom) as (m' & b' & Hrun & _ & _ & _ & Hu & _).
  by exists m', b'.
Qed.

(** C8: the way a message is sent: a graph is copied into a message buffer, and
    the copy, of exactly the bytes taken, encoded in place. The handle buffer
    then holds the source's handles in order, and the receiver's
    [MojomStruct_Validate] accepts the bytes with that many handles. *)
Theorem DeepCopy_Encode_Validate E m b p t size out np' evs fuel hs num np0
    (G : built E m p t size np' evs) (A : copy_args E m b p t size out)
    (Hfuel : enough_fuel fuel size)
    (Hfit : num_bytes_used b + graph_space m t evs <= buf_size b)
    (Hfuel' : enough_fuel fuel (graph_space m t evs))
    (Hroom : Z.of_nat (length (collected m evs)) <= num)
    (Hlen : num <= Z.of_nat (length hs)) (Hnum : num < 2 ^ 32) :
  let n := Z.of_nat (length (collected m evs)) in
  let t' := buf b + num_bytes_used b in
  exists m' b' m1 c, deep_copy_struct E fuel p t out (m, b) = Ok (true, (m', b')) /\
    encode_struct E fuel p t' (graph_space m t evs) (m', Some (hbuf hs num 0)) =
      Ok (tt, (m1, Some (hbuf (list_inserts 0 (collected m evs) hs) num n))) /\
    validate_struct E m1 fuel p t' (graph_space m t evs) n
      {| next_handle_index := 0; next_pointer := np0 |} = Ok (MOJOM_VALIDATION_ERROR_NONE, c) /\
    next_handle_index c = n.
Proof.
  intros n t'. destruct (deep_copy_built G A fuel Hfuel Hfit)
    as (m' & b' & Hrun & _ & _ & _ & Hu & Hfr & Hout & np2 & evs' & nb & Hb & Hc & Hnb & Hbytes).
  pose proof (copied_collected (m := m) _ _ _ _ Hc) as Hcol.
  destruct (encode_built Hb fuel hs num Hfuel' ltac:(by rewrite Hcol) Hlen Hnum)
    as (m1 & Henc & Hev & Hag & Hm1 & Htop). rewrite Hcol in Henc.
  exists m', b', m1, {| next_handle_index := n; next_pointer := np2 |}.
  split; [done|]. split; [done|].
  destruct Hb as [HE Hnu Ha Hs Hm Hg Hh]. split.
  - apply (wire_validates _ _ _ _ _ _ _ evs'); [|done|done|].
    + split; try done; [|unfold n; lia]. destruct Htop as (d & _ & _ & Hd & _). eauto.
    + pose proof (encoded_handles_ok m' m1 n 0 evs') as Hok. rewrite Hcol in Hok.
      apply Hok; try done; unfold n; lia.
  - done.
Qed.
