(* ===== verification/UnionPtr.v ===== *)
(** Unions held by pointer in a union: where the guarantees of the other files
    stop. The theorems on validation and encoding assume that no union has a
    union field ([no_union_ptr]); the ones here say what happens when one has. *)
From stdpp Require Import base numbers list option gmap.
From coqutil Require Import Byte.
From Stdlib Require Import ZArith Lia.
From S2P Require Import Prelude CMem Buffer Descriptor Validate Samples Layout LayoutFacts.
From S2P Require Import ValidateFacts Codec CodecFacts CodecRuns.

(** Reading across the end of what is mapped. *)
Lemma load_past_end n m x lim : m !! lim = None -> x <= lim < x + Z.of_nat n -> load n m x = Fault.
Proof.
  intros Hlim Hx. unfold load. destruct (load_bytes m x n) as [bs|] eqn:Hl; [|done].
  destruct (load_bytes_Some_mapped _ _ _ _ Hl lim) as [b Hb]; [lia|]. congruence.
Qed.

(** Validating the union at [u]: nothing but its active field, if it is not plain data. *)
Lemma MojomUnion_Validate_active E m dispatch p d e nullable u size nh tag c
    (Hd : union_desc E p = Ok d) (Htag : load32 m (u + 4) = Ok tag)
    (Hact : active_entry (ud_entries d) tag = Some e)
    (Hsize : load32 m u = Ok sizeof_MojomUnionLayout) :
  MojomUnion_Validate E m dispatch p nullable u size nh c =
    dispatch (ue_elem_type e) (ue_elem_descriptor e) (ue_nullable e) (u + offsetof_union_data)
      (wrap32 (size - offsetof_union_data)) nh c.
Proof.
  unfold MojomUnion_Validate. erewrite run_bind by (unfold lift; by rewrite Hd).
  unfold lift, mbind, M_bind, mret, M_ret. rewrite Htag, Hsize. revert Hact. induction (ud_entries d) as [|e' es IH]; [done|].
  rewrite active_entry_cons. cbn [for_each]. unfold mbind, M_bind.
  case_decide as Ht; [subst tag; rewrite Z.eqb_refl|].
  2: { rewrite (proj2 (Z.eqb_neq _ _) Ht). exact IH. }
  destruct (is_pod (ue_elem_type e')); [done|]. intros [= ->]. rewrite Z.eqb_refl, andb_false_r. cbn [negb].
  by destruct (dispatch _ _ _ _ _ _ c) as [[r c']| | |].
Qed.

(** C39: validating a union held by pointer reads outside the message. For every message,
    every union [u] in it whose active field is a pointer to a union, and every offset of
    that pointer that leads to the end of the message, or to less than 4 bytes before it:
    [validate_pointer] accepts the pointer, and then the union's [size] is read without a
    bounds check, past the end, which is a fault when nothing is mapped there. *)
Theorem Validate_union_ptr_reads_past_end E m fuel p d e nullable u lim nh tag off c
    (Hd : union_desc E p = Ok d) (Hact : active_entry (ud_entries d) tag = Some e)
    (Htype : ue_elem_type e = MOJOM_TYPE_DESCRIPTOR_TYPE_UNION_PTR)
    (Hsize : load32 m u = Ok sizeof_MojomUnionLayout) (Htag : load32 m (u + 4) = Ok tag)
    (Hoff : load64 m (u + 8) = Ok off)
    (Hu : 0 < u) (Hlim : lim < 2 ^ 64) (Hwidth : lim - u < 2 ^ 32) (Hend : m !! lim = None)
    (Htarget : u + 8 + off <= lim < u + 8 + off + 4) (Hpos : 0 < off) (Hal : off mod 8 = 0)
    (Hforward : next_pointer c <= u + 8 + off) :
  (exists c', validate_pointer m (u + 8) (lim - (u + 8)) (ue_nullable e) c =
     Ok (MOJOM_VALIDATION_ERROR_NONE, c')) /\
  MojomType_DispatchValidate E m (S (S fuel)) MOJOM_TYPE_DESCRIPTOR_TYPE_UNION p nullable u (lim - u) nh c = Fault.
Proof.
  pose proof (validate_pointer_eq m (u + 8) off (lim - (u + 8)) (ue_nullable e) c Hoff
    ltac:(lia) ltac:(lia) ltac:(lia)) as Hp.
  assert (Hok : pointer_check (next_pointer c) (u + 8) off (lim - (u + 8)) (ue_nullable e) =
      MOJOM_VALIDATION_ERROR_NONE).
  { unfold pointer_check. rewrite (proj2 (Z.ltb_ge _ _)) by lia.
    rewrite (proj2 (Z.ltb_ge (u + 8 + off) _)) by lia. rewrite andb_false_r, Hal. cbn [negb Z.eqb].
    by rewrite (proj2 (Z.eqb_neq off 0)), andb_false_r by lia. }
  rewrite Hok in Hp. split; [by eexists|]. cbn [MojomType_DispatchValidate].
  erewrite run_bind by (unfold assert_, non_null, NULL; by rewrite (proj2 (Z.eqb_neq u 0)) by lia).
  unfold validate_union_case. erewrite run_bind by (unfold lift; by rewrite Hsize). cbn [sizeof_MojomUnionLayout Z.eqb].
  rewrite (MojomUnion_Validate_active E m _ p d e _ _ _ _ tag) by done. rewrite Htype. unfold offsetof_union_data.
  rewrite Z.sub_diag, Z.sub_0_r, (wrap32_small (lim - u)) by lia.
  replace (wrap32 (lim - u - 8)) with (lim - (u + 8)) by (rewrite wrap32_small by lia; lia).
  cbn [MojomType_DispatchValidate].
  erewrite run_bind by (unfold assert_, non_null, NULL; by rewrite (proj2 (Z.eqb_neq (u + 8) 0)) by lia).
  erewrite run_bind by exact Hp. erewrite run_bind by (unfold lift; by rewrite Hoff).
  rewrite (proj2 (Z.eqb_neq off 0)) by lia. cbn [is_none_result negb orb MOJOM_VALIDATION_ERROR_NONE Z.eqb].
  erewrite run_bind by reflexivity. unfold validate_union_case.
  unfold mbind at 1, M_bind at 1, lift at 1. rewrite wrap64_small by lia. by rewrite (load_past_end _ _ _ lim).
Qed.

(** A whole message: 24 bytes make the validator of the struct fault. *)
Lemma nested_truncated_faults :
  env_wf nested_env = true /\ mapped nested_truncated 4096 4120 /\
  validate_struct nested_env nested_truncated 26 (Some 0%nat) 4096 24 0 start_context = Fault.
Proof.
  split; [by vm_compute|]. split; [apply (mem_of_mapped 4096 [24; 0; 16; 1; 8; 0])|by vm_compute].
Qed.

(** Encoding a union held by pointer never reaches that union: the encoder
    passes on the slot of the pointer, already overwritten by an offset, as if
    the union were there. The slot's second word then reads as tag 0, so nothing
    else is encoded, whatever the union holds. *)
Theorem Encode_union_ptr_skips_target E fuel p d nullable a max v sz m hb
    (Hd : union_desc E p = Ok d) (Htag : active_entry (ud_entries d) 0 = None)
    (Hv : load64 m a = Ok v) (Hsz : load32 m v = Ok sz) (Ha : 0 < a) (Hav : a + 8 <= v)
    (Hmax : v < a + max) (Hmin : 16 <= max) (Hwidth : max < 2 ^ 32) (Hend : a + max <= 2 ^ 64) :
  exists m1, encode_pointer a max (m, hb) = Ok (tt, (m1, hb)) /\
    load64 m1 a = Ok (v - a) /\ agree (fun x => x < a \/ a + 8 <= x) m m1 /\
    MojomType_DispatchEncodePointersAndHandles E (S fuel) MOJOM_TYPE_DESCRIPTOR_TYPE_UNION_PTR p
      nullable a max (m, hb) = Ok (tt, (m1, hb)).
Proof.
  destruct (encode_pointer_run (a + max) Hend m hb a v Ha Hv) as (m1 & He & Hl); [lia|].
  replace (a + max - a) with max in He by lia. rewrite (proj2 (Z.eqb_neq v 0)) in Hl by lia.
  assert (Hag : agree (fun x => x < a \/ a + 8 <= x) m m1).
  { eapply agree_weaken; [by apply (encode_step_local (a + max) (EPtr a) (m, hb) (m1, hb)); simpl;
      replace (a + max - a) with max by lia|].
    intros x Hx. unfold event_bytes, range; simpl. lia. }
  exists m1. repeat (split; [done|]). apply wp_unit.
  cbn [MojomType_DispatchEncodePointersAndHandles].
  wp_step. apply wp_assert; [by apply non_null_pos|]. wp_step. eapply wp_mload; [exact Hv|].
  wp_step. apply wp_run. exists tt, (m1, hb). split; [done|]. unfold encode_union_case.
  wp_step. apply (wp_mono _ _ (fun _ s => s = (m1, hb))).
  { destruct nullable; cbn [negb]; [|by wp_step]. unfold NULL. rewrite (proj2 (Z.eqb_neq v 0)) by lia.
    wp_step. eapply wp_mload; [|by wp_step]. rewrite <- Hsz. symmetry. apply load_agree.
    eapply agree_weaken; [exact Hag|]. unfold range. simpl. lia. }
  intros [] s ->; [|by wp_step]. unfold MojomUnion_EncodePointersAndHandles.
  wp_step. apply wp_assert; [unfold sizeof_MojomUnionLayout; apply Z.geb_le; lia|].
  wp_step. eapply wp_lift; [exact Hd|]. wp_step.
  eapply wp_mono; [|intros r s Hs; wp_step; exact Hs].
  pose proof (walk_active (a + max) (MojomType_DispatchEncodePointersAndHandles E fuel) a 0
    (ud_entries d) (m1, hb) (m1, hb)) as Hw.
  replace (a + max - a) with max in Hw by lia.
  apply Hw; [|lia|by rewrite Htag|done]. apply (load64_high _ _ _ Hl). lia.
Qed.

(** So a graph with a nested union does not survive the trip: the pointer in
    the nested union is still an address after encoding, and the validator
    rejects what the encoder produced. *)
Theorem Encode_union_ptr_rejected :
  exists m1 c, 
    encode_struct nested_env 58 (Some 0%nat) 4096 56 (nested_built, Some (hbuf [] 0 0)) =
      Ok (tt, (m1, Some (hbuf [] 0 0))) /\
    load64 nested_built 4128 = Ok 4136 /\ load64 m1 4128 = Ok 4136 /\
    validate_struct nested_env m1 58 (Some 0%nat) 4096 56 0 start_context =
      Ok (MOJOM_VALIDATION_ILLEGAL_POINTER, c).
Proof.
  destruct (outcome_returns
    (encode_struct nested_env 58 (Some 0%nat) 4096 56 (nested_built, Some (hbuf [] 0 0)))
    (fun '(_, (m1, hb)) => bool_decide (hb = Some (hbuf [] 0 0)) &&
       bool_decide (load64 m1 4128 = Ok 4136) &&
       match validate_struct nested_env m1 58 (Some 0%nat) 4096 56 0 start_context with
       | Ok rc => rc.1 =? MOJOM_VALIDATION_ILLEGAL_POINTER
       | _ => false
       end)) as ([[] [m1 hb]] & He & Hp); [by vm_compute|].
  apply andb_true_iff in Hp as [Hp Hr]. apply andb_true_iff in Hp as [Hhb Hl].
  apply bool_decide_eq_true in Hhb, Hl. subst hb.
  apply (outcome_returns _ (fun rc => rc.1 =? _)) in Hr as ([r c] & Hr & Hc).
  apply Z.eqb_eq in Hc. cbn [fst] in Hc. subst r.
  exists m1, c. split; [exact He|]. split; [by vm_compute|]. split; [exact Hl|exact Hr].
Qed.

(** Nor is the nested union decoded: a message that validates and whose
    decoding succeeds is left with an offset where the receiver expects a
    pointer. *)
Theorem Decode_union_ptr_left_encoded :
  exists m1 c,
    validate_struct nested_env nested_wire 58 (Some 0%nat) 4096 56 0 start_context =
      Ok (MOJOM_VALIDATION_ERROR_NONE, c) /\
    decode_struct nested_env 58 (Some 0%nat) 4096 56 0 (nested_wire, Some []) = Ok (tt, (m1, Some [])) /\
    load64 nested_wire 4128 = Ok 8 /\ load64 m1 4128 = Ok 8.
Proof.
  destruct (outcome_returns
    (decode_struct nested_env 58 (Some 0%nat) 4096 56 0 (nested_wire, Some []))
    (fun '(_, (m1, hs)) => bool_decide (hs = Some []) && bool_decide (load64 m1 4128 = Ok 8)))
    as ([[] [m1 hs]] & He & Hp); [by vm_compute|].
  apply andb_true_iff in Hp as [Hhs Hl]. apply bool_decide_eq_true in Hhs, Hl. subst hs.
  exists m1. eexists. split; [vm_compute; reflexivity|]. split; [exact He|].
  split; [by vm_compute|exact Hl].
Qed.

Lemma Encode_union_ptr_skips_target_witness :
  exists m1,
    MojomType_DispatchEncodePointersAndHandles nested_env 1 UNION_PTR (Some 1%nat) true 4112 40
      (nested_built, None) = Ok (tt, (m1, None)) /\ load64 m1 4112 = Ok 8.
Proof.
  destruct (Encode_union_ptr_skips_target nested_env 0 (Some 1%nat) nested_union true 4112 40 4120 16
    nested_built None) as (m1 & _ & Hl & _ & H); [by vm_compute..|lia|lia|lia|lia|lia|lia|].
  exists m1. split; [exact H|exact Hl].
Defined.

(** The union at 4104 of the 24-byte message, of which the pointer at 4112 leads to 4120. *)
Lemma Validate_union_ptr_reads_past_end_witness :
  load64 nested_truncated 4112 = Ok 8 /\
  MojomType_DispatchValidate nested_env nested_truncated 2 MOJOM_TYPE_DESCRIPTOR_TYPE_UNION (Some 1%nat) false
    4104 16 0 {| next_handle_index := 0; next_pointer := 4120 |} = Fault.
Proof.
  split; [by vm_compute|].
  apply (Validate_union_ptr_reads_past_end nested_env nested_truncated 0 (Some 1%nat) nested_union
    {| ue_elem_type := UNION_PTR; ue_elem_descriptor := Some 1%nat; ue_tag := 1; ue_nullable := true |}
    false 4104 4120 0 1 8); (by vm_compute) || (cbn [next_pointer]; lia).
Defined.
