(* ===== verification/Examples.v ===== *)
(** The theorems at work on concrete messages: each is applied to the sample
    types and memories of Samples.v, where its hypotheses are evaluated. *)
From stdpp Require Import base numbers list list_numbers option gmap.
From coqutil Require Import Byte.
From Stdlib Require Import ZArith Lia Sorted.
From S2P Require Import Prelude CMem Buffer Descriptor Validate Samples Layout LayoutFacts.
From S2P Require Import ValidateFacts ValidateSpec Codec CodecFacts CodecRuns Relocate CodecSpec.

(** * The buffer *)

Definition sample_buffer : MojomBuffer := {| buf := 4096; buf_size := 96; num_bytes_used := 16 |}.

Lemma sample_buffer_wf : buffer_wf sample_buffer.
Proof. unfold buffer_wf, sample_buffer; simpl. lia. Qed.

Lemma sample_mem_mapped : mapped sample_mem 4096 4192.
Proof. apply (mem_of_mapped 4096 sample_words). Qed.

Lemma MojomBuffer_Allocate_witness :
  exists p b', MojomBuffer_Allocate 20 sample_buffer = Ok (p, b') /\ buffer_wf b' /\ p = 4112.
Proof.
  destruct (MojomBuffer_Allocate_spec sample_buffer 20 sample_buffer_wf ltac:(lia))
    as (p & b' & H & Hb & _).
  exists p, b'. split; [exact H|]. split; [exact Hb|]. vm_compute in H. congruence.
Defined.

Lemma allocations_disjoint_witness :
  exists bs b', allocate_all [20; 100; 8] sample_buffer = Ok (bs, b') /\ StronglySorted block_before bs /\
    bs = [(4112, 20); (4136, 8)].
Proof.
  destruct (allocations_disjoint [20; 100; 8] sample_buffer sample_buffer_wf)
    as (bs & b' & H & _ & Hs & _); [repeat constructor; lia|].
  exists bs, b'. split; [exact H|]. split; [exact Hs|]. vm_compute in H. congruence.
Defined.

Lemma MojomArray_New_witness :
  exists m' b', MojomArray_New 3 4 (sample_mem, sample_buffer) = Ok (4112, (m', b')) /\
    load32 m' 4112 = Ok 24 /\ load32 m' 4116 = Ok 3.
Proof.
  destruct (MojomArray_New_spec sample_mem sample_buffer 3 4 sample_buffer_wf sample_mem_mapped
    eq_refl eq_refl) as (p & m' & b' & H & _ & Hnull & _ & Hok).
  destruct Hok as (_ & -> & H1 & H2 & _).
  { intros Hp. apply Hnull in Hp as [Hp|Hp]; [by vm_compute in Hp|done]. }
  exists m', b'. split; [exact H|]. split; [exact H1|exact H2].
Defined.

(** * Validation *)

(** The layout of the sample message, spelled out. *)
Definition sample_events : list event :=
  [EPtr 4104; EPtr 4144; EPtr 4152; EHandle 4168 true; EHandle 4112 false; EPtr 4128; EHandle 4184 true].

Ltac side := lazymatch goal with
  | |- lays _ _ _ _ _ _ _ _ => idtac
  | |- lay _ _ _ _ _ _ _ _ => idtac
  | |- _ = MOJOM_TYPE_DESCRIPTOR_TYPE_MAP_PTR -> _ => done
  | |- load _ _ _ = _ => vm_compute; reflexivity
  | |- _ => vm_compute; intuition congruence
  end.

Definition leaf_slot (a : Z) : slot := entry_slot a (entry HANDLE None 0 true).

(** A [Leaf] referred to from [a]. *)
Lemma sample_leaf a np v t :
  load64 sample_mem a = Ok v -> v <> 0 -> t = a + v -> pointer_ok 4192 np a t ->
  load32 sample_mem t = Ok 16 -> load32 sample_mem (t + 4) = Ok 0 -> t + 16 <= 4192 ->
  forall nullable,
  lay sample_env Encoded sample_mem 4192
    {| s_type := STRUCT_PTR; s_desc := Some 3%nat; s_nullable := nullable; s_addr := a |} np (t + 16)
    [EPtr a; EHandle (t + 8) true].
Proof.
  intros Hv Hv0 Ht Hp Hnb Hver Hlim nullable.
  apply (lay_struct _ _ _ _ {| s_type := STRUCT_PTR; s_desc := Some 3%nat; s_nullable := nullable;
    s_addr := a |} _ _ _ v t leaf_struct 16 0); try done; try side.
  apply (lays_cons _ _ _ _ (entry_slot t (entry HANDLE None 0 true)) [] _ (t + 16) _
    [EHandle (t + 8) true] []); [|constructor].
  replace (t + 8) with (s_addr (entry_slot t (entry HANDLE None 0 true))) by (simpl; unfold sizeof_MojomStructHeader; lia).
  apply lay_handle. by left.
Qed.

Lemma sample_lay : lay_top sample_env Encoded sample_mem 4192 (Some 0%nat) 4096 4192 sample_events.
Proof.
  exists root_struct, 40, 0. repeat (split; [side|]).
  apply (lays_cons _ _ _ _ _ _ _ 4176 _ [EPtr 4104; EPtr 4144; EPtr 4152; EHandle 4168 true]
    [EHandle 4112 false; EPtr 4128; EHandle 4184 true]).
  - apply (lay_array _ _ _ _ (entry_slot 4096 (entry ARRAY_PTR (Some 1%nat) 0 false)) _ _ _
      32 4136 leaves_array 24 2); side.
    apply (lays_cons _ _ _ _ _ _ _ 4160 _ [EPtr 4144] [EPtr 4152; EHandle 4168 true]).
    + apply (lay_null _ _ _ _ (element_slot leaves_array 4136 0)); side.
    + apply (lays_cons _ _ _ _ _ _ _ 4176 _ [EPtr 4152; EHandle 4168 true] []); [|constructor].
      apply (sample_leaf 4152 _ 8 4160); side.
  - apply (lays_cons _ _ _ _ _ _ _ 4176 _ [EHandle 4112 false] [EPtr 4128; EHandle 4184 true]).
    + apply (lay_handle _ _ _ _ (entry_slot 4096 (entry HANDLE None 8 false))). by left.
    + apply (lays_cons _ _ _ _ _ _ _ 4192 _ [EPtr 4128; EHandle 4184 true] []); [|constructor].
      eapply (lay_union_active _ _ _ _ _ _ _ _ sample_union 16 1); try side.
      apply (sample_leaf 4128 _ 48 4176); side.
Qed.


Lemma sample_received : received sample_env sample_mem (Some 0%nat) 4096 96 3.
Proof. split; try done; try lia; [eexists; reflexivity|apply sample_mem_mapped]. Qed.

Lemma sample_fuel : enough_fuel 98 96.
Proof. unfold enough_fuel. lia. Qed.

Lemma Validate_accepts_wire_format_witness :
  exists evs, lay_top sample_env Encoded sample_mem 4192 (Some 0%nat) 4096 4192 evs /\
    handles_ok sample_mem 3 0 evs 3.
Proof.
  destruct (Validate_accepts_wire_format _ _ _ _ _ _ _ start_context sample_received sample_fuel)
    as (r & c' & H & _ & Hok).
  rewrite sample_validates in H. injection H as <- <-. by apply Hok.
Defined.

Lemma Validate_no_sharing_witness :
  events_in (range 4104 4192) sample_events /\ events_disjoint sample_events /\ taken sample_mem sample_events = [0; 1; 2] /\
  Forall (fun i => 0 <= i < 3) (taken sample_mem sample_events).
Proof.
  destruct (Validate_no_sharing _ _ _ _ _ _ _ _ _ sample_received sample_fuel sample_validates)
    as (_ & _ & _ & evs & Hl & H1 & H2 & H3 & _).
  destruct (lay_top_deterministic _ _ _ _ _ _ _ _ _ _ sample_lay Hl) as [_ ->].
  split; [exact H1|]. split; [exact H2|]. split; [by vm_compute|exact H3].
Defined.

Lemma validate_pointer_classifies_witness :
  exists c', validate_pointer sample_mem 4104 88 false start_context =
    Ok (MOJOM_VALIDATION_ERROR_NONE, c') /\ next_pointer c' = 4136.
Proof.
  destruct (validate_pointer_classifies sample_mem 4104 32 88 false start_context)
    as (r & c' & H & _ & _ & Hr & Hc & _); [by vm_compute|lia..|].
  assert (r = MOJOM_VALIDATION_ERROR_NONE) as -> by (apply Hr; right; vm_compute; intuition congruence).
  exists c'. split; [exact H|]. by apply Hc.
Defined.

(** The struct claims version 1, of 48 bytes, but has 40. *)
Lemma is_valid_size_for_version_witness :
  is_valid_size_for_version (mem_of 4096 [40; 1]) 4096 [version_row 0 40; version_row 1 48] = Ok false.
Proof.
  destruct (is_valid_size_for_version_spec root_struct (mem_of 4096 [40; 1]) 4096 40 1)
    as (i & r & b & Hi & Hr & _ & _ & Hb & Hiff); [done|by vm_compute..|].
  vm_compute in Hi. injection Hi as <-. injection Hr as <-.
  simpl in Hiff. destruct b; [|exact Hb]. destruct Hiff as [Hiff _]. specialize (Hiff eq_refl). done.
Defined.

Lemma message_unambiguous_witness : 4192 = 4192 /\ sample_events = sample_events.
Proof. exact (message_unambiguous _ _ _ _ _ _ _ _ _ _ sample_lay sample_lay). Defined.

(** * Encoding and decoding *)

Definition sample_handles : list Z := [11; 22; 33].

Lemma sample_handles_valid : valid_handles sample_handles.
Proof. repeat constructor; lia. Qed.

Lemma sample_handles_u32 : Forall (fun x => 0 <= x < 2 ^ 32) sample_handles.
Proof. repeat constructor; lia. Qed.

Lemma sample_handles_ok : handles_ok sample_mem 3 0 sample_events 3.
Proof.
  apply handles_ptr, handles_ptr, handles_ptr.
  apply (handles_index _ _ _ _ _ 0); [by vm_compute|done|lia|].
  apply (handles_index _ _ _ _ _ 1); [by vm_compute|done|lia|]. apply handles_ptr.
  apply (handles_index _ _ _ _ _ 2); [by vm_compute|done|lia|]. constructor.
Qed.

(** The decoded sample: what a sender would build in its own buffer. *)
Lemma sample_built : exists m,
  built sample_env m (Some 0%nat) 4096 96 4192 sample_events /\ collected m sample_events = sample_handles.
Proof.
  destruct (decode_wire sample_received 98 sample_handles 0 3 4192 sample_events sample_fuel sample_lay
    sample_handles_ok ltac:(lia) eq_refl sample_handles_u32) as (m & hs & _ & Htop & Hag & Hdec & _).
  exists m. split.
  - split; [done|done|lia|lia| |exact Htop|].
    + eapply mapped_rewritten; [exact Hag| |apply sample_mem_mapped].
      eapply Forall_impl; [exact Hdec|]. intros e (v & v' & _ & ? & _). eauto.
    + eapply decoded_handles_present; [exact sample_handles_valid|exact sample_handles_ok|exact Hdec].
  - eapply collected_dense; [exact sample_handles_valid|exact Hdec|by vm_compute].
Qed.

Lemma Decode_after_Validate_witness :
  exists m' hs' evs,
    decode_struct sample_env 98 (Some 0%nat) 4096 96 3 (sample_mem, Some sample_handles) =
      Ok (tt, (m', Some hs')) /\
    lay_top sample_env Decoded m' 4192 (Some 0%nat) 4096 4192 evs.
Proof.
  destruct (Decode_after_Validate _ _ _ _ _ _ _ start_context _ sample_handles sample_received sample_fuel
    ltac:(simpl; lia) sample_validates eq_refl sample_handles_u32) as (m' & hs' & evs & H & _ & Htop & _).
  exists m', hs', evs. split; [exact H|exact Htop].
Defined.

Lemma Encode_then_Validate_witness :
  exists m m1 c,
    encode_struct sample_env 98 (Some 0%nat) 4096 96 (m, Some (hbuf [0; 0; 0; 0] 4 0)) =
      Ok (tt, (m1, Some (hbuf [11; 22; 33; 0] 4 3))) /\
    validate_struct sample_env m1 98 (Some 0%nat) 4096 96 3 start_context =
      Ok (MOJOM_VALIDATION_ERROR_NONE, c).
Proof.
  destruct sample_built as (m & B & Hcol).
  destruct (Encode_then_Validate _ _ _ _ _ _ _ 98 [0; 0; 0; 0] 4 4096 B sample_fuel) as
    (m1 & H1 & _ & _ & H2); [rewrite Hcol; simpl; lia|simpl; lia|lia|].
  rewrite Hcol in H1, H2. exists m, m1. eexists. split; [exact H1|exact H2].
Defined.

(** The bytes of [m], [delta] higher. *)
Definition moved (delta : Z) (m : mem) : mem := kmap (Z.add delta) m.

#[export] Instance add_inj delta : Inj (=) (=) (Z.add delta).
Proof. intros x y H. lia. Qed.

Lemma moved_lookup delta m a : moved delta m !! (delta + a) = m !! a.
Proof. apply (lookup_kmap (Z.add delta)). Qed.

Lemma Encode_transfer_Decode_witness :
  exists m m2 m3 hs3,
    decode_struct sample_env 98 (Some 0%nat) 8192 96 3 (m2, Some [44; 55; 66]) =
      Ok (tt, (m3, Some hs3)) /\
    Forall (delivered 4096 m m3) sample_events /\
    collected m3 (shift_event 4096 <$> sample_events) = [44; 55; 66].
Proof.
  destruct sample_built as (m & B & Hcol).
  destruct (encode_built B 98 [0; 0; 0] 3 sample_fuel) as (m1 & H1 & _);
    [rewrite Hcol; simpl; lia|simpl; lia|lia|].
  destruct (Encode_transfer_Decode _ m m1 (moved 4096 m1) _ _ 8192 _ _ _ 98 [0; 0; 0] 3 [44; 55; 66] 8192
    B sample_fuel) as (_ & m3 & hs3 & H & _ & Hdel & Hc & _);
    [rewrite Hcol; simpl; lia|simpl; lia|lia|by eexists|lia| |by rewrite Hcol|repeat constructor; lia|].
  { intros i _. rewrite <- (moved_lookup 4096 m1). f_equal. lia. }
  exists m, (moved 4096 m1), m3, hs3. split; [exact H|]. split; [exact Hdel|exact Hc].
Defined.

Lemma Encode_undoes_Decode_witness :
  exists m' hs',
    decode_struct sample_env 98 (Some 0%nat) 4096 96 3 (sample_mem, Some sample_handles) =
      Ok (tt, (m', Some hs')) /\
    encode_struct sample_env 98 (Some 0%nat) 4096 96 (m', Some (hbuf [0; 0; 0] 3 0)) =
      Ok (tt, (sample_mem, Some (hbuf sample_handles 3 3))).
Proof.
  apply (Encode_undoes_Decode _ _ _ _ _ _ _ start_context _ sample_handles [0; 0; 0] sample_events
    sample_received sample_fuel eq_refl sample_validates eq_refl sample_handles_valid eq_refl sample_lay).
  by vm_compute.
Defined.
