(* ===== verification/Serialization.v ===== *)
(** The data path of the C++ bindings (src/cpp/bindings/lib): alignment, pointer
    and handle encoding (bindings_serialization.cc), the serialization buffer
    (fixed_buffer.cc), the bounds checker (bounds_checker.cc), the validation of
    message headers (validation_util.cc, message_header_validator.cc,
    message_validation.cc, validation_errors.h) and the message builders
    (message_builder.cc, message.cc). *)
From stdpp Require Import base numbers list option gmap strings.
From coqutil Require Import Byte.
From Stdlib Require Import ZArith Lia.
From S2P Require Import Prelude CMem Buffer Descriptor Validate Message.

(** [MOJO_CHECK] ends the program; [MOJO_DCHECK] does in builds that have it. *)
Definition MOJO_CHECK {S} (condition : bool) : M S unit := assert_ condition.
Definition MOJO_DCHECK {S} (debug condition : bool) : M S unit :=
  if debug then MOJO_CHECK condition else mret tt.

(** * bindings_serialization.cc *)

Definition kAlignment : Z := 8.
Definition kEncodedInvalidHandleValue : Z := 2 ^ 32 - 1.

(** On [size_t] and [uintptr_t]. *)
Definition AlignImpl (t : Z) : Z :=
  wrap64 (t + (kAlignment - t mod kAlignment) mod kAlignment).
Definition Align (size : Z) : Z := AlignImpl size.
Definition AlignPointer (ptr : Z) : Z := AlignImpl ptr.
Definition IsAligned (ptr : Z) : bool := ptr mod kAlignment =? 0.

Section Encoding.
Context (debug : bool).

(** [offset] is the address of the slot. *)
Definition EncodePointer {X} (ptr offset : Z) : M (mem * X) unit :=
  if ptr =? NULL then mstore 8 offset 0
  else
    MOJO_DCHECK debug (ptr >? offset);;
    mstore 8 offset (wrap64 (ptr - offset)).

Definition DecodePointerRaw {X} (offset : Z) : M (mem * X) Z :=
  v ← mload 8 offset;
  if v =? 0 then mret NULL else mret (wrap64 (offset + v)).

(** A [Handle] is its 32-bit value; [handle] is its address, [handles] the
    vector. *)
Definition EncodeHandle (handle : Z) : M (mem * list Z) unit :=
  v ← mload 4 handle;
  if negb (v =? MOJO_HANDLE_INVALID) then
    on_snd (modify (fun handles => handles ++ [v]));;
    handles ← on_snd get;
    mstore 4 handle (wrap32 (Z.of_nat (length handles) - 1))
  else mstore 4 handle kEncodedInvalidHandleValue.

(** [std::vector::at] throws out of range, which ends the program. *)
Definition DecodeHandle (handle : Z) : M (mem * list Z) unit :=
  v ← mload 4 handle;
  if v =? kEncodedInvalidHandleValue then mstore 4 handle MOJO_HANDLE_INVALID
  else
    handles ← on_snd get;
    MOJO_DCHECK debug (v <? Z.of_nat (length handles));;
    match handles !! Z.to_nat v with
    | Some h =>
        on_snd (modify (fun handles => <[Z.to_nat v := MOJO_HANDLE_INVALID]> handles));;
        mstore 4 handle h
    | None => lift Abort
    end.

(** An array of handles (array_internal.cc): [header] and [elements] are
    addresses, the number of elements is at [header + 4]. *)
Definition EncodeHandles (fuel : nat) (header elements : Z) : M (mem * list Z) unit :=
  for_upto (R := False) fuel 0 (mload 4 (header + 4))
    (fun i => EncodeHandle (elements + 4 * i);; mret None);;
  mret tt.
Definition DecodeHandles (fuel : nat) (header elements : Z) : M (mem * list Z) unit :=
  for_upto (R := False) fuel 0 (mload 4 (header + 4))
    (fun i => DecodeHandle (elements + 4 * i);; mret None);;
  mret tt.
End Encoding.

(** * fixed_buffer.cc *)

Record FixedBuffer := {
  ptr_ : Z;
  cursor_ : Z;
  size_ : Z;
}.

Definition FixedBuffer_new : FixedBuffer := {| ptr_ := NULL; cursor_ := 0; size_ := 0 |}.
Definition FixedBuffer_Initialize (memory size : Z) : M FixedBuffer unit :=
  put {| ptr_ := memory; cursor_ := 0; size_ := size |}.
Definition BytesUsed : M FixedBuffer Z := b ← get; mret (cursor_ b).

Definition FixedBuffer_Allocate (debug : bool) (delta : Z) : M FixedBuffer Z :=
  b ← get;
  let delta := Align delta in
  if (delta =? 0) || (delta >? wrap64 (size_ b - cursor_ b)) then
    MOJO_DCHECK debug false;;
    mret NULL
  else
    put {| ptr_ := ptr_ b; cursor_ := wrap64 (cursor_ b + delta); size_ := size_ b |};;
    mret (ptr_ b + cursor_ b).

(** [calloc] gives [memory]. *)
Definition FixedBufferForTesting_new (memory size : Z) : FixedBuffer :=
  {| ptr_ := memory; cursor_ := 0; size_ := Align size |}.
Definition Leak : M FixedBuffer Z :=
  b ← get;
  put {| ptr_ := NULL; cursor_ := 0; size_ := 0 |};;
  mret (ptr_ b).

(** * bounds_checker.cc *)

Record BoundsChecker := {
  data_begin_ : Z;
  data_end_ : Z;
  handle_begin_ : Z;
  handle_end_ : Z;
}.

Definition BoundsChecker_new (debug : bool) (data data_num_bytes num_handles : Z) :
    outcome BoundsChecker :=
  let data_end := wrap64 (data + data_num_bytes) in
  let handle_end := wrap32 num_handles in
  data_end ← (if data_end <? data then if debug then Abort else mret data else mret data_end);
  handle_end ← (if handle_end <? num_handles then if debug then Abort else mret 0
                else mret handle_end);
  mret {| data_begin_ := data; data_end_ := data_end; handle_begin_ := 0; handle_end_ := handle_end |}.

Definition InternalIsValidRange (b : BoundsChecker) (begin_ end_ : Z) : bool :=
  (end_ >? begin_) && (begin_ >=? data_begin_ b) && (end_ <=? data_end_ b).

Definition IsValidRange (b : BoundsChecker) (position num_bytes : Z) : bool :=
  InternalIsValidRange b position (wrap64 (position + num_bytes)).

Definition ClaimMemory (position num_bytes : Z) : M BoundsChecker bool :=
  b ← get;
  let end_ := wrap64 (position + num_bytes) in
  if negb (InternalIsValidRange b position end_) then mret false
  else
    put {| data_begin_ := end_; data_end_ := data_end_ b;
           handle_begin_ := handle_begin_ b; handle_end_ := handle_end_ b |};;
    mret true.

Definition ClaimHandle (index : Z) : M BoundsChecker bool :=
  b ← get;
  if index =? kEncodedInvalidHandleValue then mret true
  else if (index <? handle_begin_ b) || (index >=? handle_end_ b) then mret false
  else
    put {| data_begin_ := data_begin_ b; data_end_ := data_end_ b;
           handle_begin_ := wrap32 (index + 1); handle_end_ := handle_end_ b |};;
    mret true.

(** * validation_errors.h *)

Inductive ValidationError :=
  | NONE
  | MISALIGNED_OBJECT
  | ILLEGAL_MEMORY_RANGE
  | UNEXPECTED_STRUCT_HEADER
  | UNEXPECTED_ARRAY_HEADER
  | ILLEGAL_HANDLE
  | UNEXPECTED_INVALID_HANDLE
  | ILLEGAL_POINTER
  | UNEXPECTED_NULL_POINTER
  | MESSAGE_HEADER_INVALID_FLAGS
  | MESSAGE_HEADER_MISSING_REQUEST_ID
  | MESSAGE_HEADER_UNKNOWN_METHOD
  | DIFFERENT_SIZED_ARRAYS_IN_MAP
  | UNEXPECTED_NULL_UNION.

#[export] Instance ValidationError_eq_dec : EqDecision ValidationError.
Proof. solve_decision. Defined.

Definition ValidationErrorToString (error : ValidationError) : string :=
  match error with
  | NONE => "VALIDATION_ERROR_NONE"
  | MISALIGNED_OBJECT => "VALIDATION_ERROR_MISALIGNED_OBJECT"
  | ILLEGAL_MEMORY_RANGE => "VALIDATION_ERROR_ILLEGAL_MEMORY_RANGE"
  | UNEXPECTED_STRUCT_HEADER => "VALIDATION_ERROR_UNEXPECTED_STRUCT_HEADER"
  | UNEXPECTED_ARRAY_HEADER => "VALIDATION_ERROR_UNEXPECTED_ARRAY_HEADER"
  | ILLEGAL_HANDLE => "VALIDATION_ERROR_ILLEGAL_HANDLE"
  | UNEXPECTED_INVALID_HANDLE => "VALIDATION_ERROR_UNEXPECTED_INVALID_HANDLE"
  | ILLEGAL_POINTER => "VALIDATION_ERROR_ILLEGAL_POINTER"
  | UNEXPECTED_NULL_POINTER => "VALIDATION_ERROR_UNEXPECTED_NULL_POINTER"
  | MESSAGE_HEADER_INVALID_FLAGS => "VALIDATION_ERROR_MESSAGE_HEADER_INVALID_FLAGS"
  | MESSAGE_HEADER_MISSING_REQUEST_ID => "VALIDATION_ERROR_MESSAGE_HEADER_MISSING_REQUEST_ID"
  | MESSAGE_HEADER_UNKNOWN_METHOD => "VALIDATION_ERROR_MESSAGE_HEADER_UNKNOWN_METHOD"
  | DIFFERENT_SIZED_ARRAYS_IN_MAP => "VALIDATION_ERROR_DIFFERENT_SIZED_ARRAYS_IN_MAP"
  | UNEXPECTED_NULL_UNION => "VALIDATION_ERROR_UNEXPECTED_NULL_UNION"
  end.

(** The value of the enumerator. *)
Definition ValidationError_value (error : ValidationError) : Z :=
  match error with
  | NONE => 0
  | MISALIGNED_OBJECT => 1
  | ILLEGAL_MEMORY_RANGE => 2
  | UNEXPECTED_STRUCT_HEADER => 3
  | UNEXPECTED_ARRAY_HEADER => 4
  | ILLEGAL_HANDLE => 5
  | UNEXPECTED_INVALID_HANDLE => 6
  | ILLEGAL_POINTER => 7
  | UNEXPECTED_NULL_POINTER => 8
  | MESSAGE_HEADER_INVALID_FLAGS => 9
  | MESSAGE_HEADER_MISSING_REQUEST_ID => 10
  | MESSAGE_HEADER_UNKNOWN_METHOD => 11
  | DIFFERENT_SIZED_ARRAYS_IN_MAP => 12
  | UNEXPECTED_NULL_UNION => 13
  end.

(** * Messages *)

(** [class Message]: the address and size of its data, and its handles. *)
Record Message := {
  data_ : Z;
  data_num_bytes_ : Z;
  handles_ : list Z;
}.

Definition kMessageExpectsResponse : Z := Z.shiftl 1 0.
Definition kMessageIsResponse : Z := Z.shiftl 1 1.
Definition sizeof_StructHeader : Z := 8.
Definition sizeof_MessageHeader : Z := 16.
Definition sizeof_MessageHeaderWithRequestID : Z := 24.

Section Message.
Context (debug : bool) (m : mem).

(** The fields of [MessageHeader] and [MessageHeaderWithRequestID]. *)
Definition header_num_bytes (msg : Message) : outcome Z := load32 m (data_ msg).
Definition header_version (msg : Message) : outcome Z := load32 m (data_ msg + 4).
Definition header_name (msg : Message) : outcome Z := load32 m (data_ msg + 8).
Definition header_flags (msg : Message) : outcome Z := load32 m (data_ msg + 12).

Definition Message_has_flag (msg : Message) (flag : Z) : outcome bool :=
  flags ← header_flags msg; mret (has_flag flags flag).
Definition has_request_id (msg : Message) : outcome bool :=
  version ← header_version msg; mret (version >=? 1).
Definition request_id (msg : Message) : outcome Z :=
  b ← has_request_id msg;
  if debug && negb b then Abort else load64 m (data_ msg + 16).
Definition payload (msg : Message) : outcome Z :=
  n ← header_num_bytes msg; mret (wrap64 (data_ msg + n)).
Definition payload_num_bytes (msg : Message) : outcome Z :=
  n ← header_num_bytes msg;
  if debug && (data_num_bytes_ msg <? n) then Abort else mret (wrap32 (data_num_bytes_ msg - n)).

(** ** message_header_validator.cc *)

Definition ValidateStructHeaderAndClaimMemory (data : Z) : M BoundsChecker ValidationError :=
  b ← get;
  if negb (IsAligned data) then mret MISALIGNED_OBJECT
  else if negb (IsValidRange b data sizeof_StructHeader) then mret ILLEGAL_MEMORY_RANGE
  else
    num_bytes ← lift (load32 m data);
    if num_bytes <? sizeof_StructHeader then mret UNEXPECTED_STRUCT_HEADER
    else
      claimed ← ClaimMemory data num_bytes;
      if negb claimed then mret ILLEGAL_MEMORY_RANGE else mret NONE.

Definition ValidateMessageHeader (msg : Message) : outcome ValidationError :=
  version ← header_version msg;
  num_bytes ← header_num_bytes msg;
  if (version =? 0) && negb (num_bytes =? sizeof_MessageHeader) ||
     (version =? 1) && negb (num_bytes =? sizeof_MessageHeaderWithRequestID) ||
     (version >? 1) && (num_bytes <? sizeof_MessageHeaderWithRequestID)
  then mret UNEXPECTED_STRUCT_HEADER
  else
    flags ← header_flags msg;
    if (version <? 1) &&
       (has_flag flags kMessageExpectsResponse || has_flag flags kMessageIsResponse)
    then mret MESSAGE_HEADER_MISSING_REQUEST_ID
    else if has_flag flags kMessageExpectsResponse && has_flag flags kMessageIsResponse
    then mret MESSAGE_HEADER_INVALID_FLAGS
    else mret NONE.

Definition MessageHeaderValidator_Validate (msg : Message) : outcome ValidationError :=
  bounds_checker ← BoundsChecker_new debug (data_ msg) (data_num_bytes_ msg) 0;
  '(result, _) ← ValidateStructHeaderAndClaimMemory (data_ msg) bounds_checker;
  if bool_decide (result <> NONE) then mret result else ValidateMessageHeader msg.

(** ** message_validation.cc *)

Definition ValidateMessageIsRequestWithoutResponse (msg : Message) : outcome ValidationError :=
  is_response ← Message_has_flag msg kMessageIsResponse;
  if (is_response : bool) then mret MESSAGE_HEADER_INVALID_FLAGS
  else
    expects_response ← Message_has_flag msg kMessageExpectsResponse;
    mret (if (expects_response : bool) then MESSAGE_HEADER_INVALID_FLAGS else NONE).

Definition ValidateMessageIsRequestExpectingResponse (msg : Message) : outcome ValidationError :=
  is_response ← Message_has_flag msg kMessageIsResponse;
  if (is_response : bool) then mret MESSAGE_HEADER_INVALID_FLAGS
  else
    expects_response ← Message_has_flag msg kMessageExpectsResponse;
    mret (if negb expects_response then MESSAGE_HEADER_INVALID_FLAGS else NONE).

Definition ValidateMessageIsResponse (msg : Message) : outcome ValidationError :=
  expects_response ← Message_has_flag msg kMessageExpectsResponse;
  is_response ← Message_has_flag msg kMessageIsResponse;
  mret (if expects_response || negb is_response then MESSAGE_HEADER_INVALID_FLAGS else NONE).

(** [ParamsType::Validate] is generated code: given the payload and a checker of
    its bounds and handles, what it says. *)
Definition ValidateMessagePayload (Validate : Z -> BoundsChecker -> outcome ValidationError)
    (msg : Message) : outcome ValidationError :=
  p ← payload msg;
  n ← payload_num_bytes msg;
  bounds_checker ← BoundsChecker_new debug p n (Z.of_nat (length (handles_ msg)));
  Validate p bounds_checker.

(** ** Control messages *)

(** Constants of interface_control_messages.mojom. *)
Definition kRunMessageId : Z := 0xFFFFFFFF.
Definition kRunOrClosePipeMessageId : Z := 0xFFFFFFFE.

Section Control.
Context (RunMessageParams_Validate RunOrClosePipeMessageParams_Validate
  RunResponseMessageParams_Validate : Z -> BoundsChecker -> outcome ValidationError).

Definition ValidateControlRequest (msg : Message) : outcome ValidationError :=
  name ← header_name msg;
  if name =? kRunMessageId then
    retval ← ValidateMessageIsRequestExpectingResponse msg;
    if bool_decide (retval <> NONE) then mret retval
    else ValidateMessagePayload RunMessageParams_Validate msg
  else if name =? kRunOrClosePipeMessageId then
    retval ← ValidateMessageIsRequestWithoutResponse msg;
    if bool_decide (retval <> NONE) then mret retval
    else ValidateMessagePayload RunOrClosePipeMessageParams_Validate msg
  else mret MESSAGE_HEADER_UNKNOWN_METHOD.

Definition ValidateControlResponse (msg : Message) : outcome ValidationError :=
  retval ← ValidateMessageIsResponse msg;
  if bool_decide (retval <> NONE) then mret retval
  else
    name ← header_name msg;
    if name =? kRunMessageId then ValidateMessagePayload RunResponseMessageParams_Validate msg
    else mret MESSAGE_HEADER_UNKNOWN_METHOD.
End Control.

(** ** Validators in sequence *)

Fixpoint RunValidatorsOnMessage (validators : list (Message -> outcome ValidationError))
    (msg : Message) : outcome ValidationError :=
  match validators with
  | [] => mret NONE
  | validator :: validators =>
      result ← validator msg;
      if bool_decide (result <> NONE) then mret result
      else RunValidatorsOnMessage validators msg
  end.
End Message.

Definition PassThroughValidator_Validate (msg : Message) : outcome ValidationError := mret NONE.
Definition IsControlMessage (m : mem) (msg : Message) : outcome bool :=
  name ← header_name m msg; mret (has_flag name 0x80000000).

(** * message_builder.cc *)

Section Builder.
Context (debug : bool).

(** [Message::AllocData]: [calloc] gives [memory], zeroed; the message is new. *)
Definition AllocData (memory num_bytes : Z) : M (mem * FixedBuffer) Message :=
  modify (fun st => (store_bytes st.1 memory (replicate (Z.to_nat num_bytes) Byte.x00), st.2));;
  mret {| data_ := memory; data_num_bytes_ := num_bytes; handles_ := [] |}.

Definition MessageBuilder_Initialize (memory size : Z) : M (mem * FixedBuffer) Message :=
  message ← AllocData memory (wrap32 (Align size));
  on_snd (FixedBuffer_Initialize (data_ message) (data_num_bytes_ message));;
  mret message.

(** Allocates a header of [size] bytes and sets its [num_bytes]. *)
Definition Allocate_header (size : Z) : M (mem * FixedBuffer) Z :=
  header ← on_snd (FixedBuffer_Allocate debug size);
  mstore 4 header size;;
  mret header.

Definition MessageBuilder_new (memory name payload_size : Z) : M (mem * FixedBuffer) Message :=
  message ← MessageBuilder_Initialize memory (wrap64 (sizeof_MessageHeader + payload_size));
  header ← Allocate_header sizeof_MessageHeader;
  mstore 4 (header + 4) 0;;
  mstore 4 (header + 8) name;;
  mstore 4 (header + 12) 0;;
  mret message.

Definition MessageWithRequestIDBuilder_new (memory name payload_size flags request_id : Z) :
    M (mem * FixedBuffer) Message :=
  message ← MessageBuilder_Initialize memory
    (wrap64 (sizeof_MessageHeaderWithRequestID + payload_size));
  header ← Allocate_header sizeof_MessageHeaderWithRequestID;
  mstore 4 (header + 4) 1;;
  mstore 4 (header + 8) name;;
  mstore 4 (header + 12) flags;;
  mstore 8 (header + 16) request_id;;
  mret message.

Definition RequestMessageBuilder_new (memory name payload_size : Z) :=
  MessageWithRequestIDBuilder_new memory name payload_size kMessageExpectsResponse 0.
Definition ResponseMessageBuilder_new (memory name payload_size request_id : Z) :=
  MessageWithRequestIDBuilder_new memory name payload_size kMessageIsResponse request_id.
End Builder.
