(* ===== verification/SerializationFacts.v ===== *)
(** The C++ data path against the C one and against what it promises: the
    buffers and the header validators agree with those of the C library, claimed
    ranges and handles are disjoint, encoded pointers and handles come back when
    decoded, and the messages that the builders make are valid. *)
From stdpp Require Import base numbers list option gmap sorting.
From coqutil Require Import Byte.
From Stdlib Require Import ZArith Lia.
From S2P Require Import Prelude CMem Buffer Descriptor Validate Message Serialization.

(** * The two buffers *)

(** [Align] on a size is the C macro. *)
Lemma Align_round8 x : 0 <= x -> x + 7 < 2 ^ 64 -> Align x = round8 x.
Proof.
  intros Hx Hlt. unfold Align, AlignImpl, kAlignment, round8.
  rewrite wrap64_small; lia.
Qed.

(** A C buffer as a C++ one. *)
Definition of_mojom (b : MojomBuffer) : FixedBuffer :=
  {| ptr_ := buf b; cursor_ := num_bytes_used b; size_ := buf_size b |}.

(** On a well-formed buffer and a positive size, [FixedBuffer::Allocate] in a
    release build and [MojomBuffer_Allocate] return the same pointer and leave the
    same buffer; a debug build fails its assertion exactly when C returns NULL. *)
Theorem FixedBuffer_matches_MojomBuffer b n
    (Hb : buffer_wf b) (Hn : 0 < n < 2 ^ 32) :
  exists p b', MojomBuffer_Allocate n b = Ok (p, b') /\
    FixedBuffer_Allocate false n (of_mojom b) = Ok (p, of_mojom b') /\
    FixedBuffer_Allocate true n (of_mojom b) =
      (if p =? NULL then Abort else Ok (p, of_mojom b')).
Proof.
  rewrite Allocate_eq by (done || lia). destruct Hb as (Hp & Hhi & Hu & Hs & Hm).
  pose proof (round8_bounds n). pose proof (round8_mod n).
  unfold FixedBuffer_Allocate, of_mojom, fits, allocated, mbind, M_bind, get, put, mret, M_ret,
    MOJO_DCHECK, MOJO_CHECK, assert_, lift, NULL. simpl.
  rewrite Align_round8 by lia.
  destruct (Z.eqb_spec (round8 n) 0); [lia|]. simpl.
  rewrite (wrap64_small (buf_size b - num_bytes_used b)) by lia.
  destruct (Z.leb_spec (num_bytes_used b + round8 n) (buf_size b)).
  - destruct (Z.gtb_spec (round8 n) (buf_size b - num_bytes_used b)); [lia|].
    eexists _, _. split; [done|]. rewrite wrap64_small by lia.
    destruct (Z.eqb_spec (buf b + num_bytes_used b) 0); [lia|]. done.
  - destruct (Z.gtb_spec (round8 n) (buf_size b - num_bytes_used b)); [|lia].
    by eexists _, _.
Qed.

(** * The bounds checker *)

(** A claim and what it takes. *)
Inductive claim := Memory (position num_bytes : Z) | HandleIndex (index : Z).

Fixpoint claim_all (cs : list claim) : M BoundsChecker (list claim) :=
  match cs with
  | [] => mret []
  | c :: cs =>
      ok ← match c with
           | Memory position num_bytes => ClaimMemory position num_bytes
           | HandleIndex index => ClaimHandle index
           end;
      granted ← claim_all cs;
      mret (if (ok : bool) then c :: granted else granted)
  end.

Definition memory_claims (cs : list claim) : list (Z * Z) :=
  omap (fun c => match c with Memory p n => Some (p, n) | _ => None end) cs.
(** The handles claimed: an invalid handle takes none. *)
Definition handle_claims (cs : list claim) : list Z :=
  omap (fun c => match c with
                 | HandleIndex i => if i =? kEncodedInvalidHandleValue then None else Some i
                 | _ => None
                 end) cs.

Definition claim_wf (c : claim) : Prop :=
  match c with
  | Memory p n => 0 <= p < 2 ^ 64 /\ 0 <= n < 2 ^ 32
  | HandleIndex i => 0 <= i < 2 ^ 32
  end.

Definition checker_wf (b : BoundsChecker) : Prop :=
  0 <= data_begin_ b /\ data_end_ b < 2 ^ 64 /\ 0 <= handle_begin_ b /\ handle_end_ b < 2 ^ 32.

(** What a range must be to be claimed. *)
Lemma InternalIsValidRange_spec b p n :
  checker_wf b -> 0 <= p < 2 ^ 64 -> 0 <= n < 2 ^ 32 ->
  InternalIsValidRange b p (wrap64 (p + n)) = true <->
  0 < n /\ data_begin_ b <= p /\ p + n <= data_end_ b.
Proof.
  intros (?&?&?&?) ??. unfold InternalIsValidRange.
  rewrite !andb_true_iff, Z.gtb_lt, Z.geb_le, Z.leb_le.
  destruct (Z.ltb_spec (p + n) (2 ^ 64)).
  - rewrite wrap64_small by lia. lia.
  - unfold wrap64. split; [|lia]. lia.
Qed.

Lemma claim_all_spec cs b :
  checker_wf b -> Forall claim_wf cs ->
  wp (claim_all cs) b (fun granted b' =>
    StronglySorted block_before (memory_claims granted) /\
    Forall (fun x => data_begin_ b <= x.1 /\ 0 < x.2 /\ x.1 + x.2 <= data_end_ b)
      (memory_claims granted) /\
    StronglySorted Z.lt (handle_claims granted) /\
    Forall (fun i => handle_begin_ b <= i < handle_end_ b) (handle_claims granted)).
Proof.
  revert b. induction cs as [|c cs IH]; intros b Hb Hcs; simpl.
  { wp_step. repeat split; constructor. }
  inversion Hcs as [|? ? Hc Hcs']; subst. pose proof Hb as (?&?&?&?).
  assert (Hskip : forall Q : list claim -> BoundsChecker -> Prop,
    (forall granted b', 
      StronglySorted block_before (memory_claims granted) /\
      Forall (fun x => data_begin_ b <= x.1 /\ 0 < x.2 /\ x.1 + x.2 <= data_end_ b)
        (memory_claims granted) /\
      StronglySorted Z.lt (handle_claims granted) /\
      Forall (fun i => handle_begin_ b <= i < handle_end_ b) (handle_claims granted) ->
      Q granted b') -> wp (claim_all cs) b Q).
  { intros Q HQ. eapply wp_mono; [by apply IH|]. exact HQ. }
  wp_step. destruct c as [p n|i]; simpl in Hc.
  - unfold ClaimMemory. do 2 wp_step.
    destruct (InternalIsValidRange b p (wrap64 (p + n))) eqn:Hr; simpl.
    + apply InternalIsValidRange_spec in Hr as (? & ? & ?); [|done|lia|lia].
      rewrite wrap64_small by lia. do 4 wp_step.
      eapply wp_mono; [apply IH; [|done]|].
      { unfold checker_wf; simpl. lia. }
      simpl. intros granted b' (Hs & Hall & Hhs & Hhall). wp_step.
      change (memory_claims (Memory p n :: granted)) with ((p, n) :: memory_claims granted).
      change (handle_claims (Memory p n :: granted)) with (handle_claims granted).
      rewrite Forall_forall in Hall. split; [|split; [|done]].
      * constructor; [done|]. apply Forall_forall. intros x Hx.
        destruct (Hall x Hx) as (?&?&?). unfold block_before. simpl. lia.
      * constructor; [simpl; lia|]. apply Forall_forall. intros x Hx.
        destruct (Hall x Hx) as (?&?&?). lia.
    + do 2 wp_step. apply Hskip. intros granted b' H'. by wp_step.
  - unfold ClaimHandle. do 2 wp_step. destruct (Z.eqb_spec i kEncodedInvalidHandleValue) as [->|Hne].
    { do 2 wp_step. apply Hskip. intros granted b' H'. wp_step. exact H'. }
    destruct ((i <? handle_begin_ b) || (i >=? handle_end_ b)) eqn:Hr.
    { do 2 wp_step. apply Hskip. intros granted b' H'. wp_step. exact H'. }
    bool_facts. rewrite Z.geb_leb in *. bool_facts. unfold kEncodedInvalidHandleValue in Hne.
    rewrite wrap32_small by lia. do 4 wp_step.
    eapply wp_mono; [apply IH; [|done]|].
    { unfold checker_wf; simpl. lia. }
    simpl. intros granted b' (Hs & Hall & Hhs & Hhall). wp_step.
    change (memory_claims (HandleIndex i :: granted)) with (memory_claims granted).
    assert (Hh : handle_claims (HandleIndex i :: granted) = i :: handle_claims granted).
    { unfold handle_claims. simpl. by destruct (Z.eqb_spec i kEncodedInvalidHandleValue). }
    rewrite Hh. rewrite Forall_forall in Hhall. split; [done|]. split; [done|]. split.
    + constructor; [done|]. apply Forall_forall. intros x Hx. specialize (Hhall x Hx). lia.
    + constructor; [lia|]. apply Forall_forall. intros x Hx. specialize (Hhall x Hx). lia.
Qed.

(** Whatever memory ranges and handles are claimed, in whatever order, the
    ranges that a bounds checker grants are not empty, lie in the message and are
    pairwise disjoint, and no handle is granted twice or beyond their number. *)
Theorem claims_disjoint debug data data_num_bytes num_handles cs
    (Hdata : 0 <= data /\ 0 <= data_num_bytes < 2 ^ 32 /\ data + data_num_bytes < 2 ^ 64)
    (Hh : 0 <= num_handles < 2 ^ 32) (Hcs : Forall claim_wf cs) :
  exists b granted b', BoundsChecker_new debug data data_num_bytes num_handles = Ok b /\
    claim_all cs b = Ok (granted, b') /\
    StronglySorted block_before (memory_claims granted) /\
    Forall (fun x => data <= x.1 /\ 0 < x.2 /\ x.1 + x.2 <= data + data_num_bytes)
      (memory_claims granted) /\
    StronglySorted Z.lt (handle_claims granted) /\
    Forall (fun i => 0 <= i < num_handles) (handle_claims granted).
Proof.
  unfold BoundsChecker_new. rewrite wrap64_small, wrap32_small by lia.
  destruct (Z.ltb_spec (data + data_num_bytes) data); [lia|].
  destruct (Z.ltb_spec num_handles num_handles); [lia|]. simpl.
  eexists. pose proof (claim_all_spec cs {| data_begin_ := data; data_end_ := data + data_num_bytes;
    handle_begin_ := 0; handle_end_ := num_handles |}) as H'.
  apply wp_run in H' as (granted & b' & Hrun & Hg); [|unfold checker_wf; simpl; lia|done].
  exists granted, b'. split; [done|]. by split.
Qed.

(** * Header validation *)

(** A checker of the [n] bytes at [data]. *)
Definition checker_of (data n : Z) : BoundsChecker :=
  {| data_begin_ := data; data_end_ := data + n; handle_begin_ := 0; handle_end_ := 0 |}.

Lemma BoundsChecker_new_eq debug data n :
  0 <= data -> 0 <= n -> data + n < 2 ^ 64 ->
  BoundsChecker_new debug data n 0 = Ok (checker_of data n).
Proof.
  intros ???. unfold BoundsChecker_new. rewrite wrap64_small by lia.
  by destruct (Z.ltb_spec (data + n) data); [lia|].
Qed.

(** The struct at the start of the checked bytes. *)
Lemma ValidateStructHeader_eq m data n nb :
  0 <= data -> 0 <= n < 2 ^ 32 -> data + n < 2 ^ 64 -> 0 <= nb < 2 ^ 32 ->
  (8 <= n -> load32 m data = Ok nb) ->
  exists b', ValidateStructHeaderAndClaimMemory m data (checker_of data n) =
    Ok (if negb (IsAligned data) then MISALIGNED_OBJECT
        else if n <? 8 then ILLEGAL_MEMORY_RANGE
        else if nb <? 8 then UNEXPECTED_STRUCT_HEADER
        else if n <? nb then ILLEGAL_MEMORY_RANGE else NONE, b').
Proof.
  intros Hd Hn Hhi Hnb Hload.
  assert (Hb : checker_wf (checker_of data n)) by (unfold checker_wf, checker_of; simpl; lia).
  pose proof (InternalIsValidRange_spec _ data 8 Hb ltac:(lia) ltac:(lia)) as Hr8.
  pose proof (InternalIsValidRange_spec _ data nb Hb ltac:(lia) ltac:(lia)) as Hrn.
  unfold checker_of in Hr8, Hrn. simpl in Hr8, Hrn.
  unfold ValidateStructHeaderAndClaimMemory, ClaimMemory, IsValidRange, sizeof_StructHeader,
    mbind, M_bind, get, put, mret, M_ret, lift.
  destruct (IsAligned data); simpl; [|by eexists].
  unfold checker_of. destruct (InternalIsValidRange _ data (wrap64 (data + 8))) eqn:Hv8; simpl.
  - assert (8 <= n) by (destruct Hr8 as [Hr8 _]; specialize (Hr8 eq_refl); lia).
    rewrite Hload by done. destruct (Z.ltb_spec n 8); [lia|].
    destruct (Z.ltb_spec nb 8); [by eexists|].
    destruct (InternalIsValidRange _ data (wrap64 (data + nb))) eqn:Hvn; simpl.
    + destruct Hrn as [Hrn _]. specialize (Hrn eq_refl). destruct (Z.ltb_spec n nb); [lia|by eexists].
    + destruct (Z.ltb_spec n nb); [by eexists|]. enough (false = true) by done. apply Hrn. lia.
  - destruct (Z.ltb_spec n 8); [by eexists|]. enough (false = true) by done. apply Hr8. lia.
Qed.

Lemma MessageHeaderValidator_returns debug m msg :
  mapped m (data_ msg) (data_ msg + data_num_bytes_ msg) ->
  0 <= data_ msg -> 0 <= data_num_bytes_ msg < 2 ^ 32 ->
  data_ msg + data_num_bytes_ msg < 2 ^ 64 ->
  exists error result, MessageHeaderValidator_Validate debug m msg = Ok error /\
    MojomMessage_ValidateHeader m (data_ msg) (data_num_bytes_ msg) = Ok result /\
    if IsAligned (data_ msg) then result = ValidationError_value error
    else error = MISALIGNED_OBJECT.
Proof.
  intros Hmap Hdata Hn Hhi.
  destruct msg as [data n hs]. simpl in *.
  destruct (ValidateHeader_returns m data n Hmap) as (result & HC & _).
  assert (Hnb : exists nb, 0 <= nb < 2 ^ 32 /\ (8 <= n -> load32 m data = Ok nb)).
  { destruct (Z.ltb_spec n 8); [exists 0; lia|].
    destruct (header_word m _ _ Hmap 0) as (nb & Hnb & ?); [lia..|]. rewrite Z.add_0_r in Hnb. eauto. }
  destruct Hnb as (nb & Hnbr & Hnb).
  destruct (ValidateStructHeader_eq m data n nb) as [b' Hs]; [done..|].
  unfold MessageHeaderValidator_Validate. rewrite BoundsChecker_new_eq by (simpl; lia).
  simpl. rewrite Hs. simpl. destruct (IsAligned data); simpl; [|by eexists _, result].
  rewrite HC. unfold MojomMessage_ValidateHeader, sizeof_MojomStructHeader in HC.
  destruct (Z.ltb_spec n 8); simpl; [eexists _, _; by injection HC as <-|].
  destruct (header_word m _ _ Hmap 4) as (v & Hv & Hvr); [lia..|].
  rewrite (Hnb ltac:(lia)), Hv in HC. unfold mbind, outcome_bind, mret, outcome_ret in HC.
  destruct (Z.ltb_spec n nb) as [Hlt|Hle].
  { injection HC as <-. destruct (Z.ltb_spec nb 8); [lia|]. by eexists _, _. }
  assert (Hfl : 16 <= n -> exists fl, load32 m (data + 12) = Ok fl).
  { intros ?. destruct (header_word m _ _ Hmap 12) as (fl & Hfl & _); [lia..|eauto]. }
  unfold ValidateMessageHeader, header_version, header_num_bytes, header_flags, mbind, outcome_bind,
    sizeof_MessageHeader, sizeof_MessageHeaderWithRequestID. simpl.
  rewrite Hv, (Hnb ltac:(lia)).
  unfold msg_flags, sizeof_MojomMessage, sizeof_MojomMessageWithRequestId,
    MOJOM_MESSAGE_FLAGS_EXPECTS_RESPONSE, MOJOM_MESSAGE_FLAGS_IS_RESPONSE in HC.
  unfold kMessageExpectsResponse, kMessageIsResponse.
  destruct (Z.ltb_spec nb 8); simpl.
  { eexists _, _. split; [done|]. split; [done|].
    destruct (Z.eqb_spec v 0), (Z.eqb_spec v 1), (Z.eqb_spec nb 16), (Z.eqb_spec nb 24),
      (Z.gtb_spec v 1), (Z.ltb_spec nb 24); simpl in HC; try lia; by injection HC as <-. }
  destruct (Z.eqb_spec nb 16) as [->|H16].
  - destruct (Hfl ltac:(lia)) as [fl Hfl']. rewrite Hfl' in *. simpl in *.
    destruct (has_flag fl _), (has_flag fl _);
    destruct (Z.eqb_spec v 0), (Z.eqb_spec v 1), (Z.gtb_spec v 1), (Z.ltb_spec v 1); simpl in *;
      try lia; injection HC as <-; by eexists _, _.
  - destruct (Z.ltb_spec nb 24).
    + destruct (Z.eqb_spec nb 24); [lia|]. simpl in HC.
      destruct (Z.eqb_spec v 0), (Z.eqb_spec v 1), (Z.gtb_spec v 1); simpl in *;
        try lia; injection HC as <-; by eexists _, _.
    + destruct (Hfl ltac:(lia)) as [fl Hfl']. rewrite Hfl' in *. simpl in *.
      destruct (has_flag fl _), (has_flag fl _); destruct (Z.eqb_spec nb 24);
      destruct (Z.eqb_spec v 0), (Z.eqb_spec v 1), (Z.gtb_spec v 1), (Z.ltb_spec v 1); simpl in *;
        try lia; injection HC as <-; by eexists _, _.
Qed.

(** C34: The C++ and the C validators of message headers agree on all mapped bytes:
    on 8-aligned data they return the same code, and on other data, which only the
    C++ one checks for, it returns [MISALIGNED_OBJECT]. *)
Theorem header_validators_agree debug m msg
    (Hmap : mapped m (data_ msg) (data_ msg + data_num_bytes_ msg))
    (Hdata : 0 <= data_ msg) (Hn : 0 <= data_num_bytes_ msg < 2 ^ 32)
    (Hhi : data_ msg + data_num_bytes_ msg < 2 ^ 64) :
  exists error result, MessageHeaderValidator_Validate debug m msg = Ok error /\
    MojomMessage_ValidateHeader m (data_ msg) (data_num_bytes_ msg) = Ok result /\
    if IsAligned (data_ msg) then result = ValidationError_value error
    else error = MISALIGNED_OBJECT.
Proof. exact (MessageHeaderValidator_returns debug m msg Hmap Hdata Hn Hhi). Qed.

(** The C++ validators of the kind of a message. *)
Definition ValidateMessageKind (m : mem) (k : message_kind) (msg : Message) :
    outcome ValidationError :=
  match k with
  | Request => ValidateMessageIsRequestWithoutResponse m msg
  | RequestExpectingResponse => ValidateMessageIsRequestExpectingResponse m msg
  | Response => ValidateMessageIsResponse m msg
  end.

(** The kind that the flags say, and nothing else. *)
Lemma ValidateMessageKind_spec m k msg flags :
  load32 m (data_ msg + 12) = Ok flags ->
  ValidateMessageKind m k msg =
    Ok (if decide (kind_of flags = Some k) then NONE else MESSAGE_HEADER_INVALID_FLAGS).
Proof.
  intros Hfl. destruct k; unfold ValidateMessageKind, ValidateMessageIsRequestWithoutResponse,
    ValidateMessageIsRequestExpectingResponse, ValidateMessageIsResponse, Message_has_flag,
    header_flags, kMessageExpectsResponse, kMessageIsResponse; rewrite Hfl;
    unfold mbind, outcome_bind, mret, outcome_ret;
    rewrite !has_flag_testbit by done; unfold kind_of;
    by destruct (Z.testbit flags 0), (Z.testbit flags 1).
Qed.

(** After its header is accepted, the C++ and the C validators of the kind of a
    message agree on every kind. *)
Theorem kind_validators_agree m msg k
    (Hmap : mapped m (data_ msg) (data_ msg + data_num_bytes_ msg))
    (Hok : MojomMessage_ValidateHeader m (data_ msg) (data_num_bytes_ msg) =
           Ok MOJOM_VALIDATION_ERROR_NONE) :
  exists error, ValidateMessageKind m k msg = Ok error /\
    validate_kind m k (data_ msg) = Ok (ValidationError_value error).
Proof.
  destruct (ValidateHeader_returns m _ _ Hmap) as (r & HC & Hiff). rewrite Hok in HC.
  injection HC as <-. destruct Hiff as [Hiff _].
  destruct (Hiff eq_refl) as (_ & nb & v & fl & _ & _ & Hfl & Hhd).
  rewrite (ValidateMessageKind_spec m k msg fl Hfl).
  assert (Hk : is_Some (kind_of fl)).
  { destruct Hhd as [_ [(_ & _ & ->)|[(_ & _ & ?)|(_ & _ & ?)]]]; eauto. }
  eexists. split; [done|]. unfold validate_kind, MojomMessage_ValidateRequestWithoutResponse,
    MojomMessage_ValidateRequestExpectingResponse, MojomMessage_ValidateResponse, msg_flags.
  rewrite Hfl. unfold mbind, outcome_bind, mret, outcome_ret.
  rewrite expects_testbit, is_response_testbit. unfold kind_of in *.
  destruct k, (Z.testbit fl 0), (Z.testbit fl 1); simpl; try done; by destruct Hk.
Qed.

(** * Pointers *)

(** A pointer encoded in a slot and decoded in the slot of a copy, wherever the
    copy is, points to the same place in the copy; a null pointer stays null. In a
    debug build the target must come after the slot, otherwise it must only not be
    the slot itself. *)
Theorem pointer_roundtrip debug m ptr slot slot' (x : list Z)
    (Hptr : 0 <= ptr < 2 ^ 64) (Hslot : 0 <= slot < 2 ^ 64)
    (Hne : ptr <> slot) (Hdebug : debug = true -> ptr = NULL \/ slot < ptr)
    (Hmap : mapped m slot (slot + 8)) :
  exists m', EncodePointer debug ptr slot (m, x) = Ok (tt, (m', x)) /\
    (forall a, a < slot \/ slot + 8 <= a -> m' !! a = m !! a) /\
    forall m2 (y : list Z), (forall i, 0 <= i < 8 -> m2 !! (slot' + i) = m' !! (slot + i)) ->
      DecodePointerRaw slot' (m2, y) =
        Ok (if ptr =? NULL then NULL else wrap64 (slot' + (ptr - slot)), (m2, y)).
Proof.
  set (v := if ptr =? NULL then 0 else wrap64 (ptr - slot)).
  pose proof (store_Ok m slot 8 v ltac:(exact Hmap)) as Hs.
  set (m' := store_bytes _ _ _) in Hs. exists m'.
  assert (Hv : 0 <= v < 2 ^ 64) by (unfold v; destruct (ptr =? NULL); [lia|apply wrap64_range]).
  split; [|split].
  - unfold EncodePointer. fold v. destruct (Z.eqb_spec ptr NULL) as [->|Hnn].
    + unfold mstore. simpl. unfold v in Hs. simpl in Hs. by rewrite Hs.
    + unfold mbind, M_bind, MOJO_DCHECK, MOJO_CHECK, assert_, lift, mret, M_ret.
      unfold v in Hs. destruct (Z.eqb_spec ptr NULL); [done|].
      destruct debug; [|unfold mstore; simpl; by rewrite Hs].
      destruct (Hdebug eq_refl); [done|]. destruct (Z.gtb_spec ptr slot); [|lia].
      unfold mstore. simpl. by rewrite Hs.
  - intros a Ha. symmetry. by apply (store_agree _ _ _ _ _ (fun a => a < slot \/ slot + 8 <= a) Hs).
  - intros m2 y Heq. unfold DecodePointerRaw, mbind, M_bind, mload. simpl.
    rewrite (load_ext m2 m' slot' slot 8) by exact Heq.
    rewrite (load_store _ _ _ _ _ Hs), Z.mod_small by exact Hv. simpl.
    unfold v. destruct (Z.eqb_spec ptr NULL); [done|].
    destruct (Z.eqb_spec (wrap64 (ptr - slot)) 0) as [Hz|Hnz].
    + unfold wrap64, NULL in *. lia.
    + unfold mret, M_ret. do 2 f_equal. unfold wrap64. by rewrite Zplus_mod_idemp_r.
Qed.

(** * Handles *)

(** The words of an array of handles. *)
Definition words_at (m : mem) (elements : Z) (vs : list Z) : Prop :=
  forall i v, vs !! i = Some v -> load32 m (elements + 4 * Z.of_nat i) = Ok v.

(** The valid handles, in order. *)
Definition valid_only (vs : list Z) : list Z := filter (fun v => v <> MOJO_HANDLE_INVALID) vs.

(** What the handle at [i] is encoded as. *)
Definition encoded_word (vs : list Z) (i : nat) (v : Z) : Z :=
  if v =? MOJO_HANDLE_INVALID then kEncodedInvalidHandleValue
  else Z.of_nat (length (valid_only (take i vs))).

Lemma valid_only_take vs i v :
  vs !! i = Some v ->
  valid_only (take (S i) vs) =
    valid_only (take i vs) ++ (if v =? MOJO_HANDLE_INVALID then [] else [v]).
Proof.
  intros Hv. rewrite (take_S_r _ _ _ Hv). unfold valid_only. rewrite filter_app. f_equal.
  destruct (Z.eqb_spec v MOJO_HANDLE_INVALID).
  - by rewrite filter_cons_False by tauto.
  - by rewrite filter_cons_True by done.
Qed.

Lemma valid_only_length vs i :
  (length (valid_only (take i vs)) <= i)%nat.
Proof.
  unfold valid_only. etransitivity; [apply length_filter|]. rewrite length_take. lia.
Qed.

Lemma words_at_store m m' elements vs i v w :
  store 4 m (elements + 4 * Z.of_nat i) w = Ok m' ->
  words_at m elements vs -> vs !! i = Some v -> 0 <= w < 2 ^ 32 ->
  words_at m' elements (<[i := w]> vs).
Proof.
  intros Hs Hw Hi Hwr j u Hj. destruct (decide (i = j)) as [<-|Hne].
  - rewrite list_lookup_insert_eq in Hj by (by eapply lookup_lt_Some). simplify_eq.
    rewrite (load_store _ _ _ _ _ Hs). f_equal. by apply Z.mod_small.
  - rewrite list_lookup_insert_ne in Hj by done. rewrite <- (Hw j u Hj). symmetry.
    apply load_agree. eapply store_agree; [exact Hs|]. unfold range. lia.
Qed.

Lemma words_at_mapped m elements vs i v :
  words_at m elements vs -> vs !! i = Some v ->
  mapped m (elements + 4 * Z.of_nat i) (elements + 4 * Z.of_nat i + 4).
Proof. intros Hw Hi. exact (load_Ok_mapped _ _ 4 _ (Hw i v Hi)). Qed.

(** The array after its first [j] handles are encoded. *)
Definition half_encoded (vs : list Z) (j : nat) : list Z :=
  imap (fun i v => if (i <? j)%nat then encoded_word vs i v else v) vs.

Lemma half_encoded_lookup vs j i v :
  vs !! i = Some v ->
  half_encoded vs j !! i = Some (if (i <? j)%nat then encoded_word vs i v else v).
Proof. intros Hv. unfold half_encoded. by rewrite list_lookup_imap, Hv. Qed.

Lemma half_encoded_S vs j v :
  vs !! j = Some v -> half_encoded vs (S j) = <[j := encoded_word vs j v]> (half_encoded vs j).
Proof.
  intros Hv. assert (Hj : (j < length vs)%nat) by (by eapply lookup_lt_Some).
  apply list_eq. intros i. destruct (decide (i = j)) as [->|Hne].
  - rewrite list_lookup_insert_eq by (unfold half_encoded; by rewrite length_imap).
    rewrite (half_encoded_lookup _ _ _ _ Hv). destruct (Nat.ltb_spec j (S j)); [done|lia].
  - rewrite list_lookup_insert_ne by done. unfold half_encoded. rewrite !list_lookup_imap.
    destruct (vs !! i); simpl; [|done]. f_equal.
    destruct (Nat.ltb_spec i (S j)), (Nat.ltb_spec i j); try done; lia.
Qed.

Lemma half_encoded_0 vs : half_encoded vs 0 = vs.
Proof.
  apply list_eq. intros i. unfold half_encoded. rewrite list_lookup_imap. by destruct (vs !! i).
Qed.

Lemma encoded_word_range vs i v :
  Z.of_nat (length vs) < 2 ^ 32 -> vs !! i = Some v -> 0 <= encoded_word vs i v < 2 ^ 32.
Proof.
  intros Hl Hv%lookup_lt_Some. unfold encoded_word, kEncodedInvalidHandleValue.
  pose proof (valid_only_length vs i). destruct (v =? MOJO_HANDLE_INVALID); lia.
Qed.

(** The array after the first [j] of its encoded handles are decoded. *)
Definition half_decoded (vs : list Z) (j : nat) : list Z :=
  imap (fun i v => if (i <? j)%nat then v else encoded_word vs i v) vs.

Lemma half_decoded_lookup vs j i v :
  vs !! i = Some v ->
  half_decoded vs j !! i = Some (if (i <? j)%nat then v else encoded_word vs i v).
Proof. intros Hv. unfold half_decoded. by rewrite list_lookup_imap, Hv. Qed.

Lemma half_decoded_S vs j v :
  vs !! j = Some v -> half_decoded vs (S j) = <[j := v]> (half_decoded vs j).
Proof.
  intros Hv. assert (Hj : (j < length vs)%nat) by (by eapply lookup_lt_Some).
  apply list_eq. intros i. destruct (decide (i = j)) as [->|Hne].
  - rewrite list_lookup_insert_eq by (unfold half_decoded; by rewrite length_imap).
    rewrite (half_decoded_lookup _ _ _ _ Hv). destruct (Nat.ltb_spec j (S j)); [done|lia].
  - rewrite list_lookup_insert_ne by done. unfold half_decoded. rewrite !list_lookup_imap.
    destruct (vs !! i); simpl; [|done]. f_equal.
    destruct (Nat.ltb_spec i (S j)), (Nat.ltb_spec i j); try done; lia.
Qed.

Lemma half_decoded_0 vs : half_decoded vs 0 = half_encoded vs (length vs).
Proof.
  apply list_eq. intros i. unfold half_decoded, half_encoded. rewrite !list_lookup_imap.
  destruct (vs !! i) as [v|] eqn:Hv; simpl; [|done]. apply lookup_lt_Some in Hv.
  by destruct (Nat.ltb_spec i (length vs)); [|lia].
Qed.

Lemma half_decoded_all vs : half_decoded vs (length vs) = vs.
Proof.
  apply list_eq. intros i. unfold half_decoded. rewrite list_lookup_imap.
  destruct (vs !! i) as [v|] eqn:Hv; simpl; [|done]. apply lookup_lt_Some in Hv.
  by destruct (Nat.ltb_spec i (length vs)); [|lia].
Qed.

(** The vector after [c] of the handles have been taken. *)
Definition holes (hs : list Z) (c : nat) : list Z := replicate c MOJO_HANDLE_INVALID ++ drop c hs.

Lemma valid_only_lookup vs i v :
  vs !! i = Some v -> v <> MOJO_HANDLE_INVALID ->
  exists rest, drop (length (valid_only (take i vs))) (valid_only vs) = v :: rest.
Proof.
  intros Hv Hne. exists (valid_only (drop (S i) vs)).
  rewrite <- (take_drop_middle _ _ _ Hv) at 2. unfold valid_only. rewrite filter_app.
  rewrite drop_app_length. by rewrite filter_cons_True.
Qed.

Lemma holes_take hs c v rest :
  drop c hs = v :: rest ->
  holes hs c !! c = Some v /\ <[c := MOJO_HANDLE_INVALID]> (holes hs c) = holes hs (S c).
Proof.
  intros Hd. unfold holes. split.
  - rewrite lookup_app_r by (by rewrite length_replicate). rewrite length_replicate, Nat.sub_diag.
    by rewrite Hd.
  - rewrite insert_app_r_alt by (by rewrite length_replicate). rewrite length_replicate, Nat.sub_diag, Hd.
    assert (Hd' : drop (S c) hs = rest).
    { replace (S c) with (c + 1)%nat by lia. rewrite <- drop_drop, Hd. done. }
    rewrite Hd', replicate_S_end, <- app_assoc. done.
Qed.

Lemma holes_length hs c : (c <= length hs)%nat -> length (holes hs c) = length hs.
Proof. intros Hc. unfold holes. rewrite length_app, length_replicate, length_drop. lia. Qed.

Section Handles.
Context (debug : bool) (header elements : Z) (vs : list Z).
Context (Hlen : Z.of_nat (length vs) < 2 ^ 32).
Context (Hrange : Forall (fun v => 0 <= v < 2 ^ 32) vs).
(** The header is not among the elements. *)
Context (Hsep : header + 8 <= elements \/ elements + 4 * Z.of_nat (length vs) <= header).

Definition outside_elements (a : Z) : Prop :=
  a < elements \/ elements + 4 * Z.of_nat (length vs) <= a.

Lemma num_elements_kept m m' n :
  load32 m (header + 4) = Ok n -> agree outside_elements m m' -> load32 m' (header + 4) = Ok n.
Proof.
  intros Hn Hag. rewrite <- Hn. symmetry. apply load_agree. eapply agree_weaken; [exact Hag|].
  unfold outside_elements, range. simpl. lia.
Qed.

Lemma store_outside m m' i v w :
  store 4 m (elements + 4 * Z.of_nat i) w = Ok m' -> vs !! i = Some v -> agree outside_elements m m'.
Proof.
  intros Hs Hi%lookup_lt_Some. eapply store_agree; [exact Hs|].
  unfold outside_elements. simpl. lia.
Qed.

Lemma EncodeHandles_spec m fuel :
  words_at m elements vs -> load32 m (header + 4) = Ok (Z.of_nat (length vs)) ->
  (length vs < fuel)%nat ->
  wp (EncodeHandles fuel header elements) (m, []) (fun _ st =>
    words_at st.1 elements (half_encoded vs (length vs)) /\ st.2 = valid_only vs /\
    agree outside_elements m st.1).
Proof.
  intros Hw Hn Hfuel. unfold EncodeHandles. wp_step.
  apply (wp_for_upto (fun j st => words_at st.1 elements (half_encoded vs (Z.to_nat j)) /\
    st.2 = valid_only (take (Z.to_nat j) vs) /\ agree outside_elements m st.1) _ _
    (Z.of_nat (length vs))); [|lia|lia| | |].
  - simpl. by rewrite half_encoded_0.
  - intros j [m1 hs] _ (_ & _ & Hag). eapply wp_mload; [|done]. by eapply num_elements_kept.
  - intros j [m1 hs] Hj (Hw1 & Hhs & Hag). simpl in *. subst hs.
    destruct (lookup_lt_is_Some_2 vs (Z.to_nat j)) as [v Hv]; [lia|].
    assert (Hload : load32 m1 (elements + 4 * j) = Ok v).
    { replace j with (Z.of_nat (Z.to_nat j)) by lia. apply Hw1.
      rewrite (half_encoded_lookup _ _ _ _ Hv). destruct (Nat.ltb_spec (Z.to_nat j) (Z.to_nat j)); [lia|done]. }
    assert (Hstore : forall w, w = encoded_word vs (Z.to_nat j) v ->
      exists m', store 4 m1 (elements + 4 * j) w = Ok m' /\
        words_at m' elements (half_encoded vs (Z.to_nat (j + 1))) /\ agree outside_elements m m').
    { intros w ->. eexists. split; [apply store_Ok; exact (load_Ok_mapped _ _ 4 _ Hload)|].
      pose proof (store_Ok m1 (elements + 4 * j) 4 (encoded_word vs (Z.to_nat j) v)
        (load_Ok_mapped _ _ 4 _ Hload)) as Hs.
      replace (elements + 4 * j) with (elements + 4 * Z.of_nat (Z.to_nat j)) in * by lia.
      replace (Z.to_nat (j + 1)) with (S (Z.to_nat j)) by lia.
      rewrite (half_encoded_S _ _ _ Hv). split.
      - eapply words_at_store; [exact Hs|exact Hw1|by apply half_encoded_lookup|by apply encoded_word_range].
      - etransitivity; [exact Hag|]. by eapply store_outside. }
    unfold EncodeHandle. do 2 wp_step. eapply wp_mload; [exact Hload|].
    replace (Z.to_nat (j + 1)) with (S (Z.to_nat j)) in * by lia. rewrite (valid_only_take _ _ _ Hv).
    pose proof (valid_only_length vs (Z.to_nat j)).
    destruct (Z.eqb_spec v MOJO_HANDLE_INVALID) as [Hv0|Hv0]; simpl.
    + destruct (Hstore kEncodedInvalidHandleValue) as (m' & Hs & Hw' & Hag').
      { unfold encoded_word. by destruct (Z.eqb_spec v MOJO_HANDLE_INVALID). }
      eapply wp_mstore; [exact Hs|]. wp_step. simpl. by rewrite app_nil_r.
    + destruct (Hstore (Z.of_nat (length (valid_only (take (Z.to_nat j) vs))))) as (m' & Hs & Hw' & Hag').
      { unfold encoded_word. by destruct (Z.eqb_spec v MOJO_HANDLE_INVALID). }
      wp_step. apply wp_on_snd. do 2 wp_step. apply wp_on_snd. wp_step. simpl.
      eapply wp_mstore; [|wp_step; done]. simpl. rewrite length_app. simpl.
      rewrite wrap32_small by lia. rewrite <- Hs. f_equal. lia.
  - intros [m1 hs] (Hw1 & Hhs & Hag). simpl in *. wp_step. rewrite Nat2Z.id in *.
    split; [done|]. split; [|done]. by rewrite Hhs, take_ge.
Qed.

Lemma DecodeHandles_spec m fuel :
  words_at m elements (half_encoded vs (length vs)) ->
  load32 m (header + 4) = Ok (Z.of_nat (length vs)) -> (length vs < fuel)%nat ->
  wp (DecodeHandles debug fuel header elements) (m, valid_only vs) (fun _ st =>
    words_at st.1 elements vs /\
    st.2 = replicate (length (valid_only vs)) MOJO_HANDLE_INVALID /\
    agree outside_elements m st.1).
Proof.
  intros Hw Hn Hfuel. unfold DecodeHandles. wp_step.
  apply (wp_for_upto (fun j st => words_at st.1 elements (half_decoded vs (Z.to_nat j)) /\
    st.2 = holes (valid_only vs) (length (valid_only (take (Z.to_nat j) vs))) /\
    agree outside_elements m st.1) _ _ (Z.of_nat (length vs))); [|lia|lia| | |].
  - simpl. by rewrite half_decoded_0.
  - intros j [m1 hs] _ (_ & _ & Hag). eapply wp_mload; [|done]. by eapply num_elements_kept.
  - intros j [m1 hs] Hj (Hw1 & Hhs & Hag). simpl in *. subst hs.
    destruct (lookup_lt_is_Some_2 vs (Z.to_nat j)) as [v Hv]; [lia|].
    assert (Hload : load32 m1 (elements + 4 * j) = Ok (encoded_word vs (Z.to_nat j) v)).
    { replace j with (Z.of_nat (Z.to_nat j)) at 1 by lia. apply Hw1.
      rewrite (half_decoded_lookup _ _ _ _ Hv).
      destruct (Nat.ltb_spec (Z.to_nat j) (Z.to_nat j)); [lia|done]. }
    assert (Hstore : exists m', store 4 m1 (elements + 4 * j) v = Ok m' /\
        words_at m' elements (half_decoded vs (Z.to_nat (j + 1))) /\ agree outside_elements m m').
    { eexists. split; [apply store_Ok; exact (load_Ok_mapped _ _ 4 _ Hload)|].
      pose proof (store_Ok m1 (elements + 4 * j) 4 v (load_Ok_mapped _ _ 4 _ Hload)) as Hs.
      replace (elements + 4 * j) with (elements + 4 * Z.of_nat (Z.to_nat j)) in * by lia.
      replace (Z.to_nat (j + 1)) with (S (Z.to_nat j)) by lia.
      rewrite (half_decoded_S _ _ _ Hv). split.
      - eapply words_at_store; [exact Hs|exact Hw1|by apply half_decoded_lookup|].
        rewrite Forall_lookup in Hrange. by eapply Hrange.
      - etransitivity; [exact Hag|]. by eapply store_outside. }
    destruct Hstore as (m' & Hs & Hw' & Hag').
    unfold DecodeHandle. do 2 wp_step. eapply wp_mload; [exact Hload|].
    replace (Z.to_nat (j + 1)) with (S (Z.to_nat j)) in * by lia. rewrite (valid_only_take _ _ _ Hv).
    pose proof (valid_only_length vs (Z.to_nat j)). unfold encoded_word.
    destruct (Z.eqb_spec v MOJO_HANDLE_INVALID) as [->|Hv0]; simpl.
    + eapply wp_mstore; [exact Hs|]. wp_step. simpl. by rewrite app_nil_r.
    + set (c := length (valid_only (take (Z.to_nat j) vs))) in *.
      destruct (Z.eqb_spec (Z.of_nat c) kEncodedInvalidHandleValue) as [Hc|_];
        [unfold kEncodedInvalidHandleValue in Hc; lia|].
      destruct (valid_only_lookup _ _ _ Hv Hv0) as [rest Hrest]. fold c in Hrest.
      destruct (holes_take _ _ _ _ Hrest) as [Hl Hset].
      assert (Hclen : (c < length (valid_only vs))%nat).
      { destruct (le_lt_dec (length (valid_only vs)) c); [|done]. by rewrite drop_ge in Hrest. }
      wp_step. apply wp_on_snd. wp_step. wp_step.
      assert (Hdc : forall Q : unit -> mem * list Z -> Prop, 
        Q tt (m1, holes (valid_only vs) c) ->
        wp (MOJO_DCHECK debug (Z.of_nat c <? Z.of_nat (length (holes (valid_only vs) c))))
          (m1, holes (valid_only vs) c) Q).
      { intros Q HQ. rewrite holes_length by lia. destruct (Z.ltb_spec (Z.of_nat c) (Z.of_nat (length (valid_only vs)))); [|lia].
        by destruct debug. }
      apply Hdc. simpl. rewrite Nat2Z.id, Hl. wp_step. apply wp_on_snd. wp_step. simpl.
      eapply wp_mstore; [exact Hs|]. wp_step. simpl. split; [done|]. split; [|done].
      rewrite Hset, length_app. simpl. f_equal. lia.
  - intros [m1 hs] (Hw1 & Hhs & Hag). simpl in *. wp_step. rewrite Nat2Z.id in *.
    split; [by rewrite half_decoded_all in Hw1|]. split; [|done]. simpl. rewrite Hhs.
    rewrite (take_ge vs) by done. unfold holes. by rewrite drop_ge, app_nil_r.
Qed.
End Handles.

(** The handles of an array encoded into a message, and decoded from a copy of
    the array elsewhere with the handles the message carries, are the handles of
    the original array in their places; the message carries the valid ones in
    order, and none is left in it. Neither run fails an assertion, and neither
    writes outside its array. *)
Theorem handles_roundtrip debug vs fuel m header elements header' elements'
    (Hlen : Z.of_nat (length vs) < 2 ^ 32) (Hrange : Forall (fun v => 0 <= v < 2 ^ 32) vs)
    (Hsep : header + 8 <= elements \/ elements + 4 * Z.of_nat (length vs) <= header)
    (Hsep' : header' + 8 <= elements' \/ elements' + 4 * Z.of_nat (length vs) <= header')
    (Hw : words_at m elements vs) (Hn : load32 m (header + 4) = Ok (Z.of_nat (length vs)))
    (Hfuel : (length vs < fuel)%nat) :
  exists m1, EncodeHandles fuel header elements (m, []) = Ok (tt, (m1, valid_only vs)) /\
    agree (outside_elements elements vs) m m1 /\
    forall m2, load32 m2 (header' + 4) = Ok (Z.of_nat (length vs)) ->
      (forall i, 0 <= i < 4 * Z.of_nat (length vs) -> m2 !! (elements' + i) = m1 !! (elements + i)) ->
      exists m3, DecodeHandles debug fuel header' elements' (m2, valid_only vs) =
          Ok (tt, (m3, replicate (length (valid_only vs)) MOJO_HANDLE_INVALID)) /\
        words_at m3 elements' vs /\ agree (outside_elements elements' vs) m2 m3.
Proof.
  pose proof (EncodeHandles_spec header elements vs Hlen Hsep m fuel Hw Hn Hfuel) as H.
  apply wp_run in H as ([] & [m1 hs] & Hrun & Hw1 & Hhs & Hag). simpl in *. subst hs.
  exists m1. split; [done|]. split; [done|]. intros m2 Hn2 Hcopy.
  assert (Hw2 : words_at m2 elements' (half_encoded vs (length vs))).
  { intros i v Hi. rewrite <- (Hw1 i v Hi). apply lookup_lt_Some in Hi.
    unfold half_encoded in Hi. rewrite length_imap in Hi. apply load_ext. intros k Hk.
    simpl in Hk. specialize (Hcopy (4 * Z.of_nat i + k)). rewrite !Z.add_assoc in Hcopy.
    apply Hcopy. lia. }
  pose proof (DecodeHandles_spec debug header' elements' vs Hlen Hrange Hsep' m2 fuel Hw2 Hn2 Hfuel) as H.
  apply wp_run in H as ([] & [m3 hs] & Hrun2 & Hw3 & Hhs & Hag2). simpl in *. subst hs.
  by exists m3.
Qed.

(** * Message builders *)

Lemma load_other n m a n' a' v m' :
  store n' m a' v = Ok m' -> a + Z.of_nat n <= a' \/ a' + Z.of_nat n' <= a -> load n m' a = load n m a.
Proof.
  intros Hs Hd. symmetry. apply load_agree. eapply store_agree; [exact Hs|]. unfold range. lia.
Qed.

(** The builder for each kind of message. *)
Definition build (debug : bool) (k : message_kind) (memory name payload_size request_id : Z) :
    M (mem * FixedBuffer) Message :=
  match k with
  | Request => MessageBuilder_new debug memory name payload_size
  | RequestExpectingResponse => RequestMessageBuilder_new debug memory name payload_size
  | Response => ResponseMessageBuilder_new debug memory name payload_size request_id
  end.

Definition header_size (k : message_kind) : Z :=
  match k with
  | Request => sizeof_MessageHeader
  | _ => sizeof_MessageHeaderWithRequestID
  end.
Definition built_flags (k : message_kind) : Z :=
  match k with
  | Request => 0
  | RequestExpectingResponse => kMessageExpectsResponse
  | Response => kMessageIsResponse
  end.
Definition built_request_id (k : message_kind) (request_id : Z) : Z :=
  match k with Response => request_id | _ => 0 end.

(** The header words and the state after building; the rest of the data is zero. *)
Definition built_at (k : message_kind) (memory name size request_id : Z) (m : mem)
    (msg : Message) (st : mem * FixedBuffer) : Prop :=
  msg = {| data_ := memory; data_num_bytes_ := round8 (header_size k + size); handles_ := [] |} /\
  st.2 = {| ptr_ := memory; cursor_ := header_size k; size_ := round8 (header_size k + size) |} /\
  load32 st.1 memory = Ok (header_size k) /\
  load32 st.1 (memory + 4) = Ok (if decide (k = Request) then 0 else 1) /\
  load32 st.1 (memory + 8) = Ok name /\ load32 st.1 (memory + 12) = Ok (built_flags k) /\
  (k <> Request -> load64 st.1 (memory + 16) = Ok (built_request_id k request_id)) /\
  (forall a, memory + header_size k <= a < memory + round8 (header_size k + size) ->
     st.1 !! a = Some Byte.x00) /\
  mapped st.1 memory (memory + round8 (header_size k + size)) /\
  agree (fun a => a < memory \/ memory + round8 (header_size k + size) <= a) m st.1.

Section Builders.
Context (debug : bool) (memory name size request_id : Z) (m : mem) (b0 : FixedBuffer).
Context (Hmem : 0 < memory) (Hname : 0 <= name < 2 ^ 32) (Hid : 0 <= request_id < 2 ^ 64).
Context (Hsize : 0 <= size).

Lemma store_bytes_zero a n x :
  a <= x < a + Z.of_nat n -> store_bytes m a (replicate n Byte.x00) !! x = Some Byte.x00.
Proof.
  intros Hx. pose proof (load_bytes_store_bytes m a (replicate n Byte.x00)) as Hl.
  rewrite length_replicate in Hl.
  pose proof (load_bytes_lookup _ _ _ _ (Z.to_nat (x - a)) Hl ltac:(lia)) as Hb.
  replace (a + Z.of_nat (Z.to_nat (x - a))) with x in Hb by lia. rewrite Hb.
  apply lookup_replicate_2. lia.
Qed.

(** What every builder starts with: zeroed data and a header. *)
Lemma start_message h :
  h mod 8 = 0 -> 0 < h -> round8 (h + size) < 2 ^ 32 -> memory + round8 (h + size) < 2 ^ 64 ->
  forall Q : Message -> Z -> mem * FixedBuffer -> Prop,
  (forall m1, mapped m1 memory (memory + round8 (h + size)) ->
     load32 m1 memory = Ok h ->
     (forall a, memory + h <= a < memory + round8 (h + size) -> m1 !! a = Some Byte.x00) ->
     agree (fun a => a < memory \/ memory + round8 (h + size) <= a) m m1 ->
     Q {| data_ := memory; data_num_bytes_ := round8 (h + size); handles_ := [] |} memory
       (m1, {| ptr_ := memory; cursor_ := h; size_ := round8 (h + size) |})) ->
  wp (MessageBuilder_Initialize memory (wrap64 (h + size))) (m, b0)
    (fun msg st => wp (Allocate_header debug h) st (Q msg)).
Proof.
  intros Hh8 Hh Hr Hhi Q HQ. pose proof (round8_bounds (h + size)).
  rewrite wrap64_small by lia. unfold MessageBuilder_Initialize, AllocData.
  rewrite Align_round8, wrap32_small by lia. set (n := round8 (h + size)) in *.
  do 5 wp_step. apply wp_on_snd. simpl. unfold FixedBuffer_Initialize. do 2 wp_step. simpl.
  set (m0 := store_bytes m memory (replicate (Z.to_nat n) Byte.x00)).
  assert (Hz : forall a, memory <= a < memory + n -> m0 !! a = Some Byte.x00).
  { intros a Ha. apply store_bytes_zero. lia. }
  assert (Hm0 : mapped m0 memory (memory + n)).
  { intros a Ha. rewrite Hz by done. eauto. }
  assert (Ha0 : agree (fun a => a < memory \/ memory + n <= a) m m0).
  { intros a Ha. unfold m0. rewrite store_bytes_lookup_out; [done|]. rewrite length_replicate. lia. }
  unfold Allocate_header. wp_step. apply wp_on_snd. unfold FixedBuffer_Allocate. do 2 wp_step. simpl.
  rewrite Align_round8, round8_id by lia. rewrite (wrap64_small (n - 0)) by lia.
  assert (h <= n) by (unfold n, round8; lia).
  destruct (Z.eqb_spec h 0); [lia|]. destruct (Z.gtb_spec h (n - 0)); [lia|]. simpl.
  rewrite Z.add_0_l, Z.add_0_r, (wrap64_small h) by lia. do 3 wp_step.
  assert (Hm04 : mapped m0 memory (memory + 4)) by (eapply mapped_weaken; [exact Hm0|lia..]).
  pose proof (store_Ok m0 memory 4 h Hm04) as Hs.
  wp_step. eapply wp_mstore; [exact Hs|]. wp_step. cbn [fst snd]. apply HQ.
  - by eapply store_mapped.
  - rewrite (load_store _ _ _ _ _ Hs). f_equal. apply Z.mod_small. simpl. lia.
  - intros a Ha. rewrite <- (store_agree _ _ _ _ _ (fun a => memory + h <= a) Hs); [apply Hz; lia|simpl; lia|lia].
  - etransitivity; [exact Ha0|]. eapply store_agree; [exact Hs|]. simpl. lia.
Qed.

Lemma wp_start h (f : Message -> Z -> M (mem * FixedBuffer) Message) Q :
  h mod 8 = 0 -> 0 < h -> round8 (h + size) < 2 ^ 32 -> memory + round8 (h + size) < 2 ^ 64 ->
  (forall m1, mapped m1 memory (memory + round8 (h + size)) ->
     load32 m1 memory = Ok h ->
     (forall a, memory + h <= a < memory + round8 (h + size) -> m1 !! a = Some Byte.x00) ->
     agree (fun a => a < memory \/ memory + round8 (h + size) <= a) m m1 ->
     wp (f {| data_ := memory; data_num_bytes_ := round8 (h + size); handles_ := [] |} memory)
       (m1, {| ptr_ := memory; cursor_ := h; size_ := round8 (h + size) |}) Q) ->
  wp (msg ← MessageBuilder_Initialize memory (wrap64 (h + size));
      header ← Allocate_header debug h; f msg header) (m, b0) Q.
Proof.
  intros ???? HQ. wp_step. eapply wp_mono.
  - apply (start_message h) with (Q := fun msg header st => wp (f msg header) st Q); done.
  - intros msg st Hst. by wp_step.
Qed.

(** A header word: where it is and what it holds. *)
Definition word_ok (m1 : mem) (w : nat * Z * Z) : Prop :=
  let '(n, a, v) := w in load n m1 a = Ok v.

(** One more store into the data of the message. *)
Lemma store_field h n a v (ws : list (nat * Z * Z)) m1 :
  mapped m1 memory (memory + round8 (h + size)) ->
  (forall x, memory + h <= x < memory + round8 (h + size) -> m1 !! x = Some Byte.x00) ->
  agree (fun x => x < memory \/ memory + round8 (h + size) <= x) m m1 ->
  Forall (word_ok m1) ws ->
  memory <= a -> a + Z.of_nat n <= memory + h -> 0 <= v < 2 ^ (8 * Z.of_nat n) ->
  Forall (fun w => w.1.2 + Z.of_nat w.1.1 <= a) ws ->
  exists m2, store n m1 a v = Ok m2 /\ mapped m2 memory (memory + round8 (h + size)) /\
    (forall x, memory + h <= x < memory + round8 (h + size) -> m2 !! x = Some Byte.x00) /\
    agree (fun x => x < memory \/ memory + round8 (h + size) <= x) m m2 /\
    Forall (word_ok m2) (ws ++ [(n, a, v)]).
Proof.
  intros Hm Hz Hag Hws Ha Hah Hv Hsep. pose proof (round8_bounds (h + size)).
  assert (Hma : mapped m1 a (a + Z.of_nat n)) by (eapply mapped_weaken; [exact Hm|lia..]).
  pose proof (store_Ok m1 a n v Hma) as Hs. eexists. split; [exact Hs|].
  split; [by eapply store_mapped|]. split; [|split].
  - intros x Hx. rewrite <- (store_agree _ _ _ _ _ (fun x => memory + h <= x) Hs); [by apply Hz|lia|lia].
  - etransitivity; [exact Hag|]. eapply store_agree; [exact Hs|]. lia.
  - apply Forall_app. split.
    + rewrite Forall_forall in *. intros [[n' a'] v'] Hw. specialize (Hws _ Hw). specialize (Hsep _ Hw).
      simpl in *. rewrite <- Hws. eapply load_other; [exact Hs|]. lia.
    + constructor; [|done]. simpl. rewrite (load_store _ _ _ _ _ Hs). f_equal. by apply Z.mod_small.
Qed.

(** The next store of a builder, and what is known after it. *)
Ltac store_next h n a v :=
  lazymatch goal with
  | Hws : Forall (word_ok ?m1) ?ws |- _ =>
      let Hs := fresh "Hs" in let m2 := fresh "m" in
      destruct (store_field h n a v ws m1) as (m2 & Hs & ? & ? & ? & ?);
        [assumption|assumption|assumption|assumption
        |lia|cbn; lia|first [cbn; lia|by split; vm_compute]|repeat constructor; cbn; lia|];
      wp_step; eapply wp_mstore; [exact Hs|]; cbn [fst snd app] in *;
      repeat match goal with
      | H : context [m1] |- _ => clear H
      end
  end.

Ltac built_at_done :=
  lazymatch goal with
  | H : Forall (word_ok _) _ |- _ =>
      repeat rewrite Forall_cons in H; cbn [word_ok] in H; destruct_and? H;
      unfold built_at, header_size, sizeof_MessageHeader, sizeof_MessageHeaderWithRequestID in *;
      repeat split; auto; by intros []
  end.

(** The words a builder writes after the start of the message. *)
Lemma build_spec k :
  round8 (header_size k + size) < 2 ^ 32 -> memory + round8 (header_size k + size) < 2 ^ 64 ->
  wp (build debug k memory name size request_id) (m, b0) (built_at k memory name size request_id m).
Proof.
  intros Hr Hhi. destruct k; unfold build, RequestMessageBuilder_new, ResponseMessageBuilder_new,
    MessageBuilder_new, MessageWithRequestIDBuilder_new, header_size in *;
    (apply wp_start; [done..|]; intros m1 Hm1 Hnb Hz Hag).
  - assert (Hws : Forall (word_ok m1) [(4%nat, memory, 16)]) by (repeat constructor; done).
    store_next 16 4%nat (memory + 4) 0. store_next 16 4%nat (memory + 8) name.
    store_next 16 4%nat (memory + 12) 0. wp_step. built_at_done.
  - assert (Hws : Forall (word_ok m1) [(4%nat, memory, 24)]) by (repeat constructor; done).
    store_next 24 4%nat (memory + 4) 1. store_next 24 4%nat (memory + 8) name.
    store_next 24 4%nat (memory + 12) kMessageExpectsResponse. store_next 24 8%nat (memory + 16) 0.
    wp_step. built_at_done.
  - assert (Hws : Forall (word_ok m1) [(4%nat, memory, 24)]) by (repeat constructor; done).
    store_next 24 4%nat (memory + 4) 1. store_next 24 4%nat (memory + 8) name.
    store_next 24 4%nat (memory + 12) kMessageIsResponse. store_next 24 8%nat (memory + 16) request_id.
    wp_step. built_at_done.
Qed.
End Builders.

(** C35: The three message builders make messages of their kind: on fresh 8-aligned
    memory that can hold it, the header carries the name and, in requests that
    expect a response and in responses, the request id; the C++ and the C validator of
    headers accept it, and the validator of that kind accepts it; the payload follows the
    header, zeroed, and is what the buffer has left to allocate; no other memory
    is written and no assertion fails. *)
Theorem builders_make_valid_messages debug k memory name size request m b0
    (Hmem : 0 < memory) (Hal : IsAligned memory = true) (Hname : 0 <= name < 2 ^ 32)
    (Hid : 0 <= request < 2 ^ 64) (Hsize : 0 <= size)
    (Hr : round8 (header_size k + size) < 2 ^ 32)
    (Hhi : memory + round8 (header_size k + size) < 2 ^ 64) :
  exists msg m' b, build debug k memory name size request (m, b0) = Ok (msg, (m', b)) /\
    MessageHeaderValidator_Validate debug m' msg = Ok NONE /\
    MojomMessage_ValidateHeader m' (data_ msg) (data_num_bytes_ msg) = Ok MOJOM_VALIDATION_ERROR_NONE /\
    ValidateMessageKind m' k msg = Ok NONE /\ header_name m' msg = Ok name /\
    (k <> Request -> request_id debug m' msg = Ok (built_request_id k request)) /\
    payload m' msg = Ok (ptr_ b + cursor_ b) /\
    payload_num_bytes debug m' msg = Ok (size_ b - cursor_ b) /\ size <= size_ b - cursor_ b /\
    (forall a, ptr_ b + cursor_ b <= a < ptr_ b + size_ b -> m' !! a = Some Byte.x00) /\
    agree (fun a => a < memory \/ memory + size_ b <= a) m m'.
Proof.
  pose proof (build_spec debug memory name size request m b0 Hname Hid Hsize k Hr Hhi) as H.
  apply wp_run in H as (msg & [m' b] & Hrun & -> & Hb & Hnb & Hv & Hnm & Hfl & Hrid & Hz & Hmap & Hag).
  cbn [fst snd] in *. subst b. pose proof (round8_bounds (header_size k + size)) as Hb8.
  assert (Hh : 16 <= header_size k) by (by destruct k).
  set (n := round8 (header_size k + size)) in *.
  set (msg := {| data_ := memory; data_num_bytes_ := n; handles_ := [] |}) in *.
  exists msg, m', {| ptr_ := memory; cursor_ := header_size k; size_ := n |}.
  split; [exact Hrun|]. cbn [ptr_ cursor_ size_].
  destruct (MessageHeaderValidator_returns debug m' msg) as (e & r & He & HC & Her);
    [exact Hmap|simpl; lia|simpl; lia|exact Hhi|].
  change (data_ msg) with memory in *. rewrite Hal in Her.
  destruct (ValidateHeader_words m' memory n (header_size k) (if decide (k = Request) then 0 else 1)
    (built_flags k) Hnb Hv Hfl) as (r' & HC' & Hiff); [by destruct k|lia|].
  assert (Hr0 : r' = MOJOM_VALIDATION_ERROR_NONE).
  { apply Hiff. split; [lia|]. destruct k; simpl; [by left|by right; left; split; eauto..]. }
  simpl in HC. rewrite HC' in HC. injection HC as <-. rewrite Hr0 in Her.
  split_and!.
  - rewrite He. by destruct e.
  - rewrite <- Hr0. exact HC'.
  - rewrite (ValidateMessageKind_spec m' k msg _ Hfl). by destruct k.
  - exact Hnm.
  - intros Hk. unfold request_id, has_request_id, header_version, mbind, outcome_bind, mret, outcome_ret.
    simpl. rewrite Hv. destruct (decide (k = Request)); [done|]. simpl. rewrite andb_false_r. by apply Hrid.
  - unfold payload, header_num_bytes, mbind, outcome_bind, mret, outcome_ret. simpl. rewrite Hnb.
    f_equal. apply wrap64_small. lia.
  - unfold payload_num_bytes, header_num_bytes, mbind, outcome_bind, mret, outcome_ret. simpl. rewrite Hnb.
    destruct (Z.ltb_spec n (header_size k)); [lia|]. rewrite andb_false_r. f_equal.
    apply wrap32_small. lia.
  - lia.
  - exact Hz.
  - exact Hag.
Qed.
