(* ===== verification/SerializationExamples.v ===== *)
(** Concrete runs of the C++ data path. *)
From stdpp Require Import base numbers list option gmap sorting.
From coqutil Require Import Byte.
From Stdlib Require Import ZArith Lia.
From S2P Require Import Prelude CMem Buffer Descriptor Validate Samples Message.
From S2P Require Import Serialization SerializationFacts.

Definition free_buffer : MojomBuffer := {| buf := 4096; buf_size := 64; num_bytes_used := 8 |}.

Lemma FixedBuffer_matches_witness :
  FixedBuffer_Allocate false 20 (of_mojom free_buffer) =
    Ok (4104, {| ptr_ := 4096; cursor_ := 32; size_ := 64 |}).
Proof.
  destruct (FixedBuffer_matches_MojomBuffer free_buffer 20) as (p & b' & HC & H & _);
    [by repeat split|done|].
  vm_compute in HC. injection HC as <- <-. exact H.
Defined.

(** Two ranges that overlap, and a handle twice. *)
Definition sample_claims : list claim :=
  [Memory 4096 16; HandleIndex 0; Memory 4104 16; HandleIndex 0; Memory 4112 8; HandleIndex 2].

Lemma claims_disjoint_witness :
  exists b granted b', BoundsChecker_new true 4096 32 3 = Ok b /\
    claim_all sample_claims b = Ok (granted, b') /\
    StronglySorted block_before (memory_claims granted) /\ StronglySorted Z.lt (handle_claims granted).
Proof.
  destruct (claims_disjoint true 4096 32 3 sample_claims) as (b & granted & b' & Hb & Hg & H1 & _ & H2 & _);
    [lia|lia|repeat constructor; lia|].
  exact (ex_intro _ b (ex_intro _ granted (ex_intro _ b' (conj Hb (conj Hg (conj H1 H2)))))).
Defined.

(** A request expecting a response: version 1, 24 bytes, ordinal 7, request 5. *)
Definition request_words : list Z := [24; 1; 7; 1; 5; 0].
Definition request_message : Serialization.Message :=
  {| data_ := 4096; data_num_bytes_ := 24; handles_ := [] |}.

Lemma request_words_mapped : mapped (mem_of 4096 request_words) 4096 (4096 + 24).
Proof. apply (mem_of_mapped 4096 request_words). Qed.

Lemma header_validators_agree_witness :
  MessageHeaderValidator_Validate true (mem_of 4096 request_words) request_message = Ok NONE.
Proof.
  destruct (header_validators_agree true (mem_of 4096 request_words) request_message)
    as (e & r & He & HC & Hr); [exact request_words_mapped|done|done|done|].
  vm_compute in HC. injection HC as <-. rewrite He. by destruct e.
Defined.

Lemma kind_validators_agree_witness :
  ValidateMessageKind (mem_of 4096 request_words) Response request_message =
    Ok MESSAGE_HEADER_INVALID_FLAGS.
Proof.
  destruct (kind_validators_agree (mem_of 4096 request_words) request_message Response)
    as (e & He & HC); [exact request_words_mapped|by vm_compute|].
  vm_compute in HC. rewrite He. by destruct e.
Defined.

Lemma pointer_roundtrip_witness :
  exists m', EncodePointer true 4120 4096 (mem_of 4096 request_words, [] : list Z) = Ok (tt, (m', [])) /\
    DecodePointerRaw 4096 (m', [] : list Z) = Ok (4120, (m', [])).
Proof.
  destruct (pointer_roundtrip true (mem_of 4096 request_words) 4120 4096 4096 []) as (m' & H & _ & Hd);
    [lia|lia|lia|intros _; right; lia| |].
  { eapply mapped_weaken; [exact request_words_mapped|lia..]. }
  exact (ex_intro _ m' (conj H (Hd m' [] (fun _ _ => eq_refl)))).
Defined.

(** An array of three handles, the second invalid. *)
Definition handle_words : list Z := [24; 3; 7; 0; 9].

Lemma handles_roundtrip_witness :
  exists m1 m3, EncodeHandles 5 4096 4104 (mem_of 4096 handle_words, []) = Ok (tt, (m1, [7; 9])) /\
    DecodeHandles true 5 4096 4104 (m1, [7; 9]) = Ok (tt, (m3, [0; 0])) /\
    words_at m3 4104 [7; 0; 9].
Proof.
  destruct (handles_roundtrip true [7; 0; 9] 5 (mem_of 4096 handle_words) 4096 4104 4096 4104)
    as (m1 & H & Hag & Hd); [done|by repeat constructor|by left|by left| |by vm_compute|simpl; lia|].
  { intros i v Hi. destruct i as [|[|[|i]]]; simplify_eq/=; by vm_compute. }
  destruct (Hd m1) as (m3 & Hd1 & Hd2 & _); [|done|].
  { rewrite <- (load_agree (mem_of 4096 handle_words)); [by vm_compute|].
    eapply agree_weaken; [exact Hag|]. unfold outside_elements, range. simpl. lia. }
  exact (ex_intro _ m1 (ex_intro _ m3 (conj H (conj Hd1 Hd2)))).
Defined.

Lemma builders_make_valid_messages_witness :
  exists msg m' b, build true Response 4096 7 12 5 (∅, FixedBuffer_new) = Ok (msg, (m', b)) /\
    MessageHeaderValidator_Validate true m' msg = Ok NONE /\
    MojomMessage_ValidateHeader m' (data_ msg) (data_num_bytes_ msg) = Ok MOJOM_VALIDATION_ERROR_NONE /\
    request_id true m' msg = Ok 5.
Proof.
  destruct (builders_make_valid_messages true Response 4096 7 12 5 ∅ FixedBuffer_new)
    as (msg & m' & b & H & Hv & Hc & _ & _ & Hid & _); [lia|done|lia|lia|lia|by vm_compute|by vm_compute|].
  exact (ex_intro _ msg (ex_intro _ m' (ex_intro _ b (conj H (conj Hv (conj Hc (Hid ltac:(done)))))))).
Defined.
