(* ===== verification/ControlMessages.v ===== *)
(** The control messages of every interface (src/interfaces/bindings/interface_control_messages.mojom):
    the proxy that asks for the version of the other side or requires one
    (src/cpp/bindings/lib/control_message_proxy.cc), and the handler that answers
    (control_message_handler.cc). *)
From stdpp Require Import base numbers list option gmap.
From coqutil Require Import Byte.
From Stdlib Require Import ZArith Lia.
From S2P Require Import Prelude CMem Buffer Descriptor Validate Message Serialization.

(** * The structs of interface_control_messages.mojom

    A pointer to a struct is an option; [QueryVersion] has no fields. *)
Record RunMessageParams := {
  run_reserved0 : Z;
  run_reserved1 : Z;
  query_version : option unit;
}.
Record QueryVersionResult := { result_version : Z }.
Record RunResponseMessageParams := {
  response_reserved0 : Z;
  response_reserved1 : Z;
  query_version_result : option QueryVersionResult;
}.
Record RequireVersion := { required_version : Z }.
Record RunOrClosePipeMessageParams := {
  close_reserved0 : Z;
  close_reserved1 : Z;
  require_version : option RequireVersion;
}.

(** ** Generated code for a struct

    [Serialize_] gives the address of the struct in the buffer; the struct is then
    encoded in place. *)
Class Generated (P : Type) := {
  GetSerializedSize_ : P -> Z;
  Serialize_ : P -> M (mem * FixedBuffer) (ValidationError * Z);
  EncodePointersAndHandles : Z -> M (mem * list Z) unit;
  DecodePointersAndHandles : Z -> M (mem * list Z) unit;
  Deserialize_ : Z -> M mem P;
}.

(** Code on the memory that also uses a buffer, or the handles of a message. *)
Definition with_state {X A} (x : X) (c : M (mem * X) A) : M mem (A * X) := fun m =>
  '(a, (m', x')) ← c (m, x); mret ((a, x'), m').

Section ControlMessages.
Context (debug : bool).

(** What the functions that make a message do: on fresh memory at [memory], a builder
    of its kind, the parameters in its buffer, encoded; the message has the handles. *)
Definition fill {P} `{Generated P} (params : P) (message : Message) (buffer : FixedBuffer) : M mem Message :=
  '((result, params_data), _) ← with_state buffer (Serialize_ params);
  MOJO_DCHECK debug (bool_decide (result = NONE));;
  '(_, handles) ← with_state (handles_ message) (EncodePointersAndHandles params_data);
  mret {| data_ := data_ message; data_num_bytes_ := data_num_bytes_ message; handles_ := handles |}.

(** * control_message_proxy.cc *)

Section Proxy.
Context `{Generated RunMessageParams, Generated RunOrClosePipeMessageParams}.

(** The message of [SendRunMessage]. *)
Definition run_message (memory : Z) (query : option unit) : M mem Message :=
  let params := {| run_reserved0 := 16; run_reserved1 := 0; query_version := query |} in
  let size := GetSerializedSize_ params in
  '(message, buffer) ← with_state FixedBuffer_new (RequestMessageBuilder_new debug memory kRunMessageId size);
  fill params message buffer.

(** The message of [SendRunOrClosePipeMessage]. *)
Definition run_or_close_pipe_message (memory : Z) (require : option RequireVersion) : M mem Message :=
  let params := {| close_reserved0 := 16; close_reserved1 := 0; require_version := require |} in
  let size := GetSerializedSize_ params in
  '(message, buffer) ← with_state FixedBuffer_new (MessageBuilder_new debug memory kRunOrClosePipeMessageId size);
  fill params message buffer.

(** ** Sending

    [receiver_] accepts a message, with a responder or without. A responder is made of
    the callback that it runs; one that is not accepted is deleted. *)
Section Send.
Context {S R : Type} (on_memory : M mem Message -> M S Message).
Context (receiver_Accept : Message -> M S bool) (receiver_AcceptWithResponder : Message -> R -> M S bool).
Context (new_responder : M S R) (delete_responder : R -> M S unit).

Definition SendRunMessage (memory : Z) (query : option unit) : M S unit :=
  message ← on_memory (run_message memory query);
  responder ← new_responder;
  ok ← receiver_AcceptWithResponder message responder;
  if (ok : bool) then mret tt else delete_responder responder.

Definition SendRunOrClosePipeMessage (memory : Z) (require : option RequireVersion) : M S unit :=
  message ← on_memory (run_or_close_pipe_message memory require);
  receiver_Accept message;;
  mret tt.

Definition ControlMessageProxy_QueryVersion (memory : Z) : M S unit := SendRunMessage memory (Some tt).
Definition ControlMessageProxy_RequireVersion (memory version : Z) : M S unit :=
  SendRunOrClosePipeMessage memory (Some {| required_version := version |}).
End Send.
End Proxy.

(** The callback of [QueryVersion] is given the version in the result; it looks through
    the pointer. *)
Definition run_callback {S A} (callback : Z -> M S A) (result : option QueryVersionResult) : M S A :=
  r ← lift (of_option result); callback (result_version r).

(** What [RunResponseForwardToCallback::Accept] reads from the response. *)
Definition response_params `{Generated RunResponseMessageParams} (message : Message) : M mem (option QueryVersionResult) :=
  params ← (fun m => p ← payload m message; mret (p, m));
  with_state (handles_ message) (DecodePointersAndHandles params);;
  params_ptr ← Deserialize_ params;
  mret (query_version_result params_ptr).
Definition RunResponseForwardToCallback_Accept `{Generated RunResponseMessageParams} {A} (callback : Z -> M mem A)
    (message : Message) : M mem bool :=
  result ← response_params message;
  run_callback callback result;;
  mret true.

(** * control_message_handler.cc *)

Section Handler.
Context `{Generated RunResponseMessageParams, Generated RunOrClosePipeMessageParams}.
Context (interface_version_ : Z).

Definition in_message {A} (f : mem -> outcome A) : M mem A := fun m => a ← f m; mret (a, m).

(** The message that [Run] sends; [memory] is where its data is allocated. *)
Definition run_response (memory : Z) (message : Message) : M mem Message :=
  let params := {| response_reserved0 := 16; response_reserved1 := 0;
                   query_version_result := Some {| result_version := interface_version_ |} |} in
  let size := GetSerializedSize_ params in
  id ← in_message (fun m => request_id debug m message);
  '(response, buffer) ← with_state FixedBuffer_new (ResponseMessageBuilder_new debug memory kRunMessageId size id);
  fill params response buffer.

(** [responder_Accept] is [Accept] of the responder, which is deleted then. *)
Definition ControlMessageHandler_Run (responder_Accept : Message -> M mem bool) (delete_responder : M mem unit)
    (memory : Z) (message : Message) : M mem bool :=
  response ← run_response memory message;
  responder_Accept response;;
  delete_responder;;
  mret true.

Definition RunOrClosePipe (message : Message) : M mem bool :=
  params ← in_message (fun m => payload m message);
  with_state (handles_ message) (DecodePointersAndHandles params);;
  params_ptr ← Deserialize_ params;
  require ← lift (of_option (require_version params_ptr));
  mret (interface_version_ >=? required_version require).

Definition ControlMessageHandler_Accept (message : Message) : M mem bool :=
  name ← in_message (fun m => header_name m message);
  if name =? kRunOrClosePipeMessageId then RunOrClosePipe message
  else MOJO_DCHECK debug false;; mret false.

Definition ControlMessageHandler_AcceptWithResponder (responder_Accept : Message -> M mem bool)
    (delete_responder : M mem unit) (memory : Z) (message : Message) : M mem bool :=
  name ← in_message (fun m => header_name m message);
  if name =? kRunMessageId then ControlMessageHandler_Run responder_Accept delete_responder memory message
  else MOJO_DCHECK debug false;; mret false.
End Handler.
End ControlMessages.
