(* ===== verification/ControlMessagesFacts.v ===== *)
(** The control messages do what they are for: the version that one side asks for is the
    one that the other side has, and a version that is required is refused exactly when
    the other side does not have it. *)
From stdpp Require Import base numbers list option gmap.
From coqutil Require Import Byte.
From Stdlib Require Import ZArith Lia.
From S2P Require Import Prelude CMem Buffer Descriptor Validate Message Serialization SerializationFacts.
From S2P Require Import ControlMessages.

(** * What generated code promises

    [good]: values that fit the struct; [wire p bs]: the bytes [bs] are [p] on the wire.
    What is serialized is on the wire, and what is on the wire is deserialized, at
    whatever address. *)
Class GeneratedLaws (P : Type) `{Generated P} (good : P -> Prop) (wire : P -> list byte -> Prop) := {
  size_law p : good p -> 0 <= GetSerializedSize_ p < 2 ^ 31;
  serialize_law p m b : good p ->
    0 < ptr_ b -> 0 <= cursor_ b -> IsAligned (ptr_ b + cursor_ b) = true -> ptr_ b + size_ b < 2 ^ 64 ->
    GetSerializedSize_ p <= size_ b - cursor_ b ->
    (forall a, ptr_ b + cursor_ b <= a < ptr_ b + size_ b -> m !! a = Some Byte.x00) ->
    exists m' b' m2 bs,
      Serialize_ p (m, b) = Ok ((NONE, ptr_ b + cursor_ b), (m', b')) /\
      EncodePointersAndHandles (ptr_ b + cursor_ b) (m', []) = Ok (tt, (m2, [])) /\
      agree (fun a => a < ptr_ b + cursor_ b \/ ptr_ b + size_ b <= a) m m2 /\
      load_bytes m2 (ptr_ b + cursor_ b) (Z.to_nat (GetSerializedSize_ p)) = Some bs /\ wire p bs;
  deserialize_law p m a bs : good p -> 0 < a -> IsAligned a = true -> a + GetSerializedSize_ p < 2 ^ 64 ->
    load_bytes m a (Z.to_nat (GetSerializedSize_ p)) = Some bs -> wire p bs ->
    exists m' m2, DecodePointersAndHandles a (m, []) = Ok (tt, (m', [])) /\ Deserialize_ a m' = Ok (p, m2);
}.

(** * A message with parameters *)

Section Carries.
Context {P : Type} `{GeneratedLaws P good wire}.

(** The message [msg] in the memory [m] has a header of kind [k] and carries [p]. *)
Record carries (k : message_kind) (name id : Z) (p : P) (m : mem) (msg : Serialization.Message) : Prop := {
  carries_size : load32 m (data_ msg) = Ok (header_size k);
  carries_version : load32 m (data_ msg + 4) = Ok (if decide (k = Request) then 0 else 1);
  carries_name : load32 m (data_ msg + 8) = Ok name;
  carries_flags : load32 m (data_ msg + 12) = Ok (built_flags k);
  carries_id : k <> Request -> load64 m (data_ msg + 16) = Ok id;
  carries_wire : exists bs,
    load_bytes m (data_ msg + header_size k) (Z.to_nat (GetSerializedSize_ p)) = Some bs /\ wire p bs;
  carries_room : header_size k + GetSerializedSize_ p <= data_num_bytes_ msg;
  carries_range : 0 < data_ msg /\ data_ msg + data_num_bytes_ msg < 2 ^ 64;
  carries_aligned : IsAligned (data_ msg) = true;
  carries_handles : handles_ msg = [];
}.

(** Messages in transit: the same bytes at another aligned address. *)
Record received (m : mem) (msg : Serialization.Message) (m' : mem) (msg' : Serialization.Message) : Prop := {
  received_size : data_num_bytes_ msg' = data_num_bytes_ msg;
  received_bytes : forall i, 0 <= i < data_num_bytes_ msg -> m' !! (data_ msg' + i) = m !! (data_ msg + i);
  received_handles : handles_ msg' = handles_ msg;
  received_range : 0 < data_ msg' /\ data_ msg' + data_num_bytes_ msg' < 2 ^ 64;
  received_aligned : IsAligned (data_ msg') = true;
}.

(** A message that stays where it is. *)
Definition deliverable (msg : Serialization.Message) : Prop :=
  0 < data_ msg /\ data_ msg + data_num_bytes_ msg < 2 ^ 64 /\ IsAligned (data_ msg) = true.
Lemma received_same m msg : deliverable msg -> received m msg m msg.
Proof. by intros (? & ? & ?). Qed.
Lemma carries_deliverable k name id p m msg : carries k name id p m msg -> deliverable msg.
Proof. by intros [? ? ? ? ? ? ? [? ?] ? ?]. Qed.

Lemma IsAligned_add a n : IsAligned a = true -> n mod 8 = 0 -> IsAligned (a + n) = true.
Proof. unfold IsAligned, kAlignment. rewrite !Z.eqb_eq. intros. lia. Qed.

Lemma header_size_ok k : header_size k mod 8 = 0 /\ 16 <= header_size k <= 24 /\ (k <> Request -> header_size k = 24).
Proof. by destruct k. Qed.

(** Loads of the same bytes at two addresses. *)
Lemma load_bytes_moved m m' a a' n :
  (forall i, 0 <= i < Z.of_nat n -> m' !! (a' + i) = m !! (a + i)) -> load_bytes m' a' n = load_bytes m a n.
Proof.
  revert a a'. induction n as [|n IH]; intros a a' Hb; [done|]. simpl.
  pose proof (Hb 0 ltac:(lia)) as Hb0. rewrite !Z.add_0_r in Hb0. rewrite Hb0.
  rewrite (IH (a + 1) (a' + 1)); [done|]. intros i Hi. rewrite <- !Z.add_assoc. apply Hb. lia.
Qed.

Lemma carries_received k name id p m msg m' msg' :
  good p -> carries k name id p m msg -> received m msg m' msg' -> carries k name id p m' msg'.
Proof.
  intros Hp [] []. destruct (header_size_ok k) as (_ & Hk & Hk'). pose proof (size_law p Hp) as Hn.
  assert (Hmv : forall i n, 0 <= i -> i + Z.of_nat n <= data_num_bytes_ msg ->
    load_bytes m' (data_ msg' + i) n = load_bytes m (data_ msg + i) n).
  { intros i n Hi Hin. apply load_bytes_moved. intros j Hj. rewrite <- !Z.add_assoc. apply received_bytes0. lia. }
  assert (Hl : forall i n, 0 <= i -> i + Z.of_nat n <= data_num_bytes_ msg ->
    load n m' (data_ msg' + i) = load n m (data_ msg + i)).
  { intros i n Hi Hin. unfold load. by rewrite Hmv. }
  split; rewrite ?Hl, ?Hmv by lia; try done.
  - specialize (Hl 0 4%nat). rewrite !Z.add_0_r in Hl. rewrite Hl by lia. done.
  - intros Hr. specialize (Hk' Hr). rewrite Hl by lia. auto.
  - by rewrite received_size0.
  - by rewrite received_handles0.
Qed.

(** ** Making one *)

Lemma with_state_run {X A} (x x' : X) (c : M (mem * X) A) a m m' :
  c (m, x) = Ok (a, (m', x')) -> with_state x c m = Ok ((a, x'), m').
Proof. intros Hc. unfold with_state. by rewrite Hc. Qed.

Lemma build_carries debug k memory name request p m b0 :
  good p -> 0 < memory -> IsAligned memory = true -> memory < 2 ^ 63 -> 0 <= name < 2 ^ 32 -> 0 <= request < 2 ^ 64 ->
  exists msg m', ('(message, buffer) ← with_state b0 (build debug k memory name (GetSerializedSize_ p) request);
                  fill debug p message buffer) m = Ok (msg, m') /\
    carries k name (built_request_id k request) p m' msg.
Proof.
  intros Hp Hmem Hal Hhi Hname Hreq. pose proof (size_law p Hp) as Hn.
  destruct (header_size_ok k) as (Hk8 & Hk & Hk'). pose proof (round8_bounds (header_size k + GetSerializedSize_ p)) as Hr.
  set (n := round8 (header_size k + GetSerializedSize_ p)) in *.
  pose proof (build_spec debug memory name (GetSerializedSize_ p) request m b0 Hname Hreq ltac:(lia) k
    ltac:(fold n; lia) ltac:(fold n; lia)) as Hb.
  apply wp_run in Hb as (msg & [m1 b] & Hrun & -> & Hb & Hb0 & H4 & H8 & H12 & Hid & Hz & Hmap & Hag).
  cbn [fst snd] in *. fold n in Hz, Hmap. subst b. fold n in Hrun.
  pose proof (with_state_run _ _ _ _ _ _ Hrun) as Hws. rewrite (run_bind _ _ _ _ _ Hws). cbn beta iota.
  set (b := {| ptr_ := memory; cursor_ := header_size k; size_ := n |}).
  destruct (serialize_law p m1 b) as (m2 & b2 & m3 & bs & Hs & He & Hag3 & Hbs & Hw);
    [done|done|unfold b; cbn; lia|by apply IsAligned_add|unfold b; cbn; lia|unfold b; cbn; lia|exact Hz|].
  cbn [ptr_ cursor_ size_ b] in *. unfold fill.
  rewrite (run_bind _ _ _ _ _ (with_state_run _ _ _ _ _ _ Hs)). cbn beta iota.
  assert (Hd : MOJO_DCHECK debug (bool_decide (NONE = NONE)) m2 = Ok (tt, m2)) by (by destruct debug).
  rewrite (run_bind _ _ _ _ _ Hd). cbn [handles_].
  rewrite (run_bind _ _ _ _ _ (with_state_run _ _ _ _ _ _ He)). cbn beta iota. eexists _, m3. split; [reflexivity|].
  assert (Hl : forall i j, 0 <= i -> i + Z.of_nat j <= header_size k -> load j m3 (memory + i) = load j m1 (memory + i)).
  { intros i j Hi Hij. symmetry. apply load_agree. eapply agree_weaken; [exact Hag3|]. unfold range. lia. }
  split; cbn [data_ data_num_bytes_ handles_]; rewrite ?Hl by lia; try done.
  - specialize (Hl 0 4%nat). rewrite !Z.add_0_r in Hl. rewrite Hl by lia. done.
  - intros Hr0. specialize (Hk' Hr0). rewrite Hl by lia. auto.
  - eauto.
  - fold n. lia.
  - fold n. lia.
Qed.

(** ** Reading one *)

Lemma carries_payload k name id p m msg :
  good p -> carries k name id p m msg -> payload m msg = Ok (data_ msg + header_size k).
Proof.
  intros Hp []. destruct (header_size_ok k) as (_ & Hk & _). pose proof (size_law p Hp).
  unfold payload, header_num_bytes. rewrite carries_size0. cbn. f_equal. apply wrap64_small. lia.
Qed.

(** What both readers do first. *)
Lemma carries_decoded k name id p m msg :
  good p -> carries k name id p m msg ->
  exists m1 m2, with_state (handles_ msg) (DecodePointersAndHandles (data_ msg + header_size k)) m = Ok ((tt, []), m1) /\
    Deserialize_ (data_ msg + header_size k) m1 = Ok (p, m2).
Proof.
  intros Hp Hc. pose proof Hc as []. destruct (header_size_ok k) as (Hk8 & Hk & _). pose proof (size_law p Hp).
  destruct carries_wire0 as (bs & Hbs & Hw).
  destruct (deserialize_law p m (data_ msg + header_size k) bs) as (m1 & m2 & Hd & Hs);
    [done|lia|by apply IsAligned_add|lia|done|done|].
  exists m1, m2. split; [|done]. apply with_state_run. by rewrite carries_handles0.
Qed.

Lemma carries_request_id debug k name id p m msg :
  k <> Request -> carries k name id p m msg -> request_id debug m msg = Ok id.
Proof.
  intros Hk []. unfold request_id, has_request_id, header_version. rewrite carries_version0, decide_False by done.
  cbn. rewrite andb_false_r. auto.
Qed.

Lemma carries_control k name id p m msg :
  carries k name id p m msg -> IsControlMessage m msg = Ok (has_flag name 0x80000000).
Proof. intros []. unfold IsControlMessage, header_name. by rewrite carries_name0. Qed.

(** The router gives a request its id. *)
Lemma carries_with_id name id id' p m msg m' :
  good p -> 0 <= id' < 2 ^ 64 -> carries RequestExpectingResponse name id p m msg ->
  store64 m (data_ msg + 16) id' = Ok m' -> carries RequestExpectingResponse name id' p m' msg.
Proof.
  intros Hp Hid [] Hs. pose proof (size_law p Hp). cbn [header_size sizeof_MessageHeaderWithRequestID] in *.
  unfold sizeof_MessageHeaderWithRequestID in *.
  split; try done; rewrite ?(load_other _ _ _ _ _ _ _ Hs) by lia; try done.
  - intros _. rewrite (load_store _ _ _ _ _ Hs). f_equal. apply Z.mod_small. simpl. lia.
  - destruct carries_wire0 as (bs & Hbs & Hw). exists bs. split; [|done]. rewrite <- Hbs. symmetry.
    apply load_bytes_agree. eapply store_agree; [exact Hs|]. unfold range, header_size, sizeof_MessageHeaderWithRequestID. lia.
Qed.
End Carries.
