(* ===== verification/Handles.v ===== *)
(** Who owns handles: scoped handles (src/cpp/system/handle.h), the functions that create
    objects of the system (message_pipe.h, data_pipe.h, buffer.h), messages
    (src/cpp/bindings/message.h and lib/message.cc), what the connector does to the handles
    of a message that it writes, and the synchronous connector
    (lib/synchronous_connector.cc). *)
From stdpp Require Import base numbers list option gmap sets.
From Stdlib Require Import ZArith Lia.
From S2P Require Import Prelude Result Buffer Validate Serialization.

(** * State *)

(** An object that may own handles, at an address: a [ScopedHandleBase], or a [Message]
    with its block of memory. *)
Abbreviation var := nat.
Inductive object :=
  | Scoped (handle_ : Z)
  | Msg (message : Message).

Definition is_valid (h : Z) : bool := negb (h =? MOJO_HANDLE_INVALID).

(** What the system answers, in the order it is asked: new handles, a refusal, how a write
    or a wait went, the sizes of the next message, and the handles in it. *)
Inductive sys_answer :=
  | NewHandles (hs : list Z)
  | Refused (result : MojoResult)
  | MessageWritten (result : MojoResult)
  | WaitDone (result : MojoResult)
  | NextMessage (result : MojoResult) (num_bytes : Z) (num_handles : nat)
  | MessageRead (result : MojoResult) (num_bytes num_handles : Z) (hs : list Z).

(** What happens to handles, for the record: they come into the hands of these objects,
    leave them, are closed, or are closed although they are not open. *)
Inductive event :=
  | Took (h : Z)
  | Gave (h : Z)
  | Closed (h : Z)
  | StrayClose (h : Z).

(** The handles of the process that are open; the objects; the blocks of memory that are
    allocated; the answers to come; the events so far, the last one first. *)
Record process := {
  open_handles : gset Z;
  objects : gmap var object;
  next_var : var;
  blocks : gset Z;
  next_block : Z;
  answers : list sys_answer;
  trace : list event;
}.
Definition new_process (hs : gset Z) (l : list sys_answer) : process :=
  {| open_handles := hs; objects := ∅; next_var := 1; blocks := ∅; next_block := 1; answers := l; trace := [] |}.

Definition set_open (x : gset Z) (w : process) : process :=
  {| open_handles := x; objects := objects w; next_var := next_var w; blocks := blocks w;
     next_block := next_block w; answers := answers w; trace := trace w |}.
Definition set_objects (x : gmap var object) (w : process) : process :=
  {| open_handles := open_handles w; objects := x; next_var := next_var w; blocks := blocks w;
     next_block := next_block w; answers := answers w; trace := trace w |}.
Definition set_blocks (x : gset Z) (n : Z) (w : process) : process :=
  {| open_handles := open_handles w; objects := objects w; next_var := next_var w; blocks := x;
     next_block := n; answers := answers w; trace := trace w |}.
Definition set_answers (x : list sys_answer) (w : process) : process :=
  {| open_handles := open_handles w; objects := objects w; next_var := next_var w; blocks := blocks w;
     next_block := next_block w; answers := x; trace := trace w |}.
Definition note (e : event) : M process unit := modify (fun w =>
  {| open_handles := open_handles w; objects := objects w; next_var := next_var w; blocks := blocks w;
     next_block := next_block w; answers := answers w; trace := e :: trace w |}).
Definition notes (f : Z -> event) (hs : list Z) : M process unit :=
  for_each (R := False) hs (fun h => note (f h);; mret None);; mret tt.

(** Access to an object that is gone is undefined. *)
Definition object_at (x : var) : M process object :=
  w ← get; match objects w !! x with Some o => mret o | None => lift Fault end.
Definition get_handle (x : var) : M process Z :=
  o ← object_at x; match o with Scoped h => mret h | Msg _ => lift Fault end.
Definition set_handle (x : var) (h : Z) : M process unit :=
  get_handle x;; modify (fun w => set_objects (<[x := Scoped h]> (objects w)) w).
Definition get_message (x : var) : M process Message :=
  o ← object_at x; match o with Msg m => mret m | Scoped _ => lift Fault end.
Definition set_message (x : var) (m : Message) : M process unit :=
  get_message x;; modify (fun w => set_objects (<[x := Msg m]> (objects w)) w).
Definition new_object (o : object) : M process var :=
  w ← get;
  put {| open_handles := open_handles w; objects := <[next_var w := o]> (objects w); next_var := S (next_var w);
         blocks := blocks w; next_block := next_block w; answers := answers w; trace := trace w |};;
  mret (next_var w).
Definition delete_object (x : var) : M process unit :=
  object_at x;; modify (fun w => set_objects (delete x (objects w)) w).

(** * The system

    A run for which the answers run out, or do not fit the question, stops. *)
Definition next_answer : M process sys_answer :=
  w ← get;
  match answers w with
  | a :: l => put (set_answers l w);; mret a
  | [] => lift OutOfFuel
  end.

Definition MojoClose (h : Z) : M process MojoResult :=
  w ← get;
  if decide (h ∈ open_handles w) then
    modify (set_open (open_handles w ∖ {[h]}));; note (Closed h);; mret MOJO_RESULT_OK
  else note (StrayClose h);; mret MOJO_SYSTEM_RESULT_INVALID_ARGUMENT.

(** New handles are valid, and none of them is open. *)
Definition open_new (hs : list Z) : M process unit :=
  w ← get;
  if decide (NoDup hs /\ Forall (fun h => is_valid h = true /\ h ∉ open_handles w) hs) then
    modify (set_open (list_to_set hs ∪ open_handles w))
  else lift OutOfFuel.

(** A call that creates [n] handles, or fails and sets none. *)
Definition create_handles (n : nat) : M process (MojoResult * list Z) :=
  a ← next_answer;
  match a with
  | NewHandles hs =>
      if (length hs =? n)%nat then open_new hs;; mret (MOJO_RESULT_OK, hs) else lift OutOfFuel
  | Refused r =>
      if r =? MOJO_RESULT_OK then lift OutOfFuel else mret (r, replicate n MOJO_HANDLE_INVALID)
  | _ => lift OutOfFuel
  end.

(** Replaces an open handle by another; on failure the handle stays. *)
Definition MojoReplaceHandleWithReducedRights (h : Z) : M process (MojoResult * Z) :=
  '(r, hs) ← create_handles 1;
  notes Took (if r =? MOJO_RESULT_OK then hs else []);;
  if r =? MOJO_RESULT_OK then
    modify (fun w => set_open (open_handles w ∖ {[h]}) w);; note (Gave h);; mret (r, nth 0 hs 0)
  else mret (r, nth 0 hs 0).

(** Handles that are sent are no longer the sender's. *)
Definition MojoWriteMessage (hs : list Z) : M process MojoResult :=
  a ← next_answer;
  match a with
  | MessageWritten r =>
      if r =? MOJO_RESULT_OK then
        w ← get;
        if decide (NoDup hs /\ Forall (fun h => h ∈ open_handles w) hs) then
          modify (set_open (open_handles w ∖ list_to_set hs));; notes Gave hs;; mret r
        else lift OutOfFuel
      else mret r
  | _ => lift OutOfFuel
  end.

(** * Scoped handles *)

Section Code.
(** Whether assertions are compiled in. *)
Context (debug : bool).
Definition c_assert (b : bool) : M process unit := MOJO_DCHECK debug b.

Definition CloseIfNecessary (x : var) : M process unit :=
  h ← get_handle x;
  if negb (is_valid h) then mret tt
  else
    result ← MojoClose h;
    c_assert (result =? MOJO_RESULT_OK).

Definition ScopedHandle_new (h : Z) : M process var := new_object (Scoped h).
Definition ScopedHandle_destructor (x : var) : M process unit := CloseIfNecessary x;; delete_object x.

Definition release (x : var) : M process Z :=
  h ← get_handle x;
  set_handle x MOJO_HANDLE_INVALID;;
  mret h.

Definition ScopedHandle_move (other : var) : M process var := h ← release other; ScopedHandle_new h.

Definition ScopedHandle_assign (x other : var) : M process unit :=
  if (other =? x)%nat then mret tt
  else
    CloseIfNecessary x;;
    h ← release other;
    set_handle x h.

(** [Handle::swap], through a temporary. *)
Definition swap (x other : var) : M process unit :=
  temp ← get_handle x;
  value ← get_handle other;
  set_handle x value;;
  set_handle other temp.

Definition reset (x : var) (h : Z) : M process unit :=
  CloseIfNecessary x;;
  set_handle x h.

Definition CloseRaw (h : Z) : M process MojoResult := MojoClose h.

Definition ReplaceHandleWithReducedRights (x : var) : M process bool :=
  h ← get_handle x;
  c_assert (is_valid h);;
  raw_handle ← release x;
  '(r, new_raw_handle) ← MojoReplaceHandleWithReducedRights raw_handle;
  if negb (r =? MOJO_RESULT_OK) then
    c_assert false;;
    CloseRaw raw_handle;;
    mret false
  else
    reset x new_raw_handle;;
    mret true.

Definition DuplicateHandle (h : Z) : M process var :=
  '(result, hs) ← create_handles 1;
  notes Took (if result =? MOJO_RESULT_OK then hs else []);;
  c_assert (result =? MOJO_RESULT_OK);;
  ScopedHandle_new (nth 0 hs 0).

(** [CreateMessagePipe], and [CreateDataPipe] likewise: both ends are reset, on failure
    too. *)
Definition CreateMessagePipe (message_pipe0 message_pipe1 : var) : M process MojoResult :=
  '(rv, hs) ← create_handles 2;
  notes Took (if rv =? MOJO_RESULT_OK then hs else []);;
  reset message_pipe0 (nth 0 hs 0);;
  reset message_pipe1 (nth 1 hs 0);;
  mret rv.
Definition CreateDataPipe (data_pipe_producer data_pipe_consumer : var) : M process MojoResult :=
  '(rv, hs) ← create_handles 2;
  notes Took (if rv =? MOJO_RESULT_OK then hs else []);;
  reset data_pipe_producer (nth 0 hs 0);;
  reset data_pipe_consumer (nth 1 hs 0);;
  mret rv.
Definition CreateSharedBuffer (shared_buffer : var) : M process MojoResult :=
  '(rv, hs) ← create_handles 1;
  notes Took (if rv =? MOJO_RESULT_OK then hs else []);;
  reset shared_buffer (nth 0 hs 0);;
  mret rv.

(** [class MessagePipe], of two scoped handles. *)
Definition MessagePipe_new : M process (var * var) :=
  handle0 ← ScopedHandle_new MOJO_HANDLE_INVALID;
  handle1 ← ScopedHandle_new MOJO_HANDLE_INVALID;
  result ← CreateMessagePipe handle0 handle1;
  c_assert (result =? MOJO_RESULT_OK);;
  mret (handle0, handle1).

(** * message.cc *)

Definition empty : Message := {| data_ := NULL; data_num_bytes_ := 0; handles_ := [] |}.

(** [malloc] and [calloc] give fresh blocks; [free] of a null pointer does nothing. *)
Definition malloc : M process Z :=
  w ← get;
  put (set_blocks ({[next_block w]} ∪ blocks w) (next_block w + 1) w);;
  mret (next_block w).
Definition free (p : Z) : M process unit :=
  if p =? NULL then mret tt
  else
    w ← get;
    if decide (p ∈ blocks w) then put (set_blocks (blocks w ∖ {[p]}) (next_block w) w) else lift Fault.

Definition FreeDataAndCloseHandles (x : var) : M process unit :=
  m ← get_message x;
  free (data_ m);;
  for_each (R := False) (handles_ m) (fun h =>
    (if is_valid h then CloseRaw h;; mret tt else mret tt);; mret None);;
  mret tt.

Definition Message_new : M process var := new_object (Msg empty).
Definition Message_destructor (x : var) : M process unit := FreeDataAndCloseHandles x;; delete_object x.
(** [handles_.clear()] and [Initialize()]. *)
Definition Reset (x : var) : M process unit := FreeDataAndCloseHandles x;; set_message x empty.

Definition Message_AllocData (x : var) (num_bytes : Z) : M process unit :=
  m ← get_message x;
  c_assert (data_ m =? NULL);;
  p ← malloc;
  set_message x {| data_ := p; data_num_bytes_ := num_bytes; handles_ := handles_ m |}.

Definition MoveTo (this destination : var) : M process unit :=
  c_assert (negb (this =? destination)%nat);;
  FreeDataAndCloseHandles destination;;
  m ← get_message this;
  d ← get_message destination;
  set_message destination {| data_ := data_ m; data_num_bytes_ := data_num_bytes_ m; handles_ := handles_ m |};;
  set_message this empty.

(** The answer to the second read is about the same message, and so gives its sizes; the
    sizes that the caller passed, which are those, are left alone by other errors. *)
Definition second_read (num_bytes num_handles : Z) : M process sys_answer :=
  a ← next_answer;
  match a with
  | MessageRead _ n h _ => if (n =? num_bytes) && (h =? num_handles) then mret a else lift OutOfFuel
  | _ => lift OutOfFuel
  end.

Definition ReadMessage (pipe : Z) (x : var) : M process MojoResult :=
  m ← get_message x;
  c_assert (is_valid pipe && bool_decide (handles_ m = []) && (data_num_bytes_ m =? 0));;
  a ← next_answer;
  match a with
  | NextMessage rv num_bytes num_handles =>
      if negb (rv =? MOJO_SYSTEM_RESULT_RESOURCE_EXHAUSTED) then mret rv
      else
        Message_AllocData x num_bytes;;
        m ← get_message x;
        set_message x {| data_ := data_ m; data_num_bytes_ := data_num_bytes_ m;
                         handles_ := replicate num_handles MOJO_HANDLE_INVALID |};;
        a ← second_read num_bytes (Z.of_nat num_handles);
        match a with
        | MessageRead rv num_bytes_actual num_handles_actual hs =>
            (if (rv =? MOJO_RESULT_OK) && (length hs =? num_handles)%nat then
               open_new hs;; notes Took hs;;
               m ← get_message x;
               set_message x {| data_ := data_ m; data_num_bytes_ := data_num_bytes_ m; handles_ := hs |}
             else if rv =? MOJO_RESULT_OK then lift OutOfFuel else mret tt);;
            c_assert (num_bytes =? num_bytes_actual);;
            c_assert (Z.of_nat num_handles =? num_handles_actual);;
            mret rv
        | _ => lift OutOfFuel
        end
  | _ => lift OutOfFuel
  end.

(** A handle of the message moves into a scoped handle ([Decode] and [FetchAndReset]), and
    back ([Encode]). *)
Definition FetchHandle (x : var) (i : nat) : M process var :=
  m ← get_message x;
  match handles_ m !! i with
  | Some h =>
      set_message x {| data_ := data_ m; data_num_bytes_ := data_num_bytes_ m;
                       handles_ := <[i := MOJO_HANDLE_INVALID]> (handles_ m) |};;
      ScopedHandle_new h
  | None => lift Fault
  end.
Definition AttachHandle (x y : var) : M process unit :=
  h ← release y;
  m ← get_message x;
  set_message x {| data_ := data_ m; data_num_bytes_ := data_num_bytes_ m; handles_ := handles_ m ++ [h] |}.

(** * Writing

    [Connector::Accept]: once written, the handles are no longer the message's. *)
Definition Connector_WriteMessage (x : var) : M process MojoResult :=
  m ← get_message x;
  rv ← MojoWriteMessage (handles_ m);
  if rv =? MOJO_RESULT_OK then
    set_message x {| data_ := data_ m; data_num_bytes_ := data_num_bytes_ m; handles_ := [] |};; mret rv
  else mret rv.

(** * synchronous_connector.cc

    Its [handle_] is the scoped handle at [c]. *)
Definition SynchronousConnector_Write (c x : var) : M process bool :=
  h ← get_handle c;
  c_assert (is_valid h);;
  m ← get_message x;
  result ← MojoWriteMessage (handles_ m);
  mret (result =? MOJO_RESULT_OK).

Definition SynchronousConnector_BlockingRead (c x : var) : M process bool :=
  h ← get_handle c;
  c_assert (is_valid h);;
  a ← next_answer;
  match a with
  | WaitDone rv =>
      if negb (rv =? MOJO_RESULT_OK) then mret false
      else
        rv ← ReadMessage h x;
        mret (rv =? MOJO_RESULT_OK)
  | _ => lift OutOfFuel
  end.

Definition SynchronousConnector_PassHandle (c : var) : M process var := ScopedHandle_move c.
Definition SynchronousConnector_is_valid (c : var) : M process bool := h ← get_handle c; mret (is_valid h).
End Code.

(** * wait.h *)

Definition kInvalidWaitManyIndexValue : Z := wrap32 (-1).
Record WaitManyResult := {
  wait_result : MojoResult;
  wait_index : Z;
}.
Definition IsIndexValid (r : WaitManyResult) : bool := negb (wait_index r =? kInvalidWaitManyIndexValue).
Definition AreSignalsStatesValid (r : WaitManyResult) : bool :=
  negb (wait_result r =? MOJO_SYSTEM_RESULT_INVALID_ARGUMENT) &&
  negb (wait_result r =? MOJO_SYSTEM_RESULT_RESOURCE_EXHAUSTED) &&
  negb (wait_result r =? MOJO_SYSTEM_RESULT_BUSY).

Section Wait.
(** The system waits for handles with signals, [num] of each: a result, and the index and
    the states that it sets, if it does. It is given no array when there is none. *)
Context (MojoWaitMany : option (list Z * list Z) -> Z -> Z -> bool -> MojoResult * option Z * option (list (Z * Z))).

(** The result, and what the vector of states holds then, if there is one. *)
Definition WaitMany (handles signals : list Z) (deadline : Z) (signals_states : option (list (Z * Z))) :
    WaitManyResult * option (list (Z * Z)) :=
  let failed r := ({| wait_result := r; wait_index := kInvalidWaitManyIndexValue |}, signals_states) in
  if negb (length signals =? length handles)%nat ||
     match signals_states with Some l => negb (length l =? length signals)%nat | None => false end
  then failed MOJO_SYSTEM_RESULT_INVALID_ARGUMENT
  else if Z.of_nat (length handles) >=? kInvalidWaitManyIndexValue
  then failed MOJO_SYSTEM_RESULT_RESOURCE_EXHAUSTED
  else if (length handles =? 0)%nat then failed (MojoWaitMany None 0 deadline false).1.1
  else
    let '(r, index, states) := MojoWaitMany (Some (handles, signals)) (wrap32 (Z.of_nat (length handles))) deadline
                                 (bool_decide (is_Some signals_states)) in
    ({| wait_result := r; wait_index := default kInvalidWaitManyIndexValue index |},
     match signals_states, states with Some _, Some l => Some l | _, _ => signals_states end).
End Wait.

(** * Programs

    Code that uses these objects. It puts into scoped handles only valid handles that are
    open and that no object has, and calls the functions as they are meant to be called: a
    program that does not is not considered, and ends. The synchronous connector does not
    take the handles out of a message that it writes: it is given messages without handles. *)
Inductive prog :=
  | Exit
  | AdoptHandle (h : Z) (k : var -> prog)
  | MoveHandle (x : var) (k : var -> prog)
  | AssignHandle (x y : var) (k : prog)
  | SwapHandles (x y : var) (k : prog)
  | ReleaseHandle (x : var) (k : Z -> prog)
  | ResetHandle (x : var) (h : Z) (k : prog)
  | DestroyHandle (x : var) (k : prog)
  | Replace (x : var) (k : bool -> prog)
  | Duplicate (x : var) (k : var -> prog)
  | CreatePipe (x y : var) (k : MojoResult -> prog)
  | CreatePipeForData (x y : var) (k : MojoResult -> prog)
  | CreateBuffer (x : var) (k : MojoResult -> prog)
  | NewPipe (k : var * var -> prog)
  | NewMessage (k : var -> prog)
  | DestroyMessage (x : var) (k : prog)
  | ResetMessage (x : var) (k : prog)
  | MoveMessage (x y : var) (k : prog)
  | BlockingRead (c x : var) (k : bool -> prog)
  | Fetch (x : var) (i : nat) (k : var -> prog)
  | Attach (x y : var) (k : prog)
  | WriteMsg (x : var) (k : MojoResult -> prog)
  | SyncWrite (c x : var) (k : bool -> prog).

Definition handles_in (o : object) : list Z :=
  List.filter is_valid (match o with Scoped h => [h] | Msg m => handles_ m end).
Definition held (w : process) : list Z := map_to_list (objects w) ≫= (fun x => handles_in x.2).

Definition is_scoped (x : var) (w : process) : bool :=
  match objects w !! x with Some (Scoped _) => true | _ => false end.
Definition is_message (x : var) (w : process) : bool :=
  match objects w !! x with Some (Msg _) => true | _ => false end.
Definition has_valid (x : var) (w : process) : bool :=
  match objects w !! x with Some (Scoped h) => is_valid h | _ => false end.
Definition is_empty (x : var) (w : process) : bool :=
  match objects w !! x with
  | Some (Msg m) => (data_ m =? NULL) && bool_decide (handles_ m = []) && (data_num_bytes_ m =? 0)
  | _ => false
  end.
Definition no_handles (x : var) (w : process) : bool :=
  match objects w !! x with Some (Msg m) => bool_decide (handles_ m = []) | _ => false end.
Definition has_index (x : var) (i : nat) (w : process) : bool :=
  match objects w !! x with Some (Msg m) => bool_decide (is_Some (handles_ m !! i)) | _ => false end.
Definition adoptable (h : Z) (w : process) : bool :=
  negb (is_valid h) || bool_decide (h ∈ open_handles w) && bool_decide (h ∉ held w).

Definition require (b : process -> bool) : M process unit :=
  w ← get; if b w then mret tt else lift OutOfFuel.

Section Run.
Context (debug : bool).

Fixpoint run_prog (p : prog) : M process unit :=
  match p with
  | Exit => mret tt
  | AdoptHandle h k =>
      require (adoptable h);; notes Took (List.filter is_valid [h]);; x ← ScopedHandle_new h; run_prog (k x)
  | MoveHandle x k => require (is_scoped x);; y ← ScopedHandle_move x; run_prog (k y)
  | AssignHandle x y k =>
      require (is_scoped x);; require (is_scoped y);; ScopedHandle_assign debug x y;; run_prog k
  | SwapHandles x y k => require (is_scoped x);; require (is_scoped y);; swap x y;; run_prog k
  | ReleaseHandle x k =>
      require (is_scoped x);; h ← release x; notes Gave (List.filter is_valid [h]);; run_prog (k h)
  | ResetHandle x h k =>
      require (is_scoped x);; require (adoptable h);; notes Took (List.filter is_valid [h]);;
      reset debug x h;; run_prog k
  | DestroyHandle x k => require (is_scoped x);; ScopedHandle_destructor debug x;; run_prog k
  | Replace x k => require (has_valid x);; b ← ReplaceHandleWithReducedRights debug x; run_prog (k b)
  | Duplicate x k => require (has_valid x);; h ← get_handle x; y ← DuplicateHandle debug h; run_prog (k y)
  | CreatePipe x y k =>
      require (is_scoped x);; require (is_scoped y);; r ← CreateMessagePipe debug x y; run_prog (k r)
  | CreatePipeForData x y k =>
      require (is_scoped x);; require (is_scoped y);; r ← CreateDataPipe debug x y; run_prog (k r)
  | CreateBuffer x k => require (is_scoped x);; r ← CreateSharedBuffer debug x; run_prog (k r)
  | NewPipe k => p ← MessagePipe_new debug; run_prog (k p)
  | NewMessage k => x ← Message_new; run_prog (k x)
  | DestroyMessage x k => require (is_message x);; Message_destructor x;; run_prog k
  | ResetMessage x k => require (is_message x);; Reset x;; run_prog k
  | MoveMessage x y k =>
      require (is_message x);; require (is_message y);; require (fun _ => negb (x =? y)%nat);;
      MoveTo debug x y;; run_prog k
  | BlockingRead c x k =>
      require (has_valid c);; require (is_empty x);; b ← SynchronousConnector_BlockingRead debug c x; run_prog (k b)
  | Fetch x i k => require (has_index x i);; y ← FetchHandle x i; run_prog (k y)
  | Attach x y k => require (is_message x);; require (is_scoped y);; AttachHandle x y;; run_prog k
  | WriteMsg x k => require (is_message x);; r ← Connector_WriteMessage x; run_prog (k r)
  | SyncWrite c x k =>
      require (has_valid c);; require (no_handles x);; b ← SynchronousConnector_Write debug c x; run_prog (k b)
  end.
End Run.
