(* ===== verification/HandlesFacts.v ===== *)
(** Every handle that scoped handles and messages take over is accounted for: it is given
    away, closed exactly once, or held by exactly one of them. *)
From stdpp Require Import base numbers list option gmap sets.
From Stdlib Require Import ZArith Lia.
From S2P Require Import Prelude Result Buffer Validate Serialization Handles.
From Stdlib Require Import Permutation.

(** * The account *)

Fixpoint took (tr : list event) : list Z :=
  match tr with [] => [] | Took h :: tr => h :: took tr | _ :: tr => took tr end.
(** Given away or closed. *)
Fixpoint gone (tr : list event) : list Z :=
  match tr with [] => [] | (Gave h | Closed h) :: tr => h :: gone tr | _ :: tr => gone tr end.
Definition no_stray (e : event) : Prop := match e with StrayClose _ => False | _ => True end.

Definition blocks_in (o : object) : list Z :=
  match o with Scoped _ => [] | Msg m => if data_ m =? NULL then [] else [data_ m] end.
Definition held_blocks (w : process) : list Z := map_to_list (objects w) ≫= (fun x => blocks_in x.2).

(** In a build with assertions the system grants what is asked for. *)
Definition granted (debug : bool) (a : sys_answer) : Prop :=
  match a with Refused _ => debug = false | _ => True end.

Section Facts.
Context (debug : bool).

(** What holds while code has the handles [l] and the blocks [bs] in hand. *)
Record owned (l bs : list Z) (w : process) : Prop := {
  ow_distinct : NoDup (l ++ held w);
  ow_open : forall h, h ∈ l ++ held w -> h ∈ open_handles w;
  ow_valid : MOJO_HANDLE_INVALID ∉ open_handles w;
  ow_blocks : NoDup (bs ++ held_blocks w);
  ow_allocated : forall p, p ∈ bs ++ held_blocks w -> p ∈ blocks w;
  ow_fresh_blocks : 0 < next_block w /\ forall p, p ∈ blocks w -> 0 < p < next_block w;
  ow_fresh_vars : forall x, is_Some (objects w !! x) -> (x < next_var w)%nat;
  ow_account : took (trace w) ≡ₚ gone (trace w) ++ l ++ held w;
  ow_stray : Forall no_stray (trace w);
  ow_granted : Forall (granted debug) (answers w);
}.

(** ** Collecting from a map of objects *)

Lemma collect_insert `{Countable K} {V A} (f : V -> list A) (m : gmap K V) x o :
  m !! x = None ->
  map_to_list (<[x := o]> m) ≫= (fun y => f y.2) ≡ₚ f o ++ (map_to_list m ≫= (fun y => f y.2)).
Proof. intros Hx. exact (bind_Permutation (fun y => f y.2) _ _ (map_to_list_insert m x o Hx)). Qed.

Lemma collect_delete `{Countable K} {V A} (f : V -> list A) (m : gmap K V) x o :
  m !! x = Some o ->
  map_to_list m ≫= (fun y => f y.2) ≡ₚ f o ++ (map_to_list (delete x m) ≫= (fun y => f y.2)).
Proof.
  intros Hx. rewrite <- (insert_delete_id m x o Hx) at 1. apply collect_insert, lookup_delete_eq.
Qed.

Lemma collect_update `{Countable K} {V A} (f : V -> list A) (m : gmap K V) x o o' :
  m !! x = Some o ->
  f o ++ (map_to_list (<[x := o']> m) ≫= (fun y => f y.2)) ≡ₚ f o' ++ (map_to_list m ≫= (fun y => f y.2)).
Proof.
  intros Hx. rewrite (collect_delete f m x o Hx). rewrite <- insert_delete_eq.
  rewrite (collect_insert f (delete x m) x o') by apply lookup_delete_eq.
  apply Permutation_app_swap_app.
Qed.

(** ** Changes of what is in hand and of what the objects have *)

(** Handles and blocks move between the code and the objects. *)
Lemma owned_move l bs l' bs' w os n :
  owned l bs w ->
  (forall x, is_Some (os !! x) -> (x < n)%nat) ->
  l' ++ (map_to_list os ≫= (fun x => handles_in x.2)) ≡ₚ l ++ held w ->
  bs' ++ (map_to_list os ≫= (fun x => blocks_in x.2)) ≡ₚ bs ++ held_blocks w ->
  owned l' bs' {| open_handles := open_handles w; objects := os; next_var := n; blocks := blocks w;
                  next_block := next_block w; answers := answers w; trace := trace w |}.
Proof.
  intros [Hd Ho Hv Hb Ha Hfb Hfv Hacc Hs Hg] Hvars Hl Hbs. unfold held, held_blocks in *.
  split; cbn [open_handles objects next_var blocks next_block answers trace]; unfold held, held_blocks; cbn [objects];
    try done.
  - by rewrite Hl.
  - intros h. rewrite Hl. apply Ho.
  - by rewrite Hbs.
  - intros p. rewrite Hbs. apply Ha.
  - by rewrite Hl.
Qed.

Lemma owned_perm l l' bs bs' w : owned l bs w -> l ≡ₚ l' -> bs ≡ₚ bs' -> owned l' bs' w.
Proof.
  intros Hw Hl Hbs. destruct w. apply (owned_move l bs l' bs' _ _ _ Hw); [apply Hw|by rewrite Hl|by rewrite Hbs].
Qed.

Lemma move_update {A} (l l' a a' c c' : list A) :
  a ++ c' ≡ₚ a' ++ c -> l' ++ a' ≡ₚ l ++ a -> l' ++ c' ≡ₚ l ++ c.
Proof.
  intros Hc Hl. apply (Permutation_app_inv_l a). rewrite Permutation_app_swap_app, Hc, !app_assoc, Hl.
  by rewrite (Permutation_app_comm l a).
Qed.

Lemma owned_update l bs l' bs' w x o o' :
  owned l bs w -> objects w !! x = Some o ->
  l' ++ handles_in o' ≡ₚ l ++ handles_in o -> bs' ++ blocks_in o' ≡ₚ bs ++ blocks_in o ->
  owned l' bs' (set_objects (<[x := o']> (objects w)) w).
Proof.
  intros Hw Hx Hl Hbs. apply (owned_move l bs); [done| | |].
  - intros y. rewrite lookup_insert_is_Some'. intros [<-|Hy]; apply (ow_fresh_vars _ _ _ Hw); [by eexists|done].
  - exact (move_update _ _ _ _ _ _ (collect_update handles_in _ _ _ o' Hx) Hl).
  - exact (move_update _ _ _ _ _ _ (collect_update blocks_in _ _ _ o' Hx) Hbs).
Qed.

Lemma owned_new l bs w o :
  owned (handles_in o ++ l) (blocks_in o ++ bs) w ->
  owned l bs {| open_handles := open_handles w; objects := <[next_var w := o]> (objects w);
                next_var := S (next_var w); blocks := blocks w; next_block := next_block w;
                answers := answers w; trace := trace w |}.
Proof.
  intros Hw. assert (Hn : objects w !! next_var w = None).
  { apply eq_None_not_Some. intros H%(ow_fresh_vars _ _ _ Hw). lia. }
  eapply owned_move; [exact Hw| | |].
  - intros y. rewrite lookup_insert_is_Some'. intros [<-|Hy%(ow_fresh_vars _ _ _ Hw)]; lia.
  - rewrite (collect_insert handles_in) by done. unfold held. rewrite <- app_assoc. apply Permutation_app_swap_app.
  - rewrite (collect_insert blocks_in) by done. unfold held_blocks. rewrite <- app_assoc. apply Permutation_app_swap_app.
Qed.

Lemma owned_delete l bs w x o :
  owned l bs w -> objects w !! x = Some o -> handles_in o = [] -> blocks_in o = [] ->
  owned l bs (set_objects (delete x (objects w)) w).
Proof.
  intros Hw Hx Hh Hb. eapply owned_move; [exact Hw| | |].
  - intros y [_ Hy]%lookup_delete_is_Some. by apply (ow_fresh_vars _ _ _ Hw).
  - pose proof (collect_delete handles_in _ _ _ Hx) as H. rewrite Hh in H. unfold held. by rewrite H.
  - pose proof (collect_delete blocks_in _ _ _ Hx) as H. rewrite Hb in H. unfold held_blocks. by rewrite H.
Qed.

Lemma owned_answer l bs w a k : owned l bs w -> answers w = a :: k -> owned l bs (set_answers k w) /\ granted debug a.
Proof.
  intros [Hd Ho Hv Hb Hal Hfb Hfv Hacc Hs Hg] Ha. rewrite Ha in Hg. apply Forall_cons in Hg as [Hg Hk].
  split; [|done]. by split.
Qed.

Definition noted (e : event) (w : process) : process :=
  {| open_handles := open_handles w; objects := objects w; next_var := next_var w; blocks := blocks w;
     next_block := next_block w; answers := answers w; trace := e :: trace w |}.

(** A handle in hand goes: it is closed, or given away. *)
Lemma owned_gone h l bs w hs e :
  owned (h :: l) bs w -> e = Gave h \/ e = Closed h ->
  (forall x, x ∈ open_handles w -> x <> h -> x ∈ hs) -> (forall x, x ∈ hs -> x ∈ open_handles w) ->
  owned l bs (noted e (set_open hs w)).
Proof.
  intros [Hd Ho Hv Hb Ha Hfb Hfv Hacc Hs Hg] He Hin Hout. apply NoDup_cons in Hd as [Hh Hd].
  split; cbn [noted set_open open_handles objects next_var blocks next_block answers trace]; try done.
  - intros x Hx. apply Hin; [|by intros ->]. apply Ho. by right.
  - intros H. by apply Hv, Hout.
  - change (held (noted e (set_open hs w))) with (held w).
    destruct He as [-> | ->]; cbn [took gone]; rewrite Hacc; cbn; symmetry; apply Permutation_middle.
  - constructor; [by destruct He as [-> | ->]|done].
Qed.

(** Handles that are open and that nobody has come into hand. *)
Lemma owned_took h l bs w :
  owned l bs w -> h ∈ open_handles w -> h ∉ l ++ held w -> owned (h :: l) bs (noted (Took h) w).
Proof.
  intros [Hd Ho Hv Hb Ha Hfb Hfv Hacc Hs Hg] Hopen Hn.
  split; cbn [noted open_handles objects next_var blocks next_block answers trace]; try done.
  - by constructor.
  - intros x [->|Hx]%elem_of_cons; [done|by apply Ho].
  - change (held (noted (Took h) w)) with (held w). cbn [took gone]. rewrite Hacc. cbn. apply Permutation_middle.
  - by constructor.
Qed.

Lemma owned_more_open l bs w hs :
  owned l bs w -> MOJO_HANDLE_INVALID ∉ hs -> owned l bs (set_open (hs ∪ open_handles w) w).
Proof.
  intros [Hd Ho Hv Hb Ha Hfb Hfv Hacc Hs Hg] Hn. split; try done; cbn [set_open open_handles].
  - intros h Hh. apply elem_of_union_r. by apply Ho.
  - set_solver.
Qed.

(** ** Steps of the code *)

Lemma handles_in_valid h : is_valid h = true -> handles_in (Scoped h) = [h].
Proof. unfold handles_in. cbn. by intros ->. Qed.

Lemma wlp_object_at w x o (Q : object -> process -> Prop) : objects w !! x = Some o -> Q o w -> wlp (object_at x) w Q.
Proof. intros Hx HQ. unfold object_at. do 2 wlp_step. by rewrite Hx. Qed.
Lemma wlp_get_handle w x h (Q : Z -> process -> Prop) :
  objects w !! x = Some (Scoped h) -> Q h w -> wlp (get_handle x) w Q.
Proof. intros Hx HQ. unfold get_handle. wlp_step. by eapply wlp_object_at. Qed.
Lemma wlp_set_handle w x h h' (Q : unit -> process -> Prop) :
  objects w !! x = Some (Scoped h) -> Q tt (set_objects (<[x := Scoped h']> (objects w)) w) -> wlp (set_handle x h') w Q.
Proof. intros Hx HQ. unfold set_handle. wlp_step. eapply wlp_get_handle; [done|]. by wlp_step. Qed.
Lemma wlp_get_message w x m (Q : Message -> process -> Prop) :
  objects w !! x = Some (Msg m) -> Q m w -> wlp (get_message x) w Q.
Proof. intros Hx HQ. unfold get_message. wlp_step. by eapply wlp_object_at. Qed.
Lemma wlp_set_message w x m m' (Q : unit -> process -> Prop) :
  objects w !! x = Some (Msg m) -> Q tt (set_objects (<[x := Msg m']> (objects w)) w) -> wlp (set_message x m') w Q.
Proof. intros Hx HQ. unfold set_message. wlp_step. eapply wlp_get_message; [done|]. by wlp_step. Qed.

Lemma wlp_c_assert (w : process) b (Q : unit -> process -> Prop) : b = true -> Q tt w -> wlp (c_assert debug b) w Q.
Proof. intros -> HQ. unfold c_assert, MOJO_DCHECK. by destruct debug. Qed.

Definition noted_all (f : Z -> event) (hs : list Z) (w : process) : process := foldl (fun w h => noted (f h) w) w hs.
Lemma wlp_notes f hs : forall w (Q : unit -> process -> Prop), Q tt (noted_all f hs w) -> wlp (notes f hs) w Q.
Proof.
  unfold notes. induction hs as [|h hs IH]; intros w Q HQ; cbn [for_each]; [by do 2 wlp_step|].
  do 3 wlp_step. unfold note. do 2 wlp_step. cbn beta. specialize (IH _ Q HQ). revert IH.
  unfold gwlp, mbind, M_bind. by destruct (for_each _ _ _) as [[? ?]| | |].
Qed.
Lemma objects_noted_all f hs : forall w, objects (noted_all f hs w) = objects w.
Proof. induction hs as [|h hs IH]; intros w; [done|]. exact (IH (noted (f h) w)). Qed.

Lemma owned_took_all hs : forall l bs w,
  owned l bs w -> NoDup hs -> (forall h, h ∈ hs -> h ∈ open_handles w /\ h ∉ l ++ held w) ->
  owned (hs ++ l) bs (noted_all Took hs w).
Proof.
  induction hs as [|h hs IH]; intros l bs w Hw Hn Hin; [done|]. apply NoDup_cons in Hn as [Hh Hn].
  apply (owned_perm (hs ++ h :: l) _ bs); [|symmetry; apply Permutation_middle|done].
  apply IH; [|done|].
  - destruct (Hin h) as [Ho Hl]; [by left|]. by apply owned_took.
  - intros x Hx. destruct (Hin x) as [Ho Hl]; [by right|]. split; [done|].
    change (held (noted (Took h) w)) with (held w). cbn. rewrite elem_of_cons. intros [->|?]; done.
Qed.

(** Closing a handle in hand. What the objects have, for the account, is [os]: an object
    may still store a handle that has been closed. *)
Lemma wlp_MojoClose l bs os w h (Q : MojoResult -> process -> Prop) :
  owned (h :: l) bs (set_objects os w) ->
  (forall w', owned l bs (set_objects os w') -> objects w' = objects w -> Q MOJO_RESULT_OK w') ->
  wlp (MojoClose h) w Q.
Proof.
  intros Hw HQ. unfold MojoClose. do 2 wlp_step. rewrite decide_True by (apply (ow_open _ _ _ Hw); by left).
  do 2 wlp_step. unfold note. do 3 wlp_step. apply HQ; [|done..].
  apply (owned_gone h l bs _ (open_handles w ∖ {[h]}) _ Hw); [by right|cbn; set_solver..].
Qed.

Lemma set_objects_same w : set_objects (objects w) w = w.
Proof. by destruct w. Qed.

(** The object [x] as if it were [o]. *)
Definition blank (x : var) (o : object) (w : process) : process := set_objects (<[x := o]> (objects w)) w.

Lemma CloseIfNecessary_spec l bs w x h :
  owned l bs w -> objects w !! x = Some (Scoped h) ->
  wlp (CloseIfNecessary debug x) w (fun _ w' => objects w' = objects w /\ owned l bs (blank x (Scoped MOJO_HANDLE_INVALID) w')).
Proof.
  intros Hw Hx. unfold CloseIfNecessary. wlp_step. eapply wlp_get_handle; [done|].
  assert (Hb : owned (handles_in (Scoped h) ++ l) bs (blank x (Scoped MOJO_HANDLE_INVALID) w)).
  { eapply owned_update; [exact Hw|exact Hx| |done]. cbn. rewrite app_nil_r. apply Permutation_app_comm. }
  destruct (is_valid h) eqn:Hv; cbn [negb].
  - rewrite handles_in_valid in Hb by done. wlp_step. eapply wlp_MojoClose; [exact Hb|].
    intros w1 Hw1 Ho1. apply wlp_c_assert; [done|]. split; [done|]. unfold blank. by rewrite Ho1.
  - wlp_step. split; [done|]. unfold handles_in in Hb. cbn in Hb. by rewrite Hv in Hb.
Qed.

(** Storing over a blanked object. *)
Lemma blank_set x o o' w :
  set_objects (<[x := o']> (objects (blank x o w))) (blank x o w) = set_objects (<[x := o']> (objects w)) w.
Proof. unfold blank, set_objects. cbn. by rewrite insert_insert_eq. Qed.

Lemma owned_fill l l' bs bs' w x o o' :
  owned l bs (blank x o w) ->
  l' ++ handles_in o' ≡ₚ l ++ handles_in o -> bs' ++ blocks_in o' ≡ₚ bs ++ blocks_in o ->
  owned l' bs' (set_objects (<[x := o']> (objects w)) w).
Proof.
  intros Hw Hl Hb. rewrite <- (blank_set x o o' w).
  apply (owned_update _ _ _ _ _ x o o' Hw); [apply lookup_insert_eq|done|done].
Qed.

Lemma reset_spec l bs w x h0 h :
  owned (handles_in (Scoped h) ++ l) bs w -> objects w !! x = Some (Scoped h0) ->
  wlp (reset debug x h) w (fun _ w' => objects w' = <[x := Scoped h]> (objects w) /\ owned l bs w').
Proof.
  intros Hw Hx. unfold reset. wlp_step. eapply wlp_mono; [by apply (CloseIfNecessary_spec _ _ _ _ h0 Hw)|].
  intros _ w1 [Ho1 Hw1]. eapply wlp_set_handle; [by rewrite Ho1|]. rewrite <- Ho1. split; [done|].
  eapply owned_fill; [exact Hw1| |done]. cbn. rewrite app_nil_r. apply Permutation_app_comm.
Qed.

Lemma release_spec l bs w x h :
  owned l bs w -> objects w !! x = Some (Scoped h) ->
  wlp (release x) w (fun h' w' => h' = h /\ objects w' = <[x := Scoped MOJO_HANDLE_INVALID]> (objects w) /\
    owned (handles_in (Scoped h) ++ l) bs w').
Proof.
  intros Hw Hx. unfold release. wlp_step. eapply wlp_get_handle; [done|]. wlp_step.
  eapply wlp_set_handle; [done|]. wlp_step. split; [done|]. split; [done|].
  eapply owned_update; [exact Hw|exact Hx| |done]. cbn. rewrite app_nil_r. apply Permutation_app_comm.
Qed.

Lemma new_object_spec l bs w o :
  owned (handles_in o ++ l) (blocks_in o ++ bs) w ->
  wlp (new_object o) w (fun x w' => objects w !! x = None /\ objects w' = <[x := o]> (objects w) /\ owned l bs w').
Proof.
  intros Hw. unfold new_object. do 2 wlp_step. do 2 wlp_step. wlp_step. split; [|split; [done|by apply owned_new]].
  apply eq_None_not_Some. intros H%(ow_fresh_vars _ _ _ Hw). lia.
Qed.

Lemma ScopedHandle_destructor_spec l bs w x h :
  owned l bs w -> objects w !! x = Some (Scoped h) ->
  wlp (ScopedHandle_destructor debug x) w (fun _ w' => owned l bs w' /\ objects w' = delete x (objects w)).
Proof.
  intros Hw Hx. unfold ScopedHandle_destructor. wlp_step.
  eapply wlp_mono; [by apply (CloseIfNecessary_spec _ _ _ _ h Hw)|]. intros _ w1 [Ho1 Hw1].
  unfold delete_object. wlp_step. eapply wlp_object_at; [by rewrite Ho1|]. wlp_step. split; [|cbn; by rewrite Ho1].
  rewrite <- (delete_insert_eq (objects w1) x (Scoped MOJO_HANDLE_INVALID)).
  eapply (owned_delete _ _ _ x _ Hw1); [apply lookup_insert_eq|done|done].
Qed.

Lemma ScopedHandle_assign_spec l bs w x y hx hy :
  owned l bs w -> objects w !! x = Some (Scoped hx) -> objects w !! y = Some (Scoped hy) ->
  wlp (ScopedHandle_assign debug x y) w (fun _ w' => owned l bs w').
Proof.
  intros Hw Hx Hy. unfold ScopedHandle_assign. destruct (Nat.eqb_spec y x) as [->|Hne]; [by wlp_step|].
  wlp_step. eapply wlp_mono; [by apply (CloseIfNecessary_spec _ _ _ _ hx Hw)|]. intros _ w1 [Ho1 Hw1].
  unfold release. do 2 wlp_step. eapply wlp_get_handle; [by rewrite Ho1|]. wlp_step.
  eapply wlp_set_handle; [by rewrite Ho1|]. wlp_step.
  eapply wlp_set_handle; [cbn; rewrite lookup_insert_ne by done; by rewrite Ho1|]. cbn.
  assert (Hw2 : owned (handles_in (Scoped hy) ++ l) bs
    (blank x (Scoped MOJO_HANDLE_INVALID) (set_objects (<[y := Scoped MOJO_HANDLE_INVALID]> (objects w1)) w1))).
  { unfold blank. cbn. rewrite insert_insert_ne by done.
    eapply (owned_update _ _ _ _ _ y (Scoped hy) _ Hw1); [cbn; rewrite lookup_insert_ne, Ho1 by done; done| |done].
    cbn. rewrite app_nil_r. apply Permutation_app_comm. }
  eapply (owned_fill _ _ _ _ _ _ _ _ Hw2); [|done]. cbn. rewrite app_nil_r. apply Permutation_app_comm.
Qed.

Lemma swap_spec l bs w x y hx hy :
  owned l bs w -> objects w !! x = Some (Scoped hx) -> objects w !! y = Some (Scoped hy) ->
  wlp (swap x y) w (fun _ w' => owned l bs w').
Proof.
  intros Hw Hx Hy. unfold swap. wlp_step. eapply wlp_get_handle; [done|]. wlp_step. eapply wlp_get_handle; [done|].
  wlp_step. eapply wlp_set_handle; [done|].
  destruct (decide (x = y)) as [<-|Hne].
  - assert (hx = hy) as <- by congruence. eapply wlp_set_handle; [cbn; apply lookup_insert_eq|]. cbn.
    rewrite insert_insert_eq, insert_id by done. by destruct w.
  - eapply wlp_set_handle; [cbn; by rewrite lookup_insert_ne|]. cbn.
    assert (H1 : owned (handles_in (Scoped hx) ++ l) bs (blank x (Scoped MOJO_HANDLE_INVALID) w)).
    { eapply owned_update; [exact Hw|exact Hx| |done]. cbn. rewrite app_nil_r. apply Permutation_app_comm. }
    assert (H2 : owned (handles_in (Scoped hy) ++ l) bs
      (blank x (Scoped MOJO_HANDLE_INVALID) (set_objects (<[y := Scoped hx]> (objects w)) w))).
    { unfold blank. cbn. rewrite insert_insert_ne by done.
      eapply (owned_update _ _ _ _ _ y (Scoped hy) _ H1); [cbn; by rewrite lookup_insert_ne| |done].
      rewrite <- !app_assoc, (Permutation_app_comm l (handles_in (Scoped hx))), (Permutation_app_comm l (handles_in (Scoped hy))).
      apply Permutation_app_swap_app. }
    rewrite (insert_insert_ne _ y x) by done.
    eapply (owned_fill _ _ _ _ _ _ _ _ H2); [|done]. cbn. rewrite app_nil_r. apply Permutation_app_comm.
Qed.

(** ** The system *)

Lemma wlp_sys_answer l bs w (Q : sys_answer -> process -> Prop) :
  owned l bs w ->
  (forall a w', owned l bs w' -> granted debug a -> objects w' = objects w -> Q a w') -> wlp next_answer w Q.
Proof.
  intros Hw HQ. unfold next_answer. do 2 wlp_step. destruct (answers w) as [|a k] eqn:Ha; [done|].
  destruct (owned_answer _ _ _ _ _ Hw Ha) as [Hw' Hg]. wlp_step. wlp_step. wlp_step. by apply HQ.
Qed.

(** New handles, once they are noted. *)
Lemma wlp_open_new l bs w hs (Q : unit -> process -> Prop) :
  owned l bs w ->
  (forall w', objects w' = objects w -> owned (hs ++ l) bs (noted_all Took hs w') -> Forall (fun h => is_valid h = true) hs ->
     owned l bs w' -> Q tt w') -> wlp (open_new hs) w Q.
Proof.
  intros Hw HQ. unfold open_new. do 2 wlp_step. destruct (decide _) as [[Hn Hf]|]; [|done]. wlp_step.
  rewrite Forall_forall in Hf.
  assert (Hw' : owned l bs (set_open (list_to_set hs ∪ open_handles w) w)).
  { apply owned_more_open; [done|]. rewrite elem_of_list_to_set. by intros []%Hf. }
  apply HQ; [done| |apply Forall_forall; by intros h []%Hf|done]. apply owned_took_all; [done|done|].
  intros h Hh. cbn. destruct (Hf h Hh) as [_ Hno]. split; [set_solver|].
  intros Hin. by apply (ow_open _ _ _ Hw) in Hin.
Qed.

(** A call that creates handles, and the note of what it created. *)
Lemma wlp_created {A} l bs w n (f : MojoResult -> list Z -> M process A) (Q : A -> process -> Prop) :
  owned l bs w ->
  (forall r hs w', objects w' = objects w -> length hs = n -> (debug = true -> r = MOJO_RESULT_OK) ->
     (r <> MOJO_RESULT_OK -> hs = replicate n MOJO_HANDLE_INVALID) ->
     owned ((hs ≫= fun h => handles_in (Scoped h)) ++ l) bs w' -> wlp (f r hs) w' Q) ->
  wlp (create_handles n ≫= fun '(r, hs) => notes Took (if r =? MOJO_RESULT_OK then hs else []);; f r hs) w Q.
Proof.
  intros Hw HQ. wlp_step. unfold create_handles. wlp_step. eapply wlp_sys_answer; [done|].
  intros a w1 Hw1 Hg Ho1. destruct a as [hs|r| | | |]; try done.
  - destruct (Nat.eqb_spec (length hs) n) as [Hn|]; [|done]. wlp_step. eapply wlp_open_new; [done|].
    intros w2 Ho2 Htook Hval _. do 2 wlp_step. rewrite Z.eqb_refl. apply wlp_notes.
    apply HQ; [|done|done|done|].
    + rewrite objects_noted_all. congruence.
    + replace (hs ≫= (fun h => handles_in (Scoped h))) with hs; [done|].
      clear -Hval. induction Hval as [|h hs Hh _ IH]; [done|]. cbn [mbind list_bind]. by rewrite handles_in_valid, <- IH.
  - destruct (Z.eqb_spec r MOJO_RESULT_OK) as [|Hr]; [done|]. do 2 wlp_step.
    rewrite (proj2 (Z.eqb_neq _ _) Hr). apply wlp_notes. cbn in Hg. apply HQ; [done|by rewrite length_replicate| |done|].
    + intros Hd. by rewrite Hd in Hg.
    + replace (replicate n MOJO_HANDLE_INVALID ≫= _) with (@nil Z); [done|].
      clear. induction n as [|n IH]; [done|exact IH].
Qed.

(** ** Replacing, duplicating, creating *)

Lemma created_1 (hs : list Z) : length hs = 1%nat -> (hs ≫= fun h => handles_in (Scoped h)) = handles_in (Scoped (nth 0 hs 0)).
Proof. destruct hs as [|h [|]]; try done. intros _. apply app_nil_r. Qed.
Lemma created_2 (hs : list Z) : length hs = 2%nat ->
  (hs ≫= fun h => handles_in (Scoped h)) = handles_in (Scoped (nth 0 hs 0)) ++ handles_in (Scoped (nth 1 hs 0)).
Proof. destruct hs as [|h [|h' [|]]]; try done. intros _. cbn. by rewrite app_nil_r. Qed.

Lemma ReplaceHandle_spec l bs w x h :
  owned l bs w -> objects w !! x = Some (Scoped h) -> is_valid h = true ->
  wlp (ReplaceHandleWithReducedRights debug x) w (fun _ w' => owned l bs w').
Proof.
  intros Hw Hx Hv. unfold ReplaceHandleWithReducedRights. wlp_step. eapply wlp_get_handle; [done|]. wlp_step.
  apply wlp_c_assert; [done|]. wlp_step. eapply wlp_mono; [by apply release_spec|].
  intros h' w1 (-> & Ho1 & Hw1). rewrite handles_in_valid in Hw1 by done. cbn in Hw1.
  unfold MojoReplaceHandleWithReducedRights. wlp_step. eapply wlp_created; [exact Hw1|].
  intros r hs w2 Ho2 Hlen Hd Hfail Hw2. rewrite created_1 in Hw2 by done. set (new := nth 0 hs 0) in *.
  assert (Hx2 : objects w2 !! x = Some (Scoped MOJO_HANDLE_INVALID)) by (rewrite Ho2, Ho1; apply lookup_insert_eq).
  destruct (Z.eqb_spec r MOJO_RESULT_OK) as [->|Hr].
  - do 2 wlp_step. unfold note. do 2 wlp_step. wlp_step. cbn [negb Z.eqb]. rewrite Z.eqb_refl. cbn [negb]. wlp_step.
    eapply wlp_mono; [eapply (reset_spec l bs); [|exact Hx2]|by intros _ w3 [_ Hw3]; wlp_step].
    eapply (owned_gone h _ _ _ (open_handles w2 ∖ {[h]})); [|by left|cbn; set_solver..].
    eapply owned_perm; [exact Hw2| |done]. symmetry. apply Permutation_middle.
  - wlp_step. rewrite (proj2 (Z.eqb_neq _ _) Hr). cbn [negb]. wlp_step.
    destruct debug eqn:Hdb; [by rewrite Hd in Hr|]. unfold c_assert, MOJO_DCHECK. cbn [negb]. do 2 wlp_step.
    unfold new in Hw2. rewrite (Hfail Hr) in Hw2. rewrite <- (set_objects_same w2) in Hw2.
    unfold CloseRaw. eapply wlp_MojoClose; [exact Hw2|]. intros w3 Hw3 Ho3. wlp_step.
    by rewrite <- Ho3, set_objects_same in Hw3.
Qed.

Lemma DuplicateHandle_spec l bs w h :
  owned l bs w -> wlp (DuplicateHandle debug h) w (fun _ w' => owned l bs w').
Proof.
  intros Hw. unfold DuplicateHandle. eapply wlp_created; [exact Hw|]. intros r hs w1 _ Hlen Hd _ Hw1.
  rewrite created_1 in Hw1 by done. wlp_step.
  unfold c_assert, MOJO_DCHECK. destruct debug; [rewrite Hd by done; apply wlp_assert; [done|]|wlp_step];
    (eapply wlp_mono; [by apply (new_object_spec l bs)|by intros x w2 (_ & _ & ?)]).
Qed.

Lemma CreateMessagePipe_spec l bs w x y hx hy :
  owned l bs w -> objects w !! x = Some (Scoped hx) -> objects w !! y = Some (Scoped hy) ->
  wlp (CreateMessagePipe debug x y) w (fun r w' => owned l bs w' /\ (debug = true -> r = MOJO_RESULT_OK) /\
    exists hx' hy', objects w' = <[y := Scoped hy']> (<[x := Scoped hx']> (objects w))).
Proof.
  intros Hw Hx Hy. unfold CreateMessagePipe. eapply wlp_created; [exact Hw|]. intros r hs w1 Ho1 Hlen Hd _ Hw1.
  rewrite created_2 in Hw1 by done. rewrite <- app_assoc in Hw1. wlp_step.
  eapply wlp_mono; [eapply reset_spec; [exact Hw1|by rewrite Ho1]|]. intros _ w2 [Ho2 Hw2]. wlp_step.
  assert (Hy2 : exists h, objects w2 !! y = Some (Scoped h)).
  { rewrite Ho2, Ho1. destruct (decide (x = y)) as [<-|Hne]; [eexists; apply lookup_insert_eq|].
    rewrite lookup_insert_ne by done. eauto. }
  destruct Hy2 as [h Hy2]. eapply wlp_mono; [eapply reset_spec; [exact Hw2|exact Hy2]|].
  intros _ w3 [Ho3 Hw3]. wlp_step. split; [done|]. split; [done|]. eexists _, _. by rewrite Ho3, Ho2, Ho1.
Qed.

Lemma CreateDataPipe_spec l bs w x y hx hy :
  owned l bs w -> objects w !! x = Some (Scoped hx) -> objects w !! y = Some (Scoped hy) ->
  wlp (CreateDataPipe debug x y) w (fun r w' => owned l bs w' /\ (debug = true -> r = MOJO_RESULT_OK) /\
    exists hx' hy', objects w' = <[y := Scoped hy']> (<[x := Scoped hx']> (objects w))).
Proof. apply CreateMessagePipe_spec. Qed.

Lemma CreateSharedBuffer_spec l bs w x hx :
  owned l bs w -> objects w !! x = Some (Scoped hx) ->
  wlp (CreateSharedBuffer debug x) w (fun _ w' => owned l bs w').
Proof.
  intros Hw Hx. unfold CreateSharedBuffer. eapply wlp_created; [exact Hw|]. intros r hs w1 Ho1 Hlen Hd _ Hw1.
  rewrite created_1 in Hw1 by done. wlp_step.
  eapply wlp_mono; [eapply reset_spec; [exact Hw1|by rewrite Ho1]|]. intros _ w2 [_ Hw2]. by wlp_step.
Qed.

Lemma MessagePipe_new_spec l bs w :
  owned l bs w ->
  wlp (MessagePipe_new debug) w (fun '(x, y) w' => owned l bs w' /\ x <> y /\
    objects w !! x = None /\ objects w !! y = None /\
    exists hx hy, objects w' = <[y := Scoped hy]> (<[x := Scoped hx]> (objects w))).
Proof.
  intros Hw. unfold MessagePipe_new, ScopedHandle_new. wlp_step.
  eapply wlp_mono; [by apply (new_object_spec l bs)|]. intros x w1 (Hx & Ho1 & Hw1). wlp_step.
  eapply wlp_mono; [by apply (new_object_spec l bs)|]. intros y w2 (Hy & Ho2 & Hw2). wlp_step.
  assert (Hne : y <> x) by (intros ->; rewrite Ho1, lookup_insert_eq in Hy; done).
  rewrite Ho1, lookup_insert_ne in Hy by done.
  eapply wlp_mono; [eapply (CreateMessagePipe_spec l bs w2); [done| |]|].
  - rewrite Ho2, lookup_insert_ne, Ho1 by done. apply lookup_insert_eq.
  - rewrite Ho2. apply lookup_insert_eq.
  - intros r w3 (Hw3 & Hr & hx & hy & Ho3). wlp_step.
    assert (Hend : owned l bs w3 /\ x <> y /\ objects w !! x = None /\ objects w !! y = None /\
      exists hx hy, objects w3 = <[y := Scoped hy]> (<[x := Scoped hx]> (objects w))).
    { split; [done|]. split; [done|]. split; [done|]. split; [done|]. exists hx, hy.
      by rewrite Ho3, Ho2, Ho1, (insert_insert_ne _ x y), insert_insert_eq, insert_insert_eq by done. }
    unfold c_assert, MOJO_DCHECK.
    destruct debug; [rewrite Hr by done; apply wlp_assert; [done|]|wlp_step]; by wlp_step.
Qed.

(** ** Messages *)

Definition empty_object : object := Msg empty.
Lemma empty_has_none : handles_in empty_object = [] /\ blocks_in empty_object = [].
Proof. done. Qed.

Lemma wlp_free l bs os w p (Q : unit -> process -> Prop) :
  owned l ((if p =? NULL then [] else [p]) ++ bs) (set_objects os w) ->
  (forall w', owned l bs (set_objects os w') -> objects w' = objects w -> Q tt w') -> wlp (free p) w Q.
Proof.
  intros Hw HQ. unfold free. destruct (p =? NULL); [wlp_step; by apply HQ|]. do 2 wlp_step.
  rewrite decide_True by (apply (ow_allocated _ _ _ Hw); by left). wlp_step. apply HQ; [|done].
  destruct Hw as [Hd Ho Hv Hb Ha [Hn Hfb] Hfv Hacc Hs Hg]. cbn in Hb. apply NoDup_cons in Hb as [Hp Hb].
  split; try done; cbn [set_blocks set_objects blocks next_block].
  - intros q Hq. apply elem_of_difference. split; [apply Ha; by right|]. intros ->%elem_of_singleton. done.
  - split; [done|]. intros q [Hq _]%elem_of_difference. by apply Hfb.
Qed.

(** The handles of a message are closed one by one. *)
Lemma wlp_close_all hs : forall l bs os w (Q : option False -> process -> Prop),
  owned (List.filter is_valid hs ++ l) bs (set_objects os w) ->
  (forall w', owned l bs (set_objects os w') -> objects w' = objects w -> Q None w') ->
  wlp (for_each (R := False) hs (fun h => (if is_valid h then CloseRaw h;; mret tt else mret tt);; mret None)) w Q.
Proof.
  induction hs as [|h hs IH]; intros l bs os w Q Hw HQ; cbn [for_each]; [wlp_step; by apply HQ|].
  do 2 wlp_step. cbn [List.filter] in Hw. destruct (is_valid h) eqn:Hv.
  - wlp_step. unfold CloseRaw. eapply wlp_MojoClose; [exact Hw|]. intros w1 Hw1 Ho1. do 2 wlp_step.
    eapply IH; [exact Hw1|]. intros w2 Hw2 Ho2. apply HQ; [done|congruence].
  - do 2 wlp_step. by eapply IH.
Qed.

Lemma FreeDataAndCloseHandles_spec l bs w x m :
  owned l bs w -> objects w !! x = Some (Msg m) ->
  wlp (FreeDataAndCloseHandles x) w (fun _ w' => objects w' = objects w /\ owned l bs (blank x empty_object w')).
Proof.
  intros Hw Hx.
  assert (Hb : owned (handles_in (Msg m) ++ l) (blocks_in (Msg m) ++ bs) (blank x empty_object w)).
  { eapply owned_update; [exact Hw|exact Hx|..]; cbn; rewrite app_nil_r; apply Permutation_app_comm. }
  unfold FreeDataAndCloseHandles. wlp_step. eapply wlp_get_message; [done|]. wlp_step.
  eapply wlp_free; [exact Hb|]. intros w1 Hw1 Ho1. wlp_step. eapply wlp_close_all; [exact Hw1|].
  intros w2 Hw2 Ho2. wlp_step. assert (Ho : objects w2 = objects w) by congruence. split; [done|].
  unfold blank. by rewrite Ho.
Qed.

Lemma Message_destructor_spec l bs w x m :
  owned l bs w -> objects w !! x = Some (Msg m) -> wlp (Message_destructor x) w (fun _ w' => owned l bs w').
Proof.
  intros Hw Hx. unfold Message_destructor. wlp_step.
  eapply wlp_mono; [by apply (FreeDataAndCloseHandles_spec l bs w x m)|]. intros _ w1 [Ho1 Hw1].
  unfold delete_object. wlp_step. eapply wlp_object_at; [by rewrite Ho1|]. wlp_step.
  rewrite <- (delete_insert_eq (objects w1) x empty_object).
  eapply (owned_delete _ _ _ x _ Hw1); [apply lookup_insert_eq|done|done].
Qed.

Lemma Reset_spec l bs w x m :
  owned l bs w -> objects w !! x = Some (Msg m) -> wlp (Reset x) w (fun _ w' => owned l bs w').
Proof.
  intros Hw Hx. unfold Reset. wlp_step.
  eapply wlp_mono; [by apply (FreeDataAndCloseHandles_spec l bs w x m)|]. intros _ w1 [Ho1 Hw1].
  eapply wlp_set_message; [by rewrite Ho1|]. eapply owned_fill; [exact Hw1|done|done].
Qed.

Definition with_handles (m : Message) (hs : list Z) : Message :=
  {| data_ := data_ m; data_num_bytes_ := data_num_bytes_ m; handles_ := hs |}.

Lemma Message_AllocData_spec l bs w x m n :
  owned l bs w -> objects w !! x = Some (Msg m) -> data_ m = NULL ->
  wlp (Message_AllocData debug x n) w (fun _ w' => owned l bs w' /\
    exists p, objects w' = <[x := Msg {| data_ := p; data_num_bytes_ := n; handles_ := handles_ m |}]> (objects w)).
Proof.
  intros Hw Hx Hnull. unfold Message_AllocData. wlp_step. eapply wlp_get_message; [done|]. wlp_step.
  apply wlp_c_assert; [by rewrite Hnull|]. wlp_step. unfold malloc. do 2 wlp_step. do 2 wlp_step. wlp_step.
  eapply wlp_set_message; [exact Hx|]. cbn. split; [|by eexists].
  pose proof (ow_fresh_blocks _ _ _ Hw) as [Hpos Hfresh]. set (p := next_block w) in *.
  assert (Hp : (p =? NULL) = false) by (apply Z.eqb_neq; unfold NULL; lia).
  assert (Hw1 : owned l (p :: bs) (set_blocks ({[p]} ∪ blocks w) (p + 1) w)).
  { destruct Hw as [Hd Ho Hv Hb Ha _ Hfv Hacc Hs Hg]. split; try done; cbn [set_blocks blocks next_block].
    - constructor; [|done]. intros Hin%Ha%Hfresh. unfold p in Hin. lia.
    - intros q [->|Hq]%elem_of_cons; [set_solver|]. apply elem_of_union_r. by apply Ha.
    - split; [lia|]. intros q [->%elem_of_singleton|Hq%Hfresh]%elem_of_union; lia. }
  eapply (owned_update _ _ _ _ _ x _ _ Hw1); [exact Hx|done|]. cbn. rewrite Hp, Hnull. cbn. rewrite app_nil_r.
  symmetry. apply Permutation_cons_append.
Qed.

Lemma MoveTo_spec l bs w x y mx my :
  owned l bs w -> objects w !! x = Some (Msg mx) -> objects w !! y = Some (Msg my) -> x <> y ->
  wlp (MoveTo debug x y) w (fun _ w' => owned l bs w').
Proof.
  intros Hw Hx Hy Hne. unfold MoveTo. wlp_step. apply wlp_c_assert; [by apply negb_true_iff, Nat.eqb_neq|]. wlp_step.
  eapply wlp_mono; [by apply (FreeDataAndCloseHandles_spec l bs w y my)|]. intros _ w1 [Ho1 Hw1].
  wlp_step. eapply wlp_get_message; [by rewrite Ho1|]. wlp_step. eapply wlp_get_message; [by rewrite Ho1|]. wlp_step.
  eapply wlp_set_message; [by rewrite Ho1|]. eapply wlp_set_message; [cbn; by rewrite lookup_insert_ne, Ho1|]. cbn.
  rewrite (insert_insert_ne _ x y) by done.
  assert (H2 : owned (handles_in (Msg mx) ++ l) (blocks_in (Msg mx) ++ bs)
    (blank y empty_object (set_objects (<[x := Msg empty]> (objects w1)) w1))).
  { unfold blank. cbn. rewrite (insert_insert_ne _ y x) by done.
    eapply (owned_update _ _ _ _ _ x (Msg mx) _ Hw1); [cbn; by rewrite lookup_insert_ne, Ho1| |];
      cbn; rewrite app_nil_r; apply Permutation_app_comm. }
  eapply (owned_fill _ _ _ _ _ _ _ _ H2); cbn; rewrite app_nil_r; apply Permutation_app_comm.
Qed.

Lemma filter_replicate n : List.filter is_valid (replicate n MOJO_HANDLE_INVALID) = [].
Proof. by induction n. Qed.
Lemma filter_valid hs : Forall (fun h => is_valid h = true) hs -> List.filter is_valid hs = hs.
Proof. induction 1 as [|h hs Hh _ IH]; [done|]. cbn. by rewrite Hh, IH. Qed.

Lemma wlp_second_read l bs w num_bytes num_handles (Q : sys_answer -> process -> Prop) :
  owned l bs w ->
  (forall rv hs w', owned l bs w' -> objects w' = objects w -> Q (MessageRead rv num_bytes num_handles hs) w') ->
  wlp (second_read num_bytes num_handles) w Q.
Proof.
  intros Hw HQ. unfold second_read. wlp_step. eapply wlp_sys_answer; [exact Hw|]. intros a w' Hw' _ Ho.
  destruct a as [| | | | |rv nb nh hs]; try done. destruct (_ && _) eqn:Heq; [|done].
  apply andb_true_iff in Heq as [H1%Z.eqb_eq H2%Z.eqb_eq]. subst. wlp_step. by apply HQ.
Qed.

Lemma ReadMessage_spec l bs w x pipe m :
  owned l bs w -> objects w !! x = Some (Msg m) -> is_valid pipe = true ->
  data_ m = NULL -> handles_ m = [] -> data_num_bytes_ m = 0 ->
  wlp (ReadMessage debug pipe x) w (fun _ w' => owned l bs w').
Proof.
  intros Hw Hx Hv Hnull Hhs Hnb. unfold ReadMessage. wlp_step. eapply wlp_get_message; [done|]. wlp_step.
  apply wlp_c_assert; [by rewrite Hv, Hhs, Hnb|]. wlp_step. eapply wlp_sys_answer; [done|].
  intros a w1 Hw1 _ Ho1. destruct a as [| | | |rv nb n|]; try done.
  destruct (negb _); [by wlp_step|]. wlp_step.
  eapply wlp_mono; [eapply Message_AllocData_spec; [done|by rewrite Ho1|done]|].
  intros _ w2 [Hw2 [p Ho2]]. set (m2 := {| data_ := p |}) in Ho2.
  assert (Hx2 : objects w2 !! x = Some (Msg m2)) by (rewrite Ho2; apply lookup_insert_eq).
  wlp_step. eapply wlp_get_message; [done|]. wlp_step. eapply wlp_set_message; [done|].
  set (w3 := set_objects _ w2).
  assert (Hw3 : owned l bs w3).
  { eapply owned_update; [exact Hw2|exact Hx2| |done]. cbn. unfold handles_in. cbn. rewrite filter_replicate, Hhs. done. }
  wlp_step. eapply wlp_second_read; [exact Hw3|]. intros rv' hs w4 Hw4 Ho4. wlp_step.
  apply wlp_mono with (P := fun _ w' => owned l bs w').
  - destruct (_ && _) eqn:Heq; [|destruct (rv' =? MOJO_RESULT_OK); [done|by wlp_step]].
    wlp_step. eapply wlp_open_new; [exact Hw4|]. intros w5 Ho5 Hw5 Hval _. wlp_step. apply wlp_notes. wlp_step.
    set (w6 := noted_all Took hs w5) in *.
    assert (Hx6 : objects w6 !! x = Some (Msg (with_handles m2 (replicate n MOJO_HANDLE_INVALID)))).
    { unfold w6. rewrite objects_noted_all, Ho5, Ho4. apply lookup_insert_eq. }
    eapply wlp_get_message; [exact Hx6|]. eapply wlp_set_message; [exact Hx6|].
    eapply owned_update; [exact Hw5|exact Hx6| |done].
    unfold handles_in. cbn. rewrite filter_replicate, filter_valid, app_nil_r by done. apply Permutation_app_comm.
  - intros _ w7 Hw7. wlp_step. apply wlp_c_assert; [apply Z.eqb_refl|]. wlp_step.
    apply wlp_c_assert; [apply Z.eqb_refl|]. by wlp_step.
Qed.

Lemma BlockingRead_spec l bs w c x h m :
  owned l bs w -> objects w !! c = Some (Scoped h) -> is_valid h = true -> objects w !! x = Some (Msg m) ->
  data_ m = NULL -> handles_ m = [] -> data_num_bytes_ m = 0 ->
  wlp (SynchronousConnector_BlockingRead debug c x) w (fun _ w' => owned l bs w').
Proof.
  intros Hw Hc Hv Hx ???. unfold SynchronousConnector_BlockingRead. wlp_step. eapply wlp_get_handle; [done|]. wlp_step.
  apply wlp_c_assert; [done|]. wlp_step. eapply wlp_sys_answer; [done|]. intros a w1 Hw1 _ Ho1.
  destruct a as [| | |rv| |]; try done. destruct (negb _); [by wlp_step|]. wlp_step.
  eapply wlp_mono; [eapply ReadMessage_spec; [done|by rewrite Ho1|done..]|]. intros r w2 Hw2. by wlp_step.
Qed.

Lemma filter_insert_invalid hs i h : hs !! i = Some h ->
  List.filter is_valid hs ≡ₚ handles_in (Scoped h) ++ List.filter is_valid (<[i := MOJO_HANDLE_INVALID]> hs).
Proof.
  intros Hi. rewrite <- (take_drop_middle hs i h Hi) at 1.
  rewrite insert_take_drop by (by eapply lookup_lt_Some). rewrite !List.filter_app. cbn [List.filter handles_in].
  unfold handles_in. cbn. destruct (is_valid h); cbn; [|done]. symmetry. apply Permutation_middle.
Qed.

Lemma FetchHandle_spec l bs w x m i :
  owned l bs w -> objects w !! x = Some (Msg m) -> is_Some (handles_ m !! i) ->
  wlp (FetchHandle x i) w (fun _ w' => owned l bs w').
Proof.
  intros Hw Hx [h Hi]. unfold FetchHandle. wlp_step. eapply wlp_get_message; [done|]. rewrite Hi. wlp_step.
  eapply wlp_set_message; [done|]. eapply wlp_mono; [eapply (new_object_spec l bs)|by intros y w2 (_ & _ & ?)].
  eapply owned_update; [exact Hw|exact Hx| |done].
  change (handles_in (Msg m)) with (List.filter is_valid (handles_ m)). rewrite (filter_insert_invalid _ _ _ Hi).
  rewrite <- app_assoc. apply Permutation_app_swap_app.
Qed.

Lemma AttachHandle_spec l bs w x y m h :
  owned l bs w -> objects w !! x = Some (Msg m) -> objects w !! y = Some (Scoped h) ->
  wlp (AttachHandle x y) w (fun _ w' => owned l bs w').
Proof.
  intros Hw Hx Hy. unfold AttachHandle. wlp_step. eapply wlp_mono; [by apply release_spec|].
  intros h' w1 (-> & Ho1 & Hw1).
  assert (Hx1 : objects w1 !! x = Some (Msg m)).
  { rewrite Ho1, lookup_insert_ne; [done|]. intros ->. congruence. }
  wlp_step. eapply wlp_get_message; [done|]. eapply wlp_set_message; [done|].
  eapply owned_update; [exact Hw1|exact Hx1| |done]. unfold handles_in. cbn [handles_].
  rewrite List.filter_app, <- !app_assoc. rewrite (Permutation_app_swap_app _ l). apply Permutation_app_head, Permutation_app_comm.
Qed.

(** Sending what a message has. *)
Lemma owned_sent hs : forall l bs os w,
  owned (hs ++ l) bs (set_objects os w) ->
  owned l bs (set_objects os (noted_all Gave hs (set_open (open_handles w ∖ list_to_set hs) w))).
Proof.
  induction hs as [|h hs IH]; intros l bs os w Hw.
  - cbn. replace (open_handles w ∖ ∅) with (open_handles w) by set_solver. by destruct w.
  - assert (Hg : owned (hs ++ l) bs (set_objects os (noted (Gave h) (set_open (open_handles w ∖ {[h]}) w)))).
    { apply (owned_gone h (hs ++ l) bs _ (open_handles w ∖ {[h]}) _ Hw); [by left|cbn; set_solver..]. }
    specialize (IH _ _ _ _ Hg). cbn [noted_all foldl].
    replace (noted (Gave h) (set_open (open_handles w ∖ list_to_set (h :: hs)) w))
      with (set_open (open_handles (noted (Gave h) (set_open (open_handles w ∖ {[h]}) w)) ∖ list_to_set hs)
              (noted (Gave h) (set_open (open_handles w ∖ {[h]}) w))); [exact IH|].
    unfold noted, set_open. cbn. f_equal. set_solver.
Qed.

Lemma Connector_WriteMessage_spec l bs w x m :
  owned l bs w -> objects w !! x = Some (Msg m) -> wlp (Connector_WriteMessage x) w (fun _ w' => owned l bs w').
Proof.
  intros Hw Hx. unfold Connector_WriteMessage. wlp_step. eapply wlp_get_message; [done|]. wlp_step.
  unfold MojoWriteMessage. wlp_step. eapply wlp_sys_answer; [done|]. intros a w1 Hw1 _ Ho1.
  destruct a as [| |rv| | |]; try done. destruct (rv =? MOJO_RESULT_OK) eqn:Hrv.
  - do 2 wlp_step. destruct (decide _) as [[Hn Hopen]|]; [|done]. do 3 wlp_step. apply wlp_notes. wlp_step. rewrite Hrv.
    set (w2 := noted_all _ _ _).
    assert (Hx2 : objects w2 !! x = Some (Msg m)) by (unfold w2; rewrite objects_noted_all; cbn; by rewrite Ho1).
    wlp_step. eapply wlp_set_message; [exact Hx2|]. wlp_step.
    assert (Hval : List.filter is_valid (handles_ m) = handles_ m).
    { apply filter_valid. eapply Forall_impl; [exact Hopen|]. intros h Hh. apply negb_true_iff, Z.eqb_neq.
      intros ->. by apply (ow_valid _ _ _ Hw1). }
    assert (Hb : owned (handles_ m ++ l) bs (set_objects (<[x := Msg (with_handles m [])]> (objects w1)) w1)).
    { eapply owned_update; [exact Hw1|by rewrite Ho1| |done]. unfold handles_in. cbn.
      rewrite Hval, app_nil_r. apply Permutation_app_comm. }
    apply owned_sent in Hb. fold w2 in Hb. replace (objects w2) with (objects w1); [exact Hb|].
    unfold w2. by rewrite objects_noted_all.
  - wlp_step. rewrite Hrv. by wlp_step.
Qed.

(** The synchronous connector, of a message without handles. *)
Lemma SynchronousConnector_Write_spec l bs w c x h m :
  owned l bs w -> objects w !! c = Some (Scoped h) -> is_valid h = true -> objects w !! x = Some (Msg m) ->
  handles_ m = [] -> wlp (SynchronousConnector_Write debug c x) w (fun _ w' => owned l bs w').
Proof.
  intros Hw Hc Hv Hx Hhs. unfold SynchronousConnector_Write. wlp_step. eapply wlp_get_handle; [done|]. wlp_step.
  apply wlp_c_assert; [done|]. wlp_step. eapply wlp_get_message; [done|]. rewrite Hhs. wlp_step.
  unfold MojoWriteMessage. wlp_step. eapply wlp_sys_answer; [done|]. intros a w1 Hw1 _ Ho1.
  destruct a as [| |rv| | |]; try done. destruct (rv =? MOJO_RESULT_OK); [|by do 2 wlp_step].
  do 2 wlp_step. destruct (decide _); [|done]. do 3 wlp_step. apply wlp_notes. do 2 wlp_step.
  apply (owned_sent [] l bs (objects w1)). destruct w1. exact Hw1.
Qed.

(** * Programs *)

Lemma wlp_require (b : process -> bool) w (Q : unit -> process -> Prop) : (b w = true -> Q tt w) -> wlp (require b) w Q.
Proof. intros HQ. unfold require. do 2 wlp_step. destruct (b w); [wlp_step; by apply HQ|done]. Qed.

Lemma is_scoped_true x w : is_scoped x w = true -> exists h, objects w !! x = Some (Scoped h).
Proof. unfold is_scoped. destruct (objects w !! x) as [[h|m]|]; eauto; done. Qed.
Lemma is_message_true x w : is_message x w = true -> exists m, objects w !! x = Some (Msg m).
Proof. unfold is_message. destruct (objects w !! x) as [[h|m]|]; eauto; done. Qed.
Lemma has_valid_true x w : has_valid x w = true -> exists h, objects w !! x = Some (Scoped h) /\ is_valid h = true.
Proof. unfold has_valid. destruct (objects w !! x) as [[h|m]|]; eauto; done. Qed.

Lemma adopt_spec h w (Q : unit -> process -> Prop) :
  owned [] [] w -> adoptable h w = true ->
  (forall w', owned (handles_in (Scoped h)) [] w' -> objects w' = objects w -> Q tt w') ->
  wlp (notes Took (List.filter is_valid [h])) w Q.
Proof.
  intros Hw Ha HQ. apply wlp_notes. apply HQ; [|apply objects_noted_all].
  change (handles_in (Scoped h)) with (List.filter is_valid [h]).
  rewrite <- (app_nil_r (List.filter is_valid [h])) at 1.
  unfold adoptable in Ha. cbn. destruct (is_valid h) eqn:Hv; [|done]. cbn in Ha.
  apply andb_true_iff in Ha as [Ho Hh]. apply bool_decide_eq_true in Ho, Hh.
  by apply owned_took.
Qed.

Lemma give_spec h w (Q : unit -> process -> Prop) :
  owned (handles_in (Scoped h)) [] w ->
  (forall w', owned [] [] w' -> Q tt w') -> wlp (notes Gave (List.filter is_valid [h])) w Q.
Proof.
  intros Hw HQ. apply wlp_notes, HQ. unfold handles_in in Hw. cbn in Hw |- *.
  destruct (is_valid h); [|done]. exact (owned_gone h [] [] _ (open_handles w) _ Hw (or_introl eq_refl) (fun x Hx _ => Hx) (fun x Hx => Hx)).
Qed.

(** Running an operation, and the rest of the program. *)
Lemma run_then {A} (c : M process A) (k : A -> prog) w :
  wlp c w (fun _ w' => owned [] [] w') ->
  (forall a w', owned [] [] w' -> wlp (run_prog debug (k a)) w' (fun _ w' => owned [] [] w')) ->
  wlp (c ≫= fun a => run_prog debug (k a)) w (fun _ w' => owned [] [] w').
Proof. intros Hc Hk. wlp_step. eapply wlp_mono; [exact Hc|]. intros a w' Hw'. by apply Hk. Qed.

Ltac required :=
  match goal with
  | H : is_scoped _ _ = true |- _ => apply is_scoped_true in H as [? ?]
  | H : is_message _ _ = true |- _ => apply is_message_true in H as [? ?]
  | H : has_valid _ _ = true |- _ => apply has_valid_true in H as (? & ? & ?)
  end.
Ltac require_step := wlp_step; apply wlp_require; intros ?; try required.

Lemma run_prog_owned p : forall w, owned [] [] w -> wlp (run_prog debug p) w (fun _ w' => owned [] [] w').
Proof.
  induction p as [|h k IH|x k IH|x y k IH|x y k IH|x k IH|x h k IH|x k IH|x k IH|x k IH|x y k IH|x y k IH|x k IH|k IH
    |k IH|x k IH|x k IH|x y k IH|c x k IH|x i k IH|x y k IH|x k IH|c x k IH]; intros w Hw; cbn [run_prog].
  - by wlp_step.
  - require_step. wlp_step. apply adopt_spec; [done..|]. intros w1 Hw1 _. apply run_then; [|auto].
    eapply wlp_mono; [apply (new_object_spec [] []); by rewrite app_nil_r|by intros z w2 (_ & _ & ?)].
  - require_step. apply run_then; [|auto]. unfold ScopedHandle_move. wlp_step.
    eapply wlp_mono; [by apply release_spec|]. intros h' w1 (-> & _ & Hw1).
    eapply wlp_mono; [by apply (new_object_spec [] [])|by intros z w2 (_ & _ & ?)].
  - do 2 require_step. apply run_then; [by eapply ScopedHandle_assign_spec|auto].
  - do 2 require_step. apply run_then; [by eapply swap_spec|auto].
  - require_step. wlp_step. eapply wlp_mono; [by apply release_spec|]. intros h' w1 (-> & _ & Hw1). wlp_step.
    rewrite app_nil_r in Hw1. apply give_spec; [done|]. auto.
  - do 2 require_step. wlp_step. apply adopt_spec; [done..|]. intros w1 Hw1 Ho1. apply run_then; [|auto].
    eapply wlp_mono; [eapply (reset_spec [] []); [by rewrite app_nil_r|by rewrite Ho1]|by intros z w2 []].
  - require_step. apply run_then; [by eapply wlp_mono; [by eapply ScopedHandle_destructor_spec|intros ? ? []]|auto].
  - require_step. apply run_then; [by eapply ReplaceHandle_spec|auto].
  - require_step. wlp_step. eapply wlp_get_handle; [done|]. apply run_then; [by apply DuplicateHandle_spec|auto].
  - do 2 require_step. apply run_then; [|auto].
    eapply wlp_mono; [by eapply CreateMessagePipe_spec|by intros r w1 []].
  - do 2 require_step. apply run_then; [|auto].
    eapply wlp_mono; [by eapply (CreateMessagePipe_spec _ _ _ x y)|by intros r w1 []].
  - require_step. apply run_then; [by eapply CreateSharedBuffer_spec|auto].
  - apply run_then; [by eapply wlp_mono; [by apply MessagePipe_new_spec|intros [? ?] ? []]|auto].
  - apply run_then; [|auto]. unfold Message_new.
    eapply wlp_mono; [by apply (new_object_spec [] [])|by intros z w2 (_ & _ & ?)].
  - require_step. apply run_then; [by eapply Message_destructor_spec|auto].
  - require_step. apply run_then; [by eapply Reset_spec|auto].
  - do 3 require_step. apply run_then; [|auto]. eapply MoveTo_spec; [done..|].
    by apply Nat.eqb_neq, negb_true_iff.
  - require_step. wlp_step. apply wlp_require. intros He. unfold is_empty in He.
    destruct (objects w !! x) as [[h|m]|] eqn:Hx; [done| |done]. apply andb_true_iff in He as [He Hnb].
    apply andb_true_iff in He as [Hnull Hhs]. apply run_then; [|auto].
    eapply BlockingRead_spec; [done..| | |]; [by apply Z.eqb_eq|by apply bool_decide_eq_true in Hhs|by apply Z.eqb_eq].
  - wlp_step. apply wlp_require. intros He. unfold has_index in He.
    destruct (objects w !! x) as [[h|m]|] eqn:Hx; [done| |done]. apply bool_decide_eq_true in He.
    apply run_then; [by eapply FetchHandle_spec|auto].
  - do 2 require_step. apply run_then; [by eapply AttachHandle_spec|auto].
  - require_step. apply run_then; [by eapply Connector_WriteMessage_spec|auto].
  - require_step. wlp_step. apply wlp_require. intros Hn. unfold no_handles in Hn.
    destruct (objects w !! x) as [[h|m]|] eqn:Hx; [done| |done]. apply bool_decide_eq_true in Hn.
    apply run_then; [by eapply SynchronousConnector_Write_spec|auto].
Qed.
End Facts.

(** * The promise *)

Lemma new_process_owned debug hs l :
  MOJO_HANDLE_INVALID ∉ hs -> Forall (granted debug) l -> owned debug [] [] (new_process hs l).
Proof.
  intros Hv Hl. split; unfold held, held_blocks; cbn; rewrite ?map_to_list_empty; cbn; try done.
  - constructor.
  - by intros h Hh%elem_of_nil.
  - constructor.
  - by intros p Hp%elem_of_nil.
  - intros x. rewrite lookup_empty. by intros [].
Qed.

(** C20: In every program of scoped handles, messages and connectors - which moves, assigns
    to itself or another, swaps, resets, creates, duplicates, replaces, sends, receives, takes
    out of and puts into messages, and gives the synchronous connector only messages without
    handles, since it does not take them out (C36) - no assertion fails and nothing is used
    or freed that is gone; only open handles are closed; and every handle that these objects
    took over was given away, closed exactly once, or is held by exactly one of them, and is
    open then. *)
Theorem handles_accounted debug hs l p :
  MOJO_HANDLE_INVALID ∉ hs -> Forall (granted debug) l ->
  match run_prog debug p (new_process hs l) with
  | Ok (_, w) =>
      took (trace w) ≡ₚ gone (trace w) ++ held w /\ Forall no_stray (trace w) /\
      NoDup (held w) /\ Forall (fun h => h ∈ open_handles w) (held w)
  | Abort | Fault => False
  | OutOfFuel => True
  end.
Proof.
  intros Hv Hl. pose proof (run_prog_owned debug p _ (new_process_owned debug hs l Hv Hl)) as H.
  unfold gwlp in H. destruct (run_prog _ _ _) as [[_ w]| | |]; try done.
  destruct H as [Hd Ho _ _ _ _ _ Hacc Hs _]. split; [done|]. split; [done|]. split; [done|]. by apply Forall_forall.
Qed.
