(* ===== verification/HandlesExamples.v ===== *)
(** Handles on concrete inputs: a program that sends and receives handles, and what the
    synchronous connector does to the handles that it sends. *)
From stdpp Require Import base numbers list option gmap sets.
From Stdlib Require Import ZArith Lia.
From S2P Require Import Prelude Result Buffer Validate Serialization Handles HandlesFacts.

Module Samples.
(** Makes a pipe, sends one end through the other, replaces the rights of a handle, reads a
    message with two handles, takes one out, and destroys what is left. *)
Definition send_and_receive : prog :=
  NewPipe (fun p => NewMessage (fun m => Attach m (p.1) (WriteMsg m (fun _ =>
  Replace (p.2) (fun _ => NewMessage (fun m2 => BlockingRead (p.2) m2 (fun _ =>
  Fetch m2 0 (fun h => SwapHandles h (p.2) (AssignHandle h h (DestroyMessage m2 (DestroyHandle h
  (DestroyMessage m (ReleaseHandle (p.2) (fun _ => Exit)))))))))))))).
Definition send_and_receive_answers : list sys_answer :=
  [NewHandles [5; 6]; MessageWritten MOJO_RESULT_OK; NewHandles [7]; WaitDone MOJO_RESULT_OK;
   NextMessage MOJO_SYSTEM_RESULT_RESOURCE_EXHAUSTED 24 2; MessageRead MOJO_RESULT_OK 24 2 [8; 9]].
Definition send_and_receive_trace : list event :=
  [Gave 8; Closed 7; Closed 9; Took 9; Took 8; Gave 6; Took 7; Gave 5; Took 6; Took 5].

(** A synchronous connector on handle 5, and a message with handle 7. *)
Definition mk_message (hs : list Z) : Message := {| data_ := NULL; data_num_bytes_ := 0; handles_ := hs |}.
Definition sync_process : process :=
  set_objects {[1%nat := Scoped 5; 2%nat := Msg (mk_message [7])]}
    (new_process {[5; 7]} [MessageWritten MOJO_RESULT_OK]).
(** The system gives the number 7 to a new handle, which a scoped handle owns. *)
Definition reissued (w : process) : process :=
  set_objects (<[3%nat := Scoped 7]> (objects w)) (set_open ({[7]} ∪ open_handles w) w).
End Samples.
Import Samples.

Lemma send_and_receive_runs : exists w,
  run_prog true send_and_receive (new_process ∅ send_and_receive_answers) = Ok (tt, w) /\
  trace w = send_and_receive_trace.
Proof.
  destruct (outcome_returns (run_prog true send_and_receive (new_process ∅ send_and_receive_answers))
    (fun x => match trace x.2 with
              | [Gave 8; Closed 7; Closed 9; Took 9; Took 8; Gave 6; Took 7; Gave 5; Took 6; Took 5] => true
              | _ => false
              end)) as ([[] w] & Hrun & Ht); [vm_compute; reflexivity|].
  exists w. split; [exact Hrun|]. revert Hrun. vm_compute. by intros [= <-].
Qed.

Lemma handles_accounted_witness :
  exists w, run_prog true send_and_receive (new_process ∅ send_and_receive_answers) = Ok (tt, w) /\
    took (trace w) ≡ₚ gone (trace w) ++ held w.
Proof.
  destruct send_and_receive_runs as (w & Hrun & _). exists w. split; [exact Hrun|].
  pose proof (handles_accounted true ∅ send_and_receive_answers send_and_receive
    (not_elem_of_empty _) ltac:(repeat constructor)) as H.
  rewrite Hrun in H. exact (proj1 H).
Defined.

(** ** What the synchronous connector leaves in a message *)

(** The loop of [FreeDataAndCloseHandles]. *)
Lemma close_loop_run hs : forall w, exists w',
  for_each (R := False) hs (fun h =>
    (if is_valid h then CloseRaw h;; mret tt else mret tt);; mret None) w = Ok (None, w') /\
  objects w' = objects w /\ open_handles w' = open_handles w ∖ list_to_set (List.filter is_valid hs).
Proof.
  induction hs as [|h hs IH]; intros w; cbn [for_each List.filter].
  { exists w. split; [done|]. split; [done|set_solver]. }
  assert (exists w1, ((if is_valid h then CloseRaw h;; mret tt else mret tt);; mret None : M process (option False)) w = Ok (None, w1) /\
    objects w1 = objects w /\ open_handles w1 = open_handles w ∖ (if is_valid h then {[h]} else ∅)) as (w1 & Hrun & Ho & Hop).
  { destruct (is_valid h); [|exists w; split; [done|split; [done|set_solver]]].
    unfold CloseRaw, MojoClose, mbind, M_bind, get, modify, note, mret, M_ret. destruct (decide (h ∈ open_handles w)) as [Hin|Hin].
    - by eexists.
    - eexists. split; [done|]. split; [done|]. cbn. set_solver. }
  rewrite (run_bind _ _ _ _ _ Hrun). destruct (IH w1) as (w2 & -> & Ho2 & Hop2). exists w2.
  split; [done|]. split; [by rewrite Ho2|]. rewrite Hop2, Hop. destruct (is_valid h); cbn; set_solver.
Qed.

Lemma Message_destructor_run x m w : objects w !! x = Some (Msg m) -> data_ m = NULL \/ data_ m ∈ blocks w ->
  exists w', Message_destructor x w = Ok (tt, w') /\ objects w' = delete x (objects w) /\
    open_handles w' = open_handles w ∖ list_to_set (List.filter is_valid (handles_ m)).
Proof.
  intros Hx Hdata.
  assert (exists w1, free (data_ m) w = Ok (tt, w1) /\ objects w1 = objects w /\ open_handles w1 = open_handles w)
    as (w1 & Hfree & Ho1 & Hop1).
  { unfold free, mbind, M_bind, get, put. destruct (Z.eqb_spec (data_ m) NULL); [by eexists|].
    destruct Hdata as [?|Hin]; [done|]. rewrite decide_True by done. by eexists. }
  destruct (close_loop_run (handles_ m) w1) as (w2 & Hloop & Ho2 & Hop2).
  assert (Hget : forall w, objects w !! x = Some (Msg m) -> get_message x w = Ok (m, w)).
  { intros w' Hx'. unfold get_message, object_at, mbind, M_bind, get. by rewrite Hx'. }
  exists (set_objects (delete x (objects w2)) w2). cbn. rewrite Ho2, Ho1, Hop2, Hop1. split; [|done].
  unfold Message_destructor, FreeDataAndCloseHandles.
  assert (Hfd : (m ← get_message x; free (data_ m);;
      for_each (R := False) (handles_ m) (fun h => (if is_valid h then CloseRaw h;; mret tt else mret tt);; mret None);;
      mret tt : M process unit) w = Ok (tt, w2)).
  { by rewrite (run_bind _ _ _ _ _ (Hget w Hx)), (run_bind _ _ _ _ _ Hfree), (run_bind _ _ _ _ _ Hloop). }
  rewrite (run_bind _ _ _ _ _ Hfd). unfold delete_object, object_at, mbind, M_bind, get, modify.
  rewrite Ho2, Ho1, Hx. cbn. by rewrite Ho2, Ho1.
Qed.

Lemma notes_run f hs w : notes f hs w = Ok (tt, noted_all f hs w).
Proof.
  assert (Hloop : for_each (R := False) hs (fun h => note (f h);; mret None) w = Ok (None, noted_all f hs w)).
  { revert w. induction hs as [|h hs IH]; intros w; [done|]. cbn [for_each noted_all foldl].
    rewrite (run_bind _ _ w None (noted (f h) w)) by done. apply IH. }
  unfold notes. by rewrite (run_bind _ _ _ _ _ Hloop).
Qed.

(** Writing a message whose handles are open. *)
Lemma MojoWriteMessage_run hs l w : answers w = MessageWritten MOJO_RESULT_OK :: l -> NoDup hs ->
  Forall (fun h => h ∈ open_handles w) hs ->
  MojoWriteMessage hs w =
    Ok (MOJO_RESULT_OK, noted_all Gave hs (set_open (open_handles w ∖ list_to_set hs) (set_answers l w))).
Proof.
  intros Hans Hd Hopen. unfold MojoWriteMessage.
  assert (Hnext : next_answer w = Ok (MessageWritten MOJO_RESULT_OK, set_answers l w)).
  { unfold next_answer, mbind, M_bind, get. by rewrite Hans. }
  rewrite (run_bind _ _ _ _ _ Hnext). rewrite Z.eqb_refl.
  rewrite (run_bind _ _ _ _ _ (eq_refl : get (set_answers l w) = Ok (set_answers l w, set_answers l w))).
  rewrite decide_True by done. rewrite (run_bind _ _ _ _ _ (eq_refl : modify _ _ = Ok (tt, _))).
  by rewrite (run_bind _ _ _ _ _ (notes_run _ _ _)).
Qed.

(** The owner of a handle that was closed under it. *)
Lemma stray_destructor y h w : objects w !! y = Some (Scoped h) -> is_valid h = true -> h ∉ open_handles w ->
  ScopedHandle_destructor true y w = Abort /\
  exists w', ScopedHandle_destructor false y w = Ok (tt, w') /\ StrayClose h ∈ trace w'.
Proof.
  intros Hy Hv Hh.
  assert (Hget : get_handle y w = Ok (h, w)) by (unfold get_handle, object_at, mbind, M_bind, get; by rewrite Hy).
  assert (Hclose : MojoClose h w = Ok (MOJO_SYSTEM_RESULT_INVALID_ARGUMENT, noted (StrayClose h) w)).
  { unfold MojoClose, mbind, M_bind, get. by rewrite decide_False. }
  assert (Hc : forall debug, CloseIfNecessary debug y w =
    (result ← MojoClose h; c_assert debug (result =? MOJO_RESULT_OK)) w).
  { intros debug. unfold CloseIfNecessary. rewrite (run_bind _ _ _ _ _ Hget). by rewrite Hv. }
  split.
  - unfold ScopedHandle_destructor, mbind, M_bind. rewrite Hc. unfold mbind, M_bind. by rewrite Hclose.
  - exists (set_objects (delete y (objects w)) (noted (StrayClose h) w)). split; [|left].
    unfold ScopedHandle_destructor. rewrite (run_bind _ _ w tt (noted (StrayClose h) w)).
    2: { rewrite Hc, (run_bind _ _ _ _ _ Hclose). reflexivity. }
    unfold delete_object, object_at, mbind, M_bind, get, modify. cbn. by rewrite Hy.
Qed.

(** C36: A message that the synchronous connector has sent still has all its handles,
    although they are no longer open here. Whatever happens then, when it is destroyed it
    closes the handles that have their numbers by that time: if the system has given one of
    them to a handle that some scoped handle owns, that is closed under its owner, and the
    destructor of the owner closes it again, which fails an assertion of a debug build. *)
Theorem sync_write_closes_sent_handles debug c x hc m l w
    (Hc : objects w !! c = Some (Scoped hc)) (Hv : is_valid hc = true) (Hx : objects w !! x = Some (Msg m))
    (Hd : NoDup (handles_ m)) (Hopen : Forall (fun h => h ∈ open_handles w) (handles_ m))
    (Hvalid : Forall (fun h => is_valid h = true) (handles_ m))
    (Hans : answers w = MessageWritten MOJO_RESULT_OK :: l) :
  exists w1, SynchronousConnector_Write debug c x w = Ok (true, w1) /\
    objects w1 = objects w /\ open_handles w1 = open_handles w ∖ list_to_set (handles_ m) /\
    forall w2 y h, objects w2 !! x = Some (Msg m) -> data_ m = NULL \/ data_ m ∈ blocks w2 ->
      objects w2 !! y = Some (Scoped h) -> h ∈ handles_ m ->
      exists w3, Message_destructor x w2 = Ok (tt, w3) /\
        objects w3 !! y = Some (Scoped h) /\ h ∉ open_handles w3 /\
        ScopedHandle_destructor true y w3 = Abort /\
        exists w4, ScopedHandle_destructor false y w3 = Ok (tt, w4) /\ StrayClose h ∈ trace w4.
Proof.
  set (w1 := noted_all Gave (handles_ m) (set_open (open_handles w ∖ list_to_set (handles_ m)) (set_answers l w))).
  assert (Hkeep : forall f hs w, open_handles (noted_all f hs w) = open_handles w).
  { intros f hs. induction hs as [|h hs IH]; intros w0; [done|]. exact (IH (noted (f h) w0)). }
  exists w1. split_and!.
  - unfold SynchronousConnector_Write. rewrite (run_bind _ _ w hc w).
    2: { unfold get_handle, object_at, mbind, M_bind, get. by rewrite Hc. }
    rewrite (run_bind _ _ w tt w) by (rewrite Hv; by destruct debug). rewrite (run_bind _ _ w m w).
    2: { unfold get_message, object_at, mbind, M_bind, get. by rewrite Hx. }
    by rewrite (run_bind _ _ _ _ _ (MojoWriteMessage_run _ l w Hans Hd Hopen)).
  - unfold w1. by rewrite objects_noted_all.
  - unfold w1. by rewrite Hkeep.
  - intros w2 y h Hx2 Hdata Hy Hin. destruct (Message_destructor_run x m w2 Hx2 Hdata) as (w3 & Hrun & Ho3 & Hop3).
    assert (Hxy : x <> y) by (intros ->; congruence).
    assert (Hy3 : objects w3 !! y = Some (Scoped h)) by (by rewrite Ho3, lookup_delete_ne).
    rewrite filter_valid in Hop3 by done.
    assert (Hh3 : h ∉ open_handles w3) by (rewrite Hop3; set_solver).
    assert (Hvh : is_valid h = true) by (by eapply Forall_forall in Hvalid).
    exists w3. do 3 (split; [done|]). by apply stray_destructor.
Qed.

Lemma sync_write_closes_sent_handles_witness :
  exists w1, SynchronousConnector_Write true 1 2 sync_process = Ok (true, w1) /\
    exists w3, Message_destructor 2 (reissued w1) = Ok (tt, w3) /\ ScopedHandle_destructor true 3 w3 = Abort.
Proof.
  destruct (sync_write_closes_sent_handles true 1 2 5 (mk_message [7]) [] sync_process) as (w1 & Hrun & Ho & _ & H);
    [reflexivity|reflexivity|reflexivity|apply NoDup_singleton|by repeat constructor; vm_compute|by repeat constructor|reflexivity|].
  exists w1. split; [exact Hrun|].
  destruct (H (reissued w1) 3%nat 7) as (w3 & H1 & _ & _ & H2 & _).
  - cbn. rewrite lookup_insert_ne by done. rewrite Ho. reflexivity.
  - left. reflexivity.
  - apply lookup_insert_eq.
  - left.
  - exact (ex_intro _ w3 (conj H1 H2)).
Defined.
