(* ===== verification/Arrays.v ===== *)
(** Serialized arrays and maps of the C++ bindings: [Array_Data] and its traits
    (src/cpp/bindings/lib/array_internal.h, array_internal.cc), [Map_Data]
    (map_data_internal.h), their validation (validate_params.h, validation_util.cc)
    and the serialization of arrays of plain data, bools and handles
    (array_serialization.h). *)
From stdpp Require Import base numbers list option gmap.
From coqutil Require Import Byte Word.LittleEndianList.
From Stdlib Require Import ZArith Lia.
From S2P Require Import Prelude CMem Buffer Descriptor Validate Serialization.

(** * Types of elements

    The parameter [T] of [Array_Data<T>]: plain data of a size, characters, bools,
    handles, [Interface_Data], pointers to structs, unions, pointers to arrays and
    pointers to maps. Generated types are known by a number. *)
Inductive data_type :=
  | Primitive (size : Z)
  | Char
  | Bool
  | HandleType
  | Interface
  | Struct (id : nat)
  | Union (id : nat)
  | ArrayOf (t : data_type)
  | MapOf (key value : data_type).

Definition kMaxUint32 : Z := 0xFFFFFFFF.
Definition sizeof_ArrayHeader : Z := 8.
Definition sizeof_Map_Data : Z := 24.

(** [sizeof(StorageType)]: pointers are 64-bit offsets, unions are in place, and the
    storage of bools is bytes. *)
Definition sizeof_StorageType (t : data_type) : Z :=
  match t with
  | Primitive size => size
  | Char | Bool => 1
  | HandleType => 4
  | Interface => 8
  | Union _ => 16
  | Struct _ | ArrayOf _ | MapOf _ _ => 8
  end.

Definition is_bool (t : data_type) : bool := match t with Bool => true | _ => false end.

(** ** [ArrayDataTraits]

    All of these are [uint32_t]. *)
Definition kMaxNumElements (t : data_type) : Z :=
  if is_bool t then kMaxUint32 else (kMaxUint32 - sizeof_ArrayHeader) / sizeof_StorageType t.

Definition GetStorageSize (debug : bool) (t : data_type) (num_elements : Z) : outcome Z :=
  if is_bool t then mret (wrap32 (sizeof_ArrayHeader + wrap32 (num_elements + 7) / 8))
  else if debug && negb (num_elements <=? kMaxNumElements t) then Abort
  else mret (wrap32 (wrap64 (sizeof_ArrayHeader + sizeof_StorageType t * num_elements))).

(** * validate_params.h *)

Inductive ArrayValidateParams :=
  Params (expected_num_elements : Z) (element_is_nullable : bool)
    (element_validate_params : option ArrayValidateParams).
Definition expected_num_elements '(Params n _ _) : Z := n.
Definition element_is_nullable '(Params _ b _) : bool := b.
Definition element_validate_params '(Params _ _ p) : option ArrayValidateParams := p.

(** map_data_internal.h *)
Definition GetMapKeyValidateParamsDefault : ArrayValidateParams := Params 0 false None.
Definition GetMapKeyValidateParamsForStrings : ArrayValidateParams :=
  Params 0 false (Some (Params 0 false None)).
Definition MapKeyValidateParamsFactory (key : data_type) : ArrayValidateParams :=
  match key with
  | ArrayOf Char => GetMapKeyValidateParamsForStrings
  | _ => GetMapKeyValidateParamsDefault
  end.

(** * Validation *)

Section Validation.
Context (debug : bool) (m : mem).
(** Generated code: the validators of structs, and of unions with the check for
    null unions. *)
Context (struct_Validate : nat -> Z -> M BoundsChecker ValidationError)
  (union_Validate : nat -> Z -> M BoundsChecker ValidationError).

(** [*offset] is read at [offset]. *)
Definition ValidateEncodedPointer (offset : Z) : M BoundsChecker bool :=
  v ← lift (load64 m offset);
  mret ((v <=? kMaxUint32) && (wrap64 (offset + wrap32 v) >=? offset)).

Definition decode_pointer_raw (offset : Z) : M BoundsChecker Z :=
  v ← lift (load64 m offset);
  if v =? 0 then mret NULL else mret (wrap64 (offset + v)).

(** A union is null when its size, its first word, is 0. *)
Definition union_is_null (data : Z) : M BoundsChecker bool :=
  size ← lift (load32 m data); mret (size =? 0).

(** A loop over the elements that stops at the first error. *)
Definition for_elements (num_elements : Z) (body : Z -> M BoundsChecker ValidationError) :
    M BoundsChecker ValidationError :=
  r ← for_upto (S (Z.to_nat num_elements)) 0 (mret num_elements) (fun i =>
    retval ← body i;
    mret (if bool_decide (retval <> NONE) then Some retval else None));
  mret (default NONE r).

(** [ArraySerializationHelper<Handle, true, false>::ValidateElements] *)
Definition ValidateHandles (num_elements elements : Z) (params : ArrayValidateParams) :
    M BoundsChecker ValidationError :=
  MOJO_DCHECK debug (bool_decide (element_validate_params params = None));;
  for_elements num_elements (fun i =>
    v ← lift (load32 m (elements + 4 * i));
    if negb (element_is_nullable params) && (v =? kEncodedInvalidHandleValue)
    then mret UNEXPECTED_INVALID_HANDLE
    else
      claimed ← ClaimHandle v;
      mret (if (claimed : bool) then NONE else ILLEGAL_HANDLE)).

(** Of pointers; [Run] is [ValidateCaller<P>::Run]. *)
Definition ValidatePointers (Run : Z -> option ArrayValidateParams -> M BoundsChecker ValidationError)
    (num_elements elements : Z) (params : ArrayValidateParams) : M BoundsChecker ValidationError :=
  for_elements num_elements (fun i =>
    let element := elements + 8 * i in
    offset ← lift (load64 m element);
    if negb (element_is_nullable params) && (offset =? 0) then mret UNEXPECTED_NULL_POINTER
    else
      ok ← ValidateEncodedPointer element;
      if negb ok then mret ILLEGAL_POINTER
      else data ← decode_pointer_raw element; Run data (element_validate_params params)).

(** Of unions. *)
Definition ValidateUnions (id : nat) (num_elements elements : Z) (params : ArrayValidateParams) :
    M BoundsChecker ValidationError :=
  MOJO_DCHECK debug (bool_decide (element_validate_params params = None));;
  for_elements num_elements (fun i =>
    let element := elements + 16 * i in
    is_null ← union_is_null element;
    if negb (element_is_nullable params) && is_null then mret UNEXPECTED_NULL_UNION
    else union_Validate id element).

(** Of anything else. *)
Definition ValidatePlain (params : ArrayValidateParams) : M BoundsChecker ValidationError :=
  MOJO_DCHECK debug (negb (element_is_nullable params));;
  MOJO_DCHECK debug (bool_decide (element_validate_params params = None));;
  mret NONE.

(** [ValidateCaller<P>::Run] for structs, arrays and maps; a null [params] is
    read through for the last two, unless there is no array. *)
Definition RunStruct (id : nat) (data : Z) (params : option ArrayValidateParams) :
    M BoundsChecker ValidationError :=
  MOJO_DCHECK debug (bool_decide (params = None));;
  struct_Validate id data.
Definition RunArray (Validate : Z -> ArrayValidateParams -> M BoundsChecker ValidationError)
    (data : Z) (params : option ArrayValidateParams) : M BoundsChecker ValidationError :=
  if data =? NULL then mret NONE
  else match params with Some params => Validate data params | None => lift Fault end.

(** [Map_Data<Key, Value>::Validate], given the validators of the two arrays. *)
Definition Map_Validate (keys_Validate : Z -> ArrayValidateParams -> M BoundsChecker ValidationError)
    (values_Validate : Z -> option ArrayValidateParams -> M BoundsChecker ValidationError)
    (key_validate_params : ArrayValidateParams) (data : Z)
    (value_validate_params : option ArrayValidateParams) : M BoundsChecker ValidationError :=
  if data =? NULL then mret NONE
  else
    retval ← ValidateStructHeaderAndClaimMemory m data;
    if bool_decide (retval <> NONE) then mret retval
    else
      num_bytes ← lift (load32 m data);
      version ← lift (load32 m (data + 4));
      if negb (num_bytes =? sizeof_Map_Data) || negb (version =? 0) then mret UNEXPECTED_STRUCT_HEADER
      else
        let keys := data + 8 in
        let values := data + 16 in
        ok ← ValidateEncodedPointer keys;
        if negb ok then mret ILLEGAL_POINTER
        else
          keys_offset ← lift (load64 m keys);
          if keys_offset =? 0 then mret UNEXPECTED_NULL_POINTER
          else
            key_header ← decode_pointer_raw keys;
            retval ← keys_Validate key_header key_validate_params;
            if bool_decide (retval <> NONE) then mret retval
            else
              ok ← ValidateEncodedPointer values;
              if negb ok then mret ILLEGAL_POINTER
              else
                values_offset ← lift (load64 m values);
                if values_offset =? 0 then mret UNEXPECTED_NULL_POINTER
                else
                  value_header ← decode_pointer_raw values;
                  retval ← values_Validate value_header value_validate_params;
                  if bool_decide (retval <> NONE) then mret retval
                  else
                    num_keys ← lift (load32 m (key_header + 4));
                    num_values ← lift (load32 m (value_header + 4));
                    mret (if negb (num_keys =? num_values) then DIFFERENT_SIZED_ARRAYS_IN_MAP else NONE).

(** [Array_Data<T>::Validate], given [Helper::ValidateElements]. *)
Definition ValidateArray (t : data_type)
    (ValidateElements : Z -> Z -> ArrayValidateParams -> M BoundsChecker ValidationError)
    (data : Z) (params : ArrayValidateParams) : M BoundsChecker ValidationError :=
  if data =? NULL then mret NONE
  else if negb (IsAligned data) then mret MISALIGNED_OBJECT
  else
    b ← get;
    if negb (IsValidRange b data sizeof_ArrayHeader) then mret ILLEGAL_MEMORY_RANGE
    else
      num_bytes ← lift (load32 m data);
      num_elements ← lift (load32 m (data + 4));
      too_small ←
        (if num_elements >? kMaxNumElements t then mret true
         else storage_size ← lift (GetStorageSize debug t num_elements);
              mret (num_bytes <? storage_size));
      if (too_small : bool) then mret UNEXPECTED_ARRAY_HEADER
      else if negb (expected_num_elements params =? 0) &&
              negb (num_elements =? expected_num_elements params)
      then mret UNEXPECTED_ARRAY_HEADER
      else
        claimed ← ClaimMemory data num_bytes;
        if negb claimed then mret ILLEGAL_MEMORY_RANGE
        else ValidateElements num_elements (data + sizeof_ArrayHeader) params.

Fixpoint Array_Validate (t : data_type) : Z -> ArrayValidateParams -> M BoundsChecker ValidationError :=
  ValidateArray t (fun num_elements elements params =>
    match t with
    | Primitive _ | Char | Bool | Interface => ValidatePlain params
    | HandleType => ValidateHandles num_elements elements params
    | Struct id => ValidatePointers (RunStruct id) num_elements elements params
    | Union id => ValidateUnions id num_elements elements params
    | ArrayOf t => ValidatePointers (RunArray (Array_Validate t)) num_elements elements params
    | MapOf k v =>
        ValidatePointers (Map_Validate (Array_Validate k) (RunArray (Array_Validate v))
          (MapKeyValidateParamsFactory k)) num_elements elements params
    end).
End Validation.

(** * Objects in memory *)

Section Objects.
Context (debug : bool).

(** [Array_Data<T>::New]: the allocated memory is zero. *)
Definition Array_New (t : data_type) (num_elements : Z) : M (mem * FixedBuffer) Z :=
  if num_elements >? kMaxNumElements t then mret NULL
  else
    num_bytes ← lift (GetStorageSize debug t num_elements);
    p ← on_snd (FixedBuffer_Allocate debug num_bytes);
    mstore 4 p num_bytes;;
    mstore 4 (p + 4) num_elements;;
    mret p.

Definition Map_New : M (mem * FixedBuffer) Z :=
  p ← on_snd (FixedBuffer_Allocate debug sizeof_Map_Data);
  mstore 4 p sizeof_Map_Data;;
  mstore 4 (p + 4) 0;;
  mret p.

Definition Array_size {X} (data : Z) : M (mem * X) Z := mload 4 (data + 4).
Definition storage (data : Z) : Z := data + sizeof_ArrayHeader.

(** [at(offset)]: the address of the element; of a bool, that of its byte, with a
    mask ([BitRef]). *)
Definition at_ {X} (t : data_type) (data offset : Z) : M (mem * X) Z :=
  n ← Array_size data;
  MOJO_DCHECK debug (offset <? n);;
  mret (storage data + sizeof_StorageType t * offset).
Definition ToRef (data offset : Z) : Z * Z := (storage data + offset / 8, Z.shiftl 1 (offset mod 8)).
Definition at_bool {X} (data offset : Z) : M (mem * X) (Z * Z) :=
  n ← Array_size data;
  MOJO_DCHECK debug (offset <? n);;
  mret (ToRef data offset).

(** [BitRef::operator=] and [BitRef::operator bool]. *)
Definition BitRef_assign {X} (ref : Z * Z) (value : bool) : M (mem * X) unit :=
  let '(storage_, mask_) := ref in
  v ← mload 1 storage_;
  mstore 1 storage_ (if value then Z.lor v mask_ else Z.land v (255 - mask_)).
Definition BitRef_bool {X} (ref : Z * Z) : M (mem * X) bool :=
  let '(storage_, mask_) := ref in
  v ← mload 1 storage_; mret (negb (Z.land v mask_ =? 0)).

(** ** Pointers and handles

    [Encode] and [Decode] of a pointer, given the methods of what it points to;
    generated code has those of structs and unions. *)
Definition Encode (EncodePointersAndHandles : Z -> M (mem * list Z) unit) (obj : Z) : M (mem * list Z) unit :=
  p ← mload 8 obj;
  (if p =? NULL then mret tt else EncodePointersAndHandles p);;
  EncodePointer debug p obj.
Definition Decode (DecodePointersAndHandles : Z -> M (mem * list Z) unit) (obj : Z) : M (mem * list Z) unit :=
  p ← DecodePointerRaw obj;
  mstore 8 obj p;;
  if p =? NULL then mret tt else DecodePointersAndHandles p.

Context (struct_Encode struct_Decode union_Encode union_Decode : nat -> Z -> M (mem * list Z) unit).

(** The elements of the array [data], one after the other. *)
Definition each_element (data size : Z) (f : Z -> M (mem * list Z) unit) : M (mem * list Z) unit :=
  n ← Array_size data;
  for_upto (R := False) (S (Z.to_nat n)) 0 (Array_size data)
    (fun i => f (storage data + size * i);; mret None);;
  mret tt.

Definition Map_EncodePointersAndHandles (keys_Encode values_Encode : Z -> M (mem * list Z) unit)
    (data : Z) : M (mem * list Z) unit :=
  Encode keys_Encode (data + 8);; Encode values_Encode (data + 16).
Definition Map_DecodePointersAndHandles (keys_Decode values_Decode : Z -> M (mem * list Z) unit)
    (data : Z) : M (mem * list Z) unit :=
  Decode keys_Decode (data + 8);; Decode values_Decode (data + 16).

Fixpoint Array_EncodePointersAndHandles (t : data_type) (data : Z) : M (mem * list Z) unit :=
  match t with
  | Primitive _ | Char | Bool | Interface => mret tt
  | HandleType => each_element data 4 EncodeHandle
  | Struct id => each_element data 8 (Encode (struct_Encode id))
  | Union id => each_element data 16 (union_Encode id)
  | ArrayOf t => each_element data 8 (Encode (Array_EncodePointersAndHandles t))
  | MapOf k v => each_element data 8 (Encode (Map_EncodePointersAndHandles
      (Array_EncodePointersAndHandles k) (Array_EncodePointersAndHandles v)))
  end.

Fixpoint Array_DecodePointersAndHandles (t : data_type) (data : Z) : M (mem * list Z) unit :=
  match t with
  | Primitive _ | Char | Bool | Interface => mret tt
  | HandleType => each_element data 4 (DecodeHandle debug)
  | Struct id => each_element data 8 (Decode (struct_Decode id))
  | Union id => each_element data 16 (union_Decode id)
  | ArrayOf t => each_element data 8 (Decode (Array_DecodePointersAndHandles t))
  | MapOf k v => each_element data 8 (Decode (Map_DecodePointersAndHandles
      (Array_DecodePointersAndHandles k) (Array_DecodePointersAndHandles v)))
  end.

(** * array_serialization.h

    The contents of an [Array<E>] of plain data of a size, of bools and of scoped
    handles. *)
Inductive contents :=
  | Pods (size : nat) (values : list Z)
  | Bools (values : list bool)
  | Handles (values : list Z).

Definition contents_size (c : contents) : Z :=
  Z.of_nat (match c with Pods _ vs | Handles vs => length vs | Bools bs => length bs end).
Definition contents_type (c : contents) : data_type :=
  match c with
  | Pods size _ => Primitive (Z.of_nat size)
  | Bools _ => Bool
  | Handles _ => HandleType
  end.

(** A null array takes no space. *)
Definition GetSerializedSize (input : option contents) : Z :=
  match input with
  | None => 0
  | Some c =>
      wrap64 (sizeof_ArrayHeader + Align
        (match c with
         | Pods size vs => wrap64 (Z.of_nat (length vs) * Z.of_nat size)
         | Bools bs => wrap64 (Z.of_nat (length bs) + 7) / 8
         | Handles hs => wrap64 (Z.of_nat (length hs) * 4)
         end))
  end.

(** The loops over an iterator, from the element [i] on. *)
Fixpoint SerializePods (size : nat) (output i : Z) (vs : list Z) : M (mem * FixedBuffer) unit :=
  match vs with
  | [] => mret tt
  | v :: vs =>
      a ← at_ (Primitive (Z.of_nat size)) output i;
      mstore size a v;;
      SerializePods size output (i + 1) vs
  end.
Fixpoint SerializeBools (output i : Z) (bs : list bool) : M (mem * FixedBuffer) unit :=
  match bs with
  | [] => mret tt
  | b :: bs =>
      ref ← at_bool output i;
      BitRef_assign ref b;;
      SerializeBools output (i + 1) bs
  end.
Fixpoint SerializeHandles (nullable : bool) (output i : Z) (hs : list Z) :
    M (mem * FixedBuffer) ValidationError :=
  match hs with
  | [] => mret NONE
  | h :: hs =>
      a ← at_ HandleType output i;
      mstore 4 a h;;
      if negb nullable && (h =? MOJO_HANDLE_INVALID) then mret UNEXPECTED_INVALID_HANDLE
      else SerializeHandles nullable output (i + 1) hs
  end.

(** [memcpy] of all the values at once. *)
Definition memcpy_pods (size : nat) (output : Z) (vs : list Z) : M (mem * FixedBuffer) unit :=
  if bool_decide (vs = []) then mret tt
  else
    let bytes := mjoin (le_split size <$> vs) in
    st ← get;
    match load_bytes st.1 (storage output) (length bytes) with
    | Some _ => put (store_bytes st.1 (storage output) bytes, st.2)
    | None => lift Fault
    end.

Definition SerializeElements (c : contents) (output : Z) (params : ArrayValidateParams) :
    M (mem * FixedBuffer) ValidationError :=
  match c with
  | Pods size vs =>
      MOJO_DCHECK debug (negb (element_is_nullable params));;
      MOJO_DCHECK debug (bool_decide (element_validate_params params = None));;
      memcpy_pods size output vs;; mret NONE
  | Bools bs =>
      MOJO_DCHECK debug (negb (element_is_nullable params));;
      MOJO_DCHECK debug (bool_decide (element_validate_params params = None));;
      SerializeBools output 0 bs;; mret NONE
  | Handles hs =>
      MOJO_DCHECK debug (bool_decide (element_validate_params params = None));;
      SerializeHandles (element_is_nullable params) output 0 hs
  end.

(** The error, and what is stored to [*output], if it is. *)
Definition SerializeArray_ (input : option contents) (params : ArrayValidateParams) :
    M (mem * FixedBuffer) (ValidationError * option Z) :=
  match input with
  | None => mret (NONE, Some NULL)
  | Some c =>
      if negb (expected_num_elements params =? 0) &&
         negb (contents_size c =? expected_num_elements params)
      then mret (UNEXPECTED_ARRAY_HEADER, None)
      else
        result ← Array_New (contents_type c) (contents_size c);
        retval ← SerializeElements c result params;
        if bool_decide (retval <> NONE) then mret (retval, None) else mret (NONE, Some result)
  end.

(** Deserialization, element by element; a handle is taken out of the message. *)
Fixpoint DeserializePods (size n : nat) (input i : Z) : M (mem * FixedBuffer) (list Z) :=
  match n with
  | O => mret []
  | S n =>
      v ← mload size (storage input + Z.of_nat size * i);
      vs ← DeserializePods size n input (i + 1);
      mret (v :: vs)
  end.
Fixpoint DeserializeBools (n : nat) (input i : Z) : M (mem * FixedBuffer) (list bool) :=
  match n with
  | O => mret []
  | S n =>
      ref ← at_bool input i;
      b ← BitRef_bool ref;
      bs ← DeserializeBools n input (i + 1);
      mret (b :: bs)
  end.
Fixpoint DeserializeHandles (n : nat) (input i : Z) : M (mem * FixedBuffer) (list Z) :=
  match n with
  | O => mret []
  | S n =>
      a ← at_ HandleType input i;
      h ← mload 4 a;
      mstore 4 a MOJO_HANDLE_INVALID;;
      hs ← DeserializeHandles n input (i + 1);
      mret (h :: hs)
  end.

Definition Deserialize_ (t : data_type) (input : Z) : M (mem * FixedBuffer) (option contents) :=
  if input =? NULL then mret None
  else
    n ← Array_size input;
    let n := Z.to_nat n in
    match t with
    | Primitive size =>
        let size := Z.to_nat size in
        vs ← DeserializePods size n input 0; mret (Some (Pods size vs))
    | Bool => bs ← DeserializeBools n input 0; mret (Some (Bools bs))
    | HandleType => hs ← DeserializeHandles n input 0; mret (Some (Handles hs))
    | _ => lift Fault
    end.
End Objects.
