(* ===== verification/ArraysFacts.v ===== *)
(** Validation of arrays and maps stays inside the message, and what it accepts has
    room for its elements. *)
From stdpp Require Import base numbers list option gmap.
From coqutil Require Import Byte Word.LittleEndianList.
From Stdlib Require Import ZArith Lia.
From S2P Require Import Prelude CMem Buffer Descriptor Validate Serialization SerializationFacts Arrays.

(** * The bounds checker moves on *)

Record advances (b b' : BoundsChecker) : Prop := {
  advances_begin : data_begin_ b <= data_begin_ b';
  advances_end : data_end_ b' = data_end_ b;
  advances_handles : handle_begin_ b <= handle_begin_ b';
  advances_handle_end : handle_end_ b' = handle_end_ b;
  advances_wf : checker_wf b';
}.

Lemma advances_refl b : checker_wf b -> advances b b.
Proof. split; auto with lia. Qed.

Lemma advances_trans b b1 b2 : advances b b1 -> advances b1 b2 -> advances b b2.
Proof. intros [] []. by split; first [congruence|lia|done]. Qed.

Lemma wp_dcheck {S} debug c (s : S) (Q : unit -> S -> Prop) : c = true -> Q tt s -> wp (MOJO_DCHECK debug c) s Q.
Proof. intros -> HQ. unfold MOJO_DCHECK, MOJO_CHECK. destruct debug; [by apply wp_assert|by apply wp_ret]. Qed.

Lemma wp_ClaimMemory p n b (Q : bool -> BoundsChecker -> Prop) :
  checker_wf b -> 0 <= p < 2 ^ 64 -> 0 <= n < 2 ^ 32 -> Q false b ->
  (forall b', advances b b' -> 0 < n -> data_begin_ b <= p -> p + n <= data_begin_ b' ->
     p + n <= data_end_ b -> Q true b') ->
  wp (ClaimMemory p n) b Q.
Proof.
  intros Hb Hp Hn Hno Hyes. unfold ClaimMemory. do 2 wp_step.
  destruct (InternalIsValidRange b p (wrap64 (p + n))) eqn:Hr; simpl; [|by wp_step].
  apply InternalIsValidRange_spec in Hr as (? & ? & ?); [|done..]. pose proof Hb as (? & ? & ? & ?).
  rewrite wrap64_small by lia. do 2 wp_step. wp_step. apply Hyes; simpl; try lia.
  split; simpl; try lia. unfold checker_wf. simpl. lia.
Qed.

Lemma wp_ClaimHandle i b (Q : bool -> BoundsChecker -> Prop) :
  checker_wf b -> 0 <= i < 2 ^ 32 -> (forall ok b', advances b b' -> Q ok b') -> wp (ClaimHandle i) b Q.
Proof.
  intros Hb Hi HQ. pose proof (advances_refl b Hb). unfold ClaimHandle. do 2 wp_step.
  destruct (i =? kEncodedInvalidHandleValue) eqn:He; [wp_step; auto|].
  destruct ((i <? handle_begin_ b) || (i >=? handle_end_ b)) eqn:Hr; [wp_step; auto|].
  bool_facts. rewrite Z.geb_leb in *. bool_facts. unfold kEncodedInvalidHandleValue in He.
  pose proof Hb as (? & ? & ? & ?). rewrite wrap32_small by lia. do 3 wp_step. apply HQ.
  split; simpl; try lia. unfold checker_wf. simpl. lia.
Qed.

(** * What is asked of the parameters *)

(** They have the shape of the type. *)
Fixpoint params_ok (t : data_type) (params : ArrayValidateParams) : Prop :=
  match t with
  | Primitive size => 0 < size /\ element_is_nullable params = false /\ element_validate_params params = None
  | Char | Bool | Interface =>
      element_is_nullable params = false /\ element_validate_params params = None
  | HandleType | Struct _ | Union _ => element_validate_params params = None
  | ArrayOf t => exists p, element_validate_params params = Some p /\ params_ok t p
  | MapOf k v =>
      params_ok k (MapKeyValidateParamsFactory k) /\
      exists p, element_validate_params params = Some p /\ params_ok v p
  end.

Lemma params_ok_size t params : params_ok t params -> 0 < sizeof_StorageType t.
Proof. destruct t; simpl; lia. Qed.

(** The bytes up to the end of [n] elements, in unbounded integers. *)
Definition array_bytes_needed (t : data_type) (n : Z) : Z :=
  if is_bool t then 8 + (n + 7) / 8 else 8 + sizeof_StorageType t * n.

(** A number of elements for which the storage size is computed right. *)
Definition countable (t : data_type) (n : Z) : Prop := is_bool t = true -> n + 7 < 2 ^ 32.

Lemma GetStorageSize_eq debug t n :
  0 < sizeof_StorageType t -> 0 <= n <= kMaxNumElements t ->
  exists size, GetStorageSize debug t n = Ok size /\ 8 <= size < 2 ^ 32 /\
    (countable t n -> size = array_bytes_needed t n).
Proof.
  intros Hs Hn. unfold GetStorageSize, array_bytes_needed, countable, kMaxNumElements, kMaxUint32,
    sizeof_ArrayHeader in *.
  destruct (is_bool t) eqn:Ht.
  - eexists. split; [reflexivity|]. pose proof (wrap32_range (n + 7)).
    rewrite (wrap32_small (8 + _)) by lia. split; [lia|]. intros Hc. specialize (Hc eq_refl).
    by rewrite wrap32_small by lia.
  - set (s := sizeof_StorageType t) in *.
    assert (s * n <= s * ((4294967295 - 8) / s)) by nia.
    assert (s * ((4294967295 - 8) / s) <= 4294967295 - 8) by (apply Z.mul_div_le; lia).
    rewrite (proj2 (Z.leb_le _ _)) by lia. rewrite andb_false_r.
    eexists. split; [reflexivity|]. rewrite wrap64_small, wrap32_small by nia. split; [nia|done].
Qed.

Section Validation.
Context (debug : bool) (m : mem) (lo hi : Z).
Context (struct_Validate union_Validate : nat -> Z -> M BoundsChecker ValidationError).

(** A checker of memory that is mapped. *)
Definition checker_ok (b : BoundsChecker) : Prop :=
  checker_wf b /\ lo <= data_begin_ b /\ data_end_ b <= hi.

Lemma advances_ok b b' : checker_ok b -> advances b b' -> checker_ok b'.
Proof. intros (? & ? & ?) []. split; [done|]. lia. Qed.

Context (Hmap : mapped m lo hi).
(** Generated validators return, and claim what they use; a union is in memory that
    is claimed already. *)
Context (struct_ok : forall id data b, 0 <= data < 2 ^ 64 -> checker_ok b ->
  wp (struct_Validate id data) b (fun _ b' => advances b b')).
Context (union_ok : forall id data b, lo <= data -> data + 16 <= hi -> checker_ok b ->
  wp (union_Validate id data) b (fun _ b' => advances b b')).

Lemma wp_load n a b (Q : Z -> BoundsChecker -> Prop) :
  lo <= a -> a + Z.of_nat n <= hi ->
  (forall v, load n m a = Ok v -> 0 <= v < 2 ^ (8 * Z.of_nat n) -> Q v b) -> wp (lift (load n m a)) b Q.
Proof.
  intros Hlo Hhi HQ. destruct (load_mapped m a n) as (v & Hv & Hr).
  { eapply mapped_weaken; [exact Hmap|lia..]. }
  eapply wp_lift; eauto.
Qed.

(** Loops over elements. *)
Lemma wp_for_elements n body b :
  0 <= n -> checker_ok b ->
  (forall i b', 0 <= i < n -> advances b b' -> wp (body i) b' (fun _ b'' => advances b' b'')) ->
  wp (for_elements n body) b (fun _ b' => advances b b').
Proof.
  intros Hn Hb Hbody. unfold for_elements. wp_step.
  apply (wp_for_upto (fun _ b' => advances b b') _ 0 n); [apply advances_refl, Hb|lia|lia| | |].
  - intros. by wp_step.
  - intros i b' Hi Hadv. wp_step. eapply wp_mono; [by apply Hbody|]. intros e b'' Hadv'. wp_step.
    destruct (bool_decide (e <> NONE)); [wp_step|]; by eapply advances_trans.
  - intros b' Hadv. by wp_step.
Qed.

Lemma wp_ValidatePlain params b :
  element_is_nullable params = false -> element_validate_params params = None -> checker_ok b ->
  wp (ValidatePlain debug params) b (fun _ b' => advances b b').
Proof.
  intros Hn Hp Hb. unfold ValidatePlain. wp_step. apply wp_dcheck; [by rewrite Hn|].
  wp_step. apply wp_dcheck; [by rewrite Hp|]. wp_step. apply advances_refl, Hb.
Qed.

Lemma wp_ValidateHandles n elements params b :
  0 <= n -> lo <= elements -> elements + 4 * n <= hi -> element_validate_params params = None -> checker_ok b ->
  wp (ValidateHandles debug m n elements params) b (fun _ b' => advances b b').
Proof.
  intros Hn Hlo Hhi Hp Hb. unfold ValidateHandles. wp_step. apply wp_dcheck; [by rewrite Hp|].
  apply wp_for_elements; [done..|]. intros i b' Hi Hadv. wp_step. apply (wp_load 4); [lia..|]. intros v _ Hv.
  pose proof (advances_ok _ _ Hb Hadv) as [Hwf _].
  destruct (_ && _); [wp_step; by apply advances_refl|]. wp_step.
  apply wp_ClaimHandle; [done|lia|]. intros ok b'' Hadv'. by wp_step.
Qed.

(** An encoded pointer: accepted ones lead into the address space. *)
Lemma wp_pointer_at element b (Q : bool -> BoundsChecker -> Prop) :
  lo <= element -> element + 8 <= hi -> 0 <= lo -> hi < 2 ^ 64 ->
  (forall ok, (ok = true -> forall (Q' : Z -> BoundsChecker -> Prop),
       (forall data, 0 <= data < 2 ^ 64 -> (load64 m element <> Ok 0 -> data <> NULL) -> Q' data b) ->
       wp (decode_pointer_raw m element) b Q') -> Q ok b) ->
  wp (ValidateEncodedPointer m element) b Q.
Proof.
  intros Hlo Hhi H0 H64 HQ. unfold ValidateEncodedPointer. wp_step. apply (wp_load 8); [lia..|].
  intros v Hv Hr. wp_step. apply HQ. intros Hok Q' HQ'. unfold decode_pointer_raw. wp_step.
  eapply wp_lift; [exact Hv|]. rewrite Z.geb_leb in Hok. bool_facts. unfold kMaxUint32 in *.
  rewrite wrap32_small in * by lia.
  destruct (Z.eqb_spec v 0) as [->|]; wp_step; apply HQ'; [done|done|apply wrap64_range|].
  intros _. unfold NULL, wrap64 in *. lia.
Qed.

Lemma wp_ValidatePointers Run n elements params b :
  0 <= lo -> hi < 2 ^ 64 -> 0 <= n -> lo <= elements -> elements + 8 * n <= hi -> checker_ok b ->
  (forall data b, 0 <= data < 2 ^ 64 -> checker_ok b ->
     wp (Run data (element_validate_params params)) b (fun _ b' => advances b b')) ->
  wp (ValidatePointers m Run n elements params) b (fun _ b' => advances b b').
Proof.
  intros H0 H64 Hn Hlo Hhi Hb HRun. unfold ValidatePointers. apply wp_for_elements; [done..|].
  intros i b' Hi Hadv. pose proof (advances_ok _ _ Hb Hadv) as Hb'. cbn zeta.
  pose proof (advances_refl b' (proj1 Hb')) as Hrefl.
  wp_step. apply (wp_load 8); [lia..|]. intros v _ _. destruct (_ && _); [by wp_step|].
  wp_step. apply wp_pointer_at; [lia..|]. intros ok Hdec.
  destruct ok; simpl; [|by wp_step]. wp_step. apply Hdec; [done|]. intros data Hdata _. by apply HRun.
Qed.

Lemma wp_ValidateUnions id n elements params b :
  0 <= n -> lo <= elements -> elements + 16 * n <= hi -> element_validate_params params = None -> checker_ok b ->
  wp (ValidateUnions debug m union_Validate id n elements params) b (fun _ b' => advances b b').
Proof.
  intros Hn Hlo Hhi Hp Hb. unfold ValidateUnions. wp_step. apply wp_dcheck; [by rewrite Hp|].
  apply wp_for_elements; [done..|]. intros i b' Hi Hadv. pose proof (advances_ok _ _ Hb Hadv) as Hb'.
  cbn zeta. unfold union_is_null. do 2 wp_step. apply (wp_load 4); [lia..|]. intros v _ _. wp_step.
  destruct (_ && _); [wp_step; apply advances_refl, Hb'|]. apply union_ok; [lia..|done].
Qed.

(** ** Maps *)

Context (Hlo : 0 < lo) (Hhi : hi < 2 ^ 64).

Lemma wp_ValidateStructHeader data b (Q : ValidationError -> BoundsChecker -> Prop) :
  0 <= data < 2 ^ 64 -> checker_ok b ->
  (forall e b', advances b b' -> (e = NONE -> exists nb, load32 m data = Ok nb /\ 8 <= nb /\
     data_begin_ b <= data /\ data + nb <= data_end_ b) -> Q e b') ->
  wp (ValidateStructHeaderAndClaimMemory m data) b Q.
Proof.
  intros Hd Hb HQ. pose proof Hb as (Hwf & ? & ?). pose proof (advances_refl b Hwf) as Hrefl.
  unfold ValidateStructHeaderAndClaimMemory. do 2 wp_step.
  destruct (IsAligned data); simpl; [|wp_step; by apply HQ].
  destruct (IsValidRange b data sizeof_StructHeader) eqn:Hr; simpl; [|wp_step; by apply HQ].
  apply InternalIsValidRange_spec in Hr as (_ & ? & ?); [|done|done|done]. unfold sizeof_StructHeader in *.
  wp_step. apply (wp_load 4); [lia..|]. intros nb Hnb Hr.
  destruct (Z.ltb_spec nb 8); [wp_step; by apply HQ|]. wp_step.
  apply wp_ClaimMemory; [done|done|lia| |].
  - simpl. wp_step. by apply HQ.
  - intros b' Hadv _ _ _ Hend. simpl. wp_step. apply HQ; [done|]. intros _. exists nb. auto.
Qed.

Definition header_in (data : Z) : Prop := lo <= data /\ data + 8 <= hi.

(** What the validator of an array promises: the header of an array that it accepts
    is in the message. *)
Definition finds_header (Validate : Z -> M BoundsChecker ValidationError) : Prop :=
  forall data b, 0 <= data < 2 ^ 64 -> checker_ok b ->
    wp (Validate data) b (fun e b' => advances b b' /\ (e = NONE -> data <> NULL -> header_in data)).

Lemma wp_Map_Validate keys_Validate values_Validate kp vp data b :
  finds_header (fun data => keys_Validate data kp) -> finds_header (fun data => values_Validate data vp) ->
  0 <= data < 2 ^ 64 -> checker_ok b ->
  wp (Map_Validate m keys_Validate values_Validate kp data vp) b (fun _ b' => advances b b').
Proof.
  intros Hkeys Hvalues Hd Hb. pose proof (advances_refl b (proj1 Hb)) as Hrefl. unfold Map_Validate.
  destruct (Z.eqb_spec data NULL); [by wp_step|]. wp_step.
  apply wp_ValidateStructHeader; [done..|]. intros e b1 Hadv1 Hheader.
  destruct (bool_decide_reflect (e <> NONE)) as [|Hnone]; [by wp_step|].
  apply dec_stable, Hheader in Hnone as (nb & Hnb & H8 & Hbeg & Hend). destruct Hb as (Hwf & Hb1 & Hb2).
  assert (Hb : checker_ok b) by done. pose proof (advances_ok _ _ Hb Hadv1) as Hok1.
  wp_step. eapply wp_lift; [exact Hnb|]. wp_step. apply (wp_load 4); [lia..|]. intros version _ _.
  unfold sizeof_Map_Data. destruct (negb (nb =? 24) || negb (version =? 0)) eqn:Hshape; [by wp_step|].
  bool_facts. subst nb. cbn zeta.
  wp_step. apply wp_pointer_at; [lia..|]. intros ok Hdeck. destruct ok; simpl; [|by wp_step].
  wp_step. apply (wp_load 8); [lia..|]. intros ko Hko _. destruct (Z.eqb_spec ko 0); [by wp_step|].
  wp_step. apply Hdeck; [done|]. intros kh Hkh Hknull. wp_step.
  eapply wp_mono; [by apply Hkeys|]. intros ek b2 [Hadv2 Hkin]. simpl.
  pose proof (advances_trans _ _ _ Hadv1 Hadv2) as Hadv02. pose proof (advances_ok _ _ Hb Hadv02) as Hok2.
  destruct (bool_decide_reflect (ek <> NONE)) as [|Hknone]; [by wp_step|]. apply dec_stable in Hknone.
  wp_step. apply wp_pointer_at; [lia..|]. intros ok Hdecv. destruct ok; simpl; [|by wp_step].
  wp_step. apply (wp_load 8); [lia..|]. intros vo Hvo _. destruct (Z.eqb_spec vo 0); [by wp_step|].
  wp_step. apply Hdecv; [done|]. intros vh Hvh Hvnull. wp_step.
  eapply wp_mono; [by apply Hvalues|]. intros ev b3 [Hadv3 Hvin]. simpl.
  pose proof (advances_trans _ _ _ Hadv02 Hadv3) as Hadv03.
  destruct (bool_decide_reflect (ev <> NONE)) as [|Hvnone]; [by wp_step|]. apply dec_stable in Hvnone.
  destruct (Hkin Hknone) as [??]; [apply Hknull; congruence|].
  destruct (Hvin Hvnone) as [??]; [apply Hvnull; congruence|].
  wp_step. apply (wp_load 4); [lia..|]. intros nk _ _. wp_step. apply (wp_load 4); [lia..|]. intros nv _ _.
  by wp_step.
Qed.

(** ** Arrays *)

(** An array that is accepted: its header, the claimed bytes, and room for its
    elements. *)
Definition accepted (t : data_type) (data : Z) (params : ArrayValidateParams) (b b' : BoundsChecker) : Prop :=
  exists num_bytes num_elements,
    load32 m data = Ok num_bytes /\ load32 m (data + 4) = Ok num_elements /\
    IsAligned data = true /\ 8 <= num_bytes /\
    data_begin_ b <= data /\ data + num_bytes <= data_begin_ b' /\ data + num_bytes <= data_end_ b /\
    (expected_num_elements params = 0 \/ num_elements = expected_num_elements params) /\
    (countable t num_elements -> array_bytes_needed t num_elements <= num_bytes).

Definition validates (t : data_type) (Validate : Z -> M BoundsChecker ValidationError)
    (params : ArrayValidateParams) : Prop :=
  forall data b, 0 <= data < 2 ^ 64 -> checker_ok b ->
    wp (Validate data) b (fun e b' => advances b b' /\
      (e = NONE -> data <> NULL -> accepted t data params b b')).

Lemma validates_header t Validate params :
  validates t Validate params -> finds_header Validate.
Proof.
  intros Hv data b Hd Hb. eapply wp_mono; [by apply Hv|]. intros e b' [Hadv Hacc]. split; [done|].
  intros He Hne. destruct (Hacc He Hne) as (nb & n & _ & _ & _ & ? & ? & _ & ? & _).
  destruct Hb as (_ & ? & ?). split; lia.
Qed.

Lemma wp_ValidateArray t ValidateElements params :
  0 < sizeof_StorageType t ->
  (forall n elements b, 0 <= n -> lo <= elements -> 
     (countable t n -> elements + array_bytes_needed t n - 8 <= hi) -> checker_ok b ->
     wp (ValidateElements n elements params) b (fun _ b' => advances b b')) ->
  validates t (fun data => ValidateArray debug m t ValidateElements data params) params.
Proof.
  intros Hsize Helems data b Hd Hb. pose proof Hb as (Hwf & Hb1 & Hb2).
  pose proof (advances_refl b Hwf) as Hrefl. unfold ValidateArray.
  destruct (Z.eqb_spec data NULL) as [|Hdn]; [by wp_step|].
  destruct (IsAligned data) eqn:Hal; simpl; [|by wp_step]. do 2 wp_step.
  destruct (IsValidRange b data sizeof_ArrayHeader) eqn:Hr; simpl; [|by wp_step].
  apply InternalIsValidRange_spec in Hr as (_ & ? & ?); [|done|done|done]. unfold sizeof_ArrayHeader in *.
  wp_step. apply (wp_load 4); [lia..|]. intros nb Hnb Hnbr.
  wp_step. apply (wp_load 4); [lia..|]. intros n Hn Hnr. wp_step.
  assert (Hsmall : wp (S := BoundsChecker) (if n >? kMaxNumElements t then mret true
      else storage_size ← lift (GetStorageSize debug t n); mret (nb <? storage_size)) b
      (fun too_small b' => b' = b /\ (too_small = false ->
         8 <= nb /\ (countable t n -> array_bytes_needed t n <= nb)))).
  { rewrite Z.gtb_ltb. destruct (Z.ltb_spec (kMaxNumElements t) n); [by wp_step|].
    destruct (GetStorageSize_eq debug t n) as (size & Hgs & Hsz & Heq); [done|lia|].
    wp_step. eapply wp_lift; [exact Hgs|]. wp_step. split; [done|]. intros Hge. bool_facts.
    split; [lia|]. intros Hc. rewrite <- Heq by done. lia. }
  eapply wp_mono; [exact Hsmall|]. intros too_small b' [-> Hfits]. destruct too_small; [by wp_step|].
  destruct (Hfits eq_refl) as [H8 Hneed].
  destruct (negb (expected_num_elements params =? 0) && _) eqn:Hexp; [by wp_step|].
  wp_step. apply wp_ClaimMemory; [done|done|lia|simpl; by wp_step|].
  intros b1 Hadv1 _ _ Hclaim Hend. simpl.
  pose proof (advances_ok _ _ Hb Hadv1) as Hb1'.
  eapply wp_mono; [apply Helems; [lia|lia| |done]|].
  { intros Hc. specialize (Hneed Hc). lia. }
  intros e b2 Hadv2. split; [by eapply advances_trans|]. intros _ _. exists nb, n.
  do 3 (split; [done|]). split; [done|]. split; [done|]. destruct Hadv2. split; [lia|]. split; [done|].
  split; [|done]. apply andb_false_iff in Hexp as [Hexp|Hexp]; bool_facts; auto.
Qed.

Lemma Array_Validate_validates t : forall params, params_ok t params ->
  validates t (fun data => Array_Validate debug m struct_Validate union_Validate t data params) params.
Proof.
  induction t as [size| | | | |id|id|t IH|k IHk v IHv]; intros params Hparams;
    simpl Array_Validate; (apply wp_ValidateArray; [by eapply params_ok_size|]);
    intros n elements b Hn Hel Hfits Hb; simpl in Hparams;
    try (apply wp_ValidatePlain; [apply Hparams..|done]);
    unfold countable, array_bytes_needed in Hfits; simpl in Hfits; specialize (Hfits ltac:(done)).
  - apply wp_ValidateHandles; [lia..|done|done].
  - apply wp_ValidatePointers; [lia..|done|]. intros data b' Hd Hb'. unfold RunStruct. wp_step.
    apply wp_dcheck; [by rewrite Hparams|]. by apply struct_ok.
  - apply wp_ValidateUnions; [lia..|done|done].
  - destruct Hparams as (p & Hp & Hpok). apply wp_ValidatePointers; [lia..|done|].
    intros data b' Hd Hb'. unfold RunArray. destruct (data =? NULL).
    { wp_step. apply advances_refl, Hb'. }
    rewrite Hp. eapply wp_mono; [by apply (IH p Hpok)|]. by intros e b'' [? _].
  - destruct Hparams as (Hk & p & Hp & Hpok). apply wp_ValidatePointers; [lia..|done|].
    intros data b' Hd Hb'. apply wp_Map_Validate; [|..|done|done].
    + eapply validates_header. by apply IHk.
    + intros data' b'' Hd' Hb''. unfold RunArray. destruct (Z.eqb_spec data' NULL).
      { wp_step. split; [apply advances_refl, Hb''|done]. }
      rewrite Hp. by apply (validates_header _ _ _ (IHv p Hpok)).
Qed.
End Validation.

(** C14: on any bytes of a message, and for every type of array, nested to any depth,
    [Array_Data::Validate] returns, without a read outside the message or a failed
    assertion, and an array it accepts is aligned, was claimed by nobody before, has
    the expected number of elements and room for all of them -- bools excepted, when
    there are more than 2^32 - 8. *)
Theorem Array_Validate_in_bounds debug m struct_Validate union_Validate t params data b
    (Hwf : checker_wf b) (Hlo : 0 < data_begin_ b) (Hmap : mapped m (data_begin_ b) (data_end_ b))
    (Hstruct : forall id data b', 0 <= data < 2 ^ 64 -> checker_ok (data_begin_ b) (data_end_ b) b' ->
       wp (struct_Validate id data) b' (fun _ b'' => advances b' b''))
    (Hunion : forall id data b', data_begin_ b <= data -> data + 16 <= data_end_ b ->
       checker_ok (data_begin_ b) (data_end_ b) b' ->
       wp (union_Validate id data) b' (fun _ b'' => advances b' b''))
    (Hparams : params_ok t params) (Hdata : 0 <= data < 2 ^ 64) :
  exists error b', Array_Validate debug m struct_Validate union_Validate t data params b = Ok (error, b') /\
    advances b b' /\ (error = NONE -> data <> NULL -> accepted m t data params b b').
Proof.
  apply wp_run. pose proof Hwf as (_ & Hend & _).
  apply (Array_Validate_validates debug m (data_begin_ b) (data_end_ b)); try done.
Qed.

(** * The C++ and the C validators of arrays *)

(** The bits of an element, as the descriptor of the C bindings has them. *)
Definition elem_bits (t : data_type) : Z := if is_bool t then 1 else 8 * sizeof_StorageType t.
Definition is_plain (t : data_type) : bool :=
  match t with Primitive _ | Char | Bool => true | _ => false end.

(** What makes the header of an array of plain data fit. *)
Definition plain_header_ok (t : data_type) (expected num_bytes num_elements size : Z) : Prop :=
  8 <= size /\ 8 <= num_bytes <= size /\ (expected = 0 \/ num_elements = expected) /\
  array_bytes_needed t num_elements <= num_bytes.

Section Headers.
Context (debug : bool) (m : mem) (t : data_type) (params : ArrayValidateParams) (data size nb n : Z).
Context (Hplain : is_plain t = true) (Hparams : params_ok t params).
Context (Hd : 0 < data) (Hsize : 0 <= size < 2 ^ 32) (Hhi : data + size < 2 ^ 64).
Context (Hal : IsAligned data = true).
Context (Hnb : load32 m data = Ok nb) (Hn : load32 m (data + 4) = Ok n) (Hcount : countable t n).

Lemma Array_Validate_plain struct_Validate union_Validate :
  exists e b', Array_Validate debug m struct_Validate union_Validate t data params (checker_of data size) =
      Ok (e, b') /\
    (e = NONE <-> plain_header_ok t (expected_num_elements params) nb n size).
Proof.
  pose proof (load_range _ _ _ _ Hnb) as Hnbr. pose proof (load_range _ _ _ _ Hn) as Hnr.
  assert (Hwf : checker_wf (checker_of data size)) by (unfold checker_wf, checker_of; simpl; lia).
  pose proof (params_ok_size t params Hparams) as Hs.
  apply wp_run. assert (Hrun : wp (ValidateArray debug m t (fun _ _ => ValidatePlain debug) data params)
    (checker_of data size) (fun e _ => e = NONE <-> 
       plain_header_ok t (expected_num_elements params) nb n size)).
  2: { destruct t; try done; exact Hrun. }
  unfold ValidateArray, plain_header_ok. destruct (Z.eqb_spec data NULL); [unfold NULL in *; lia|].
  rewrite Hal. simpl negb. cbn iota. do 2 wp_step.
  pose proof (InternalIsValidRange_spec _ data 8 Hwf ltac:(lia) ltac:(lia)) as Hr8.
  unfold IsValidRange, sizeof_ArrayHeader. simpl in Hr8.
  destruct (InternalIsValidRange _ data (wrap64 (data + 8))); simpl; [|wp_step].
  2: { split; [done|]. intros (? & _). enough (false = true) by done. apply Hr8. lia. }
  destruct Hr8 as [Hr8 _]. specialize (Hr8 eq_refl).
  wp_step. eapply wp_lift; [exact Hnb|]. wp_step. eapply wp_lift; [exact Hn|]. wp_step.
  rewrite Z.gtb_ltb. destruct (Z.ltb_spec (kMaxNumElements t) n) as [Hmax|Hmax].
  { wp_step. cbn iota. wp_step. split; [done|]. intros (_ & ? & _ & Hneed). exfalso.
    unfold array_bytes_needed, kMaxNumElements, kMaxUint32, sizeof_ArrayHeader in *.
    destruct (is_bool t); [simpl in *; lia|].
    assert (n <= (4294967295 - 8) / sizeof_StorageType t); [|lia]. apply Z.div_le_lower_bound; [done|].
    simpl in *. lia. }
  destruct (GetStorageSize_eq debug t n Hs ltac:(lia)) as (size' & Hgs & Hsz & Heq). specialize (Heq Hcount).
  wp_step. eapply wp_lift; [exact Hgs|]. wp_step. subst size'.
  destruct (Z.ltb_spec nb (array_bytes_needed t n)); [wp_step; split; [done|lia]|].
  destruct (negb (expected_num_elements params =? 0) && _) eqn:Hexp.
  { wp_step. split; [done|]. intros (_ & _ & Hor & _). bool_facts. lia. }
  assert (Hexp' : expected_num_elements params = 0 \/ n = expected_num_elements params).
  { apply andb_false_iff in Hexp as [Hexp|Hexp]; bool_facts; auto. }
  pose proof (InternalIsValidRange_spec _ data nb Hwf ltac:(lia) ltac:(simpl in Hnbr; lia)) as Hrn.
  simpl in Hrn. unfold ClaimMemory. do 3 wp_step.
  destruct (InternalIsValidRange _ data (wrap64 (data + nb))); simpl.
  - destruct Hrn as [Hrn _]. specialize (Hrn eq_refl). do 3 wp_step. simpl. unfold ValidatePlain.
    wp_step. apply wp_dcheck; [destruct t; try done; simpl in Hparams; by rewrite (proj1 Hparams) || rewrite (proj1 (proj2 Hparams))|].
    wp_step. apply wp_dcheck; [destruct t; try done; simpl in Hparams; apply bool_decide_eq_true; tauto|].
    wp_step. split; [|done]. intros _. lia.
  - wp_step. split; [done|]. intros (_ & ? & _). enough (false = true) by done. apply Hrn. lia.
Qed.

Lemma validate_array_header_plain d :
  ad_num_elements d = expected_num_elements params -> ad_elem_num_bits d = elem_bits t ->
  0 <= expected_num_elements params -> sizeof_StorageType t <= 8 ->
  exists r, validate_array_header m d data size = Ok r /\
    (r = MOJOM_VALIDATION_ERROR_NONE <-> plain_header_ok t (expected_num_elements params) nb n size).
Proof.
  intros He Hb H0 Hle. pose proof (load_range _ _ _ _ Hnb) as Hnbr. pose proof (load_range _ _ _ _ Hn) as Hnr.
  pose proof (params_ok_size t params Hparams) as Hs.
  unfold validate_array_header, plain_header_ok, sizeof_MojomArrayHeader. rewrite Hnb, Hn, He, Hb.
  destruct (Z.ltb_spec size 8); [eexists; split; [done|]; split; [done|lia]|].
  unfold mbind, outcome_bind.
  destruct (Z.ltb_spec nb 8); [eexists; split; [done|]; split; [done|lia]|].
  rewrite Z.gtb_ltb. destruct (Z.ltb_spec size nb); [eexists; split; [done|]; split; [done|lia]|].
  destruct (negb (expected_num_elements params =? 0) && _) eqn:Hexp.
  { eexists. split; [done|]. split; [done|]. intros (_ & _ & Hor & _). bool_facts. lia. }
  assert (Hexp' : expected_num_elements params = 0 \/ n = expected_num_elements params).
  { apply andb_false_iff in Hexp as [Hexp|Hexp]; bool_facts; auto. }
  assert (Hneed : wrap64 (8 + bits_to_bytes (wrap64 (elem_bits t * n))) = array_bytes_needed t n).
  { unfold bits_to_bytes, array_bytes_needed, elem_bits. simpl in Hnr.
    destruct (is_bool t).
    - rewrite (wrap64_small (1 * n)) by lia. rewrite (wrap64_small (1 * n + 7)) by lia.
      rewrite wrap64_small by lia. f_equal. f_equal. lia.
    - set (s := sizeof_StorageType t) in *.
      rewrite (wrap64_small (8 * s * n)) by nia. rewrite (wrap64_small (8 * s * n + 7)) by nia.
      replace ((8 * s * n + 7) / 8) with (s * n) by (rewrite <- Z.mul_assoc; lia).
      rewrite wrap64_small by nia. done. }
  rewrite Hneed. destruct (Z.ltb_spec nb (array_bytes_needed t n)); (eexists; split; [done|]; split; [done|lia] || (eexists; split; [done|]; split; [lia|done])).
Qed.
End Headers.
