(* ===== verification/ArraysSpec.v ===== *)
(** Serializing an array and reading it back: the size is as computed, the validator
    accepts the result, and the contents return. *)
From stdpp Require Import base numbers list option gmap.
From coqutil Require Import Byte Word.LittleEndianList.
From Stdlib Require Import ZArith Lia.
From S2P Require Import Prelude CMem Buffer Descriptor Validate Message Serialization SerializationFacts.
From S2P Require Import Arrays ArraysFacts.

(** * Values of [k] bytes in a row *)

Definition values_at (k : nat) (m : mem) (a : Z) (vs : list Z) : Prop :=
  forall i v, vs !! i = Some v -> load k m (a + Z.of_nat k * Z.of_nat i) = Ok v.

Definition in_width (k : nat) (v : Z) : Prop := 0 <= v < 2 ^ (8 * Z.of_nat k).

Lemma values_at_nil k m a : values_at k m a [].
Proof. by intros i v. Qed.

Lemma values_at_snoc k m a vs v m' :
  values_at k m a vs -> in_width k v ->
  store k m (a + Z.of_nat k * Z.of_nat (length vs)) v = Ok m' -> values_at k m' a (vs ++ [v]).
Proof.
  intros Hvs Hv Hs i u Hi. apply lookup_app_Some in Hi as [Hi|[Hle Hi]].
  - rewrite (load_other _ _ _ _ _ _ _ Hs); [by apply Hvs|]. apply lookup_lt_Some in Hi. left. nia.
  - apply list_lookup_singleton_Some in Hi as [Hi <-]. replace i with (length vs) by lia.
    rewrite (load_store _ _ _ _ _ Hs). f_equal. by apply Z.mod_small.
Qed.

Lemma values_at_agree k m m' a vs :
  values_at k m a vs -> agree (range a (a + Z.of_nat k * Z.of_nat (length vs))) m m' -> values_at k m' a vs.
Proof.
  intros Hvs Hag i v Hi. rewrite <- (Hvs i v Hi). symmetry. apply load_agree.
  apply lookup_lt_Some in Hi. eapply agree_weaken; [exact Hag|]. unfold range. nia.
Qed.

Lemma wp_exact {S A} (c : M S A) s a s' : wp c s (fun a1 s1 => a1 = a /\ s1 = s') -> c s = Ok (a, s').
Proof. unfold wp. destruct (c s) as [[a1 s1]| | |]; [|done..]. by intros [-> ->]. Qed.

(** ** Bytes stored in two pieces *)

Lemma store_bytes_insert_before m a b a' bs :
  a < a' -> store_bytes (<[a := b]> m) a' bs = <[a := b]> (store_bytes m a' bs).
Proof.
  revert a'. induction bs as [|x bs IH]; intros a' Ha; simpl; [done|].
  rewrite IH by lia. apply insert_insert_ne. lia.
Qed.

Lemma store_bytes_app m a bs1 bs2 :
  store_bytes m a (bs1 ++ bs2) = store_bytes (store_bytes m a bs1) (a + Z.of_nat (length bs1)) bs2.
Proof.
  revert a. induction bs1 as [|b bs1 IH]; intros a; simpl; [by rewrite Z.add_0_r|].
  rewrite IH, store_bytes_insert_before by lia. do 2 f_equal. lia.
Qed.

Lemma length_pod_bytes k vs :
  Z.of_nat (length (mjoin (le_split k <$> vs))) = Z.of_nat k * Z.of_nat (length vs).
Proof.
  induction vs as [|v vs IH]; [simpl; lia|]. rewrite fmap_cons.
  change (mjoin (?x :: ?l)) with (x ++ mjoin l). rewrite length_app, length_le_split.
  cbn [length]. lia.
Qed.

(** ** A bit of a byte

    All bytes, bits and values are tried. *)
Definition set_bit (v k : Z) (b : bool) : Z :=
  if b then Z.lor v (Z.shiftl 1 k) else Z.land v (255 - Z.shiftl 1 k).
Definition set_bit_right (v k : Z) (b : bool) : bool :=
  let w := set_bit v k b in
  (0 <=? w) && (w <? 256) &&
  forallb (fun j => eqb (Z.testbit w j) (if j =? k then b else Z.testbit v j)) (seqZ 0 8).

Lemma set_bit_spec v k b :
  0 <= v < 256 -> 0 <= k < 8 ->
  0 <= set_bit v k b < 256 /\
  forall j, 0 <= j < 8 -> Z.testbit (set_bit v k b) j = if j =? k then b else Z.testbit v j.
Proof.
  intros Hv Hk.
  assert (Hall : forallb (fun v => forallb (fun k => set_bit_right v k true && set_bit_right v k false)
    (seqZ 0 8)) (seqZ 0 256) = true) by (by vm_compute).
  assert (Hright : set_bit_right v k b = true).
  { rewrite forallb_forall in Hall. specialize (Hall v).
    rewrite <- list_elem_of_In, elem_of_seqZ, forallb_forall in Hall. specialize (Hall ltac:(lia) k).
    rewrite <- list_elem_of_In, elem_of_seqZ, andb_true_iff in Hall. destruct (Hall ltac:(lia)), b; done. }
  unfold set_bit_right in Hright. bool_facts. split; [lia|]. intros j Hj.
  rewrite forallb_forall in *. 
  match goal with H : forall x, In x _ -> _ |- _ => specialize (H j) end.
  rewrite <- list_elem_of_In, elem_of_seqZ in *. by apply eqb_true_iff; auto with lia.
Qed.

(** * An array of some type *)

Section Array.
Context (debug : bool) (data n : Z).
Context (Hdata : 0 <= data) (Hn : 0 <= n < 2 ^ 32).

(** The count in the header, and room for [n] elements of [k] bytes. *)
Definition has_count (m : mem) : Prop := load32 m (data + 4) = Ok n.

Lemma wp_at {X} t i (st : mem * X) (Q : Z -> mem * X -> Prop) :
  has_count st.1 -> i < n -> Q (storage data + sizeof_StorageType t * i) st -> wp (at_ debug t data i) st Q.
Proof.
  intros Hc Hi HQ. unfold at_, Array_size. wp_step. eapply wp_mload; [exact Hc|].
  wp_step. apply wp_dcheck; [by apply Z.ltb_lt|]. by wp_step.
Qed.

Lemma wp_at_bool {X} i (st : mem * X) (Q : Z * Z -> mem * X -> Prop) :
  has_count st.1 -> i < n -> Q (ToRef data i) st -> wp (at_bool debug data i) st Q.
Proof.
  intros Hc Hi HQ. unfold at_bool, Array_size. wp_step. eapply wp_mload; [exact Hc|].
  wp_step. apply wp_dcheck; [by apply Z.ltb_lt|]. by wp_step.
Qed.

(** What a store among the elements leaves. *)
Lemma store_element k m a v m' :
  storage data <= a -> store k m a v = Ok m' -> has_count m -> has_count m'.
Proof.
  intros Ha Hs Hc. unfold has_count. rewrite (load_other _ _ _ _ _ _ _ Hs); [exact Hc|].
  unfold storage, sizeof_ArrayHeader in Ha. lia.
Qed.

Definition outside (hi : Z) (a : Z) : Prop := a < storage data \/ hi <= a.

(** ** Plain data and handles *)

Lemma SerializePods_spec {k} vs : forall pre m (b : FixedBuffer),
  has_count m -> n = Z.of_nat (length pre + length vs) ->
  mapped m (storage data) (storage data + Z.of_nat k * n) ->
  values_at k m (storage data) pre -> Forall (in_width k) vs ->
  wp (SerializePods debug k data (Z.of_nat (length pre)) vs) (m, b) (fun _ st' =>
    st'.2 = b /\ has_count st'.1 /\ values_at k st'.1 (storage data) (pre ++ vs) /\
    agree (outside (storage data + Z.of_nat k * n)) m st'.1 /\
    st'.1 = store_bytes m (storage data + Z.of_nat k * Z.of_nat (length pre)) (mjoin (le_split k <$> vs))).
Proof.
  induction vs as [|v vs IH]; intros pre m b Hc Hlen Hmap Hpre Hvs; simpl.
  { wp_step. rewrite app_nil_r. done. }
  inversion Hvs as [|? ? Hv Hvs']; subst. simpl in Hlen.
  wp_step. apply wp_at; [exact Hc|lia|]. cbn [sizeof_StorageType].
  set (a := storage data + Z.of_nat k * Z.of_nat (length pre)).
  assert (Ha : mapped m a (a + Z.of_nat k)) by (eapply mapped_weaken; [exact Hmap|nia..]).
  pose proof (store_Ok m a k v Ha) as Hs. set (m1 := store_bytes m a (le_split k v)) in *.
  wp_step. eapply wp_mstore; [exact Hs|]. cbn [fst snd].
  specialize (IH (pre ++ [v]) m1 b). rewrite length_app in IH. simpl in IH.
  replace (Z.of_nat (length pre) + 1) with (Z.of_nat (length pre + 1)) by lia.
  eapply wp_mono; [apply IH|].
  - eapply store_element; [|exact Hs|exact Hc]. nia.
  - lia.
  - by eapply store_mapped.
  - by eapply values_at_snoc.
  - done.
  - intros _ st' (H1 & H2 & H3 & H4 & H5). rewrite <- app_assoc in H3. do 3 (split; [done|]). split.
    + etransitivity; [|exact H4]. eapply store_agree; [exact Hs|]. unfold outside, a. intros x [?|?]; [left|right]; nia.
    + rewrite H5, store_bytes_app, length_le_split. f_equal. unfold a. lia.
Qed.

(** The block copy writes what the loop writes. *)
Lemma memcpy_pods_eq k vs m (b : FixedBuffer) :
  n = Z.of_nat (length vs) -> mapped m (storage data) (storage data + Z.of_nat k * n) ->
  memcpy_pods k data vs (m, b) =
    Ok (tt, (store_bytes m (storage data) (mjoin (le_split k <$> vs)), b)).
Proof.
  intros Hlen Hmap. unfold memcpy_pods. destruct (bool_decide_reflect (vs = [])) as [->|]; [done|].
  assert (Hbytes : Z.of_nat (length (mjoin (le_split k <$> vs))) = Z.of_nat k * n).
  { rewrite Hlen. apply length_pod_bytes. }
  destruct (load_bytes_mapped m (storage data) (length (mjoin (le_split k <$> vs)))) as [bs Hbs].
  { eapply mapped_weaken; [exact Hmap|lia..]. }
  unfold mbind, M_bind, get, put. simpl. by rewrite Hbs.
Qed.

Lemma SerializeHandles_spec nullable hs : forall pre m (b : FixedBuffer),
  has_count m -> n = Z.of_nat (length pre + length hs) ->
  mapped m (storage data) (storage data + 4 * n) ->
  values_at 4 m (storage data) pre -> Forall (in_width 4) hs ->
  (nullable = true \/ Forall (fun h => h <> MOJO_HANDLE_INVALID) hs) ->
  wp (SerializeHandles debug nullable data (Z.of_nat (length pre)) hs) (m, b) (fun e st' =>
    e = NONE /\ st'.2 = b /\ has_count st'.1 /\ values_at 4 st'.1 (storage data) (pre ++ hs) /\
    agree (outside (storage data + 4 * n)) m st'.1).
Proof.
  induction hs as [|h hs IH]; intros pre m b Hc Hlen Hmap Hpre Hhs Hok; simpl.
  { wp_step. rewrite app_nil_r. done. }
  inversion Hhs as [|? ? Hh Hhs']; subst. simpl in Hlen.
  wp_step. apply wp_at; [exact Hc|lia|]. cbn [sizeof_StorageType].
  set (a := storage data + 4 * Z.of_nat (length pre)).
  assert (Ha : mapped m a (a + 4)) by (eapply mapped_weaken; [exact Hmap|lia..]).
  pose proof (store_Ok m a 4 h Ha) as Hs. set (m1 := store_bytes m a (le_split 4 h)) in *.
  wp_step. eapply wp_mstore; [exact Hs|]. cbn [fst snd].
  assert (Hcond : negb nullable && (h =? MOJO_HANDLE_INVALID) = false).
  { destruct Hok as [->|Hok]; [done|]. inversion Hok; subst. apply andb_false_iff. right. by apply Z.eqb_neq. }
  rewrite Hcond. specialize (IH (pre ++ [h]) m1 b). rewrite length_app in IH. simpl in IH.
  replace (Z.of_nat (length pre) + 1) with (Z.of_nat (length pre + 1)) by lia.
  eapply wp_mono; [apply IH|].
  - eapply store_element; [|exact Hs|exact Hc]. lia.
  - lia.
  - by eapply store_mapped.
  - by eapply values_at_snoc.
  - done.
  - destruct Hok as [?|Hok]; [by left|right]. by inversion Hok.
  - intros e st' (H0 & H1 & H2 & H3 & H4). rewrite <- app_assoc in H3. do 4 (split; [done|]).
    etransitivity; [|exact H4]. eapply store_agree; [exact Hs|]. unfold outside, a. lia.
Qed.

Lemma DeserializePods_spec k vs : forall i m (b : FixedBuffer),
  (forall j v, vs !! j = Some v -> load k m (storage data + Z.of_nat k * (i + Z.of_nat j)) = Ok v) ->
  DeserializePods k (length vs) data i (m, b) = Ok (vs, (m, b)).
Proof.
  induction vs as [|v vs IH]; intros i m b Hvs; simpl; [done|].
  pose proof (Hvs 0%nat v eq_refl) as Hv. rewrite Z.add_0_r in Hv.
  unfold mbind, M_bind, mload. cbn [fst]. rewrite Hv. rewrite IH; [done|].
  intros j u Hj. specialize (Hvs (S j) u Hj). by replace (i + 1 + Z.of_nat j) with (i + Z.of_nat (S j)) by lia.
Qed.

Lemma DeserializeHandles_spec hs : forall i m (b : FixedBuffer),
  has_count m -> 0 <= i -> i + Z.of_nat (length hs) <= n ->
  (forall j v, hs !! j = Some v -> load 4 m (storage data + 4 * (i + Z.of_nat j)) = Ok v) ->
  exists m', DeserializeHandles debug (length hs) data i (m, b) = Ok (hs, (m', b)) /\
    agree (outside (storage data + 4 * n)) m m'.
Proof.
  induction hs as [|h hs IH]; intros i m b Hc Hi Hle Hhs; simpl; [by eexists|]. simpl in Hle.
  pose proof (Hhs 0%nat h eq_refl) as Hh. rewrite Z.add_0_r in Hh.
  pose proof (load_Ok_mapped _ _ _ _ Hh) as Hm. pose proof (store_Ok m _ 4 MOJO_HANDLE_INVALID Hm) as Hs.
  destruct (IH (i + 1) (store_bytes m (storage data + 4 * i) (le_split 4 MOJO_HANDLE_INVALID)) b) as (m' & IH' & Hag).
  - eapply store_element; [|exact Hs|exact Hc]; lia.
  - lia.
  - lia.
  - intros j u Hj. rewrite (load_other _ _ _ _ _ _ _ Hs) by lia. specialize (Hhs (S j) u Hj).
    by replace (i + 1 + Z.of_nat j) with (i + Z.of_nat (S j)) by lia.
  - exists m'. split.
    + apply wp_exact. wp_step. apply wp_at; [exact Hc|lia|]. cbn [sizeof_StorageType].
      wp_step. eapply wp_mload; [exact Hh|]. wp_step. eapply wp_mstore; [exact Hs|]. cbn [fst snd].
      wp_step. apply wp_run. eexists _, _. split; [exact IH'|]. by wp_step.
    + etransitivity; [|exact Hag]. eapply store_agree; [exact Hs|]. unfold outside. lia.
Qed.

(** ** Bools *)

Definition bits_at (m : mem) (bs : list bool) : Prop := forall i b, bs !! i = Some b ->
  exists v, load 1 m (storage data + Z.of_nat i / 8) = Ok v /\ Z.testbit v (Z.of_nat i mod 8) = b.

Lemma bits_at_agree m m' bs :
  bits_at m bs -> agree (range (storage data) (storage data + (Z.of_nat (length bs) + 7) / 8)) m m' ->
  bits_at m' bs.
Proof.
  clear Hn. intros Hbs Hag i b Hi. destruct (Hbs i b Hi) as (v & Hv & Hb). exists v. split; [|done].
  rewrite <- Hv. symmetry. apply load_agree. apply lookup_lt_Some in Hi.
  eapply agree_weaken; [exact Hag|]. unfold range. lia.
Qed.

Lemma bits_at_snoc m bs b v m' :
  bits_at m bs ->
  let i := Z.of_nat (length bs) in let a := storage data + i / 8 in
  load 1 m a = Ok v -> store 1 m a (set_bit v (i mod 8) b) = Ok m' -> bits_at m' (bs ++ [b]).
Proof.
  intros Hbs i a Hv Hs j u Hj. pose proof (load_range _ _ _ _ Hv) as Hr. simpl in Hr.
  destruct (set_bit_spec v (i mod 8) b) as [Hw Hbits]; [lia|lia|].
  assert (Hload : load 1 m' a = Ok (set_bit v (i mod 8) b)).
  { rewrite (load_store _ _ _ _ _ Hs). f_equal. apply Z.mod_small. simpl. lia. }
  assert (Hj' : j = length bs /\ u = b \/ bs !! j = Some u).
  { apply lookup_app_Some in Hj as [?|[? Hj]]; [by right|left].
    apply list_lookup_singleton_Some in Hj as [? <-]. split; [lia|done]. }
  destruct (Z.eqb_spec (Z.of_nat j / 8) (i / 8)) as [Hsame|Hother].
  - exists (set_bit v (i mod 8) b). rewrite Hsame. split; [done|]. rewrite Hbits by lia.
    destruct Hj' as [[-> ->]|Hj'].
    + by rewrite Z.eqb_refl.
    + pose proof (lookup_lt_Some _ _ _ Hj'). destruct (Z.eqb_spec (Z.of_nat j mod 8) (i mod 8)); [unfold i in *; lia|].
      destruct (Hbs j u Hj') as (v' & Hv' & Hb'). rewrite Hsame in Hv'. fold a in Hv'. congruence.
  - destruct Hj' as [[-> _]|Hj']; [done|]. destruct (Hbs j u Hj') as (v' & Hv' & Hb'). exists v'.
    split; [|done]. rewrite (load_other _ _ _ _ _ _ _ Hs); [done|]. unfold a. lia.
Qed.

Lemma SerializeBools_spec bs : forall pre m (b : FixedBuffer),
  has_count m -> n = Z.of_nat (length pre + length bs) ->
  mapped m (storage data) (storage data + (n + 7) / 8) -> bits_at m pre ->
  wp (SerializeBools debug data (Z.of_nat (length pre)) bs) (m, b) (fun _ st' =>
    st'.2 = b /\ has_count st'.1 /\ bits_at st'.1 (pre ++ bs) /\
    agree (outside (storage data + (n + 7) / 8)) m st'.1).
Proof.
  induction bs as [|x bs IH]; intros pre m b Hc Hlen Hmap Hpre; simpl.
  { wp_step. rewrite app_nil_r. done. }
  simpl in Hlen. wp_step. apply wp_at_bool; [exact Hc|lia|]. wp_step.
  unfold BitRef_assign, ToRef. set (a := storage data + Z.of_nat (length pre) / 8).
  assert (Ha : mapped m a (a + 1)) by (eapply mapped_weaken; [exact Hmap|lia..]).
  destruct (load_mapped m a 1 Ha) as (v & Hv & _). wp_step. eapply wp_mload; [exact Hv|].
  pose proof (store_Ok m a 1 (set_bit v (Z.of_nat (length pre) mod 8) x) Ha) as Hs.
  eapply wp_mstore; [exact Hs|]. cbn [fst snd]. set (m1 := store_bytes m a _) in *.
  specialize (IH (pre ++ [x]) m1 b). rewrite length_app in IH. simpl in IH.
  replace (Z.of_nat (length pre) + 1) with (Z.of_nat (length pre + 1)) by lia.
  eapply wp_mono; [apply IH|].
  - eapply store_element; [|exact Hs|exact Hc]. lia.
  - lia.
  - by eapply store_mapped.
  - by eapply bits_at_snoc.
  - intros _ st' (H1 & H2 & H3 & H4). rewrite <- app_assoc in H3. do 3 (split; [done|]).
    etransitivity; [|exact H4]. eapply store_agree; [exact Hs|]. unfold outside, a. lia.
Qed.

Lemma testbit_mask v k : 0 <= k -> negb (Z.land v (Z.shiftl 1 k) =? 0) = Z.testbit v k.
Proof. intros Hk. apply (has_flag_testbit v k Hk). Qed.

Lemma DeserializeBools_spec bs : forall i m (b : FixedBuffer),
  has_count m -> 0 <= i -> i + Z.of_nat (length bs) <= n ->
  (forall j x, bs !! j = Some x -> exists v, load 1 m (storage data + (i + Z.of_nat j) / 8) = Ok v /\
     Z.testbit v ((i + Z.of_nat j) mod 8) = x) ->
  DeserializeBools debug (length bs) data i (m, b) = Ok (bs, (m, b)).
Proof.
  induction bs as [|x bs IH]; intros i m b Hc Hi Hle Hbs; simpl; [done|]. simpl in Hle.
  destruct (Hbs 0%nat x eq_refl) as (v & Hv & Hx). rewrite Z.add_0_r in Hv, Hx.
  apply wp_exact. wp_step. apply wp_at_bool; [exact Hc|lia|]. wp_step. unfold BitRef_bool, ToRef.
  wp_step. eapply wp_mload; [exact Hv|]. wp_step. rewrite testbit_mask, Hx by lia. wp_step.
  apply wp_run. eexists _, _. split; [apply IH; [exact Hc|lia|lia|]|by wp_step].
  intros j y Hj. specialize (Hbs (S j) y Hj).
  by replace (i + 1 + Z.of_nat j) with (i + Z.of_nat (S j)) by lia.
Qed.
End Array.

(** * Allocation *)

(** The buffer has [space] bytes left. *)
Record room (m : mem) (b : FixedBuffer) (space : Z) : Prop := {
  room_ptr : 0 < ptr_ b /\ ptr_ b mod 8 = 0;
  room_cursor : 0 <= cursor_ b /\ cursor_ b mod 8 = 0 /\ cursor_ b + space <= size_ b;
  room_end : ptr_ b + size_ b < 2 ^ 64;
  room_mapped : mapped m (ptr_ b + cursor_ b) (ptr_ b + cursor_ b + space);
}.

Definition bumped (b : FixedBuffer) (space : Z) : FixedBuffer :=
  {| ptr_ := ptr_ b; cursor_ := cursor_ b + space; size_ := size_ b |}.

Lemma FixedBuffer_Allocate_eq debug m b n :
  0 < n < 2 ^ 32 -> room m b (round8 n) ->
  FixedBuffer_Allocate debug n b = Ok (ptr_ b + cursor_ b, bumped b (round8 n)).
Proof.
  intros Hn [[Hp _] (Hc & _ & Hs) He _]. pose proof (round8_bounds n). unfold FixedBuffer_Allocate, bumped.
  rewrite Align_round8 by lia. unfold mbind, M_bind, get, put, mret, M_ret. cbn beta iota.
  rewrite (wrap64_small (size_ b - cursor_ b)) by lia.
  destruct (Z.eqb_spec (round8 n) 0); [lia|]. rewrite Z.gtb_ltb.
  destruct (Z.ltb_spec (size_ b - cursor_ b) (round8 n)); [lia|]. simpl. by rewrite wrap64_small by lia.
Qed.

(** An element count that fits a [uint32_t] and so does the array. *)
Definition fits_u32 (t : data_type) (n : Z) : Prop :=
  0 < sizeof_StorageType t /\ 0 <= n /\ n + 7 < 2 ^ 32 /\ array_bytes_needed t n < 2 ^ 32.

Lemma fits_max t n : fits_u32 t n -> n <= kMaxNumElements t.
Proof.
  intros (Hs & Hn & Hlt & Hneed).
  unfold array_bytes_needed, kMaxNumElements, kMaxUint32, sizeof_ArrayHeader in *.
  destruct (is_bool t); [lia|]. apply Z.div_le_lower_bound; lia.
Qed.

Lemma bytes_needed_pos t n : 0 < sizeof_StorageType t -> 0 <= n -> 8 <= array_bytes_needed t n.
Proof. intros Hs Hn. unfold array_bytes_needed. destruct (is_bool t); [lia|nia]. Qed.

Lemma wp_Array_New debug t n m b (Q : Z -> mem * FixedBuffer -> Prop) :
  fits_u32 t n -> room m b (round8 (array_bytes_needed t n)) ->
  (forall m', let p := ptr_ b + cursor_ b in
     load32 m' p = Ok (array_bytes_needed t n) -> load32 m' (p + 4) = Ok n ->
     mapped m' p (p + round8 (array_bytes_needed t n)) ->
     agree (fun a => a < p \/ p + 8 <= a) m m' ->
     Q p (m', bumped b (round8 (array_bytes_needed t n)))) ->
  wp (Array_New debug t n) (m, b) Q.
Proof.
  intros Hfits Hroom HQ. pose proof (fits_max t n Hfits). destruct Hfits as (Hs & Hn & Hlt & Hneed).
  pose proof (bytes_needed_pos t n Hs Hn). set (nb := array_bytes_needed t n) in *.
  pose proof (round8_bounds nb). unfold Array_New. rewrite Z.gtb_ltb.
  destruct (Z.ltb_spec (kMaxNumElements t) n); [lia|].
  destruct (GetStorageSize_eq debug t n Hs ltac:(lia)) as (size & Hsize & _ & Heq).
  rewrite Heq in Hsize by (intros _; lia). fold nb in Hsize.
  wp_step. eapply wp_lift; [exact Hsize|]. wp_step. apply wp_on_snd. apply wp_run.
  eexists _, _. split; [apply (FixedBuffer_Allocate_eq debug m b nb); [lia|exact Hroom]|]. cbn [fst snd].
  destruct Hroom as [_ _ _ Hmap]. set (p := ptr_ b + cursor_ b) in *.
  assert (Hp : mapped m p (p + 4)) by (eapply mapped_weaken; [exact Hmap|lia..]).
  pose proof (store_Ok m p 4 nb Hp) as Hs1. set (m1 := store_bytes m p _) in *.
  assert (Hp4 : mapped m1 (p + 4) (p + 4 + 4)).
  { eapply store_mapped; [exact Hs1|]. eapply mapped_weaken; [exact Hmap|lia..]. }
  pose proof (store_Ok m1 (p + 4) 4 n Hp4) as Hs2. set (m2 := store_bytes m1 (p + 4) _) in *.
  wp_step. eapply wp_mstore; [exact Hs1|]. cbn [fst snd].
  wp_step. eapply wp_mstore; [exact Hs2|]. cbn [fst snd]. wp_step. apply HQ.
  - rewrite (load_other _ _ _ _ _ _ _ Hs2) by lia. rewrite (load_store _ _ _ _ _ Hs1). f_equal.
    apply Z.mod_small. simpl. lia.
  - rewrite (load_store _ _ _ _ _ Hs2). f_equal. apply Z.mod_small. simpl. lia.
  - eapply store_mapped; [exact Hs2|]. by eapply store_mapped.
  - etransitivity; (eapply store_agree; [eassumption|]); lia.
Qed.

(** * The round trip *)

(** Contents in their width that the parameters allow. *)
Definition contents_ok (params : ArrayValidateParams) (c : contents) : Prop :=
  element_validate_params params = None /\
  (expected_num_elements params = 0 \/ expected_num_elements params = contents_size c) /\
  match c with
  | Pods k vs => (0 < k)%nat /\ element_is_nullable params = false /\ Forall (in_width k) vs
  | Bools _ => element_is_nullable params = false
  | Handles hs => Forall (in_width 4) hs /\
      (element_is_nullable params = true \/ Forall (fun h => h <> MOJO_HANDLE_INVALID) hs)
  end.

(** The bytes that hold [c]. *)
Definition holds (c : contents) (m : mem) (p : Z) : Prop :=
  load32 m p = Ok (array_bytes_needed (contents_type c) (contents_size c)) /\
  load32 m (p + 4) = Ok (contents_size c) /\
  match c with
  | Pods k vs => values_at k m (storage p) vs
  | Bools bs => bits_at p m bs
  | Handles hs => values_at 4 m (storage p) hs
  end.

Lemma GetSerializedSize_eq c :
  fits_u32 (contents_type c) (contents_size c) ->
  GetSerializedSize (Some c) = round8 (array_bytes_needed (contents_type c) (contents_size c)).
Proof.
  intros (Hs & Hn & Hlt & Hneed). unfold GetSerializedSize, array_bytes_needed, sizeof_ArrayHeader, contents_size in *.
  assert (Hr : forall x, 0 <= x -> x < 2 ^ 32 -> wrap64 (8 + Align x) = round8 (8 + x)).
  { intros x ??. rewrite Align_round8 by lia. pose proof (round8_bounds x). rewrite wrap64_small by lia.
    unfold round8. lia. }
  destruct c as [k vs|bs|hs]; simpl in *.
  - assert (0 <= Z.of_nat k * Z.of_nat (length vs)) by nia.
    rewrite (Z.mul_comm (Z.of_nat (length vs))). rewrite (wrap64_small (_ * _)) by lia. by rewrite Hr by lia.
  - rewrite (wrap64_small (_ + 7)) by lia. rewrite Hr by lia. done.
  - rewrite (wrap64_small (_ * 4)) by lia. rewrite Hr by lia. f_equal. lia.
Qed.

Lemma SerializeElements_spec debug c params p m (b : FixedBuffer) :
  contents_ok params c -> fits_u32 (contents_type c) (contents_size c) -> 0 <= p ->
  let need := array_bytes_needed (contents_type c) (contents_size c) in
  load32 m p = Ok need -> load32 m (p + 4) = Ok (contents_size c) -> mapped m p (p + need) ->
  wp (SerializeElements debug c p params) (m, b) (fun e st' =>
    e = NONE /\ st'.2 = b /\ holds c st'.1 p /\ agree (fun a => a < p \/ p + need <= a) m st'.1).
Proof.
  intros (Hp & _ & Hc) (Hs & Hn & Hlt & Hneed) Hp0 need Hl Hcount Hmap.
  assert (Hnr : 0 <= contents_size c < 2 ^ 32) by lia.
  assert (Hfinal : forall m', agree (fun a => a < storage p \/ p + need <= a) m m' ->
    load32 m' p = Ok need /\ agree (fun a => a < p \/ p + need <= a) m m').
  { intros m' Hag. unfold storage, sizeof_ArrayHeader in Hag. split.
    - rewrite <- Hl. symmetry. apply load_agree. eapply agree_weaken; [exact Hag|]. unfold range. lia.
    - eapply agree_weaken; [exact Hag|]. cbn beta. lia. }
  unfold SerializeElements, holds. fold need. unfold need, array_bytes_needed, contents_size in *.
  destruct c as [k vs|bs|hs]; simpl in *.
  - destruct Hc as (Hk & Hnull & Hvs). wp_step. apply wp_dcheck; [by rewrite Hnull|].
    wp_step. apply wp_dcheck; [by rewrite Hp|]. wp_step.
    assert (Hm : mapped m (storage p) (storage p + Z.of_nat k * Z.of_nat (length vs))).
    { unfold storage, sizeof_ArrayHeader. eapply mapped_weaken; [exact Hmap|lia..]. }
    apply wp_run. eexists _, _.
    split; [apply (memcpy_pods_eq p _ Hnr); [done|exact Hm]|]. wp_step.
    pose proof (SerializePods_spec debug p _ Hnr vs [] m b Hcount eq_refl Hm (values_at_nil _ _ _) Hvs) as Hloop.
    apply wp_run in Hloop as (_ & st' & _ & Hb & Hcount' & Hvals & Hag & Heq).
    simpl in Heq. rewrite Z.mul_0_r, Z.add_0_r in Heq. rewrite <- Heq. cbn [fst snd].
    destruct (Hfinal st'.1) as [Hl' Hag'].
    { eapply agree_weaken; [exact Hag|]. unfold outside, storage, sizeof_ArrayHeader. cbn beta. lia. }
    done.
  - wp_step. apply wp_dcheck; [by rewrite Hc|]. wp_step. apply wp_dcheck; [by rewrite Hp|]. wp_step.
    eapply wp_mono; [apply (SerializeBools_spec debug p _ Hnr bs [] m b Hcount); [done| |done]|].
    { unfold storage, sizeof_ArrayHeader. eapply mapped_weaken; [exact Hmap|lia..]. }
    intros _ st' (Hb & Hcount' & Hbits & Hag). wp_step. destruct (Hfinal st'.1) as [Hl' Hag'].
    { eapply agree_weaken; [exact Hag|]. unfold outside, storage, sizeof_ArrayHeader. cbn beta. lia. }
    done.
  - destruct Hc as (Hhs & Hok). wp_step. apply wp_dcheck; [by rewrite Hp|].
    eapply wp_mono; [apply (SerializeHandles_spec debug p _ Hnr _ hs [] m b Hcount); try done|].
    { unfold storage, sizeof_ArrayHeader. eapply mapped_weaken; [exact Hmap|lia..]. }
    intros e st' (He & Hb & Hcount' & Hvals & Hag). destruct (Hfinal st'.1) as [Hl' Hag'].
    { eapply agree_weaken; [exact Hag|]. unfold outside, storage, sizeof_ArrayHeader. cbn beta. lia. }
    done.
Qed.

Lemma Deserialize_spec debug c p m (b : FixedBuffer) :
  fits_u32 (contents_type c) (contents_size c) -> 0 < p -> holds c m p ->
  exists m', Deserialize_ debug (contents_type c) p (m, b) = Ok (Some c, (m', b)) /\
    agree (fun a => a < p \/ p + array_bytes_needed (contents_type c) (contents_size c) <= a) m m'.
Proof.
  intros (Hs & Hn & Hlt & Hneed) Hp (Hl & Hc & Hvals). unfold Deserialize_.
  assert (Hnr : 0 <= contents_size c < 2 ^ 32) by lia.
  destruct (Z.eqb_spec p NULL) as [|_]; [unfold NULL in *; lia|].
  assert (Hsize : Array_size p (m, b) = Ok (contents_size c, (m, b))).
  { unfold Array_size, mload. cbn [fst]. by rewrite Hc. }
  unfold mbind, M_bind. rewrite Hsize. unfold contents_size in *. rewrite Nat2Z.id.
  destruct c as [k vs|bs|hs]; simpl in *.
  - rewrite Nat2Z.id. exists m. rewrite (DeserializePods_spec p _ Hnr k vs 0); [done|].
    intros j v Hj. rewrite Z.add_0_l. by apply Hvals.
  - exists m. rewrite (DeserializeBools_spec debug p _ Hnr bs 0); done.
  - destruct (DeserializeHandles_spec debug p _ Hnr hs 0 m b) as [m' Hm'];
      [exact Hc|lia|lia| |].
    { intros j v Hj. rewrite Z.add_0_l. by apply Hvals. }
    destruct Hm' as [Hm' Hag]. exists m'. rewrite Hm'. split; [done|]. eapply agree_weaken; [exact Hag|].
    unfold array_bytes_needed, outside, storage, sizeof_ArrayHeader. simpl. lia.
Qed.

Lemma holds_agree c m m' p :
  fits_u32 (contents_type c) (contents_size c) -> holds c m p ->
  agree (range p (p + array_bytes_needed (contents_type c) (contents_size c))) m m' -> holds c m' p.
Proof.
  intros (Hs & Hn & _ & _) (Hl & Hc & Hvals) Hag. pose proof (bytes_needed_pos _ _ Hs Hn).
  split; [|split].
  - rewrite <- Hl. symmetry. apply load_agree. eapply agree_weaken; [exact Hag|]. unfold range. lia.
  - rewrite <- Hc. symmetry. apply load_agree. eapply agree_weaken; [exact Hag|]. unfold range. lia.
  - unfold array_bytes_needed, contents_size in Hag. destruct c as [k vs|bs|hs]; simpl in *;
      [eapply values_at_agree|eapply bits_at_agree|eapply values_at_agree]; try exact Hvals;
      (eapply agree_weaken; [exact Hag|]); unfold range, storage, sizeof_ArrayHeader; lia.
Qed.

(** An array of plain data, bools or handles that the parameters allow, and that
    the buffer has room for, serializes to exactly the size that was computed for it,
    at the next free address, leaving all other memory; and any memory with these
    bytes at this address deserializes to the same contents. *)
Theorem SerializeArray_roundtrip debug params c m b
    (Hc : contents_ok params c) (Hfits : fits_u32 (contents_type c) (contents_size c))
    (Hroom : room m b (GetSerializedSize (Some c))) :
  let p := ptr_ b + cursor_ b in
  let size := GetSerializedSize (Some c) in
  exists m', SerializeArray_ debug (Some c) params (m, b) = Ok ((NONE, Some p), (m', bumped b size)) /\
    agree (fun a => a < p \/ p + size <= a) m m' /\
    forall m2 b2, agree (range p (p + size)) m' m2 ->
      exists m3, Deserialize_ debug (contents_type c) p (m2, b2) = Ok (Some c, (m3, b2)).
Proof.
  intros p size. rewrite (GetSerializedSize_eq c Hfits) in Hroom. unfold size.
  rewrite (GetSerializedSize_eq c Hfits). set (need := array_bytes_needed _ _) in *.
  pose proof Hc as (_ & Hexp & _). pose proof Hroom as [[Hp _] (Hcur & _) _ _].
  pose proof (round8_bounds need) as Hr8.
  assert (Hrun : wp (SerializeArray_ debug (Some c) params) (m, b) (fun r st' =>
    r = (NONE, Some p) /\ st'.2 = bumped b (round8 need) /\ holds c st'.1 p /\
    agree (fun a => a < p \/ p + round8 need <= a) m st'.1)).
  { unfold SerializeArray_.
    assert (Hcond : negb (expected_num_elements params =? 0) &&
      negb (contents_size c =? expected_num_elements params) = false).
    { destruct Hexp as [->| ->]; [done|]. by rewrite Z.eqb_refl, andb_false_r. }
    rewrite Hcond. wp_step. apply wp_Array_New; [done|done|]. intros m1 p' Hl Hn Hm1 Hag1.
    wp_step. eapply wp_mono; [apply SerializeElements_spec; [done|done|unfold p'; lia|done|done|]|].
    { eapply mapped_weaken; [exact Hm1|lia|]. fold need. lia. }
    fold need. intros e st' (-> & Hb & Hholds & Hag2). simpl. wp_step. do 3 (split; [done|]).
    etransitivity; [eapply agree_weaken; [exact Hag1|]|eapply agree_weaken; [exact Hag2|]]; cbn beta; fold p' in p |- *.
    - destruct Hfits as (Hs & Hn0 & _). pose proof (bytes_needed_pos _ _ Hs Hn0). subst p. lia.
    - subst p. lia. }
  apply wp_run in Hrun as (r & [m' b'] & Hrun & -> & Hb & Hholds & Hag). simpl in *. subst b'.
  exists m'. split; [exact Hrun|]. split; [exact Hag|]. intros m2 b2 Hag2.
  destruct (Deserialize_spec debug c p m2 b2) as (m3 & Hm3 & _); [done|unfold p; lia| |by exists m3].
  eapply holds_agree; [done|exact Hholds|].
  eapply agree_weaken; [exact Hag2|]. fold need. unfold range. lia.
Qed.

(** The [memcpy] that serializes plain data writes the same bytes as the loop over
    the elements that it stands for. *)
Theorem memcpy_matches_loop debug k vs data m b
    (Hlen : Z.of_nat (length vs) < 2 ^ 32) (Hvs : Forall (in_width k) vs)
    (Hcount : load32 m (data + 4) = Ok (Z.of_nat (length vs)))
    (Hmap : mapped m (storage data) (storage data + Z.of_nat k * Z.of_nat (length vs))) :
  exists m', memcpy_pods k data vs (m, b) = Ok (tt, (m', b)) /\
    SerializePods debug k data 0 vs (m, b) = Ok (tt, (m', b)).
Proof.
  assert (Hnr : 0 <= Z.of_nat (length vs) < 2 ^ 32) by lia.
  pose proof (SerializePods_spec debug data _ Hnr vs [] m b Hcount eq_refl Hmap (values_at_nil _ _ _) Hvs) as Hloop.
  apply wp_run in Hloop as ([] & [m' b'] & Hrun & Hb & _ & _ & _ & Heq). simpl in *. subst b'.
  rewrite Z.mul_0_r, Z.add_0_r in Heq. exists m'. split; [|exact Hrun].
  rewrite (memcpy_pods_eq data _ Hnr k vs m b eq_refl Hmap). by subst m'.
Qed.

(** On arrays of plain data the C++ and the C validators accept the same headers
    -- bools excepted, when there are more than 2^32 - 8. *)
Theorem array_headers_agree debug m struct_Validate union_Validate t params d data size nb n
    (Hplain : is_plain t = true) (Hparams : params_ok t params) (Hwidth : sizeof_StorageType t <= 8)
    (Hd : 0 < data) (Hsize : 0 <= size < 2 ^ 32) (Hhi : data + size < 2 ^ 64) (Hal : IsAligned data = true)
    (Hnb : load32 m data = Ok nb) (Hn : load32 m (data + 4) = Ok n) (Hcount : countable t n)
    (Hdn : ad_num_elements d = expected_num_elements params) (Hdb : ad_elem_num_bits d = elem_bits t)
    (Hexp : 0 <= expected_num_elements params) :
  exists error b' result,
    Array_Validate debug m struct_Validate union_Validate t data params (checker_of data size) = Ok (error, b') /\
    validate_array_header m d data size = Ok result /\
    (error = NONE <-> result = MOJOM_VALIDATION_ERROR_NONE).
Proof.
  destruct (Array_Validate_plain debug m t params data size nb n Hplain Hparams Hd Hsize Hhi Hal Hnb Hn Hcount
    struct_Validate union_Validate) as (e & b' & He & Hiff).
  destruct (validate_array_header_plain m t params data size nb n) with (d := d) as (r & Hr & Hiff'); try done.
  exists e, b', r. rewrite Hiff, Hiff'. done.
Qed.
