(* ===== verification/ArraysExamples.v ===== *)
(** Concrete arrays: the theorems at work, and two defects of the C++ bindings. *)
From stdpp Require Import base numbers list option gmap.
From coqutil Require Import Byte.
From Stdlib Require Import ZArith Lia.
From S2P Require Import Prelude CMem Buffer Descriptor Validate Samples Serialization SerializationFacts.
From S2P Require Import Arrays ArraysFacts ArraysSpec.

Definition plain_params : ArrayValidateParams := Params 0 false None.
(** Generated validators, here of types without fields. *)
Definition no_structs (id : nat) (data : Z) : M BoundsChecker ValidationError := mret NONE.

(** * The theorems *)

(** An array of two arrays of 16-bit values: the second one is null. *)
Definition nested_words : list Z := [24; 2; 16; 0; 0; 0; 14; 3; 0x20001; 3].
Definition nested_params : ArrayValidateParams := Params 2 true (Some plain_params).

Lemma Array_Validate_in_bounds_witness :
  exists b', Array_Validate true (mem_of 4096 nested_words) no_structs no_structs
      (ArrayOf (Primitive 2)) 4096 nested_params (checker_of 4096 40) = Ok (NONE, b') /\
    accepted (mem_of 4096 nested_words) (ArrayOf (Primitive 2)) 4096 nested_params (checker_of 4096 40) b'.
Proof.
  destruct (Array_Validate_in_bounds true (mem_of 4096 nested_words) no_structs no_structs
    (ArrayOf (Primitive 2)) nested_params 4096 (checker_of 4096 40)) as (e & b' & Hrun & _ & Hacc).
  - by repeat split.
  - done.
  - apply (mem_of_mapped 4096 nested_words).
  - intros id data b' _ [Hb _]. apply wp_ret, advances_refl, Hb.
  - intros id data b' _ _ [Hb _]. apply wp_ret, advances_refl, Hb.
  - exists plain_params. by repeat split.
  - done.
  - assert (He : e = NONE) by (vm_compute in Hrun; congruence). rewrite He in Hrun.
    exact (ex_intro _ b' (conj Hrun (Hacc He ltac:(done)))).
Defined.

(** A buffer with 64 bytes left, and contents of each kind. *)
Definition half_full : FixedBuffer := {| ptr_ := 4096; cursor_ := 16; size_ := 80 |}.
Definition some_bools : contents := Bools [true; false; true; true; false; false; false; true; true; true].

Lemma half_full_room m n : n <= 64 -> mapped m 4096 (4096 + 80) -> room m half_full n.
Proof. intros Hn Hm. split; simpl; [lia|lia|lia|]. eapply mapped_weaken; [exact Hm|lia..]. Qed.

Definition blank : mem := mem_of 4096 (replicate 20 0).
Lemma blank_mapped : mapped blank 4096 (4096 + 80).
Proof. apply (mem_of_mapped 4096 (replicate 20 0)). Qed.

Lemma SerializeArray_roundtrip_witness :
  exists m', SerializeArray_ true (Some some_bools) plain_params (blank, half_full) =
      Ok ((NONE, Some 4112), (m', bumped half_full 16)) /\
    exists m3, Deserialize_ true Bool 4112 (m', half_full) = Ok (Some some_bools, (m3, half_full)).
Proof.
  destruct (SerializeArray_roundtrip true plain_params some_bools blank half_full) as (m' & H1 & _ & H2);
    [by repeat split; left|by repeat split|apply half_full_room; [by vm_compute|apply blank_mapped]|].
  exact (ex_intro _ m' (conj H1 (H2 m' half_full (fun a _ => eq_refl)))).
Defined.

Lemma memcpy_matches_loop_witness :
  exists m', memcpy_pods 2 4096 [7; 8; 65535] (mem_of 4096 [14; 3; 0; 0], half_full) = Ok (tt, (m', half_full)) /\
    SerializePods true 2 4096 0 [7; 8; 65535] (mem_of 4096 [14; 3; 0; 0], half_full) = Ok (tt, (m', half_full)).
Proof.
  exact (memcpy_matches_loop true 2 [7; 8; 65535] 4096 (mem_of 4096 [14; 3; 0; 0]) half_full ltac:(done)
    ltac:(repeat constructor; by vm_compute) ltac:(by vm_compute)
    ltac:(eapply mapped_weaken; [apply (mem_of_mapped 4096 [14; 3; 0; 0])|by vm_compute..])).
Defined.

(** The descriptor of an array of three bools. *)
Definition bools_array : MojomTypeDescriptorArray :=
  {| ad_elem_type := MOJOM_TYPE_DESCRIPTOR_TYPE_POD; ad_elem_descriptor := None; ad_num_elements := 3;
     ad_elem_num_bits := 1; ad_nullable := false |}.

Lemma array_headers_agree_witness :
  exists error b' result,
    Array_Validate false (mem_of 4096 [9; 3; 5; 0]) no_structs no_structs Bool 4096 (Params 3 false None)
      (checker_of 4096 16) = Ok (error, b') /\
    validate_array_header (mem_of 4096 [9; 3; 5; 0]) bools_array 4096 16 = Ok result /\
    (error = NONE <-> result = MOJOM_VALIDATION_ERROR_NONE).
Proof.
  exact (array_headers_agree false (mem_of 4096 [9; 3; 5; 0]) no_structs no_structs Bool (Params 3 false None)
    bools_array 4096 16 9 3 eq_refl (conj eq_refl eq_refl) ltac:(done) ltac:(done) ltac:(done) ltac:(done)
    eq_refl ltac:(by vm_compute) ltac:(by vm_compute) ltac:(done) eq_refl eq_refl ltac:(done)).
Defined.

(** * Defects *)

(** The number of bytes of a bool array wraps around: [Array_Data<bool>::Validate]
    accepts an array of 2^32 - 1 bools in 8 bytes, which the C validator rejects, and
    the elements are then read outside the message. *)
Theorem bool_array_size_wraps :
  let m := mem_of 4096 [8; 0xFFFFFFFF] in
  (exists b', Array_Validate true m no_structs no_structs Bool 4096 plain_params (checker_of 4096 8) = Ok (NONE, b')) /\
  validate_array_header m {| ad_elem_type := MOJOM_TYPE_DESCRIPTOR_TYPE_POD; ad_elem_descriptor := None;
    ad_num_elements := 0; ad_elem_num_bits := 1; ad_nullable := false |} 4096 8 =
    Ok MOJOM_VALIDATION_UNEXPECTED_ARRAY_HEADER /\
  (ref ← at_bool true 4096 64; BitRef_bool ref) (m, half_full) = Fault.
Proof. split; [eexists|split]; vm_compute; reflexivity. Qed.

(** An array of interfaces is treated as plain data: its handle stays in the
    message as it is, and is not put among the handles that are sent; what arrives is
    not checked against the handles received. An array of handles is encoded, and
    rejected. *)
Theorem interface_array_handles_not_encoded :
  let m := mem_of 4096 [16; 1; 7; 0] in
  let none (_ : nat) (_ : Z) : M (mem * list Z) unit := mret tt in
  Array_EncodePointersAndHandles true none none Interface 4096 (m, []) = Ok (tt, (m, [])) /\
  (exists b', Array_Validate true m no_structs no_structs Interface 4096 plain_params (checker_of 4096 16) =
    Ok (NONE, b')) /\
  Array_EncodePointersAndHandles true none none HandleType 4096 (m, []) =
    Ok (tt, (mem_of 4096 [16; 1; 0; 0], [7])) /\
  (exists b', Array_Validate true m no_structs no_structs HandleType 4096 plain_params (checker_of 4096 16) =
    Ok (ILLEGAL_HANDLE, b')).
Proof.
  split; [vm_compute; reflexivity|split; [eexists; vm_compute; reflexivity|split]].
  - vm_compute. reflexivity.
  - eexists. vm_compute. reflexivity.
Qed.
