(* ===== verification/Containers.v ===== *)
(** Serialization of arrays, maps and strings with elements of any type
    (src/cpp/bindings/lib/array_serialization.h, map_serialization.h,
    string_serialization.cc), and the construction of maps
    (src/cpp/bindings/map.h, lib/map_internal.h). *)
From stdpp Require Import base numbers list option.
From coqutil Require Import Byte Word.LittleEndianList.
From Stdlib Require Import ZArith Lia.
From S2P Require Import Prelude CMem Buffer Descriptor Validate Serialization Arrays.

(** * Values

    What the wrappers hold: null; the elements of an [Array]; a [String]; the keys and
    the values of a [Map], in the order of the map; a generated struct or union, known
    by a number. An array of interface requests is one of handles. *)
Inductive value :=
  | Null
  | ArrayValue (e : elements)
  | StringValue (s : list byte)
  | MapValue (keys values : elements)
  | ObjectValue (x : nat)
with elements :=
  | Plain (c : contents)
  | Interfaces (l : list (Z * Z))
  | Values (l : list value).

Definition elements_size (e : elements) : Z :=
  match e with
  | Plain c => contents_size c
  | Interfaces l => Z.of_nat (length l)
  | Values l => Z.of_nat (length l)
  end.

Definition is_null (v : value) : bool := match v with Null => true | _ => false end.
Definition is_union (t : data_type) : bool := match t with Union _ => true | _ => false end.
Definition object_of (v : value) : option nat := match v with ObjectValue x => Some x | _ => None end.

(** ** Generated code

    The sizes of structs and unions, and their serialization; an object is [None] for
    a null pointer. A union is serialized in place. *)
Class Generated := {
  struct_size : nat -> nat -> Z;
  struct_Serialize : nat -> option nat -> M (mem * FixedBuffer) (ValidationError * option Z);
  struct_Deserialize : nat -> Z -> M (mem * FixedBuffer) nat;
  union_size : nat -> option nat -> Z;
  union_Serialize : nat -> option nat -> Z -> M (mem * FixedBuffer) ValidationError;
  union_Deserialize : nat -> Z -> M (mem * FixedBuffer) nat;
}.

Definition String_GetSerializedSize (s : list byte) : Z :=
  Align (wrap64 (sizeof_ArrayHeader + Z.of_nat (length s))).

Section Sizes.
Context `{Generated}.

(** [ArraySerializer<E, F>::GetSerializedSize], given the sizes of the elements. *)
Definition Array_GetSerializedSize (item : value -> Z) (t : data_type) (e : elements) : Z :=
  match e with
  | Plain c => GetSerializedSize (Some c)
  | Interfaces l => wrap64 (sizeof_ArrayHeader + Align (wrap64 (Z.of_nat (length l) * 8)))
  | Values l =>
      let size := if is_union t then sizeof_ArrayHeader
                  else wrap64 (sizeof_ArrayHeader + wrap64 (Z.of_nat (length l) * 8)) in
      fold_left (fun size v => wrap64 (size + item v)) l size
  end.

(** [MapSerializer]: the array without its header and items, and the items. There is none
    for interfaces: a map of them does not compile. *)
Definition GetBaseArraySize (t : data_type) (e : elements) : Z :=
  match e with
  | Plain (Pods size vs) => Align (wrap64 (Z.of_nat (length vs) * Z.of_nat size))
  | Plain (Bools bs) => Align (wrap64 (Z.of_nat (length bs) + 7) / 8)
  | Plain (Handles hs) => Align (wrap64 (Z.of_nat (length hs) * 4))
  | Interfaces _ => 0
  | Values l => if is_union t then 0 else wrap64 (Z.of_nat (length l) * 8)
  end.
Definition GetItemSizes (item : value -> Z) (e : elements) : Z :=
  match e with
  | Values l => fold_left (fun size v => wrap64 (size + item v)) l 0
  | _ => 0
  end.

Definition Map_GetSerializedSize (key_item value_item : value -> Z) (k w : data_type)
    (keys values : elements) : Z :=
  let key_base_size := wrap64 (sizeof_ArrayHeader + GetBaseArraySize k keys) in
  let value_base_size := wrap64 (sizeof_ArrayHeader + GetBaseArraySize w values) in
  wrap64 (sizeof_Map_Data + key_base_size + GetItemSizes key_item keys + value_base_size
          + GetItemSizes value_item values).

(** The size of a value of the type that a pointer leads to; a null pointer takes no
    space, a null union its place. *)
Fixpoint GetSerializedSize_ (t : data_type) (v : value) : Z :=
  match t with
  | Struct id => match v with ObjectValue x => struct_size id x | _ => 0 end
  | Union id => union_size id (object_of v)
  | ArrayOf Char => match v with StringValue s => String_GetSerializedSize s | _ => 0 end
  | ArrayOf t => match v with ArrayValue e => Array_GetSerializedSize (GetSerializedSize_ t) t e | _ => 0 end
  | MapOf k w =>
      match v with
      | MapValue keys values =>
          Map_GetSerializedSize (GetSerializedSize_ k) (GetSerializedSize_ w) k w keys values
      | _ => 0
      end
  | _ => 0
  end.
End Sizes.

Section Serialize.
Context `{Generated} (debug : bool).

Abbreviation serM := (M (mem * FixedBuffer)).

(** [memcpy] of the characters of a string. *)
Definition memcpy_chars (a : Z) (s : list byte) : serM unit :=
  st ← get;
  match load_bytes st.1 a (length s) with
  | Some _ => put (store_bytes st.1 a s, st.2)
  | None => lift Fault
  end.

Definition SerializeString_ (v : value) : serM Z :=
  match v with
  | StringValue s =>
      result ← Array_New debug Char (Z.of_nat (length s));
      (if result =? NULL then mret tt else memcpy_chars (storage result) s);;
      mret result
  | _ => mret NULL
  end.

(** [SerializeCaller::Run] for strings and for structs. *)
Definition Run_string (v : value) (params : option ArrayValidateParams) : serM (ValidationError * option Z) :=
  MOJO_DCHECK debug (match params with
                     | Some (Params n nullable p) => (n =? 0) && negb nullable && bool_decide (p = None)
                     | None => false
                     end);;
  p ← SerializeString_ v;
  mret (NONE, Some p).
Definition Run_struct (id : nat) (v : value) (params : option ArrayValidateParams) :
    serM (ValidationError * option Z) :=
  MOJO_DCHECK debug (bool_decide (params = None));;
  struct_Serialize id (object_of v).

(** Of pointers, from the element [i] on; [Run] sets the pointer if it returns
    no error. *)
Fixpoint SerializePointers (Run : value -> option ArrayValidateParams -> serM (ValidationError * option Z))
    (t : data_type) (params : ArrayValidateParams) (output i : Z) (l : list value) : serM ValidationError :=
  match l with
  | [] => mret NONE
  | v :: l =>
      '(retval, element) ← Run v (element_validate_params params);
      if bool_decide (retval <> NONE) then mret retval
      else
        match element with
        | None => lift Fault
        | Some element =>
            a ← at_ debug t output i;
            mstore 8 a element;;
            if negb (element_is_nullable params) && (element =? NULL) then mret UNEXPECTED_NULL_POINTER
            else SerializePointers Run t params output (i + 1) l
        end
  end.

Fixpoint SerializeUnions (id : nat) (params : ArrayValidateParams) (output i : Z) (l : list value) :
    serM ValidationError :=
  match l with
  | [] => mret NONE
  | v :: l =>
      retval ← union_Serialize id (object_of v) (storage output + 16 * i);
      if bool_decide (retval <> NONE) then mret retval
      else
        a ← at_ debug (Union id) output i;
        size ← mload 4 a;
        if negb (element_is_nullable params) && (size =? 0) then mret UNEXPECTED_NULL_POINTER
        else SerializeUnions id params output (i + 1) l
  end.

(** Of interfaces: the handle and the version. *)
Fixpoint SerializeInterfaces (nullable : bool) (output i : Z) (l : list (Z * Z)) : serM ValidationError :=
  match l with
  | [] => mret NONE
  | (h, version) :: l =>
      a ← at_ debug Interface output i;
      mstore 4 a h;;
      mstore 4 (a + 4) version;;
      if negb nullable && (h =? MOJO_HANDLE_INVALID) then mret UNEXPECTED_INVALID_HANDLE
      else SerializeInterfaces nullable output (i + 1) l
  end.

(** Of plain data, bools and handles: an array of plain data is copied at once, the
    keys and values of a map are taken from an iterator. *)
Definition SerializePlain (from_array : bool) (c : contents) (output : Z) (params : ArrayValidateParams) :
    serM ValidationError :=
  match c with
  | Pods size vs =>
      if from_array then SerializeElements debug c output params
      else
        MOJO_DCHECK debug (negb (element_is_nullable params));;
        MOJO_DCHECK debug (bool_decide (element_validate_params params = None));;
        SerializePods debug size output 0 vs;; mret NONE
  | _ => SerializeElements debug c output params
  end.

(** [SerializeArray_] and [SerializeMap_], given the serializers of the elements. *)
Definition Array_Serialize (SerializeElements : elements -> Z -> ArrayValidateParams -> serM ValidationError)
    (t : data_type) (v : value) (params : option ArrayValidateParams) : serM (ValidationError * option Z) :=
  match v with
  | ArrayValue e =>
      match params with
      | None => lift Fault
      | Some params =>
          if negb (expected_num_elements params =? 0) &&
             negb (elements_size e =? expected_num_elements params)
          then mret (UNEXPECTED_ARRAY_HEADER, None)
          else
            result ← Array_New debug t (elements_size e);
            retval ← SerializeElements e result params;
            if bool_decide (retval <> NONE) then mret (retval, None) else mret (NONE, Some result)
      end
  | _ => mret (NONE, Some NULL)
  end.

Definition Map_Serialize (SerializeKeys SerializeValues : elements -> Z -> ArrayValidateParams -> serM ValidationError)
    (k w : data_type) (v : value) (value_validate_params : option ArrayValidateParams) :
    serM (ValidationError * option Z) :=
  match v with
  | MapValue keys values =>
      result ← Map_New debug;
      keys_data ← Array_New debug k (elements_size keys);
      mstore 8 (result + 8) keys_data;;
      keys_retval ← SerializeKeys keys keys_data (MapKeyValidateParamsFactory k);
      if bool_decide (keys_retval <> NONE) then mret (keys_retval, None)
      else
        values_data ← Array_New debug w (elements_size values);
        mstore 8 (result + 16) values_data;;
        match value_validate_params with
        | None => lift Fault
        | Some params =>
            values_retval ← SerializeValues values values_data params;
            if bool_decide (values_retval <> NONE) then mret (values_retval, None)
            else mret (NONE, Some result)
        end
  | _ => mret (NONE, Some NULL)
  end.

(** [ArraySerializer<E, F>::SerializeElements]: the elements of an array of type [t],
    from an array or from a map. *)
Fixpoint Elements_Serialize (from_array : bool) (t : data_type) (e : elements) (output : Z)
    (params : ArrayValidateParams) : serM ValidationError :=
  match t, e with
  | (Primitive _ | Bool | HandleType), Plain c => SerializePlain from_array c output params
  | Interface, Interfaces l =>
      MOJO_DCHECK debug (bool_decide (element_validate_params params = None));;
      SerializeInterfaces (element_is_nullable params) output 0 l
  | Struct id, Values l => SerializePointers (Run_struct id) t params output 0 l
  | Union id, Values l => SerializeUnions id params output 0 l
  | ArrayOf Char, Values l => SerializePointers Run_string t params output 0 l
  | ArrayOf u, Values l =>
      SerializePointers (Array_Serialize (Elements_Serialize true u) u) t params output 0 l
  | MapOf k w, Values l =>
      SerializePointers (Map_Serialize (Elements_Serialize false k) (Elements_Serialize false w) k w)
        t params output 0 l
  | _, _ => lift Fault
  end.

Definition SerializeArray (t : data_type) (v : value) (params : ArrayValidateParams) :
    serM (ValidationError * option Z) :=
  Array_Serialize (Elements_Serialize true t) t v (Some params).
Definition SerializeMap_ (k w : data_type) (v : value) (value_validate_params : ArrayValidateParams) :
    serM (ValidationError * option Z) :=
  Map_Serialize (Elements_Serialize false k) (Elements_Serialize false w) k w v (Some value_validate_params).
End Serialize.

(** * Construction of maps

    [std::map] keeps its entries in the order of the keys, and does not insert a key
    that it has. *)
Inductive key := KeyNumber (n : Z) | KeyBool (b : bool) | KeyString (s : list byte).

Definition key_of (v : value) : option key := match v with StringValue s => Some (KeyString s) | _ => None end.
Definition keys_of (e : elements) : list key :=
  match e with
  | Plain (Pods _ vs) => KeyNumber <$> vs
  | Plain (Bools bs) => KeyBool <$> bs
  | Values l => omap key_of l
  | _ => []
  end.

(** The elements at these positions. *)
Definition pick {A} (l : list A) (indices : list nat) : list A := omap (fun i => l !! i) indices.
Definition pick_elements (e : elements) (indices : list nat) : elements :=
  match e with
  | Plain (Pods size vs) => Plain (Pods size (pick vs indices))
  | Plain (Bools bs) => Plain (Bools (pick bs indices))
  | Plain (Handles hs) => Plain (Handles (pick hs indices))
  | Interfaces l => Interfaces (pick l indices)
  | Values l => Values (pick l indices)
  end.

Section Map.
(** [operator<] of the type of the keys. *)
Context (key_lt : key -> key -> bool).

(** [Traits::Insert] of the entry at [i], among entries in the order of their keys. *)
Fixpoint Insert (ks : list key) (i : nat) (map_ : list nat) : list nat :=
  match map_ with
  | [] => [i]
  | j :: rest =>
      match ks !! i, ks !! j with
      | Some ki, Some kj =>
          if key_lt kj ki then j :: Insert ks i rest
          else if key_lt ki kj then i :: map_
          else map_
      | _, _ => map_
      end
  end.

Definition insert_all (ks : list key) : list nat :=
  fold_left (fun map_ i => Insert ks i map_) (seq 0 (length ks)) [].

(** [Map(keys, values)]. [values[i]] is [vec_.at(i)], which ends the program if there are
    fewer values than keys, in a release build too. *)
Definition Map_constructor (debug : bool) (keys values : elements) : M (mem * FixedBuffer) value :=
  MOJO_DCHECK debug (elements_size keys =? elements_size values);;
  assert_ (elements_size keys <=? elements_size values);;
  let order := insert_all (keys_of keys) in
  mret (MapValue (pick_elements keys order) (pick_elements values order)).
End Map.

(** * Deserialization *)

Section Deserialize.
Context `{Generated} (debug : bool).
(** [operator<] of each type of keys. *)
Context (key_lt : data_type -> key -> key -> bool).

Abbreviation desM := (M (mem * FixedBuffer)).

Definition Deserialize_string (input : Z) : desM value :=
  if input =? NULL then mret Null
  else
    n ← Array_size input;
    st ← get;
    match load_bytes st.1 (storage input) (Z.to_nat n) with
    | Some s => mret (StringValue s)
    | None => lift Fault
    end.

(** [DeserializeCaller::Run] for structs. *)
Definition Deserialize_struct (id : nat) (input : Z) : desM value :=
  if input =? NULL then mret Null else x ← struct_Deserialize id input; mret (ObjectValue x).

Fixpoint DeserializePointers (Run : Z -> desM value) (t : data_type) (n : nat) (input i : Z) : desM (list value) :=
  match n with
  | O => mret []
  | S n =>
      a ← at_ debug t input i;
      p ← mload 8 a;
      v ← Run p;
      vs ← DeserializePointers Run t n input (i + 1);
      mret (v :: vs)
  end.

Fixpoint DeserializeUnions (id : nat) (n : nat) (input i : Z) : desM (list value) :=
  match n with
  | O => mret []
  | S n =>
      a ← at_ debug (Union id) input i;
      size ← mload 4 a;
      v ← (if size =? 0 then mret Null else x ← union_Deserialize id a; mret (ObjectValue x));
      vs ← DeserializeUnions id n input (i + 1);
      mret (v :: vs)
  end.

(** The handle is taken out of the message. *)
Fixpoint DeserializeInterfaces (n : nat) (input i : Z) : desM (list (Z * Z)) :=
  match n with
  | O => mret []
  | S n =>
      a ← at_ debug Interface input i;
      h ← mload 4 a;
      mstore 4 a MOJO_HANDLE_INVALID;;
      version ← mload 4 (a + 4);
      l ← DeserializeInterfaces n input (i + 1);
      mret ((h, version) :: l)
  end.

(** [Deserialize_] of an array and of a map, given that of the elements. *)
Definition Array_Deserialize (DeserializeElements : Z -> desM elements) (input : Z) : desM value :=
  if input =? NULL then mret Null else e ← DeserializeElements input; mret (ArrayValue e).

(** A null array of keys or of values is an empty one. *)
Definition elements_or_empty (v : value) : elements :=
  match v with ArrayValue e => e | _ => Values [] end.

Definition Map_Deserialize (DeserializeKeys DeserializeValues : Z -> desM elements) (k : data_type) (input : Z) :
    desM value :=
  if input =? NULL then mret Null
  else
    keys_ptr ← mload 8 (input + 8);
    keys ← Array_Deserialize DeserializeKeys keys_ptr;
    values_ptr ← mload 8 (input + 16);
    values ← Array_Deserialize DeserializeValues values_ptr;
    Map_constructor (key_lt k) debug (elements_or_empty keys) (elements_or_empty values).

(** [ArraySerializer<E, F>::DeserializeElements]; the array is not null. *)
Fixpoint Elements_Deserialize (t : data_type) (input : Z) : desM elements :=
  match t with
  | Primitive _ | Bool | HandleType =>
      c ← Deserialize_ debug t input;
      match c with Some c => mret (Plain c) | None => lift Fault end
  | Char => lift Fault
  | Interface => n ← Array_size input; l ← DeserializeInterfaces (Z.to_nat n) input 0; mret (Interfaces l)
  | Struct id =>
      n ← Array_size input;
      l ← DeserializePointers (Deserialize_struct id) t (Z.to_nat n) input 0; mret (Values l)
  | Union id => n ← Array_size input; l ← DeserializeUnions id (Z.to_nat n) input 0; mret (Values l)
  | ArrayOf Char =>
      n ← Array_size input;
      l ← DeserializePointers Deserialize_string t (Z.to_nat n) input 0; mret (Values l)
  | ArrayOf u =>
      n ← Array_size input;
      l ← DeserializePointers (Array_Deserialize (Elements_Deserialize u)) t (Z.to_nat n) input 0;
      mret (Values l)
  | MapOf k w =>
      n ← Array_size input;
      l ← DeserializePointers (Map_Deserialize (Elements_Deserialize k) (Elements_Deserialize w) k) t
            (Z.to_nat n) input 0;
      mret (Values l)
  end.

Definition DeserializeArray (t : data_type) (input : Z) : desM value :=
  Array_Deserialize (Elements_Deserialize t) input.
Definition DeserializeMap (k w : data_type) (input : Z) : desM value :=
  Map_Deserialize (Elements_Deserialize k) (Elements_Deserialize w) k input.
End Deserialize.
