(* ===== verification/ContainersFacts.v ===== *)
(** What it is to serialize a value, and each kind of array, strings and maps: pointers
    and slots, unions in place, interfaces, plain data. *)
From stdpp Require Import base numbers list option.
From coqutil Require Import Byte Word.LittleEndianList.
From Stdlib Require Import ZArith Lia Sorting.Sorted.
From S2P Require Import Prelude CMem Buffer Descriptor Validate Serialization SerializationFacts.
From S2P Require Import Arrays ArraysFacts ArraysSpec Containers.

Abbreviation serM := (M (mem * FixedBuffer)).

#[export] Instance data_type_eq_dec : EqDecision data_type.
Proof. solve_decision. Defined.

(** * Room *)

Definition sized (s : Z) : Prop := 0 <= s /\ s mod 8 = 0.

Lemma sized_round8 n : 0 <= n -> sized (round8 n).
Proof. intros Hn. pose proof (round8_bounds n). split; [lia|]. unfold round8. lia. Qed.

Lemma sized_add a b : sized a -> sized b -> sized (a + b).
Proof. unfold sized. lia. Qed.

(** The next free address. *)
Definition top (b : FixedBuffer) : Z := ptr_ b + cursor_ b.

Lemma top_bumped b s : top (bumped b s) = top b + s.
Proof. unfold top, bumped. simpl. lia. Qed.

Lemma bumped_bumped b s1 s2 : bumped (bumped b s1) s2 = bumped b (s1 + s2).
Proof. unfold bumped. simpl. f_equal. lia. Qed.

Lemma bumped_0 b : bumped b 0 = b.
Proof. destruct b. unfold bumped. simpl. f_equal. lia. Qed.

Lemma room_take m b s1 s2 : room m b (s1 + s2) -> 0 <= s2 -> room m b s1.
Proof.
  intros [Hp Hc He Hm] Hs. split; [done| |done|]; [lia|]. eapply mapped_weaken; [exact Hm|lia..].
Qed.

(** After the first part is written. *)
Lemma room_next m m' b s1 s2 : room m b (s1 + s2) -> sized s1 ->
  agree (fun a => top b + s1 <= a) m m' -> room m' (bumped b s1) s2.
Proof.
  intros [Hp Hc He Hm] [Hs Hal] Hag. split; simpl; [done| |done|]; [lia|].
  eapply mapped_agree; [eapply agree_weaken; [exact Hag|]|eapply mapped_weaken; [exact Hm|lia..]].
  unfold range, top. lia.
Qed.

Lemma room_agree m m' b s : room m b s -> agree (range (top b) (top b + s)) m m' -> room m' b s.
Proof. intros [H1 H2 H3 H4] Hag. split; try done. by eapply mapped_agree. Qed.

(** What [H] says of the memory, for fewer addresses. *)
Ltac frame H :=
  eapply agree_weaken; [exact H|]; unfold range, storage, sizeof_ArrayHeader in *; rewrite ?top_bumped in *; cbn beta; lia.

(** A load of something that did not change. *)
Lemma load_frame k m m' a v P : agree P m m' -> (forall x, range a (a + Z.of_nat k) x -> P x) ->
  load k m a = Ok v -> load k m' a = Ok v.
Proof. intros Hag HP <-. symmetry. apply load_agree. by eapply agree_weaken. Qed.

Ltac load_by_frame H := eapply load_frame; [exact H| |eassumption];
  unfold range, storage, sizeof_ArrayHeader in *; rewrite ?top_bumped in *; cbn beta; lia.

(** * What it is to be serialized

    [read] gives [x] on all memory that is [m] between [lo] and [hi], and changes
    nothing else (handles are taken out). *)
Definition reads {A} (read : serM A) (x : A) (m : mem) (lo hi : Z) : Prop :=
  forall m2 b2, agree (range lo hi) m m2 -> exists m3, read (m2, b2) = Ok (x, (m3, b2)) /\
    agree (fun a => a < lo \/ hi <= a) m2 m3.

Lemma reads_agree {A} (read : serM A) x m m' lo hi :
  reads read x m lo hi -> agree (range lo hi) m m' -> reads read x m' lo hi.
Proof. intros Hr Hag m2 b2 H2. apply Hr. by etransitivity. Qed.

(** [run] writes [size] bytes, from which [read] gets [v] back. *)
Definition serializes (run : serM (ValidationError * option Z)) (size : Z) (read : Z -> serM value) (v : value) : Prop :=
  forall m b, room m b size -> exists p m',
    run (m, b) = Ok ((NONE, Some p), (m', bumped b size)) /\
    0 <= p < 2 ^ 64 /\ (p = NULL <-> v = Null) /\
    agree (fun a => a < top b \/ top b + size <= a) m m' /\
    reads (read p) v m' (top b) (top b + size).

(** Nothing is written for a null pointer. *)
Lemma serializes_null run read :
  (forall st, run st = Ok ((NONE, Some NULL), st)) -> (forall st, read NULL st = Ok (Null, st)) ->
  serializes run 0 read Null.
Proof.
  intros Hrun Hread m b _. exists NULL, m. rewrite Hrun, bumped_0. split_and!; [done|unfold NULL; lia..|done|done|].
  intros m2 b2 _. exists m2. by rewrite Hread.
Qed.

(** ** Arrays: a header, then slots, then what the slots lead to *)

Definition total (size : value -> Z) (l : list value) : Z := foldr (fun v n => size v + n) 0 l.

Lemma sized_total size l : (forall v, v ∈ l -> sized (size v)) -> sized (total size l).
Proof.
  induction l as [|v l IH]; intros Hl; [done|]. simpl. apply sized_add; [apply Hl; left|].
  apply IH. intros u Hu. apply Hl. by right.
Qed.

(** [SE] fills the elements of the array [data], with [extra] bytes of their own, and
    [DE] gets them back. *)
Definition elements_serialize (SE : elements -> Z -> ArrayValidateParams -> serM ValidationError)
    (DE : Z -> serM elements) (t : data_type) (params : ArrayValidateParams) (e : elements) (extra : Z) : Prop :=
  forall data m b,
    let need := array_bytes_needed t (elements_size e) in
    load32 m data = Ok need -> load32 m (data + 4) = Ok (elements_size e) ->
    mapped m data (data + need) -> 0 < data -> data + need <= top b -> room m b extra ->
    exists m', SE e data params (m, b) = Ok (NONE, (m', bumped b extra)) /\
      agree (fun a => (a < data \/ data + need <= a) /\ (a < top b \/ top b + extra <= a)) m m' /\
      forall m2 b2, agree (range data (data + need)) m' m2 -> agree (range (top b) (top b + extra)) m' m2 ->
        exists m3, DE data (m2, b2) = Ok (e, (m3, b2)) /\
          agree (fun a => (a < data \/ data + need <= a) /\ (a < top b \/ top b + extra <= a)) m2 m3.

Lemma Array_New_eq debug t n m b : fits_u32 t n -> room m b (round8 (array_bytes_needed t n)) ->
  exists m', Array_New debug t n (m, b) = Ok (top b, (m', bumped b (round8 (array_bytes_needed t n)))) /\
    load32 m' (top b) = Ok (array_bytes_needed t n) /\ load32 m' (top b + 4) = Ok n /\
    mapped m' (top b) (top b + round8 (array_bytes_needed t n)) /\
    agree (fun a => a < top b \/ top b + 8 <= a) m m'.
Proof.
  intros Hfits Hroom.
  assert (Hwp : wp (Array_New debug t n) (m, b) (fun p st' =>
    p = top b /\ st'.2 = bumped b (round8 (array_bytes_needed t n)) /\
    load32 st'.1 (top b) = Ok (array_bytes_needed t n) /\ load32 st'.1 (top b + 4) = Ok n /\
    mapped st'.1 (top b) (top b + round8 (array_bytes_needed t n)) /\
    agree (fun a => a < top b \/ top b + 8 <= a) m st'.1)).
  { apply wp_Array_New; [done..|]. intros m' p Hl Hn Hm Hag. by split_and!. }
  apply wp_run in Hwp as (p & [m' b'] & Hrun & -> & Hb & Hrest). simpl in *. subst b'. by exists m'.
Qed.

Lemma top_below m b s : room m b s -> 0 <= s -> 0 < top b /\ top b + s < 2 ^ 64.
Proof. intros [Hp Hc He _] Hs. unfold top. lia. Qed.

Lemma expected_ok params n : expected_num_elements params = 0 \/ expected_num_elements params = n ->
  negb (expected_num_elements params =? 0) && negb (n =? expected_num_elements params) = false.
Proof. intros [-> | ->]; [done|]. by rewrite Z.eqb_refl, andb_false_r. Qed.

(** A new array, and its elements, when something else was stored in between. *)
Lemma new_array_serializes debug SE DE t params e extra m b :
  elements_serialize SE DE t params e extra -> fits_u32 t (elements_size e) -> sized extra ->
  let need := round8 (array_bytes_needed t (elements_size e)) in
  room m b (need + extra) ->
  exists m1, Array_New debug t (elements_size e) (m, b) = Ok (top b, (m1, bumped b need)) /\
    agree (fun a => a < top b \/ top b + need <= a) m m1 /\
    forall m1', agree (range (top b) (top b + (need + extra))) m1 m1' ->
      exists m', SE e (top b) params (m1', bumped b need) = Ok (NONE, (m', bumped b (need + extra))) /\
        agree (fun a => a < top b \/ top b + (need + extra) <= a) m1' m' /\
        reads (DE (top b)) e m' (top b) (top b + (need + extra)).
Proof.
  intros HSE Hfits Hex need Hroom. pose proof Hfits as (Hs & Hn & _).
  pose proof (bytes_needed_pos t _ Hs Hn) as Hpos. pose proof (round8_bounds (array_bytes_needed t (elements_size e))) as Hr8.
  fold need in Hr8. assert (Hneed : sized need) by (apply sized_round8; lia). pose proof (proj1 Hex) as Hex0.
  destruct (Array_New_eq debug t (elements_size e) m b Hfits) as (m1 & Hnew & Hl & Hc & Hmap & Hag1).
  { eapply room_take; [exact Hroom|done]. }
  fold need in Hnew, Hmap. exists m1. split_and!; [done|frame Hag1|]. intros m1' Hag1'.
  pose proof (top_below _ _ _ Hroom) as [Htop _]; [lia|].
  destruct (HSE (top b) m1' (bumped b need)) as (m' & HrunSE & Hag2 & Hread).
  { load_by_frame Hag1'. }
  { load_by_frame Hag1'. }
  { eapply mapped_agree; [frame Hag1'|]. eapply mapped_weaken; [exact Hmap|lia..]. }
  { done. }
  { rewrite top_bumped. lia. }
  { assert (Hroom1 : room m1 (bumped b need) extra) by (eapply room_next; [exact Hroom|done|frame Hag1]).
    eapply room_agree; [exact Hroom1|frame Hag1']. }
  exists m'. rewrite HrunSE, bumped_bumped. rewrite top_bumped in Hag2, Hread. split_and!; [done|frame Hag2|].
  intros m2 b2 H2. destruct (Hread m2 b2) as (m3 & Hrun & Hag3); [frame H2|frame H2|].
  exists m3. split; [done|]. frame Hag3.
Qed.

Lemma Array_serializes debug SE DE t params e extra :
  elements_serialize SE DE t params e extra -> fits_u32 t (elements_size e) ->
  expected_num_elements params = 0 \/ expected_num_elements params = elements_size e -> sized extra ->
  serializes (Array_Serialize debug SE t (ArrayValue e) (Some params))
    (round8 (array_bytes_needed t (elements_size e)) + extra) (Array_Deserialize DE) (ArrayValue e).
Proof.
  intros HSE Hfits Hexp Hex m b Hroom. pose proof Hfits as (Hs & Hn & _). pose proof (bytes_needed_pos t _ Hs Hn).
  pose proof (round8_bounds (array_bytes_needed t (elements_size e))). pose proof (proj1 Hex).
  destruct (top_below _ _ _ Hroom) as [Htop Hend]; [lia|].
  destruct (new_array_serializes debug SE DE t params e extra m b HSE Hfits Hex Hroom)
    as (m1 & Hnew & Hag1 & Hfill).
  destruct (Hfill m1) as (m' & HrunSE & Hag & Hread); [done|].
  exists (top b), m'. split_and!; [|lia|lia|unfold NULL; split; [lia|done]|etransitivity; [frame Hag1|frame Hag]|].
  - unfold Array_Serialize, mbind, M_bind. rewrite (expected_ok _ _ Hexp), Hnew, HrunSE. done.
  - intros m2 b2 H2. destruct (Hread m2 b2 H2) as (m3 & Hrun & Hag3). exists m3. split; [|done].
    unfold Array_Deserialize. destruct (Z.eqb_spec (top b) NULL); [unfold NULL in *; lia|].
    unfold mbind, M_bind. by rewrite Hrun.
Qed.

(** ** Arrays of pointers *)

Section Pointers.
Context (debug : bool) (Run : value -> option ArrayValidateParams -> serM (ValidationError * option Z)).
Context (rd : Z -> serM value) (size : value -> Z) (t : data_type) (params : ArrayValidateParams).
Context (Hslot : sizeof_StorageType t = 8).

Definition pointers_ok (l : list value) : Prop := forall v, v ∈ l ->
  serializes (Run v (element_validate_params params)) (size v) rd v /\ sized (size v) /\
  (element_is_nullable params = true \/ v <> Null).

Lemma at_slot {X} data i n (st : mem * X) :
  load32 st.1 (data + 4) = Ok n -> i < n -> at_ debug t data i st = Ok (storage data + 8 * i, st).
Proof. intros Hn Hi. apply wp_exact. eapply wp_at; [exact Hn|done|]. by rewrite Hslot. Qed.

Lemma Pointers_serialize l : forall i n data m b, pointers_ok l ->
  load32 m (data + 4) = Ok n -> 0 <= i -> i + Z.of_nat (length l) <= n -> n < 2 ^ 32 -> 0 < data ->
  mapped m (storage data + 8 * i) (storage data + 8 * (i + Z.of_nat (length l))) ->
  storage data + 8 * n <= top b -> room m b (total size l) ->
  exists m', SerializePointers debug Run t params data i l (m, b) = Ok (NONE, (m', bumped b (total size l))) /\
    agree (fun a => (a < storage data + 8 * i \/ storage data + 8 * (i + Z.of_nat (length l)) <= a) /\
                    (a < top b \/ top b + total size l <= a)) m m' /\
    forall m2 b2, load32 m2 (data + 4) = Ok n ->
      agree (range (storage data + 8 * i) (storage data + 8 * (i + Z.of_nat (length l)))) m' m2 ->
      agree (range (top b) (top b + total size l)) m' m2 ->
      exists m3, DeserializePointers debug rd t (length l) data i (m2, b2) = Ok (l, (m3, b2)) /\
        agree (fun a => a < top b \/ top b + total size l <= a) m2 m3.
Proof.
  induction l as [|v l IH]; intros i n data m b Hok Hn Hi Hle Hlt Hdata Hmap Htop Hroom.
  { simpl. exists m. rewrite bumped_0. split_and!; [done|done|]. intros m2 b2 _ _ _. by exists m2. }
  destruct (Hok v) as (Hv & Hsv & Hnull); [left|]. destruct (sized_total size l) as [Htot _].
  { intros u Hu. apply (Hok u). by right. }
  cbn [total foldr length] in *. fold (total size l) in *. pose proof (proj1 Hsv) as Hsv0.
  destruct (Hv m b) as (p & m1 & Hrun & Hp & Hpnull & Hag1 & Hread1); [eapply room_take; [exact Hroom|done]|].
  pose proof (store_Ok m1 (storage data + 8 * i) 8 p) as Hst. set (m1s := store_bytes m1 _ _) in Hst.
  assert (Hst' : store64 m1 (storage data + 8 * i) p = Ok m1s).
  { apply Hst. eapply mapped_agree; [|eapply mapped_weaken; [exact Hmap|lia..]]. frame Hag1. }
  clear Hst. assert (Hag1s : forall P, (forall a, P a -> a < storage data + 8 * i \/ storage data + 8 * i + 8 <= a) ->
    agree P m1 m1s) by (intros P HP; eapply store_agree; [exact Hst'|done]).
  assert (Hmid : agree (fun a => (a < storage data + 8 * i \/ storage data + 8 * i + 8 <= a) /\
    (a < top b \/ top b + size v <= a)) m m1s).
  { etransitivity; [frame Hag1|]. apply Hag1s. lia. }
  destruct (IH (i + 1) n data m1s (bumped b (size v))) as (m' & Hrest & Hag2 & Hread2); try lia.
  { intros u Hu. apply Hok. by right. }
  { load_by_frame Hmid. }
  { eapply mapped_agree; [|eapply mapped_weaken; [exact Hmap|lia..]]. frame Hmid. }
  { rewrite top_bumped. lia. }
  { eapply room_next; [exact Hroom|done|]. frame Hmid. }
  rewrite top_bumped in *. rewrite bumped_bumped in *. exists m'. split_and!.
  - cbn [SerializePointers]. unfold mbind, M_bind. rewrite Hrun. cbn [bool_decide].
    rewrite bool_decide_false by (by intros []).
    assert (Hn1 : load32 m1 (data + 4) = Ok n) by load_by_frame Hag1.
    rewrite (at_slot data i n) by (done || lia). unfold mstore. cbn [fst snd]. rewrite Hst'.
    assert (Hcond : negb (element_is_nullable params) && (p =? NULL) = false).
    { destruct Hnull as [->|Hnull]; [done|]. destruct (Z.eqb_spec p NULL) as [Hp0|]; [by apply Hpnull in Hp0|].
      apply andb_false_r. }
    by rewrite Hcond.
  - etransitivity; [frame Hmid|frame Hag2].
  - intros m2 b2 Hn2 Hslots Hregion.
    assert (Hslot0 : load64 m2 (storage data + 8 * i) = Ok p).
    { eapply load_frame; [exact Hslots|unfold range; lia|]. eapply load_frame; [exact Hag2|unfold range; lia|].
      rewrite (load_store _ _ _ _ _ Hst'). f_equal. apply Z.mod_small. exact Hp. }
    destruct (Hread1 m2 b2) as (m3 & Hrd & Hag3).
    { etransitivity; [apply (Hag1s (range (top b) (top b + size v))); unfold range; lia|].
      etransitivity; [frame Hag2|frame Hregion]. }
    destruct (Hread2 m3 b2) as (m4 & Hrest3 & Hag4).
    { eapply load_frame; [exact Hag3| |exact Hn2]. unfold range, storage, sizeof_ArrayHeader in *. lia. }
    { etransitivity; [frame Hslots|frame Hag3]. }
    { etransitivity; [frame Hregion|frame Hag3]. }
    exists m4. split; [|etransitivity; [frame Hag3|frame Hag4]].
    cbn [DeserializePointers]. unfold mbind, M_bind. rewrite (at_slot data i n) by (done || lia).
    unfold mload. cbn [fst]. rewrite Hslot0, Hrd, Hrest3. done.
Qed.

Lemma Pointers_elements SE DE l :
  is_bool t = false -> Z.of_nat (length l) < 2 ^ 32 -> pointers_ok l ->
  (forall data, SE (Values l) data params = SerializePointers debug Run t params data 0 l) ->
  (forall data, DE data = (n ← Array_size data;
     l ← DeserializePointers debug rd t (Z.to_nat n) data 0; mret (Values l))) ->
  elements_serialize SE DE t params (Values l) (total size l).
Proof.
  intros Hb Hlt Hok HSE HDE data m b need Hl Hn Hmap Hdata Htop Hroom.
  assert (Hneed : need = 8 + 8 * Z.of_nat (length l)).
  { unfold need, array_bytes_needed. rewrite Hb, Hslot. done. }
  rewrite Hneed in *. cbn [elements_size] in Hn.
  destruct (Pointers_serialize l 0 (Z.of_nat (length l)) data m b) as (m' & Hrun & Hag & Hread); try done; try lia.
  { eapply mapped_weaken; [exact Hmap|unfold storage, sizeof_ArrayHeader; lia..]. }
  { unfold storage, sizeof_ArrayHeader. lia. }
  exists m'. rewrite HSE, Hrun. split_and!; [done|frame Hag|]. intros m2 b2 H2 Hreg.
  assert (Hn2 : load32 m2 (data + 4) = Ok (Z.of_nat (length l))).
  { eapply load_frame; [exact H2|unfold range; lia|]. load_by_frame Hag. }
  destruct (Hread m2 b2) as (m3 & Hrd & Hag3); [done|frame H2|done|].
  exists m3. split; [|frame Hag3]. rewrite HDE. unfold Array_size, mload, mbind, M_bind. cbn [fst]. rewrite Hn2.
  rewrite Nat2Z.id, Hrd. done.
Qed.
End Pointers.

(** ** Unions, in place *)

(** An object that can be serialized, or a null pointer. *)
Definition valid_or_null (valid : nat -> Prop) (x : option nat) : Prop :=
  match x with Some x => valid x | None => True end.

Class UnionLaws `{Generated} := {
  union_valid : nat -> nat -> Prop;
  union_size_ok : forall id x, valid_or_null (union_valid id) x -> sized (union_size id x) /\ 16 <= union_size id x;
  (** A union is written in its 16 bytes and, for what it points to, at the next free
      address; its first word is 0 if and only if it is null. *)
  union_law : forall id x result m b, valid_or_null (union_valid id) x -> mapped m result (result + 16) -> 0 < result -> result + 16 <= top b ->
    let extra := union_size id x - 16 in
    room m b extra ->
    exists m' size, union_Serialize id x result (m, b) = Ok (NONE, (m', bumped b extra)) /\
      agree (fun a => (a < result \/ result + 16 <= a) /\ (a < top b \/ top b + extra <= a)) m m' /\
      load32 m' result = Ok size /\ (size = 0 <-> x = None) /\
      forall y m2 b2, x = Some y -> agree (range result (result + 16)) m' m2 ->
        agree (range (top b) (top b + extra)) m' m2 ->
        exists m3, union_Deserialize id result (m2, b2) = Ok (y, (m3, b2)) /\
          agree (fun a => (a < result \/ result + 16 <= a) /\ (a < top b \/ top b + extra <= a)) m2 m3;
}.

Section Unions.
Context `{UnionLaws} (debug : bool) (id : nat) (params : ArrayValidateParams).

Definition union_extra (v : value) : Z := union_size id (object_of v) - 16.

Lemma sized_union_extra v : valid_or_null (union_valid id) (object_of v) -> sized (union_extra v).
Proof. intros Hv. destruct (union_size_ok id (object_of v) Hv) as [[? ?] ?]. unfold union_extra. split; lia. Qed.

Definition unions_ok (l : list value) : Prop := forall v, v ∈ l ->
  (v = Null /\ element_is_nullable params = true) \/ exists x, v = ObjectValue x /\ union_valid id x.

Lemma unions_valid l v : unions_ok l -> v ∈ l -> valid_or_null (union_valid id) (object_of v).
Proof. intros Hok Hv. by destruct (Hok v Hv) as [[-> _]|(x & -> & Hx)]. Qed.

Lemma Unions_serialize l : forall i n data m b, unions_ok l ->
  load32 m (data + 4) = Ok n -> 0 <= i -> i + Z.of_nat (length l) <= n -> n < 2 ^ 32 -> 0 < data ->
  mapped m (storage data + 16 * i) (storage data + 16 * (i + Z.of_nat (length l))) ->
  storage data + 16 * n <= top b -> room m b (total union_extra l) ->
  exists m', SerializeUnions debug id params data i l (m, b) = Ok (NONE, (m', bumped b (total union_extra l))) /\
    agree (fun a => (a < storage data + 16 * i \/ storage data + 16 * (i + Z.of_nat (length l)) <= a) /\
                    (a < top b \/ top b + total union_extra l <= a)) m m' /\
    forall m2 b2, load32 m2 (data + 4) = Ok n ->
      agree (range (storage data + 16 * i) (storage data + 16 * (i + Z.of_nat (length l)))) m' m2 ->
      agree (range (top b) (top b + total union_extra l)) m' m2 ->
      exists m3, DeserializeUnions debug id (length l) data i (m2, b2) = Ok (l, (m3, b2)) /\
        agree (fun a => (a < storage data + 16 * i \/ storage data + 16 * (i + Z.of_nat (length l)) <= a) /\
                        (a < top b \/ top b + total union_extra l <= a)) m2 m3.
Proof.
  induction l as [|v l IH]; intros i n data m b Hok Hn Hi Hle Hlt Hdata Hmap Htop Hroom.
  { simpl. exists m. rewrite bumped_0. split_and!; [done|done|]. intros m2 b2 _ _ _. by exists m2. }
  destruct (sized_total union_extra l) as [Htot _]; [intros u Hu; eapply sized_union_extra, unions_valid; [exact Hok|by right]|].
  assert (Hvv : valid_or_null (union_valid id) (object_of v)) by (eapply unions_valid; [exact Hok|left]).
  pose proof (sized_union_extra v Hvv) as Hsv. pose proof (proj1 Hsv) as Hsv0.
  cbn [total foldr length] in *. fold (total union_extra l) in *. set (a := storage data + 16 * i) in *.
  assert (Hat : forall st : mem * FixedBuffer, load32 st.1 (data + 4) = Ok n -> at_ debug (Union id) data i st = Ok (a, st)).
  { intros st Hst. apply wp_exact. eapply wp_at; [exact Hst|lia|done]. }
  destruct (union_law id (object_of v) a m b Hvv) as (m1 & size & Hrun & Hag1 & Hsize & Hsize0 & Hread1).
  { eapply mapped_weaken; [exact Hmap|lia..]. }
  { unfold a, storage, sizeof_ArrayHeader. lia. }
  { unfold a. lia. }
  { eapply room_take; [exact Hroom|done]. }
  change (union_size id (object_of v) - 16) with (union_extra v) in *.
  destruct (IH (i + 1) n data m1 (bumped b (union_extra v))) as (m' & Hrest & Hag2 & Hread2); try lia.
  { intros u Hu. apply Hok. by right. }
  { load_by_frame Hag1. }
  { eapply mapped_agree; [|eapply mapped_weaken; [exact Hmap|lia..]]. frame Hag1. }
  { rewrite top_bumped. lia. }
  { eapply room_next; [exact Hroom|done|]. frame Hag1. }
  rewrite top_bumped in *. rewrite bumped_bumped in *. exists m'. split_and!.
  - cbn [SerializeUnions]. unfold mbind, M_bind. fold a. rewrite Hrun.
    rewrite bool_decide_false by (by intros []).
    assert (Hn1 : load32 m1 (data + 4) = Ok n) by load_by_frame Hag1.
    rewrite Hat by done. unfold mload. cbn [fst snd]. rewrite Hsize.
    assert (Hcond : negb (element_is_nullable params) && (size =? 0) = false).
    { destruct (Hok v) as [[_ ->]|(x & -> & _)]; [left|done|]. destruct (Z.eqb_spec size 0) as [Hz|]; [by apply Hsize0 in Hz|].
      apply andb_false_r. }
    by rewrite Hcond.
  - etransitivity; [frame Hag1|frame Hag2].
  - intros m2 b2 Hn2 Hslots Hregion.
    assert (Hsize2 : load32 m2 a = Ok size).
    { eapply load_frame; [exact Hslots|unfold range; lia|]. load_by_frame Hag2. }
    assert (exists m3, (if size =? 0 then mret Null else x ← union_Deserialize id a; mret (ObjectValue x)) (m2, b2) = Ok (v, (m3, b2)) /\
      agree (fun x => (x < a \/ a + 16 <= x) /\ (x < top b \/ top b + union_extra v <= x)) m2 m3) as (m3 & Hrd & Hag3).
    { destruct (Z.eqb_spec size 0) as [Hz|Hz].
      - exists m2. apply Hsize0 in Hz. destruct (Hok v) as [[-> _]|(x & -> & _)]; [left|done|done].
      - destruct (Hok v) as [[-> _]|(x & -> & _)]; [left|by destruct Hz; apply Hsize0|].
        destruct (Hread1 x m2 b2 eq_refl) as (m3 & Hrd & Hag3).
        + etransitivity; [frame Hag2|frame Hslots].
        + etransitivity; [frame Hag2|frame Hregion].
        + exists m3. unfold mbind, M_bind. by rewrite Hrd. }
    destruct (Hread2 m3 b2) as (m4 & Hrest3 & Hag4).
    { load_by_frame Hag3. }
    { etransitivity; [frame Hslots|frame Hag3]. }
    { etransitivity; [frame Hregion|frame Hag3]. }
    exists m4. split; [|etransitivity; [frame Hag3|frame Hag4]].
    cbn [DeserializeUnions]. apply wp_exact. wp_step. apply wp_run. eexists _, _. split; [by apply Hat|].
    wp_step. eapply wp_mload; [exact Hsize2|]. wp_step. apply wp_run. eexists _, _. split; [exact Hrd|].
    wp_step. apply wp_run. eexists _, _. split; [exact Hrest3|]. by wp_step.
Qed.

Lemma Unions_elements SE DE l :
  Z.of_nat (length l) < 2 ^ 32 -> unions_ok l ->
  (forall data, SE (Values l) data params = SerializeUnions debug id params data 0 l) ->
  (forall data, DE data = (n ← Array_size data; l ← DeserializeUnions debug id (Z.to_nat n) data 0; mret (Values l))) ->
  elements_serialize SE DE (Union id) params (Values l) (total union_extra l).
Proof.
  intros Hlt Hok HSE HDE data m b need Hl Hn Hmap Hdata Htop Hroom.
  assert (Hneed : need = 8 + 16 * Z.of_nat (length l)) by done.
  rewrite Hneed in *. cbn [elements_size] in Hn.
  destruct (Unions_serialize l 0 (Z.of_nat (length l)) data m b) as (m' & Hrun & Hag & Hread); try done; try lia.
  { eapply mapped_weaken; [exact Hmap|unfold storage, sizeof_ArrayHeader; lia..]. }
  { unfold storage, sizeof_ArrayHeader. lia. }
  exists m'. rewrite HSE, Hrun. split_and!; [done|frame Hag|]. intros m2 b2 H2 Hreg.
  assert (Hn2 : load32 m2 (data + 4) = Ok (Z.of_nat (length l))).
  { eapply load_frame; [exact H2|unfold range; lia|]. load_by_frame Hag. }
  destruct (Hread m2 b2) as (m3 & Hrd & Hag3); [done|frame H2|done|].
  exists m3. split; [|frame Hag3]. rewrite HDE. unfold Array_size, mload, mbind, M_bind. cbn [fst]. rewrite Hn2.
  rewrite Nat2Z.id, Hrd. done.
Qed.
End Unions.

(** ** Interfaces *)

Definition interfaces_ok (nullable : bool) (l : list (Z * Z)) : Prop :=
  Forall (fun x => in_width 4 x.1 /\ in_width 4 x.2 /\ (nullable = true \/ x.1 <> MOJO_HANDLE_INVALID)) l.

Lemma Interfaces_serialize debug nullable l : forall i n data m (b : FixedBuffer), interfaces_ok nullable l ->
  load32 m (data + 4) = Ok n -> 0 <= i -> i + Z.of_nat (length l) <= n -> n < 2 ^ 32 -> 0 < data ->
  mapped m (storage data + 8 * i) (storage data + 8 * (i + Z.of_nat (length l))) ->
  exists m', SerializeInterfaces debug nullable data i l (m, b) = Ok (NONE, (m', b)) /\
    agree (fun a => a < storage data + 8 * i \/ storage data + 8 * (i + Z.of_nat (length l)) <= a) m m' /\
    forall m2 (b2 : FixedBuffer), load32 m2 (data + 4) = Ok n ->
      agree (range (storage data + 8 * i) (storage data + 8 * (i + Z.of_nat (length l)))) m' m2 ->
      exists m3, DeserializeInterfaces debug (length l) data i (m2, b2) = Ok (l, (m3, b2)) /\
        agree (fun a => a < storage data + 8 * i \/ storage data + 8 * (i + Z.of_nat (length l)) <= a) m2 m3.
Proof.
  induction l as [|[h version] l IH]; intros i n data m b Hok Hn Hi Hle Hlt Hdata Hmap.
  { exists m. split_and!; [done|done|]. intros m2 b2 _ _. by exists m2. }
  apply Forall_cons_1 in Hok as [(Hh & Hv & Hnull) Hok]. cbn [length fst snd] in *.
  set (a := storage data + 8 * i) in *.
  assert (Hat : forall st : mem * FixedBuffer, load32 st.1 (data + 4) = Ok n -> at_ debug Interface data i st = Ok (a, st)).
  { intros st Hst. apply wp_exact. eapply wp_at; [exact Hst|lia|done]. }
  assert (Hst1 : store32 m a h = Ok (store_bytes m a (le_split 4 h))).
  { apply store_Ok. eapply mapped_weaken; [exact Hmap|lia..]. }
  set (m1 := store_bytes m a _) in Hst1.
  assert (Hag1 : agree (fun x => x < a \/ a + 4 <= x) m m1) by (eapply store_agree; [exact Hst1|lia]).
  assert (Hst2 : store32 m1 (a + 4) version = Ok (store_bytes m1 (a + 4) (le_split 4 version))).
  { apply store_Ok. eapply mapped_agree; [|eapply mapped_weaken; [exact Hmap|lia..]]. frame Hag1. }
  set (m1' := store_bytes m1 _ _) in Hst2.
  assert (Hag1' : agree (fun x => x < a + 4 \/ a + 8 <= x) m1 m1') by (eapply store_agree; [exact Hst2|lia]).
  assert (Hmid : agree (fun x => x < a \/ a + 8 <= x) m m1') by (etransitivity; [frame Hag1|frame Hag1']).
  destruct (IH (i + 1) n data m1' b) as (m' & Hrest & Hag2 & Hread2); try lia; [done|load_by_frame Hmid| |].
  { eapply mapped_agree; [|eapply mapped_weaken; [exact Hmap|lia..]]. frame Hmid. }
  exists m'. split_and!.
  - cbn [SerializeInterfaces]. apply wp_exact. wp_step. apply wp_run. eexists _, _. split; [by apply Hat|].
    wp_step. eapply wp_mstore; [exact Hst1|]. wp_step. eapply wp_mstore; [exact Hst2|]. cbn [fst snd].
    assert (Hcond : negb nullable && (h =? MOJO_HANDLE_INVALID) = false).
    { destruct Hnull as [->|Hne]; [done|]. by rewrite (proj2 (Z.eqb_neq _ _) Hne), andb_false_r. }
    rewrite Hcond. apply wp_run. eexists _, _. by split; [exact Hrest|].
  - etransitivity; [frame Hmid|frame Hag2].
  - intros m2 b2 Hn2 Hslots.
    assert (Hh2 : load32 m2 a = Ok h).
    { eapply load_frame; [exact Hslots|unfold range; lia|]. eapply load_frame; [exact Hag2|unfold range; lia|].
      eapply load_frame; [exact Hag1'|unfold range; lia|]. rewrite (load_store _ _ _ _ _ Hst1). f_equal. by apply Z.mod_small. }
    assert (Hst3 : store32 m2 a MOJO_HANDLE_INVALID = Ok (store_bytes m2 a (le_split 4 MOJO_HANDLE_INVALID))).
    { apply store_Ok. by eapply load_Ok_mapped. }
    set (m2' := store_bytes m2 a _) in Hst3.
    assert (Hag3 : agree (fun x => x < a \/ a + 4 <= x) m2 m2') by (eapply store_agree; [exact Hst3|lia]).
    assert (Hv2 : load32 m2' (a + 4) = Ok version).
    { eapply load_frame; [exact Hag3|unfold range; lia|]. eapply load_frame; [exact Hslots|unfold range; lia|].
      eapply load_frame; [exact Hag2|unfold range; lia|].
      rewrite (load_store _ _ _ _ _ Hst2). f_equal. by apply Z.mod_small. }
    destruct (Hread2 m2' b2) as (m4 & Hrest4 & Hag4); [load_by_frame Hag3| |].
    { etransitivity; [frame Hslots|frame Hag3]. }
    exists m4. split; [|etransitivity; [frame Hag3|frame Hag4]].
    cbn [DeserializeInterfaces]. apply wp_exact. wp_step. apply wp_run. eexists _, _. split; [by apply Hat|].
    wp_step. eapply wp_mload; [exact Hh2|]. wp_step. eapply wp_mstore; [exact Hst3|]. cbn [fst snd].
    wp_step. eapply wp_mload; [exact Hv2|]. wp_step. apply wp_run. eexists _, _. split; [exact Hrest4|]. by wp_step.
Qed.

Lemma Interfaces_elements debug SE DE params l :
  Z.of_nat (length l) < 2 ^ 32 -> interfaces_ok (element_is_nullable params) l -> element_validate_params params = None ->
  (forall data, SE (Interfaces l) data params =
    (MOJO_DCHECK debug (bool_decide (element_validate_params params = None));;
     SerializeInterfaces debug (element_is_nullable params) data 0 l)) ->
  (forall data, DE data = (n ← Array_size data;
     l ← DeserializeInterfaces debug (Z.to_nat n) data 0; mret (Interfaces l))) ->
  elements_serialize SE DE Interface params (Interfaces l) 0.
Proof.
  intros Hlt Hok Hnone HSE HDE data m b need Hl Hn Hmap Hdata Htop Hroom.
  assert (Hneed : need = 8 + 8 * Z.of_nat (length l)) by done.
  rewrite Hneed in *. cbn [elements_size] in Hn.
  destruct (Interfaces_serialize debug _ l 0 (Z.of_nat (length l)) data m b Hok Hn) as (m' & Hrun & Hag & Hread); try lia.
  { eapply mapped_weaken; [exact Hmap|unfold storage, sizeof_ArrayHeader; lia..]. }
  exists m'. rewrite HSE, bumped_0. split_and!; [|frame Hag|].
  - apply wp_exact. wp_step. apply wp_dcheck; [by rewrite Hnone|]. apply wp_run. eexists _, _. by split; [exact Hrun|].
  - intros m2 b2 H2 Hreg.
    assert (Hn2 : load32 m2 (data + 4) = Ok (Z.of_nat (length l))).
    { eapply load_frame; [exact H2|unfold range; lia|]. load_by_frame Hag. }
    destruct (Hread m2 b2) as (m3 & Hrd & Hag3); [done|frame H2|].
    exists m3. split; [|frame Hag3]. rewrite HDE. unfold Array_size, mload, mbind, M_bind. cbn [fst]. rewrite Hn2.
    rewrite Nat2Z.id, Hrd. done.
Qed.

(** ** Plain data, bools and handles *)

Lemma SerializePlain_spec debug from_array c params p m (b : FixedBuffer) :
  contents_ok params c -> fits_u32 (contents_type c) (contents_size c) -> 0 <= p ->
  let need := array_bytes_needed (contents_type c) (contents_size c) in
  load32 m p = Ok need -> load32 m (p + 4) = Ok (contents_size c) -> mapped m p (p + need) ->
  wp (SerializePlain debug from_array c p params) (m, b) (fun e st' =>
    e = NONE /\ st'.2 = b /\ holds c st'.1 p /\ agree (fun a => a < p \/ p + need <= a) m st'.1).
Proof.
  intros Hok Hfits Hp0 need Hl Hn Hmap.
  destruct c as [k vs|bs|hs]; [destruct from_array| |]; try (by apply SerializeElements_spec).
  destruct Hok as (Hp & _ & Hk & Hnull & Hvs). cbn [SerializePlain].
  wp_step. apply wp_dcheck; [by rewrite Hnull|]. wp_step. apply wp_dcheck; [by rewrite Hp|]. wp_step.
  destruct Hfits as (Hs & Hn0 & Hlt & Hneed).
  unfold need, array_bytes_needed, contents_size in *. cbn [contents_type is_bool sizeof_StorageType] in *.
  assert (Hnr : 0 <= Z.of_nat (length vs) < 2 ^ 32) by lia.
  eapply wp_mono; [apply (SerializePods_spec debug p _ Hnr vs [] m b Hn eq_refl); [|by apply values_at_nil|done]|].
  { unfold storage, sizeof_ArrayHeader. eapply mapped_weaken; [exact Hmap|lia..]. }
  intros _ [m' b'] (Hb & Hc' & Hvals & Hag & _). cbn [fst snd] in *. subst b'. wp_step. split_and!; try done.
  - unfold holds, array_bytes_needed, contents_size. cbn [contents_type is_bool sizeof_StorageType]. split_and!; [|done|done].
    eapply load_frame; [exact Hag| |exact Hl]. unfold range, outside, storage, sizeof_ArrayHeader. lia.
  - eapply agree_weaken; [exact Hag|]. unfold outside, storage, sizeof_ArrayHeader. lia.
Qed.

Lemma Plain_elements debug from_array SE DE params c :
  contents_ok params c -> fits_u32 (contents_type c) (contents_size c) ->
  (forall data, SE (Plain c) data params = SerializePlain debug from_array c data params) ->
  (forall data, DE data = (c' ← Deserialize_ debug (contents_type c) data;
     match c' with Some c' => mret (Plain c') | None => lift Fault end)) ->
  elements_serialize SE DE (contents_type c) params (Plain c) 0.
Proof.
  intros Hok Hfits HSE HDE data m b need Hl Hn Hmap Hdata Htop Hroom. cbn [elements_size] in *.
  pose proof (SerializePlain_spec debug from_array c params data m b Hok Hfits ltac:(lia) Hl Hn Hmap) as Hwp.
  apply wp_run in Hwp as (e & [m' b'] & Hrun & -> & Hb & Hholds & Hag). cbn [fst snd] in *. subst b'.
  exists m'. rewrite HSE, Hrun, bumped_0. split_and!; [done|frame Hag|].
  intros m2 b2 H2 _. destruct (Deserialize_spec debug c data m2 b2 Hfits Hdata) as (m3 & Hrd & Hag3).
  { eapply holds_agree; [done|exact Hholds|exact H2]. }
  exists m3. split; [|frame Hag3]. rewrite HDE. unfold mbind, M_bind. by rewrite Hrd.
Qed.

(** ** Strings *)

Lemma String_serializes debug s params : params = Some (Params 0 false None) -> fits_u32 Char (Z.of_nat (length s)) ->
  serializes (Run_string debug (StringValue s) params) (round8 (8 + Z.of_nat (length s))) Deserialize_string
    (StringValue s).
Proof.
  intros -> Hfits m b Hroom. set (n := Z.of_nat (length s)) in *. pose proof (round8_bounds (8 + n)) as Hr8.
  assert (Hneed : array_bytes_needed Char n = 8 + n) by (unfold array_bytes_needed; simpl; lia).
  destruct (top_below _ _ _ Hroom) as [Htop Hend]; [lia|].
  destruct (Array_New_eq debug Char n m b Hfits) as (m1 & Hnew & Hl & Hc & Hmap & Hag); [by rewrite Hneed|].
  rewrite Hneed in *. set (m' := store_bytes m1 (storage (top b)) s).
  assert (Hmap1 : mapped m1 (storage (top b)) (storage (top b) + Z.of_nat (length s))).
  { unfold storage, sizeof_ArrayHeader. eapply mapped_weaken; [exact Hmap|fold n; lia..]. }
  assert (Hag' : agree (fun a => a < storage (top b) \/ storage (top b) + n <= a) m1 m').
  { intros a Ha. unfold m'. symmetry. apply store_bytes_lookup_out. fold n. lia. }
  exists (top b), m'. split_and!; [|lia|lia|unfold NULL; split; [lia|done]|etransitivity; [frame Hag|frame Hag']|].
  - unfold Run_string. apply wp_exact. wp_step. apply wp_dcheck; [done|]. wp_step. cbn [SerializeString_]. wp_step.
    apply wp_run. eexists _, _. split; [exact Hnew|]. destruct (Z.eqb_spec (top b) NULL); [unfold NULL in *; lia|].
    wp_step. unfold memcpy_chars. wp_step. apply wp_get. cbn [fst snd].
    destruct (load_bytes_mapped _ _ _ Hmap1) as [bs Hbs]. rewrite Hbs. apply wp_put. by repeat wp_step.
  - intros m2 b2 H2. exists m2. split; [|done]. unfold Deserialize_string.
    destruct (Z.eqb_spec (top b) NULL); [unfold NULL in *; lia|].
    unfold Array_size, mload, mbind, M_bind, get. cbn [fst].
    assert (Hc2 : load32 m2 (top b + 4) = Ok n).
    { eapply load_frame; [exact H2|unfold range; lia|]. load_by_frame Hag'. }
    rewrite Hc2. unfold n at 1. rewrite Nat2Z.id.
    rewrite <- (load_bytes_agree m' m2) by frame H2. unfold m'. rewrite load_bytes_store_bytes. done.
Qed.

(** ** Maps *)

Lemma pick_all {A} (l : list A) : pick l (seq 0 (length l)) = l.
Proof.
  unfold pick. assert (Hgen : forall pre, omap (fun i => (pre ++ l) !! i) (seq (length pre) (length l)) = l).
  { induction l as [|x l IH]; intros pre; [done|]. cbn [length seq omap list_omap].
    rewrite lookup_app_r, Nat.sub_diag by lia. cbn. f_equal.
    specialize (IH (pre ++ [x])). rewrite length_app in IH. simpl in IH. rewrite Nat.add_1_r in IH.
    rewrite <- app_assoc in IH. exact IH. }
  exact (Hgen []).
Qed.

Lemma pick_elements_all e : pick_elements e (seq 0 (Z.to_nat (elements_size e))) = e.
Proof. destruct e as [[]|l|l]; simpl; unfold contents_size; rewrite Nat2Z.id; by rewrite pick_all. Qed.

(** Keys in order are inserted one after the other. *)
Lemma insert_sorted_keys lt ks : StronglySorted (fun x y => lt x y = true) ks ->
  insert_all lt ks = seq 0 (length ks).
Proof.
  intros Hs. assert (Hlt : forall i j x y, (i < j)%nat -> ks !! i = Some x -> ks !! j = Some y -> lt x y = true).
  { induction Hs as [|k ks Hs IH Hall]; intros i j x y Hij Hx Hy; [done|].
    destruct i as [|i], j as [|j]; try lia; simpl in *.
    - injection Hx as <-. rewrite List.Forall_forall in Hall. apply Hall. apply list_elem_of_In. by eapply list_elem_of_lookup_2.
    - eapply (IH i j); [lia|done|done]. }
  assert (Hins : forall i k, ks !! i = Some k -> forall s, (s <= i)%nat -> Insert lt ks i (seq s (i - s)) = seq s (i - s) ++ [i]).
  { intros i k Hk s. remember (i - s)%nat as d eqn:Hd. revert s Hd. induction d as [|d IH]; intros s Hd Hle; [done|].
    cbn [seq Insert app]. rewrite Hk. destruct (lookup_lt_is_Some_2 ks s) as [k' Hk'].
    { apply lookup_lt_Some in Hk. lia. }
    rewrite Hk', (Hlt s i k' k) by (done || lia). f_equal. apply IH; lia. }
  unfold insert_all. assert (Hgen : forall d, (d <= length ks)%nat ->
    fold_left (fun map_ i => Insert lt ks i map_) (seq 0 d) [] = seq 0 d).
  { induction d as [|d IH]; intros Hd; [done|]. rewrite seq_S, fold_left_app, IH by lia. cbn [fold_left]. change (0 + d)%nat with d.
    destruct (lookup_lt_is_Some_2 ks d) as [k Hk]; [lia|].
    pose proof (Hins d k Hk 0%nat ltac:(lia)) as H. rewrite Nat.sub_0_r in H. by rewrite H. }
  by apply Hgen.
Qed.

Lemma Map_constructor_sorted lt debug ks ws (st : mem * FixedBuffer) :
  elements_size ks = elements_size ws -> StronglySorted (fun x y => lt x y = true) (keys_of ks) ->
  Z.of_nat (length (keys_of ks)) = elements_size ks ->
  Map_constructor lt debug ks ws st = Ok (MapValue ks ws, st).
Proof.
  intros Heq Hs Hlen. unfold Map_constructor. apply wp_exact. wp_step. apply wp_dcheck; [by apply Z.eqb_eq|].
  wp_step. apply wp_assert; [apply Z.leb_le; lia|]. rewrite (insert_sorted_keys lt _ Hs).
  replace (length (keys_of ks)) with (Z.to_nat (elements_size ks)) by lia.
  rewrite pick_elements_all, Heq, pick_elements_all. by wp_step.
Qed.

Lemma Map_New_eq debug m b : room m b 24 ->
  exists m', Map_New debug (m, b) = Ok (top b, (m', bumped b 24)) /\
    mapped m' (top b) (top b + 24) /\ agree (fun a => a < top b \/ top b + 8 <= a) m m'.
Proof.
  intros Hroom. pose proof (FixedBuffer_Allocate_eq debug m b 24 ltac:(lia) Hroom) as Hal.
  pose proof (room_mapped _ _ _ Hroom) as Hmap. fold (top b) in Hmap.
  assert (Hs1 : store32 m (top b) 24 = Ok (store_bytes m (top b) (le_split 4 24))).
  { apply store_Ok. eapply mapped_weaken; [exact Hmap|lia..]. }
  set (m1 := store_bytes m _ _) in Hs1.
  assert (Hs2 : store32 m1 (top b + 4) 0 = Ok (store_bytes m1 (top b + 4) (le_split 4 0))).
  { apply store_Ok. eapply store_mapped; [exact Hs1|]. eapply mapped_weaken; [exact Hmap|lia..]. }
  set (m2 := store_bytes m1 _ _) in Hs2. exists m2. split_and!.
  - unfold Map_New. apply wp_exact. wp_step. apply wp_on_snd. apply wp_run. eexists _, _. split; [exact Hal|]. cbn [fst snd].
    fold (top b). wp_step. eapply wp_mstore; [exact Hs1|]. wp_step. eapply wp_mstore; [exact Hs2|]. by wp_step.
  - eapply store_mapped; [exact Hs2|]. by eapply store_mapped.
  - etransitivity; (eapply store_agree; [eassumption|]); lia.
Qed.

Lemma array_space t e ex : fits_u32 t (elements_size e) -> sized ex ->
  let n := round8 (array_bytes_needed t (elements_size e)) in sized n /\ 8 <= n /\ 0 <= ex.
Proof.
  intros (Hs & Hn & _) [Hex _] n. pose proof (bytes_needed_pos t _ Hs Hn).
  pose proof (round8_bounds (array_bytes_needed t (elements_size e))). split_and!; [apply sized_round8; lia|unfold n; lia|done].
Qed.

Section MapSerializes.
Context (debug : bool) (key_lt : data_type -> key -> key -> bool).
Context (SEk SEw : elements -> Z -> ArrayValidateParams -> serM ValidationError) (DEk DEw : Z -> serM elements).
Context (k w : data_type) (params : ArrayValidateParams) (ks ws : elements) (exk exw : Z).
Context (Hk : elements_serialize SEk DEk k (MapKeyValidateParamsFactory k) ks exk).
Context (Hw : elements_serialize SEw DEw w params ws exw).
Context (Hfk : fits_u32 k (elements_size ks)) (Hfw : fits_u32 w (elements_size ws)).
Context (Hsk : sized exk) (Hsw : sized exw) (Hcount : elements_size ks = elements_size ws).
Context (Hsorted : StronglySorted (fun x y => key_lt k x y = true) (keys_of ks)).
Context (Hkeys : Z.of_nat (length (keys_of ks)) = elements_size ks).

Let nk := round8 (array_bytes_needed k (elements_size ks)) + exk.
Let nw := round8 (array_bytes_needed w (elements_size ws)) + exw.

(** A map is read from its two arrays. *)
Lemma map_reads p nk' size m : 0 < p -> 0 <= nk' -> 24 + nk' <= size ->
  load64 m (p + 8) = Ok (p + 24) -> load64 m (p + 16) = Ok (p + (24 + nk')) ->
  reads (DEk (p + 24)) ks m (p + 24) (p + (24 + nk')) ->
  reads (DEw (p + (24 + nk'))) ws m (p + (24 + nk')) (p + size) ->
  reads (Map_Deserialize debug key_lt DEk DEw k p) (MapValue ks ws) m p (p + size).
Proof.
  intros Hp0 Hnk Hsz Hkp Hwp Hreadk Hreadw r b2 Hr.
  destruct (Hreadk r b2) as (r1 & Hrdk & Hr1); [frame Hr|].
  destruct (Hreadw r1 b2) as (r2 & Hrdw & Hr2); [etransitivity; [frame Hr|frame Hr1]|].
  exists r2. split; [|etransitivity; [frame Hr1|frame Hr2]].
  unfold Map_Deserialize, Array_Deserialize, NULL. rewrite !(proj2 (Z.eqb_neq _ 0)) by lia.
  apply wp_exact. wp_step. eapply wp_mload; [by eapply load_frame; [exact Hr|unfold range; lia|]|]. wp_step.
  rewrite (proj2 (Z.eqb_neq (p + 24) 0)) by lia. wp_step. apply wp_run.
  eexists _, _. split; [exact Hrdk|]. wp_step. wp_step.
  eapply wp_mload; [eapply load_frame; [exact Hr1|unfold range; lia|by eapply load_frame; [exact Hr|unfold range; lia|]]|].
  wp_step. rewrite (proj2 (Z.eqb_neq (p + (24 + nk')) 0)) by lia. wp_step. apply wp_run.
  eexists _, _. split; [exact Hrdw|]. wp_step. cbn [elements_or_empty]. apply wp_run.
  eexists _, _. split; [by apply Map_constructor_sorted|done].
Qed.

(** Where the parts of a map are. *)
Lemma Map_serializes_at m b : room m b (24 + (nk + nw)) -> exists m',
  Map_Serialize debug SEk SEw k w (MapValue ks ws) (Some params) (m, b) =
    Ok ((NONE, Some (top b)), (m', bumped b (24 + (nk + nw)))) /\
  0 < top b < 2 ^ 64 /\ agree (fun a => a < top b \/ top b + (24 + (nk + nw)) <= a) m m' /\
  load64 m' (top b + 8) = Ok (top b + 24) /\ load64 m' (top b + 16) = Ok (top b + (24 + nk)) /\
  reads (DEk (top b + 24)) ks m' (top b + 24) (top b + (24 + nk)) /\
  reads (DEw (top b + (24 + nk))) ws m' (top b + (24 + nk)) (top b + (24 + (nk + nw))) /\
  reads (Map_Deserialize debug key_lt DEk DEw k (top b)) (MapValue ks ws) m' (top b) (top b + (24 + (nk + nw))).
Proof.
  intros Hroom. destruct (array_space k ks exk Hfk Hsk) as (Hrk & Hrk8 & Hexk).
  destruct (array_space w ws exw Hfw Hsw) as (Hrw & Hrw8 & Hexw).
  assert (Hnk : sized nk /\ 8 <= nk) by (split; [by apply sized_add|unfold nk; lia]).
  assert (Hnw : sized nw /\ 8 <= nw) by (split; [by apply sized_add|unfold nw; lia]).
  destruct (top_below _ _ _ Hroom) as [Htop Hend]; [lia|].
  destruct (Map_New_eq debug m b) as (m1 & Hnew & Hmap & Hag1); [eapply room_take; [exact Hroom|lia]|].
  destruct (new_array_serializes debug SEk DEk k _ ks exk m1 (bumped b 24) Hk Hfk Hsk) as (m2 & Hnewk & Hag2 & Hfillk).
  { fold nk. apply (room_take _ _ _ nw); [|lia]. eapply room_next; [exact Hroom|done|frame Hag1]. }
  fold nk in Hfillk. rewrite top_bumped in *.
  assert (Hs2 : store64 m2 (top b + 8) (top b + 24) = Ok (store_bytes m2 (top b + 8) (le_split 8 (top b + 24)))).
  { apply store_Ok. eapply mapped_agree; [|eapply mapped_weaken; [exact Hmap|lia..]]. frame Hag2. }
  set (m2' := store_bytes m2 _ _) in Hs2.
  assert (Hag2' : agree (fun a => a < top b + 8 \/ top b + 16 <= a) m2 m2') by (eapply store_agree; [exact Hs2|lia]).
  destruct (Hfillk m2') as (m3 & Hrunk & Hag3 & Hreadk); [frame Hag2'|]. rewrite bumped_bumped in *.
  assert (Hm3 : agree (fun a => a < top b \/ top b + 24 + nk <= a) m m3).
  { etransitivity; [frame Hag1|]. etransitivity; [frame Hag2|]. etransitivity; [frame Hag2'|frame Hag3]. }
  destruct (new_array_serializes debug SEw DEw w _ ws exw m3 (bumped b (24 + nk)) Hw Hfw Hsw) as (m4 & Hneww & Hag4 & Hfillw).
  { fold nw. eapply (room_next m m3 b (24 + nk) nw); [by rewrite <- Z.add_assoc|apply sized_add; [done|apply Hnk]|frame Hm3]. }
  fold nw in Hfillw. rewrite top_bumped in *.
  assert (Hm3map : mapped m3 (top b) (top b + 24)).
  { eapply mapped_agree; [frame Hag3|]. eapply store_mapped; [exact Hs2|]. eapply mapped_agree; [frame Hag2|exact Hmap]. }
  assert (Hs4 : store64 m4 (top b + 16) (top b + (24 + nk)) = Ok (store_bytes m4 (top b + 16) (le_split 8 (top b + (24 + nk))))).
  { apply store_Ok. eapply mapped_agree; [|eapply mapped_weaken; [exact Hm3map|lia..]]. frame Hag4. }
  set (m4' := store_bytes m4 _ _) in Hs4.
  assert (Hag4' : agree (fun a => a < top b + 16 \/ top b + 24 <= a) m4 m4') by (eapply store_agree; [exact Hs4|lia]).
  destruct (Hfillw m4') as (m5 & Hrunw & Hag5 & Hreadw); [frame Hag4'|]. rewrite bumped_bumped in *.
  replace (24 + nk + nw) with (24 + (nk + nw)) in * by lia.
  assert (Hlate : agree (fun a => a < top b + 16 \/ top b + 24 <= a < top b + 24 + nk) m3 m5).
  { etransitivity; [frame Hag4|]. etransitivity; [frame Hag4'|frame Hag5]. }
  assert (Hkp : load64 m5 (top b + 8) = Ok (top b + 24)).
  { eapply load_frame; [exact Hlate|unfold range; lia|]. eapply load_frame; [exact Hag3|unfold range; lia|].
    rewrite (load_store _ _ _ _ _ Hs2). f_equal. apply Z.mod_small. simpl. lia. }
  assert (Hwp : load64 m5 (top b + 16) = Ok (top b + (24 + nk))).
  { eapply load_frame; [exact Hag5|unfold range; lia|].
    rewrite (load_store _ _ _ _ _ Hs4). f_equal. apply Z.mod_small. simpl. lia. }
  assert (Hrdk : reads (DEk (top b + 24)) ks m5 (top b + 24) (top b + (24 + nk))).
  { eapply reads_agree; [replace (top b + (24 + nk)) with (top b + 24 + nk) by lia; exact Hreadk|frame Hlate]. }
  assert (Hrw' : reads (DEw (top b + (24 + nk))) ws m5 (top b + (24 + nk)) (top b + (24 + (nk + nw)))).
  { by replace (top b + (24 + (nk + nw))) with (top b + (24 + nk) + nw) by lia. }
  exists m5. split_and!; [|lia|lia| |exact Hkp|exact Hwp|exact Hrdk|exact Hrw'|].
  - unfold Map_Serialize. apply wp_exact. wp_step. apply wp_run. eexists _, _. split; [exact Hnew|].
    wp_step. apply wp_run. eexists _, _. split; [exact Hnewk|]. wp_step. eapply wp_mstore; [exact Hs2|]. cbn [fst snd].
    wp_step. apply wp_run. eexists _, _. split; [exact Hrunk|]. rewrite bool_decide_false by (by intros []).
    wp_step. apply wp_run. eexists _, _. split; [exact Hneww|]. wp_step. eapply wp_mstore; [exact Hs4|]. cbn [fst snd].
    wp_step. apply wp_run. eexists _, _. split; [exact Hrunw|]. rewrite bool_decide_false by (by intros []). wp_step. split; [done|]. rewrite bumped_bumped. do 2 f_equal. lia.
  - etransitivity; [frame Hm3|]. etransitivity; [frame Hag4|]. etransitivity; [frame Hag4'|frame Hag5].
  - apply (map_reads _ nk); [lia|lia|lia|done..].
Qed.

Lemma Map_serializes :
  serializes (Map_Serialize debug SEk SEw k w (MapValue ks ws) (Some params)) (24 + (nk + nw))
    (Map_Deserialize debug key_lt DEk DEw k) (MapValue ks ws).
Proof.
  intros m b Hroom. destruct (Map_serializes_at m b Hroom) as (m' & Hrun & Htop & Hag & _ & _ & _ & _ & Hr).
  exists (top b), m'. split_and!; [done|lia|lia|unfold NULL; split; [lia|done]|done..].
Qed.
End MapSerializes.

(** ** Structs *)

Class StructLaws `{Generated} := {
  struct_valid : nat -> nat -> Prop;
  struct_size_ok : forall id x, struct_valid id x -> sized (struct_size id x);
  struct_null : forall id st, struct_Serialize id None st = Ok ((NONE, Some NULL), st);
  struct_law : forall id x, struct_valid id x -> serializes (struct_Serialize id (Some x)) (struct_size id x) (Deserialize_struct id) (ObjectValue x);
}.
