(* ===== verification/ContainersSpec.v ===== *)
(** Serializing arrays, maps and strings with elements of any type takes the computed
    size, and deserialization undoes it. *)
From stdpp Require Import base numbers list option.
From coqutil Require Import Byte Word.LittleEndianList.
From Stdlib Require Import ZArith Lia Sorting.Sorted.
From S2P Require Import Prelude CMem Buffer Descriptor Validate Serialization SerializationFacts.
From S2P Require Import Arrays ArraysFacts ArraysSpec Containers ContainersFacts.

(** * Values that can be serialized *)

Section Values.
Context `{HG : Generated} {HS : StructLaws} {HU : UnionLaws}.
Context (debug : bool) (key_lt : data_type -> key -> key -> bool).

(** What the elements take beyond their slots, given what a value takes, and the
    whole array. *)
Definition extra (item : value -> Z) (t : data_type) (e : elements) : Z :=
  match e with
  | Values l => total (fun v => if is_union t then item v - 16 else item v) l
  | _ => 0
  end.
Definition array_need (item : value -> Z) (t : data_type) (e : elements) : Z :=
  round8 (array_bytes_needed t (elements_size e)) + extra item t e.

(** The size of what a pointer to [v] leads to, in the integers. *)
Fixpoint need (t : data_type) (v : value) : Z :=
  match t with
  | Struct id => match v with ObjectValue x => struct_size id x | _ => 0 end
  | Union id => union_size id (object_of v)
  | ArrayOf Char => match v with StringValue s => round8 (8 + Z.of_nat (length s)) | _ => 0 end
  | ArrayOf u => match v with ArrayValue e => array_need (need u) u e | _ => 0 end
  | MapOf k w =>
      match v with
      | MapValue ks ws => 24 + (array_need (need k) k ks + array_need (need w) w ws)
      | _ => 0
      end
  | _ => 0
  end.

(** The parameters that the generator makes for a type of pointers. *)
Definition params_fit (t : data_type) (params : option ArrayValidateParams) : Prop :=
  match t with
  | Struct _ => params = None
  | ArrayOf Char => params = Some (Params 0 false None)
  | ArrayOf _ | MapOf _ _ => is_Some params
  | _ => True
  end.

(** Elements that the parameters allow; counts and sizes fit 32 bits. *)
Definition elements_ok_with (value_ok : option ArrayValidateParams -> value -> Prop) (t : data_type)
    (params : ArrayValidateParams) (e : elements) : Prop :=
  fits_u32 t (elements_size e) /\
  (expected_num_elements params = 0 \/ expected_num_elements params = elements_size e) /\
  match t, e with
  | (Primitive _ | Bool | HandleType), Plain c => contents_type c = t /\ contents_ok params c
  | Interface, Interfaces l => element_validate_params params = None /\ interfaces_ok (element_is_nullable params) l
  | (Struct _ | Union _ | ArrayOf _ | MapOf _ _), Values l =>
      params_fit t (element_validate_params params) /\
      Forall (fun v => (v = Null /\ element_is_nullable params = true) \/ value_ok (element_validate_params params) v) l
  | _, _ => False
  end.

(** Values that are not null; the keys of a map are in its order, and it has no interfaces. *)
Fixpoint value_ok (t : data_type) (params : option ArrayValidateParams) (v : value) : Prop :=
  match t with
  | Struct id => exists x, v = ObjectValue x /\ struct_valid id x
  | Union id => exists x, v = ObjectValue x /\ union_valid id x
  | ArrayOf Char => exists s, v = StringValue s /\ fits_u32 Char (Z.of_nat (length s))
  | ArrayOf u => exists q e, params = Some q /\ v = ArrayValue e /\ elements_ok_with (value_ok u) u q e
  | MapOf k w => k <> Interface /\ w <> Interface /\ exists q ks ws, params = Some q /\ v = MapValue ks ws /\
      elements_ok_with (value_ok k) k (MapKeyValidateParamsFactory k) ks /\ elements_ok_with (value_ok w) w q ws /\
      elements_size ks = elements_size ws /\
      StronglySorted (fun x y => key_lt k x y = true) (keys_of ks) /\ Z.of_nat (length (keys_of ks)) = elements_size ks
  | _ => False
  end.
Definition elements_ok (t : data_type) : ArrayValidateParams -> elements -> Prop := elements_ok_with (value_ok t) t.

(** [SerializeCaller::Run] and [DeserializeCaller::Run] of a type of pointers. *)
Definition Run_of (t : data_type) : value -> option ArrayValidateParams -> serM (ValidationError * option Z) :=
  match t with
  | Struct id => Run_struct debug id
  | ArrayOf Char => Run_string debug
  | ArrayOf u => Array_Serialize debug (Elements_Serialize debug true u) u
  | MapOf k w => Map_Serialize debug (Elements_Serialize debug false k) (Elements_Serialize debug false w) k w
  | _ => fun _ _ => lift Fault
  end.
Definition Read_of (t : data_type) : Z -> serM value :=
  match t with
  | Struct id => Deserialize_struct id
  | ArrayOf Char => Deserialize_string
  | ArrayOf u => Array_Deserialize (Elements_Deserialize debug key_lt u)
  | MapOf k w => Map_Deserialize debug key_lt (Elements_Deserialize debug key_lt k) (Elements_Deserialize debug key_lt w) k
  | _ => fun _ => lift Fault
  end.

Definition is_pointer (t : data_type) : bool :=
  match t with Struct _ | ArrayOf _ | MapOf _ _ => true | _ => false end.

Lemma Run_null t params : is_pointer t = true -> params_fit t params ->
  serializes (Run_of t Null params) 0 (Read_of t) Null.
Proof.
  intros Ht Hp. apply serializes_null; intros st.
  - destruct t as [| | | | |id| |u|k w]; try done; cbn [Run_of].
    + unfold Run_struct. apply wp_exact. wp_step. apply wp_dcheck; [by rewrite Hp|].
      apply wp_run. eexists _, _. by split; [apply struct_null|].
    + destruct u; try done. cbn in Hp. subst params. unfold Run_string. apply wp_exact. wp_step. by apply wp_dcheck.
  - destruct t as [| | | | |id| |u|k w]; try done. by destruct u.
Qed.

(** What is proved of a type of values, and of elements. *)
Definition values_serialize (t : data_type) : Prop := forall params v, is_pointer t = true ->
  params_fit t params -> value_ok t params v ->
  sized (need t v) /\ v <> Null /\ serializes (Run_of t v params) (need t v) (Read_of t) v.
Definition elements_serialize_ok (t : data_type) : Prop := forall from_array params e,
  elements_ok t params e ->
  sized (extra (need t) t e) /\
  elements_serialize (Elements_Serialize debug from_array t) (Elements_Deserialize debug key_lt t) t params e
    (extra (need t) t e).

Lemma need_null t : is_pointer t = true -> need t Null = 0.
Proof. destruct t as [| | | | | | |u|]; try done. by destruct u. Qed.

Lemma pointers_serialize t : is_pointer t = true -> values_serialize t -> elements_serialize_ok t.
Proof.
  intros Ht Hvals fa params e (Hfits & _ & Hshape).
  assert (exists l, e = Values l /\ params_fit t (element_validate_params params) /\
    Forall (fun v => (v = Null /\ element_is_nullable params = true) \/ value_ok t (element_validate_params params) v) l)
    as (l & -> & Hp & Hl) by (destruct t, e; try done; by eexists).
  assert (Hok : pointers_ok (Run_of t) (Read_of t) (need t) params l).
  { intros v Hv. rewrite List.Forall_forall in Hl. destruct (Hl v) as [[-> Hnull]|Hvok]; [by apply list_elem_of_In| |].
    - rewrite need_null by done. split_and!; [by apply Run_null|done|by left].
    - destruct (Hvals _ _ Ht Hp Hvok) as (H1 & H2 & H3). split_and!; [done|done|by right]. }
  assert (Hext : extra (need t) t (Values l) = total (need t) l) by (by destruct t).
  rewrite Hext. split.
  { apply sized_total. intros v Hv. by destruct (Hok v Hv) as (_ & H & _). }
  destruct Hfits as (_ & _ & Hlt & _). cbn [elements_size] in Hlt.
  apply (Pointers_elements debug (Run_of t) (Read_of t)); [by destruct t|by destruct t|lia|done| |];
    intros data; destruct t as [| | | | | | |[]|]; done.
Qed.

Lemma leaves_serialize t : is_pointer t = false -> elements_serialize_ok t.
Proof.
  intros Ht fa params e (Hfits & _ & Hshape).
  destruct t as [k| | | | |id|id|u|k w]; try done.
  1-3: destruct e as [c|l|l]; try done; destruct Hshape as [Hc Hok]; cbn [extra]; (split; [done|]); rewrite <- Hc;
       apply (Plain_elements debug fa); [done|by rewrite Hc| |]; intros data; by rewrite Hc.
  - destruct e as [c|l|l]; try done. destruct Hshape as [Hnone Hok]. split; [done|].
    destruct Hfits as (_ & _ & Hlt & _). cbn [elements_size] in Hlt. apply (Interfaces_elements debug); done || lia.
  - destruct e as [c|l|l]; try done. destruct Hshape as [_ Hl].
    change (extra (need (Union id)) (Union id) (Values l)) with (total (union_extra id) l).
    assert (Hok : unions_ok id params l).
    { intros v Hv. rewrite List.Forall_forall in Hl. destruct (Hl v) as [[-> Hnull]|Hvok];
        [by apply list_elem_of_In|by left|by right]. }
    split; [apply sized_total; intros v Hv; eapply sized_union_extra, unions_valid; done|].
    destruct Hfits as (_ & _ & Hlt & _). cbn [elements_size] in Hlt.
    apply (Unions_elements debug id); done || lia.
Qed.

Lemma all_elements_serialize t : values_serialize t -> elements_serialize_ok t.
Proof. intros Ht. destruct (is_pointer t) eqn:Hp; [by apply pointers_serialize|by apply leaves_serialize]. Qed.

Lemma all_values_serialize t : values_serialize t.
Proof.
  induction t as [| | | | |id|id|u IHu|k IHk w IHw]; intros params v Ht Hp Hv; try done.
  - destruct Hv as (x & -> & Hx). split_and!; [by apply struct_size_ok|done|]. intros m b Hroom.
    destruct (struct_law id x Hx m b Hroom) as (p & m' & Hrun & Hrest). exists p, m'. split; [|done].
    apply wp_exact. cbn [Run_of]. unfold Run_struct. wp_step. apply wp_dcheck; [by rewrite Hp|].
    apply wp_run. eexists _, _. by split; [exact Hrun|].
  - apply all_elements_serialize in IHu. destruct (decide (u = Char)) as [->|Hu].
    + destruct Hv as (s & -> & Hfits). split_and!; [apply sized_round8; lia|done|]. by apply String_serializes.
    + assert (exists q e, params = Some q /\ v = ArrayValue e /\ elements_ok u q e) as (q & e & -> & -> & Hok) by (by destruct u).
      destruct (IHu true q e Hok) as [Hex Hser]. pose proof Hok as (Hfits & Hexp & _).
      assert (Hneed : need (ArrayOf u) (ArrayValue e) = round8 (array_bytes_needed u (elements_size e)) + extra (need u) u e)
        by (by destruct u).
      rewrite Hneed. destruct (array_space u e _ Hfits Hex) as (Hr & _ & _). split_and!; [by apply sized_add|done|].
      pose proof (Array_serializes debug _ _ u q e _ Hser Hfits Hexp Hex). by destruct u.
  - apply all_elements_serialize in IHk, IHw. destruct Hv as (_ & _ & q & ks & ws & -> & -> & Hks & Hws & Hcount & Hsort & Hlen).
    destruct (IHk false _ ks Hks) as [Hexk Hserk]. destruct (IHw false _ ws Hws) as [Hexw Hserw].
    pose proof Hks as (Hfk & _). pose proof Hws as (Hfw & _).
    destruct (array_space k ks _ Hfk Hexk) as (Hrk & _ & _). destruct (array_space w ws _ Hfw Hexw) as (Hrw & _ & _).
    split_and!; [repeat apply sized_add; done|done|]. by apply Map_serializes.
Qed.

(** ** The computed size *)

Lemma total_pos f l : (forall v, v ∈ l -> 0 <= f v) -> 0 <= total f l.
Proof.
  induction l as [|v l IH]; intros Hpos; [done|]. cbn [total foldr]. fold (total f l).
  assert (0 <= f v) by (apply Hpos; left). enough (0 <= total f l) by lia. apply IH. intros u Hu. apply Hpos. by right.
Qed.

Lemma fold_sizes item l : forall acc, 0 <= acc -> (forall v, v ∈ l -> 0 <= item v) -> acc + total item l < 2 ^ 64 ->
  fold_left (fun size v => wrap64 (size + item v)) l acc = acc + total item l.
Proof.
  induction l as [|v l IH]; intros acc Hacc Hpos Hlt; cbn [fold_left total foldr] in *; [lia|]. fold (total item l) in *.
  assert (0 <= item v) by (apply Hpos; left).
  assert (0 <= total item l) by (apply total_pos; intros u Hu; apply Hpos; by right).
  rewrite wrap64_small by lia. rewrite IH; [lia|lia| |lia]. intros u Hu. apply Hpos. by right.
Qed.

Lemma total_ext (f g : value -> Z) l : (forall v, v ∈ l -> f v = g v) -> total f l = total g l.
Proof.
  induction l as [|v l IH]; intros Heq; [done|]. cbn [total foldr]. fold (total f l). fold (total g l).
  rewrite (Heq v) by left. rewrite IH; [done|]. intros u Hu. apply Heq. by right.
Qed.

Lemma fold_sizes_ext (f g : value -> Z) l acc : (forall v, v ∈ l -> f v = g v) ->
  fold_left (fun size v => wrap64 (size + f v)) l acc = fold_left (fun size v => wrap64 (size + g v)) l acc.
Proof.
  revert acc. induction l as [|v l IH]; intros acc Heq; [done|]. cbn [fold_left]. rewrite (Heq v) by left.
  apply IH. intros u Hu. apply Heq. by right.
Qed.

Lemma total_minus f c l : total (fun v => f v - c) l = total f l - c * Z.of_nat (length l).
Proof. induction l as [|v l IH]; [simpl; lia|]. cbn [total foldr length]. fold (total f l). fold (total (fun v => f v - c) l). lia. Qed.

Lemma total_le f l v : (forall u, u ∈ l -> 0 <= f u) -> v ∈ l -> f v <= total f l.
Proof.
  induction l as [|u l IH]; intros Hpos Hv; [by apply elem_of_nil in Hv|]. cbn [total foldr]. fold (total f l).
  assert (0 <= f u) by (apply Hpos; left).
  assert (Hl : forall x, x ∈ l -> 0 <= f x) by (intros x Hx; apply Hpos; by right).
  apply elem_of_cons in Hv as [->|Hv]; [|specialize (IH Hl Hv); lia].
  pose proof (total_pos f l Hl). lia.
Qed.

Lemma Align_slots n : 0 <= n -> 8 * n < 2 ^ 32 -> Align (wrap64 (n * 8)) = 8 * n.
Proof. intros Hn Hlt. rewrite wrap64_small by lia. rewrite Align_round8 by lia. unfold round8. lia. Qed.

Lemma need_pos t params v : value_ok t params v -> params_fit t params -> 0 <= need t v.
Proof.
  intros Hv Hp. destruct (is_pointer t) eqn:Ht; [by destruct (all_values_serialize t params v Ht Hp Hv) as [[? _] _]|].
  destruct t as [| | | | |id|id|u|k w]; try done. simpl. destruct Hv as (x & -> & Hx). destruct (union_size_ok id (Some x) Hx). simpl in *. lia.
Qed.

(** The elements of an array of pointers or unions. *)
Lemma items_ok t params l : is_pointer t || is_union t = true -> elements_ok t params (Values l) ->
  params_fit t (element_validate_params params) /\ forall v, v ∈ l ->
    (if is_union t then 16 else 0) <= need t v /\
    ((v = Null /\ element_is_nullable params = true) \/ value_ok t (element_validate_params params) v).
Proof.
  intros Ht (_ & _ & Hshape).
  assert (params_fit t (element_validate_params params) /\ Forall (fun v => (v = Null /\ element_is_nullable params = true) \/
    value_ok t (element_validate_params params) v) l) as [Hp Hl] by (by destruct t).
  split; [done|]. intros v Hv. rewrite List.Forall_forall in Hl. apply list_elem_of_In in Hv. specialize (Hl v Hv).
  split; [|done]. destruct t as [| | | | |id|id|u|k w]; try done; cbn [is_union].
  2: { simpl. apply (union_size_ok id (object_of v)). by destruct Hl as [[-> _]|(x & -> & Hx)]. }
  all: destruct Hl as [[-> _]|Hvok]; [by rewrite need_null|by eapply need_pos].
Qed.

(** What [item] computes for each element it computes for the array, and, without the
    array's header and slots, for a map. *)
Lemma Values_size item t params l :
  is_pointer t || is_union t = true -> elements_ok t params (Values l) ->
  (forall v, v ∈ l -> item v = need t v) -> array_need (need t) t (Values l) < 2 ^ 32 ->
  Array_GetSerializedSize item t (Values l) = array_need (need t) t (Values l) /\
  wrap64 (sizeof_ArrayHeader + GetBaseArraySize t (Values l)) + GetItemSizes item (Values l) =
    array_need (need t) t (Values l).
Proof.
  intros Ht Hok Hitem Hlt. destruct (items_ok t params l Ht Hok) as [_ Hitems]. set (n := Z.of_nat (length l)) in *.
  assert (Hpos : forall v, v ∈ l -> 0 <= need t v) by (intros v Hv; destruct (Hitems v Hv); destruct (is_union t); lia).
  assert (Htot : 0 <= extra (need t) t (Values l)).
  { cbn [extra]. apply total_pos. intros v Hv. destruct (Hitems v Hv). destruct (is_union t); lia. }
  assert (Hslots : array_need (need t) t (Values l) =
    (if is_union t then 8 else 8 + n * 8) + total (need t) l).
  { unfold array_need, extra, elements_size, array_bytes_needed in *. fold n. destruct t; try done; cbn [is_union is_bool sizeof_StorageType] in *.
    2: rewrite total_minus; fold n; unfold round8; lia.
    all: match goal with |- context [total (fun v => need ?t v) _] => change (fun v => need t v) with (need t) end.
    all: unfold round8; lia. }
  assert (Hfold : forall acc, 0 <= acc -> acc + total (need t) l < 2 ^ 64 ->
    fold_left (fun size v => wrap64 (size + item v)) l acc = acc + total (need t) l).
  { intros acc Hacc Hb. rewrite (fold_sizes_ext item (need t)) by done. by apply fold_sizes. }
  assert (0 <= total (need t) l) by (by apply total_pos).
  unfold Array_GetSerializedSize, GetBaseArraySize, GetItemSizes, sizeof_ArrayHeader. fold n. destruct (is_union t).
  - split; [rewrite Hfold by lia; lia|]. rewrite Hfold, wrap64_small by lia. lia.
  - rewrite (wrap64_small (n * 8)) by lia. rewrite (wrap64_small (8 + n * 8)) by lia.
    split; [rewrite Hfold by lia; lia|]. rewrite Hfold by lia. lia.
Qed.

Lemma leaves_size item t params e :
  is_pointer t || is_union t = false -> elements_ok t params e -> array_need (need t) t e < 2 ^ 32 ->
  Array_GetSerializedSize item t e = array_need (need t) t e /\
  (t <> Interface ->
   wrap64 (sizeof_ArrayHeader + GetBaseArraySize t e) + GetItemSizes item e = array_need (need t) t e).
Proof.
  intros Ht (Hfits & _ & Hshape) Hlt. destruct e as [c|l|l]; [| |by destruct t].
  - assert (Hc : contents_type c = t) by (destruct t; try done; by destruct Hshape).
    assert (Hneed : array_need (need t) t (Plain c) = round8 (array_bytes_needed t (contents_size c)))
      by (unfold array_need; simpl; lia).
    cbn [elements_size] in Hfits. rewrite <- Hc in Hfits. pose proof (GetSerializedSize_eq c Hfits) as Heq. rewrite Hc in Heq.
    rewrite Hneed, <- Heq. split; [done|]. intros _. unfold GetItemSizes, GetSerializedSize, GetBaseArraySize. by destruct c; rewrite Z.add_0_r.
  - assert (t = Interface) as -> by (by destruct t). destruct Hfits as (_ & Hn & _ & Hb). cbn in Hn, Hb.
    unfold array_bytes_needed in Hb. cbn in Hb.
    assert (Hneed : array_need (need Interface) Interface (Interfaces l) = 8 + 8 * Z.of_nat (length l)).
    { unfold array_need, array_bytes_needed, extra. cbn [is_bool sizeof_StorageType elements_size]. unfold round8. lia. }
    unfold Array_GetSerializedSize, sizeof_ArrayHeader. split; [|done].
    rewrite Hneed, !Align_slots, !wrap64_small by lia. lia.
Qed.

Lemma elements_size_eq item t params e :
  elements_ok t params e -> (forall v, (exists l, e = Values l /\ v ∈ l) -> item v = need t v) ->
  array_need (need t) t e < 2 ^ 32 ->
  Array_GetSerializedSize item t e = array_need (need t) t e /\
  (t <> Interface ->
   wrap64 (sizeof_ArrayHeader + GetBaseArraySize t e) + GetItemSizes item e = array_need (need t) t e).
Proof.
  intros Hok Hitem Hlt. destruct (is_pointer t || is_union t) eqn:Ht; [|by eapply leaves_size].
  assert (exists l, e = Values l) as [l ->].
  { destruct Hok as (_ & _ & Hshape). destruct t, e; try done; by eexists. }
  destruct (Values_size item t params l Ht Hok) as [H1 H2]; [|done|done]. intros v Hv. apply Hitem. by exists l.
Qed.

Lemma item_below t params l v : is_pointer t || is_union t = true -> elements_ok t params (Values l) ->
  v ∈ l -> need t v <= array_need (need t) t (Values l).
Proof.
  intros Ht Hok Hv. destruct (items_ok t params l Ht Hok) as [_ Hitems]. pose proof Hok as ((Hs & Hn & _) & _).
  pose proof (bytes_needed_pos t _ Hs Hn) as H8. pose proof (round8_bounds (array_bytes_needed t (elements_size (Values l)))) as Hr.
  unfold array_need, extra.
  pose proof (total_le (fun v => if is_union t then need t v - 16 else need t v) l v) as Hle. cbn beta in Hle.
  assert (Hp : forall u, u ∈ l -> 0 <= (if is_union t then need t u - 16 else need t u)).
  { intros u Hu. destruct (Hitems u Hu). destruct (is_union t); lia. }
  specialize (Hle Hp Hv). destruct (is_union t) eqn:Hu; [|lia].
  assert (24 <= array_bytes_needed t (elements_size (Values l))); [|lia].
  destruct t; try done. unfold array_bytes_needed. cbn [is_bool sizeof_StorageType elements_size].
  destruct l; [by apply elem_of_nil in Hv|]. simpl. lia.
Qed.

(** The size of each value implies that of the elements. *)
Lemma elements_size_ind t params e :
  (forall params v, is_pointer t = true -> params_fit t params -> value_ok t params v -> need t v < 2 ^ 32 ->
     GetSerializedSize_ t v = need t v) ->
  elements_ok t params e -> array_need (need t) t e < 2 ^ 32 ->
  Array_GetSerializedSize (GetSerializedSize_ t) t e = array_need (need t) t e /\
  (t <> Interface ->
   wrap64 (sizeof_ArrayHeader + GetBaseArraySize t e) + GetItemSizes (GetSerializedSize_ t) e = array_need (need t) t e).
Proof.
  intros IH Hok Hlt. eapply elements_size_eq; [done| |done]. intros v (l & -> & Hv).
  assert (Ht : is_pointer t || is_union t = true).
  { destruct Hok as (_ & _ & Hshape). by destruct t. }
  pose proof (item_below t params l v Ht Hok Hv) as Hle.
  destruct (items_ok t params l Ht Hok) as [Hp Hitems]. destruct (Hitems v Hv) as [_ [[-> _]|Hvok]].
  - destruct t as [| | | | | | |u|]; try done; by destruct u.
  - destruct (is_pointer t) eqn:Hptr; [by apply (IH _ _ eq_refl Hp Hvok); lia|by destruct t].
Qed.

Lemma GetSerializedSize_need t : forall params v, is_pointer t = true -> params_fit t params -> value_ok t params v ->
  need t v < 2 ^ 32 -> GetSerializedSize_ t v = need t v.
Proof.
  induction t as [| | | | |id|id|u IHu|k IHk w IHw]; intros params v Ht Hp Hv Hlt; try done.
  - destruct (decide (u = Char)) as [->|Hu].
    + destruct Hv as (s & -> & Hfits). simpl in *. unfold String_GetSerializedSize, sizeof_ArrayHeader.
      destruct Hfits as (_ & Hn & Hn7 & _). rewrite wrap64_small by lia. by rewrite Align_round8 by lia.
    + assert (exists q e, params = Some q /\ v = ArrayValue e /\ elements_ok u q e) as (q & e & -> & -> & Hok) by (by destruct u).
      assert (Hneed : need (ArrayOf u) (ArrayValue e) = array_need (need u) u e) by (by destruct u).
      rewrite Hneed in *. destruct (elements_size_ind u q e IHu Hok Hlt) as [Heq _]. rewrite <- Heq. by destruct u.
  - destruct Hv as (Hki & Hwi & q & ks & ws & -> & -> & Hks & Hws & _). cbn [need] in *.
    destruct (all_elements_serialize k (all_values_serialize k) false _ ks Hks) as [Hexk _].
    destruct (all_elements_serialize w (all_values_serialize w) false _ ws Hws) as [Hexw _].
    destruct (array_space k ks _ (proj1 Hks) Hexk) as (_ & Hk8 & Hk0).
    destruct (array_space w ws _ (proj1 Hws) Hexw) as (_ & Hw8 & Hw0).
    assert (8 <= array_need (need k) k ks /\ 8 <= array_need (need w) w ws) as [Hk Hw] by (unfold array_need; lia).
    destruct (elements_size_ind k _ ks IHk Hks) as [_ Hsk]; [lia|]. specialize (Hsk Hki).
    destruct (elements_size_ind w _ ws IHw Hws) as [_ Hsw]; [lia|]. specialize (Hsw Hwi).
    cbn [GetSerializedSize_]. unfold Map_GetSerializedSize, sizeof_Map_Data.
    rewrite <- Hsk, <- Hsw in *. rewrite wrap64_small by lia. lia.
Qed.

(** C15: an array with elements of any type - structs, unions, strings, arrays, maps,
    interfaces, handles, plain data, nested to any depth, with nulls where they are
    allowed - serializes to exactly the size that was computed for it, at the next free
    addresses, leaving all other memory; and any memory with these bytes deserializes
    to the same array. *)
Theorem nested_SerializeArray_roundtrip t params v m b
    (Ht : t <> Char) (Hv : value_ok (ArrayOf t) (Some params) v) (Hsize : need (ArrayOf t) v < 2 ^ 32)
    (Hroom : room m b (GetSerializedSize_ (ArrayOf t) v)) :
  let size := GetSerializedSize_ (ArrayOf t) v in
  exists p m', SerializeArray debug t v params (m, b) = Ok ((NONE, Some p), (m', bumped b size)) /\
    agree (fun a => a < top b \/ top b + size <= a) m m' /\
    forall m2 b2, agree (range (top b) (top b + size)) m' m2 ->
      exists m3, DeserializeArray debug key_lt t p (m2, b2) = Ok (v, (m3, b2)).
Proof.
  assert (Hp : params_fit (ArrayOf t) (Some params)) by (destruct t; done || by eexists).
  intros size. unfold size in *. rewrite (GetSerializedSize_need (ArrayOf t) _ _ eq_refl Hp Hv Hsize) in *.
  destruct (all_values_serialize (ArrayOf t) (Some params) v eq_refl Hp Hv) as (_ & _ & Hser).
  destruct (Hser m b Hroom) as (p & m' & Hrun & _ & _ & Hag & Hread). exists p, m'. split_and!.
  - rewrite <- Hrun. by destruct t.
  - done.
  - intros m2 b2 H2. destruct (Hread m2 b2 H2) as (m3 & Hrd & _). exists m3. rewrite <- Hrd. by destruct t.
Qed.

(** C16: a map serializes to exactly the size that was computed for it, its keys before
    its values: the map's 24 bytes are followed by the array of its keys with all that
    they lead to, of the size computed for the keys, from which alone the keys can be
    read, and this by that of its values; and any memory with these bytes deserializes to
    the same map. *)
Theorem SerializeMap_roundtrip k w params ks ws m b
    (Hv : value_ok (MapOf k w) (Some params) (MapValue ks ws)) (Hsize : need (MapOf k w) (MapValue ks ws) < 2 ^ 32)
    (Hroom : room m b (GetSerializedSize_ (MapOf k w) (MapValue ks ws))) :
  let size := GetSerializedSize_ (MapOf k w) (MapValue ks ws) in
  let keys_at := top b + sizeof_Map_Data in
  let values_at := keys_at + wrap64 (sizeof_ArrayHeader + GetBaseArraySize k ks) +
                   GetItemSizes (GetSerializedSize_ k) ks in
  exists m', SerializeMap_ debug k w (MapValue ks ws) params (m, b) =
      Ok ((NONE, Some (top b)), (m', bumped b size)) /\
    agree (fun a => a < top b \/ top b + size <= a) m m' /\
    load64 m' (top b + 8) = Ok keys_at /\ load64 m' (top b + 16) = Ok values_at /\
    reads (Elements_Deserialize debug key_lt k keys_at) ks m' keys_at values_at /\
    reads (Elements_Deserialize debug key_lt w values_at) ws m' values_at (top b + size) /\
    reads (DeserializeMap debug key_lt k w (top b)) (MapValue ks ws) m' (top b) (top b + size).
Proof.
  assert (Hp : params_fit (MapOf k w) (Some params)) by (by eexists).
  intros size keys_at values_at. unfold size in *.
  pose proof Hv as (Hki & _ & q & ks' & ws' & [= <-] & [= <- <-] & Hks & Hws & Hcount & Hsort & Hlen).
  destruct (all_elements_serialize k (all_values_serialize k) false _ ks Hks) as [Hexk Hserk].
  destruct (all_elements_serialize w (all_values_serialize w) false _ ws Hws) as [Hexw Hserw].
  rewrite (GetSerializedSize_need (MapOf k w) _ _ eq_refl Hp Hv Hsize) in *.
  destruct (array_space w ws _ (proj1 Hws) Hexw) as (_ & Hw8 & Hw0).
  assert (Hvals : values_at = top b + (24 + array_need (need k) k ks)).
  { destruct (elements_size_ind k _ ks (GetSerializedSize_need k) Hks) as [_ Hsk].
    { cbn [need] in Hsize. unfold array_need in *. lia. }
    unfold values_at, keys_at, sizeof_Map_Data. rewrite <- (Hsk Hki). lia. }
  destruct (Map_serializes_at debug key_lt _ _ _ _ k w params ks ws _ _ Hserk Hserw (proj1 Hks) (proj1 Hws) Hexk Hexw
    Hcount Hsort Hlen m b Hroom) as (m' & Hrun & _ & Hag & Hl8 & Hl16 & Hrk & Hrw & Hr).
  exists m'. rewrite Hvals. by split_and!.
Qed.

(** ** Errors *)

Lemma SerializePointers_app Run t params output pre rest : forall i st st',
  SerializePointers debug Run t params output i pre st = Ok (NONE, st') ->
  SerializePointers debug Run t params output i (pre ++ rest) st =
    SerializePointers debug Run t params output (i + Z.of_nat (length pre)) rest st'.
Proof.
  induction pre as [|v pre IH]; intros i st st' Hrun.
  { injection Hrun as <-. simpl. by rewrite Z.add_0_r. }
  cbn [SerializePointers app length] in *. unfold mbind, M_bind in *.
  destruct (Run v _ st) as [[[e p] s1]| | |]; [|done..]. case_bool_decide as He.
  { injection Hrun as -> _. by destruct He. }
  destruct p as [p|]; [|done]. destruct (at_ _ _ _ _ s1) as [[a s2]| | |]; [|done..].
  destruct (mstore 8 a p s2) as [[[] s3]| | |]; [|done..]. destruct (_ && _); [done|].
  rewrite (IH _ _ _ Hrun). f_equal. lia.
Qed.

(** A null among the elements of an array that may not hold nulls is refused:
    serialization returns the error, and gives out no array. *)
Theorem null_element_refused t params pre post m b
    (Ht : is_pointer t = true) (Hnull : element_is_nullable params = false)
    (Hcount : fits_u32 t (Z.of_nat (length (pre ++ Null :: post))))
    (Hexp : expected_num_elements params = 0 \/
      expected_num_elements params = Z.of_nat (length (pre ++ Null :: post)))
    (Hparams : params_fit t (element_validate_params params))
    (Hpre : Forall (value_ok t (element_validate_params params)) pre)
    (Hroom : room m b (round8 (array_bytes_needed t (Z.of_nat (length (pre ++ Null :: post)))) + total (need t) pre)) :
  exists st', SerializeArray debug t (ArrayValue (Values (pre ++ Null :: post))) params (m, b) =
    Ok ((UNEXPECTED_NULL_POINTER, None), st').
Proof.
  set (l := pre ++ Null :: post) in *. set (n := Z.of_nat (length l)) in *.
  assert (Hlen : n = Z.of_nat (length pre) + Z.of_nat (S (length post))) by (unfold n, l; rewrite length_app; simpl; lia).
  assert (Hslot : sizeof_StorageType t = 8) by (by destruct t).
  assert (Hneed : array_bytes_needed t n = 8 + 8 * n) by (unfold array_bytes_needed; rewrite Hslot; by destruct t).
  assert (Hok : pointers_ok (Run_of t) (Read_of t) (need t) params pre).
  { intros v Hv. rewrite List.Forall_forall in Hpre. apply list_elem_of_In in Hv.
    destruct (all_values_serialize t _ v Ht Hparams (Hpre v Hv)) as (H1 & H2 & H3). split_and!; [done|done|by right]. }
  destruct (sized_total (need t) pre) as [Htot0 Htot8]; [intros v Hv; by apply Hok|].
  pose proof (round8_bounds (array_bytes_needed t n)) as Hr. destruct (top_below _ _ _ Hroom) as [Htop _]; [lia|].
  destruct (Array_New_eq debug t n m b Hcount) as (m1 & Hnew & Hl & Hc & Hmap & Hag); [eapply room_take; [exact Hroom|done]|].
  rewrite Hneed in *. destruct Hcount as (_ & _ & Hn7 & _).
  destruct (Pointers_serialize debug (Run_of t) (Read_of t) (need t) t params Hslot pre 0 n (top b) m1
    (bumped b (round8 (8 + 8 * n)))) as (m2 & Hrun & Hag2 & _); try done; try lia.
  { eapply mapped_weaken; [exact Hmap|unfold storage, sizeof_ArrayHeader; lia..]. }
  { rewrite top_bumped. unfold storage, sizeof_ArrayHeader. lia. }
  { eapply room_next; [exact Hroom|apply sized_round8; lia|frame Hag]. }
  rewrite top_bumped in *.
  assert (Hnullrun : exists st', SerializePointers debug (Run_of t) t params (top b) (0 + Z.of_nat (length pre))
    (Null :: post) (m2, bumped (bumped b (round8 (8 + 8 * n))) (total (need t) pre)) = Ok (UNEXPECTED_NULL_POINTER, st')).
  { set (b2 := bumped _ _). destruct (Run_null t _ Ht Hparams m2 b2) as (p & m3 & Hrn & _ & Hpn & Hag3 & _).
    { pose proof (proj2 (sized_round8 (8 + 8 * n) ltac:(lia))) as Hr0.
      destruct Hroom as [H1 H2 H3 _]. split; unfold b2; simpl; [done|lia|done|intros a Ha; lia]. }
    assert (Hp0 : p = NULL) by (by apply Hpn). subst p. rewrite bumped_0 in Hrn.
    assert (Hag3' : agree (fun _ => True) m2 m3).
    { eapply agree_weaken; [exact Hag3|]. cbn beta. lia. }
    assert (Hc3 : load32 m3 (top b + 4) = Ok n).
    { eapply load_frame; [exact Hag3'|done|]. load_by_frame Hag2. }
    eexists. cbn [SerializePointers]. apply wp_exact. wp_step. apply wp_run. eexists _, _. split; [exact Hrn|].
    cbv beta iota. rewrite bool_decide_false by (by intros []). wp_step. eapply wp_at; [exact Hc3|lia|]. rewrite Hslot.
    wp_step. eapply wp_mstore.
    { apply (store_Ok m3 _ 8 NULL). eapply mapped_agree; [eapply agree_weaken; [exact Hag3'|done]|].
      eapply mapped_agree; [frame Hag2|]. unfold storage, sizeof_ArrayHeader. eapply mapped_weaken; [exact Hmap|lia..]. }
    rewrite Hnull. change (negb false && (NULL =? NULL)) with true. cbv beta iota. wp_step. done. }
  destruct Hnullrun as [st' Hnullrun]. exists st'.
  assert (Hse : Elements_Serialize debug true t (Values l) (top b) params =
    SerializePointers debug (Run_of t) t params (top b) 0 l) by (by destruct t as [| | | | | | |[]|]).
  unfold SerializeArray, Array_Serialize, mbind, M_bind. cbn [elements_size]. fold n. rewrite (expected_ok _ _ Hexp).
  rewrite Hnew, Hse. unfold l. rewrite (SerializePointers_app _ _ _ _ _ _ _ _ _ Hrun), Hnullrun. done.
Qed.
End Values.
