(* ===== verification/ContainersExamples.v ===== *)
(** Generated code of two small types, and arrays and maps that hold them. *)
From stdpp Require Import base numbers list option gmap.
From coqutil Require Import Byte Word.LittleEndianList.
From Stdlib Require Import ZArith Lia Sorting.Sorted.
From S2P Require Import Prelude CMem Buffer Descriptor Validate Samples Serialization SerializationFacts.
From S2P Require Import Arrays ArraysFacts ArraysSpec Containers ContainersFacts ContainersSpec.

(** * Structs and unions with one field of 64 bits

    As struct_serialization_definition.tmpl and union_serialization_definition.tmpl
    (src/tools/bindings/generators/cpp_templates) make them. *)
Definition Box_Serialize (x : option nat) : serM (ValidationError * option Z) :=
  match x with
  | Some x =>
      p ← on_snd (FixedBuffer_Allocate false 16);
      mstore 4 p 16;;
      mstore 4 (p + 4) 0;;
      mstore 8 (p + 8) (Z.of_nat x);;
      mret (NONE, Some p)
  | None => mret (NONE, Some NULL)
  end.
Definition Box_Deserialize (p : Z) : serM nat := v ← mload 8 (p + 8); mret (Z.to_nat v).

Definition Choice_Serialize (x : option nat) (result : Z) : serM ValidationError :=
  match x with
  | Some x => mstore 4 result 16;; mstore 4 (result + 4) 1;; mstore 8 (result + 8) (Z.of_nat x);; mret NONE
  | None => mstore 4 result 0;; mret NONE
  end.

#[export] Instance boxes : Generated := {
  struct_size _ _ := 16;
  struct_Serialize _ := Box_Serialize;
  struct_Deserialize _ := Box_Deserialize;
  union_size _ _ := 16;
  union_Serialize _ := Choice_Serialize;
  union_Deserialize _ := Box_Deserialize;
}.

Definition fits_64 (x : nat) : Prop := Z.of_nat x < 2 ^ 64.

(** Three fields in 16 bytes. *)
Lemma store_fields {X} (a : Z) x y z m (s : X) : mapped m a (a + 16) -> 0 <= x < 2 ^ 32 -> 0 <= z < 2 ^ 64 ->
  exists m', (mstore 4 a x;; mstore 4 (a + 4) y;; mstore 8 (a + 8) z) (m, s) = Ok (tt, (m', s)) /\
    load32 m' a = Ok x /\ load64 m' (a + 8) = Ok z /\ agree (fun b => b < a \/ a + 16 <= b) m m'.
Proof.
  intros Hmap Hx Hz.
  assert (Hs1 : store32 m a x = Ok (store_bytes m a (le_split 4 x))).
  { apply store_Ok. eapply mapped_weaken; [exact Hmap|lia..]. }
  set (m1 := store_bytes m _ _) in Hs1.
  assert (Hs2 : store32 m1 (a + 4) y = Ok (store_bytes m1 (a + 4) (le_split 4 y))).
  { apply store_Ok. eapply store_mapped; [exact Hs1|]. eapply mapped_weaken; [exact Hmap|lia..]. }
  set (m2 := store_bytes m1 _ _) in Hs2.
  assert (Hs3 : store64 m2 (a + 8) z = Ok (store_bytes m2 (a + 8) (le_split 8 z))).
  { apply store_Ok. eapply store_mapped; [exact Hs2|]. eapply store_mapped; [exact Hs1|]. eapply mapped_weaken; [exact Hmap|lia..]. }
  eexists. split_and!.
  - apply wp_exact. wp_step. eapply wp_mstore; [exact Hs1|]. wp_step. eapply wp_mstore; [exact Hs2|].
    eapply wp_mstore; [exact Hs3|]. done.
  - rewrite (load_other _ _ _ _ _ _ _ Hs3) by lia. rewrite (load_other _ _ _ _ _ _ _ Hs2) by lia.
    rewrite (load_store _ _ _ _ _ Hs1). f_equal. by apply Z.mod_small.
  - rewrite (load_store _ _ _ _ _ Hs3). f_equal. by apply Z.mod_small.
  - etransitivity; [|etransitivity]; (eapply store_agree; [eassumption|]); lia.
Qed.

Lemma Box_Deserialize_eq a x m (b : FixedBuffer) : load64 m (a + 8) = Ok (Z.of_nat x) ->
  Box_Deserialize a (m, b) = Ok (x, (m, b)).
Proof. intros Hl. unfold Box_Deserialize, mbind, M_bind, mload. cbn [fst]. rewrite Hl. unfold mret, M_ret. by rewrite Nat2Z.id. Qed.

#[export] Program Instance box_laws : StructLaws := { struct_valid _ := fits_64 }.
Next Obligation. done. Qed.
Next Obligation. done. Qed.
Next Obligation.
  intros id x Hx m b Hroom. cbn in *. destruct (top_below _ _ _ Hroom) as [Htop Hend]; [lia|].
  pose proof (room_mapped _ _ _ Hroom) as Hmap. fold (top b) in Hmap.
  destruct (store_fields (top b) 16 0 (Z.of_nat x) m (bumped b 16) Hmap) as (m' & Hrun & _ & Hv & Hag);
    [lia|unfold fits_64 in Hx; lia|].
  exists (top b), m'. split_and!; [|lia|lia|unfold NULL; split; [lia|done]|done|].
  - apply wp_exact. unfold Box_Serialize. wp_step. apply wp_on_snd. apply wp_run. eexists _, _.
    split; [by apply (FixedBuffer_Allocate_eq false m b 16)|]. cbn [fst snd]. fold (top b).
    apply wp_run. eexists _, _. split; [|done].
    revert Hrun. unfold mbind, M_bind. destruct (mstore 4 (top b) 16 _) as [[[] s1]| | |]; try done.
    destruct (mstore 4 (top b + 4) 0 s1) as [[[] s2]| | |]; try done. intros ->. done.
  - intros m2 b2 H2. exists m2. split; [|done]. unfold Deserialize_struct.
    destruct (Z.eqb_spec (top b) NULL); [unfold NULL in *; lia|]. unfold mbind, M_bind. cbn.
    rewrite (Box_Deserialize_eq _ x); [done|]. eapply load_frame; [exact H2|unfold range; lia|done].
Qed.

#[export] Program Instance choice_laws : UnionLaws := { union_valid _ := fits_64 }.
Next Obligation. done. Qed.
Next Obligation.
  intros id x result m b Hx Hmap H0 Htop Hroom. cbn in *. rewrite bumped_0. destruct x as [x|].
  - destruct (store_fields result 16 1 (Z.of_nat x) m b Hmap) as (m' & Hrun & Hsize & Hv & Hag);
      [lia|unfold fits_64 in Hx; simpl in Hx; lia|].
    exists m', 16. split_and!; [| |done|done|].
    + revert Hrun. cbn [Choice_Serialize]. unfold mbind, M_bind. destruct (mstore 4 result 16 _) as [[[] s1]| | |]; try done.
      destruct (mstore 4 (result + 4) 1 s1) as [[[] s2]| | |]; try done. by intros ->.
    + eapply agree_weaken; [exact Hag|]. cbn beta. lia.
    + intros y m2 b2 [= <-] H2 _. exists m2. split; [|done]. apply Box_Deserialize_eq.
      eapply load_frame; [exact H2|unfold range; lia|done].
  - assert (Hs : store32 m result 0 = Ok (store_bytes m result (le_split 4 0))).
    { apply store_Ok. eapply mapped_weaken; [exact Hmap|lia..]. }
    eexists _, 0. split_and!; [| | |done|done].
    + apply wp_exact. cbn [Choice_Serialize]. wp_step. eapply wp_mstore; [exact Hs|]. by wp_step.
    + eapply store_agree; [exact Hs|lia].
    + by rewrite (load_store _ _ _ _ _ Hs).
Qed.

(** * The theorems at work *)

(** Numbers and bools by value, strings by their bytes. *)
Fixpoint bytes_lt (s t : list byte) : bool :=
  match s, t with
  | _, [] => false
  | [], _ :: _ => true
  | x :: s, y :: t =>
      if byte.unsigned x =? byte.unsigned y then bytes_lt s t else byte.unsigned x <? byte.unsigned y
  end.
Definition less (t : data_type) (x y : key) : bool :=
  match x, y with
  | KeyNumber x, KeyNumber y => x <? y
  | KeyBool x, KeyBool y => negb x && y
  | KeyString x, KeyString y => bytes_lt x y
  | _, _ => false
  end.

(** A map from strings to arrays of nullable structs. *)
Definition names : elements :=
  Values [StringValue [Byte.x61]; StringValue [Byte.x61; Byte.x62]; StringValue [Byte.x62]].
Definition box_lists : elements :=
  Values [ArrayValue (Values [ObjectValue 7; Null]); ArrayValue (Values []); ArrayValue (Values [ObjectValue 9])].
Definition boxes_by_name : value :=
  MapValue names box_lists.
(** An array with such a map, and a null one. *)
Definition maps_of_boxes : value := ArrayValue (Values [Null; boxes_by_name]).

Definition names_params : ArrayValidateParams := Params 0 false (Some (Params 0 true None)).
Definition maps_params : ArrayValidateParams := Params 2 true (Some names_params).
Definition names_type : data_type := MapOf (ArrayOf Char) (ArrayOf (Struct 0)).

Definition big_blank : mem := mem_of 4096 (replicate 128 0).
Definition big_buffer : FixedBuffer := {| ptr_ := 4096; cursor_ := 8; size_ := 512 |}.

Lemma big_room n : 0 <= n <= 504 -> room big_blank big_buffer n.
Proof.
  intros Hn. split; simpl; [lia|lia|lia|]. eapply mapped_weaken; [apply (mem_of_mapped 4096 (replicate 128 0))|simpl; lia..].
Qed.

(** Every element of a concrete list. *)
Ltac each := repeat (apply Forall_cons_2 || apply Forall_nil_2).

Lemma boxes_by_name_ok : value_ok less names_type (Some names_params) boxes_by_name.
Proof.
  assert (Hbox : forall x, fits_64 x -> value_ok less (Struct 0) None (ObjectValue x)) by (intros x Hx; by exists x).
  unfold names_type, boxes_by_name, names, box_lists. split; [done|]. split; [done|]. eexists _, _, _. split_and!; [done|done| | |done| |done].
  - split_and!; [done|by left|done|]. each; right; eexists; (split; [done|]); by repeat split.
  - split_and!; [by repeat split|by left|by eexists|]. each; right; eexists _, _; (split_and!; [done|done|]).
    + split_and!; [by repeat split|by left|done|]. each; [right; apply Hbox; by vm_compute|by left].
    + split_and!; [by repeat split|by left|done|]. each.
    + split_and!; [by repeat split|by left|done|]. each. right. apply Hbox. by vm_compute.
  - repeat constructor.
Qed.

Lemma nested_SerializeArray_roundtrip_witness : exists p m',
  SerializeArray true names_type maps_of_boxes maps_params (big_blank, big_buffer) =
    Ok ((NONE, Some p), (m', bumped big_buffer 240)) /\
  exists m3, DeserializeArray true less names_type p (m', big_buffer) = Ok (maps_of_boxes, (m3, big_buffer)).
Proof.
  assert (Hok : value_ok less (ArrayOf names_type) (Some maps_params) maps_of_boxes).
  { unfold names_type. eexists _, _. split_and!; [done|done|]. split_and!; [by repeat split|by right|by eexists|].
    each; [by left|right; exact boxes_by_name_ok]. }
  destruct (nested_SerializeArray_roundtrip true less names_type maps_params maps_of_boxes big_blank big_buffer)
    as (p & m' & H1 & _ & H2); [done|exact Hok|by vm_compute|by apply big_room|].
  exact (ex_intro _ p (ex_intro _ m' (conj H1 (H2 m' big_buffer (fun a _ => eq_refl))))).
Defined.

(** The map is at 4104; its keys at 4128, with three strings of 16 bytes; its values at 4208. *)
Lemma SerializeMap_roundtrip_witness : exists m',
  SerializeMap_ true (ArrayOf Char) (ArrayOf (Struct 0)) boxes_by_name names_params (big_blank, big_buffer) =
    Ok ((NONE, Some 4104), (m', bumped big_buffer 216)) /\
  load64 m' 4112 = Ok 4128 /\ load64 m' 4120 = Ok 4208 /\
  exists m3, DeserializeMap true less (ArrayOf Char) (ArrayOf (Struct 0)) 4104 (m', big_buffer) =
    Ok (boxes_by_name, (m3, big_buffer)).
Proof.
  destruct (SerializeMap_roundtrip true less (ArrayOf Char) (ArrayOf (Struct 0)) names_params names box_lists big_blank big_buffer)
    as (m' & H1 & _ & H2 & H3 & _ & _ & H4); [exact boxes_by_name_ok|by vm_compute|by apply big_room|].
  destruct (H4 m' big_buffer (fun a _ => eq_refl)) as (m3 & H5 & _).
  exact (ex_intro _ m' (conj H1 (conj H2 (conj H3 (ex_intro _ m3 H5))))).
Defined.

(** An array that may not hold nulls, with one. *)
Lemma null_element_refused_witness : exists st',
  SerializeArray true (Struct 0) (ArrayValue (Values [ObjectValue 1; Null; ObjectValue 2])) (Params 3 false None)
    (big_blank, big_buffer) = Ok ((UNEXPECTED_NULL_POINTER, None), st').
Proof.
  apply (null_element_refused true less (Struct 0) (Params 3 false None) [ObjectValue 1] [ObjectValue 2]);
    [done|done|by repeat split|by right|done| |by apply big_room].
  each. exists 1%nat. split; [done|by vm_compute].
Defined.

(** * Too many elements

    [Array_Data::New] returns null for more elements than fit; [SerializeArray_] writes
    to the array without looking. *)
Lemma oversized_array_faults debug size vs params m b
    (Hlen : kMaxNumElements (Primitive (Z.of_nat size)) < Z.of_nat (length vs)) (Hsize : (0 < size)%nat)
    (Hexp : expected_num_elements params = 0) (Hpage : m !! 8 = None) :
  element_is_nullable params = false -> element_validate_params params = None ->
  SerializeArray_ debug (Some (Pods size vs)) params (m, b) = Fault.
Proof.
  intros Hn Hp. unfold SerializeArray_. rewrite Hexp. cbn [negb andb Z.eqb]. unfold mbind at 1, M_bind, Array_New.
  unfold contents_size, contents_type. rewrite Z.gtb_ltb. rewrite (proj2 (Z.ltb_lt _ _) Hlen). cbn [mret M_ret].
  unfold SerializeElements, MOJO_DCHECK. rewrite Hn, Hp. unfold memcpy_pods.
  destruct vs as [|v vs].
  { unfold kMaxNumElements, kMaxUint32, sizeof_ArrayHeader in Hlen. cbn [is_bool sizeof_StorageType length] in Hlen.
    assert (0 <= (0xFFFFFFFF - 8) / Z.of_nat size) by (apply Z.div_pos; lia). lia. }
  rewrite bool_decide_false by done.
  assert (Hload : load_bytes m (storage NULL) (length (mjoin (le_split size <$> v :: vs))) = None).
  { destruct size as [|size]; [lia|]. change (storage NULL) with 8. simpl. by rewrite Hpage. }
  unfold mbind, M_bind, get. destruct debug; cbn; cbn in Hload; by rewrite Hload.
Qed.
