(* ===== verification/RunLoop.v ===== *)
(** The run loop: src/cpp/utility/run_loop.h, src/cpp/utility/lib/run_loop.cc and
    src/cpp/utility/run_loop_handler.h, on top of the wait set functions of
    src/cpp/system/wait_set.h. *)
From stdpp Require Import base numbers list option gmap.
From Stdlib Require Import ZArith Lia.
From S2P Require Import Prelude Result Validate.

(** * Clients

    What client code does to the loop, whether from outside, in a task or in a
    handler: a sequence of calls, each of which may depend on the ids returned by
    the ones before. A task posted is itself such code. The client has a state of
    its own, of type [U]: [CallState] reads and changes it. In [Crash] the client
    does something undefined, such as to use an object that it has deleted. *)

Abbreviation Id := Z.
(** A [RunLoopHandler*]. *)
Abbreviation handler_ptr := nat.

Section Loop.
Context {U : Type}.

Inductive client :=
  | Return
  | CallAddHandler (handler : handler_ptr) (handle signals deadline : Z) (k : Id -> client)
  | CallRemoveHandler (id : Id) (k : client)
  | CallPostDelayedTask (task : client) (delay : Z) (k : client)
  | CallRun (quit_when_idle : bool) (k : client)
  | CallQuit (k : client)
  | CallNumHandlers (k : Z -> client)
  | CallState (f : U -> U) (k : U -> client)
  | Crash.

(** * State *)

Record HandlerInfo := {
  hi_handler : handler_ptr;
  hi_handle_signals : Z;
  hi_absolute_deadline : Z;
}.

Record HandlerDeadlineInfo := {
  hd_id : Id;
  hd_absolute_deadline : Z;
}.

Record DelayedTaskInfo := {
  dt_id : Id;
  dt_task : client;
  dt_absolute_run_time : Z;
}.

(** The two [operator<]. *)
Definition HandlerDeadlineInfo_lt (x other : HandlerDeadlineInfo) : bool :=
  if hd_absolute_deadline x =? hd_absolute_deadline other then hd_id x <? hd_id other
  else hd_absolute_deadline x >? hd_absolute_deadline other.
Definition DelayedTaskInfo_lt (x other : DelayedTaskInfo) : bool :=
  if dt_absolute_run_time x =? dt_absolute_run_time other then dt_id x >? dt_id other
  else dt_absolute_run_time x >? dt_absolute_run_time other.

(** [std::priority_queue], as the list of its elements from the top, a greatest
    one, down. *)
Fixpoint pq_push {A} (lt : A -> A -> bool) (x : A) (q : list A) : list A :=
  match q with
  | [] => [x]
  | y :: q' => if lt x y then y :: pq_push lt x q' else x :: q
  end.

Record RunState := {
  should_quit : bool;
  results_size : Z;
}.

Definition kInitialWaitSetNumResults : Z := 16.
Definition kMaximumWaitSetNumResults : Z := 256.
Definition kInvalidTimeTicks : Z := 0.

(** [current_run_state_] is a stack: the run state of each active [RunInternal],
    the innermost first. *)
Record RunLoop := {
  next_id_ : Id;
  handlers_ : gmap Id HandlerInfo;
  handler_deadlines_ : list HandlerDeadlineInfo;
  delayed_tasks_ : list DelayedTaskInfo;
  current_run_state_ : list RunState;
}.

(** What the kernel answers, in the order it is asked: the time, whether an entry
    could be added to the wait set, how a wait ended. *)
Inductive answer :=
  | TimeTicks (now : Z)
  | WaitSetAdded (result : MojoResult)
  | WaitSetReady (results : list (Id * MojoResult)) (max_results : Z)
  | WaitSetFailed (result : MojoResult).

(** What happens, for the record. *)
Inductive event :=
  | Added (id : Id) (handler : handler_ptr)
  | Removed (id : Id)
  | Posted (id : Id) (run_time : Z)
  | Ran (id : Id) (now : Z)
  | Notified (id : Id) (handler : handler_ptr) (result : MojoResult).

(** The loop; the thread's "current run loop"; the wait set, a kernel object: the
    entries by cookie; the answers to come; the client's state; the events so far,
    the last one first. *)
Record world := {
  loop : RunLoop;
  current : bool;
  wait_set : gmap Id (Z * Z);
  kernel : list answer;
  user : U;
  trace : list event;
}.

Definition set_loop (l : RunLoop) (w : world) : world :=
  {| loop := l; current := current w; wait_set := wait_set w; kernel := kernel w; user := user w; trace := trace w |}.
Definition set_next_id (x : Id) (w : world) : world :=
  set_loop {| next_id_ := x; handlers_ := handlers_ (loop w);
    handler_deadlines_ := handler_deadlines_ (loop w); delayed_tasks_ := delayed_tasks_ (loop w);
    current_run_state_ := current_run_state_ (loop w) |} w.
Definition set_handlers (x : gmap Id HandlerInfo) (w : world) : world :=
  set_loop {| next_id_ := next_id_ (loop w); handlers_ := x;
    handler_deadlines_ := handler_deadlines_ (loop w); delayed_tasks_ := delayed_tasks_ (loop w);
    current_run_state_ := current_run_state_ (loop w) |} w.
Definition set_handler_deadlines (x : list HandlerDeadlineInfo) (w : world) : world :=
  set_loop {| next_id_ := next_id_ (loop w); handlers_ := handlers_ (loop w);
    handler_deadlines_ := x; delayed_tasks_ := delayed_tasks_ (loop w);
    current_run_state_ := current_run_state_ (loop w) |} w.
Definition set_delayed_tasks (x : list DelayedTaskInfo) (w : world) : world :=
  set_loop {| next_id_ := next_id_ (loop w); handlers_ := handlers_ (loop w);
    handler_deadlines_ := handler_deadlines_ (loop w); delayed_tasks_ := x;
    current_run_state_ := current_run_state_ (loop w) |} w.
Definition set_run_states (x : list RunState) (w : world) : world :=
  set_loop {| next_id_ := next_id_ (loop w); handlers_ := handlers_ (loop w);
    handler_deadlines_ := handler_deadlines_ (loop w); delayed_tasks_ := delayed_tasks_ (loop w);
    current_run_state_ := x |} w.
Definition set_current (b : bool) (w : world) : world :=
  {| loop := loop w; current := b; wait_set := wait_set w; kernel := kernel w; user := user w; trace := trace w |}.
Definition set_wait_set (x : gmap Id (Z * Z)) (w : world) : world :=
  {| loop := loop w; current := current w; wait_set := x; kernel := kernel w; user := user w; trace := trace w |}.
Definition set_kernel (k : list answer) (w : world) : world :=
  {| loop := loop w; current := current w; wait_set := wait_set w; kernel := k; user := user w; trace := trace w |}.
Definition set_user (u : U) (w : world) : world :=
  {| loop := loop w; current := current w; wait_set := wait_set w; kernel := kernel w; user := u;
     trace := trace w |}.
Definition note (e : event) : M world unit := modify (fun w =>
  {| loop := loop w; current := current w; wait_set := wait_set w; kernel := kernel w; user := user w;
     trace := e :: trace w |}).

(** * The kernel

    A run for which the answers run out, or do not fit the question, stops. *)

Definition GetTimeTicksNow : M world Z :=
  w ← get;
  match kernel w with
  | TimeTicks now :: k => put (set_kernel k w);; mret now
  | _ => lift OutOfFuel
  end.

(** A cookie in use is refused; another reason to refuse is the kernel's. *)
Definition WaitSetAdd (handle signals : Z) (cookie : Id) : M world MojoResult :=
  w ← get;
  match kernel w with
  | WaitSetAdded r :: k =>
      put (set_kernel k w);;
      match wait_set w !! cookie with
      | Some _ => mret MOJO_SYSTEM_RESULT_ALREADY_EXISTS
      | None =>
          if r =? MOJO_RESULT_OK then
            modify (set_wait_set (<[cookie := (handle, signals)]> (wait_set w)));; mret r
          else mret r
      end
  | _ => lift OutOfFuel
  end.

Definition WaitSetRemove (cookie : Id) : M world MojoResult :=
  w ← get;
  match wait_set w !! cookie with
  | Some _ => put (set_wait_set (delete cookie (wait_set w)) w);; mret MOJO_RESULT_OK
  | None => mret MOJO_SYSTEM_RESULT_NOT_FOUND
  end.

(** On success, at least one entry of the wait set; no timeout of an indefinite
    wait. How many entries fit is up to the capacity of the vector. *)
Definition WaitSetWait (deadline : Z) :
    M world (MojoResult * list (Id * MojoResult) * Z) :=
  w ← get;
  match kernel w with
  | WaitSetReady results max_results :: k =>
      if negb (bool_decide (results = [])) &&
         forallb (fun r => bool_decide (is_Some (wait_set w !! r.1))) results
      then put (set_kernel k w);; mret (MOJO_RESULT_OK, results, max_results)
      else lift OutOfFuel
  | WaitSetFailed r :: k =>
      if (r =? MOJO_SYSTEM_RESULT_DEADLINE_EXCEEDED) && (deadline =? MOJO_DEADLINE_INDEFINITE) ||
         (r =? MOJO_RESULT_OK)
      then lift OutOfFuel
      else put (set_kernel k w);; mret (r, [], 0)
  | _ => lift OutOfFuel
  end.

(** * The interface *)

Definition assert_current : M world unit := w ← get; assert_ (current w).

(** [next_id_++] *)
Definition next_id : M world Id :=
  w ← get;
  modify (set_next_id (wrap64 (next_id_ (loop w) + 1)));;
  mret (next_id_ (loop w)).

(** The absolute deadline of a handler; [kInvalidTimeTicks] for forever. *)
Definition absolute_deadline_of (id : Id) (deadline : Z) : M world Z :=
  if deadline <=? kMaxMojoTimeTicks then
    now ← GetTimeTicksNow;
    if deadline <=? kMaxMojoTimeTicks - now then
      let absolute_deadline := now + deadline in
      modify (fun w => set_handler_deadlines (pq_push HandlerDeadlineInfo_lt
        {| hd_id := id; hd_absolute_deadline := absolute_deadline |}
        (handler_deadlines_ (loop w))) w);;
      mret absolute_deadline
    else mret kInvalidTimeTicks
  else mret kInvalidTimeTicks.

(** [std::map::insert] does not replace an entry. *)
Definition AddHandler (handler : handler_ptr) (handle handle_signals deadline : Z) : M world Id :=
  assert_current;;
  assert_ (negb (handle =? MOJO_HANDLE_INVALID));;
  id ← next_id;
  absolute_deadline ← absolute_deadline_of id deadline;
  modify (fun w => set_handlers (
    match handlers_ (loop w) !! id with
    | Some _ => handlers_ (loop w)
    | None => <[id := {| hi_handler := handler; hi_handle_signals := handle_signals;
                         hi_absolute_deadline := absolute_deadline |}]> (handlers_ (loop w))
    end) w);;
  result ← WaitSetAdd handle handle_signals id;
  assert_ (result =? MOJO_RESULT_OK);;
  note (Added id handler);;
  mret id.

(** Erases the entry from [handlers_] and from the wait set. *)
Definition RemoveHandler (id : Id) : M world unit :=
  assert_current;;
  w ← get;
  match handlers_ (loop w) !! id with
  | None => mret tt
  | Some _ =>
      modify (set_handlers (delete id (handlers_ (loop w))));;
      result ← WaitSetRemove id;
      assert_ (result =? MOJO_RESULT_OK);;
      note (Removed id)
  end.

Definition PostDelayedTask (task : client) (delay : Z) : M world unit :=
  assert_current;;
  id ← next_id;
  now ← GetTimeTicksNow;
  assert_ (delay <=? kMaxMojoTimeTicks - now);;
  let absolute_run_time := now + delay in
  modify (fun w => set_delayed_tasks (pq_push DelayedTaskInfo_lt
    {| dt_id := id; dt_task := task; dt_absolute_run_time := absolute_run_time |}
    (delayed_tasks_ (loop w))) w);;
  note (Posted id absolute_run_time).

Definition Quit : M world unit :=
  assert_current;;
  modify (fun w => set_run_states (
    match current_run_state_ (loop w) with
    | [] => []
    | rs :: l => {| should_quit := true; results_size := results_size rs |} :: l
    end) w).

Definition num_handlers : M world Z := w ← get; mret (Z.of_nat (size (handlers_ (loop w)))).

(** * The loop

    [OnHandleReady] and [OnHandleError] are the client's handlers; [call] runs
    client code, which may call back into the loop. *)

Section Run.
Context (OnHandleReady : handler_ptr -> Id -> client).
Context (OnHandleError : handler_ptr -> Id -> MojoResult -> client).

Section Iteration.
Context (call : client -> M world unit).

(** [current_run_state_->...] *)
Definition run_state : M world RunState :=
  w ← get;
  match current_run_state_ (loop w) with
  | rs :: _ => mret rs
  | [] => lift Abort
  end.

Definition set_results_size (n : Z) : M world unit := modify (fun w => set_run_states (
  match current_run_state_ (loop w) with
  | [] => []
  | rs :: l => {| should_quit := should_quit rs; results_size := n |} :: l
  end) w).

Definition notify (id : Id) (handler : handler_ptr) (result : MojoResult) : M world unit :=
  note (Notified id handler result);;
  call (if result =? MOJO_RESULT_OK then OnHandleReady handler id
        else OnHandleError handler id result).

Fixpoint notify_each (results : list (Id * MojoResult)) (did_work : bool) : M world bool :=
  match results with
  | [] => mret did_work
  | (id, wait_result) :: results =>
      w ← get;
      match handlers_ (loop w) !! id with
      | None => notify_each results did_work
      | Some info =>
          modify (set_handlers (delete id (handlers_ (loop w))));;
          r ← WaitSetRemove id;
          assert_ (r =? MOJO_RESULT_OK);;
          notify id (hi_handler info) wait_result;;
          rs ← run_state;
          if should_quit rs then mret true else notify_each results true
      end
  end.

Definition NotifyResults (results : list (Id * MojoResult)) : M world bool :=
  assert_ (negb (bool_decide (results = [])));;
  notify_each results false.

Definition NotifyHandlersDeadlineExceeded (fuel : nat) (absolute_deadline : Z) : M world bool :=
  w ← get;
  assert_ (negb (bool_decide (handlers_ (loop w) = ∅)));;
  assert_ (negb (absolute_deadline =? kInvalidTimeTicks));;
  while_ fuel (fun did_work =>
    w ← get;
    match handler_deadlines_ (loop w) with
    | [] => mret (inr did_work)
    | info :: rest =>
        if hd_absolute_deadline info >? absolute_deadline then mret (inr did_work)
        else
          match handlers_ (loop w) !! hd_id info with
          | None => modify (set_handler_deadlines rest);; mret (inl did_work)
          | Some hi =>
              modify (set_handlers (delete (hd_id info) (handlers_ (loop w))));;
              modify (set_handler_deadlines rest);;
              notify (hd_id info) (hi_handler hi) MOJO_SYSTEM_RESULT_DEADLINE_EXCEEDED;;
              rs ← run_state;
              mret (if should_quit rs then inr true else inl true)
          end
    end) false.

(** Drops the stale deadlines at the top of the queue. *)
Fixpoint fresh_deadlines (hs : gmap Id HandlerInfo) (q : list HandlerDeadlineInfo) :
    list HandlerDeadlineInfo :=
  match q with
  | [] => []
  | info :: rest => match hs !! hd_id info with None => fresh_deadlines hs rest | Some _ => q end
  end.

Definition CalculateAbsoluteDeadline : M world (Z * bool) :=
  w ← get;
  assert_ (negb (bool_decide (handlers_ (loop w) = ∅)));;
  let '(absolute_deadline, is_delayed_task) :=
    match delayed_tasks_ (loop w) with
    | [] => (kInvalidTimeTicks, false)
    | t :: _ => (dt_absolute_run_time t, true)
    end in
  let q := fresh_deadlines (handlers_ (loop w)) (handler_deadlines_ (loop w)) in
  modify (set_handler_deadlines q);;
  mret match q with
       | [] => (absolute_deadline, is_delayed_task)
       | info :: _ =>
           if (absolute_deadline =? kInvalidTimeTicks) ||
              (hd_absolute_deadline info <? absolute_deadline)
           then (hd_absolute_deadline info, false)
           else (absolute_deadline, is_delayed_task)
       end.

(** The tasks that are ready now, but not the ones they post: [None] when one of
    them quits the loop. *)
Definition run_ready_tasks (fuel : nat) (now : Z) (now_task : DelayedTaskInfo) :
    M world (option bool) :=
  while_ fuel (fun should_continue =>
    w ← get;
    match delayed_tasks_ (loop w) with
    | [] => mret (inr (Some should_continue))
    | t :: rest =>
        if DelayedTaskInfo_lt now_task t then
          modify (set_delayed_tasks rest);;
          note (Ran (dt_id t) now);;
          call (dt_task t);;
          rs ← run_state;
          mret (if should_quit rs then inr None else inl true)
        else mret (inr (Some should_continue))
    end) false.

(** The wait, and what follows from its result: whether work was done. *)
Definition wait_and_notify (fuel : nat) (quit_when_idle should_continue : bool) (now : Z) :
    M world bool :=
  '(absolute_deadline, is_for_delayed_task) ←
    (if quit_when_idle then mret (now, false) else CalculateAbsoluteDeadline);
  let relative_deadline :=
    if absolute_deadline =? kInvalidTimeTicks then MOJO_DEADLINE_INDEFINITE
    else wrap64 (Z.max now absolute_deadline - now) in
  rs ← run_state;
  '(r, results, max_results) ← WaitSetWait relative_deadline;
  if r =? MOJO_RESULT_OK then
    (if max_results >? results_size rs then
       set_results_size (Z.min kMaximumWaitSetNumResults (wrap32 (results_size rs * 2)))
     else mret tt);;
    b ← NotifyResults results;
    mret (should_continue || b)
  else if r =? MOJO_SYSTEM_RESULT_DEADLINE_EXCEEDED then
    b ← NotifyHandlersDeadlineExceeded fuel absolute_deadline;
    mret (should_continue || b || is_for_delayed_task)
  else lift Abort.

Definition DoIteration (fuel : nat) (quit_when_idle : bool) : M world bool :=
  rs ← run_state;
  assert_ (negb (should_quit rs));;
  now ← GetTimeTicksNow;
  w ← get;
  let now_task := {| dt_id := next_id_ (loop w); dt_task := Return; dt_absolute_run_time := now |} in
  r ← run_ready_tasks fuel now now_task;
  match r with
  | None => mret false
  | Some should_continue =>
      w ← get;
      if bool_decide (handlers_ (loop w) = ∅) then mret should_continue
      else
        should_continue ← wait_and_notify fuel quit_when_idle should_continue now;
        rs ← run_state;
        if should_quit rs then mret false
        else
          w ← get;
          mret (if quit_when_idle then should_continue
                else negb (bool_decide (handlers_ (loop w) = ∅)))
  end.

(** Pushes a run state, and pops it at the end. *)
Definition RunInternal (fuel : nat) (quit_when_idle : bool) : M world unit :=
  assert_current;;
  modify (fun w => set_run_states (
    {| should_quit := false; results_size := kInitialWaitSetNumResults |}
      :: current_run_state_ (loop w)) w);;
  while_ fuel (fun _ : unit =>
    continue ← DoIteration fuel quit_when_idle;
    mret (if (continue : bool) then inl tt else inr tt)) tt;;
  modify (fun w => set_run_states (tail (current_run_state_ (loop w))) w).

Definition Run (fuel : nat) : M world unit := RunInternal fuel false.
Definition RunUntilIdle (fuel : nat) : M world unit := RunInternal fuel true.
End Iteration.

(** Client code, [fuel] bounding the depth of nested runs and, in each, the number
    of iterations. *)
Fixpoint run_client (fuel : nat) : client -> M world unit :=
  fix go (c : client) : M world unit :=
    match c with
    | Return => mret tt
    | CallAddHandler handler handle signals deadline k =>
        id ← AddHandler handler handle signals deadline; go (k id)
    | CallRemoveHandler id k => RemoveHandler id;; go k
    | CallPostDelayedTask task delay k => PostDelayedTask task delay;; go k
    | CallRun quit_when_idle k =>
        match fuel with
        | O => lift OutOfFuel
        | S fuel' => RunInternal (run_client fuel') fuel' quit_when_idle
        end;;
        go k
    | CallQuit k => Quit;; go k
    | CallNumHandlers k => n ← num_handlers; go (k n)
    | CallState f k => w ← get; put (set_user (f (user w)) w);; go (k (user w))
    | Crash => lift Fault
    end.

(** [handlers_.begin()]: the least id. *)
Definition first_handler (hs : gmap Id HandlerInfo) : option (Id * HandlerInfo) :=
  foldr (fun x acc => match acc with
                      | Some y => if x.1 <? y.1 then Some x else Some y
                      | None => Some x
                      end) None (map_to_list hs).

Definition RunLoop_destructor (fuel : nat) : M world unit :=
  assert_current;;
  while_ fuel (fun _ : unit =>
    w ← get;
    match first_handler (handlers_ (loop w)) with
    | None => mret (inr tt)
    | Some (id, info) =>
        modify (set_handlers (delete id (handlers_ (loop w))));;
        note (Notified id (hi_handler info) MOJO_SYSTEM_RESULT_ABORTED);;
        run_client fuel (OnHandleError (hi_handler info) id MOJO_SYSTEM_RESULT_ABORTED);;
        mret (inl tt)
    end) tt;;
  modify (set_current false).
End Run.

(** A loop just constructed, on a thread that had none; the wait set is created
    empty. *)
Definition new_run_loop (k : list answer) (u : U) : world := {|
  loop := {| next_id_ := 1; handlers_ := ∅; handler_deadlines_ := []; delayed_tasks_ := [];
             current_run_state_ := [] |};
  current := true; wait_set := ∅; kernel := k; user := u; trace := [];
|}.
End Loop.
Arguments client : clear implicits.
Arguments DelayedTaskInfo : clear implicits.
Arguments RunLoop : clear implicits.
Arguments world : clear implicits.
