(* ===== verification/RunLoopFacts.v ===== *)
(** The run loop as a state machine: its atomic steps, that client code only ever
    takes such steps and fails no assertion, and the invariants of all the
    states the steps reach. *)
From stdpp Require Import base numbers list option gmap.
From Stdlib Require Import ZArith Lia Sorted.
From S2P Require Import Prelude Result Validate RunLoop.

Section Facts.
Context {U : Type}.
Local Abbreviation client := (client U).
Local Abbreviation world := (world U).
Local Abbreviation DelayedTaskInfo := (DelayedTaskInfo U).

(** * Clients and kernels that keep to their side

    What a client relies on is a predicate on the handlers that wait and on its own
    state. *)
Abbreviation assertion := (gmap Id handler_ptr -> U -> Prop).

Section Client.
(** What holds whenever the loop is between two pieces of client code. *)
Context (I : assertion).

(** The client keeps to the interface, and to [I], from states in which [P] holds on:
    it finds [I] after a nested run, and brings it about before one and at its end;
    a task starts with nothing but [I]; where [Crash] is, [P] must be false. *)
Fixpoint client_ok (P : assertion) (c : client) : Prop :=
  match c with
  | Return => forall m u, P m u -> I m u
  | CallAddHandler h handle _ deadline k =>
      handle <> MOJO_HANDLE_INVALID /\ 0 <= deadline < 2 ^ 64 /\
      forall id, client_ok (fun m u => exists m0, m = <[id := h]> m0 /\ m0 !! id = None /\ P m0 u) (k id)
  | CallRemoveHandler id k => client_ok (fun m u => exists m0, m = delete id m0 /\ P m0 u) k
  | CallPostDelayedTask task delay k => client_ok I task /\ 0 <= delay <= 2 ^ 62 /\ client_ok P k
  | CallRun _ k => (forall m u, P m u -> I m u) /\ client_ok I k
  | CallQuit k => client_ok P k
  | CallNumHandlers k => forall n, client_ok P (k n)
  | CallState f k => forall u, client_ok (fun m u' => u' = f u /\ P m u) (k u)
  | Crash => forall m u, ~ P m u
  end.

(** A handler is called when it no longer waits. *)
Definition notified (h : handler_ptr) (id : Id) : assertion :=
  fun m u => m !! id = None /\ I (<[id := h]> m) u.

Lemma client_ok_weaken c : forall P Q, (forall m u, Q m u -> P m u) -> client_ok P c -> client_ok Q c.
Proof.
  induction c as [|h hd s d k IH|id k IH|t IHt d k IH|idle k IH|k IH|k IH|f k IH|]; intros P Q HPQ; simpl.
  - auto.
  - intros (? & ? & H). do 2 (split; [done|]). intros id. eapply IH; [|apply H]. naive_solver.
  - apply IH. naive_solver.
  - intros (? & ? & ?). do 2 (split; [done|]). eauto.
  - intros [? ?]. auto.
  - by apply IH.
  - intros H n. by eapply IH.
  - intros H u. eapply IH; [|apply H]. naive_solver.
  - intros H m u HQ. by eapply H, HPQ.
Qed.
End Client.

(** Times are positive and not near the end of [MojoTimeTicks]; a fresh entry can
    be added to the wait set; waits end with a result or time out. *)
Definition answer_ok (a : answer) : Prop :=
  match a with
  | TimeTicks now => 0 < now < 2 ^ 62
  | WaitSetAdded r => r = MOJO_RESULT_OK
  | WaitSetReady _ _ => True
  | WaitSetFailed r => r = MOJO_SYSTEM_RESULT_DEADLINE_EXCEEDED
  end.

(** * Steps *)

(** The order in which tasks run: by time, then by id. *)
Definition task_before (x y : DelayedTaskInfo) : Prop :=
  dt_absolute_run_time x < dt_absolute_run_time y \/
  dt_absolute_run_time x = dt_absolute_run_time y /\ dt_id x < dt_id y.

Inductive step : world -> world -> Prop :=
  | step_kernel w k a :
      kernel w = a :: k -> step w (set_kernel k w)
  | step_add w info handle q :
      let id := next_id_ (loop w) in
      wait_set w !! id = None -> handlers_ (loop w) !! id = None -> id + 1 < 2 ^ 64 ->
      (q = handler_deadlines_ (loop w) \/
       0 < hi_absolute_deadline info /\
       q = pq_push HandlerDeadlineInfo_lt
         {| hd_id := id; hd_absolute_deadline := hi_absolute_deadline info |}
         (handler_deadlines_ (loop w))) ->
      step w {|
        loop := {| next_id_ := id + 1; handlers_ := <[id := info]> (handlers_ (loop w));
                   handler_deadlines_ := q; delayed_tasks_ := delayed_tasks_ (loop w);
                   current_run_state_ := current_run_state_ (loop w) |};
        current := current w; kernel := kernel w; user := user w;
        wait_set := <[id := (handle, hi_handle_signals info)]> (wait_set w);
        trace := Added id (hi_handler info) :: trace w |}
  | step_remove w id info :
      handlers_ (loop w) !! id = Some info ->
      step w {| loop := loop (set_handlers (delete id (handlers_ (loop w))) w);
                current := current w; wait_set := delete id (wait_set w); kernel := kernel w; user := user w;
                trace := Removed id :: trace w |}
  | step_post w task :
      dt_id task = next_id_ (loop w) -> next_id_ (loop w) + 1 < 2 ^ 64 ->
      0 < dt_absolute_run_time task ->
      step w {|
        loop := {| next_id_ := next_id_ (loop w) + 1; handlers_ := handlers_ (loop w);
                   handler_deadlines_ := handler_deadlines_ (loop w);
                   delayed_tasks_ := pq_push DelayedTaskInfo_lt task (delayed_tasks_ (loop w));
                   current_run_state_ := current_run_state_ (loop w) |};
        current := current w; wait_set := wait_set w; kernel := kernel w; user := user w;
        trace := Posted (dt_id task) (dt_absolute_run_time task) :: trace w |}
  | step_run_task w task rest now :
      delayed_tasks_ (loop w) = task :: rest -> dt_absolute_run_time task <= now ->
      step w {| loop := loop (set_delayed_tasks rest w); current := current w;
                wait_set := wait_set w; kernel := kernel w; user := user w; trace := Ran (dt_id task) now :: trace w |}
  | step_ready w id info r :
      handlers_ (loop w) !! id = Some info ->
      step w {| loop := loop (set_handlers (delete id (handlers_ (loop w))) w);
                current := current w; wait_set := delete id (wait_set w); kernel := kernel w; user := user w;
                trace := Notified id (hi_handler info) r :: trace w |}
  | step_deadline w id info q r :
      handlers_ (loop w) !! id = Some info ->
      (forall x, x ∈ q -> x ∈ handler_deadlines_ (loop w)) ->
      step w {| loop := loop (set_handler_deadlines q (set_handlers (delete id (handlers_ (loop w))) w));
                current := current w; wait_set := wait_set w; kernel := kernel w; user := user w;
                trace := Notified id (hi_handler info) r :: trace w |}
  | step_deadlines w q :
      (forall x, x ∈ q -> x ∈ handler_deadlines_ (loop w)) -> step w (set_handler_deadlines q w)
  | step_run_states w l : step w (set_run_states l w)
  | step_user w u : step w (set_user u w).

Abbreviation steps := (rtc step).

(** * The invariant that keeps assertions from failing *)

Section Invariant.
Context (I : assertion).

Record wf (w : world) : Prop := {
  wf_current : current w = true;
  wf_kernel : Forall answer_ok (kernel w);
  wf_ids : 0 < next_id_ (loop w) /\ next_id_ (loop w) + Z.of_nat (length (kernel w)) < 2 ^ 64;
  wf_wait_set : forall id, is_Some (handlers_ (loop w) !! id) -> is_Some (wait_set w !! id);
  wf_fresh : forall id, is_Some (wait_set w !! id) -> id < next_id_ (loop w);
  wf_tasks : Forall (fun t => client_ok I I (dt_task t) /\ 0 < dt_absolute_run_time t)
    (delayed_tasks_ (loop w));
  wf_deadlines : Forall (fun d => 0 < hd_absolute_deadline d) (handler_deadlines_ (loop w));
}.

Lemma pq_push_elem {A} (lt : A -> A -> bool) x q y : y ∈ pq_push lt x q <-> y = x \/ y ∈ q.
Proof.
  induction q as [|z q IH]; simpl; [rewrite elem_of_cons; set_solver|].
  destruct (lt x z); rewrite !elem_of_cons; [rewrite IH|]; tauto.
Qed.

Lemma pq_push_Forall {A} (P : A -> Prop) lt x q : P x -> Forall P q -> Forall P (pq_push lt x q).
Proof.
  rewrite !Forall_forall. intros Hx Hq y Hy. apply pq_push_elem in Hy as [->|Hy]; auto.
Qed.

(** [wf] is kept by the steps that consume the kernel's answers when they take an
    id: that is why the composite operations are considered as a whole. *)
Lemma wf_less_kernel w k a : wf w -> kernel w = a :: k -> wf (set_kernel k w) /\ answer_ok a.
Proof.
  intros [Hc Hk [Hi Hi2] Hws Hf Ht Hd] Hkw. rewrite Hkw in *. inversion Hk; subst.
  split; [|done]. split; try done. simpl in *. lia.
Qed.

Lemma wf_handlers w hs :
  wf w -> (forall id, is_Some (hs !! id) -> is_Some (handlers_ (loop w) !! id)) ->
  wf (set_handlers hs w).
Proof. intros [Hc Hk Hi Hws Hf Ht Hd] Hsub. split; try done. simpl. auto. Qed.

Lemma wf_forget w id es :
  wf w ->
  wf {| loop := loop (set_handlers (delete id (handlers_ (loop w))) w); current := current w;
        wait_set := delete id (wait_set w); kernel := kernel w; user := user w; trace := es |}.
Proof.
  intros [Hc Hk Hi Hws Hf Ht Hd]. split; simpl; try done.
  - intros i. rewrite !lookup_delete_is_Some. intros []. auto.
  - intros i. rewrite lookup_delete_is_Some. intros []. auto.
Qed.

Definition depth (w : world) : nat := length (current_run_state_ (loop w)).

(** What holds after a piece of code started in [w]. *)
Definition reaches (w w' : world) : Prop := wf w' /\ steps w w' /\ depth w' = depth w.
Abbreviation runs_to w := (fun _ w' => reaches w w').

#[local] Instance reaches_transitive : Transitive reaches.
Proof.
  intros w w1 w2 (_ & H1 & D1) (H & H2 & D2).
  split; [done|]. split; [by etransitivity|congruence].
Qed.

Lemma reaches_refl w : wf w -> reaches w w.
Proof. done. Qed.

Lemma reaches_step w w' : wf w' -> step w w' -> depth w' = depth w -> reaches w w'.
Proof. intros ???. split; [done|]. split; [by apply rtc_once|done]. Qed.

Lemma reaches_wf w w' : reaches w w' -> wf w'.
Proof. by intros []. Qed.

#[local] Hint Resolve reaches_refl reaches_wf : core.

(** Code that has been shown to run, after other code. *)
Lemma wlp_reaches {A} (c : M world A) w0 w (Q : A -> world -> Prop) :
  wlp c w (runs_to w) -> reaches w0 w -> (forall a w', reaches w0 w' -> Q a w') -> wlp c w Q.
Proof. intros Hc Hw HQ. eapply wlp_mono; [exact Hc|]. intros a w' H. apply HQ. by etransitivity. Qed.

Ltac wlp_steps := repeat wlp_step.

(** ** What the client sees *)

Definition waiting (w : world) : gmap Id handler_ptr := hi_handler <$> handlers_ (loop w).
Definition unseen (w w' : world) : Prop := waiting w' = waiting w /\ user w' = user w.
Definition holds (w : world) : Prop := I (waiting w) (user w).

(** What holds after a piece of client code started in [w]. *)
Definition keeps (w w' : world) : Prop := reaches w w' /\ holds w'.

Lemma keeps_after w w1 w2 : reaches w w1 -> keeps w1 w2 -> keeps w w2.
Proof. intros H [? ?]. split; [by etransitivity|done]. Qed.
Lemma keeps_trans w w1 w2 : keeps w w1 -> keeps w1 w2 -> keeps w w2.
Proof. intros [? _]. by apply keeps_after. Qed.
Lemma keeps_refl w : wf w -> holds w -> keeps w w.
Proof. by split; [apply reaches_refl|]. Qed.
Lemma keeps_unseen w w' : reaches w w' -> holds w -> unseen w w' -> keeps w w'.
Proof. intros Hr Hh [Hw Hu]. split; [done|]. unfold holds. by rewrite Hw, Hu. Qed.
Lemma keeps_wf w w' : keeps w w' -> wf w'.
Proof. intros [? _]. eauto. Qed.
Lemma keeps_holds w w' : keeps w w' -> holds w'.
Proof. by intros []. Qed.
Lemma keeps_depth w w' : keeps w w' -> depth w' = depth w.
Proof. by intros [(_ & _ & ?) _]. Qed.

Lemma wlp_keeps {A} (c : M world A) w0 w (Q : A -> world -> Prop) :
  wlp c w (fun _ => keeps w) -> reaches w0 w -> (forall a w', keeps w0 w' -> Q a w') -> wlp c w Q.
Proof. intros Hc Hw HQ. eapply wlp_mono; [exact Hc|]. intros a w' H. apply HQ. by eapply keeps_after. Qed.

(** A call, and the client's code after it. *)
Lemma keeps_bind {A B} (c : M world A) (f : A -> M world B) (R : A -> world -> Prop) w :
  wlp c w (fun a w' => reaches w w' /\ R a w') ->
  (forall a w', wf w' -> R a w' -> wlp (f a) w' (fun _ => keeps w')) ->
  wlp (c ≫= f) w (fun _ => keeps w).
Proof.
  intros Hc Hf. wlp_step. eapply wlp_mono; [exact Hc|]. intros a w1 [Hw1 HR].
  apply (wlp_keeps _ w w1); [by apply Hf; eauto|done|done].
Qed.

(** ** The kernel *)

Lemma wlp_GetTimeTicksNow w (Q : Z -> world -> Prop) :
  wf w ->
  (forall now k, kernel w = TimeTicks now :: k -> 0 < now < 2 ^ 62 -> wf (set_kernel k w) ->
     Q now (set_kernel k w)) ->
  wlp GetTimeTicksNow w Q.
Proof.
  intros Hwf HQ. unfold GetTimeTicksNow. do 2 wlp_step.
  destruct (kernel w) as [|[now| | |] k] eqn:Hk; try done. wlp_steps.
  destruct (wf_less_kernel _ _ _ Hwf Hk). by apply HQ.
Qed.

Lemma wlp_WaitSetRemove w id e (Q : MojoResult -> world -> Prop) :
  wait_set w !! id = Some e -> Q MOJO_RESULT_OK (set_wait_set (delete id (wait_set w)) w) ->
  wlp (WaitSetRemove id) w Q.
Proof. intros He HQ. unfold WaitSetRemove. do 2 wlp_step. rewrite He. by wlp_steps. Qed.

(** ** The interface *)

Lemma wlp_assert_current w (Q : unit -> world -> Prop) :
  wf w -> Q tt w -> wlp assert_current w Q.
Proof. intros Hwf HQ. unfold assert_current. do 2 wlp_step. apply wlp_assert; [apply Hwf|done]. Qed.

Lemma wf_fresh_id w : wf w ->
  wait_set w !! next_id_ (loop w) = None /\ handlers_ (loop w) !! next_id_ (loop w) = None.
Proof.
  intros Hwf.
  assert (Hws : wait_set w !! next_id_ (loop w) = None).
  { apply eq_None_not_Some. intros H. pose proof (wf_fresh w Hwf _ H). lia. }
  split; [done|]. apply eq_None_not_Some. intros H. apply (wf_wait_set w Hwf) in H.
  rewrite Hws in H. by destruct H.
Qed.

(** The deadline queue of a new handler, and what is left to do of [AddHandler]. *)
Definition deadlines_after (w : world) (id : Id) (d : Z) (q : list HandlerDeadlineInfo) : Prop :=
  q = handler_deadlines_ (loop w) \/
  0 < d /\ q = pq_push HandlerDeadlineInfo_lt {| hd_id := id; hd_absolute_deadline := d |}
                 (handler_deadlines_ (loop w)).

(** [AddHandler] once the kernel has answered. *)
Lemma add_runs_to w k info handle q :
  let id := next_id_ (loop w) in
  wf w -> steps w (set_kernel k w) -> wf (set_kernel k w) -> (length k < length (kernel w))%nat ->
  deadlines_after w id (hi_absolute_deadline info) q ->
  reaches w {|
    loop := {| next_id_ := wrap64 (id + 1); handlers_ := <[id := info]> (handlers_ (loop w));
               handler_deadlines_ := q; delayed_tasks_ := delayed_tasks_ (loop w);
               current_run_state_ := current_run_state_ (loop w) |};
    current := current w; kernel := k; user := user w;
    wait_set := <[id := (handle, hi_handle_signals info)]> (wait_set w);
    trace := Added id (hi_handler info) :: trace w |}.
Proof.
  intros id Hwf Hst Hwf' Hk Hq. destruct (wf_fresh_id w Hwf) as [Hws Hh].
  pose proof (wf_ids w Hwf) as [Hi1 Hi2]. rewrite wrap64_small by (unfold id; lia).
  split; [|split; [|done]].
  - destruct Hwf' as [Hc Hkn Hi Hw Hf Ht Hd]. split; simpl in *; try done.
    + unfold id. lia.
    + intros i. rewrite !lookup_insert_is_Some'. intros [?|?]; [by left|right; auto].
    + intros i. rewrite lookup_insert_is_Some'. intros [<-|H]; [unfold id; lia|].
      specialize (Hf i H). unfold id. lia.
    + destruct Hq as [->|[? ->]]; [done|]. by apply pq_push_Forall.
  - etransitivity; [exact Hst|]. apply rtc_once.
    apply (step_add (set_kernel k w) info handle q); try done. simpl. unfold id in *. lia.
Qed.

Lemma wlp_WaitSetAdd w handle signals cookie (Q : MojoResult -> world -> Prop) :
  wait_set w !! cookie = None ->
  (forall k, kernel w = WaitSetAdded MOJO_RESULT_OK :: k ->
     Q MOJO_RESULT_OK (set_wait_set (<[cookie := (handle, signals)]> (wait_set w)) (set_kernel k w))) ->
  Forall answer_ok (kernel w) ->
  wlp (WaitSetAdd handle signals cookie) w Q.
Proof.
  intros Hws HQ Hk. unfold WaitSetAdd. do 2 wlp_step.
  destruct (kernel w) as [|[|r| |] k] eqn:Hkw; try done.
  inversion Hk as [|? ? Hr]; subst. simpl in Hr. wlp_steps. rewrite Hws, Hr. simpl. wlp_steps.
  apply HQ. by rewrite Hr.
Qed.

Lemma AddHandler_runs w handler handle signals deadline :
  wf w -> handle <> MOJO_HANDLE_INVALID -> 0 <= deadline < 2 ^ 64 ->
  wlp (AddHandler handler handle signals deadline) w (fun id w' => reaches w w' /\
    waiting w !! id = None /\ waiting w' = <[id := handler]> (waiting w) /\ user w' = user w).
Proof.
  intros Hwf Hh Hdl. unfold AddHandler. wlp_step. apply wlp_assert_current; [done|].
  wlp_step. apply wlp_assert; [by apply negb_true_iff, Z.eqb_neq|].
  destruct (wf_fresh_id w Hwf) as [Hws Hhd].
  unfold next_id. wlp_steps. set (id := next_id_ (loop w)) in *.
  (* Whatever the deadline, what remains is [finish]. *)
  assert (Hfinish : forall d q k, deadlines_after w id d q -> steps w (set_kernel k w) ->
    wf (set_kernel k w) -> (length k <= length (kernel w))%nat ->
    wlp (modify (fun w => set_handlers (
           match handlers_ (loop w) !! id with
           | Some _ => handlers_ (loop w)
           | None => <[id := {| hi_handler := handler; hi_handle_signals := signals;
                                hi_absolute_deadline := d |}]> (handlers_ (loop w))
           end) w);;
         result ← WaitSetAdd handle signals id;
         assert_ (result =? MOJO_RESULT_OK);;
         note (Added id handler);;
         mret id)
      (set_handler_deadlines q (set_next_id (wrap64 (id + 1)) (set_kernel k w)))
      (fun id w' => reaches w w' /\
        waiting w !! id = None /\ waiting w' = <[id := handler]> (waiting w) /\ user w' = user w)).
  { intros d q k Hq Hst Hwf' Hlen. wlp_steps. apply wlp_WaitSetAdd; [exact Hws| |apply Hwf'].
    intros k' Hk. simpl in Hk. wlp_step. apply wlp_assert; [done|].
    unfold note. wlp_steps. simpl. rewrite Hhd.
    destruct (wf_less_kernel (set_kernel k w) k' _ Hwf' Hk) as [Hwf'' _]. split.
    2: { unfold waiting. simpl. rewrite lookup_fmap, Hhd, fmap_insert. done. }
    apply (add_runs_to w k' {| hi_handler := handler; hi_handle_signals := signals;
      hi_absolute_deadline := d |} handle q); try done.
    - etransitivity; [exact Hst|]. apply rtc_once. by apply (step_kernel (set_kernel k w) k' _ Hk).
    - rewrite Hk in Hlen. simpl in Hlen. lia. }
  unfold absolute_deadline_of. destruct (Z.leb_spec deadline kMaxMojoTimeTicks).
  2: { wlp_step. apply (Hfinish kInvalidTimeTicks (handler_deadlines_ (loop w)) (kernel w));
       [by left|by destruct w|by destruct w|done]. }
  wlp_step. unfold GetTimeTicksNow. wlp_steps. simpl.
  destruct (kernel w) as [|[now| | |] k] eqn:Hk; try done.
  destruct (wf_less_kernel _ _ _ Hwf Hk) as [Hwf' Hnow]. simpl in Hnow. wlp_steps.
  pose proof (rtc_once _ _ (step_kernel w k _ Hk)) as Hst.
  destruct (deadline <=? kMaxMojoTimeTicks - now); [do 3 wlp_step|wlp_step].
  - apply (Hfinish (now + deadline) (pq_push HandlerDeadlineInfo_lt
      {| hd_id := id; hd_absolute_deadline := now + deadline |} (handler_deadlines_ (loop w))) k);
      [right; split; [lia|done]|done|done|simpl; lia].
  - apply (Hfinish kInvalidTimeTicks (handler_deadlines_ (loop w)) k); [by left|done|done|simpl; lia].
Qed.

Lemma RemoveHandler_runs w id : wf w ->
  wlp (RemoveHandler id) w (fun _ w' => reaches w w' /\
    waiting w' = delete id (waiting w) /\ user w' = user w).
Proof.
  intros Hwf. unfold RemoveHandler. wlp_step. apply wlp_assert_current; [done|]. do 2 wlp_step.
  destruct (handlers_ (loop w) !! id) as [info|] eqn:Hi; wlp_steps.
  2: { split; [auto|]. split; [|done]. unfold waiting. rewrite delete_id; [done|]. by rewrite lookup_fmap, Hi. }
  destruct (wf_wait_set w Hwf id) as [e He]; [by rewrite Hi|].
  apply wlp_WaitSetRemove with e; [exact He|]. wlp_step. apply wlp_assert; [done|].
  unfold note. wlp_steps. split; [|by split; [apply fmap_delete|]].
  apply reaches_step; [exact (wf_forget w id (Removed id :: trace w) Hwf)|exact (step_remove w id info Hi)|done].
Qed.

Lemma PostDelayedTask_runs w task delay :
  wf w -> client_ok I I task -> 0 <= delay <= 2 ^ 62 ->
  wlp (PostDelayedTask task delay) w (fun _ w' => reaches w w' /\ unseen w w').
Proof.
  intros Hwf Htask Hdelay. unfold PostDelayedTask. wlp_step. apply wlp_assert_current; [done|].
  unfold next_id. wlp_steps. unfold GetTimeTicksNow. wlp_steps. simpl.
  destruct (kernel w) as [|[now| | |] k] eqn:Hk; try done.
  destruct (wf_less_kernel _ _ _ Hwf Hk) as [Hwf' Hnow]. simpl in Hnow.
  wlp_steps. apply wlp_assert; [apply Z.leb_le; unfold kMaxMojoTimeTicks; lia|].
  unfold note. wlp_steps.
  pose proof (wf_ids w Hwf) as [Hi1 Hi2]. rewrite Hk in Hi2. simpl in Hi2.
  rewrite wrap64_small by lia. split; [|done]. split; [|split; [|done]].
  - destruct Hwf' as [Hc Hkn Hi Hw Hf Ht Hd]. split; simpl in *; try done; try lia.
    + intros i Hi'. specialize (Hf i Hi'). lia.
    + apply pq_push_Forall; [|done]. simpl. split; [done|lia].
  - etransitivity; [apply rtc_once, (step_kernel w k _ Hk)|]. apply rtc_once.
    apply (step_post (set_kernel k w) {| dt_id := next_id_ (loop w); dt_task := task;
      dt_absolute_run_time := now + delay |}); simpl; [done|lia|lia].
Qed.

Lemma reaches_run_states w l :
  wf w -> length l = depth w -> reaches w (set_run_states l w).
Proof. intros [] Hl. split; [by split|]. split; [apply rtc_once, step_run_states|done]. Qed.

Lemma Quit_runs w : wf w -> wlp Quit w (fun _ w' => reaches w w' /\ unseen w w').
Proof.
  intros Hwf. unfold Quit. wlp_step. apply wlp_assert_current; [done|]. wlp_steps. split; [|done].
  apply reaches_run_states; [done|]. unfold depth. by destruct (current_run_state_ (loop w)).
Qed.

Lemma num_handlers_runs w : wf w -> wlp num_handlers w (fun _ w' => reaches w w' /\ unseen w w').
Proof. intros Hwf. unfold num_handlers. wlp_steps. split; [auto|done]. Qed.

Lemma reaches_user w u : wf w -> reaches w (set_user u w).
Proof. intros []. split; [by split|]. split; [apply rtc_once, step_user|done]. Qed.

(** * The loop *)

(** Whether the innermost run has been told to quit. *)
Definition quitting (w : world) : bool :=
  match current_run_state_ (loop w) with rs :: _ => should_quit rs | [] => false end.

Lemma wlp_run_state w (Q : RunState -> world -> Prop) :
  (0 < depth w)%nat -> (forall rs, should_quit rs = quitting w -> Q rs w) -> wlp run_state w Q.
Proof.
  intros Hd HQ. unfold run_state, depth, quitting in *. do 2 wlp_step.
  destruct (current_run_state_ (loop w)) as [|rs l]; [simpl in Hd; lia|]. wlp_step. by apply HQ.
Qed.

(** Forgetting deadlines. *)
Lemma reaches_deadlines w q :
  wf w -> (forall x, x ∈ q -> x ∈ handler_deadlines_ (loop w)) ->
  reaches w (set_handler_deadlines q w).
Proof.
  intros [Hc Hk Hi Hws Hf Ht Hd] Hq. split; [|split; [by apply rtc_once, step_deadlines|done]].
  split; try done. simpl. rewrite Forall_forall in *. auto.
Qed.

Lemma fresh_deadlines_incl hs q x : x ∈ fresh_deadlines hs q -> x ∈ q.
Proof.
  induction q as [|y q IH]; simpl; [done|]. destruct (hs !! hd_id y); [done|].
  intros H. apply elem_of_cons. auto.
Qed.

Lemma wlp_CalculateAbsoluteDeadline w (Q : Z * bool -> world -> Prop) :
  wf w -> handlers_ (loop w) <> ∅ ->
  (forall r w', reaches w w' -> handlers_ (loop w') = handlers_ (loop w) -> user w' = user w ->
     quitting w' = quitting w -> Q r w') ->
  wlp CalculateAbsoluteDeadline w Q.
Proof.
  intros Hwf Hh HQ. unfold CalculateAbsoluteDeadline. do 3 wlp_step.
  apply wlp_assert; [by apply negb_true_iff, bool_decide_eq_false|].
  destruct (match delayed_tasks_ (loop w) with [] => _ | _ => _ end) as [d t].
  wlp_steps. apply HQ; [|done..]. apply reaches_deadlines; [done|].
  intros x. apply fresh_deadlines_incl.
Qed.

(** A wait ends with results or times out, unless it is for ever. *)
Lemma wlp_WaitSetWait w deadline (Q : MojoResult * list (Id * MojoResult) * Z -> world -> Prop) :
  wf w ->
  (forall k results n, results <> [] -> reaches w (set_kernel k w) ->
     Q (MOJO_RESULT_OK, results, n) (set_kernel k w)) ->
  (forall k, deadline <> MOJO_DEADLINE_INDEFINITE -> reaches w (set_kernel k w) ->
     Q (MOJO_SYSTEM_RESULT_DEADLINE_EXCEEDED, [], 0) (set_kernel k w)) ->
  wlp (WaitSetWait deadline) w Q.
Proof.
  intros Hwf HQ1 HQ2. unfold WaitSetWait. do 2 wlp_step.
  destruct (kernel w) as [|a k] eqn:Hk; [done|].
  destruct (wf_less_kernel _ _ _ Hwf Hk) as [Hwf' Ha].
  assert (Hr : reaches w (set_kernel k w)) by (apply reaches_step; [done|by apply (step_kernel w k a)|done]).
  destruct a as [|r|results n|r]; try done.
  - destruct (negb _ && _) eqn:Hc; [|done]. wlp_steps. bool_facts.
    apply HQ1; [|done]. by eapply bool_decide_eq_false_1.
  - simpl in Ha. subst r. simpl. destruct (Z.eqb_spec deadline MOJO_DEADLINE_INDEFINITE); [done|].
    wlp_steps. by apply HQ2.
Qed.

(** Taking a handler off the list, for a notification. *)
Lemma waiting_delete w w' id info :
  handlers_ (loop w) !! id = Some info -> handlers_ (loop w') = delete id (handlers_ (loop w)) ->
  user w' = user w -> holds w -> notified I (hi_handler info) id (waiting w') (user w').
Proof.
  intros Hi Hh Hu HI. unfold notified, waiting, holds in *. rewrite Hh, Hu, fmap_delete.
  split; [apply lookup_delete_eq|]. rewrite insert_delete_id; [done|]. by rewrite lookup_fmap, Hi.
Qed.

Section Run.
Context (OnHandleReady : handler_ptr -> Id -> client).
Context (OnHandleError : handler_ptr -> Id -> MojoResult -> client).
Context (ready_ok : forall h id, client_ok I (notified I h id) (OnHandleReady h id)).
Context (error_ok : forall h id r, client_ok I (notified I h id) (OnHandleError h id r)).

Section Iteration.
Context (call : client -> M world unit).
Context (call_runs : forall c (P : assertion) w, client_ok I P c -> wf w -> P (waiting w) (user w) ->
  wlp (call c) w (fun _ => keeps w)).

(** A notification, its handler already taken off the list. *)
Lemma notify_runs w0 w id h r (Q : unit -> world -> Prop) :
  reaches w0 {| loop := loop w; current := current w; wait_set := wait_set w; kernel := kernel w;
                user := user w; trace := Notified id h r :: trace w |} ->
  notified I h id (waiting w) (user w) ->
  (forall w', keeps w0 w' -> Q tt w') ->
  wlp (notify OnHandleReady OnHandleError call id h r) w Q.
Proof.
  intros Hw Hn HQ. unfold notify, note. do 2 wlp_step.
  apply (wlp_keeps _ w0 _ _) ; [|exact Hw|intros [] w'; apply HQ].
  apply (call_runs _ (notified I h id)); [|eauto|done]. by destruct (r =? MOJO_RESULT_OK).
Qed.

Lemma notify_each_runs results b w :
  wf w -> holds w -> (0 < depth w)%nat ->
  wlp (notify_each OnHandleReady OnHandleError call results b) w (fun _ => keeps w).
Proof.
  revert b w. induction results as [|[id r] results IH]; intros b w Hwf HI Hd; simpl; wlp_steps;
    [by apply keeps_refl|].
  destruct (handlers_ (loop w) !! id) as [info|] eqn:Hi; [|auto]. do 3 wlp_step.
  destruct (wf_wait_set w Hwf id) as [e He]; [by rewrite Hi|].
  apply wlp_WaitSetRemove with e; [exact He|]. wlp_step. apply wlp_assert; [done|]. wlp_step.
  apply (notify_runs w); [|by eapply waiting_delete|].
  { apply reaches_step; [|exact (step_ready w id info r Hi)|done].
    exact (wf_forget w id (Notified id (hi_handler info) r :: trace w) Hwf). }
  intros w' Hw'. wlp_step. apply wlp_run_state; [by rewrite (keeps_depth _ _ Hw')|].
  intros rs _. destruct (should_quit rs); [by wlp_step|].
  apply (wlp_keeps _ w w'); [|apply Hw'|done].
  apply IH; [by eapply keeps_wf|by eapply keeps_holds|]. by rewrite (keeps_depth _ _ Hw').
Qed.

Lemma NotifyHandlersDeadlineExceeded_runs fuel d w :
  wf w -> holds w -> (0 < depth w)%nat -> handlers_ (loop w) <> ∅ -> d <> kInvalidTimeTicks ->
  wlp (NotifyHandlersDeadlineExceeded OnHandleReady OnHandleError call fuel d) w (fun _ => keeps w).
Proof.
  intros Hwf HI Hd Hh Hdl. unfold NotifyHandlersDeadlineExceeded. do 3 wlp_step.
  apply wlp_assert; [by apply negb_true_iff, bool_decide_eq_false|].
  wlp_step. apply wlp_assert; [by apply negb_true_iff, Z.eqb_neq|].
  apply (wlp_while (fun _ => keeps w)); [by apply keeps_refl|]. clear Hh. intros b w1 Hw1.
  assert (Hd1 : depth w1 = depth w) by (by apply keeps_depth). wlp_steps.
  destruct (handler_deadlines_ (loop w1)) as [|info rest] eqn:Hq; [by wlp_step|].
  assert (Hrest : forall x, x ∈ rest -> x ∈ handler_deadlines_ (loop w1)).
  { intros x. rewrite Hq. apply list_elem_of_further. }
  destruct (hd_absolute_deadline info >? d); [by wlp_step|].
  destruct (handlers_ (loop w1) !! hd_id info) as [hi|] eqn:Hi; wlp_steps.
  - apply (notify_runs w); [|by eapply (waiting_delete w1); [exact Hi|..|apply Hw1]|].
    { etransitivity; [apply Hw1|].
      apply reaches_step; [|exact (step_deadline w1 (hd_id info) hi rest _ Hi Hrest)|done].
      destruct (keeps_wf _ _ Hw1) as [Hc Hk Hids Hws Hf Ht Hdls]. split; simpl; try done.
      - intros i. rewrite lookup_delete_is_Some. intros []. auto.
      - rewrite Hq in Hdls. by inversion Hdls. }
    intros w2 Hw2. wlp_step. apply wlp_run_state; [rewrite (keeps_depth _ _ Hw2); lia|].
    intros rs _. wlp_step. by destruct (should_quit rs).
  - eapply keeps_trans; [exact Hw1|]. apply keeps_unseen; [|apply Hw1|done].
    apply reaches_deadlines; [by eapply keeps_wf|done].
Qed.

Lemma run_ready_tasks_runs fuel now i w :
  wf w -> holds w -> (0 < depth w)%nat -> quitting w = false ->
  wlp (run_ready_tasks call fuel now {| dt_id := i; dt_task := Return; dt_absolute_run_time := now |}) w
    (fun r w' => keeps w w' /\ (is_Some r -> quitting w' = false)).
Proof.
  intros Hwf HI Hd Hq. unfold run_ready_tasks.
  apply (wlp_while (fun _ w' => keeps w w' /\ quitting w' = false)); [by split; [apply keeps_refl|]|].
  intros b w1 [Hw1 Hq1]. assert (Hd1 : depth w1 = depth w) by (by apply keeps_depth). wlp_steps.
  destruct (delayed_tasks_ (loop w1)) as [|t rest] eqn:Ht; [by wlp_step|].
  destruct (DelayedTaskInfo_lt _ t) eqn:Hlt; [|by wlp_step]. unfold note. wlp_steps.
  pose proof (wf_tasks w1 (keeps_wf _ _ Hw1)) as Hts. rewrite Ht in Hts.
  inversion Hts as [|? ? [Ht1 Ht2] Hts']; subst.
  apply (wlp_keeps _ w).
  { apply (call_runs _ I); [done| |apply Hw1]. destruct (keeps_wf _ _ Hw1). by split. }
  { etransitivity; [apply Hw1|]. apply reaches_step; [|apply (step_run_task w1 t rest now Ht)|done].
    - destruct (keeps_wf _ _ Hw1). by split.
    - unfold DelayedTaskInfo_lt in Hlt. simpl in Hlt.
      destruct (Z.eqb_spec now (dt_absolute_run_time t)); [lia|]. apply Z.gtb_lt in Hlt. lia. }
  intros _ w2 Hw2. wlp_step. apply wlp_run_state; [rewrite (keeps_depth _ _ Hw2); lia|].
  intros rs Hrs. wlp_step. destruct (should_quit rs); [|done]. split; [done|]. by intros [].
Qed.

Lemma NotifyResults_runs results w :
  wf w -> holds w -> (0 < depth w)%nat -> results <> [] ->
  wlp (NotifyResults OnHandleReady OnHandleError call results) w (fun _ => keeps w).
Proof.
  intros Hwf HI Hd Hne. unfold NotifyResults. wlp_step.
  apply wlp_assert; [by apply negb_true_iff, bool_decide_eq_false|]. by apply notify_each_runs.
Qed.

Lemma set_results_size_runs n w : wf w ->
  wlp (set_results_size n) w (fun _ w' => reaches w w' /\ unseen w w').
Proof.
  intros Hwf. unfold set_results_size. wlp_steps. split; [|done]. apply reaches_run_states; [done|].
  unfold depth. by destruct (current_run_state_ (loop w)).
Qed.

Lemma wait_and_notify_runs fuel idle sc now w :
  wf w -> holds w -> (0 < depth w)%nat -> handlers_ (loop w) <> ∅ -> 0 < now < 2 ^ 62 ->
  wlp (wait_and_notify OnHandleReady OnHandleError call fuel idle sc now) w (fun _ => keeps w).
Proof.
  intros Hwf HI Hd Hh Hnow. unfold wait_and_notify. wlp_step.
  apply wlp_mono with (P := fun _ w' => keeps w w' /\ handlers_ (loop w') = handlers_ (loop w)).
  { destruct idle; [wlp_step; by split; [apply keeps_refl|]|]. apply wlp_CalculateAbsoluteDeadline; [done..|].
    intros _ w' Hw' Hh' Hu' _. split; [|done]. apply keeps_unseen; [done..|]. split; [|done].
    unfold waiting. by rewrite Hh'. }
  intros [d is_task] w1 [Hw1 Hh1]. assert (Hd1 : depth w1 = depth w) by (by apply keeps_depth).
  wlp_step. apply wlp_run_state; [lia|]. intros rs _. wlp_step. apply wlp_WaitSetWait; [by eapply keeps_wf| |].
  - intros k results n Hne Hk. rewrite Z.eqb_refl. wlp_step.
    apply wlp_mono with (P := fun _ w2 => keeps w w2).
    { assert (Hkk : keeps w (set_kernel k w1)).
      { eapply keeps_trans; [exact Hw1|]. by apply keeps_unseen; [|apply Hw1|]. }
      destruct (n >? _); [|by wlp_step]. eapply wlp_mono; [apply set_results_size_runs; by eapply keeps_wf|].
      intros _ w2 [Hw2 Hs2]. eapply keeps_trans; [exact Hkk|]. apply keeps_unseen; [done|apply Hkk|done]. }
    intros _ w2 Hw2. wlp_step. apply (wlp_keeps _ w w2); [|apply Hw2|by intros; wlp_step].
    apply NotifyResults_runs; [by eapply keeps_wf|by eapply keeps_holds| |done].
    by rewrite (keeps_depth _ _ Hw2).
  - intros k Hk Hr. simpl. wlp_step.
    apply (wlp_keeps _ w); [|etransitivity; [apply Hw1|exact Hr]|by intros; wlp_step].
    apply NotifyHandlersDeadlineExceeded_runs; [eauto|apply Hw1| | |].
    + destruct Hr as (_ & _ & ->). lia.
    + simpl. by rewrite Hh1.
    + intros ->. by rewrite Z.eqb_refl in Hk.
Qed.

Lemma DoIteration_runs fuel idle w :
  wf w -> holds w -> (0 < depth w)%nat -> quitting w = false ->
  wlp (DoIteration OnHandleReady OnHandleError call fuel idle) w
    (fun continue w' => keeps w w' /\ (continue = true -> quitting w' = false)).
Proof.
  intros Hwf HI Hd Hq. unfold DoIteration. wlp_step. apply wlp_run_state; [done|]. intros rs ->.
  wlp_step. apply wlp_assert; [by rewrite Hq|]. wlp_step. apply wlp_GetTimeTicksNow; [done|].
  intros now k Hk Hnow Hwf1.
  assert (Hw1 : reaches w (set_kernel k w)) by (apply reaches_step; [done|by eapply step_kernel|done]).
  set (w1 := set_kernel k w) in *. do 3 wlp_step.
  eapply wlp_mono; [apply run_ready_tasks_runs; done|]. intros r w2 [Hw2 Hq2].
  assert (Hw02 : keeps w w2) by (by eapply keeps_after). destruct r as [sc|]; [|by wlp_step].
  assert (Hd2 : depth w2 = depth w) by (by apply keeps_depth).
  do 2 wlp_step. case_bool_decide as Hh; [wlp_step; eauto|]. wlp_step.
  apply (wlp_keeps _ w w2); [|apply Hw02|].
  { apply wait_and_notify_runs; [by eapply keeps_wf|by eapply keeps_holds|lia|done|done]. }
  intros sc' w3 Hw3. wlp_step. apply wlp_run_state; [rewrite (keeps_depth _ _ Hw3); lia|].
  intros rs' ->. destruct (quitting w3) eqn:Hq3; wlp_steps; done.
Qed.

Lemma RunInternal_runs fuel idle w :
  wf w -> holds w -> wlp (RunInternal OnHandleReady OnHandleError call fuel idle) w (fun _ => keeps w).
Proof.
  intros Hwf HI. unfold RunInternal. wlp_step. apply wlp_assert_current; [done|]. do 2 wlp_step.
  wlp_step. set (w1 := set_run_states _ w).
  assert (Hst : steps w w1) by apply rtc_once, step_run_states.
  assert (Hwf1 : wf w1) by (destruct Hwf; by split).
  apply (wlp_while (fun _ w' => keeps w1 w' /\ quitting w' = false)); [by split; [apply keeps_refl|]|].
  intros _ w2 [Hw2 Hq2]. wlp_step.
  eapply wlp_mono; [apply DoIteration_runs; [by eapply keeps_wf|by eapply keeps_holds| |done]|].
  { rewrite (keeps_depth _ _ Hw2). unfold depth. simpl. lia. }
  intros continue w3 [Hw3 Hq3]. assert (Hw13 : keeps w1 w3) by (by eapply keeps_trans).
  wlp_step. destruct continue; [split; auto|]. wlp_step.
  destruct Hw13 as [(Hwf3 & Hst3 & Hd3) HI3]. split; [|done]. split; [destruct Hwf3; by split|]. split.
  - etransitivity; [exact Hst|]. etransitivity; [exact Hst3|]. apply rtc_once, step_run_states.
  - unfold depth in *. simpl. simpl in Hd3.
    destruct (current_run_state_ (loop w3)); simpl in *; lia.
Qed.
End Iteration.

Local Ltac finish_call IH Hc :=
  intros ? w' Hwf' [Hw' Hu]; eapply IH; [apply Hc|done|by rewrite Hw', Hu].

(** Client code takes the loop through such steps, fails no assertion, and keeps what
    it relies on. *)
Lemma run_client_runs fuel c P w :
  client_ok I P c -> wf w -> P (waiting w) (user w) ->
  wlp (run_client OnHandleReady OnHandleError fuel c) w (fun _ => keeps w).
Proof.
  revert c P w. induction fuel as [|fuel IHf];
    (induction c as [|h hd s d k IH|id k IH|t IHt d k IH|idle k IH|k IH|k IH|f k IH|];
     intros P w Hc Hwf HP; simpl in Hc |- *;
     [by apply keeps_refl; [|apply Hc]
     |destruct Hc as (Hh & Hd & Hc); eapply keeps_bind; [by apply AddHandler_runs|];
        intros id w' Hwf' (Hn & Hw' & Hu); eapply IH; [apply Hc|done|rewrite Hw', Hu; eauto]
     |eapply keeps_bind; [by apply RemoveHandler_runs|];
        intros _ w' Hwf' (Hw' & Hu); eapply IH; [apply Hc|done|rewrite Hw', Hu; eauto]
     |destruct Hc as (Ht & Hd & Hc); eapply keeps_bind; [by apply PostDelayedTask_runs|]; finish_call IH Hc
     |destruct Hc as [HI Hc]; eapply (keeps_bind _ _ (fun _ => holds)); [|by eauto];
        first [by apply wlp_fuel|apply RunInternal_runs; [by eauto|done|by apply HI]]
     |eapply keeps_bind; [by apply Quit_runs|]; finish_call IH Hc
     |eapply keeps_bind; [by apply num_handlers_runs|]; finish_call IH Hc
     |wlp_steps; eapply wlp_keeps; [eapply IH; [apply Hc|by apply reaches_user|done]|by apply reaches_user|done]
     |by destruct (Hc _ _ HP)]).
Qed.
End Run.
End Invariant.
End Facts.

#[export] Existing Instance reaches_transitive.
Abbreviation assertion U := (gmap Id handler_ptr -> U -> Prop).
Abbreviation steps := (rtc step).
Abbreviation runs_to w := (fun _ w' => reaches w w').
