(* ===== verification/RunLoopSpec.v ===== *)
(** What the run loop promises: the abstract scheduler it implements, as a
    predicate on what happens, and the properties of what happens. *)
From stdpp Require Import base numbers list option gmap sorting.
From Stdlib Require Import ZArith Lia.
From S2P Require Import Prelude Result RunLoop RunLoopFacts.

(** * The abstract scheduler

    Its state is a function of what has happened, the last event first: the
    handlers waiting, the tasks waiting with the times they are for, the ids
    given out. *)

Fixpoint live (tr : list event) : gmap Id handler_ptr :=
  match tr with
  | [] => ∅
  | Added id h :: tr => <[id := h]> (live tr)
  | Removed id :: tr | Notified id _ _ :: tr => delete id (live tr)
  | _ :: tr => live tr
  end.

Fixpoint pending (tr : list event) : gmap Id Z :=
  match tr with
  | [] => ∅
  | Posted id t :: tr => <[id := t]> (pending tr)
  | Ran id _ :: tr => delete id (pending tr)
  | _ :: tr => pending tr
  end.

Fixpoint last_id (tr : list event) : Id :=
  match tr with
  | [] => 0
  | Added id _ :: _ | Posted id _ :: _ => id
  | _ :: tr => last_id tr
  end.

(** What may happen next. *)
Definition allowed (e : event) (tr : list event) : Prop :=
  match e with
  | Added id _ => last_id tr < id
  | Posted id t => last_id tr < id
  | Removed id => is_Some (live tr !! id)
  | Notified id h _ => live tr !! id = Some h
  | Ran id now => exists t, pending tr !! id = Some t /\ t <= now /\
      forall id' t', pending tr !! id' = Some t' -> t < t' \/ t = t' /\ id <= id'
  end.

Fixpoint legal (tr : list event) : Prop :=
  match tr with
  | [] => True
  | e :: tr => allowed e tr /\ legal tr
  end.

Section Spec.
Context {U : Type}.
Local Abbreviation client := (client U).
Local Abbreviation world := (world U).
Local Abbreviation DelayedTaskInfo := (DelayedTaskInfo U).

(** The loop's state against the scheduler's. *)
Record represents (w : world) : Prop := {
  rep_legal : legal (trace w);
  rep_handlers : hi_handler <$> handlers_ (loop w) = live (trace w);
  rep_next : last_id (trace w) < next_id_ (loop w);
  rep_sorted : Sorted task_before (delayed_tasks_ (loop w));
  rep_tasks : forall id t, pending (trace w) !! id = Some t <->
    exists x, x ∈ delayed_tasks_ (loop w) /\ dt_id x = id /\ dt_absolute_run_time x = t;
  rep_distinct : NoDup (dt_id <$> delayed_tasks_ (loop w));
  rep_ids : Forall (fun t => dt_id t < next_id_ (loop w)) (delayed_tasks_ (loop w));
}.

#[local] Instance task_before_transitive : Transitive (task_before (U:=U)).
Proof. intros x y z. unfold task_before. lia. Qed.

(** The comparison of the queue is that of the order of running. *)
Lemma DelayedTaskInfo_lt_before (x y : DelayedTaskInfo) : DelayedTaskInfo_lt x y = true <-> task_before y x.
Proof.
  unfold DelayedTaskInfo_lt, task_before.
  destruct (Z.eqb_spec (dt_absolute_run_time x) (dt_absolute_run_time y)); rewrite Z.gtb_lt; lia.
Qed.

Lemma pq_push_HdRel (x y : DelayedTaskInfo) q :
  task_before y x -> HdRel task_before y q -> HdRel task_before y (pq_push DelayedTaskInfo_lt x q).
Proof. intros Hx [|z l Hz]; simpl; [by constructor|]. destruct (DelayedTaskInfo_lt x z); by constructor. Qed.

Lemma pq_push_sorted (x : DelayedTaskInfo) q :
  Forall (fun y => dt_id y <> dt_id x) q -> Sorted task_before q ->
  Sorted task_before (pq_push DelayedTaskInfo_lt x q).
Proof.
  induction q as [|y q IH]; intros Hne Hs; simpl; [by repeat constructor|].
  inversion Hne; subst. inversion Hs; subst.
  destruct (DelayedTaskInfo_lt x y) eqn:Hlt.
  - constructor; [by apply IH|]. apply pq_push_HdRel; [|done]. by apply DelayedTaskInfo_lt_before.
  - constructor; [done|]. constructor. assert (Hn : ~ task_before y x).
    { rewrite <- DelayedTaskInfo_lt_before. by rewrite Hlt. }
    unfold task_before in *. lia.
Qed.

Lemma pq_push_perm {A} (lt : A -> A -> bool) x q : pq_push lt x q ≡ₚ x :: q.
Proof.
  induction q as [|y q IH]; simpl; [done|]. destruct (lt x y); [|done].
  transitivity (y :: x :: q); [by apply perm_skip|apply perm_swap].
Qed.

(** ** Every step is allowed *)

(** Steps that happen silently and leave handlers and tasks alone. *)
Lemma represents_silent w w' :
  represents w -> trace w' = trace w -> handlers_ (loop w') = handlers_ (loop w) ->
  next_id_ (loop w') = next_id_ (loop w) -> delayed_tasks_ (loop w') = delayed_tasks_ (loop w) ->
  represents w'.
Proof. intros [] Ht Hh Hn Hd. split; rewrite ?Ht, ?Hh, ?Hn, ?Hd; done. Qed.

Lemma represents_add w w' info :
  let id := next_id_ (loop w) in
  represents w -> trace w' = Added id (hi_handler info) :: trace w ->
  handlers_ (loop w') = <[id := info]> (handlers_ (loop w)) ->
  next_id_ (loop w') = id + 1 -> delayed_tasks_ (loop w') = delayed_tasks_ (loop w) ->
  represents w'.
Proof.
  intros id [Hl Hh Hn Hs Ht Hnd Hi] Htr Hhd Hnx Hq. split; rewrite ?Htr, ?Hhd, ?Hnx, ?Hq; simpl; try done.
  - rewrite fmap_insert. by rewrite Hh.
  - lia.
  - eapply Forall_impl; [exact Hi|]. simpl. unfold id. lia.
Qed.

(** A handler is taken off the list: removed, or notified. *)
Lemma represents_drop w w' id info e :
  represents w -> handlers_ (loop w) !! id = Some info ->
  e = Removed id \/ (exists r, e = Notified id (hi_handler info) r) ->
  trace w' = e :: trace w -> handlers_ (loop w') = delete id (handlers_ (loop w)) ->
  next_id_ (loop w') = next_id_ (loop w) -> delayed_tasks_ (loop w') = delayed_tasks_ (loop w) ->
  represents w'.
Proof.
  intros [Hl Hh Hn Hs Ht Hnd Hi] Hid He Htr Hhd Hnx Hq.
  assert (Hlive : live (trace w) !! id = Some (hi_handler info)).
  { rewrite <- Hh, lookup_fmap. by rewrite Hid. }
  split; rewrite ?Htr, ?Hhd, ?Hnx, ?Hq; destruct He as [->|[r ->]]; simpl; try done.
  all: rewrite fmap_delete; by rewrite Hh.
Qed.

Lemma represents_post w w' task :
  represents w -> dt_id task = next_id_ (loop w) ->
  trace w' = Posted (dt_id task) (dt_absolute_run_time task) :: trace w ->
  handlers_ (loop w') = handlers_ (loop w) -> next_id_ (loop w') = next_id_ (loop w) + 1 ->
  delayed_tasks_ (loop w') = pq_push DelayedTaskInfo_lt task (delayed_tasks_ (loop w)) ->
  represents w'.
Proof.
  intros [Hl Hh Hn Hs Ht Hnd Hi] Hid Htr Hhd Hnx Hq.
  pose proof (pq_push_perm DelayedTaskInfo_lt task (delayed_tasks_ (loop w))) as Hp.
  rewrite Forall_forall in Hi.
  split; rewrite ?Htr, ?Hhd, ?Hnx, ?Hq; simpl; try done; try lia.
  - split; [lia|done].
  - apply pq_push_sorted; [|done]. apply Forall_forall. intros x Hx. specialize (Hi x Hx). lia.
  - intros id t. setoid_rewrite Hp. setoid_rewrite elem_of_cons.
    destruct (decide (id = dt_id task)) as [->|Hne].
    + rewrite lookup_insert_eq. split; [intros [= <-]; eauto 10|].
      intros (x & [->|Hx] & Hx1 & <-); [done|]. specialize (Hi x Hx). lia.
    + rewrite lookup_insert_ne by done. rewrite Ht. split; intros (x & Hx & Hx1 & Hx2); [eauto 10|].
      destruct Hx as [->|Hx]; [by rewrite Hx1 in Hne|eauto].
  - rewrite Hp. simpl. constructor; [|done]. rewrite list_elem_of_fmap. intros (x & Hx1 & Hx).
    specialize (Hi x Hx). lia.
  - rewrite Hp. constructor; [lia|]. apply Forall_forall. intros x Hx. specialize (Hi x Hx). lia.
Qed.

Lemma represents_run w w' task rest now :
  represents w -> delayed_tasks_ (loop w) = task :: rest -> dt_absolute_run_time task <= now ->
  trace w' = Ran (dt_id task) now :: trace w -> handlers_ (loop w') = handlers_ (loop w) ->
  next_id_ (loop w') = next_id_ (loop w) -> delayed_tasks_ (loop w') = rest ->
  represents w'.
Proof.
  intros [Hl Hh Hn Hs Ht Hnd Hi] Hq Hnow Htr Hhd Hnx Hq'. rewrite Hq in *.
  apply Sorted_StronglySorted in Hs; [|apply _]. inversion Hs as [|? ? Hs' Hall]; subst.
  simpl in Hnd. inversion Hnd as [|? ? Hnin Hnd']; subst. inversion Hi; subst.
  rewrite Forall_forall in Hall.
  split; rewrite ?Htr, ?Hhd, ?Hnx; simpl; try done.
  - split; [|done]. exists (dt_absolute_run_time task). split; [|split; [done|]].
    + apply Ht. exists task. rewrite elem_of_cons. auto.
    + intros id' t' (x & Hx & <- & <-)%Ht. apply elem_of_cons in Hx as [->|Hx]; [lia|].
      specialize (Hall x Hx). unfold task_before in Hall. lia.
  - by apply StronglySorted_Sorted.
  - intros id t. rewrite lookup_delete_Some, Ht. setoid_rewrite elem_of_cons. split.
    + intros (Hne & x & [->|Hx] & <- & <-); [done|eauto].
    + intros (x & Hx & <- & <-). split; [|eauto]. intros Heq. apply Hnin.
      rewrite Heq. by apply list_elem_of_fmap_2.
Qed.

Lemma step_represents w w' : step w w' -> represents w -> represents w'.
Proof.
  intros Hst Hr.
  destruct Hst as [w|w info|w id info|w task|w task rest now|w id info|w id info|w|w|w].
  - by apply (represents_silent w).
  - by apply (represents_add w _ info).
  - by apply (represents_drop w _ id info (Removed id)); auto.
  - by apply (represents_post w _ task).
  - by apply (represents_run w _ task rest now).
  - apply (represents_drop w _ id info (Notified id (hi_handler info) r)); eauto.
  - apply (represents_drop w _ id info (Notified id (hi_handler info) r)); eauto.
  - by apply (represents_silent w).
  - by apply (represents_silent w).
  - by apply (represents_silent w).
Qed.

Lemma steps_represents w w' : steps w w' -> represents w -> represents w'.
Proof. induction 1; eauto using step_represents. Qed.

Lemma new_represents k (u : U) : represents (new_run_loop k u).
Proof.
  split; simpl; [done|apply fmap_empty|lia|constructor| |constructor|constructor].
  intros id t. rewrite lookup_empty. split; [done|]. intros (x & Hx & _). by apply elem_of_nil in Hx.
Qed.

(** * What is allowed happens at most once and in order *)

Definition id_of (e : event) : Id :=
  match e with Added id _ | Removed id | Posted id _ | Ran id _ | Notified id _ _ => id end.
Definition runs (id : Id) (e : event) : Prop :=
  match e with Ran id' _ => id' = id | _ => False end.
#[export] Instance runs_dec id e : Decision (runs id e).
Proof. destruct e; simpl; apply _. Defined.

Lemma legal_ids tr :
  legal tr ->
  (forall id, is_Some (live tr !! id) \/ is_Some (pending tr !! id) -> id <= last_id tr) /\
  Forall (fun e => id_of e <= last_id tr) tr.
Proof.
  induction tr as [|e tr IH]; simpl.
  { intros _. split; [|done]. intros id. rewrite !lookup_empty. by intros [[]|[]]. }
  intros [He Hl]. destruct (IH Hl) as [H1 H2]. rewrite Forall_forall in H2.
  rewrite Forall_cons, Forall_forall.
  destruct e as [i h|i|i t|i n|i h r]; simpl in *.
  - split; [|split; [lia|intros e He'; specialize (H2 e He'); lia]].
    intros id. rewrite lookup_insert_is_Some'. intros [[<-|H]|H]; [lia|..]; specialize (H1 id); lia || (assert (id <= last_id tr) by auto; lia).
  - split; [|split; [apply H1; auto|auto]]. intros id. rewrite lookup_delete_is_Some. naive_solver.
  - split; [|split; [lia|intros e He'; specialize (H2 e He'); lia]].
    intros id. rewrite lookup_insert_is_Some'. intros [H|[<-|H]]; [|lia|]; (assert (id <= last_id tr) by auto; lia).
  - split; [|split; [apply H1; destruct He as (t & -> & _); eauto|auto]].
    intros id. rewrite lookup_delete_is_Some. naive_solver.
  - split; [|split; [apply H1; rewrite He; eauto|auto]].
    intros id. rewrite lookup_delete_is_Some. naive_solver.
Qed.


(** A task waits exactly when it was posted and has not run. *)
Lemma pending_posted tr id t :
  legal tr -> pending tr !! id = Some t <-> Posted id t ∈ tr /\ Forall (fun e => ~ runs id e) tr.
Proof.
  induction tr as [|e tr IH]; simpl.
  { intros _. rewrite lookup_empty, elem_of_nil. by split; [|intros []]. }
  intros [He Hl]. specialize (IH Hl). destruct (legal_ids tr Hl) as [_ Hids].
  rewrite elem_of_cons, Forall_cons.
  destruct e as [i h'|i|i t'|i n|i h' r]; simpl in *;
    try (rewrite IH; split; [tauto|]; intros [[?|?] ?]; [done|tauto]).
  - rewrite lookup_insert_Some. split.
    + intros [[-> ->]|[Hne Hid]]; [|tauto]. split; [by left|]. split; [tauto|].
      eapply Forall_impl; [exact Hids|]. intros [] ? Hd; simpl in *; subst; try done; lia.
    + intros [[[= -> ->]|Hin] [_ Hr]]; [by left|]. right. split; [|by apply IH].
      rewrite Forall_forall in Hids. specialize (Hids _ Hin). simpl in Hids. lia.
  - rewrite lookup_delete_Some, IH. split; [tauto|]. intros [[?|?] ?]; [done|tauto].
Qed.

Lemma legal_app l tr : legal (l ++ tr) -> legal tr.
Proof. induction l; simpl; tauto. Qed.

Lemma legal_allowed l e tr : legal (l ++ e :: tr) -> allowed e tr /\ legal tr.
Proof. intros H. apply legal_app in H. exact H. Qed.


Lemma runs_once l e tr id :
  legal (l ++ e :: tr) -> runs id e -> Forall (fun e => ~ runs id e) (l ++ tr).
Proof.
  assert (Hpend : forall e tr, allowed e tr -> legal tr -> runs id e ->
    Forall (fun e => ~ runs id e) tr).
  { intros e' tr' Ha Hl He. destruct e'; simpl in *; try done. subst.
    destruct Ha as (t & Ht & _). by apply pending_posted in Ht as [_ ?]. }
  intros Hl He. apply Forall_app. split.
  - apply Forall_forall. intros e' Hin He'. apply list_elem_of_split in Hin as (l1 & l2 & ->).
    rewrite <- app_assoc in Hl. simpl in Hl. apply legal_allowed in Hl as [Ha Hl].
    specialize (Hpend _ _ Ha Hl He'). rewrite Forall_app, Forall_cons in Hpend. tauto.
  - apply legal_allowed in Hl as [Ha Hl]. eauto.
Qed.

Lemma Forall_not_elem {A} (P : A -> Prop) l x : Forall (fun e => ~ P e) l -> P x -> x ∉ l.
Proof. rewrite Forall_forall. intros H Hx Hin. by apply (H x). Qed.

(** * What is promised *)

End Spec.
#[export] Existing Instance task_before_transitive.

Section Run.
Context {U : Type}.
Local Abbreviation client := (client U).
Local Abbreviation world := (world U).
Context (I : assertion U).
Context (OnHandleReady : handler_ptr -> Id -> client).
Context (OnHandleError : handler_ptr -> Id -> MojoResult -> client).
Context (ready_ok : forall h id, client_ok I (notified I h id) (OnHandleReady h id)).
Context (error_ok : forall h id r, client_ok I (notified I h id) (OnHandleError h id r)).

(** A loop in use by its thread, and between calls from outside. *)
Definition in_use (w : world) : Prop := wf I w /\ represents w.

Lemma reaches_in_use w w' : reaches I w w' -> represents w -> in_use w'.
Proof. intros (Hwf & Hst & _) Hr. split; [done|by eapply steps_represents]. Qed.

Lemma new_in_use k u :
  Forall answer_ok k -> 1 + Z.of_nat (length k) < 2 ^ 64 -> in_use (new_run_loop k u).
Proof.
  intros Hk Hlen. split; [|apply new_represents].
  split; simpl; try done.
  - intros id. rewrite lookup_empty. by intros [].
  - intros id. rewrite lookup_empty. by intros [].
Qed.

Lemma first_handler_None hs : first_handler hs = None -> hs = ∅.
Proof.
  unfold first_handler. intros H. apply map_to_list_empty_iff.
  destruct (map_to_list hs) as [|x l]; [done|]. simpl in H.
  destruct (foldr _ None l); [by destruct (x.1 <? _)|done].
Qed.

Lemma first_handler_Some hs id info :
  first_handler hs = Some (id, info) -> hs !! id = Some info.
Proof.
  unfold first_handler. intros H. apply elem_of_map_to_list. revert H.
  generalize (map_to_list hs). intros l. induction l as [|x l IH]; simpl; [done|].
  intros H. apply elem_of_cons. destruct (foldr _ None l) as [y|].
  - destruct (x.1 <? y.1); simplify_eq; auto.
  - simplify_eq. auto.
Qed.

Lemma run_new k fuel c u :
  Forall answer_ok k -> 1 + Z.of_nat (length k) < 2 ^ 64 -> client_ok I I c -> I ∅ u ->
  wlp (run_client OnHandleReady OnHandleError fuel c) (new_run_loop k u) (fun _ w' =>
    represents w' /\ holds I w').
Proof.
  intros Hk Hlen Hc Hu. destruct (new_in_use k u Hk Hlen) as [Hwf Hr].
  eapply wlp_mono; [eapply run_client_runs; [done|done|done|done|]|].
  { unfold waiting. simpl. by rewrite fmap_empty. }
  intros [] w' [Hw' HI]. split; [|done]. by destruct (reaches_in_use _ _ Hw' Hr).
Qed.

(** The world in which the destructor calls a handler. *)
Definition notifying (w : world) (id : Id) (info : HandlerInfo) : world :=
  {| loop := loop (set_handlers (delete id (handlers_ (loop w))) w); current := current w;
     wait_set := wait_set w; kernel := kernel w; user := user w;
     trace := Notified id (hi_handler info) MOJO_SYSTEM_RESULT_ABORTED :: trace w |}.

Lemma notifying_reaches w id info :
  wf I w -> handlers_ (loop w) !! id = Some info -> reaches I w (notifying w id info).
Proof.
  intros [Hc Hk Hi Hws Hfr Ht Hd] Hf. apply reaches_step; [split; try done| |done].
  - simpl. intros i. rewrite lookup_delete_is_Some. intros []. auto.
  - by apply (step_deadline w id info (handler_deadlines_ (loop w))).
Qed.

(** C12: A client that keeps its side of the interface, on a loop whose kernel does
    too, fails none of the loop's assertions, and does nothing undefined itself; what
    it relies on holds at the end; and what happens is what the abstract scheduler
    allows: a handler is notified or removed only while it waits, and never twice; a
    task is run only while it waits, not before its time, and no task due earlier, or
    due at the same time and posted earlier, waits then. The loop's handlers and
    tasks stay those that wait. *)
Theorem run_client_implements_scheduler k fuel c u :
  Forall answer_ok k -> 1 + Z.of_nat (length k) < 2 ^ 64 -> client_ok I I c -> I ∅ u ->
  wlp (run_client OnHandleReady OnHandleError fuel c) (new_run_loop k u) (fun _ w' =>
    I (live (trace w')) (user w') /\
    legal (trace w') /\ hi_handler <$> handlers_ (loop w') = live (trace w') /\
    forall id t, pending (trace w') !! id = Some t <->
      exists x, x ∈ delayed_tasks_ (loop w') /\ dt_id x = id /\ dt_absolute_run_time x = t).
Proof.
  intros Hk Hlen Hc Hu. eapply wlp_mono; [by apply run_new|].
  intros [] w' [Hr HI]. pose proof Hr as []. split; [|done]. by rewrite <- (rep_handlers _ Hr).
Qed.


(** C27: In a run of such a client each task that is run was posted, is due, runs
    only once, and every task posted before that is due earlier, or at the same
    time with a smaller id, has been run before it. *)
Theorem tasks_run_once_in_order k fuel c u w' l id now tr :
  Forall answer_ok k -> 1 + Z.of_nat (length k) < 2 ^ 64 -> client_ok I I c -> I ∅ u ->
  run_client OnHandleReady OnHandleError fuel c (new_run_loop k u) = Ok (tt, w') ->
  trace w' = l ++ Ran id now :: tr ->
  exists t, Posted id t ∈ tr /\ t <= now /\ (forall now', Ran id now' ∉ l ++ tr) /\
    forall id' t', Posted id' t' ∈ tr -> t' < t \/ t' = t /\ id' < id ->
      exists now', Ran id' now' ∈ tr.
Proof.
  intros Hk Hlen Hc Hu Hrun Htr.
  destruct (wlp_result _ _ _ _ _ (run_new k fuel c u Hk Hlen Hc Hu) Hrun) as [[Hl _ _ _ _ _ _] _].
  rewrite Htr in Hl. pose proof (runs_once _ _ _ id Hl (eq_refl id)) as Hno.
  apply legal_allowed in Hl as [(t & Ht & Hnow & Hfirst) Hl]. exists t.
  split; [by apply (pending_posted tr id t)|]. split; [done|].
  split; [intros now'; by apply (Forall_not_elem (runs id))|].
  intros id' t' Hin Hlt.
  destruct (decide (Exists (runs id') tr)) as [Hex|Hnot].
  - apply Exists_exists in Hex as ([] & Hin' & Hr'); simpl in Hr'; try done. subst. eauto.
  - apply not_Exists_Forall in Hnot; [|apply _].
    assert (Hp : pending tr !! id' = Some t') by (by apply pending_posted).
    apply Hfirst in Hp. lia.
Qed.

(** The destructor calls handlers until none waits. *)
Lemma RunLoop_destructor_runs fuel w :
  in_use w -> holds I w ->
  wlp (RunLoop_destructor OnHandleReady OnHandleError fuel) w (fun _ w' =>
    legal (trace w') /\ live (trace w') = ∅ /\ current w' = false /\ I ∅ (user w')).
Proof.
  intros [Hwf Hr] HI. unfold RunLoop_destructor. wlp_step. apply (wlp_assert_current I); [done|]. wlp_step.
  apply (wlp_while (fun _ => keeps I w)); [by apply keeps_refl|]. intros _ w1 Hw1. do 2 wlp_step.
  destruct (first_handler (handlers_ (loop w1))) as [[id info]|] eqn:Hf.
  - apply first_handler_Some in Hf. unfold note. do 5 wlp_step.
    pose proof (notifying_reaches _ _ _ (keeps_wf _ _ _ Hw1) Hf) as Hn.
    apply (wlp_keeps I _ w (notifying w1 id info)); [| |by intros; wlp_step].
    + eapply run_client_runs; [done|done|apply error_ok|apply Hn|].
      eapply (waiting_delete I w1); [exact Hf|done..|apply Hw1].
    + etransitivity; [apply Hw1|exact Hn].
  - apply first_handler_None in Hf. do 2 wlp_step. simpl.
    destruct Hw1 as [Hw1 HI1]. destruct (reaches_in_use _ _ Hw1 Hr) as [_ Hr1].
    unfold holds, waiting in HI1. rewrite Hf, fmap_empty in HI1.
    split; [apply Hr1|]. split; [|done]. rewrite <- (rep_handlers _ Hr1), Hf. apply fmap_empty.
Qed.
(** The destructor of a loop in use tells every handler still waiting that it
    is aborted, the handlers these notifications add included: if it returns, every
    handler ever added has been notified or removed. *)
Theorem RunLoop_destructor_notifies_all fuel w :
  in_use w -> holds I w ->
  wlp (RunLoop_destructor OnHandleReady OnHandleError fuel) w (fun _ w' =>
    legal (trace w') /\ live (trace w') = ∅ /\ current w' = false /\ I ∅ (user w')).
Proof. apply RunLoop_destructor_runs. Qed.
End Run.
