(* ===== verification/RunLoopRuns.v ===== *)
(** Runs of the run loop: that it stops when only tasks are left, and runs that
    show how it treats deadlines, delayed tasks and the wait set. *)
From stdpp Require Import base numbers list option gmap sorting.
From Stdlib Require Import ZArith Lia.
From S2P Require Import Prelude Result RunLoop RunLoopFacts RunLoopSpec.

(** * Only tasks are left *)

Section Tasks.
Context {U : Type}.
Local Abbreviation client := (client U).
Local Abbreviation world := (world U).
Local Abbreviation DelayedTaskInfo := (DelayedTaskInfo U).

(** A loop without handlers whose tasks do nothing to it, at its next iteration. *)
Record tasks_only (w : world) : Prop := {
  to_depth : (0 < depth w)%nat;
  to_quitting : quitting w = false;
  to_handlers : handlers_ (loop w) = ∅;
  to_inert : Forall (fun t => dt_task t = Return) (delayed_tasks_ (loop w));
  to_sorted : Sorted task_before (delayed_tasks_ (loop w));
  to_ids : Forall (fun t => dt_id t < next_id_ (loop w)) (delayed_tasks_ (loop w));
}.

(** The loop after some of its tasks, [ran], have been run at the times [evs] tells. *)
Definition ran_tasks (w : world) (ran : list DelayedTaskInfo) (evs : list event) (w' : world) : Prop :=
  delayed_tasks_ (loop w) = ran ++ delayed_tasks_ (loop w') /\
  trace w' = rev evs ++ trace w /\
  Forall2 (fun t e => exists now, e = Ran (dt_id t) now /\ dt_absolute_run_time t <= now) ran evs /\
  current_run_state_ (loop w') = current_run_state_ (loop w) /\
  handlers_ (loop w') = handlers_ (loop w) /\ next_id_ (loop w') = next_id_ (loop w).

Lemma ran_tasks_trans w w1 w2 ran1 ran2 evs1 evs2 :
  ran_tasks w ran1 evs1 w1 -> ran_tasks w1 ran2 evs2 w2 ->
  ran_tasks w (ran1 ++ ran2) (evs1 ++ evs2) w2.
Proof.
  intros (D1 & T1 & F1 & C1 & H1 & N1) (D2 & T2 & F2 & C2 & H2 & N2).
  split; [by rewrite D1, D2, app_assoc|].
  split; [by rewrite T2, T1, rev_app_distr, app_assoc|].
  split; [by apply Forall2_app|]. repeat split; congruence.
Qed.

Lemma tasks_only_ran w w' ran evs : tasks_only w -> ran_tasks w ran evs w' -> tasks_only w'.
Proof.
  intros [Hd Hq Hh Hi Hs Hids] (D & _ & _ & C & H & N). unfold depth, quitting in *.
  rewrite D in *. apply Forall_app in Hi, Hids.
  split; rewrite ?C, ?H, ?N; try tauto; unfold depth, quitting; rewrite ?C; try done.
  clear -Hs. induction ran as [|x ran IH]; [done|]. inversion Hs; auto.
Qed.

Section Run.
Context (OnHandleReady : handler_ptr -> Id -> client).
Context (OnHandleError : handler_ptr -> Id -> MojoResult -> client).

Lemma run_client_Return fuel : run_client OnHandleReady OnHandleError fuel Return = mret tt.
Proof. by destruct fuel. Qed.

Lemma run_ready_tasks_inert fuel' fuel now w :
  tasks_only w -> (length (delayed_tasks_ (loop w)) < fuel)%nat ->
  wp (run_ready_tasks (run_client OnHandleReady OnHandleError fuel') fuel now
       {| dt_id := next_id_ (loop w); dt_task := Return; dt_absolute_run_time := now |}) w
    (fun r w' => exists ran evs, ran_tasks w ran evs w' /\ kernel w' = kernel w /\
       r = Some (negb (bool_decide (ran = []))) /\
       Forall (fun t => now < dt_absolute_run_time t) (delayed_tasks_ (loop w'))).
Proof.
  intros Hto Hfuel. unfold run_ready_tasks.
  set (i := next_id_ (loop w)).
  enough (H : forall b w1 ran evs, ran_tasks w ran evs w1 -> kernel w1 = kernel w ->
    b = negb (bool_decide (ran = [])) -> (length (delayed_tasks_ (loop w1)) < fuel)%nat ->
    wp (while_ fuel _ b) w1 (fun r w' => exists ran evs, ran_tasks w ran evs w' /\
       kernel w' = kernel w /\ r = Some (negb (bool_decide (ran = []))) /\
       Forall (fun t => now < dt_absolute_run_time t) (delayed_tasks_ (loop w'))))
    by (apply (H false w [] []); done).
  clear Hfuel. induction fuel as [|fuel IH]; intros b w1 ran evs Hran Hk Hb Hlen; [lia|].
  pose proof (tasks_only_ran _ _ _ _ Hto Hran) as [Hd Hq Hh Hi Hs Hids].
  cbn [while_]. wp_step. cbn beta. do 2 wp_step. destruct (delayed_tasks_ (loop w1)) as [|t rest] eqn:Hts.
  { do 2 wp_step. exists ran, evs. rewrite Hb. by rewrite Hts. }
  inversion Hi as [|? ? Ht Hi']; inversion Hids as [|? ? Htid Hids']; subst.
  destruct (DelayedTaskInfo_lt _ t) eqn:Hlt.
  - unfold note. do 5 wp_step. rewrite Ht, run_client_Return. do 2 wp_step.
    unfold run_state. do 2 wp_step. simpl.
    unfold quitting in Hq. destruct (current_run_state_ (loop w1)) as [|rs l] eqn:Hrs;
      [unfold depth in Hd; rewrite Hrs in Hd; simpl in Hd; lia|].
    wp_step. rewrite Hq. wp_step. apply (IH _ _ (ran ++ [t]) (evs ++ [Ran (dt_id t) now]));
      [|done|by destruct ran|simpl in *; lia].
    apply (ran_tasks_trans w w1); [done|]; repeat split; simpl; try done.
    constructor; [|constructor]; exists now; split; [done|].
    unfold DelayedTaskInfo_lt in Hlt; simpl in Hlt;
      destruct (Z.eqb_spec now (dt_absolute_run_time t)); [lia|]; apply Z.gtb_lt in Hlt; lia.
  - do 2 wp_step. exists ran, evs. split; [done|]. split; [done|]. split; [done|]. rewrite Hts.
    assert (Hlater : now < dt_absolute_run_time t).
    { destruct Hran as (_ & _ & _ & _ & _ & Hn). rewrite Hn in Htid.
      unfold DelayedTaskInfo_lt in Hlt. simpl in Hlt. fold i in Htid.
      destruct (Z.eqb_spec now (dt_absolute_run_time t)); [lia|].
      rewrite Z.gtb_ltb in Hlt. apply Z.ltb_ge in Hlt. lia. }
    constructor; [done|]. apply Sorted_StronglySorted in Hs; [|apply _].
    inversion Hs as [|? ? _ Hall]; subst. eapply Forall_impl; [exact Hall|].
    unfold task_before. lia.
Qed.

Lemma DoIteration_tasks_only fuel' fuel idle now k w :
  tasks_only w -> (length (delayed_tasks_ (loop w)) < fuel)%nat -> kernel w = TimeTicks now :: k ->
  wp (DoIteration OnHandleReady OnHandleError (run_client OnHandleReady OnHandleError fuel') fuel idle) w
    (fun continue w' => exists ran evs, ran_tasks w ran evs w' /\ kernel w' = k /\
       continue = negb (bool_decide (ran = [])) /\
       Forall (fun t => now < dt_absolute_run_time t) (delayed_tasks_ (loop w'))).
Proof.
  intros Hto Hfuel Hk. pose proof Hto as [Hd Hq Hh Hi Hs Hids]. unfold DoIteration, run_state.
  do 3 wp_step. unfold depth, quitting in *.
  destruct (current_run_state_ (loop w)) as [|rs l] eqn:Hrs; [simpl in Hd; lia|]. do 2 wp_step.
  apply wp_assert; [by rewrite Hq|]. unfold GetTimeTicksNow. do 3 wp_step. rewrite Hk. do 4 wp_step.
  do 2 wp_step. eapply wp_mono.
  { apply run_ready_tasks_inert; [|done]. split; try done; unfold depth, quitting; simpl; by rewrite Hrs. }
  intros r w1 (ran & evs & Hran & Hk1 & -> & Hlater). do 2 wp_step.
  replace (handlers_ (loop w1)) with (∅ : gmap Id HandlerInfo)
    by (symmetry; destruct Hran as (_ & _ & _ & _ & -> & _); done).
  rewrite bool_decide_true by done. wp_step. by exists ran, evs.
Qed.

Lemma iterations_tasks_only fuel' fuel idle n times k w :
  tasks_only w -> kernel w = (TimeTicks <$> times) ++ k ->
  (length (delayed_tasks_ (loop w)) < length times)%nat ->
  (length (delayed_tasks_ (loop w)) < n)%nat -> (n <= fuel)%nat ->
  wp (while_ n (fun _ : unit =>
        continue ← DoIteration OnHandleReady OnHandleError
          (run_client OnHandleReady OnHandleError fuel') fuel idle;
        mret (if (continue : bool) then inl tt else inr tt)) tt) w
    (fun _ w' => exists ran evs last, ran_tasks w ran evs w' /\ last ∈ times /\
       Forall (fun t => last < dt_absolute_run_time t) (delayed_tasks_ (loop w'))).
Proof.
  revert times w. induction n as [|n IH]; intros times w Hto Hk Htimes Hn Hfuel; [lia|].
  destruct times as [|now times]; [simpl in Htimes; lia|]. cbn [while_]. do 2 wp_step.
  eapply wp_mono; [apply (DoIteration_tasks_only _ _ _ now); [done|lia|exact Hk]|].
  intros continue w1 (ran & evs & Hran & Hk1 & -> & Hlater). wp_step.
  destruct ran as [|t ran]; simpl.
  { wp_step. exists [], evs, now. rewrite elem_of_cons. auto. }
  pose proof Hran as (Hd & _). assert (Hlen := f_equal length Hd). rewrite length_app in Hlen.
  simpl in *. eapply wp_mono; [apply (IH times); [by eapply tasks_only_ran|done|lia..]|].
  intros [] w2 (ran2 & evs2 & last & Hran2 & Hlast & Hl2).
  exists ((t :: ran) ++ ran2), (evs ++ evs2), last. split; [by eapply ran_tasks_trans|].
  rewrite elem_of_cons. auto.
Qed.

(** Without handlers, and with tasks that do not use the loop, [Run] and
    [RunUntilIdle] return: they run the tasks that are due, in the order of the
    queue, until none is due at the last time read, and leave the others queued. *)
Theorem Run_stops_when_no_task_is_due fuel' fuel idle times k w :
  current w = true -> handlers_ (loop w) = ∅ ->
  Forall (fun t => dt_task t = Return) (delayed_tasks_ (loop w)) ->
  represents w -> kernel w = (TimeTicks <$> times) ++ k ->
  (length (delayed_tasks_ (loop w)) < length times)%nat ->
  (length (delayed_tasks_ (loop w)) + 1 < fuel)%nat ->
  exists w' ran evs last,
    RunInternal OnHandleReady OnHandleError (run_client OnHandleReady OnHandleError fuel') fuel idle w
      = Ok (tt, w') /\
    ran_tasks w ran evs w' /\ last ∈ times /\
    Forall (fun t => last < dt_absolute_run_time t) (delayed_tasks_ (loop w')).
Proof.
  intros Hcur Hh Hi [_ _ _ Hs _ _ Hids] Hk Htimes Hfuel.
  enough (H : wp (RunInternal OnHandleReady OnHandleError
      (run_client OnHandleReady OnHandleError fuel') fuel idle) w
    (fun _ w' => exists ran evs last, ran_tasks w ran evs w' /\ last ∈ times /\
       Forall (fun t => last < dt_absolute_run_time t) (delayed_tasks_ (loop w')))).
  { apply wp_run in H as ([] & w' & Hrun & ran & evs & last & H). by exists w', ran, evs, last. }
  unfold RunInternal, assert_current. do 3 wp_step. apply wp_assert; [done|]. do 3 wp_step.
  set (w1 := set_run_states _ w).
  assert (Hto1 : tasks_only w1) by (split; try done; unfold depth; simpl; lia).
  eapply wp_mono with (P := fun _ w' => exists ran evs last, ran_tasks w1 ran evs w' /\
    last ∈ times /\ Forall (fun t => last < dt_absolute_run_time t) (delayed_tasks_ (loop w'))).
  2: { intros [] w2 (ran & evs & last & (D & T & F & C & H & N) & Hlast). wp_step.
       exists ran, evs, last. split; [|done]. simpl in *. repeat split; try done. simpl. by rewrite C. }
  apply (iterations_tasks_only _ _ _ _ _ k); try done. simpl. lia.
Qed.
End Run.
End Tasks.

(** * Sample runs *)

Module Samples.
(** Clients without a state, which rely on nothing. *)
Abbreviation client := (client unit).
Definition nothing : assertion unit := fun _ _ => True.

(** Handlers that do nothing. *)
Definition ready (h : handler_ptr) (id : Id) : client := Return.
Definition failed (h : handler_ptr) (id : Id) (r : MojoResult) : client := Return.

(** A handler on handle 7, two tasks, the one posted first due last, and a run. *)
Definition tasks_and_handler : client :=
  CallAddHandler 1 7 MOJO_HANDLE_SIGNAL_READABLE MOJO_DEADLINE_INDEFINITE (fun _ =>
  CallPostDelayedTask Return 50 (CallPostDelayedTask Return 0 (CallRun false Return))).
Definition tasks_and_handler_kernel : list answer :=
  [WaitSetAdded MOJO_RESULT_OK; TimeTicks 100; TimeTicks 101; TimeTicks 102;
   WaitSetFailed MOJO_SYSTEM_RESULT_DEADLINE_EXCEEDED; TimeTicks 150;
   WaitSetReady [(1, MOJO_RESULT_OK)] 1].
Definition tasks_and_handler_trace : list event :=
  [Notified 1 1 MOJO_RESULT_OK; Ran 2 150; Ran 3 102; Posted 3 101; Posted 2 150; Added 1 1].

(** Two handlers, with the same deadline, and a run. *)
Definition two_deadlines : client :=
  CallAddHandler 1 7 MOJO_HANDLE_SIGNAL_READABLE 10 (fun _ =>
  CallAddHandler 2 8 MOJO_HANDLE_SIGNAL_READABLE 10 (fun _ => CallRun false Return)).
Definition two_deadlines_kernel : list answer :=
  [TimeTicks 100; WaitSetAdded MOJO_RESULT_OK; TimeTicks 100; WaitSetAdded MOJO_RESULT_OK;
   TimeTicks 101; WaitSetFailed MOJO_SYSTEM_RESULT_DEADLINE_EXCEEDED].

(** Tasks only: one due, one not. *)
Definition two_tasks : world unit :=
  match run_client ready failed 5
          (CallPostDelayedTask Return 0 (CallPostDelayedTask Return 50 Return))
          (new_run_loop [TimeTicks 100; TimeTicks 100; TimeTicks 101; TimeTicks 102; TimeTicks 103] tt)
  with Ok (_, w) => w | _ => new_run_loop [] tt end.

(** Evaluating a run: it returns, with these events. *)
Definition run_events (c : client) (k : list answer) : option (list event) :=
  match run_client ready failed 20 c (new_run_loop k tt) with
  | Ok (_, w) => Some (trace w)
  | _ => None
  end.

Lemma tasks_and_handler_runs : exists w',
  run_client ready failed 20 tasks_and_handler (new_run_loop tasks_and_handler_kernel tt) = Ok (tt, w') /\
  trace w' = tasks_and_handler_trace.
Proof.
  destruct (run_client ready failed 20 tasks_and_handler (new_run_loop tasks_and_handler_kernel tt))
    as [[[] w']| | |] eqn:H; [|by vm_compute in H..].
  exists w'. split; [done|].
  assert (He : run_events tasks_and_handler tasks_and_handler_kernel = Some tasks_and_handler_trace)
    by (vm_compute; reflexivity).
  unfold run_events in He. rewrite H in He. by simplify_eq.
Qed.
End Samples.

Import Samples.

Lemma samples_ok : forall h id, client_ok nothing (notified nothing h id) (ready h id).
Proof. done. Qed.
Lemma samples_error_ok : forall h id r, client_ok nothing (notified nothing h id) (failed h id r).
Proof. done. Qed.
Lemma sample_kernel_ok : Forall answer_ok tasks_and_handler_kernel.
Proof. repeat constructor. Qed.
Lemma sample_client_ok : client_ok nothing nothing tasks_and_handler.
Proof. repeat split; done. Qed.

Lemma run_client_implements_scheduler_witness :
  exists w', run_client ready failed 20 tasks_and_handler (new_run_loop tasks_and_handler_kernel tt)
      = Ok (tt, w') /\
    legal (trace w') /\ hi_handler <$> handlers_ (loop w') = live (trace w').
Proof.
  destruct tasks_and_handler_runs as (w' & Hrun & _). exists w'. split; [exact Hrun|].
  pose proof (run_client_implements_scheduler nothing ready failed samples_ok samples_error_ok
    tasks_and_handler_kernel 20 tasks_and_handler tt sample_kernel_ok eq_refl sample_client_ok Logic.I) as H.
  unfold gwlp in H. rewrite Hrun in H. exact (conj (proj1 (proj2 H)) (proj1 (proj2 (proj2 H)))).
Defined.


Lemma tasks_run_once_in_order_witness :
  exists w', run_client ready failed 20 tasks_and_handler (new_run_loop tasks_and_handler_kernel tt)
      = Ok (tt, w') /\ exists now, Ran 3 now ∈ trace w'.
Proof.
  destruct tasks_and_handler_runs as (w' & Hrun & Htr). exists w'. split; [exact Hrun|].
  destruct (tasks_run_once_in_order nothing ready failed samples_ok samples_error_ok
    tasks_and_handler_kernel 20 tasks_and_handler tt w' [Notified 1 1 MOJO_RESULT_OK] 2 150
    (tail (tail (trace w'))) sample_kernel_ok eq_refl sample_client_ok Logic.I Hrun) as (t & Ht & _ & _ & H).
  { by rewrite Htr. }
  rewrite Htr in *. simpl in *. destruct (H 3 101) as [now Hnow].
  - rewrite !elem_of_cons. auto.
  - left. rewrite !elem_of_cons in Ht. destruct Ht as [?|[?|[Ht|[?|Ht]]]]; simplify_eq; [done|].
    by apply elem_of_nil in Ht.
  - exists now. unfold tasks_and_handler_trace. rewrite !elem_of_cons in *. tauto.
Defined.

Lemma RunLoop_destructor_witness :
  exists w', RunLoop_destructor ready failed 5 (new_run_loop [] tt) = Ok (tt, w') /\
    live (trace w') = ∅ /\ current w' = false.
Proof.
  pose proof (RunLoop_destructor_notifies_all nothing ready failed samples_ok samples_error_ok 5
    (new_run_loop [] tt) (new_in_use nothing [] tt (Forall_nil_2 _) eq_refl) Logic.I) as H.
  unfold gwlp in H. destruct (RunLoop_destructor ready failed 5 (new_run_loop [] tt)) as [[[] w']| | |] eqn:Hd;
    [|by vm_compute in Hd..].
  exists w'. exact (conj eq_refl (conj (proj1 (proj2 H)) (proj1 (proj2 (proj2 H))))).
Defined.

Lemma Run_stops_witness :
  exists w', RunInternal ready failed (run_client ready failed 3) 5 true two_tasks = Ok (tt, w') /\
    (length (delayed_tasks_ (loop w')) <= 2)%nat.
Proof.
  assert (Hr : represents two_tasks).
  { apply (steps_represents (new_run_loop
      [TimeTicks 100; TimeTicks 100; TimeTicks 101; TimeTicks 102; TimeTicks 103] tt));
      [|apply new_represents].
    assert (Hwf : wf nothing (new_run_loop
      [TimeTicks 100; TimeTicks 100; TimeTicks 101; TimeTicks 102; TimeTicks 103] tt)).
    { apply new_in_use; [by repeat constructor|done]. }
    pose proof (run_client_runs nothing ready failed samples_ok samples_error_ok 5
      (CallPostDelayedTask Return 0 (CallPostDelayedTask Return 50 Return)) nothing _
      ltac:(repeat split; done) Hwf Logic.I) as H.
    unfold two_tasks. unfold gwlp in H. destruct (run_client _ _ _ _ _) as [[[] w']| | |] eqn:Hw;
      [by destruct H as [(_ & H & _) _]|by vm_compute in Hw..]. }
  destruct (Run_stops_when_no_task_is_due ready failed 3 5 true [101; 102; 103] [] two_tasks)
    as (w' & ran & evs & last & Hrun & (Hd & _) & _); [by vm_compute| | |done|by vm_compute|vm_compute; lia|vm_compute; lia|].
  - vm_compute. reflexivity.
  - vm_compute. by repeat constructor.
  - exists w'. split; [exact Hrun|]. apply (f_equal length) in Hd. rewrite length_app in Hd.
    replace (length (delayed_tasks_ (loop two_tasks))) with 2%nat in Hd by (vm_compute; reflexivity). lia.
Defined.

(** Handlers that time out together are told in the reverse of the order in
    which they were added. *)
Example equal_deadlines_latest_first :
  run_events two_deadlines two_deadlines_kernel =
    Some [Notified 1 1 MOJO_SYSTEM_RESULT_DEADLINE_EXCEEDED;
          Notified 2 2 MOJO_SYSTEM_RESULT_DEADLINE_EXCEEDED; Added 2 2; Added 1 1].
Proof. vm_compute. reflexivity. Qed.

(** Handlers told that their deadline has passed are no longer the loop's, but
    their entries stay in the wait set: later waits still report their handles. *)
Theorem deadline_leaves_wait_set_entries :
  exists w', run_client ready failed 20 two_deadlines (new_run_loop two_deadlines_kernel tt) = Ok (tt, w') /\
    handlers_ (loop w') = ∅ /\ is_Some (wait_set w' !! 1) /\ is_Some (wait_set w' !! 2).
Proof.
  destruct (outcome_returns (run_client ready failed 20 two_deadlines (new_run_loop two_deadlines_kernel tt))
    (fun x => bool_decide (map_to_list (handlers_ (loop x.2)) = []) &&
              bool_decide (is_Some (wait_set x.2 !! 1)) && bool_decide (is_Some (wait_set x.2 !! 2))))
    as ([[] w'] & Hrun & Hw); [vm_compute; reflexivity|].
  apply andb_true_iff in Hw as [Hw H2]. apply andb_true_iff in Hw as [H0 H1].
  exists w'. split; [exact Hrun|]. split; [by apply map_to_list_empty_iff, (bool_decide_eq_true_1 _ H0)|].
  split; by eapply bool_decide_eq_true_1.
Qed.
