(* ===== verification/Waiter.v ===== *)
(** The default waiter of the environment
    (src/cpp/environment/lib/default_async_waiter.cc), a client of the run loop, and the
    class [AsyncWaiter] (src/cpp/environment/async_waiter.h and lib/async_waiter.cc), a
    client of the waiter. *)
From stdpp Require Import base numbers list option gmap.
From Stdlib Require Import ZArith Lia.
From S2P Require Import Prelude Result RunLoop.

(** * The waiter

    A wait id is a pointer to the handler that the waiter has allocated; 0 is the null
    pointer. A callback is a function pointer, its closure a [void*]. *)
Abbreviation MojoAsyncWaitID := nat.
Abbreviation callback := nat.
Abbreviation closure := nat.

Record RunLoopHandlerImpl := {
  id_ : Id;
  callback_ : callback;
  closure_ : closure;
}.

(** What happens to waits, for the record. *)
Inductive wait_event :=
  | Began (wait_id : MojoAsyncWaitID) (f : callback) (c : closure)
  | Cancelled (wait_id : MojoAsyncWaitID)
  | Called (wait_id : MojoAsyncWaitID) (f : callback) (c : closure) (result : MojoResult).

Section Waiter.
Context {S : Type}.

(** Code that uses the waiter, and the loop that it waits in. It has a state of its
    own; [AppCrash] is for what it does that is undefined. *)
Inductive app :=
  | Finish
  | CallAsyncWait (handle signals deadline : Z) (f : callback) (c : closure) (k : MojoAsyncWaitID -> app)
  | CallCancelWait (wait_id : MojoAsyncWaitID) (k : app)
  | CallPostTask (task : app) (delay : Z) (k : app)
  | CallRunLoop (quit_when_idle : bool) (k : app)
  | CallQuitLoop (k : app)
  | AppState (f : S -> S) (k : S -> app)
  | AppCrash.

(** The handlers that are allocated; what has happened, the last event first; the state
    of the code that uses the waiter. *)
Record waiter := {
  impls : gmap MojoAsyncWaitID RunLoopHandlerImpl;
  next_impl : MojoAsyncWaitID;
  wait_events : list wait_event;
  app_state : S;
}.
Definition new_waiter (s : S) : waiter :=
  {| impls := ∅; next_impl := 1; wait_events := []; app_state := s |}.

Definition set_impls (x : gmap MojoAsyncWaitID RunLoopHandlerImpl) (u : waiter) : waiter :=
  {| impls := x; next_impl := next_impl u; wait_events := wait_events u; app_state := app_state u |}.
Definition record (e : wait_event) (u : waiter) : waiter :=
  {| impls := impls u; next_impl := next_impl u; wait_events := e :: wait_events u; app_state := app_state u |}.
Definition set_app_state (s : S) (u : waiter) : waiter :=
  {| impls := impls u; next_impl := next_impl u; wait_events := wait_events u; app_state := s |}.

Local Abbreviation client := (client waiter).

Definition change (f : waiter -> waiter) (k : client) : client := CallState f (fun _ => k).

(** Access to a handler that is not allocated is undefined. *)
Definition with_impl (p : MojoAsyncWaitID) (k : RunLoopHandlerImpl -> client) : client :=
  CallState (fun u => u) (fun u => match impls u !! p with Some i => k i | None => Crash end).

(** [new RunLoopHandlerImpl(callback, closure)] *)
Definition new_impl (f : callback) (c : closure) (k : MojoAsyncWaitID -> client) : client :=
  CallState (fun u =>
    {| impls := <[next_impl u := {| id_ := 0; callback_ := f; closure_ := c |}]> (impls u);
       next_impl := Datatypes.S (next_impl u); wait_events := wait_events u; app_state := app_state u |})
    (fun u => k (next_impl u)).

Definition set_id (p : MojoAsyncWaitID) (id : Id) (k : client) : client :=
  with_impl p (fun i =>
  change (fun u => set_impls (<[p := {| id_ := id; callback_ := callback_ i; closure_ := closure_ i |}]> (impls u)) u) k).

(** The destructor, and the end of the object. *)
Definition delete_impl (p : MojoAsyncWaitID) (k : client) : client :=
  with_impl p (fun i =>
  CallRemoveHandler (id_ i)
  (change (fun u => set_impls (delete p (impls u)) u) k)).

Definition AsyncWait (handle signals deadline : Z) (f : callback) (c : closure)
    (k : MojoAsyncWaitID -> client) : client :=
  new_impl f c (fun run_loop_handler =>
  CallAddHandler run_loop_handler handle signals deadline (fun id =>
  set_id run_loop_handler id
  (change (record (Began run_loop_handler f c))
  (k run_loop_handler)))).

(** [delete] of a null pointer does nothing. *)
Definition CancelWait (wait_id : MojoAsyncWaitID) (k : client) : client :=
  if (wait_id =? 0)%nat then k
  else delete_impl wait_id (change (record (Cancelled wait_id)) k).

Fixpoint app_client (a : app) : client :=
  match a with
  | Finish => Return
  | CallAsyncWait handle signals deadline f c k =>
      AsyncWait handle signals deadline f c (fun wait_id => app_client (k wait_id))
  | CallCancelWait wait_id k => CancelWait wait_id (app_client k)
  | CallPostTask task delay k => CallPostDelayedTask (app_client task) delay (app_client k)
  | CallRunLoop quit_when_idle k => CallRun quit_when_idle (app_client k)
  | CallQuitLoop k => CallQuit (app_client k)
  | AppState f k =>
      CallState (fun u => set_app_state (f (app_state u)) u) (fun u => app_client (k (app_state u)))
  | AppCrash => Crash
  end.

(** What the callbacks do. *)
Context (run_callback : callback -> closure -> MojoResult -> app).

Definition NotifyCallback (p : MojoAsyncWaitID) (result : MojoResult) : client :=
  with_impl p (fun i =>
  let f := callback_ i in
  let c := closure_ i in
  delete_impl p
  (change (record (Called p f c result))
  (app_client (run_callback f c result)))).

Definition OnHandleReady (p : MojoAsyncWaitID) (_ : Id) : client := NotifyCallback p MOJO_RESULT_OK.
Definition OnHandleError (p : MojoAsyncWaitID) (_ : Id) (result : MojoResult) : client :=
  NotifyCallback p result.
End Waiter.
Arguments app : clear implicits.
Arguments waiter : clear implicits.

(** * class AsyncWaiter *)

(** A callback object of the program. *)
Abbreviation Callback := nat.
(** An [AsyncWaiter*]. *)
Abbreviation AsyncWaiter_ptr := nat.

Record AsyncWaiter := {
  wait_id_ : MojoAsyncWaitID;
  complete_ : Callback;
}.

(** What happens to the objects. *)
Inductive waiter_event :=
  | Constructed (p : AsyncWaiter_ptr)
  | Destructed (p : AsyncWaiter_ptr)
  | Completed (p : AsyncWaiter_ptr) (f : Callback) (result : MojoResult).

Record waiters := {
  objects : gmap AsyncWaiter_ptr AsyncWaiter;
  next_object : AsyncWaiter_ptr;
  waiter_events : list waiter_event;
}.
Definition no_waiters : waiters := {| objects := ∅; next_object := 1; waiter_events := [] |}.

Definition set_objects (x : gmap AsyncWaiter_ptr AsyncWaiter) (s : waiters) : waiters :=
  {| objects := x; next_object := next_object s; waiter_events := waiter_events s |}.
Definition record_waiter (e : waiter_event) (s : waiters) : waiters :=
  {| objects := objects s; next_object := next_object s; waiter_events := e :: waiter_events s |}.

(** Code that uses such objects. One that deletes an object that it does not have is
    not considered: it ends there. *)
Inductive program :=
  | Stop
  | NewAsyncWaiter (handle signals : Z) (f : Callback) (k : AsyncWaiter_ptr -> program)
  | DeleteAsyncWaiter (p : AsyncWaiter_ptr) (k : program)
  | PostTask (task : program) (delay : Z) (k : program)
  | RunTheLoop (quit_when_idle : bool) (k : program)
  | QuitTheLoop (k : program).

Abbreviation waiter_app := (app waiters).

Definition app_change (f : waiters -> waiters) (k : waiter_app) : waiter_app := AppState f (fun _ => k).
Definition with_object (p : AsyncWaiter_ptr) (k : AsyncWaiter -> waiter_app) : waiter_app :=
  AppState (fun s => s) (fun s => match objects s !! p with Some x => k x | None => AppCrash end).

(** The only function that is passed to the waiter, [AsyncWaiter::WaitComplete]. *)
Definition WaitComplete : callback := 0%nat.

Definition AsyncWaiter_constructor (handle signals : Z) (f : Callback) (k : AsyncWaiter_ptr -> waiter_app) :
    waiter_app :=
  AppState (fun s => {| objects := <[next_object s := {| wait_id_ := 0; complete_ := f |}]> (objects s);
                        next_object := S (next_object s);
                        waiter_events := Constructed (next_object s) :: waiter_events s |}) (fun s =>
  let this := next_object s in
  CallAsyncWait handle signals MOJO_DEADLINE_INDEFINITE WaitComplete this (fun wait_id =>
  with_object this (fun x =>
  app_change (fun s => set_objects (<[this := {| wait_id_ := wait_id; complete_ := complete_ x |}]> (objects s)) s)
  (k this)))).

Definition AsyncWaiter_destructor (this : AsyncWaiter_ptr) (k : waiter_app) : waiter_app :=
  with_object this (fun x =>
  let finish := app_change (fun s => record_waiter (Destructed this) (set_objects (delete this (objects s)) s)) k in
  if (wait_id_ x =? 0)%nat then finish else CallCancelWait (wait_id_ x) finish).

Fixpoint program_app (c : program) : waiter_app :=
  match c with
  | Stop => Finish
  | NewAsyncWaiter handle signals f k => AsyncWaiter_constructor handle signals f (fun p => program_app (k p))
  | DeleteAsyncWaiter p k =>
      AppState (fun s => s) (fun s =>
      match objects s !! p with
      | Some _ => AsyncWaiter_destructor p (program_app k)
      | None => Finish
      end)
  | PostTask task delay k => CallPostTask (program_app task) delay (program_app k)
  | RunTheLoop quit_when_idle k => CallRunLoop quit_when_idle (program_app k)
  | QuitTheLoop k => CallQuitLoop (program_app k)
  end.

Section Callbacks.
(** What the callbacks of the program do. *)
Context (run : Callback -> MojoResult -> program).

Definition WaitCompleteInternal (this : AsyncWaiter_ptr) (result : MojoResult) : waiter_app :=
  with_object this (fun x =>
  app_change (fun s => record_waiter (Completed this (complete_ x) result)
    (set_objects (<[this := {| wait_id_ := 0; complete_ := complete_ x |}]> (objects s)) s))
  (program_app (run (complete_ x) result))).

Definition run_waiter_callback (f : callback) (c : closure) (result : MojoResult) : waiter_app :=
  if (f =? WaitComplete)%nat then WaitCompleteInternal c result else AppCrash.
End Callbacks.
