(* ===== verification/WaiterFacts.v ===== *)
(** The default waiter keeps the run loop's side of the interface and offers its own: a
    callback is called for a wait that was begun, was not cancelled and has not been
    called. [AsyncWaiter] in turn keeps the waiter's side. *)
From stdpp Require Import base numbers list option gmap.
From Stdlib Require Import ZArith Lia.
From S2P Require Import Prelude Result Validate RunLoop RunLoopFacts RunLoopSpec Waiter.

(** * The contract of a waiter

    Its state is a function of what has happened: the waits outstanding, with what is to
    be called. *)
Abbreviation waits := (gmap MojoAsyncWaitID (callback * closure)).

Fixpoint outstanding (l : list wait_event) : waits :=
  match l with
  | [] => ∅
  | Began w f c :: l => <[w := (f, c)]> (outstanding l)
  | (Cancelled w | Called w _ _ _) :: l => delete w (outstanding l)
  end.

Definition wait_of (e : wait_event) : MojoAsyncWaitID :=
  match e with Began w _ _ | Cancelled w | Called w _ _ _ => w end.

(** What may happen next. *)
Definition may_happen (e : wait_event) (l : list wait_event) : Prop :=
  match e with
  | Began w _ _ => w <> 0%nat /\ Forall (fun e => wait_of e <> w) l
  | Cancelled w => is_Some (outstanding l !! w)
  | Called w f c _ => outstanding l !! w = Some (f, c)
  end.
Fixpoint proper (l : list wait_event) : Prop :=
  match l with
  | [] => True
  | e :: l => may_happen e l /\ proper l
  end.

Section Facts.
Context {S : Type}.
Local Abbreviation app := (app S).
Local Abbreviation waiter := (waiter S).

(** ** Applications that keep to it

    As [client_ok] does for the loop: what the application relies on is a predicate on
    the waits outstanding and on its own state. *)
Definition reliance := waits -> S -> Prop.

Section App.
Context (J : reliance).

Fixpoint app_ok (Q : reliance) (a : app) : Prop :=
  match a with
  | Finish => forall W s, Q W s -> J W s
  | CallAsyncWait handle _ deadline f c k =>
      handle <> MOJO_HANDLE_INVALID /\ 0 <= deadline < 2 ^ 64 /\
      forall w, app_ok (fun W s => exists W0, W = <[w := (f, c)]> W0 /\ W0 !! w = None /\ w <> 0%nat /\ Q W0 s) (k w)
  | CallCancelWait w k =>
      (forall W s, Q W s -> w = 0%nat \/ is_Some (W !! w)) /\
      app_ok (fun W s => exists W0, W = delete w W0 /\ Q W0 s) k
  | CallPostTask task delay k => app_ok J task /\ 0 <= delay <= 2 ^ 62 /\ app_ok Q k
  | CallRunLoop _ k => (forall W s, Q W s -> J W s) /\ app_ok J k
  | CallQuitLoop k => app_ok Q k
  | AppState f k => forall s, app_ok (fun W s' => s' = f s /\ Q W s) (k s)
  | AppCrash => forall W s, ~ Q W s
  end.

(** A callback is called when its wait is no longer outstanding. *)
Definition completed (w : MojoAsyncWaitID) (f : callback) (c : closure) : reliance :=
  fun W s => W !! w = None /\ J (<[w := (f, c)]> W) s.

Lemma app_ok_weaken a : forall P Q, (forall W s, Q W s -> P W s) -> app_ok P a -> app_ok Q a.
Proof.
  induction a as [|h sg d f c k IH|w k IH|t IHt d k IH|idle k IH|k IH|f k IH|]; intros P Q HPQ; simpl.
  - auto.
  - intros (? & ? & H). do 2 (split; [done|]). intros w. eapply IH; [|apply H]. naive_solver.
  - intros [Hw H]. split; [eauto|]. eapply IH; [|exact H]. naive_solver.
  - intros (? & ? & ?). do 2 (split; [done|]). eauto.
  - intros [? ?]. auto.
  - by apply IH.
  - intros H u. eapply IH; [|apply H]. naive_solver.
  - intros H W s HQ. by eapply H, HPQ.
Qed.

(** ** The waiter's state against the contract's and against the loop's *)

Definition wait_of_impl (i : RunLoopHandlerImpl) : callback * closure := (callback_ i, closure_ i).
Definition waits_of (u : waiter) : waits := wait_of_impl <$> impls u.

Record matches (m : gmap Id handler_ptr) (u : waiter) : Prop := {
  mt_handlers : forall id p, m !! id = Some p <-> exists i, impls u !! p = Some i /\ id_ i = id;
  mt_fresh : forall p, is_Some (impls u !! p) -> (0 < p < next_impl u)%nat;
  mt_events : Forall (fun e => (wait_of e < next_impl u)%nat) (wait_events u);
  mt_next : (0 < next_impl u)%nat;
  mt_proper : proper (wait_events u);
  mt_outstanding : outstanding (wait_events u) = waits_of u;
}.

(** What the code of the waiter relies on, when the application relies on [Q]. *)
Definition relies (Q : reliance) : assertion waiter :=
  fun m u => matches m u /\ Q (waits_of u) (app_state u).

Local Abbreviation ok := (client_ok (relies J)).

(** ** The pieces of code of the waiter *)

Lemma change_ok P Q f k :
  (forall m u, P m u -> Q m (f u)) -> ok Q k -> ok P (change f k).
Proof. intros HPQ Hk u. eapply client_ok_weaken; [|exact Hk]. intros m u' [-> HP]. by apply HPQ. Qed.

Lemma with_impl_ok P p k :
  (forall m u, P m u -> is_Some (impls u !! p)) ->
  (forall i, ok (fun m u => impls u !! p = Some i /\ P m u) (k i)) -> ok P (with_impl p k).
Proof.
  intros Hp Hk u. simpl. destruct (impls u !! p) as [i|] eqn:Hi.
  - eapply client_ok_weaken; [|apply (Hk i)]. by intros m u' [-> HP].
  - intros m u' [-> HP]. apply Hp in HP. rewrite Hi in HP. by destruct HP.
Qed.

(** [delete], for a handler that still waits or that no longer does. *)
Lemma delete_impl_ok P Q p k :
  (forall m u, P m u -> exists i, impls u !! p = Some i /\
     Q (delete (id_ i) m) (set_impls (delete p (impls u)) u)) ->
  ok Q k -> ok P (delete_impl p k).
Proof.
  intros HPQ Hk. apply with_impl_ok; [intros m u HP; apply HPQ in HP; naive_solver|].
  intros i. simpl. apply (change_ok _ Q); [|done]. intros m u (m0 & -> & Hi & HP).
  apply HPQ in HP as (i' & Hi' & HQ). by simplify_eq.
Qed.

Lemma waits_of_delete p u : waits_of (set_impls (delete p (impls u)) u) = delete p (waits_of u).
Proof. apply fmap_delete. Qed.

Lemma waits_of_lookup u p i : impls u !! p = Some i -> waits_of u !! p = Some (callback_ i, closure_ i).
Proof. intros Hi. unfold waits_of. by rewrite lookup_fmap, Hi. Qed.

(** A wait ends: the handler goes, and the event says why. *)
Lemma matches_end m u p i e :
  matches m u -> impls u !! p = Some i ->
  wait_of e = p -> may_happen e (wait_events u) ->
  outstanding (e :: wait_events u) = delete p (outstanding (wait_events u)) ->
  matches (delete (id_ i) m) (record e (set_impls (delete p (impls u)) u)).
Proof.
  intros [Hh Hf He Hn Hp Ho] Hi Hw Hmay Hout. split; simpl.
  - intros id q. rewrite lookup_delete_Some, Hh. split.
    + intros (Hne & j & Hj & <-). exists j. split; [|done]. apply lookup_delete_Some. split; [|done].
      intros ->. by simplify_eq.
    + intros (j & [Hne Hj]%lookup_delete_Some & <-). split; [|by eauto]. intros Heq.
      assert (H1 : m !! id_ i = Some p) by (apply Hh; eauto).
      assert (H2 : m !! id_ i = Some q) by (rewrite Heq; apply Hh; eauto). by simplify_eq.
  - intros q [_ ?]%lookup_delete_is_Some. by apply Hf.
  - constructor; [|done]. rewrite Hw. apply Hf. by eauto.
  - done.
  - done.
  - simpl in Hout. rewrite Hout, Ho. symmetry. apply waits_of_delete.
Qed.

(** A wait begins, with a fresh handler that the loop has just been given. *)
Lemma matches_begin m u id f c :
  matches m u -> m !! id = None ->
  let p := next_impl u in
  matches (<[id := p]> m)
    {| impls := <[p := {| id_ := id; callback_ := f; closure_ := c |}]> (impls u); next_impl := Datatypes.S p;
       wait_events := Began p f c :: wait_events u; app_state := app_state u |}.
Proof.
  intros [Hh Hf He Hn Hp Ho] Hid p.
  assert (Hnone : impls u !! p = None).
  { apply eq_None_not_Some. intros Hs%Hf. unfold p in Hs. lia. }
  split; simpl.
  - intros id' q. rewrite lookup_insert_Some, Hh. split.
    + intros [[<- <-]|[Hne (j & Hj & <-)]].
      * eexists. split; [apply lookup_insert_eq|done].
      * exists j. split; [|done]. rewrite lookup_insert_ne; [done|]. intros Heq. congruence.
    + intros (j & [[<- <-]|[Hne Hj]]%lookup_insert_Some & <-); [by left|right]. split; [|eauto].
      simpl. intros ->. assert (m !! id_ j = Some q) by (apply Hh; eauto). congruence.
  - intros q. rewrite lookup_insert_is_Some'. unfold p in *. intros [<-|Hq%Hf]; lia.
  - constructor; [simpl; lia|]. eapply Forall_impl; [exact He|]. simpl. unfold p. lia.
  - lia.
  - split; [|done]. split; [unfold p; lia|]. eapply Forall_impl; [exact He|]. simpl. unfold p. lia.
  - unfold waits_of. simpl. by rewrite fmap_insert, Ho.
Qed.

(** Between [new] and [set_id] the loop has a handler that does not know its id. *)
Definition adding (f : callback) (c : closure) (Q : assertion waiter) (p : MojoAsyncWaitID) : assertion waiter :=
  fun m u => exists u0, Q m u0 /\ p = next_impl u0 /\
    u = {| impls := <[p := {| id_ := 0; callback_ := f; closure_ := c |}]> (impls u0);
           next_impl := Datatypes.S p; wait_events := wait_events u0; app_state := app_state u0 |}.

Lemma AsyncWait_ok Q handle signals deadline f c k :
  handle <> MOJO_HANDLE_INVALID -> 0 <= deadline < 2 ^ 64 ->
  (forall w, ok (relies (fun W s => exists W0, W = <[w := (f, c)]> W0 /\ W0 !! w = None /\ w <> 0%nat /\ Q W0 s)) (k w)) ->
  ok (relies Q) (AsyncWait handle signals deadline f c k).
Proof.
  intros Hh Hd Hk u0. cbn [client_ok]. set (p := next_impl u0). split; [done|]. split; [done|]. intros id.
  apply with_impl_ok.
  { intros m u (m0 & -> & _ & -> & _). simpl. rewrite lookup_insert_eq. by eexists. }
  intros i. apply (change_ok _ (fun m u => exists m0, m = <[id := p]> m0 /\ m0 !! id = None /\ relies Q m0 u0 /\
    u = {| impls := <[p := {| id_ := id; callback_ := f; closure_ := c |}]> (impls u0); next_impl := Datatypes.S p;
           wait_events := wait_events u0; app_state := app_state u0 |})).
  - intros m u (Hi & m0 & -> & Hm0 & -> & HQ). exists m0. split; [done|]. split; [done|]. split; [done|].
    simpl in Hi. rewrite lookup_insert_eq in Hi. simplify_eq. unfold set_impls. simpl. by rewrite insert_insert_eq.
  - eapply change_ok; [|apply (Hk p)]. intros m u (m0 & -> & Hm0 & [Hm HQ] & ->). split.
    + exact (matches_begin m0 u0 id f c Hm Hm0).
    + simpl. exists (waits_of u0). unfold waits_of. simpl. rewrite fmap_insert. split; [done|].
      pose proof (mt_fresh _ _ Hm p) as Hfr. pose proof (mt_next _ _ Hm). split; [|split; [unfold p; lia|done]].
      rewrite lookup_fmap, fmap_None. apply eq_None_not_Some. intros Hs%Hfr. unfold p in Hs. lia.
Qed.

Lemma CancelWait_ok Q w k :
  (forall W s, Q W s -> w = 0%nat \/ is_Some (W !! w)) ->
  ok (relies (fun W s => exists W0, W = delete w W0 /\ Q W0 s)) k ->
  ok (relies Q) (CancelWait w k).
Proof.
  intros Hw Hk. unfold CancelWait. destruct (Nat.eqb_spec w 0) as [->|Hne].
  - eapply client_ok_weaken; [|exact Hk]. intros m u [Hm HQ]. split; [done|]. exists (waits_of u). split; [|done].
    rewrite delete_id; [done|]. unfold waits_of. rewrite lookup_fmap, fmap_None. apply eq_None_not_Some.
    intros Hs%(mt_fresh _ _ Hm). lia.
  - apply (delete_impl_ok _ (fun m u => exists m0 u0 i, relies Q m0 u0 /\ impls u0 !! w = Some i /\
      m = delete (id_ i) m0 /\ u = set_impls (delete w (impls u0)) u0)).
    + intros m u [Hm HQ]. destruct (Hw _ _ HQ) as [|[x Hx]]; [done|]. unfold waits_of in Hx.
      rewrite lookup_fmap, fmap_Some in Hx. destruct Hx as (i & Hi & _). exists i. split; [done|]. exists m, u, i. done.
    + eapply change_ok; [|exact Hk]. intros m u (m0 & u0 & i & [Hm HQ] & Hi & -> & ->). split.
      * apply matches_end; try done. simpl. rewrite (mt_outstanding _ _ Hm). rewrite (waits_of_lookup _ _ _ Hi). by eexists.
      * exists (waits_of u0). split; [apply waits_of_delete|done].
Qed.

(** ** The application, through the waiter *)

Lemma app_client_ok a : forall Q, app_ok Q a -> ok (relies Q) (app_client a).
Proof.
  induction a as [|h sg d f c k IH|w k IH|t IHt d k IH|idle k IH|k IH|f k IH|]; intros Q; cbn [app_ok app_client].
  - intros HQ m u [Hm HQu]. split; [done|]. by apply HQ.
  - intros (Hh & Hd & Hk). apply AsyncWait_ok; [done..|]. intros w. by apply IH.
  - intros [Hw Hk]. apply CancelWait_ok; [done|]. by apply IH.
  - intros (Ht & Hd & Hk). split; [by apply IHt|]. split; [done|]. by apply IH.
  - intros [HQ Hk]. split; [|by apply IH]. intros m u [Hm HQu]. split; [done|]. by apply HQ.
  - by apply IH.
  - intros Hk u. eapply client_ok_weaken; [|apply IH, (Hk (app_state u))].
    intros m u' [-> [Hm HQ]]. split; [|done]. by destruct Hm; split.
  - intros HQ m u [_ HQu]. by eapply HQ.
Qed.

Context (run_callback : callback -> closure -> MojoResult -> app).
Context (callback_ok : forall w f c r, app_ok (completed w f c) (run_callback f c r)).

(** A handler that is notified ends its wait, then calls. *)
Lemma NotifyCallback_ok p id r : ok (notified (relies J) p id) (NotifyCallback run_callback p r).
Proof.
  assert (Hp : forall m u, notified (relies J) p id m u -> exists i, impls u !! p = Some i /\ id_ i = id).
  { intros m u (Hm & Hmt & _). apply (mt_handlers _ _ Hmt). apply lookup_insert_eq. }
  apply with_impl_ok; [intros m u HP; destruct (Hp _ _ HP) as (i & Hi & _); by eexists|]. intros i.
  apply (delete_impl_ok _ (fun m u => exists u0, impls u0 !! p = Some i /\ notified (relies J) p id m u0 /\
    u = set_impls (delete p (impls u0)) u0)).
  { intros m u [Hi HP]. exists i. split; [done|]. exists u. split; [done|]. split; [|done].
    destruct (Hp _ _ HP) as (j & Hj & Hid). simplify_eq. rewrite delete_id; [done|apply HP]. }
  apply (change_ok _ (relies (completed p (callback_ i) (closure_ i)))); [|apply app_client_ok, callback_ok].
  intros m u (u0 & Hi & HP & ->). destruct (Hp _ _ HP) as (j & Hj & Hid). destruct HP as (Hm & Hmt & HJ).
  assert (Hij : j = i) by congruence. subst j.
  pose proof (matches_end _ _ p i (Called p (callback_ i) (closure_ i) r) Hmt Hi eq_refl) as Hend.
  rewrite Hid, delete_insert_id in Hend by done. split.
  - apply Hend; [|done]. simpl. rewrite (mt_outstanding _ _ Hmt). by apply waits_of_lookup.
  - simpl. replace (waits_of (record _ (set_impls (delete p (impls u0)) u0))) with (delete p (waits_of u0))
      by (symmetry; apply waits_of_delete).
    split; [apply lookup_delete_eq|]. by rewrite insert_delete_id by (by apply waits_of_lookup).
Qed.

Lemma new_relies (s : S) : J ∅ s -> relies J ∅ (new_waiter s).
Proof.
  intros HJ. split; [|unfold waits_of; simpl; by rewrite fmap_empty]. split; simpl; try done.
  - intros id p. rewrite !lookup_empty. split; [done|]. by intros (i & Hi & _).
  - intros p. rewrite lookup_empty. by intros [].
  - lia.
Qed.
End App.
End Facts.
