(* ===== verification/WaiterSpec.v ===== *)
(** What the default waiter and [AsyncWaiter] promise, on top of the run loop. *)
From stdpp Require Import base numbers list option gmap.
From Stdlib Require Import ZArith Lia.
From S2P Require Import Prelude Result Validate RunLoop RunLoopFacts RunLoopSpec Waiter WaiterFacts.

(** Running an application in a new loop. *)
Definition run_waiter_app {S} (run_callback : callback -> closure -> MojoResult -> app S) (fuel : nat)
    (a : app S) (s : S) (k : list answer) : outcome (unit * world (waiter S)) :=
  run_client (OnHandleReady run_callback) (OnHandleError run_callback) fuel (app_client a)
    (new_run_loop k (new_waiter s)).

(** The state in which every application ends that keeps to the contract. *)
Definition waiter_state_ok {S} (J : reliance) (w : world (waiter S)) : Prop :=
  let l := wait_events (user w) in
  proper l /\ J (outstanding l) (app_state (user w)) /\
  forall p, is_Some (outstanding l !! p) <-> exists id, hi_handler <$> handlers_ (loop w) !! id = Some p.

Lemma run_waiter_app_ok {S} (J : reliance) (run_callback : callback -> closure -> MojoResult -> app S) fuel a s k :
  Forall answer_ok k -> 1 + Z.of_nat (length k) < 2 ^ 64 ->
  (forall w f c r, app_ok J (completed J w f c) (run_callback f c r)) ->
  app_ok J J a -> J ∅ s ->
  match run_waiter_app run_callback fuel a s k with
  | Ok (_, w') => waiter_state_ok J w'
  | Abort | Fault => False
  | OutOfFuel => True
  end.
Proof.
  intros Hk Hlen Hcb Ha HJ. unfold run_waiter_app.
  assert (H : wlp (run_client (OnHandleReady run_callback) (OnHandleError run_callback) fuel (app_client a))
    (new_run_loop k (new_waiter s)) (fun _ w' => represents w' /\ holds (relies J) w')).
  { apply run_new; [intros; by apply NotifyCallback_ok..|done|done|by apply app_client_ok|by apply new_relies]. }
  unfold gwlp in H. destruct (run_client _ _ _ _ _) as [[[] w']| | |]; try done.
  destruct H as [_ [Hm HJ']]. unfold waiter_state_ok. rewrite (mt_outstanding _ _ Hm).
  split; [apply Hm|]. split; [done|]. intros p. unfold waits_of. rewrite lookup_fmap, fmap_is_Some. split.
  - intros [i Hi]. exists (id_ i). unfold waiting in Hm.
    pose proof (proj2 (mt_handlers _ _ Hm (id_ i) p) (ex_intro _ i (conj Hi eq_refl))) as H.
    by rewrite lookup_fmap in H.
  - intros [id Hid]. destruct (proj1 (mt_handlers _ _ Hm id p)) as (i & Hi & _); [|by eexists].
    unfold waiting. by rewrite lookup_fmap.
Qed.

(** C18: An application that cancels only waits that are outstanding, on the default
    waiter and the run loop: nothing undefined happens, no assertion fails, no handler
    is deleted twice or used when deleted; each callback is called for a wait that was
    begun with that callback and closure, was not cancelled and has not been called; and
    the waits outstanding are those whose handlers wait in the loop. *)
Theorem default_waiter_keeps_contract {S} (J : reliance)
    (run_callback : callback -> closure -> MojoResult -> app S) fuel a s k :
  Forall answer_ok k -> 1 + Z.of_nat (length k) < 2 ^ 64 ->
  (forall w f c r, app_ok J (completed J w f c) (run_callback f c r)) ->
  app_ok J J a -> J ∅ s ->
  match run_waiter_app run_callback fuel a s k with
  | Ok (_, w') => waiter_state_ok J w'
  | Abort | Fault => False
  | OutOfFuel => True
  end.
Proof. apply run_waiter_app_ok. Qed.

(** * What a proper history is *)

Lemma outstanding_began l w f c : proper l -> outstanding l !! w = Some (f, c) ->
  Began w f c ∈ l /\ Forall (fun e => e <> Cancelled w /\ forall f c r, e <> Called w f c r) l.
Proof.
  induction l as [|e l IH]; [done|]. intros [He Hl]. rewrite elem_of_cons, Forall_cons.
  destruct e as [w' f' c'|w'|w' f' c' r]; cbn [outstanding].
  - rewrite lookup_insert_Some. intros [[-> [= -> ->]]|[Hne Ho]]; [|naive_solver].
    split; [by left|]. split; [done|]. destruct He as [_ He]. eapply Forall_impl; [exact He|].
    intros e Hw. split; [by intros ->|]. by intros ? ? ? ->.
  - intros [Hne Ho]%lookup_delete_Some. naive_solver.
  - intros [Hne Ho]%lookup_delete_Some. naive_solver.
Qed.

Definition ends (w : MojoAsyncWaitID) (e : wait_event) : Prop :=
  match e with Cancelled w' | Called w' _ _ _ => w' = w | Began _ _ _ => False end.

Lemma ended_stays l e tr w : proper (l ++ e :: tr) -> wait_of e = w -> outstanding (e :: tr) !! w = None ->
  outstanding (l ++ e :: tr) !! w = None /\ Forall (fun e => ~ ends w e) l.
Proof.
  induction l as [|e' l IH]; [done|]. intros [He' Hl] Hw Hn. destruct (IH Hl Hw Hn) as [Ho Hf].
  cbn [Datatypes.app]. rewrite Forall_cons. destruct e' as [w' f c|w'|w' f c r]; cbn [outstanding ends].
  - destruct He' as [_ He']. rewrite Forall_app, Forall_cons in He'. destruct He' as (_ & Hne & _).
    rewrite lookup_insert_ne by congruence. by split_and!; [|intros []|].
  - assert (w' <> w). { intros ->. cbn in He'. rewrite Ho in He'. by destruct He'. }
    rewrite lookup_delete_ne by done. done.
  - assert (w' <> w). { intros ->. cbn in He'. by rewrite Ho in He'. }
    rewrite lookup_delete_ne by done. done.
Qed.

(** So a wait is ended once: when its callback is called, it was begun with that
    callback and closure before, and it is neither cancelled nor called, earlier or
    later. *)
Theorem proper_calls_once l w f c r tr :
  proper (l ++ Called w f c r :: tr) ->
  Began w f c ∈ tr /\ Forall (fun e => ~ ends w e) (l ++ tr).
Proof.
  intros Hp. assert (Ht : proper (Called w f c r :: tr)).
  { clear -Hp. induction l as [|e l IH]; [done|]. apply IH. apply Hp. }
  destruct Ht as [Hc Ht]. destruct (outstanding_began _ _ _ _ Ht Hc) as [Hb Hf]. split; [done|].
  apply Forall_app. split.
  - eapply (ended_stays l _ tr w Hp eq_refl). cbn. apply lookup_delete_eq.
  - eapply Forall_impl; [exact Hf|]. intros [w' f' c'|w'|w' f' c' r'] [H1 H2]; cbn.
    + tauto.
    + intros ->. by apply H1.
    + intros ->. by apply (H2 f' c' r').
Qed.

(** * class AsyncWaiter *)

(** Whether an object is there, and still waits. *)
Fixpoint alive (l : list waiter_event) : gmap AsyncWaiter_ptr bool :=
  match l with
  | [] => ∅
  | Constructed p :: l => <[p := true]> (alive l)
  | Completed p _ _ :: l => <[p := false]> (alive l)
  | Destructed p :: l => delete p (alive l)
  end.
Definition object_of_event (e : waiter_event) : AsyncWaiter_ptr :=
  match e with Constructed p | Completed p _ _ | Destructed p => p end.

(** The callback of an object runs once at most, and not when the object is gone. *)
Definition waiter_event_ok (e : waiter_event) (l : list waiter_event) : Prop :=
  match e with
  | Constructed p => Forall (fun e => object_of_event e <> p) l
  | Completed p _ _ => alive l !! p = Some true
  | Destructed p => is_Some (alive l !! p)
  end.
Fixpoint waiter_events_ok (l : list waiter_event) : Prop :=
  match l with
  | [] => True
  | e :: l => waiter_event_ok e l /\ waiter_events_ok l
  end.

(** The waits outstanding are those of the objects that wait. *)
Record waiters_inv (W : waits) (s : waiters) : Prop := {
  wi_waits : forall w f p, W !! w = Some (f, p) <->
    f = WaitComplete /\ w <> 0%nat /\ exists x, objects s !! p = Some x /\ wait_id_ x = w;
  wi_next : Forall (fun e => (object_of_event e < next_object s)%nat) (waiter_events s);
  wi_alive : alive (waiter_events s) = (fun x => negb (wait_id_ x =? 0)%nat) <$> objects s;
  wi_events : waiter_events_ok (waiter_events s);
}.

Lemma alive_event l p n : is_Some (alive l !! p) ->
  Forall (fun e => (object_of_event e < n)%nat) l -> (p < n)%nat.
Proof.
  induction l as [|e l IH]; [by intros []|]. rewrite Forall_cons. intros Hal [He Hl].
  destruct (decide (object_of_event e = p)) as [<-|Hne]; [done|]. apply IH; [|done].
  destruct e; cbn [alive object_of_event] in *; rewrite ?lookup_insert_ne, ?lookup_delete_ne in Hal by done; done.
Qed.

Lemma object_lt W s p : waiters_inv W s -> is_Some (objects s !! p) -> (p < next_object s)%nat.
Proof.
  intros [_ Hn Ha _] [x Hx]. eapply alive_event; [|exact Hn]. rewrite Ha, lookup_fmap, Hx. by eexists.
Qed.

Lemma waiters_fresh W s : waiters_inv W s -> objects s !! next_object s = None.
Proof. intros Hinv. apply eq_None_not_Some. intros Hs%(object_lt _ _ _ Hinv). lia. Qed.

Local Abbreviation ok := (app_ok waiters_inv).

Lemma app_change_ok P Q f k : (forall W s, P W s -> Q W (f s)) -> ok Q k -> ok P (app_change f k).
Proof. intros HPQ Hk s. eapply app_ok_weaken; [|exact Hk]. intros W s' [-> HP]. by apply HPQ. Qed.

Lemma with_object_ok P p k :
  (forall W s, P W s -> is_Some (objects s !! p)) ->
  (forall x, ok (fun W s => objects s !! p = Some x /\ P W s) (k x)) -> ok P (with_object p k).
Proof.
  intros Hp Hk s. simpl. destruct (objects s !! p) as [x|] eqn:Hx.
  - eapply app_ok_weaken; [|apply (Hk x)]. by intros W s' [-> HP].
  - intros W s' [-> HP]. apply Hp in HP. rewrite Hx in HP. by destruct HP.
Qed.

(** ** The class and its programs *)

Fixpoint program_ok (c : program) : Prop :=
  match c with
  | Stop => True
  | NewAsyncWaiter handle _ _ k => handle <> MOJO_HANDLE_INVALID /\ forall p, program_ok (k p)
  | DeleteAsyncWaiter _ k | RunTheLoop _ k | QuitTheLoop k => program_ok k
  | PostTask task delay k => program_ok task /\ 0 <= delay <= 2 ^ 62 /\ program_ok k
  end.

(** Between the object's creation and the end of its constructor. *)
Definition constructing (f : Callback) (p : AsyncWaiter_ptr) : reliance := fun W s =>
  exists s0, waiters_inv W s0 /\ p = next_object s0 /\
    s = {| objects := <[p := {| wait_id_ := 0; complete_ := f |}]> (objects s0); next_object := S p;
           waiter_events := Constructed p :: waiter_events s0 |}.

Lemma constructing_done f p w W s :
  constructing f p W s -> W !! w = None -> w <> 0%nat ->
  waiters_inv (<[w := (WaitComplete, p)]> W)
    (set_objects (<[p := {| wait_id_ := w; complete_ := f |}]> (objects s)) s).
Proof.
  intros (s0 & Hinv & -> & ->) Hw Hw0. pose proof (waiters_fresh _ _ Hinv) as Hfr.
  destruct Hinv as [Hwaits Hn Ha He]. set (p := next_object s0) in *. split; simpl; rewrite ?insert_insert_eq.
  - intros w' f' q. rewrite lookup_insert_Some, Hwaits. split.
    + intros [[<- [= <- <-]]|[Hne (-> & ? & x & Hx & Hwx)]].
      * split; [done|]. split; [done|]. eexists. by rewrite lookup_insert_eq.
      * split; [done|]. split; [done|]. exists x. split; [|done]. rewrite lookup_insert_ne; [done|]. congruence.
    + intros (-> & ? & x & [[<- <-]|[Hne Hx]]%lookup_insert_Some & Hwx); [by left; simpl in Hwx; subst|].
      right. split; [|eauto]. intros ->. rewrite (proj2 (Hwaits w' WaitComplete q)) in Hw by eauto. done.
  - constructor; [simpl; lia|]. eapply Forall_impl; [exact Hn|]. simpl. unfold p. lia.
  - rewrite Ha, fmap_insert. simpl. by destruct (Nat.eqb_spec w 0).
  - split; [|done]. eapply Forall_impl; [exact Hn|]. simpl. unfold p. lia.
Qed.

Lemma AsyncWaiter_constructor_ok handle signals f k :
  handle <> MOJO_HANDLE_INVALID -> (forall p, ok waiters_inv (k p)) ->
  ok waiters_inv (AsyncWaiter_constructor handle signals f k).
Proof.
  intros Hh Hk s0. cbn [app_ok]. set (p := next_object s0). split; [done|]. split; [done|]. intros w.
  apply (app_ok_weaken _ _ (fun W s => exists W0, W = <[w := (WaitComplete, p)]> W0 /\ W0 !! w = None /\
    w <> 0%nat /\ constructing f p W0 s)).
  { intros W s (W0 & -> & Hn & Hw & -> & Hinv). exists W0. do 3 (split; [done|]). by exists s0. }
  apply with_object_ok.
  { intros W s (W0 & _ & _ & _ & s1 & _ & _ & ->). simpl. rewrite lookup_insert_eq. by eexists. }
  intros x. eapply app_change_ok; [|apply (Hk p)].
  intros W s (Hx & W0 & -> & Hn & Hw & Hc). assert (Hf : complete_ x = f).
  { destruct Hc as (s1 & _ & _ & ->). simpl in Hx. rewrite lookup_insert_eq in Hx. by simplify_eq. }
  rewrite Hf. by apply constructing_done.
Qed.

(** An object goes, or its wait is over: the wait is no longer outstanding. *)
Lemma waiters_inv_deleted W s p x :
  waiters_inv W s -> objects s !! p = Some x ->
  waiters_inv (delete (wait_id_ x) W) (record_waiter (Destructed p) (set_objects (delete p (objects s)) s)).
Proof.
  intros Hinv Hx. pose proof (object_lt _ _ p Hinv (ex_intro _ x Hx)) as Hlt.
  destruct Hinv as [Hwaits Hn Ha He]. split; simpl.
  - intros w f q. rewrite lookup_delete_Some, Hwaits. split.
    + intros (Hne & -> & ? & y & Hy & <-). split; [done|]. split; [done|]. exists y. split; [|done].
      apply lookup_delete_Some. split; [|done]. intros ->. congruence.
    + intros (-> & Hw & y & [Hne Hy]%lookup_delete_Some & <-). split; [|eauto].
      intros Heq. assert (H1 : W !! wait_id_ y = Some (WaitComplete, q)) by (apply Hwaits; eauto).
      assert (H2 : W !! wait_id_ y = Some (WaitComplete, p)).
      { apply Hwaits. split; [done|]. split; [done|]. eauto. }
      congruence.
  - by constructor.
  - by rewrite Ha, fmap_delete.
  - split; [|done]. rewrite Ha, lookup_fmap, Hx. by eexists.
Qed.

Lemma AsyncWaiter_destructor_ok p k :
  ok waiters_inv k ->
  ok (fun W s => is_Some (objects s !! p) /\ waiters_inv W s) (AsyncWaiter_destructor p k).
Proof.
  intros Hk. apply with_object_ok; [by intros W s []|]. intros x. cbv zeta.
  set (Q := fun W s => exists W0, waiters_inv W0 s /\ objects s !! p = Some x /\ W = delete (wait_id_ x) W0).
  assert (Hfinish : ok Q (app_change (fun s =>
    record_waiter (Destructed p) (set_objects (delete p (objects s)) s)) k)).
  { eapply app_change_ok; [|exact Hk]. intros W s (W0 & Hinv & Hx & ->). by apply waiters_inv_deleted. }
  destruct (Nat.eqb_spec (wait_id_ x) 0) as [H0|Hne].
  - eapply app_ok_weaken; [|exact Hfinish]. intros W s (Hx & _ & Hinv). exists W. split; [done|]. split; [done|].
    rewrite delete_id; [done|]. apply eq_None_not_Some. intros [[f c] Hw%(wi_waits _ _ Hinv)]. by rewrite H0 in Hw; destruct Hw as (_ & [] & _).
  - cbn [app_ok]. split.
    + intros W s (Hx & _ & Hinv). right. exists (WaitComplete, p). apply (wi_waits _ _ Hinv). eauto.
    + eapply app_ok_weaken; [|exact Hfinish]. intros W s (W0 & -> & Hx & _ & Hinv). by exists W0.
Qed.

Lemma program_app_ok c : program_ok c -> ok waiters_inv (program_app c).
Proof.
  induction c as [|h sg f k IH|p k IH|t IHt d k IH|idle k IH|k IH]; cbn [program_ok program_app].
  - by intros _ W s.
  - intros [Hh Hk]. apply AsyncWaiter_constructor_ok; auto.
  - intros Hk s. destruct (objects s !! p) as [x|] eqn:Hx.
    + eapply app_ok_weaken; [|by apply AsyncWaiter_destructor_ok, IH]. intros W s' [-> Hinv]. rewrite Hx. by eauto.
    + by intros W s' [-> Hinv].
  - intros (Ht & Hd & Hk). cbn [app_ok]. auto.
  - intros Hk. cbn [app_ok]. auto.
  - intros Hk. cbn [app_ok]. auto.
Qed.

Lemma no_waiters_inv : waiters_inv ∅ no_waiters.
Proof.
  split; simpl; [|done|by rewrite fmap_empty|done]. intros w f p. rewrite !lookup_empty. split; [done|].
  by intros (_ & _ & x & Hx & _).
Qed.

Section Programs.
Context (run : Callback -> MojoResult -> program).
Context (run_ok : forall f r, program_ok (run f r)).

(** The waiter calls [WaitComplete] with an object that is there and waits. *)
Lemma waiters_inv_completed w f c W s r :
  completed waiters_inv w f c W s ->
  f = WaitComplete /\ exists x, objects s !! c = Some x /\
    waiters_inv W (record_waiter (Completed c (complete_ x) r)
      (set_objects (<[c := {| wait_id_ := 0; complete_ := complete_ x |}]> (objects s)) s)).
Proof.
  intros [Hw Hinv]. pose proof Hinv as [Hwaits Hn Ha He].
  destruct (proj1 (Hwaits w f c) (lookup_insert_eq _ _ _)) as (-> & Hw0 & x & Hx & Hwx).
  pose proof (object_lt _ _ c Hinv (ex_intro _ x Hx)) as Hlt. split; [done|]. exists x. split; [done|].
  split; simpl.
  - intros w' f' q. split.
    + intros Hw'. assert (Hne : w' <> w) by congruence.
      destruct (proj1 (Hwaits w' f' q)) as (-> & ? & y & Hy & <-); [by rewrite lookup_insert_ne by done|].
      split; [done|]. split; [done|]. exists y. split; [|done]. rewrite lookup_insert_ne; [done|]. congruence.
    + intros (-> & ? & y & [[<- <-]|[Hne Hy]]%lookup_insert_Some & Hwy); [done|].
      assert (Hne' : w <> w').
      { intros <-. assert (H1 : <[w := (WaitComplete, c)]> W !! w = Some (WaitComplete, q)) by (apply Hwaits; eauto).
        rewrite lookup_insert_eq in H1. congruence. }
      rewrite <- (lookup_insert_ne W w w' (WaitComplete, c)) by done. apply Hwaits. eauto.
  - by constructor.
  - rewrite Ha, fmap_insert. done.
  - split; [|done]. rewrite Ha, lookup_fmap, Hx. simpl. rewrite Hwx. by destruct (Nat.eqb_spec w 0).
Qed.

Lemma run_waiter_callback_ok w f c r : ok (completed waiters_inv w f c) (run_waiter_callback run f c r).
Proof.
  unfold run_waiter_callback. destruct (Nat.eqb_spec f WaitComplete) as [->|Hne].
  - apply with_object_ok.
    { intros W s H. destruct (waiters_inv_completed _ _ _ _ _ r H) as (_ & x & Hx & _). by eexists. }
    intros x. eapply app_change_ok; [|by apply program_app_ok, run_ok].
    intros W s [Hx H]. destruct (waiters_inv_completed _ _ _ _ _ r H) as (_ & y & Hy & Hinv). by simplify_eq.
  - intros W s H. by destruct (waiters_inv_completed _ _ _ _ _ r H).
Qed.

(** C19: Programs that construct and delete [AsyncWaiter]s, also inside callbacks, over
    the default waiter and the run loop: nothing undefined happens, no object or handler
    is used when it is gone, and no assertion fails; the callback of an object runs once
    at most, and never after its destructor; and the waits outstanding are those of the
    objects that have not completed. *)
Theorem AsyncWaiter_completes_once c fuel k :
  Forall answer_ok k -> 1 + Z.of_nat (length k) < 2 ^ 64 -> program_ok c ->
  match run_waiter_app (run_waiter_callback run) fuel (program_app c) no_waiters k with
  | Ok (_, w') =>
      let s := app_state (user w') in
      waiter_events_ok (waiter_events s) /\
      alive (waiter_events s) = (fun x => negb (wait_id_ x =? 0)%nat) <$> objects s /\
      forall w p, outstanding (wait_events (user w')) !! w = Some (WaitComplete, p) <->
        w <> 0%nat /\ exists x, objects s !! p = Some x /\ wait_id_ x = w
  | Abort | Fault => False
  | OutOfFuel => True
  end.
Proof.
  intros Hk Hlen Hc. pose proof (run_waiter_app_ok waiters_inv (run_waiter_callback run) fuel (program_app c)
    no_waiters k Hk Hlen run_waiter_callback_ok (program_app_ok _ Hc) no_waiters_inv) as H.
  destruct (run_waiter_app _ _ _ _ _) as [[_ w']| | |]; try done.
  destruct H as (_ & [Hw _ Ha He] & _). split; [done|]. split; [done|]. intros w p. rewrite Hw. tauto.
Qed.
End Programs.

(** * Samples *)

Module Samples.
(** A program that waits for two handles, runs the loop, and deletes the object whose
    callback has run; the callback waits again, and deletes that wait. *)
Definition two_waits : program :=
  NewAsyncWaiter 7 MOJO_HANDLE_SIGNAL_READABLE 1 (fun p =>
  NewAsyncWaiter 8 MOJO_HANDLE_SIGNAL_READABLE 2 (fun q =>
  RunTheLoop true (DeleteAsyncWaiter p (DeleteAsyncWaiter q Stop)))).
Definition wait_again (f : Callback) (r : MojoResult) : program :=
  NewAsyncWaiter 7 MOJO_HANDLE_SIGNAL_READABLE 3 (fun p => DeleteAsyncWaiter p Stop).
(** The first handle is ready. *)
Definition two_waits_kernel : list answer :=
  [WaitSetAdded MOJO_RESULT_OK; WaitSetAdded MOJO_RESULT_OK; TimeTicks 100;
   WaitSetReady [(1, MOJO_RESULT_OK)] 1; WaitSetAdded MOJO_RESULT_OK;
   TimeTicks 101; WaitSetFailed MOJO_SYSTEM_RESULT_DEADLINE_EXCEEDED].

Lemma two_waits_ok : program_ok two_waits.
Proof. repeat split; done. Qed.
Lemma wait_again_ok f r : program_ok (wait_again f r).
Proof. repeat split; done. Qed.
Lemma two_waits_kernel_ok : Forall answer_ok two_waits_kernel.
Proof. repeat constructor. Qed.

Definition two_waits_run : outcome (unit * world (waiter waiters)) :=
  run_waiter_app (run_waiter_callback wait_again) 20 (program_app two_waits) no_waiters two_waits_kernel.
Definition two_waits_events : option (list wait_event * list waiter_event) :=
  match two_waits_run with
  | Ok (_, w) => Some (wait_events (user w), waiter_events (app_state (user w)))
  | _ => None
  end.

Example two_waits_happens : two_waits_events =
  Some ([Cancelled 2; Cancelled 3; Began 3 0 3; Called 1 0 1 MOJO_RESULT_OK; Began 2 0 2; Began 1 0 1],
        [Destructed 2; Destructed 1; Destructed 3; Constructed 3; Completed 1 1 MOJO_RESULT_OK; Constructed 2; Constructed 1]).
Proof. vm_compute. reflexivity. Qed.
End Samples.
Import Samples.

Lemma AsyncWaiter_completes_once_witness :
  exists w', two_waits_run = Ok (tt, w') /\ waiter_events_ok (waiter_events (app_state (user w'))).
Proof.
  pose proof (AsyncWaiter_completes_once wait_again wait_again_ok two_waits 20 two_waits_kernel
    two_waits_kernel_ok eq_refl two_waits_ok) as H.
  unfold two_waits_run. destruct (run_waiter_app _ _ _ _ _) as [[[] w']| | |] eqn:Hr; [|by vm_compute in Hr..].
  exists w'. exact (conj eq_refl (proj1 H)).
Defined.

Lemma default_waiter_keeps_contract_witness :
  exists w', two_waits_run = Ok (tt, w') /\ proper (wait_events (user w')).
Proof.
  pose proof (default_waiter_keeps_contract waiters_inv (run_waiter_callback wait_again) 20 (program_app two_waits)
    no_waiters two_waits_kernel two_waits_kernel_ok eq_refl (run_waiter_callback_ok wait_again wait_again_ok)
    (program_app_ok two_waits two_waits_ok) no_waiters_inv) as H.
  unfold two_waits_run. destruct (run_waiter_app _ _ _ _ _) as [[[] w']| | |] eqn:Hr; [|by vm_compute in Hr..].
  exists w'. exact (conj eq_refl (proj1 H)).
Defined.

Lemma proper_calls_once_witness :
  Began 1 0 1 ∈ [Began 2 0 2; Began 1 0 1] /\
  Forall (fun e => ~ ends 1 e) ([Cancelled 2] ++ [Began 2 0 2; Began 1 0 1]).
Proof. apply (proper_calls_once [Cancelled 2] 1 0 1 MOJO_RESULT_OK). cbn. repeat constructor; done. Defined.
