(* ===== verification/Environment.v ===== *)
(** The environment of a program: the defaults of src/cpp/environment/lib/environment.cc,
    the default logger (default_logger.cc), and the log macros and their [LogMessage]
    (src/cpp/environment/logging.h and lib/logging.cc). *)
From stdpp Require Import base numbers list option strings gmap.
From Stdlib Require Import ZArith Lia Ascii.
From S2P Require Import Prelude Result RunLoop RunLoopFacts RunLoopSpec.

(** c/include/mojo/environment/logger.h *)
Definition MOJO_LOG_LEVEL_VERBOSE : Z := -1.
Definition MOJO_LOG_LEVEL_INFO : Z := 0.
Definition MOJO_LOG_LEVEL_WARNING : Z := 1.
Definition MOJO_LOG_LEVEL_ERROR : Z := 2.
Definition MOJO_LOG_LEVEL_FATAL : Z := 3.

(** The logger and the waiter that the library provides, or another, that the embedder
    provides. *)
Inductive provided := Default | Custom (n : nat).

Record line := {
  line_level : string;
  line_source : option (string * Z);
  line_message : string;
}.

(** The globals, and what has been printed, the last line first. *)
Record environment := {
  g_default_async_waiter : provided;
  g_default_logger : provided;
  g_minimum_log_level : Z;
  stderr : list line;
}.
Definition initial_environment : environment :=
  {| g_default_async_waiter := Default; g_default_logger := Default;
     g_minimum_log_level := MOJO_LOG_LEVEL_INFO; stderr := [] |}.

Abbreviation envM := (M environment).

(** * environment.cc *)

Definition GetDefaultAsyncWaiter : envM provided := e ← get; mret (g_default_async_waiter e).
Definition SetDefaultAsyncWaiter (async_waiter : option provided) : envM unit := modify (fun e =>
  {| g_default_async_waiter := default Default async_waiter; g_default_logger := g_default_logger e;
     g_minimum_log_level := g_minimum_log_level e; stderr := stderr e |}).
Definition GetDefaultLogger : envM provided := e ← get; mret (g_default_logger e).
Definition SetDefaultLogger (logger : option provided) : envM unit := modify (fun e =>
  {| g_default_async_waiter := g_default_async_waiter e; g_default_logger := default Default logger;
     g_minimum_log_level := g_minimum_log_level e; stderr := stderr e |}).

(** The thread's loop, if there is one. *)
Definition InstantiateDefaultRunLoop {U} (current_loop : option (world U)) (k : list answer) (u : U) :
    outcome (world U) :=
  match current_loop with
  | Some _ => Abort
  | None => Ok (new_run_loop k u)
  end.

Definition DestroyDefaultRunLoop {U} (OnHandleReady : handler_ptr -> Id -> client U)
    (OnHandleError : handler_ptr -> Id -> MojoResult -> client U) (fuel : nat) : M (world U) unit :=
  assert_current;;
  RunLoop_destructor OnHandleReady OnHandleError fuel;;
  w ← get;
  assert_ (negb (current w)).

(** * default_logger.cc *)

Definition GetLogLevelString (log_level : Z) : string :=
  if log_level <=? MOJO_LOG_LEVEL_VERBOSE - 3 then "VERBOSE4+"
  else if log_level =? MOJO_LOG_LEVEL_VERBOSE - 2 then "VERBOSE3"
  else if log_level =? MOJO_LOG_LEVEL_VERBOSE - 1 then "VERBOSE2"
  else if log_level =? MOJO_LOG_LEVEL_VERBOSE then "VERBOSE1"
  else if log_level =? MOJO_LOG_LEVEL_INFO then "INFO"
  else if log_level =? MOJO_LOG_LEVEL_WARNING then "WARNING"
  else if log_level =? MOJO_LOG_LEVEL_ERROR then "ERROR"
  else "FATAL".

Definition print (l : line) : envM unit := modify (fun e =>
  {| g_default_async_waiter := g_default_async_waiter e; g_default_logger := g_default_logger e;
     g_minimum_log_level := g_minimum_log_level e; stderr := l :: stderr e |}).

Definition default_LogMessage (log_level : Z) (source_file : option string) (source_line : Z)
    (message : string) : envM unit :=
  e ← get;
  if log_level <? g_minimum_log_level e then mret tt
  else
    print {| line_level := GetLogLevelString log_level;
             line_source := (fun f => (f, source_line)) <$> source_file;
             line_message := message |};;
    if log_level >=? MOJO_LOG_LEVEL_FATAL then lift Abort else mret tt.

Lemma default_LogMessage_eq log_level source_file source_line message e :
  default_LogMessage log_level source_file source_line message e =
    if log_level <? g_minimum_log_level e then Ok (tt, e)
    else if log_level >=? MOJO_LOG_LEVEL_FATAL then Abort
    else print {| line_level := GetLogLevelString log_level;
                  line_source := (fun f => (f, source_line)) <$> source_file; line_message := message |} e.
Proof.
  unfold default_LogMessage, mbind, M_bind, get, print, modify. destruct (log_level <? _); [done|].
  by destruct (log_level >=? _).
Qed.

Definition default_GetMinimumLogLevel : envM Z := e ← get; mret (g_minimum_log_level e).
Definition default_SetMinimumLogLevel (minimum_log_level : Z) : envM unit := modify (fun e =>
  {| g_default_async_waiter := g_default_async_waiter e; g_default_logger := g_default_logger e;
     g_minimum_log_level := Z.min minimum_log_level MOJO_LOG_LEVEL_FATAL; stderr := stderr e |}).

(** * logging.cc and logging.h *)

(** The name after the last separator: [rv] is where it starts, as far as [s] is read. *)
Fixpoint filename_from (rv s : string) : string :=
  match s with
  | EmptyString => rv
  | String c s' =>
      filename_from (if (Ascii.eqb c "/" || Ascii.eqb c "\")%char then s' else rv) s'
  end.
Definition GetFilename (s : string) : string := filename_from s s.

Section Macros.
(** A logger that the embedder provides. *)
Context (custom_LogMessage : nat -> Z -> option string -> Z -> string -> envM unit)
  (custom_GetMinimumLogLevel : nat -> envM Z).

Definition logger_LogMessage (l : provided) : Z -> option string -> Z -> string -> envM unit :=
  match l with Default => default_LogMessage | Custom n => custom_LogMessage n end.
Definition logger_GetMinimumLogLevel (l : provided) : envM Z :=
  match l with Default => default_GetMinimumLogLevel | Custom n => custom_GetMinimumLogLevel n end.

(** The message object is destroyed at the end of the statement: its destructor logs what
    has been streamed into it. *)
Definition LogMessage (log_level : Z) (file : string) (line : Z) (streamed : string) : envM unit :=
  l ← GetDefaultLogger;
  logger_LogMessage l log_level (Some (GetFilename file)) (wrap32 line) streamed.

Definition MOJO_LAZY_LOG_STREAM (level : Z) (condition : bool) (file : string) (line : Z) (streamed : string) :
    envM unit :=
  if negb condition then mret tt else LogMessage level file line streamed.

Definition MOJO_SHOULD_LOG (level : Z) : envM bool :=
  l ← GetDefaultLogger;
  min ← logger_GetMinimumLogLevel l;
  mret (level >=? min).

Definition MOJO_LOG (level : Z) (file : string) (line : Z) (streamed : string) : envM unit :=
  b ← MOJO_SHOULD_LOG level; MOJO_LAZY_LOG_STREAM level b file line streamed.

Definition MOJO_LOG_IF (level : Z) (condition : bool) (file : string) (line : Z) (streamed : string) : envM unit :=
  b ← MOJO_SHOULD_LOG level; MOJO_LAZY_LOG_STREAM level (b && condition) file line streamed.

(** [text] is the text of the condition. *)
Definition MOJO_CHECK (condition : bool) (text file : string) (line : Z) (streamed : string) : envM unit :=
  MOJO_LAZY_LOG_STREAM MOJO_LOG_LEVEL_FATAL (negb condition) file line
    ("Check failed: " ++ text ++ ". " ++ streamed)%string.

(** Without the checks of a debug build the condition is compiled and not evaluated. *)
Definition MOJO_DCHECK (debug condition : bool) (text file : string) (line : Z) (streamed : string) : envM unit :=
  if debug then MOJO_CHECK condition text file line streamed
  else MOJO_LAZY_LOG_STREAM MOJO_LOG_LEVEL_FATAL (if false then negb condition else false) file line streamed.

(** * Properties *)

(** The globals as the functions of the library leave them. *)
Inductive environment_reachable : environment -> Prop :=
  | env_initial : environment_reachable initial_environment
  | env_set_minimum e x e' : environment_reachable e ->
      default_SetMinimumLogLevel x e = Ok (tt, e') -> environment_reachable e'
  | env_set_logger e x e' : environment_reachable e -> SetDefaultLogger x e = Ok (tt, e') -> environment_reachable e'
  | env_set_waiter e x e' : environment_reachable e -> SetDefaultAsyncWaiter x e = Ok (tt, e') -> environment_reachable e'
  | env_log e level file line streamed e' : environment_reachable e ->
      default_LogMessage level file line streamed e = Ok (tt, e') -> environment_reachable e'.

Lemma minimum_at_most_fatal e : environment_reachable e -> g_minimum_log_level e <= MOJO_LOG_LEVEL_FATAL.
Proof.
  induction 1 as [|e x e' _ IH H|e x e' _ IH H|e x e' _ IH H|e level file line streamed e' _ IH H].
  - done.
  - injection H as H. rewrite <- H. simpl. unfold MOJO_LOG_LEVEL_FATAL. lia.
  - injection H as H. by rewrite <- H.
  - injection H as H. by rewrite <- H.
  - rewrite default_LogMessage_eq in H. destruct (level <? g_minimum_log_level e).
    + injection H as H. by rewrite <- H.
    + destruct (level >=? MOJO_LOG_LEVEL_FATAL); [done|]. injection H as H. by rewrite <- H.
Qed.

(** With the default logger, whatever its minimum level has been set to, a check that
    fails prints its text and ends the program, and one that holds does nothing; a
    [MOJO_DCHECK] is such a check in a debug build and nothing in others; and a message of
    a level below [FATAL] never ends the program. That is what [MOJO_CHECK] and
    [MOJO_DCHECK] are taken to do elsewhere in this development. *)
Theorem failed_checks_abort e debug condition level text file line streamed :
  environment_reachable e -> g_default_logger e = Default ->
  MOJO_CHECK condition text file line streamed e = (if condition then Ok (tt, e) else Abort) /\
  MOJO_DCHECK debug condition text file line streamed e = (if debug && negb condition then Abort else Ok (tt, e)) /\
  (level < MOJO_LOG_LEVEL_FATAL -> exists e', MOJO_LOG level file line streamed e = Ok (tt, e') /\
     stderr e' = if level >=? g_minimum_log_level e
                 then {| line_level := GetLogLevelString level; line_source := Some (GetFilename file, wrap32 line);
                         line_message := streamed |} :: stderr e
                 else stderr e).
Proof.
  intros Hr Hd. pose proof (minimum_at_most_fatal _ Hr) as Hmin.
  assert (Hlog : forall l t, LogMessage l file line t e = default_LogMessage l (Some (GetFilename file)) (wrap32 line) t e).
  { intros l t. unfold LogMessage. rewrite (run_bind _ _ _ _ _ (eq_refl (GetDefaultLogger e))). cbn beta. by rewrite Hd. }
  assert (Hcheck : forall c t s, MOJO_CHECK c t file line s e = (if c then Ok (tt, e) else Abort)).
  { intros [] t s; [done|]. unfold MOJO_CHECK, MOJO_LAZY_LOG_STREAM. cbn [negb]. rewrite Hlog, default_LogMessage_eq.
    destruct (Z.ltb_spec MOJO_LOG_LEVEL_FATAL (g_minimum_log_level e)); [lia|done]. }
  split; [apply Hcheck|]. split.
  { destruct debug; simpl; [|done]. rewrite Hcheck. by destruct condition. }
  intros Hl. assert (Hshould : MOJO_SHOULD_LOG level e = Ok (level >=? g_minimum_log_level e, e)).
  { unfold MOJO_SHOULD_LOG. rewrite (run_bind _ _ _ _ _ (eq_refl (GetDefaultLogger e))). cbn beta. by rewrite Hd. }
  unfold MOJO_LOG. rewrite (run_bind _ _ _ _ _ Hshould). unfold MOJO_LAZY_LOG_STREAM.
  rewrite Z.geb_leb. destruct (Z.leb_spec (g_minimum_log_level e) level) as [Hge|Hlt]; cbn [negb]; [|by exists e].
  rewrite Hlog, default_LogMessage_eq. destruct (Z.ltb_spec level (g_minimum_log_level e)); [lia|].
  rewrite Z.geb_leb. destruct (Z.leb_spec MOJO_LOG_LEVEL_FATAL level); [lia|]. by eexists.
Qed.
End Macros.

(** No separator in a string. *)
Fixpoint no_separator (s : string) : bool :=
  match s with
  | EmptyString => true
  | String c s => negb ((Ascii.eqb c "/" || Ascii.eqb c "\")%char) && no_separator s
  end.

(** The file's name without its directories: what follows the last separator, if there is
    one. *)
Theorem GetFilename_spec s :
  no_separator (GetFilename s) = true /\
  (GetFilename s = s \/ exists dirs c, s = (dirs ++ String c (GetFilename s))%string /\
     (c = "/" \/ c = "\")%char).
Proof.
  unfold GetFilename.
  assert (H : forall s rv, (no_separator s = true /\ filename_from rv s = rv) \/
    (no_separator (filename_from rv s) = true /\ exists dirs c, s = (dirs ++ String c (filename_from rv s))%string /\
     (c = "/" \/ c = "\")%char)).
  { clear s. intros s. induction s as [|c s IH]; intros rv; [by left|].
    cbn [filename_from no_separator]. destruct ((Ascii.eqb c "/" || Ascii.eqb c "\")%char) eqn:Hc.
    - right. destruct (IH s) as [[Hn ->]|[Hn (dirs & c' & Hs & Hc')]].
      + split; [done|]. exists "", c. split; [done|]. apply orb_true_iff in Hc.
        destruct Hc as [Hc|Hc]; apply Ascii.eqb_eq in Hc; auto.
      + split; [done|]. exists (String c dirs), c'. split; [|done]. by rewrite Hs at 1.
    - destruct (IH rv) as [[Hn Hf]|[Hn (dirs & c' & Hs & Hc')]].
      + by left.
      + right. split; [done|]. exists (String c dirs), c'. split; [|done]. by rewrite Hs at 1. }
  destruct (H s s) as [[Hn ->]|[Hn Hex]]; auto.
Qed.

(** Destroying a loop in use fails no assertion. *)
Theorem DestroyDefaultRunLoop_ok {U} (I : assertion U) (OnHandleReady : handler_ptr -> Id -> client U)
    (OnHandleError : handler_ptr -> Id -> MojoResult -> client U) fuel w :
  (forall h id, client_ok I (notified I h id) (OnHandleReady h id)) ->
  (forall h id r, client_ok I (notified I h id) (OnHandleError h id r)) ->
  in_use I w -> holds I w ->
  wlp (DestroyDefaultRunLoop OnHandleReady OnHandleError fuel) w (fun _ w' =>
    live (trace w') = ∅ /\ I ∅ (user w')).
Proof.
  intros Hready Herror Hw HI. unfold DestroyDefaultRunLoop. wlp_step.
  apply (wlp_assert_current I); [apply Hw|]. wlp_step.
  eapply wlp_mono; [by eapply RunLoop_destructor_runs|].
  intros _ w' (_ & Hl & Hc & HI'). do 2 wlp_step. apply wlp_assert; [by rewrite Hc|done].
Qed.

Lemma failed_checks_abort_witness :
  MOJO_CHECK (fun _ _ _ _ _ => mret tt) false "a == b" "src/x.cc" 12 "" initial_environment = Abort.
Proof.
  exact (proj1 (failed_checks_abort (fun _ _ _ _ _ => mret tt) (fun _ => mret 0) initial_environment true false 0
    "a == b" "src/x.cc" 12 "" env_initial eq_refl)).
Defined.
