(* ===== verification/Router.v ===== *)
(** Both ends of a message pipe: the connector that reads and writes it
    (src/cpp/bindings/lib/connector.h and connector.cc, with [ReadMessage] and
    [ReadAndDispatchMessage] of message.cc) and the router that pairs requests with
    their responses (router.h and router.cc). *)
From stdpp Require Import base numbers list option gmap.
From Stdlib Require Import ZArith Lia.
From S2P Require Import Prelude Result CMem Buffer Descriptor Validate Message Serialization.

(** * Application code

    A message and the memory of its data. *)
Record message := {
  message_mem : mem;
  message_data : Serialization.Message;
}.

(** What the application does when it is called, by the router or from outside: a
    sequence of calls, each of which may depend on the results of the ones before,
    and a last result. [Request] is what a proxy does to send a request that
    expects a response: it makes a responder, and deletes it if the request is not
    accepted. [Respond] is what running the callback of a request does: it sends the
    response and deletes the thunk; [DeleteThunk] drops the callback. [NestedLoop]
    runs the application's message loop for a while. *)
Abbreviation responder := nat.
Abbreviation thunk := nat.

Inductive app :=
  | Done (ok : bool)
  | Send (m : message) (k : bool -> app)
  | Request (m : message) (k : bool -> app)
  | CallCloseMessagePipe (k : app)
  | CallPassMessagePipe (k : app)
  | CallWaitForIncomingMessage (deadline : Z) (k : bool -> app)
  | CallEncounteredError (k : bool -> app)
  | SetIncomingReceiver (is_set : bool) (k : app)
  | Destroy (k : app)
  | Respond (t : thunk) (m : message) (k : bool -> app)
  | IsValid (t : thunk) (k : bool -> app)
  | DeleteThunk (t : thunk) (k : app)
  | NestedLoop (k : app).

(** * State *)

(** [class Connector]. A scoped handle is its value; [destroyed_flag_] points to a
    local variable of an active [ReadSingleMessage]. *)
Record Connector := {
  message_pipe_ : Z;
  async_wait_id_ : Z;
  error_ : bool;
  drop_writes_ : bool;
  enforce_errors_from_incoming_receiver_ : bool;
  destroyed_flag_ : option nat;
}.

(** [class Router]. *)
Record Router := {
  connector_ : Connector;
  incoming_receiver_ : bool;
  responders_ : gmap Z responder;
  next_request_id_ : Z;
  testing_mode_ : bool;
}.

(** What the system answers, in the order it is asked: how a write, a wait and the
    query of the next message went, whether the nested loop was told that the pipe
    is ready. *)
Inductive answer :=
  | Written (result : MojoResult)
  | Waited (result : MojoResult)
  | NoMessage (result : MojoResult)
  | MessageThere (m : message) (result : MojoResult)
  | Signalled (result : MojoResult)
  | NotSignalled.

(** What happens, for the record. *)
Inductive event :=
  | Requested (request_id : Z) (r : responder)
  | Refused (request_id : Z)
  | Responded (request_id : Z) (r : responder)
  | Delivered (m : message)
  | PipeClosed
  | ErrorNotified.

(** The router, until it is deleted; what its weak references see; the local
    variables [was_destroyed_during_dispatch] of the active reads; the waits that
    the waiter has; the objects that are allocated: thunks, with their
    [accept_was_invoked_], and responders; the answers to come; the events so far,
    the last one first. *)
Record world := {
  router : option Router;
  weak_self_ : bool;
  destroyed_flags : list bool;
  waits : gset Z;
  next_wait : Z;
  thunks : gmap thunk bool;
  next_thunk : thunk;
  responders_alive : gset responder;
  next_responder : responder;
  system : list answer;
  trace : list event;
}.

Definition set_router (x : option Router) (w : world) : world :=
  {| router := x; weak_self_ := weak_self_ w; destroyed_flags := destroyed_flags w; waits := waits w;
     next_wait := next_wait w; thunks := thunks w; next_thunk := next_thunk w;
     responders_alive := responders_alive w; next_responder := next_responder w;
     system := system w; trace := trace w |}.
Definition set_weak_self (x : bool) (w : world) : world :=
  {| router := router w; weak_self_ := x; destroyed_flags := destroyed_flags w; waits := waits w;
     next_wait := next_wait w; thunks := thunks w; next_thunk := next_thunk w;
     responders_alive := responders_alive w; next_responder := next_responder w;
     system := system w; trace := trace w |}.
Definition set_destroyed_flags (x : list bool) (w : world) : world :=
  {| router := router w; weak_self_ := weak_self_ w; destroyed_flags := x; waits := waits w;
     next_wait := next_wait w; thunks := thunks w; next_thunk := next_thunk w;
     responders_alive := responders_alive w; next_responder := next_responder w;
     system := system w; trace := trace w |}.
Definition set_waits (x : gset Z) (n : Z) (w : world) : world :=
  {| router := router w; weak_self_ := weak_self_ w; destroyed_flags := destroyed_flags w; waits := x;
     next_wait := n; thunks := thunks w; next_thunk := next_thunk w;
     responders_alive := responders_alive w; next_responder := next_responder w;
     system := system w; trace := trace w |}.
Definition set_thunks (x : gmap thunk bool) (n : thunk) (w : world) : world :=
  {| router := router w; weak_self_ := weak_self_ w; destroyed_flags := destroyed_flags w;
     waits := waits w; next_wait := next_wait w; thunks := x; next_thunk := n;
     responders_alive := responders_alive w; next_responder := next_responder w;
     system := system w; trace := trace w |}.
Definition set_responders (x : gset responder) (n : responder) (w : world) : world :=
  {| router := router w; weak_self_ := weak_self_ w; destroyed_flags := destroyed_flags w;
     waits := waits w; next_wait := next_wait w; thunks := thunks w; next_thunk := next_thunk w;
     responders_alive := x; next_responder := n; system := system w; trace := trace w |}.
Definition set_system (x : list answer) (w : world) : world :=
  {| router := router w; weak_self_ := weak_self_ w; destroyed_flags := destroyed_flags w;
     waits := waits w; next_wait := next_wait w; thunks := thunks w; next_thunk := next_thunk w;
     responders_alive := responders_alive w; next_responder := next_responder w;
     system := x; trace := trace w |}.
Definition note (e : event) : M world unit := modify (fun w =>
  {| router := router w; weak_self_ := weak_self_ w; destroyed_flags := destroyed_flags w;
     waits := waits w; next_wait := next_wait w; thunks := thunks w; next_thunk := next_thunk w;
     responders_alive := responders_alive w; next_responder := next_responder w;
     system := system w; trace := e :: trace w |}).

(** ** Members

    Access through [this] is a [Fault] once the router, of which the connector is a
    member, is deleted. *)
Definition this : M world Router :=
  w ← get; match router w with Some r => mret r | None => lift Fault end.
Definition update_this (f : Router -> Router) : M world unit :=
  r ← this; modify (set_router (Some (f r))).
Definition this_connector : M world Connector := r ← this; mret (connector_ r).
Definition update_connector (f : Connector -> Connector) : M world unit :=
  update_this (fun r =>
    {| connector_ := f (connector_ r); incoming_receiver_ := incoming_receiver_ r;
       responders_ := responders_ r; next_request_id_ := next_request_id_ r;
       testing_mode_ := testing_mode_ r |}).

Definition set_message_pipe (x : Z) : M world unit := update_connector (fun c =>
  {| message_pipe_ := x; async_wait_id_ := async_wait_id_ c; error_ := error_ c;
     drop_writes_ := drop_writes_ c;
     enforce_errors_from_incoming_receiver_ := enforce_errors_from_incoming_receiver_ c;
     destroyed_flag_ := destroyed_flag_ c |}).
Definition set_async_wait_id (x : Z) : M world unit := update_connector (fun c =>
  {| message_pipe_ := message_pipe_ c; async_wait_id_ := x; error_ := error_ c;
     drop_writes_ := drop_writes_ c;
     enforce_errors_from_incoming_receiver_ := enforce_errors_from_incoming_receiver_ c;
     destroyed_flag_ := destroyed_flag_ c |}).
Definition set_error (x : bool) : M world unit := update_connector (fun c =>
  {| message_pipe_ := message_pipe_ c; async_wait_id_ := async_wait_id_ c; error_ := x;
     drop_writes_ := drop_writes_ c;
     enforce_errors_from_incoming_receiver_ := enforce_errors_from_incoming_receiver_ c;
     destroyed_flag_ := destroyed_flag_ c |}).
Definition set_drop_writes (x : bool) : M world unit := update_connector (fun c =>
  {| message_pipe_ := message_pipe_ c; async_wait_id_ := async_wait_id_ c; error_ := error_ c;
     drop_writes_ := x;
     enforce_errors_from_incoming_receiver_ := enforce_errors_from_incoming_receiver_ c;
     destroyed_flag_ := destroyed_flag_ c |}).
Definition set_enforce_errors (x : bool) : M world unit := update_connector (fun c =>
  {| message_pipe_ := message_pipe_ c; async_wait_id_ := async_wait_id_ c; error_ := error_ c;
     drop_writes_ := drop_writes_ c; enforce_errors_from_incoming_receiver_ := x;
     destroyed_flag_ := destroyed_flag_ c |}).
Definition set_destroyed_flag (x : option nat) : M world unit := update_connector (fun c =>
  {| message_pipe_ := message_pipe_ c; async_wait_id_ := async_wait_id_ c; error_ := error_ c;
     drop_writes_ := drop_writes_ c;
     enforce_errors_from_incoming_receiver_ := enforce_errors_from_incoming_receiver_ c;
     destroyed_flag_ := x |}).
Definition set_responder_map (x : gmap Z responder) (n : Z) : M world unit := update_this (fun r =>
  {| connector_ := connector_ r; incoming_receiver_ := incoming_receiver_ r; responders_ := x;
     next_request_id_ := n; testing_mode_ := testing_mode_ r |}).

(** * The system

    A run for which the answers run out, or do not fit the question, stops. *)

Definition next_answer : M world answer :=
  w ← get;
  match system w with
  | a :: l => put (set_system l w);; mret a
  | [] => lift OutOfFuel
  end.

Definition WriteMessageRaw (m : message) : M world MojoResult :=
  a ← next_answer; match a with Written r => mret r | _ => lift OutOfFuel end.

(** A handle that is not valid is an invalid argument. *)
Definition Wait (handle deadline : Z) : M world MojoResult :=
  if handle =? MOJO_HANDLE_INVALID then mret MOJO_SYSTEM_RESULT_INVALID_ARGUMENT
  else a ← next_answer; match a with Waited r => mret r | _ => lift OutOfFuel end.

(** The waiter: an id for each wait, never 0; only a wait it has can be cancelled. *)
Definition AsyncWait : M world Z :=
  w ← get;
  put (set_waits ({[next_wait w]} ∪ waits w) (next_wait w + 1) w);;
  mret (next_wait w).
Definition CancelAsyncWait (id : Z) : M world unit :=
  w ← get;
  if decide (id ∈ waits w) then put (set_waits (waits w ∖ {[id]}) (next_wait w) w)
  else lift Fault.

(** * Responders and thunks

    To use or to delete one that is not allocated is a [Fault]. *)

Definition new_responder : M world responder :=
  w ← get;
  put (set_responders ({[next_responder w]} ∪ responders_alive w) (S (next_responder w)) w);;
  mret (next_responder w).
Definition check_responder (r : responder) : M world unit :=
  w ← get; if decide (r ∈ responders_alive w) then mret tt else lift Fault.
Definition delete_responder (r : responder) : M world unit :=
  check_responder r;;
  modify (fun w => set_responders (responders_alive w ∖ {[r]}) (next_responder w) w).

Definition new_thunk : M world thunk :=
  w ← get;
  put (set_thunks (<[next_thunk w := false]> (thunks w)) (S (next_thunk w)) w);;
  mret (next_thunk w).
Definition thunk_accept_was_invoked (t : thunk) : M world bool :=
  w ← get; match thunks w !! t with Some b => mret b | None => lift Fault end.

(** * connector.cc *)

Section Code.
(** Whether [MOJO_DCHECK] is compiled in. *)
Context (debug : bool).

Definition has_message_flag (m : message) (flag : Z) : M world bool :=
  lift (Message_has_flag (message_mem m) (message_data m) flag).

Definition Connector_encountered_error : M world bool := c ← this_connector; mret (error_ c).
Definition Connector_is_valid : M world bool :=
  c ← this_connector; mret (negb (message_pipe_ c =? MOJO_HANDLE_INVALID)).

Definition CancelWait : M world unit :=
  c ← this_connector;
  if async_wait_id_ c =? 0 then mret tt
  else
    CancelAsyncWait (async_wait_id_ c);;
    set_async_wait_id 0.

(** Closing an invalid handle does nothing. *)
Definition Connector_CloseMessagePipe : M world unit :=
  CancelWait;;
  c ← this_connector;
  (if message_pipe_ c =? MOJO_HANDLE_INVALID then mret tt else note PipeClosed);;
  set_message_pipe MOJO_HANDLE_INVALID.

Definition Connector_PassMessagePipe : M world Z :=
  CancelWait;;
  c ← this_connector;
  set_message_pipe MOJO_HANDLE_INVALID;;
  mret (message_pipe_ c).

Definition WaitToReadMore : M world unit :=
  c ← this_connector;
  MOJO_CHECK (async_wait_id_ c =? 0);;
  id ← AsyncWait;
  set_async_wait_id id.

Definition Connector_Accept (m : message) : M world bool :=
  c ← this_connector;
  if error_ c then mret false
  else
    MOJO_CHECK (negb (message_pipe_ c =? MOJO_HANDLE_INVALID));;
    if drop_writes_ c then mret true
    else
      rv ← WriteMessageRaw m;
      if rv =? MOJO_RESULT_OK then mret true
      else if rv =? MOJO_SYSTEM_RESULT_FAILED_PRECONDITION then
        set_drop_writes true;; mret true
      else if rv =? MOJO_SYSTEM_RESULT_BUSY then
        MOJO_CHECK false;; mret false
      else mret false.

(** message.cc: the message read, or why there is none. *)
Definition empty_message : message :=
  {| message_mem := ∅; message_data := {| data_ := NULL; data_num_bytes_ := 0; handles_ := [] |} |}.
Definition ReadMessage (handle : Z) : M world (MojoResult * message) :=
  MOJO_DCHECK debug (negb (handle =? MOJO_HANDLE_INVALID));;
  if handle =? MOJO_HANDLE_INVALID then mret (MOJO_SYSTEM_RESULT_INVALID_ARGUMENT, empty_message)
  else
    a ← next_answer;
    match a with
    | NoMessage r =>
        if r =? MOJO_SYSTEM_RESULT_RESOURCE_EXHAUSTED then lift OutOfFuel
        else mret (r, empty_message)
    | MessageThere m r => mret (r, m)
    | _ => lift OutOfFuel
    end.

Section Callbacks.
(** The connector's receiver and its error handler. *)
Context (incoming_Accept : message -> M world bool) (connection_error_handler : M world unit).

Definition ReadAndDispatchMessage : M world (MojoResult * bool) :=
  c ← this_connector;
  '(rv, m) ← ReadMessage (message_pipe_ c);
  if rv =? MOJO_RESULT_OK then
    receiver_result ← incoming_Accept m; mret (rv, receiver_result)
  else mret (rv, false).

Definition NotifyError : M world unit :=
  set_error true;;
  Connector_CloseMessagePipe;;
  note ErrorNotified;;
  connection_error_handler.

(** The result, and whether the connector is still there and without error. *)
Definition ReadSingleMessage : M world (bool * MojoResult) :=
  c ← this_connector;
  let previous_destroyed_flag := destroyed_flag_ c in
  w ← get;
  let was_destroyed_during_dispatch := length (destroyed_flags w) in
  put (set_destroyed_flags (destroyed_flags w ++ [false]) w);;
  set_destroyed_flag (Some was_destroyed_during_dispatch);;
  '(rv, receiver_result) ← ReadAndDispatchMessage;
  w ← get;
  let flag := default false (destroyed_flags w !! was_destroyed_during_dispatch) in
  put (set_destroyed_flags (take was_destroyed_during_dispatch (destroyed_flags w)) w);;
  if (flag : bool) then
    modify (fun w => match previous_destroyed_flag with
                     | Some i => set_destroyed_flags (<[i := true]> (destroyed_flags w)) w
                     | None => w
                     end);;
    mret (false, rv)
  else
    set_destroyed_flag previous_destroyed_flag;;
    if rv =? MOJO_SYSTEM_RESULT_SHOULD_WAIT then mret (true, rv)
    else
      c ← this_connector;
      if negb (rv =? MOJO_RESULT_OK) ||
         enforce_errors_from_incoming_receiver_ c && negb receiver_result
      then NotifyError;; mret (false, rv)
      else mret (true, rv).

Definition ReadAllAvailableMessages (fuel : nat) : M world unit :=
  while_ fuel (fun _ : unit =>
    c ← this_connector;
    if error_ c then mret (inr tt)
    else
      '(ok, rv) ← ReadSingleMessage;
      if negb ok then mret (inr tt)
      else if rv =? MOJO_SYSTEM_RESULT_SHOULD_WAIT then WaitToReadMore;; mret (inr tt)
      else mret (inl tt)) tt.

Definition Connector_WaitForIncomingMessage (deadline : Z) : M world bool :=
  c ← this_connector;
  if error_ c then mret false
  else
    rv ← Wait (message_pipe_ c) deadline;
    if (rv =? MOJO_SYSTEM_RESULT_SHOULD_WAIT) || (rv =? MOJO_SYSTEM_RESULT_DEADLINE_EXCEEDED)
    then mret false
    else if negb (rv =? MOJO_RESULT_OK) then NotifyError;; mret false
    else
      '(_, rv) ← ReadSingleMessage;
      mret (rv =? MOJO_RESULT_OK).

Definition OnHandleReady (fuel : nat) (result : MojoResult) : M world unit :=
  c ← this_connector;
  MOJO_CHECK (negb (async_wait_id_ c =? 0));;
  set_async_wait_id 0;;
  if negb (result =? MOJO_RESULT_OK) then NotifyError
  else ReadAllAvailableMessages fuel.
End Callbacks.

(** The destructor of the connector: closes the pipe it has left. *)
Definition Connector_destructor : M world unit :=
  c ← this_connector;
  modify (fun w => match destroyed_flag_ c with
                   | Some i => set_destroyed_flags (<[i := true]> (destroyed_flags w)) w
                   | None => w
                   end);;
  CancelWait;;
  if message_pipe_ c =? MOJO_HANDLE_INVALID then mret tt else note PipeClosed.

(** * router.cc *)

Definition Router_destructor : M world unit :=
  r ← this;
  modify (set_weak_self false);;
  for_each (R := False) (map_to_list (responders_ r)) (fun x => delete_responder x.2;; mret None);;
  Connector_destructor;;
  modify (set_router None).

Definition Router_Accept (m : message) : M world bool :=
  (if debug then
     b ← has_message_flag m kMessageExpectsResponse; MOJO_DCHECK debug (negb b)
   else mret tt);;
  Connector_Accept m.

(** [message->set_request_id(request_id)]. *)
Definition set_request_id (m : message) (id : Z) : outcome message :=
  b ← has_request_id (message_mem m) (message_data m);
  if debug && negb b then Abort
  else
    mem' ← store64 (message_mem m) (data_ (message_data m) + 16) id;
    mret {| message_mem := mem'; message_data := message_data m |}.

Definition Router_AcceptWithResponder (m : message) (r : responder) : M world bool :=
  (if debug then
     b ← has_message_flag m kMessageExpectsResponse; MOJO_DCHECK debug b
   else mret tt);;
  self ← this;
  let request_id := next_request_id_ self in
  let next := wrap64 (request_id + 1) in
  let request_id' := if request_id =? 0 then next else request_id in
  let next' := if request_id =? 0 then wrap64 (next + 1) else next in
  set_responder_map (responders_ self) next';;
  m ← lift (set_request_id m request_id');
  ok ← Connector_Accept m;
  if negb ok then note (Refused request_id');; mret false
  else
    self ← this;
    set_responder_map (<[request_id' := r]> (responders_ self)) (next_request_id_ self);;
    note (Requested request_id' r);;
    mret true.

Definition EnableTestingMode : M world unit :=
  update_this (fun r =>
    {| connector_ := connector_ r; incoming_receiver_ := incoming_receiver_ r;
       responders_ := responders_ r; next_request_id_ := next_request_id_ r;
       testing_mode_ := true |});;
  set_enforce_errors false.

(** ** [ResponderThunk] *)

Definition ResponderThunk_Accept (t : thunk) (m : message) : M world bool :=
  thunk_accept_was_invoked t;;
  modify (fun w => set_thunks (<[t := true]> (thunks w)) (next_thunk w) w);;
  (if debug then
     b ← has_message_flag m kMessageIsResponse; MOJO_DCHECK debug b
   else mret tt);;
  w ← get;
  if weak_self_ w then Router_Accept m else mret false.

Definition ResponderThunk_IsValid (t : thunk) : M world bool :=
  thunk_accept_was_invoked t;;
  w ← get;
  if weak_self_ w then
    e ← Connector_encountered_error;
    v ← Connector_is_valid;
    mret (negb e && v)
  else mret false.

(** [delete]: the destructor, and the end of the object. *)
Definition delete_thunk (t : thunk) : M world unit :=
  accept_was_invoked ← thunk_accept_was_invoked t;
  (if negb accept_was_invoked then
     w ← get;
     if weak_self_ w then Connector_CloseMessagePipe else mret tt
   else mret tt);;
  modify (fun w => set_thunks (delete t (thunks w)) (next_thunk w) w).

(** ** Incoming messages *)

Section Incoming.
Context (validators_ : list (mem -> Serialization.Message -> outcome ValidationError)).
(** The application: its receiver, the responders of its requests, its error
    handler; and what runs its code. *)
Context (receiver_Accept : message -> app) (receiver_AcceptWithResponder : message -> thunk -> app)
  (responder_Accept : responder -> message -> app) (error_handler : app).
Context (call : app -> M world bool).

(** A receiver that refuses a request leaves the responder to the router; one that
    deletes it anyway is not considered. *)
Definition call_AcceptWithResponder (m : message) (t : thunk) : M world bool :=
  ok ← call (receiver_AcceptWithResponder m t);
  w ← get;
  if negb ok && bool_decide (thunks w !! t = None) then lift OutOfFuel else mret ok.

Definition HandleIncomingMessage (m : message) : M world bool :=
  result ← lift (RunValidatorsOnMessage ((fun v => v (message_mem m)) <$> validators_) (message_data m));
  if bool_decide (result <> NONE) then mret false
  else
    expects_response ← has_message_flag m kMessageExpectsResponse;
    if (expects_response : bool) then
      self ← this;
      if incoming_receiver_ self then
        t ← new_thunk;
        note (Delivered m);;
        ok ← call_AcceptWithResponder m t;
        (if negb ok then delete_thunk t else mret tt);;
        mret ok
      else
        Connector_CloseMessagePipe;;
        mret false
    else
      is_response ← has_message_flag m kMessageIsResponse;
      if (is_response : bool) then
        id ← lift (request_id debug (message_mem m) (message_data m));
        self ← this;
        match responders_ self !! id with
        | None => MOJO_DCHECK debug (testing_mode_ self);; mret false
        | Some r =>
            set_responder_map (delete id (responders_ self)) (next_request_id_ self);;
            check_responder r;;
            note (Responded id r);;
            ok ← call (responder_Accept r m);
            delete_responder r;;
            mret ok
        end
      else
        self ← this;
        if incoming_receiver_ self then note (Delivered m);; call (receiver_Accept m)
        else mret false.

Definition handle_error : M world unit := call error_handler;; mret tt.

(** A nested loop runs the connector when its wait is done. *)
Definition nested_loop (fuel : nat) : M world unit :=
  w ← get;
  match router w with
  | None => mret tt
  | Some r =>
      if decide (async_wait_id_ (connector_ r) ∈ waits w) then
        a ← next_answer;
        match a with
        | NotSignalled => mret tt
        | Signalled result =>
            modify (fun w => set_waits (waits w ∖ {[async_wait_id_ (connector_ r)]}) (next_wait w) w);;
            OnHandleReady HandleIncomingMessage handle_error fuel result
        | _ => lift OutOfFuel
        end
      else mret tt
  end.
End Incoming.

(** What a proxy does. *)
Definition send_request (m : message) : M world bool :=
  r ← new_responder;
  ok ← Router_AcceptWithResponder m r;
  (if negb ok then delete_responder r else mret tt);;
  mret ok.

(** ** The application at work

    [fuel] bounds the depth of nested calls, and in each the number of messages
    read at once. An application that uses the router after deleting it, or a
    responder it does not have, is not considered. *)
Section Application.
Context (validators_ : list (mem -> Serialization.Message -> outcome ValidationError)).
Context (receiver_Accept : message -> app) (receiver_AcceptWithResponder : message -> thunk -> app)
  (responder_Accept : responder -> message -> app) (error_handler : app).

Definition has_router : M world unit :=
  w ← get; match router w with Some _ => mret tt | None => lift OutOfFuel end.
Definition has_thunk (t : thunk) : M world unit :=
  w ← get; match thunks w !! t with Some _ => mret tt | None => lift OutOfFuel end.

Fixpoint run_calls (call : app -> M world bool) (fuel : nat) (a : app) : M world bool :=
  let run_calls := run_calls call fuel in
  match a with
  | Done ok => mret ok
  | Send m k => has_router;; ok ← Router_Accept m; run_calls (k ok)
  | Request m k =>
      has_router;;
      ok ← send_request m;
      run_calls (k ok)
  | CallCloseMessagePipe k => has_router;; Connector_CloseMessagePipe;; run_calls k
  | CallPassMessagePipe k => has_router;; Connector_PassMessagePipe;; run_calls k
  | CallWaitForIncomingMessage deadline k =>
      has_router;;
      ok ← Connector_WaitForIncomingMessage
        (HandleIncomingMessage validators_ receiver_Accept receiver_AcceptWithResponder
           responder_Accept call) (handle_error error_handler call) deadline;
      run_calls (k ok)
  | CallEncounteredError k => has_router;; e ← Connector_encountered_error; run_calls (k e)
  | SetIncomingReceiver is_set k =>
      has_router;;
      update_this (fun r =>
        {| connector_ := connector_ r; incoming_receiver_ := is_set; responders_ := responders_ r;
           next_request_id_ := next_request_id_ r; testing_mode_ := testing_mode_ r |});;
      run_calls k
  | Destroy k => has_router;; Router_destructor;; run_calls k
  | Respond t m k =>
      has_thunk t;; ok ← ResponderThunk_Accept t m; delete_thunk t;; run_calls (k ok)
  | IsValid t k => has_thunk t;; v ← ResponderThunk_IsValid t; run_calls (k v)
  | DeleteThunk t k => has_thunk t;; delete_thunk t;; run_calls k
  | NestedLoop k =>
      nested_loop validators_ receiver_Accept receiver_AcceptWithResponder responder_Accept
        error_handler call fuel;;
      run_calls k
  end.

Fixpoint run_app (fuel : nat) : app -> M world bool :=
  run_calls (match fuel with O => fun _ => lift OutOfFuel | S fuel' => run_app fuel' end) fuel.
End Application.
End Code.

(** ** The constructors

    The pipe is valid; the connector starts to wait. *)
Definition new_connector (pipe : Z) : Connector :=
  {| message_pipe_ := pipe; async_wait_id_ := 0; error_ := false; drop_writes_ := false;
     enforce_errors_from_incoming_receiver_ := true; destroyed_flag_ := None |}.
Definition Router_new (pipe : Z) : Router :=
  {| connector_ := new_connector pipe; incoming_receiver_ := false; responders_ := ∅;
     next_request_id_ := 0; testing_mode_ := false |}.
Definition new_world (pipe : Z) (l : list answer) : world :=
  {| router := Some (Router_new pipe); weak_self_ := true; destroyed_flags := []; waits := ∅;
     next_wait := 1; thunks := ∅; next_thunk := 0; responders_alive := ∅; next_responder := 0;
     system := l; trace := [] |}.
Definition create (pipe : Z) (l : list answer) : outcome world :=
  '(_, w) ← WaitToReadMore (new_world pipe l); mret w.
