(* ===== verification/RouterFacts.v ===== *)
(** The router and its connector keep their promises under any application code:
    the invariant of their state, and that every operation keeps it. *)
From stdpp Require Import base numbers list option gmap sets.
From coqutil Require Import Byte.
From Stdlib Require Import ZArith Lia.
From S2P Require Import Prelude Result CMem Buffer Descriptor Validate Message Serialization.
From S2P Require Import SerializationFacts Router.

(** * The protocol of requests and responses

    A function and a predicate of what has happened, the last event first. *)

(** The requests that wait for their response. *)
Fixpoint outstanding (tr : list event) : gmap Z responder :=
  match tr with
  | [] => ∅
  | Requested id r :: tr => <[id := r]> (outstanding tr)
  | Responded id _ :: tr => delete id (outstanding tr)
  | _ :: tr => outstanding tr
  end.

(** How many times a request was tried. *)
Fixpoint attempts (tr : list event) : Z :=
  match tr with
  | [] => 0
  | Requested _ _ :: tr | Refused _ :: tr => 1 + attempts tr
  | _ :: tr => attempts tr
  end.

Definition failed (tr : list event) : Prop := ErrorNotified ∈ tr.

(** The id of a new request: never 0, and until they run out the next one. *)
Definition new_id (id : Z) (tr : list event) : Prop :=
  0 < id < 2 ^ 64 /\ (attempts tr < 2 ^ 64 - 1 -> id = attempts tr + 1).

Definition allowed (e : event) (tr : list event) : Prop :=
  match e with
  | Requested id r => new_id id tr /\ forall id', Requested id' r ∉ tr
  | Refused id => new_id id tr
  | Responded id r => outstanding tr !! id = Some r /\ ~ failed tr
  | Delivered _ => ~ failed tr
  | PipeClosed | ErrorNotified => True
  end.

Fixpoint legal (tr : list event) : Prop :=
  match tr with
  | [] => True
  | e :: tr => allowed e tr /\ legal tr
  end.

(** * What the router relies on *)

(** Data handed to the router to send, and data read from the pipe. *)
Definition sendable (n : Z) (m : message) : Prop :=
  mapped (message_mem m) (data_ (message_data m)) (data_ (message_data m) + n).
Definition readable (m : message) : Prop :=
  sendable (data_num_bytes_ (message_data m)) m /\ 0 <= data_ (message_data m) /\
  0 <= data_num_bytes_ (message_data m) < 2 ^ 32 /\
  data_ (message_data m) + data_num_bytes_ (message_data m) < 2 ^ 64.

(** A message whose header has been validated. *)
Definition header_valid (m : message) : Prop :=
  MojomMessage_ValidateHeader (message_mem m) (data_ (message_data m))
    (data_num_bytes_ (message_data m)) = Ok MOJOM_VALIDATION_ERROR_NONE.

Section Facts.
(** Whether assertions may fail. *)
Context (may_abort : bool).

(** Application code: it sends messages that have a header; if no assertion may
    fail, it neither closes nor takes away the pipe, nor drops a callback. *)
Fixpoint app_ok (a : app) : Prop :=
  match a with
  | Done _ => True
  | Send m k => sendable 16 m /\ forall ok, app_ok (k ok)
  | Request m k => sendable 24 m /\ forall ok, app_ok (k ok)
  | CallCloseMessagePipe k | CallPassMessagePipe k | DeleteThunk _ k => may_abort = true /\ app_ok k
  | CallWaitForIncomingMessage _ k | CallEncounteredError k | IsValid _ k => forall ok, app_ok (k ok)
  | SetIncomingReceiver _ k | Destroy k | NestedLoop k => app_ok k
  | Respond _ m k => sendable 16 m /\ forall ok, app_ok (k ok)
  end.

Definition answer_ok (a : answer) : Prop :=
  match a with
  | Written r => may_abort = false -> r <> MOJO_SYSTEM_RESULT_BUSY
  | MessageThere m _ => readable m
  | _ => True
  end.

(** * The invariant *)

(** The request id to come. *)
Definition next_id_ok (next : Z) (tr : list event) : Prop :=
  0 <= next < 2 ^ 64 /\
  (attempts tr < 2 ^ 64 - 1 -> next = if attempts tr =? 0 then 0 else attempts tr + 1).

Record router_ok (w : world) (r : Router) : Prop := {
  ok_alive : forall id x, responders_ r !! id = Some x -> x ∈ responders_alive w;
  ok_inj : forall i j x, responders_ r !! i = Some x -> responders_ r !! j = Some x -> i = j;
  ok_outstanding : responders_ r = outstanding (trace w);
  ok_next : next_id_ok (next_request_id_ r) (trace w);
  ok_flag : forall i, destroyed_flag_ (connector_ r) = Some i -> (i < length (destroyed_flags w))%nat;
  ok_failed : failed (trace w) -> error_ (connector_ r) = true;
  ok_enforce : may_abort = false -> enforce_errors_from_incoming_receiver_ (connector_ r) = true;
}.

Definition waits_ok (w : world) : Prop :=
  0 < next_wait w /\
  match router w with
  | Some r =>
      async_wait_id_ (connector_ r) < next_wait w /\ 0 <= async_wait_id_ (connector_ r) /\
      waits w = if async_wait_id_ (connector_ r) =? 0 then ∅ else {[async_wait_id_ (connector_ r)]}
  | None => waits w = ∅
  end.

Record inv (w : world) : Prop := {
  inv_weak : weak_self_ w = bool_decide (is_Some (router w));
  inv_waits : waits_ok w;
  inv_thunks : forall t, is_Some (thunks w !! t) -> (t < next_thunk w)%nat;
  inv_alive : forall r, r ∈ responders_alive w -> (r < next_responder w)%nat;
  inv_requested : forall id r, Requested id r ∈ trace w -> (r < next_responder w)%nat;
  inv_system : Forall answer_ok (system w);
  inv_legal : legal (trace w);
  inv_router : forall r, router w = Some r -> router_ok w r;
}.

(** The pipe is open until an error, if no assertion may fail. *)
Definition open (w : world) : Prop :=
  may_abort = false -> forall r, router w = Some r -> error_ (connector_ r) = false ->
    message_pipe_ (connector_ r) <> MOJO_HANDLE_INVALID.

(** What code that calls the application can rely on afterwards: a router deleted
    meanwhile is flagged, the connector's wait is not renewed, and responders that
    the router does not own stay. *)
Definition held (w : world) (x : responder) : Prop :=
  x ∈ responders_alive w /\
  forall r id, router w = Some r -> responders_ r !! id <> Some x.

Record kept (w w' : world) : Prop := {
  kept_router :
    match router w, router w' with
    | Some r, Some r' =>
        destroyed_flag_ (connector_ r') = destroyed_flag_ (connector_ r) /\
        destroyed_flags w' = destroyed_flags w /\
        (async_wait_id_ (connector_ r) = 0 -> async_wait_id_ (connector_ r') = 0)
    | Some r, None =>
        length (destroyed_flags w') = length (destroyed_flags w) /\
        forall i, destroyed_flag_ (connector_ r) = Some i -> destroyed_flags w' !! i = Some true
    | None, None => destroyed_flags w' = destroyed_flags w
    | None, Some _ => False
    end;
  kept_held : forall x, held w x -> held w' x;
}.

#[export] Instance kept_reflexive : Reflexive kept.
Proof. intros w. split; [|done]. by destruct (router w). Qed.

#[export] Instance kept_transitive : Transitive kept.
Proof.
  intros w w1 w2 [H1 K1] [H2 K2]. split; [|auto].
  destruct (router w) as [r|], (router w1) as [r1|], (router w2) as [r2|]; try done.
  - destruct H1 as (F1&L1&A1), H2 as (F2&L2&A2). split; [congruence|]. split; [congruence|auto].
  - destruct H1 as (Hf&Hl&_), H2 as [Hl' H2]. split; [congruence|]. intros i Hi. apply H2. congruence.
  - destruct H1 as [Hl H1]. rewrite H2. by split.
  - congruence.
Qed.

(** What holds after a piece of code started in [w]; [fine] when the pipe is known
    to be open as well. *)
Definition after (w w' : world) : Prop := inv w' /\ kept w w'.
Definition fine (w w' : world) : Prop := inv w' /\ open w' /\ kept w w'.

Ltac wlp_steps := repeat wlp_step.

(** * Primitive steps *)

Lemma wlp_this w r (Q : Router -> world -> Prop) :
  router w = Some r -> Q r w -> gwlp may_abort this w Q.
Proof. intros Hr HQ. unfold this. do 2 wlp_step. rewrite Hr. by wlp_step. Qed.

Lemma wlp_this_connector w r (Q : Connector -> world -> Prop) :
  router w = Some r -> Q (connector_ r) w -> gwlp may_abort this_connector w Q.
Proof. intros Hr HQ. unfold this_connector. wlp_step. apply (wlp_this w r); [done|]. by wlp_step. Qed.

Definition with_connector (c : Connector) (r : Router) : Router :=
  {| connector_ := c; incoming_receiver_ := incoming_receiver_ r; responders_ := responders_ r;
     next_request_id_ := next_request_id_ r; testing_mode_ := testing_mode_ r |}.

Lemma wlp_update_connector f w r (Q : unit -> world -> Prop) :
  router w = Some r -> Q tt (set_router (Some (with_connector (f (connector_ r)) r)) w) ->
  gwlp may_abort (update_connector f) w Q.
Proof.
  intros Hr HQ. unfold update_connector, update_this. wlp_step. apply (wlp_this w r); [done|].
  by wlp_step.
Qed.

Lemma wlp_check c (w : world) (Q : unit -> world -> Prop) :
  (may_abort = false -> c = true) -> (c = true -> Q tt w) -> gwlp may_abort (MOJO_CHECK c) w Q.
Proof.
  intros Hc HQ. unfold MOJO_CHECK, assert_, lift, gwlp. destruct c; [by apply HQ|].
  destruct may_abort; [done|]. by specialize (Hc eq_refl).
Qed.

Lemma wlp_next_answer w (Q : answer -> world -> Prop) :
  (forall a l, system w = a :: l -> Q a (set_system l w)) -> gwlp may_abort next_answer w Q.
Proof.
  intros HQ. unfold next_answer. do 2 wlp_step. destruct (system w) as [|a l]; [done|].
  wlp_steps. by apply HQ.
Qed.

(** An answer is taken. *)
Lemma inv_answer w a l :
  inv w -> system w = a :: l -> inv (set_system l w) /\ answer_ok a.
Proof.
  intros [] Hl. rewrite Hl in *. inversion inv_system0; subst. split; [|done]. split; try done.
  intros r Hr. by destruct (inv_router0 r Hr).
Qed.

(** A change to members of the connector that concern the pipe only. *)
Lemma inv_connector w r c :
  inv w -> router w = Some r ->
  async_wait_id_ c = async_wait_id_ (connector_ r) ->
  destroyed_flag_ c = destroyed_flag_ (connector_ r) ->
  enforce_errors_from_incoming_receiver_ c = enforce_errors_from_incoming_receiver_ (connector_ r) ->
  (error_ (connector_ r) = true -> error_ c = true) ->
  inv (set_router (Some (with_connector c r)) w).
Proof.
  intros [] Hr Ha Hd He Herr. split; try done.
  - simpl. rewrite inv_weak0, Hr. done.
  - unfold waits_ok in *. rewrite Hr in inv_waits0. simpl. by rewrite Ha.
  - intros r' [= <-]. destruct (inv_router0 r Hr). split; simpl; try done.
    + intros i. rewrite Hd. auto.
    + auto.
    + rewrite He. auto.
Qed.

Lemma kept_connector w r c :
  router w = Some r -> destroyed_flag_ c = destroyed_flag_ (connector_ r) ->
  (async_wait_id_ (connector_ r) = 0 -> async_wait_id_ c = 0) ->
  kept w (set_router (Some (with_connector c r)) w).
Proof.
  intros Hr Hd Ha. split; simpl; [by rewrite Hr|]. intros x [Hx Hown]. split; [done|].
  intros r' id [= <-]. exact (Hown r id Hr).
Qed.

(** The end of the connector's wait. *)
Definition no_wait (r : Router) : Router :=
  with_connector {| message_pipe_ := message_pipe_ (connector_ r); async_wait_id_ := 0;
    error_ := error_ (connector_ r); drop_writes_ := drop_writes_ (connector_ r);
    enforce_errors_from_incoming_receiver_ := enforce_errors_from_incoming_receiver_ (connector_ r);
    destroyed_flag_ := destroyed_flag_ (connector_ r) |} r.

Lemma no_wait_same r : async_wait_id_ (connector_ r) = 0 -> no_wait r = r.
Proof. destruct r as [[]]. simpl. by intros ->. Qed.

Definition waitless (w : world) (r : Router) : world :=
  set_waits ∅ (next_wait w) (set_router (Some (no_wait r)) w).

Lemma wlp_CancelWait w r (Q : unit -> world -> Prop) :
  waits_ok w -> router w = Some r -> Q tt (waitless w r) -> gwlp may_abort CancelWait w Q.
Proof.
  intros Hw Hr HQ. unfold waits_ok in Hw. rewrite Hr in Hw. destruct Hw as (Hn & Hlt & Hge & Hws).
  unfold CancelWait. wlp_step. apply (wlp_this_connector w r); [done|].
  destruct (Z.eqb_spec (async_wait_id_ (connector_ r)) 0) as [Ha|Ha].
  - wlp_step. unfold waitless in HQ. rewrite no_wait_same in HQ by done.
    replace w with (set_waits ∅ (next_wait w) (set_router (Some r) w)); [done|].
    destruct w. simpl in *. unfold set_waits, set_router. simpl. by subst.
  - wlp_step. unfold CancelAsyncWait. do 2 wlp_step. rewrite decide_True by (rewrite Hws; set_solver).
    wlp_step. unfold set_async_wait_id. apply (wlp_update_connector _ _ r); [done|].
    unfold waitless in HQ. unfold no_wait in HQ.
    replace (waits w ∖ {[async_wait_id_ (connector_ r)]}) with (∅ : gset Z) by (rewrite Hws; set_solver).
    exact HQ.
Qed.

Lemma inv_waitless w r :
  inv w -> router w = Some r -> inv (waitless w r).
Proof.
  intros [] Hr. split; try done.
  - simpl. rewrite inv_weak0, Hr. done.
  - unfold waits_ok in *. rewrite Hr in inv_waits0. simpl. destruct inv_waits0. split; [done|].
    split; [lia|]. split; [lia|]. done.
  - intros r' [= <-]. by destruct (inv_router0 r Hr).
Qed.

Lemma kept_waitless w r : router w = Some r -> kept w (waitless w r).
Proof.
  intros Hr. split; simpl; [by rewrite Hr|]. intros x [Hx Hown]. split; [done|].
  intros r' id [= <-]. exact (Hown r id Hr).
Qed.

(** * Events *)

Definition noted (e : event) (w : world) : world :=
  {| router := router w; weak_self_ := weak_self_ w; destroyed_flags := destroyed_flags w;
     waits := waits w; next_wait := next_wait w; thunks := thunks w; next_thunk := next_thunk w;
     responders_alive := responders_alive w; next_responder := next_responder w;
     system := system w; trace := e :: trace w |}.

Lemma wlp_note e w (Q : unit -> world -> Prop) : Q tt (noted e w) -> gwlp may_abort (note e) w Q.
Proof. done. Qed.

(** Events that are not about requests. *)
Definition quiet (e : event) : Prop :=
  match e with Delivered _ | PipeClosed | ErrorNotified => True | _ => False end.

Lemma inv_noted e w :
  inv w -> quiet e -> allowed e (trace w) ->
  (e = ErrorNotified -> forall r, router w = Some r -> error_ (connector_ r) = true) ->
  inv (noted e w).
Proof.
  intros [] He Ha Herr. split; try done.
  - intros id r Hin. apply elem_of_cons in Hin as [<-|Hin]; [done|eauto].
  - intros r Hr. destruct (inv_router0 r Hr). split; try done.
    + simpl. by destruct e.
    + by destruct e.
    + intros Hf. apply elem_of_cons in Hf as [<-|Hf]; auto.
Qed.

Lemma kept_noted e w : kept w (noted e w).
Proof. split; simpl; [by destruct (router w)|done]. Qed.

Lemma kept_answer l w : kept w (set_system l w).
Proof. split; simpl; [by destruct (router w)|done]. Qed.

(** A responder that the router does not own ends. *)
Lemma inv_responder_ends x w :
  inv w -> held w x -> inv (set_responders (responders_alive w ∖ {[x]}) (next_responder w) w).
Proof.
  intros [] [Hx Hown]. split; try done.
  - intros y Hy. simpl in *. apply inv_alive0. set_solver.
  - intros r Hr. destruct (inv_router0 r Hr). split; try done. intros i y Hi. simpl.
    assert (y <> x) by (intros ->; by apply (Hown r i Hr)). apply ok_alive0 in Hi. set_solver.
Qed.

(** * The connector *)

(** What closing the pipe notes. *)
Definition pipe_closed (pipe : Z) : list event := if pipe =? MOJO_HANDLE_INVALID then [] else [PipeClosed].

Lemma wlp_Connector_CloseMessagePipe w r (Q : unit -> world -> Prop) :
  inv w -> router w = Some r ->
  (forall w' r', after w w' -> router w' = Some r' ->
     error_ (connector_ r') = error_ (connector_ r) -> thunks w' = thunks w ->
     message_pipe_ (connector_ r') = MOJO_HANDLE_INVALID ->
     trace w' = pipe_closed (message_pipe_ (connector_ r)) ++ trace w -> Q tt w') ->
  gwlp may_abort Connector_CloseMessagePipe w Q.
Proof.
  intros Hinv Hr HQ. unfold Connector_CloseMessagePipe. wlp_step.
  apply (wlp_CancelWait w r); [apply Hinv|done|]. wlp_step.
  apply (wlp_this_connector _ (no_wait r)); [done|]. wlp_step.
  pose proof (inv_waitless w r Hinv Hr) as Hinv1. pose proof (kept_waitless w r Hr) as Hk1.
  set (w1 := waitless w r) in *. unfold set_message_pipe.
  unfold pipe_closed in HQ. change (message_pipe_ (connector_ (no_wait r))) with (message_pipe_ (connector_ r)).
  destruct (message_pipe_ (connector_ r) =? MOJO_HANDLE_INVALID).
  - wlp_step. apply (wlp_update_connector _ _ (no_wait r)); [done|]. eapply HQ; try done.
    split; [by apply inv_connector|]. etransitivity; [exact Hk1|]. by apply kept_connector.
  - apply wlp_note. apply (wlp_update_connector _ _ (no_wait r)); [done|].
    eapply HQ; try done.
    split; [apply inv_connector; try done; by apply inv_noted|].
    etransitivity; [exact Hk1|]. etransitivity; [apply kept_noted|]. by apply kept_connector.
Qed.

Lemma wlp_Connector_PassMessagePipe w r (Q : Z -> world -> Prop) :
  inv w -> router w = Some r -> (forall pipe w', after w w' -> Q pipe w') ->
  gwlp may_abort Connector_PassMessagePipe w Q.
Proof.
  intros Hinv Hr HQ. unfold Connector_PassMessagePipe. wlp_step.
  apply (wlp_CancelWait w r); [apply Hinv|done|]. wlp_step.
  apply (wlp_this_connector _ (no_wait r)); [done|]. wlp_step.
  apply (wlp_update_connector _ _ (no_wait r)); [done|]. wlp_step. apply HQ.
  split; [apply inv_connector; try done; by apply inv_waitless|].
  etransitivity; [by apply kept_waitless|]. by apply kept_connector.
Qed.

(** A new wait, when there is none. *)
Lemma wlp_WaitToReadMore w r (Q : unit -> world -> Prop) :
  inv w -> open w -> router w = Some r -> (may_abort = false -> async_wait_id_ (connector_ r) = 0) ->
  (forall w' r', inv w' -> open w' -> router w' = Some r' ->
     destroyed_flag_ (connector_ r') = destroyed_flag_ (connector_ r) ->
     destroyed_flags w' = destroyed_flags w -> (forall x, held w x -> held w' x) ->
     async_wait_id_ (connector_ r') <> 0 -> Q tt w') ->
  gwlp may_abort WaitToReadMore w Q.
Proof.
  intros Hinv Hopen Hr Ha HQ. unfold WaitToReadMore. wlp_step.
  apply (wlp_this_connector w r); [done|]. wlp_step.
  apply wlp_check; [intros Hs; apply Z.eqb_eq; auto|]. intros Ha0%Z.eqb_eq.
  unfold AsyncWait. do 6 wlp_step. unfold set_async_wait_id.
  apply (wlp_update_connector _ _ r); [done|].
  destruct Hinv. unfold waits_ok in inv_waits0. rewrite Hr, Ha0 in inv_waits0.
  destruct inv_waits0 as (Hn & _ & _ & Hws). simpl in Hws.
  eapply HQ; [| |done..| |].
  - split; try done.
    + simpl. rewrite inv_weak0, Hr. done.
    + unfold waits_ok. simpl. split; [lia|]. split; [lia|]. split; [lia|].
      rewrite Hws. destruct (Z.eqb_spec (next_wait w) 0); [lia|]. set_solver.
    + intros r' [= <-]. by destruct (inv_router0 r Hr).
  - intros Hs r' [= <-] Herr. simpl in *. by apply (Hopen Hs r Hr).
  - intros x [Hx Hown]. split; [done|]. intros r' id [= <-]. exact (Hown r id Hr).
  - simpl. lia.
Qed.

(** What a write changes: nothing but [drop_writes_] and the answers. *)
Definition wrote (w : world) (r : Router) (w' : world) : Prop :=
  exists c l, w' = set_system l (set_router (Some (with_connector c r)) w) /\
    error_ c = error_ (connector_ r) /\ message_pipe_ c = message_pipe_ (connector_ r) /\
    async_wait_id_ c = async_wait_id_ (connector_ r) /\
    destroyed_flag_ c = destroyed_flag_ (connector_ r) /\
    enforce_errors_from_incoming_receiver_ c = enforce_errors_from_incoming_receiver_ (connector_ r) /\
    Forall answer_ok l.

Lemma wrote_fine w r w' : inv w -> open w -> router w = Some r -> wrote w r w' -> fine w w'.
Proof.
  intros Hinv Hopen Hr (c & l & -> & He & Hp & Ha & Hd & Hen & Hl). split; [|split].
  - destruct (inv_connector w r c Hinv Hr Ha Hd Hen) as []; [by rewrite He|]. split; try done.
    intros r' Hr'. by destruct (inv_router0 r' Hr').
  - intros Hs r' [= <-]. simpl. rewrite He, Hp. by apply Hopen.
  - etransitivity; [apply (kept_connector w r c); try done; by rewrite Ha|]. apply kept_answer.
Qed.

Lemma wlp_Connector_Accept m w r (Q : bool -> world -> Prop) :
  Forall answer_ok (system w) -> open w -> router w = Some r ->
  (forall ok w', wrote w r w' -> Q ok w') -> gwlp may_abort (Connector_Accept m) w Q.
Proof.
  intros Hsys Hopen Hr HQ. unfold Connector_Accept. wlp_step.
  apply (wlp_this_connector w r); [done|].
  assert (Hsame : forall l, Forall answer_ok l -> wrote w r (set_system l w)).
  { intros l Hl. exists (connector_ r), l. split; [|done]. destruct w, r. simpl in *. by subst. }
  assert (Hself : wrote w r w).
  { replace w with (set_system (system w) w) at 2 by (by destruct w). by apply Hsame. }
  destruct (error_ (connector_ r)) eqn:Herr; [wlp_step; by apply HQ|].
  wlp_step. apply wlp_check.
  { intros Hs. apply negb_true_iff, Z.eqb_neq. by apply (Hopen Hs r Hr). }
  intros _. destruct (drop_writes_ (connector_ r)); [wlp_step; by apply HQ|].
  unfold WriteMessageRaw. do 2 wlp_step. apply wlp_next_answer. intros a l Hl.
  rewrite Hl in Hsys. inversion Hsys as [|? ? Ha Hlok]; subst.
  destruct a as [rv|rv|rv|m' rv|rv|]; try done. wlp_step.
  destruct (rv =? MOJO_RESULT_OK); [wlp_step; auto|].
  destruct (rv =? MOJO_SYSTEM_RESULT_FAILED_PRECONDITION).
  - wlp_step. unfold set_drop_writes. apply (wlp_update_connector _ _ r); [done|]. wlp_step. apply HQ.
    eexists _, l. split; [reflexivity|done].
  - destruct (Z.eqb_spec rv MOJO_SYSTEM_RESULT_BUSY); [|wlp_step; auto].
    wlp_step. apply wlp_check; [|done]. intros Hs. by destruct (Ha Hs).
Qed.

(** * The router *)

Section Code.
Context (debug : bool) (debug_aborts : debug = true -> may_abort = true).

Lemma wlp_dcheck c (w : world) (Q : unit -> world -> Prop) :
  Q tt w -> gwlp may_abort (MOJO_DCHECK debug c) w Q.
Proof.
  intros HQ. unfold MOJO_DCHECK. destruct debug; [|by wlp_step].
  apply wlp_check; [|done]. intros Hs. by rewrite (debug_aborts eq_refl) in Hs.
Qed.

Lemma sendable_word n k m :
  sendable n m -> 0 <= k -> k + 4 <= n ->
  exists v, load32 (message_mem m) (data_ (message_data m) + k) = Ok v /\ 0 <= v < 2 ^ 32.
Proof.
  intros Hs ??. apply (load_mapped _ _ 4). eapply mapped_weaken; [exact Hs|lia..].
Qed.

Lemma wlp_has_message_flag n m flag w (Q : bool -> world -> Prop) :
  sendable n m -> 16 <= n -> (forall b, Q b w) -> gwlp may_abort (has_message_flag m flag) w Q.
Proof.
  intros Hs Hn HQ. unfold has_message_flag, Message_has_flag, header_flags.
  destruct (sendable_word n 12 m Hs) as (v & Hv & _); [lia..|]. rewrite Hv. apply HQ.
Qed.

(** Checks of flags that only debug builds make. *)
Lemma wlp_debug_flag n m flag (f : bool -> bool) w (Q : unit -> world -> Prop) :
  sendable n m -> 16 <= n -> Q tt w ->
  gwlp may_abort (if debug then b ← has_message_flag m flag; MOJO_DCHECK debug (f b) else mret tt) w Q.
Proof.
  intros Hs Hn HQ. pose proof (wlp_dcheck) as Hdc. destruct debug eqn:Hdebug; [|by wlp_step].
  wlp_step. apply (wlp_has_message_flag n); [done..|]. intros b. by apply Hdc.
Qed.

Lemma wlp_Router_Accept m w r (Q : bool -> world -> Prop) :
  inv w -> open w -> router w = Some r -> sendable 16 m ->
  (forall ok w', fine w w' -> thunks w' = thunks w -> Q ok w') -> gwlp may_abort (Router_Accept debug m) w Q.
Proof.
  intros Hinv Hopen Hr Hm HQ. unfold Router_Accept. wlp_step. apply (wlp_debug_flag 16); [done..|].
  apply (wlp_Connector_Accept _ _ r); [apply Hinv|done|done|]. intros ok w' Hw'.
  apply HQ; [by eapply wrote_fine|]. by destruct Hw' as (? & ? & -> & _).
Qed.

(** Request ids. *)
Lemma next_id_step next tr :
  next_id_ok next tr ->
  let id := if next =? 0 then wrap64 (next + 1) else next in
  new_id id tr /\ forall e, attempts (e :: tr) = 1 + attempts tr ->
    next_id_ok (if next =? 0 then wrap64 (wrap64 (next + 1) + 1) else wrap64 (next + 1)) (e :: tr).
Proof.
  intros [Hr Hn] id.
  assert (Ha : forall tr, 0 <= attempts tr) by (clear; induction tr as [|[]]; simpl; lia).
  specialize (Ha tr).
  destruct (Z.eqb_spec next 0) as [->|Hne]; subst id.
  - change (wrap64 (0 + 1)) with 1. change (wrap64 (1 + 1)) with 2. split.
    + split; [lia|]. intros Hlt. specialize (Hn Hlt). destruct (Z.eqb_spec (attempts tr) 0); lia.
    + intros e He. split; [lia|]. rewrite He. intros Hlt. specialize (Hn ltac:(lia)).
      destruct (Z.eqb_spec (attempts tr) 0); [|lia]. destruct (Z.eqb_spec (1 + attempts tr) 0); lia.
  - split.
    + split; [lia|]. intros Hlt. specialize (Hn Hlt). destruct (Z.eqb_spec (attempts tr) 0); lia.
    + intros e He. split; [apply wrap64_range|]. rewrite He. intros Hlt. specialize (Hn ltac:(lia)).
      destruct (Z.eqb_spec (attempts tr) 0); [lia|]. destruct (Z.eqb_spec (1 + attempts tr) 0); [lia|].
      rewrite wrap64_small by lia. lia.
Qed.

(** What the map and the trace are after a request was tried. *)
Definition request_event (ok : bool) (id : Z) (x : responder) : event :=
  if ok then Requested id x else Refused id.

Lemma inv_request w r c l (ok : bool) id next x :
  inv w -> router w = Some r -> x = next_responder w ->
  new_id id (trace w) ->
  (forall e, attempts (e :: trace w) = 1 + attempts (trace w) -> next_id_ok next (e :: trace w)) ->
  async_wait_id_ c = async_wait_id_ (connector_ r) ->
  destroyed_flag_ c = destroyed_flag_ (connector_ r) ->
  enforce_errors_from_incoming_receiver_ c = enforce_errors_from_incoming_receiver_ (connector_ r) ->
  error_ c = error_ (connector_ r) -> Forall answer_ok l ->
  inv {| router := Some {| connector_ := c; incoming_receiver_ := incoming_receiver_ r;
           responders_ := if ok then <[id := x]> (responders_ r) else responders_ r;
           next_request_id_ := next; testing_mode_ := testing_mode_ r |};
         weak_self_ := weak_self_ w; destroyed_flags := destroyed_flags w; waits := waits w;
         next_wait := next_wait w; thunks := thunks w; next_thunk := next_thunk w;
         responders_alive := if ok then {[x]} ∪ responders_alive w else responders_alive w;
         next_responder := S x; system := l; trace := request_event ok id x :: trace w |}.
Proof.
  intros [] Hr -> Hid Hnext Ha Hd He Herr Hl. destruct (inv_router0 r Hr).
  assert (Hfresh : forall i, responders_ r !! i <> Some (next_responder w)).
  { intros i Hi. apply ok_alive0, inv_alive0 in Hi. lia. }
  split; simpl; try done.
  - rewrite inv_weak0, Hr. done.
  - unfold waits_ok in *. rewrite Hr in inv_waits0. simpl. by rewrite Ha.
  - intros y Hy. destruct ok; [apply elem_of_union in Hy as [->%elem_of_singleton|Hy]; [lia|]|];
      apply inv_alive0 in Hy; lia.
  - intros id' y Hy. apply elem_of_cons in Hy as [Hy|Hy]; [destruct ok; simpl in Hy; simplify_eq; lia|].
    apply inv_requested0 in Hy. lia.
  - split; [|done]. destruct ok; simpl; [|done]. split; [done|]. intros id' Hin.
    apply inv_requested0 in Hin. lia.
  - intros r' [= <-]. split; simpl; try done.
    + intros i y Hy. destruct ok; [|eauto]. apply lookup_insert_Some in Hy as [[_ <-]|[_ Hy]];
        [|apply ok_alive0 in Hy]; set_solver.
    + destruct ok; [|eauto]. intros i j y Hi Hj.
      apply lookup_insert_Some in Hi as [[<- <-]|[? Hi]], Hj as [[<- ?]|[? Hj]];
        [done|by apply Hfresh in Hj|subst; by apply Hfresh in Hi|eauto].
    + rewrite ok_outstanding0. by destruct ok.
    + apply Hnext. by destruct ok.
    + rewrite Hd. done.
    + intros Hf. rewrite Herr. apply ok_failed0. apply elem_of_cons in Hf as [Hf|Hf]; [by destruct ok|done].
    + rewrite He. done.
Qed.

Lemma wlp_set_request_id m id w (Q : message -> world -> Prop) :
  sendable 24 m -> (forall m', Q m' w) -> gwlp may_abort (lift (set_request_id debug m id)) w Q.
Proof.
  intros Hm HQ. unfold set_request_id, has_request_id, header_version.
  destruct (sendable_word 24 4 m Hm) as (v & -> & _); [lia..|].
  unfold mbind, outcome_bind, mret, outcome_ret.
  destruct (debug && negb (v >=? 1)) eqn:Hd.
  { unfold lift, gwlp. apply andb_true_iff in Hd as [Hd _]. auto. }
  rewrite store_Ok; [apply HQ|]. eapply mapped_weaken; [exact Hm|simpl; lia..].
Qed.

Lemma wlp_delete_responder x w (Q : unit -> world -> Prop) :
  x ∈ responders_alive w ->
  Q tt (set_responders (responders_alive w ∖ {[x]}) (next_responder w) w) ->
  gwlp may_abort (delete_responder x) w Q.
Proof.
  intros Hx HQ. unfold delete_responder, check_responder. wlp_steps. rewrite decide_True by done.
  by wlp_steps.
Qed.

(** What sending a request leaves and notes. *)
Definition requested (w : world) (r : Router) (w' : world) : Prop :=
  (exists ok id x, trace w' = request_event ok id x :: trace w) /\
  exists r', router w' = Some r' /\ message_pipe_ (connector_ r') = message_pipe_ (connector_ r).

Lemma wlp_send_request m w r (Q : bool -> world -> Prop) :
  inv w -> open w -> router w = Some r -> sendable 24 m ->
  (forall ok w', fine w w' -> requested w r w' -> Q ok w') -> gwlp may_abort (send_request debug m) w Q.
Proof.
  intros Hinv Hopen Hr Hm HQ. unfold send_request, new_responder, Router_AcceptWithResponder.
  wlp_steps. apply (wlp_debug_flag 24 m kMessageExpectsResponse (fun b => b)); [done|lia|].
  set (x := next_responder w). set (w1 := set_responders _ _ w).
  wlp_step. apply (wlp_this w1 r); [done|]. wlp_step. unfold set_responder_map, update_this. wlp_step.
  apply (wlp_this w1 r); [done|]. wlp_steps.
  destruct (ok_next _ _ (inv_router w Hinv r Hr)) as [Hnr Hna].
  destruct (next_id_step (next_request_id_ r) (trace w)) as [Hid Hnext]; [done|].
  set (id := if next_request_id_ r =? 0 then _ else _) in *.
  set (next := if next_request_id_ r =? 0 then wrap64 (wrap64 _ + 1) else _) in *.
  set (r1 := {| connector_ := connector_ r; incoming_receiver_ := _; responders_ := _;
               next_request_id_ := _; testing_mode_ := _ |}).
  apply wlp_set_request_id; [done|]. intros m'. wlp_step.
  apply (wlp_Connector_Accept _ _ r1); [apply Hinv|intros Hs r' [= <-]; by apply (Hopen Hs r Hr)|done|].
  intros ok w2 (c & l & -> & He & Hp & Ha & Hd & Hen & Hl).
  pose proof (inv_request w r c l ok id next x Hinv Hr eq_refl Hid Hnext Ha Hd Hen He Hl) as Hinv2.
  assert (Hkept : forall w2, destroyed_flags w2 = destroyed_flags w ->
    router w2 = Some {| connector_ := c; incoming_receiver_ := incoming_receiver_ r;
           responders_ := if ok then <[id := x]> (responders_ r) else responders_ r;
           next_request_id_ := next; testing_mode_ := testing_mode_ r |} ->
    (forall y, y ∈ responders_alive w -> y ∈ responders_alive w2) -> kept w w2).
  { intros w2 Hf Hr2 Hal. split.
    - rewrite Hr, Hr2. simpl. rewrite Hd, Ha. done.
    - intros y [Hy Hown]. split; [auto|]. intros r' i. rewrite Hr2. intros [= <-]. simpl.
      destruct ok; [|exact (Hown r i Hr)]. intros [[_ <-]|[_ Hi]]%lookup_insert_Some.
      + apply (inv_alive w Hinv) in Hy. unfold x in Hy. lia.
      + exact (Hown r i Hr Hi). }
  destruct ok; simpl.
  - wlp_step. apply (wlp_this _ (with_connector c r1)); [done|]. do 2 wlp_step.
    apply (wlp_this _ (with_connector c r1)); [done|]. do 2 wlp_step. apply wlp_note. wlp_steps. apply HQ.
    2: { split; [by exists true, id, x|]. eexists. by split; [reflexivity|]. }
    split; [exact Hinv2|]. split; [|apply Hkept; try done; simpl; set_solver].
    intros Hs r' [= <-]. simpl. rewrite He, Hp. by apply (Hopen Hs r Hr).
  - wlp_step. apply wlp_note. wlp_steps. cbn [negb]. apply wlp_delete_responder; [set_solver|].
    wlp_step. apply HQ.
    2: { split; [by exists false, id, x|]. eexists. by split; [reflexivity|]. }
    split; [|split].
    + unfold set_responders, noted. simpl.
      replace (({[x]} ∪ responders_alive w) ∖ {[x]}) with (responders_alive w); [exact Hinv2|].
      assert (x ∉ responders_alive w); [|set_solver].
      intros Hx. apply (inv_alive w Hinv) in Hx. unfold x in Hx. lia.
    + intros Hs r' [= <-]. simpl. rewrite He, Hp. by apply (Hopen Hs r Hr).
    + apply Hkept; try done. simpl. intros y Hy. assert (y <> x); [|set_solver].
      intros ->. apply (inv_alive w Hinv) in Hy. unfold x in Hy. lia.
Qed.

(** ** Thunks *)

Lemma wlp_thunk_accept_was_invoked t w (Q : bool -> world -> Prop) :
  is_Some (thunks w !! t) -> (forall b, Q b w) -> gwlp may_abort (thunk_accept_was_invoked t) w Q.
Proof.
  intros [b Hb] HQ. unfold thunk_accept_was_invoked. do 2 wlp_step. rewrite Hb. by wlp_step.
Qed.

(** A thunk changes or ends. *)
Lemma fine_thunks w ts :
  inv w -> (forall t, is_Some (ts !! t) -> (t < next_thunk w)%nat) ->
  inv (set_thunks ts (next_thunk w) w) /\ kept w (set_thunks ts (next_thunk w) w).
Proof.
  intros [] Hts. split; [|split; [simpl; by destruct (router w)|done]]. split; try done.
  intros r Hr. by destruct (inv_router0 r Hr).
Qed.

Lemma weak_router w : inv w -> weak_self_ w = true -> exists r, router w = Some r.
Proof. intros Hinv Hw. rewrite (inv_weak w Hinv) in Hw. by apply bool_decide_eq_true_1 in Hw. Qed.

Lemma wlp_ResponderThunk_Accept t m w (Q : bool -> world -> Prop) :
  inv w -> open w -> is_Some (thunks w !! t) -> sendable 16 m ->
  (forall ok w', fine w w' -> thunks w' !! t = Some true -> Q ok w') ->
  gwlp may_abort (ResponderThunk_Accept debug t m) w Q.
Proof.
  intros Hinv Hopen Ht Hm HQ. unfold ResponderThunk_Accept. wlp_step.
  apply wlp_thunk_accept_was_invoked; [done|]. intros _. wlp_step. wlp_step.
  destruct (fine_thunks w (<[t := true]> (thunks w)) Hinv) as [Hinv1 Hk1].
  { intros t'. rewrite lookup_insert_is_Some'. intros [<-|H]; by apply (inv_thunks w Hinv). }
  set (w1 := set_thunks _ _ w) in *. assert (Hopen1 : open w1) by exact Hopen.
  wlp_step. apply (wlp_debug_flag 16 m kMessageIsResponse (fun b => b)); [done|lia|]. do 2 wlp_step.
  assert (Ht1 : thunks w1 !! t = Some true) by (simpl; by rewrite lookup_insert_eq).
  destruct (weak_self_ w1) eqn:Hw; [|by wlp_step; apply HQ].
  destruct (weak_router w1 Hinv1 Hw) as [r Hr].
  apply (wlp_Router_Accept _ _ r); [done..|]. intros ok w2 (Hinv2 & Hopen2 & Hk2) Hts.
  apply HQ; [|by rewrite Hts]. split; [done|]. split; [done|]. by transitivity w1.
Qed.

Lemma wlp_ResponderThunk_IsValid t w (Q : bool -> world -> Prop) :
  inv w -> is_Some (thunks w !! t) -> (forall b, Q b w) ->
  gwlp may_abort (ResponderThunk_IsValid t) w Q.
Proof.
  intros Hinv Ht HQ. unfold ResponderThunk_IsValid. wlp_step.
  apply wlp_thunk_accept_was_invoked; [done|]. intros _. do 2 wlp_step.
  destruct (weak_self_ w) eqn:Hw; [|by wlp_step].
  destruct (weak_router w Hinv Hw) as [r Hr].
  unfold Connector_encountered_error, Connector_is_valid. do 2 wlp_step.
  apply (wlp_this_connector w r); [done|]. do 3 wlp_step.
  apply (wlp_this_connector w r); [done|]. by wlp_steps.
Qed.

Lemma wlp_delete_thunk t w (Q : unit -> world -> Prop) :
  inv w -> is_Some (thunks w !! t) ->
  (forall w', after w w' -> (open w -> thunks w !! t = Some true \/ may_abort = true -> open w') -> Q tt w') ->
  gwlp may_abort (delete_thunk t) w Q.
Proof.
  intros Hinv Ht HQ. unfold delete_thunk, thunk_accept_was_invoked. wlp_steps.
  destruct (thunks w !! t) as [b|] eqn:Hb; [|by destruct Ht]. wlp_steps.
  assert (Hdel : forall w1, after w w1 -> thunks w1 = thunks w -> 
    after w (set_thunks (delete t (thunks w1)) (next_thunk w1) w1)).
  { intros w1 [Hinv1 Hk1] Hts. destruct (fine_thunks w1 (delete t (thunks w1)) Hinv1) as [Hinv2 Hk2].
    { intros t'. rewrite lookup_delete_is_Some. intros [_ H]. by apply (inv_thunks w1 Hinv1). }
    split; [done|]. by transitivity w1. }
  destruct b; simpl.
  - do 2 wlp_step. apply HQ; [by apply Hdel|]. by intros ? _.
  - do 2 wlp_step. destruct (weak_self_ w) eqn:Hw.
    + destruct (weak_router w Hinv Hw) as [r Hr].
      apply (wlp_Connector_CloseMessagePipe w r); [done..|]. intros w1 r1 Haf Hr1 He Hts _ _. wlp_step.
      apply HQ; [by apply Hdel|]. intros Hopen [?|Hs]; [done|]. intros Hs'. congruence.
    + do 2 wlp_step. apply HQ; [by apply Hdel|]. by intros ? _.
Qed.

(** ** The destructor *)

Lemma wlp_delete_responders (l : list (Z * responder)) w (Q : option False -> world -> Prop) :
  NoDup l.*2 -> (forall x, x ∈ l.*2 -> x ∈ responders_alive w) ->
  Q None (set_responders (responders_alive w ∖ list_to_set l.*2) (next_responder w) w) ->
  gwlp may_abort (for_each l (fun x => delete_responder x.2;; mret None)) w Q.
Proof.
  revert w. induction l as [|[i x] l IH]; intros w Hnd Hin HQ; simpl in *.
  - wlp_step. replace w with (set_responders (responders_alive w ∖ ∅) (next_responder w) w); [done|].
    destruct w. unfold set_responders. simpl. f_equal. set_solver.
  - inversion Hnd as [|? ? Hni Hnd']; subst.
    do 2 wlp_step. apply wlp_delete_responder; [apply Hin; set_solver|]. wlp_steps.
    apply IH; [done| |].
    + intros y Hy. simpl. assert (y <> x) by (intros ->; done). set_solver.
    + simpl. replace ((responders_alive w ∖ {[x]}) ∖ list_to_set l.*2)
        with (responders_alive w ∖ ({[x]} ∪ list_to_set l.*2)) by set_solver. exact HQ.
Qed.

(** A flag of an active read is raised. *)
Definition raised (f : option nat) (w : world) : world :=
  match f with
  | Some i => set_destroyed_flags (<[i := true]> (destroyed_flags w)) w
  | None => w
  end.

Lemma wlp_Connector_destructor w r (Q : unit -> world -> Prop) :
  waits_ok w -> router w = Some r ->
  (forall w', let w1 := waitless (raised (destroyed_flag_ (connector_ r)) w) r in
     w' = (if message_pipe_ (connector_ r) =? MOJO_HANDLE_INVALID then w1 else noted PipeClosed w1) -> Q tt w') ->
  gwlp may_abort Connector_destructor w Q.
Proof.
  intros Hw Hr HQ. unfold Connector_destructor. wlp_step. apply (wlp_this_connector w r); [done|].
  do 3 wlp_step. apply (wlp_CancelWait _ r).
  - by destruct (destroyed_flag_ (connector_ r)).
  - by destruct (destroyed_flag_ (connector_ r)).
  - destruct (_ =? _); [wlp_step|apply wlp_note]; apply HQ; by destruct (destroyed_flag_ (connector_ r)).
Qed.

Lemma wlp_Router_destructor w r (Q : unit -> world -> Prop) :
  inv w -> router w = Some r ->
  (forall w', after w w' -> router w' = None ->
     trace w' = pipe_closed (message_pipe_ (connector_ r)) ++ trace w -> Q tt w') ->
  gwlp may_abort Router_destructor w Q.
Proof.
  intros Hinv Hr HQ. unfold Router_destructor. wlp_step. apply (wlp_this w r); [done|]. wlp_steps.
  pose proof Hinv as []. destruct (inv_router0 r Hr).
  set (xs := (map_to_list (responders_ r)).*2).
  assert (Hxs : forall x, x ∈ xs -> exists id, responders_ r !! id = Some x).
  { intros x Hx. apply list_elem_of_fmap in Hx as ([id y] & -> & Hy). exists id.
    by apply elem_of_map_to_list. }
  apply wlp_delete_responders.
  - apply NoDup_fmap_2_strong; [|apply NoDup_map_to_list]. intros [i x] [j y] Hi Hj Hxy. simpl in Hxy.
    subst. apply elem_of_map_to_list in Hi, Hj. by rewrite (ok_inj0 _ _ _ Hi Hj).
  - intros x Hx. simpl. destruct (Hxs x Hx) as [id Hid]. eauto.
  - fold xs. wlp_step. apply (wlp_Connector_destructor _ r); [exact inv_waits0|exact Hr|].
    intros w' w1 Hw'. wlp_step. apply HQ; [|done|].
    2: { subst w1. unfold raised, pipe_closed in *. destruct (destroyed_flag_ (connector_ r)), (_ =? _); by subst. }
    assert (Hsame : forall (w2 : world), router w2 = None -> weak_self_ w2 = false -> waits w2 = ∅ ->
      next_wait w2 = next_wait w -> thunks w2 = thunks w -> next_thunk w2 = next_thunk w ->
      responders_alive w2 = responders_alive w ∖ list_to_set xs -> next_responder w2 = next_responder w ->
      system w2 = system w -> (trace w2 = trace w \/ trace w2 = PipeClosed :: trace w) ->
      length (destroyed_flags w2) = length (destroyed_flags w) ->
      (forall i, destroyed_flag_ (connector_ r) = Some i -> destroyed_flags w2 !! i = Some true) ->
      after w w2).
    { intros w2 H1 H2 H3 H4 H5 H6 H7 H8 H9 H10 H11 H12. split.
      - split.
        + by rewrite H1, H2.
        + unfold waits_ok. rewrite H1, H4. split; [apply inv_waits0|done].
        + by rewrite H5, H6.
        + rewrite H7, H8. set_solver.
        + rewrite H8. destruct H10 as [-> | ->]; [done|].
          intros id x Hin. apply elem_of_cons in Hin as [?|Hin]; [done|eauto].
        + by rewrite H9.
        + by destruct H10 as [-> | ->].
        + by rewrite H1.
      - split.
        + by rewrite Hr, H1.
        + intros x [Hx Hown]. split.
          * rewrite H7. apply elem_of_difference. split; [done|]. rewrite elem_of_list_to_set.
            intros Hin. destruct (Hxs x Hin) as [id Hid]. by apply (Hown r id Hr).
          * by rewrite H1. }
    assert (Hflags : forall i, destroyed_flag_ (connector_ r) = Some i -> 
      <[i := true]> (destroyed_flags w) !! i = Some true).
    { intros i Hi. apply list_lookup_insert_eq. auto. }
    subst w1. unfold raised in Hw'. destruct (destroyed_flag_ (connector_ r)) as [i|], (_ =? _);
      subst; apply Hsame; try done; simpl; auto;
      try (by rewrite length_insert); intros j Hj; simplify_eq; auto.
Qed.

(** * Reading *)

Section Callbacks.
Context (incoming_Accept : message -> M world bool) (connection_error_handler : M world unit).
(** A receiver that refuses a message may leave the pipe closed. *)
Context (incoming_ok : forall m w r, inv w -> open w -> router w = Some r ->
  error_ (connector_ r) = false -> readable m ->
  gwlp may_abort (incoming_Accept m) w (fun ok w' => after w w' /\ (ok = true -> open w'))).
Context (handler_ok : forall w, inv w -> open w ->
  gwlp may_abort connection_error_handler w (fun _ w' => fine w w')).

Lemma wlp_NotifyError w r (Q : unit -> world -> Prop) :
  inv w -> router w = Some r -> (forall w', fine w w' -> Q tt w') ->
  gwlp may_abort (NotifyError connection_error_handler) w Q.
Proof.
  intros Hinv Hr HQ. unfold NotifyError. wlp_step. unfold set_error.
  apply (wlp_update_connector _ _ r); [done|]. set (c := {| message_pipe_ := _ |}).
  assert (Hinv1 : inv (set_router (Some (with_connector c r)) w)) by (by apply inv_connector).
  assert (Hk1 : kept w (set_router (Some (with_connector c r)) w)) by (by apply kept_connector).
  set (w1 := set_router _ w) in *.
  wlp_step. apply (wlp_Connector_CloseMessagePipe w1 (with_connector c r)); [done..|].
  intros w2 r2 [Hinv2 Hk2] Hr2 He _ _ _. simpl in He. wlp_step. apply wlp_note.
  assert (Hinv3 : inv (noted ErrorNotified w2)).
  { apply inv_noted; try done. intros _ r' Hr'. congruence. }
  eapply wlp_mono; [apply handler_ok; [done|]|].
  - intros _ r' Hr' He'. simpl in Hr'. congruence.
  - intros [] w3 (Hinv4 & Hopen4 & Hk4). apply HQ. split; [done|]. split; [done|].
    transitivity w1; [done|]. transitivity w2; [done|]. transitivity (noted ErrorNotified w2); [|done].
    apply kept_noted.
Qed.

Lemma readable_empty : readable empty_message.
Proof. split; [|done]. intros a Ha. simpl in Ha. lia. Qed.

Lemma wlp_ReadAndDispatchMessage w r (Q : MojoResult * bool -> world -> Prop) :
  inv w -> open w -> router w = Some r -> error_ (connector_ r) = false ->
  (forall rv ok w', after w w' -> (rv <> MOJO_RESULT_OK \/ ok = true -> open w') -> Q (rv, ok) w') ->
  gwlp may_abort (ReadAndDispatchMessage debug incoming_Accept) w Q.
Proof.
  intros Hinv Hopen Hr He HQ. unfold ReadAndDispatchMessage. wlp_step.
  apply (wlp_this_connector w r); [done|]. wlp_step. unfold ReadMessage. wlp_step. apply wlp_dcheck.
  assert (Hdispatch : forall w1 rv m, inv w1 -> open w1 -> router w1 = Some r -> kept w w1 -> readable m ->
    gwlp may_abort (if rv =? MOJO_RESULT_OK then
       receiver_result ← incoming_Accept m; mret (rv, receiver_result) else mret (rv, false)) w1 Q).
  { intros w1 rv m Hinv1 Hopen1 Hr1 Hk1 Hm. destruct (Z.eqb_spec rv MOJO_RESULT_OK).
    - wlp_step. eapply wlp_mono; [by apply (incoming_ok m w1 r)|]. intros ok w2 [[Hinv2 Hk2] Ho].
      wlp_step. apply HQ; [split; [done|by transitivity w1]|]. intros [?|?]; [done|auto].
    - wlp_step. apply HQ; [done|]. done. }
  destruct (message_pipe_ (connector_ r) =? MOJO_HANDLE_INVALID).
  { wlp_step. apply HQ; [done|done]. }
  wlp_step. apply wlp_next_answer. intros a l Hl. destruct (inv_answer w a l Hinv Hl) as [Hinv1 Ha].
  destruct a as [rv|rv|rv|m rv|rv|]; try done.
  - destruct (rv =? MOJO_SYSTEM_RESULT_RESOURCE_EXHAUSTED); [done|]. wlp_step.
    apply Hdispatch; try done; [apply kept_answer|apply readable_empty].
  - wlp_step. apply Hdispatch; try done. apply kept_answer.
Qed.

Lemma inv_flags w fs :
  inv w -> (forall r i, router w = Some r -> destroyed_flag_ (connector_ r) = Some i -> (i < length fs)%nat) ->
  inv (set_destroyed_flags fs w).
Proof.
  intros [] Hfs. split; try done. intros r Hr. destruct (inv_router0 r Hr). split; try done.
  simpl. eauto.
Qed.

(** The flag of a read: the connector points to it while the read is active. *)
Definition with_flag (f : option nat) (r : Router) : Router :=
  with_connector {| message_pipe_ := message_pipe_ (connector_ r);
    async_wait_id_ := async_wait_id_ (connector_ r);
    error_ := error_ (connector_ r); drop_writes_ := drop_writes_ (connector_ r);
    enforce_errors_from_incoming_receiver_ := enforce_errors_from_incoming_receiver_ (connector_ r);
    destroyed_flag_ := f |} r.
Definition flagged (f : option nat) (fs : list bool) (r : Router) (w : world) : world :=
  set_router (Some (with_flag f r)) (set_destroyed_flags fs w).

Lemma inv_flagged w r f fs :
  inv w -> router w = Some r -> (forall i, f = Some i -> (i < length fs)%nat) ->
  inv (flagged f fs r w).
Proof.
  intros [] Hr Hf. split; try done.
  - simpl. rewrite inv_weak0, Hr. done.
  - unfold waits_ok in *. by rewrite Hr in inv_waits0.
  - intros r' [= <-]. by destruct (inv_router0 r Hr).
Qed.

Lemma held_flagged w r f fs x : router w = Some r -> held w x -> held (flagged f fs r w) x.
Proof. intros Hr [Hx Hown]. split; [done|]. intros r' id [= <-]. exact (Hown r id Hr). Qed.

(** A read that lives up to its end gives the connector its flag back. *)
Lemma fine_restored w r w2 r2 :
  let f := destroyed_flag_ (connector_ r) in
  let n := length (destroyed_flags w) in
  let w1 := flagged (Some n) (destroyed_flags w ++ [false]) r w in
  inv w -> router w = Some r -> after w1 w2 -> router w2 = Some r2 ->
  destroyed_flags w2 = destroyed_flags w ++ [false] /\
  after w (flagged f (destroyed_flags w) r2 w2) /\
  (open w2 -> open (flagged f (destroyed_flags w) r2 w2)).
Proof.
  intros f n w1 Hinv Hr [Hinv2 [Hk Hh]] Hr2. rewrite Hr2 in Hk. simpl in Hk. destruct Hk as (_ & Hfs & Ha).
  split; [done|]. split; [split; [|split]|].
  - apply inv_flagged; [done..|]. intros i Hi. by apply (ok_flag w r (inv_router w Hinv r Hr)).
  - simpl. by rewrite Hr.
  - intros x Hx. apply held_flagged; [done|]. apply Hh. by apply held_flagged.
  - intros Ho Hs r' [= <-]. exact (Ho Hs r2 Hr2).
Qed.

(** One whose connector is deleted meanwhile tells the read around it. *)
Lemma fine_deleted w r w2 :
  let f := destroyed_flag_ (connector_ r) in
  let n := length (destroyed_flags w) in
  let w1 := flagged (Some n) (destroyed_flags w ++ [false]) r w in
  inv w -> router w = Some r -> after w1 w2 -> router w2 = None ->
  destroyed_flags w2 !! n = Some true /\
  fine w (raised f (set_destroyed_flags (take n (destroyed_flags w2)) w2)).
Proof.
  intros f n w1 Hinv Hr [Hinv2 [Hk Hh]] Hr2. rewrite Hr2 in Hk. simpl in Hk. destruct Hk as [Hl Hf].
  rewrite length_app in Hl. simpl in Hl. fold n in Hl.
  set (w3 := set_destroyed_flags _ w2).
  assert (Hr3 : router (raised f w3) = None) by (by destruct f).
  assert (Hflags : length (destroyed_flags (raised f w3)) = n).
  { destruct f; simpl; rewrite ?length_insert, length_take; lia. }
  split; [by apply Hf|]. split; [|split; [|split]].
  - destruct f; simpl; unfold w3; repeat apply inv_flags; try done; intros r' i; simpl; congruence.
  - intros Hs r' Hr'. congruence.
  - rewrite Hr, Hr3. split; [done|]. intros i Hi. fold f in Hi. rewrite Hi. simpl.
    apply list_lookup_insert_eq. rewrite length_take.
    apply (ok_flag w r (inv_router w Hinv r Hr)) in Hi. unfold n in *. lia.
  - intros x Hx. destruct (Hh x) as [Hx2 _]; [by apply held_flagged|].
    split; [by destruct f|]. intros r' id Hr'. congruence.
Qed.

Lemma wlp_ReadSingleMessage w r (Q : bool * MojoResult -> world -> Prop) :
  inv w -> open w -> router w = Some r -> error_ (connector_ r) = false ->
  (forall b rv w', fine w w' -> (b = true -> is_Some (router w')) -> Q (b, rv) w') ->
  gwlp may_abort (ReadSingleMessage debug incoming_Accept connection_error_handler) w Q.
Proof.
  intros Hinv Hopen Hr He HQ. unfold ReadSingleMessage. wlp_step.
  apply (wlp_this_connector w r); [done|]. do 5 wlp_step.
  set (f := destroyed_flag_ (connector_ r)). set (n := length (destroyed_flags w)).
  set (w1 := flagged (Some n) (destroyed_flags w ++ [false]) r w).
  unfold set_destroyed_flag at 1. apply (wlp_update_connector _ _ r); [done|]. cbn beta. wlp_step.
  apply (wlp_ReadAndDispatchMessage w1 (with_flag (Some n) r)); [| |done..|].
  2: { intros Hs r' [= <-]. exact (Hopen Hs r Hr). }
  { apply inv_flagged; [done..|]. intros i [= <-]. rewrite length_app. simpl. lia. }
  intros rv ok w2 Hafter Hopen2. do 4 wlp_step. destruct (router w2) as [r2|] eqn:Hr2.
  - destruct (fine_restored w r w2 r2) as (Hfs & [Hinv3 Hk3] & Ho3); [done..|]. fold f in Hinv3, Hk3, Ho3.
    rewrite Hfs, list_lookup_middle, take_app_length' by done. simpl.
    wlp_step. unfold set_destroyed_flag. apply (wlp_update_connector _ _ r2); [done|].
    set (w3 := flagged f (destroyed_flags w) r2 w2) in *.
    change (set_router _ _) with w3. destruct (Z.eqb_spec rv MOJO_SYSTEM_RESULT_SHOULD_WAIT) as [->|Hsw].
    { wlp_step. apply HQ; [|done]. split; [done|]. split; [|done]. apply Ho3, Hopen2. by left. }
    wlp_step. apply (wlp_this_connector w3 (with_flag f r2)); [done|].
    destruct (negb (rv =? MOJO_RESULT_OK) || _) eqn:Hcond.
    + wlp_step. apply (wlp_NotifyError w3 (with_flag f r2)); [done..|]. intros w4 (Hinv4 & Ho4 & Hk4).
      wlp_step. apply HQ; [|done]. split; [done|]. split; [done|]. by transitivity w3.
    + wlp_step. apply HQ; [|done]. split; [done|]. split; [|done]. intros Hs. apply Ho3; [|done].
      apply Hopen2. right. pose proof (ok_enforce _ _ (inv_router w3 Hinv3 _ eq_refl) Hs) as Hen.
      simpl in Hcond, Hen. rewrite Hen in Hcond. destruct ok; [done|]. by rewrite orb_true_r in Hcond.
  - destruct (fine_deleted w r w2) as (Hlk & Hfine); [done..|]. fold n f in Hlk, Hfine.
    rewrite Hlk. simpl. do 3 wlp_step. apply HQ; [exact Hfine|done].
Qed.

(** A wait that is over is renewed when the pipe is empty. *)
Lemma wlp_ReadAllAvailableMessages fuel w0 r0 w r (Q : unit -> world -> Prop) :
  router w0 = Some r0 -> async_wait_id_ (connector_ r0) <> 0 -> fine w0 w ->
  router w = Some r -> async_wait_id_ (connector_ r) = 0 -> (forall w', fine w0 w' -> Q tt w') ->
  gwlp may_abort (ReadAllAvailableMessages debug incoming_Accept connection_error_handler fuel) w Q.
Proof.
  intros Hr0 Ha0 Hfine Hr Ha HQ. unfold ReadAllAvailableMessages.
  apply (wlp_while (fun _ w => fine w0 w /\
    exists r, router w = Some r /\ async_wait_id_ (connector_ r) = 0)); [by split; [|eexists]|].
  clear w r Hfine Hr Ha. intros [] w [Hfine (r & Hr & Ha)]. wlp_step.
  apply (wlp_this_connector w r); [done|]. pose proof Hfine as (Hinv & Hopen & Hk).
  destruct (error_ (connector_ r)) eqn:He; [wlp_step; auto|]. wlp_step.
  apply (wlp_ReadSingleMessage w r); [done..|]. intros b rv w1 Hfine1 Hb.
  assert (Hfine01 : fine w0 w1).
  { destruct Hfine1 as (Hinv1 & Hopen1 & Hk1). split; [done|]. split; [done|]. by transitivity w. }
  destruct b; simpl; [|wlp_step; auto]. destruct (Hb eq_refl) as [r1 Hr1].
  assert (Ha1 : async_wait_id_ (connector_ r1) = 0).
  { destruct Hfine1 as (_ & _ & [Hkr _]). rewrite Hr, Hr1 in Hkr. by apply Hkr. }
  destruct (rv =? MOJO_SYSTEM_RESULT_SHOULD_WAIT); [|wlp_step; by split; [|eexists]].
  wlp_step. apply (wlp_WaitToReadMore w1 r1); [apply Hfine1|apply Hfine1|done|done|].
  intros w2 r2 Hinv2 Hopen2 Hr2 Hd Hfs Hh Ha2. wlp_step. apply HQ.
  split; [done|]. split; [done|]. destruct Hfine01 as (_ & _ & [Hkr Hkh]). split; [|auto].
  rewrite Hr0, Hr1 in Hkr. rewrite Hr0, Hr2. destruct Hkr as (Hf1 & Hfs1 & _).
  split; [congruence|]. split; [congruence|done].
Qed.

Lemma wlp_Connector_WaitForIncomingMessage deadline w r (Q : bool -> world -> Prop) :
  inv w -> open w -> router w = Some r -> (forall b w', fine w w' -> Q b w') ->
  gwlp may_abort
    (Connector_WaitForIncomingMessage debug incoming_Accept connection_error_handler deadline) w Q.
Proof.
  intros Hinv Hopen Hr HQ. unfold Connector_WaitForIncomingMessage. wlp_step.
  apply (wlp_this_connector w r); [done|].
  destruct (error_ (connector_ r)) eqn:He; [wlp_step; by apply HQ|].
  assert (Hcont : forall w1 rv, fine w w1 -> router w1 = Some r -> 
    gwlp may_abort
      (if (rv =? MOJO_SYSTEM_RESULT_SHOULD_WAIT) || (rv =? MOJO_SYSTEM_RESULT_DEADLINE_EXCEEDED)
       then mret false
       else if negb (rv =? MOJO_RESULT_OK) then NotifyError connection_error_handler;; mret false
       else '(_, rv) ← ReadSingleMessage debug incoming_Accept connection_error_handler;
            mret (rv =? MOJO_RESULT_OK)) w1 Q).
  { intros w1 rv (Hinv1 & Hopen1 & Hk1) Hr1.
    assert (Hfine2 : forall w2, fine w1 w2 -> fine w w2).
    { intros w2 (Hinv2 & Hopen2 & Hk2). split; [done|]. split; [done|]. by transitivity w1. }
    destruct (_ || _); [wlp_step; by apply HQ|]. destruct (negb _).
    - wlp_step. apply (wlp_NotifyError w1 r); [done..|]. intros w2 Hf. wlp_step. auto.
    - wlp_step. apply (wlp_ReadSingleMessage w1 r); [done..|]. intros b rv' w2 Hf _. wlp_step. auto. }
  wlp_step. unfold Wait. destruct (message_pipe_ (connector_ r) =? MOJO_HANDLE_INVALID).
  - wlp_step. by apply Hcont.
  - wlp_step. apply wlp_next_answer. intros a l Hl. destruct (inv_answer w a l Hinv Hl) as [Hinv1 _].
    destruct a; try done. wlp_step. apply Hcont; [|done]. split; [done|]. split; [done|]. apply kept_answer.
Qed.

(** The waiter has dropped the wait before it calls back. *)
Lemma wlp_OnHandleReady fuel result w r (Q : unit -> world -> Prop) :
  inv w -> open w -> router w = Some r -> async_wait_id_ (connector_ r) <> 0 ->
  (forall w', fine w w' -> Q tt w') ->
  gwlp may_abort (OnHandleReady debug incoming_Accept connection_error_handler fuel result)
    (set_waits ∅ (next_wait w) w) Q.
Proof.
  intros Hinv Hopen Hr Ha HQ. unfold OnHandleReady. wlp_step.
  apply (wlp_this_connector _ r); [done|]. wlp_step. apply wlp_check.
  { intros _. by apply negb_true_iff, Z.eqb_neq. }
  intros _. wlp_step. unfold set_async_wait_id. apply (wlp_update_connector _ _ r); [done|].
  pose proof (inv_waitless w r Hinv Hr) as Hinv1. pose proof (kept_waitless w r Hr) as Hk1.
  set (w1 := waitless w r) in *. change (set_router _ _) with w1. cbn beta.
  assert (Hopen1 : open w1) by (intros Hs r' [= <-]; exact (Hopen Hs r Hr)).
  destruct (negb _).
  - apply (wlp_NotifyError w1 (no_wait r)); [done..|]. intros w2 (Hinv2 & Hopen2 & Hk2).
    apply HQ. split; [done|]. split; [done|]. by transitivity w1.
  - by apply (wlp_ReadAllAvailableMessages fuel w r w1 (no_wait r)).
Qed.
End Callbacks.
End Code.
End Facts.
