(* ===== verification/RouterSpec.v ===== *)
(** The router under any application: incoming messages, responses and nested loops
    keep the invariant of [RouterFacts], and so does every program that uses it. *)
From stdpp Require Import base numbers list option gmap sets.
From coqutil Require Import Byte.
From Stdlib Require Import ZArith Lia.
From S2P Require Import Prelude Result CMem Buffer Descriptor Validate Message Serialization.
From S2P Require Import SerializationFacts Router RouterFacts.

(** * Validated messages *)

Lemma valid_message_words m :
  readable m -> header_valid m ->
  exists version flags, header_version (message_mem m) (message_data m) = Ok version /\
    header_flags (message_mem m) (message_data m) = Ok flags /\ sendable 16 m /\
    (has_flag flags kMessageIsResponse = true -> version >= 1 /\ sendable 24 m).
Proof.
  intros (Hs & Hd & Hn & Hhi) Hv. unfold header_valid in Hv.
  destruct (ValidateHeader_returns (message_mem m) (data_ (message_data m))
    (data_num_bytes_ (message_data m)) Hs) as (res & Hres & Hiff).
  rewrite Hv in Hres. injection Hres as <-.
  destruct (proj1 Hiff eq_refl) as (H8 & nb & v & fl & Hnb & Hver & Hfl & Hsz & Hok).
  exists v, fl. split; [exact Hver|]. split; [exact Hfl|].
  assert (Hle : 16 <= nb) by (destruct Hok as [(_ & -> & _)|[(_ & -> & _)|(_ & ? & _)]]; lia).
  split; [unfold sendable in *; eapply mapped_weaken; [exact Hs|lia..]|].
  unfold kMessageIsResponse. rewrite has_flag_testbit by lia. unfold kind_of in Hok. intros Hr.
  rewrite Hr in Hok. assert (1 <= v /\ 24 <= nb) as [??].
  { destruct Hok as [(_ & _ & H)|[(-> & -> & _)|(? & ? & _)]]; [|lia..]. by destruct (Z.testbit fl 0). }
  split; [lia|]. unfold sendable in *. eapply mapped_weaken; [exact Hs|lia..].
Qed.

Section Spec.
Context (may_abort debug : bool) (debug_aborts : debug = true -> may_abort = true).

(** What the application is: the validators, of which the first is for headers, the
    receiver, the responders of its requests and the error handler. *)
Context (validators_ : list (mem -> Serialization.Message -> outcome ValidationError)).
Context (receiver_Accept : message -> app) (receiver_AcceptWithResponder : message -> thunk -> app)
  (responder_Accept : responder -> message -> app) (error_handler : app).

(** The validators return on messages that can be read; the messages they let pass
    have a valid header. *)
Definition validators_ok : Prop := forall m, readable m -> exists error,
  RunValidatorsOnMessage ((fun v => v (message_mem m)) <$> validators_) (message_data m) = Ok error /\
  (error = NONE -> header_valid m).

Record application_ok : Prop := {
  receiver_Accept_ok : forall m, app_ok may_abort (receiver_Accept m);
  receiver_AcceptWithResponder_ok : forall m t, app_ok may_abort (receiver_AcceptWithResponder m t);
  responder_Accept_ok : forall r m, app_ok may_abort (responder_Accept r m);
  error_handler_ok : app_ok may_abort error_handler;
}.
Context (validated : validators_ok) (behaves : application_ok).

Abbreviation inv := (inv may_abort).
Abbreviation open := (open may_abort).
Abbreviation after := (after may_abort).
Abbreviation fine := (fine may_abort).

(** ** Steps *)

Lemma fine_trans w w1 w2 : fine w w1 -> fine w1 w2 -> fine w w2.
Proof. intros (? & ? & ?) (? & ? & ?). split; [done|]. split; [done|]. by transitivity w1. Qed.

Lemma fine_self w : inv w -> open w -> fine w w.
Proof. done. Qed.

(** A thunk for a request. *)
Lemma wlp_new_thunk w (Q : thunk -> world -> Prop) :
  inv w -> open w ->
  (forall t w', fine w w' -> is_Some (thunks w' !! t) -> router w' = router w -> trace w' = trace w -> Q t w') ->
  gwlp may_abort new_thunk w Q.
Proof.
  intros Hinv Hopen HQ. unfold new_thunk. repeat wlp_step. apply HQ; [|by simpl; rewrite lookup_insert_eq|done..].
  destruct Hinv. split; [|split; [exact Hopen|split; [simpl; by destruct (router w)|done]]].
  split; try done.
  - intros t. simpl. rewrite lookup_insert_is_Some'. intros [<-|Ht]; [lia|]. apply inv_thunks in Ht. lia.
  - intros r Hr. by destruct (inv_router r Hr).
Qed.

(** A responder leaves the map, for its response. *)
Definition responded (id : Z) (x : responder) (r : Router) (w : world) : world :=
  noted (Responded id x) (set_router (Some
    {| connector_ := connector_ r; incoming_receiver_ := incoming_receiver_ r;
       responders_ := delete id (responders_ r); next_request_id_ := next_request_id_ r;
       testing_mode_ := testing_mode_ r |}) w).

Lemma inv_responded id x r w :
  inv w -> router w = Some r -> error_ (connector_ r) = false -> responders_ r !! id = Some x ->
  inv (responded id x r w) /\ kept w (responded id x r w) /\ held (responded id x r w) x.
Proof.
  intros [] Hr He Hx. destruct (inv_router r Hr).
  assert (Hout : forall i, delete id (responders_ r) !! i <> Some x).
  { intros i [? Hi]%lookup_delete_Some. by destruct (ok_inj _ _ _ Hi Hx). }
  split; [|split; [split|split]]; simpl.
  - split; simpl; try done.
    + rewrite inv_weak, Hr. done.
    + unfold waits_ok in *. by rewrite Hr in inv_waits.
    + intros i y Hin. apply elem_of_cons in Hin as [?|Hin]; [done|eauto].
    + split; [|done]. split; [by rewrite <- ok_outstanding|]. intros Hf. apply ok_failed in Hf. congruence.
    + intros r' [= <-]. split; simpl; try done.
      * intros i y [_ Hi]%lookup_delete_Some. eauto.
      * intros i j y [_ Hi]%lookup_delete_Some [_ Hj]%lookup_delete_Some. eauto.
      * by rewrite ok_outstanding.
      * intros Hf. apply elem_of_cons in Hf as [?|Hf]; [done|auto].
  - by rewrite Hr.
  - intros y [Hy Hown]. split; [done|]. intros r' i [= <-]. simpl.
    intros [_ Hi]%lookup_delete_Some. exact (Hown r i Hr Hi).
  - eauto.
  - intros r' i [= <-]. apply Hout.
Qed.

Lemma kept_responder_ends w w' r id x :
  kept w w' -> router w = Some r -> responders_ r !! id = Some x ->
  kept w (set_responders (responders_alive w' ∖ {[x]}) (next_responder w') w').
Proof.
  intros [Hk Hh] Hr Hx. split; [exact Hk|]. intros y Hy. destruct (Hh y Hy) as [Hy' Hown]. split; [|exact Hown].
  assert (y <> x); [|set_solver]. intros ->. destruct Hy as [_ Hno]. by apply (Hno r id Hr).
Qed.

(** * The callbacks *)

Section Call.
Context (call : app -> M world bool).
Context (call_ok : forall a w, app_ok may_abort a -> inv w -> open w ->
  gwlp may_abort (call a) w (fun _ w' => fine w w')).

Lemma wlp_call a w (Q : bool -> world -> Prop) :
  app_ok may_abort a -> inv w -> open w -> (forall ok w', fine w w' -> Q ok w') -> gwlp may_abort (call a) w Q.
Proof. intros Ha Hinv Hopen HQ. eapply wlp_mono; [by apply call_ok|]. auto. Qed.

Lemma wlp_handle_error w (Q : unit -> world -> Prop) :
  inv w -> open w -> (forall w', fine w w' -> Q tt w') -> gwlp may_abort (handle_error error_handler call) w Q.
Proof.
  intros Hinv Hopen HQ. unfold handle_error. wlp_step. apply wlp_call; [apply behaves|done..|].
  intros _ w' Hf. wlp_step. auto.
Qed.

(** A message that is delivered: there was no error. *)
Lemma fine_delivered m r w :
  inv w -> open w -> router w = Some r -> error_ (connector_ r) = false -> fine w (noted (Delivered m) w).
Proof.
  intros Hinv Hopen Hr He. split; [|split; [exact Hopen|apply kept_noted]].
  apply inv_noted; try done. intros Hf. apply (ok_failed _ _ _ (inv_router _ w Hinv r Hr)) in Hf. congruence.
Qed.

(** A request that expects a response. *)
Lemma wlp_handle_request m r w (Q : bool -> world -> Prop) :
  inv w -> open w -> router w = Some r -> error_ (connector_ r) = false ->
  (forall ok w', after w w' -> (ok = true -> open w') -> Q ok w') ->
  gwlp may_abort
    (self ← this;
     if incoming_receiver_ self then
       t ← new_thunk;
       note (Delivered m);;
       ok ← call_AcceptWithResponder receiver_AcceptWithResponder call m t;
       (if negb ok then delete_thunk t else mret tt);;
       mret ok
     else Connector_CloseMessagePipe;; mret false) w Q.
Proof.
  intros Hinv Hopen Hr He HQ. wlp_step. apply (wlp_this _ w r); [done|].
  destruct (incoming_receiver_ r).
  - wlp_step. apply wlp_new_thunk; [done..|]. intros t w1 Hf1 Ht Hr1 _. pose proof Hf1 as (Hinv1 & Hopen1 & _).
    wlp_step. apply wlp_note. destruct (fine_delivered m r w1) as (Hinv2 & Hopen2 & Hk2); [done..|by rewrite Hr1|done|].
    unfold call_AcceptWithResponder. do 2 wlp_step.
    apply wlp_call; [apply behaves|done..|]. intros ok w3 (Hinv3 & Hopen3 & Hk3). do 2 wlp_step.
    assert (Hk : kept w w3).
    { transitivity w1; [apply Hf1|]. by transitivity (noted (Delivered m) w1). }
    destruct (negb ok && bool_decide (thunks w3 !! t = None)) eqn:Hgone; [done|]. wlp_step.
    destruct ok; simpl in *.
    + repeat wlp_step. by apply HQ.
    + apply bool_decide_eq_false_1 in Hgone. wlp_step.
      apply wlp_delete_thunk; [done|by apply not_eq_None_Some|]. intros w4 [Hinv4 Hk4] _. wlp_step.
      apply HQ; [|done]. split; [done|]. by transitivity w3.
  - wlp_step. apply (wlp_Connector_CloseMessagePipe _ w r); [done..|]. intros w1 r1 Haf _ _ _ _ _. wlp_step.
    by apply HQ.
Qed.

(** A response. *)
Lemma wlp_handle_response m id r w (Q : bool -> world -> Prop) :
  inv w -> open w -> router w = Some r -> error_ (connector_ r) = false ->
  (forall ok w', fine w w' -> Q ok w') ->
  gwlp may_abort
    (match responders_ r !! id with
     | None => MOJO_DCHECK debug (testing_mode_ r);; mret false
     | Some x =>
         set_responder_map (delete id (responders_ r)) (next_request_id_ r);;
         check_responder x;;
         note (Responded id x);;
         ok ← call (responder_Accept x m);
         delete_responder x;;
         mret ok
     end) w Q.
Proof.
  intros Hinv Hopen Hr He HQ. destruct (responders_ r !! id) as [x|] eqn:Hx.
  - wlp_step. unfold set_responder_map, update_this. wlp_step. apply (wlp_this _ w r); [done|]. do 2 wlp_step.
    unfold check_responder. do 2 wlp_step.
    destruct (inv_responded id x r w) as (Hinv1 & Hk1 & Hheld); [done..|].
    rewrite decide_True by apply Hheld. do 2 wlp_step. apply wlp_note. wlp_step.
    change (noted _ _) with (responded id x r w).
    apply wlp_call; [apply behaves|exact Hinv1|intros Hs r' [= <-]; exact (Hopen Hs r Hr)|].
    intros ok w2 (Hinv2 & Hopen2 & Hk2). pose proof (kept_held _ _ Hk2 x Hheld) as Hheld2.
    wlp_step. apply wlp_delete_responder; [apply Hheld2|]. wlp_step. apply HQ.
    split; [by apply inv_responder_ends|]. split; [exact Hopen2|].
    apply (kept_responder_ends _ _ r id); [|done..]. by transitivity (responded id x r w).
  - wlp_step. apply wlp_dcheck; [done|]. wlp_step. by apply HQ.
Qed.

(** What the router does with a message that the connector has read. *)
Lemma wlp_HandleIncomingMessage m r w (Q : bool -> world -> Prop) :
  inv w -> open w -> router w = Some r -> error_ (connector_ r) = false -> readable m ->
  (forall ok w', after w w' -> (ok = true -> open w') -> Q ok w') ->
  gwlp may_abort
    (HandleIncomingMessage debug validators_ receiver_Accept receiver_AcceptWithResponder
       responder_Accept call m) w Q.
Proof.
  intros Hinv Hopen Hr He Hm HQ. unfold HandleIncomingMessage.
  assert (Hfine : forall ok w', fine w w' -> Q ok w') by (intros ok w' (? & ? & ?); by apply HQ).
  destruct (validated m Hm) as (e & Hv & Hheader). wlp_step. apply (wlp_lift _ e); [exact Hv|].
  destruct (bool_decide_reflect (e <> NONE)) as [Hne|Hnone]; [by apply Hfine|].
  apply dec_stable, Hheader in Hnone.
  destruct (valid_message_words m Hm Hnone) as (version & flags & Hver & Hfl & H16 & Hresp).
  assert (Hflag : forall flag, has_message_flag m flag w = Ok (has_flag flags flag, w)).
  { intros flag. unfold has_message_flag, Message_has_flag. by rewrite Hfl. }
  wlp_step. unfold gwlp at 1. rewrite Hflag. destruct (has_flag flags kMessageExpectsResponse).
  { by apply (wlp_handle_request m r). }
  wlp_step. unfold gwlp at 1. rewrite Hflag. destruct (has_flag flags kMessageIsResponse).
  - destruct (Hresp eq_refl) as [Hge H24].
    destruct (load_mapped (message_mem m) (data_ (message_data m) + 16) 8) as (id & Hid & _).
    { unfold sendable in H24. eapply mapped_weaken; [exact H24|lia..]. }
    wlp_step. apply (wlp_lift _ id).
    { unfold request_id, has_request_id. rewrite Hver. unfold mbind, outcome_bind, mret, outcome_ret.
      destruct (Z.geb_spec version 1); [|lia]. by destruct debug. }
    wlp_step. apply (wlp_this _ w r); [done|]. by apply (wlp_handle_response m id r).
  - wlp_step. apply (wlp_this _ w r); [done|]. destruct (incoming_receiver_ r); [|wlp_step; by apply Hfine].
    wlp_step. apply wlp_note. pose proof (fine_delivered m r w Hinv Hopen Hr He) as Hf1.
    apply wlp_call; [apply behaves|apply Hf1..|]. intros ok w2 Hf2. apply Hfine. by eapply fine_trans.
Qed.

(** A nested loop. *)
Lemma wlp_nested_loop fuel w (Q : unit -> world -> Prop) :
  inv w -> open w -> (forall w', fine w w' -> Q tt w') ->
  gwlp may_abort
    (nested_loop debug validators_ receiver_Accept receiver_AcceptWithResponder responder_Accept
       error_handler call fuel) w Q.
Proof.
  intros Hinv Hopen HQ. unfold nested_loop. do 2 wlp_step.
  destruct (router w) as [r|] eqn:Hr; [|wlp_step; by apply HQ].
  destruct (decide _) as [Hin|_]; [|wlp_step; by apply HQ].
  wlp_step. apply wlp_next_answer. intros a l Hl.
  destruct (inv_answer _ w a l Hinv Hl) as [Hinv1 _]. set (w1 := set_system l w) in *.
  assert (Hf1 : fine w w1) by (split; [done|]; split; [exact Hopen|apply kept_answer]).
  destruct a as [| | | |result|]; try done; [|wlp_step; by apply HQ].
  assert (Hw : waits w = {[async_wait_id_ (connector_ r)]} /\ async_wait_id_ (connector_ r) <> 0).
  { pose proof (inv_waits _ w Hinv) as [_ Hw]. rewrite Hr in Hw. destruct Hw as (_ & _ & Hw).
    destruct (Z.eqb_spec (async_wait_id_ (connector_ r)) 0); [|done]. rewrite Hw in Hin. set_solver. }
  destruct Hw as [Hw Ha]. do 2 wlp_step.
  replace (waits w1 ∖ {[async_wait_id_ (connector_ r)]}) with (∅ : gset Z) by (simpl; rewrite Hw; set_solver).
  apply (wlp_OnHandleReady may_abort debug debug_aborts _ _) with (r := r); try done.
  - intros m w2 r2 Hinv2 Hopen2 Hr2 He2 Hm. by eapply wlp_HandleIncomingMessage.
  - intros w2 Hinv2 Hopen2. by apply wlp_handle_error.
  - intros w2 Hf2. apply HQ. by eapply fine_trans.
Qed.

Lemma wlp_wait_for_message deadline r w (Q : bool -> world -> Prop) :
  inv w -> open w -> router w = Some r -> (forall ok w', fine w w' -> Q ok w') ->
  gwlp may_abort
    (Connector_WaitForIncomingMessage debug
       (HandleIncomingMessage debug validators_ receiver_Accept receiver_AcceptWithResponder
          responder_Accept call) (handle_error error_handler call) deadline) w Q.
Proof.
  intros Hinv Hopen Hr HQ.
  apply (wlp_Connector_WaitForIncomingMessage may_abort debug debug_aborts _ _) with (r := r); try done.
  - intros m w2 r2 Hinv2 Hopen2 Hr2 He2 Hm. by eapply wlp_HandleIncomingMessage.
  - intros w2 Hinv2 Hopen2. by apply wlp_handle_error.
Qed.
End Call.

(** * Programs *)

Lemma wlp_has_router w (Q : unit -> world -> Prop) :
  (forall r, router w = Some r -> Q tt w) -> gwlp may_abort has_router w Q.
Proof. intros HQ. unfold has_router. do 2 wlp_step. destruct (router w); [|done]. wlp_step. eauto. Qed.

Lemma wlp_has_thunk t w (Q : unit -> world -> Prop) :
  (is_Some (thunks w !! t) -> Q tt w) -> gwlp may_abort (has_thunk t) w Q.
Proof. intros HQ. unfold has_thunk. do 2 wlp_step. destruct (thunks w !! t); [|done]. wlp_step. eauto. Qed.

Section Calls.
Context (call : app -> M world bool) (fuel : nat).
Context (call_ok : forall a w, app_ok may_abort a -> inv w -> open w ->
  gwlp may_abort (call a) w (fun _ w' => fine w w')).

Abbreviation run_calls := (run_calls debug validators_ receiver_Accept receiver_AcceptWithResponder
  responder_Accept error_handler call fuel).

Definition runs (a : app) : Prop := forall w, inv w -> open w ->
  gwlp may_abort (run_calls a) w (fun _ w' => fine w w').

(** The calls after the first one. *)
Lemma wlp_rest a w w1 : runs a -> fine w w1 -> gwlp may_abort (run_calls a) w1 (fun _ w' => fine w w').
Proof.
  intros Hruns Hf. eapply wlp_mono; [apply Hruns; apply Hf|]. intros ? w' ?. by eapply fine_trans.
Qed.

Lemma after_fine w w' : may_abort = true -> after w w' -> fine w w'.
Proof. intros Hs [? ?]. split; [done|]. split; [|done]. intros Hs'. congruence. Qed.

Lemma set_receiver_fine w r is_set :
  inv w -> open w -> router w = Some r ->
  fine w (set_router (Some {| connector_ := connector_ r; incoming_receiver_ := is_set;
    responders_ := responders_ r; next_request_id_ := next_request_id_ r; testing_mode_ := testing_mode_ r |}) w).
Proof.
  intros [] Hopen Hr. split; [|split; [|split]].
  - split; try done.
    + simpl. rewrite inv_weak, Hr. done.
    + unfold waits_ok in *. by rewrite Hr in inv_waits.
    + intros r' [= <-]. by destruct (inv_router r Hr).
  - intros Hs r' [= <-]. exact (Hopen Hs r Hr).
  - simpl. by rewrite Hr.
  - intros x [Hx Hown]. split; [done|]. intros r' id [= <-]. exact (Hown r id Hr).
Qed.

Lemma runs_respond t m k :
  sendable 16 m -> (forall ok, runs (k ok)) -> runs (Respond t m k).
Proof.
  intros Hm IH w Hinv Hopen. simpl. wlp_step. apply wlp_has_thunk. intros Ht. wlp_step.
  apply wlp_ResponderThunk_Accept; [done..|]. intros ok w1 (Hinv1 & Hopen1 & Hk1) Ht1.
  wlp_step. apply wlp_delete_thunk; [done|by rewrite Ht1|]. intros w2 [Hinv2 Hk2] Hopen2.
  apply wlp_rest; [done|]. split; [done|]. split; [by apply Hopen2; [|left]|]. by transitivity w1.
Qed.

Lemma wlp_run_app a : app_ok may_abort a -> runs a.
Proof.
  induction a as [ok|m k IH|m k IH|k IH|k IH|deadline k IH|k IH|is_set k IH|k IH|t m k IH|t k IH|t k IH|k IH];
    intros Ha w Hinv Hopen; simpl in Ha |- *.
  10: { destruct Ha as [Hm Hk]. apply (runs_respond t m k Hm); auto. }
  - by wlp_step.
  - destruct Ha as [Hm Hk]. wlp_step. apply wlp_has_router. intros r Hr. wlp_step.
    apply (wlp_Router_Accept _ _ debug_aborts _ _ r); [done..|]. intros ok w1 Hf _. by apply wlp_rest; auto.
  - destruct Ha as [Hm Hk]. wlp_step. apply wlp_has_router. intros r Hr. wlp_step.
    apply (wlp_send_request _ _ debug_aborts _ _ r); [done..|]. intros ok w1 Hf _. by apply wlp_rest; auto.
  - destruct Ha as [Hs Hk]. wlp_step. apply wlp_has_router. intros r Hr. wlp_step.
    apply (wlp_Connector_CloseMessagePipe _ w r); [done..|]. intros w1 r1 Haf _ _ _ _ _.
    apply wlp_rest; [auto|]. by apply after_fine.
  - destruct Ha as [Hs Hk]. wlp_step. apply wlp_has_router. intros r Hr. wlp_step.
    apply (wlp_Connector_PassMessagePipe _ w r); [done..|]. intros pipe w1 Haf.
    apply wlp_rest; [auto|]. by apply after_fine.
  - wlp_step. apply wlp_has_router. intros r Hr. wlp_step.
    apply (wlp_wait_for_message call call_ok deadline r); [done..|]. intros ok w1 Hf. by apply wlp_rest; auto.
  - wlp_step. apply wlp_has_router. intros r Hr. unfold Connector_encountered_error. do 2 wlp_step.
    apply (wlp_this_connector _ w r); [done|]. wlp_step. by apply wlp_rest; auto.
  - wlp_step. apply wlp_has_router. intros r Hr. unfold update_this. do 2 wlp_step.
    apply (wlp_this _ w r); [done|]. wlp_step. apply wlp_rest; [auto|]. by apply set_receiver_fine.
  - wlp_step. apply wlp_has_router. intros r Hr. wlp_step.
    apply (wlp_Router_destructor may_abort debug debug_aborts w r); [done..|]. intros w1 [Hinv1 Hk1] Hr1 _.
    apply wlp_rest; [auto|]. split; [done|]. split; [|done]. intros _ r'. congruence.
  - wlp_step. apply wlp_has_thunk. intros Ht. wlp_step. apply wlp_ResponderThunk_IsValid; [done..|].
    intros b. by apply wlp_rest; auto.
  - destruct Ha as [Hs Hk]. wlp_step. apply wlp_has_thunk. intros Ht. wlp_step.
    apply wlp_delete_thunk; [done..|]. intros w1 Haf _. apply wlp_rest; [auto|]. by apply after_fine.
  - wlp_step. apply wlp_nested_loop; [done..|]. intros w1 Hf. by apply wlp_rest; auto.
Qed.
End Calls.

Lemma run_app_fine fuel a w :
  app_ok may_abort a -> inv w -> open w ->
  gwlp may_abort (run_app debug validators_ receiver_Accept receiver_AcceptWithResponder responder_Accept
    error_handler fuel a) w (fun _ w' => fine w w').
Proof.
  revert a w. induction fuel as [|fuel IH]; intros a w Ha; [apply wlp_run_app|apply (wlp_run_app _ (S fuel))]; done.
Qed.

(** The router of a new pipe. *)
Lemma create_fine pipe l :
  pipe <> MOJO_HANDLE_INVALID -> Forall (answer_ok may_abort) l ->
  exists w, create pipe l = Ok w /\ inv w /\ open w.
Proof.
  intros Hp Hl. eexists. split; [reflexivity|]. split; [|by intros _ r [= <-] _].
  split; simpl; try done; [by intros t [? ?]|by intros ? ? ?%elem_of_nil|].
  intros r [= <-]. by split; simpl; try done; intros ?%elem_of_nil.
Qed.

End Spec.

(** * Validation *)

Lemma RunValidators_returns (vs : list (mem -> Serialization.Message -> outcome ValidationError)) m :
  (forall v, v ∈ vs -> exists error, v (message_mem m) (message_data m) = Ok error) ->
  exists error, RunValidatorsOnMessage ((fun v => v (message_mem m)) <$> vs) (message_data m) = Ok error.
Proof.
  induction vs as [|v vs IH]; intros Hvs; [by eexists|]. simpl.
  destruct (Hvs v) as [e ->]; [by left|]. unfold mbind, outcome_bind.
  destruct (bool_decide _); [by eexists|]. apply IH. intros v' ?. apply Hvs. by right.
Qed.

(** Headers are validated when their validator comes first. *)
Lemma header_validator_first debug rest :
  (forall v m, v ∈ rest -> readable m -> header_valid m ->
     exists error, v (message_mem m) (message_data m) = Ok error) ->
  validators_ok (MessageHeaderValidator_Validate debug :: rest).
Proof.
  intros Hrest m Hm. pose proof Hm as (Hmap & Hd & Hn & Hhi).
  destruct (MessageHeaderValidator_returns debug (message_mem m) (message_data m)) as (e & res & He & Hres & Heq);
    [done..|].
  simpl. rewrite He. unfold mbind, outcome_bind. destruct (bool_decide_reflect (e <> NONE)) as [Hne|Hnone].
  { by exists e. }
  apply dec_stable in Hnone. subst e. destruct (IsAligned _); [subst res|done].
  assert (Hv : header_valid m) by exact Hres.
  destruct (RunValidators_returns rest m) as [e' He']; [eauto|]. by exists e'.
Qed.

(** * Legal traces *)

Lemma legal_suffix tr1 tr2 : legal (tr1 ++ tr2) -> legal tr2.
Proof. induction tr1 as [|e tr1 IH]; [done|]. intros [_ H]. auto. Qed.

Lemma outstanding_requested tr id r : outstanding tr !! id = Some r -> Requested id r ∈ tr.
Proof.
  induction tr as [|e tr IH]; [done|]. destruct e as [id' r'|id'|id' r'|m| |]; simpl; intros H.
  - apply lookup_insert_Some in H as [[-> ->]|[_ H]]; [left|right; auto].
  - right. auto.
  - apply lookup_delete_Some in H as [_ H]. right. auto.
  - right. auto.
  - right. auto.
  - right. auto.
Qed.

(** A responder waits for one response. *)
Lemma outstanding_inj tr i j r :
  legal tr -> outstanding tr !! i = Some r -> outstanding tr !! j = Some r -> i = j.
Proof.
  induction tr as [|e tr IH]; [done|]. intros [Ha Hl] Hi Hj.
  destruct e as [id' r'|id'|id' r'|m| |]; simpl in *; auto.
  - destruct Ha as [_ Hno].
    apply lookup_insert_Some in Hi as [[<- ->]|[_ Hi]], Hj as [[<- ?]|[_ Hj]]; subst; try done; auto.
    + by apply outstanding_requested, Hno in Hj.
    + by apply outstanding_requested, Hno in Hi.
  - apply lookup_delete_Some in Hi as [_ Hi], Hj as [_ Hj]. auto.
Qed.

(** A responder that was used, or whose response came, is never used again. *)
Lemma not_again tr1 tr2 r :
  legal (tr1 ++ tr2) -> (exists id, Requested id r ∈ tr2) -> (forall id, outstanding tr2 !! id <> Some r) ->
  (forall id, outstanding (tr1 ++ tr2) !! id <> Some r) /\ forall id, Responded id r ∉ tr1.
Proof.
  intros Hl [id0 Hreq] Hno. induction tr1 as [|e tr1 IH]; simpl; [by split; [|intros ? ?%elem_of_nil]|].
  destruct Hl as [Ha Hl]. destruct (IH Hl) as [Hout Hres].
  assert (Hin : Requested id0 r ∈ tr1 ++ tr2) by (apply elem_of_app; by right).
  destruct e as [id' r'|id'|id' r'|m| |]; simpl in *; split; try done;
    try (intros id [?|?]%elem_of_cons; [done|by eapply Hres]).
  - intros id [[-> ->]|[_ H]]%lookup_insert_Some; [|by eapply Hout]. by eapply Ha.
  - intros id [_ H]%lookup_delete_Some. by eapply Hout.
  - intros id [[= -> ->]|?]%elem_of_cons; [by eapply Hout, Ha|by eapply Hres].
Qed.

Lemma responded_once tr1 tr2 id r :
  legal (tr1 ++ Responded id r :: tr2) ->
  Requested id r ∈ tr2 /\ forall id', Responded id' r ∉ tr1.
Proof.
  intros Hl. pose proof (legal_suffix _ _ Hl) as [[Hout _] Hl2].
  pose proof (outstanding_requested _ _ _ Hout) as Hreq. split; [done|].
  apply (not_again tr1 (Responded id r :: tr2)); [done|exists id; by right|].
  intros i Hi. simpl in Hi. apply lookup_delete_Some in Hi as [Hne Hi].
  by apply Hne, (outstanding_inj tr2 id i r).
Qed.

Lemma attempts_nonneg tr : 0 <= attempts tr.
Proof. induction tr as [|[]]; simpl; lia. Qed.

Lemma attempts_app tr1 tr2 : attempts (tr1 ++ tr2) = attempts tr1 + attempts tr2.
Proof. induction tr1 as [|[] tr1 IH]; simpl; lia. Qed.

(** Until the counter wraps, ids count the requests. *)
Lemma requested_id tr tr1 tr2 id r :
  legal tr -> attempts tr < 2 ^ 64 -> tr = tr1 ++ Requested id r :: tr2 -> id = attempts tr2 + 1.
Proof.
  intros Hl Hlt ->. pose proof (legal_suffix _ _ Hl) as [[[_ Hid] _] _]. apply Hid.
  rewrite attempts_app in Hlt. simpl in Hlt. pose proof (attempts_nonneg tr1). lia.
Qed.

Lemma requested_fresh tr tr1 tr2 id r r' :
  legal tr -> attempts tr < 2 ^ 64 -> tr = tr1 ++ Requested id r :: tr2 -> Requested id r' ∉ tr2.
Proof.
  intros Hl Hlt Htr (tr3 & tr4 & ->)%list_elem_of_split.
  pose proof (requested_id tr tr1 _ id r Hl Hlt Htr) as H1.
  assert (Htr' : tr = (tr1 ++ Requested id r :: tr3) ++ Requested id r' :: tr4).
  { by rewrite Htr, <- app_assoc. }
  pose proof (requested_id tr _ tr4 id r' Hl Hlt Htr') as H2.
  rewrite attempts_app in H1. simpl in H1. pose proof (attempts_nonneg tr3). lia.
Qed.

Lemma nothing_after_error tr1 tr2 e :
  legal (tr1 ++ tr2) -> failed tr2 -> e ∈ tr1 ->
  match e with Delivered _ | Responded _ _ => False | _ => True end.
Proof.
  intros Hl Hf (tr3 & tr4 & ->)%list_elem_of_split. rewrite <- app_assoc in Hl.
  apply legal_suffix in Hl as [Ha _].
  assert (failed (tr4 ++ tr2)) by (apply elem_of_app; by right).
  destruct e; simpl in Ha; tauto.
Qed.

(** * What holds of every program that uses a router *)

Section Program.
Context (may_abort debug : bool).
Context (validators_ : list (mem -> Serialization.Message -> outcome ValidationError)).
Context (receiver_Accept : message -> app) (receiver_AcceptWithResponder : message -> thunk -> app)
  (responder_Accept : responder -> message -> app) (error_handler : app).

(** The validators, the application and the system do what is asked of them; what is
    asked if assertions may not fail is more. *)
Record setting (pipe : Z) (l : list answer) (a : app) : Prop := {
  setting_validators : validators_ok validators_;
  setting_application : application_ok may_abort receiver_Accept receiver_AcceptWithResponder
    responder_Accept error_handler;
  setting_program : app_ok may_abort a;
  setting_system : Forall (answer_ok may_abort) l;
  setting_pipe : pipe <> MOJO_HANDLE_INVALID;
}.

(** The program, from the construction of the router on. *)
Definition run_program (pipe : Z) (l : list answer) (fuel : nat) (a : app) : outcome (bool * world) :=
  w ← create pipe l;
  run_app debug validators_ receiver_Accept receiver_AcceptWithResponder responder_Accept error_handler
    fuel a w.

Lemma run_program_fine pipe l fuel a :
  (debug = true -> may_abort = true) -> setting pipe l a ->
  match run_program pipe l fuel a with
  | Ok (_, w) => inv may_abort w
  | Abort => may_abort = true
  | Fault => False
  | OutOfFuel => True
  end.
Proof.
  intros Hdebug [Hv Happ Ha Hl Hp]. unfold run_program.
  destruct (create_fine may_abort pipe l) as (w & -> & Hinv & Hopen); [done..|].
  unfold mbind, outcome_bind.
  pose proof (run_app_fine may_abort debug Hdebug validators_ receiver_Accept receiver_AcceptWithResponder
    responder_Accept error_handler Hv Happ fuel a w) as Hrun.
  specialize (Hrun Ha Hinv Hopen). unfold gwlp in Hrun.
  destruct (Router.run_app _ _ _ _ _ _ _ _ _) as [[ok w']| | |]; [apply Hrun|done..].
Qed.

Lemma run_program_legal pipe l fuel a ok w :
  (debug = true -> may_abort = true) -> setting pipe l a ->
  run_program pipe l fuel a = Ok (ok, w) -> legal (trace w).
Proof.
  intros Hdebug Hs Hrun. pose proof (run_program_fine pipe l fuel a Hdebug Hs) as H. rewrite Hrun in H.
  apply H.
Qed.
End Program.

(** C9: whatever the application does, on any answers of the system and with nested
    calls to any depth, the router accesses no object after it is deleted: neither
    itself or its connector, nor a responder or a thunk, nor a wait that is over. It
    reads headers within the data of the message. *)
Theorem Router_memory_safe debug validators receiver receiver_with_responder responder_accept handler
    pipe l fuel a
    (Hs : setting true validators receiver receiver_with_responder responder_accept handler pipe l a) :
  run_program debug validators receiver receiver_with_responder responder_accept handler pipe l fuel a <> Fault.
Proof.
  intros Hf. pose proof (run_program_fine true debug _ _ _ _ _ pipe l fuel a (fun _ => eq_refl) Hs) as H.
  by rewrite Hf in H.
Qed.

(** C33: in a release build, an application that neither closes nor passes the pipe
    nor drops a callback, on a system that is never [BUSY] on a write, fails no
    [MOJO_CHECK]: every message is written to an open pipe, and there is one wait at
    a time. *)
Theorem Router_release_never_aborts validators receiver receiver_with_responder responder_accept handler
    pipe l fuel a
    (Hs : setting false validators receiver receiver_with_responder responder_accept handler pipe l a) :
  run_program false validators receiver receiver_with_responder responder_accept handler pipe l fuel a <> Abort.
Proof.
  intros Hf. pose proof (run_program_fine false false _ _ _ _ _ pipe l fuel a (fun H => H) Hs) as H.
  by rewrite Hf in H.
Qed.

(** C10: a responder gets a response only under the id that its own request was sent
    with, and only once, whatever the peer sends; after an error, neither a response
    nor a message is delivered. *)
Theorem responses_match_requests debug validators receiver receiver_with_responder responder_accept handler
    pipe l fuel a ok w tr1 tr2 e
    (Hs : setting true validators receiver receiver_with_responder responder_accept handler pipe l a)
    (Hrun : run_program debug validators receiver receiver_with_responder responder_accept handler
              pipe l fuel a = Ok (ok, w))
    (Htr : trace w = tr1 ++ e :: tr2) :
  match e with
  | Responded id r => Requested id r ∈ tr2 /\ ErrorNotified ∉ tr2 /\ forall id', Responded id' r ∉ tr1 ++ tr2
  | Delivered m => ErrorNotified ∉ tr2
  | _ => True
  end.
Proof.
  pose proof (run_program_legal true debug _ _ _ _ _ pipe l fuel a ok w (fun _ => eq_refl) Hs Hrun) as Hl.
  rewrite Htr in Hl. pose proof (legal_suffix _ _ Hl) as [Ha _].
  destruct e as [| |id r|m| |]; try done; simpl in Ha. destruct (responded_once tr1 tr2 id r Hl) as [Hreq Hno].
  split; [done|]. split; [apply Ha|]. intros id' [?|(tr3 & tr4 & ->)%list_elem_of_split]%elem_of_app.
  { by eapply Hno. }
  rewrite app_comm_cons, app_assoc in Hl.
  destruct (responded_once _ _ _ _ Hl) as [_ Hagain]. apply (Hagain id), elem_of_app. right. by left.
Qed.

(** Until the 64-bit counter wraps around, the requests are numbered from 1 in
    the order they are tried, so no two of them share an id; no id is 0, ever. *)
Theorem request_ids_fresh debug validators receiver receiver_with_responder responder_accept handler
    pipe l fuel a ok w tr1 tr2 id r
    (Hs : setting true validators receiver receiver_with_responder responder_accept handler pipe l a)
    (Hrun : run_program debug validators receiver receiver_with_responder responder_accept handler
              pipe l fuel a = Ok (ok, w))
    (Htr : trace w = tr1 ++ Requested id r :: tr2) :
  0 < id < 2 ^ 64 /\
  (attempts (trace w) < 2 ^ 64 -> id = attempts tr2 + 1 /\ forall r', Requested id r' ∉ tr1 ++ tr2).
Proof.
  pose proof (run_program_legal true debug _ _ _ _ _ pipe l fuel a ok w (fun _ => eq_refl) Hs Hrun) as Hl.
  split.
  - rewrite Htr in Hl. by apply legal_suffix in Hl as [[[? _] _] _].
  - intros Hlt. split; [by eapply requested_id|]. intros r' [(tr3 & tr4 & ->)%list_elem_of_split|Hin]%elem_of_app.
    + rewrite <- app_assoc in Htr. simpl in Htr.
      apply (requested_fresh _ tr3 _ id r' r Hl Hlt Htr). apply elem_of_app. right. by left.
    + by eapply (requested_fresh _ tr1 tr2 id r r').
Qed.
