(* ===== verification/RouterRuns.v ===== *)
(** The order of delivery: what a receiver gets are the messages that were read, in their
    order, whatever the application does; and runs that end well, in which everything that
    waits in the pipe is delivered, and the connector waits again. *)
From stdpp Require Import base numbers list option gmap sets.
From coqutil Require Import Byte.
From Stdlib Require Import ZArith Lia.
From S2P Require Import Prelude Result CMem Buffer Descriptor Validate Message Serialization.
From S2P Require Import SerializationFacts Router RouterFacts RouterSpec.

(** * Order *)

(** The messages that were delivered, the first one first, and those that were read; a
    message without bytes and handles is there without more ado. *)
Definition deliveries (tr : list event) : list message :=
  omap (fun e => match e with Delivered m => Some m | _ => None end) (rev tr).
Definition messages (l : list answer) : list message :=
  omap (fun a => match a with
                 | MessageThere m _ => Some m
                 | NoMessage r => if r =? MOJO_RESULT_OK then Some empty_message else None
                 | _ => None
                 end) l.

Lemma deliveries_app tr tr' : deliveries (tr' ++ tr) = deliveries tr ++ deliveries tr'.
Proof. unfold deliveries. by rewrite rev_app_distr, omap_app. Qed.
Lemma messages_app l l' : messages (l ++ l') = messages l ++ messages l'.
Proof. apply omap_app. Qed.

(** From [w], with the messages [ms] in hand, [c] delivers those or what it reads, in that
    order. *)
Definition orderly {A} (ms : list message) (c : M world A) (w : world) : Prop := forall a w', c w = Ok (a, w') ->
  exists l tr, system w = l ++ system w' /\ trace w' = tr ++ trace w /\ deliveries tr `sublist_of` ms ++ messages l.

Lemma orderly_bind {A B} ms (c : M world A) (f : A -> M world B) w :
  orderly ms c w -> (forall a w', orderly [] (f a) w') -> orderly ms (c ≫= f) w.
Proof.
  intros Hc Hf b w2. unfold mbind, M_bind. destruct (c w) as [[a w1]| | |] eqn:Hrun; try done. intros Hrun2.
  destruct (Hc _ _ Hrun) as (l & tr & Hs & Ht & Hin), (Hf _ _ _ _ Hrun2) as (l' & tr' & Hs' & Ht' & Hin').
  exists (l ++ l'), (tr' ++ tr). rewrite Hs, Hs', Ht', Ht, !app_assoc. split; [done|]. split; [done|].
  rewrite deliveries_app, messages_app, app_assoc. by apply sublist_app.
Qed.
(** A step that neither asks the system nor notes a delivery. *)
Lemma orderly_still {A B} ms (c : M world A) (f : A -> M world B) w :
  (forall a w', c w = Ok (a, w') -> system w' = system w /\ trace w' = trace w) ->
  (forall a w', orderly ms (f a) w') -> orderly ms (c ≫= f) w.
Proof.
  intros Hc Hf b w2. unfold mbind, M_bind. destruct (c w) as [[a w1]| | |] eqn:Hrun; try done. intros Hrun2.
  destruct (Hc a w1) as [<- <-]; [done|]. by apply (Hf a w1 b w2).
Qed.
Lemma orderly_get {B} ms (f : world -> M world B) w : orderly ms (f w) w -> orderly ms (get ≫= f) w.
Proof. done. Qed.
Lemma orderly_same {A} (c : M world A) w :
  (forall a w', c w = Ok (a, w') -> system w' = system w /\ trace w' = trace w) -> orderly [] c w.
Proof.
  intros Hc a w' Hrun. destruct (Hc _ _ Hrun) as [Hs Ht]. exists [], []. rewrite Hs, Ht. split; [done|]. by split.
Qed.
Lemma orderly_ret {A} (a : A) w : orderly [] (mret a) w.
Proof. apply orderly_same. by intros ? ? [= <- <-]. Qed.
Lemma orderly_lift {A} (o : outcome A) w : orderly [] (lift o) w.
Proof. apply orderly_same. intros ? ?. unfold lift. destruct o; try done. by intros [= <- <-]. Qed.
Lemma orderly_put w1 w : system w1 = system w -> trace w1 = trace w -> orderly [] (put w1) w.
Proof. intros Hs Ht. apply orderly_same. by intros ? ? [= <- <-]. Qed.
Lemma orderly_modify f w : system (f w) = system w -> trace (f w) = trace w -> orderly [] (modify f) w.
Proof. intros Hs Ht. apply orderly_same. by intros ? ? [= <- <-]. Qed.
Lemma still_lift {A} (o : outcome A) w a w' : lift o w = Ok (a, w') -> system w' = system w /\ trace w' = trace w.
Proof. unfold lift. destruct o; try done. by intros [= <- <-]. Qed.
Lemma still_this w a w' : this w = Ok (a, w') -> system w' = system w /\ trace w' = trace w.
Proof. unfold this, mbind, M_bind, get. destruct (router w); [|done]. by intros [= <- <-]. Qed.
Lemma orderly_note e w : match e with Delivered _ => False | _ => True end -> orderly [] (note e) w.
Proof. intros He ? ? [= <- <-]. exists [], [e]. split; [done|]. split; [done|]. by destruct e. Qed.
Lemma orderly_for_each {X R} (l : list X) (body : X -> M world (option R)) w :
  (forall x w, orderly [] (body x) w) -> orderly [] (for_each l body) w.
Proof.
  intros Hb. revert w. induction l as [|x l IH]; intros w; [apply orderly_ret|].
  apply orderly_bind; [done|]. intros [v|] w'; [apply orderly_ret|apply IH].
Qed.
Lemma orderly_while {A R} fuel (body : A -> M world (A + R)) a w :
  (forall a w, orderly [] (body a) w) -> orderly [] (while_ fuel body a) w.
Proof.
  intros Hb. revert a w. induction fuel as [|fuel IH]; intros a w; [apply orderly_lift|].
  apply orderly_bind; [done|]. intros [a'|v] w'; [apply IH|apply orderly_ret].
Qed.

Create HintDb orderly.
Ltac orderly :=
  repeat match goal with
  | |- forall _, _ => intros ?
  | |- orderly _ (get ≫= _) _ => apply orderly_get
  | |- orderly _ (_ ≫= _) _ => apply orderly_bind
  | |- orderly _ (mret _) _ => apply orderly_ret
  | |- orderly _ (lift _) _ => apply orderly_lift
  | |- orderly _ (assert_ _) _ => apply orderly_lift
  | |- orderly _ (put _) _ => by apply orderly_put
  | |- orderly _ (modify (fun w => match ?x with _ => _ end)) _ => destruct x
  | |- orderly _ (modify _) _ => by apply orderly_modify
  | |- orderly _ (note _) _ => by apply orderly_note
  | |- orderly _ (for_each _ _) _ => apply orderly_for_each
  | |- orderly _ (while_ _ _ _) _ => apply orderly_while
  | |- orderly _ (match ?x with _ => _ end) _ => destruct x
  | |- orderly _ _ _ => solve [auto with orderly nocore]
  end.

Section Order.
Context (debug : bool).

Lemma orderly_next_answer w : orderly [] next_answer w.
Proof.
  intros a w'. unfold next_answer, mbind, M_bind, get, put. destruct (system w) as [|x l] eqn:Hl; [done|].
  intros [= <- <-]. exists [x], []. split; [done|]. split; [done|]. apply sublist_nil_l.
Qed.
#[local] Hint Resolve orderly_next_answer : orderly.
Lemma orderly_check b w : orderly [] (MOJO_CHECK b) w.
Proof. destruct b; apply orderly_lift. Qed.
#[local] Hint Resolve orderly_check : orderly.
Lemma orderly_dcheck d b w : orderly [] (MOJO_DCHECK d b) w.
Proof. unfold MOJO_DCHECK. orderly. Qed.
Lemma orderly_this w : orderly [] this w.
Proof. unfold this. orderly. Qed.
#[local] Hint Resolve orderly_dcheck orderly_this : orderly.
Lemma orderly_this_connector w : orderly [] this_connector w.
Proof. unfold this_connector. orderly. Qed.
Lemma orderly_update_this f w : orderly [] (update_this f) w.
Proof. unfold update_this. orderly. Qed.
#[local] Hint Resolve orderly_this_connector orderly_update_this : orderly.
Lemma orderly_update_connector f w : orderly [] (update_connector f) w.
Proof. unfold update_connector. orderly. Qed.
#[local] Hint Resolve orderly_update_connector : orderly.
Lemma orderly_set_map x n w : orderly [] (set_responder_map x n) w.
Proof. unfold set_responder_map. orderly. Qed.
Lemma orderly_flag m f w : orderly [] (has_message_flag m f) w.
Proof. unfold has_message_flag. orderly. Qed.
Lemma orderly_check_responder r w : orderly [] (check_responder r) w.
Proof. unfold check_responder. orderly. Qed.
#[local] Hint Resolve orderly_set_map orderly_flag orderly_check_responder : orderly.
Lemma orderly_delete_responder r w : orderly [] (delete_responder r) w.
Proof. unfold delete_responder. orderly. Qed.
Lemma orderly_invoked t w : orderly [] (thunk_accept_was_invoked t) w.
Proof. unfold thunk_accept_was_invoked. orderly. Qed.
Lemma orderly_CancelWait w : orderly [] CancelWait w.
Proof. unfold CancelWait, CancelAsyncWait, set_async_wait_id. orderly. Qed.
#[local] Hint Resolve orderly_delete_responder orderly_invoked orderly_CancelWait : orderly.
Lemma orderly_close w : orderly [] Connector_CloseMessagePipe w.
Proof. unfold Connector_CloseMessagePipe, set_message_pipe. orderly. Qed.
Lemma orderly_WaitToReadMore w : orderly [] WaitToReadMore w.
Proof. unfold WaitToReadMore, AsyncWait, set_async_wait_id. orderly. Qed.
Lemma orderly_Connector_Accept m w : orderly [] (Connector_Accept m) w.
Proof. unfold Connector_Accept, WriteMessageRaw, set_drop_writes. orderly. Qed.
#[local] Hint Resolve orderly_close orderly_WaitToReadMore orderly_Connector_Accept : orderly.
Lemma orderly_Router_Accept m w : orderly [] (Router_Accept debug m) w.
Proof. unfold Router_Accept. orderly. Qed.
Lemma orderly_send_request m w : orderly [] (send_request debug m) w.
Proof. unfold send_request, new_responder, Router_AcceptWithResponder. orderly. Qed.
Lemma orderly_delete_thunk t w : orderly [] (delete_thunk t) w.
Proof. unfold delete_thunk. orderly. Qed.
#[local] Hint Resolve orderly_Router_Accept orderly_send_request orderly_delete_thunk : orderly.

Section Calls.
Context (incoming_Accept : message -> M world bool) (handler : M world unit).
Context (incoming_ok : forall m w, orderly [m] (incoming_Accept m) w) (handler_ok : forall w, orderly [] handler w).
#[local] Hint Resolve handler_ok : orderly.

(** The message that is read is in hand. *)
Lemma orderly_ReadAndDispatchMessage w : orderly [] (ReadAndDispatchMessage debug incoming_Accept) w.
Proof.
  unfold ReadAndDispatchMessage. apply orderly_bind; [auto with orderly|]. intros c w1.
  intros [rv ok] w2. unfold mbind at 1, M_bind at 1.
  destruct (ReadMessage debug (message_pipe_ c) w1) as [[[rv' m] w1']| | |] eqn:Hread; try done. intros Hrun.
  assert (Hold : exists l, system w1 = l ++ system w1' /\ trace w1' = trace w1 /\
      (rv' = MOJO_RESULT_OK -> messages l = [m])).
  { revert Hread. unfold ReadMessage, MOJO_DCHECK, MOJO_CHECK, next_answer, mbind, M_bind, get, put, mret, M_ret.
    destruct (if debug then _ else _) as [[[] w0]| | |] eqn:Hd; try done.
    assert (w0 = w1) as ->.
    { revert Hd. destruct debug; [|by intros [= <-]]. destruct (negb _); [by intros [= <-]|done]. }
    destruct (message_pipe_ c =? MOJO_HANDLE_INVALID); [intros [= <- <- <-]; by exists []|].
    destruct (system w1) as [|a l] eqn:Hl; [done|]. destruct a as [|?|r|m' r| |]; try done.
    - destruct (r =? _); [done|]. intros [= <- <- <-]. exists [NoMessage r]. split; [done|]. split; [done|]. by intros ->.
    - intros [= <- <- <-]. by exists [MessageThere m' r]. }
  destruct Hold as (l & Hs1 & Ht1 & Hm). revert Hrun. destruct (Z.eqb_spec rv' MOJO_RESULT_OK) as [Hok|_].
  - intros Hrun. assert (Hord : orderly [m] (receiver_result ← incoming_Accept m; mret (rv', receiver_result)) w1')
      by (apply orderly_bind; [done|intros; apply orderly_ret]).
    destruct (Hord _ _ Hrun) as (l' & tr & Hs & Ht & Hin). exists (l ++ l'), tr. rewrite Hs1, Hs, Ht, Ht1, app_assoc.
    split; [done|]. split; [done|]. by rewrite messages_app, (Hm Hok).
  - intros [= <- <- <-]. exists l, []. split; [done|]. split; [done|]. apply sublist_nil_l.
Qed.
#[local] Hint Resolve orderly_ReadAndDispatchMessage : orderly.
Lemma orderly_NotifyError w : orderly [] (NotifyError handler) w.
Proof. unfold NotifyError, set_error. orderly. Qed.
#[local] Hint Resolve orderly_NotifyError : orderly.
Lemma orderly_ReadSingleMessage w : orderly [] (ReadSingleMessage debug incoming_Accept handler) w.
Proof. unfold ReadSingleMessage, set_destroyed_flag. orderly. Qed.
#[local] Hint Resolve orderly_ReadSingleMessage : orderly.
Lemma orderly_OnHandleReady fuel r w : orderly [] (OnHandleReady debug incoming_Accept handler fuel r) w.
Proof. unfold OnHandleReady, ReadAllAvailableMessages, set_async_wait_id. orderly. Qed.
Lemma orderly_WaitForIncomingMessage d w : orderly [] (Connector_WaitForIncomingMessage debug incoming_Accept handler d) w.
Proof. unfold Connector_WaitForIncomingMessage, Wait. orderly. Qed.
End Calls.

Section Application.
Context (validators_ : list (mem -> Serialization.Message -> outcome ValidationError)).
Context (receiver_Accept : message -> app) (receiver_AcceptWithResponder : message -> thunk -> app)
  (responder_Accept : responder -> message -> app) (error_handler : app).

Section Incoming.
Context (call : app -> M world bool) (call_ok : forall a w, orderly [] (call a) w).
#[local] Hint Resolve call_ok : orderly.

(** A message in hand may be delivered before anything else is. *)
Lemma orderly_in_hand {A} m (c : M world A) w : orderly [] c w -> orderly [m] c w.
Proof.
  intros Hc a w' Hrun. destruct (Hc _ _ Hrun) as (l & tr & Hs & Ht & Hin). exists l, tr. split; [done|]. split; [done|].
  by apply sublist_cons.
Qed.
Lemma orderly_deliver {A} m (k : M world A) w :
  (forall w, orderly [] k w) -> orderly [m] (note (Delivered m);; k) w.
Proof.
  intros Hk. apply orderly_bind; [|by intros _ w']. intros ? ? [= <- <-]. exists [], [Delivered m]. split; [done|].
  split; [done|]. reflexivity.
Qed.

Lemma orderly_HandleIncomingMessage m w :
  orderly [m] (HandleIncomingMessage debug validators_ receiver_Accept receiver_AcceptWithResponder responder_Accept call m) w.
Proof.
  unfold HandleIncomingMessage. apply orderly_still; [apply still_lift|]. intros v w1.
  destruct (bool_decide _); [apply orderly_in_hand; orderly|].
  apply orderly_still; [apply still_lift|]. intros [] w2.
  - apply orderly_still; [apply still_this|]. intros self w3. destruct (incoming_receiver_ self); [|apply orderly_in_hand; orderly].
    apply orderly_still; [by intros ? ? [= <- <-]|]. intros t w4. apply orderly_deliver. unfold call_AcceptWithResponder. orderly.
  - apply orderly_still; [apply still_lift|]. intros [] w3; [apply orderly_in_hand; orderly|].
    apply orderly_still; [apply still_this|]. intros self w4. destruct (incoming_receiver_ self); [|apply orderly_in_hand; orderly].
    apply orderly_deliver. orderly.
Qed.
Lemma orderly_handle_error w : orderly [] (handle_error error_handler call) w.
Proof. unfold handle_error. orderly. Qed.
End Incoming.

Abbreviation run_app := (run_app debug validators_ receiver_Accept receiver_AcceptWithResponder
  responder_Accept error_handler).

Lemma orderly_run_calls call fuel a : (forall a w, orderly [] (call a) w) ->
  forall w, orderly [] (run_calls debug validators_ receiver_Accept receiver_AcceptWithResponder
    responder_Accept error_handler call fuel a) w.
Proof.
  intros Hcall. pose proof (orderly_HandleIncomingMessage call Hcall) as Hin. pose proof (orderly_handle_error call Hcall) as Herr.
  pose proof (orderly_WaitForIncomingMessage _ _ Hin Herr) as Hwait. pose proof (orderly_OnHandleReady _ _ Hin Herr) as Hready.
  induction a; intros w; cbn [run_calls]; unfold has_router, has_thunk, Connector_PassMessagePipe, set_message_pipe,
    Connector_encountered_error, Router_destructor, Connector_destructor, ResponderThunk_Accept, ResponderThunk_IsValid,
    Connector_is_valid, Connector_encountered_error, nested_loop; orderly.
Qed.

(** Whatever the application does and whatever the system answers, what its receiver gets
    is among what was read from the pipe, in that order. *)
Lemma run_app_orderly fuel a w : orderly [] (run_app fuel a) w.
Proof.
  revert a w. induction fuel as [|fuel IH]; intros a w; apply orderly_run_calls; [|exact IH]. intros; apply orderly_lift.
Qed.
End Application.
End Order.

(** * Steps that return *)

Lemma run_this_connector w r : router w = Some r -> this_connector w = Ok (connector_ r, w).
Proof.
  intros Hr. unfold this_connector. erewrite run_bind; [reflexivity|].
  unfold this. by rewrite (run_bind _ _ _ w w eq_refl), Hr.
Qed.

Lemma run_update_connector f w r :
  router w = Some r -> update_connector f w = Ok (tt, set_router (Some (with_connector (f (connector_ r)) r)) w).
Proof.
  intros Hr. unfold update_connector, update_this. erewrite run_bind; [reflexivity|].
  unfold this. by rewrite (run_bind _ _ _ w w eq_refl), Hr.
Qed.

Lemma run_while_done {S A R} k (body : A -> M S (A + R)) a s v s' :
  body a s = Ok (inr v, s') -> while_ (Datatypes.S k) body a s = Ok (v, s').
Proof. intros H. simpl. by rewrite (run_bind _ _ _ _ _ H). Qed.

Lemma run_while_more {S A R} k (body : A -> M S (A + R)) a s a' s' :
  body a s = Ok (inl a', s') -> while_ (Datatypes.S k) body a s = while_ k body a' s'.
Proof. intros H. simpl. by rewrite (run_bind _ _ _ _ _ H). Qed.

Ltac run H := erewrite run_bind; [|exact H]; cbn beta iota zeta.

Section Delivery.
Context (debug : bool).

(** A connector at work, which does not wait. *)
Record working (w : world) (r : Router) : Prop := {
  working_router : router w = Some r;
  working_receiver : incoming_receiver_ r = true;
  working_error : error_ (connector_ r) = false;
  working_pipe : message_pipe_ (connector_ r) <> MOJO_HANDLE_INVALID;
  working_waits : async_wait_id_ (connector_ r) = 0;
  working_next : 0 < next_wait w;
  working_self : weak_self_ w = true;
}.

(** From [w], with the answers [l], [c] returns true and has the router work as before; it
    uses up these answers and delivers [ms]. *)
Record goes_on (c : M world bool) (ms : list message) (l : list answer) (w : world) (r : Router) : Prop := {
  goes : forall rest, system w = l ++ rest -> exists w' r' tr, c w = Ok (true, w') /\ working w' r' /\
    destroyed_flag_ (connector_ r') = destroyed_flag_ (connector_ r) /\ destroyed_flags w' = destroyed_flags w /\
    system w' = rest /\ trace w' = tr ++ trace w /\ deliveries tr = ms;
}.

Section Reads.
Context (incoming_Accept : message -> M world bool) (handler : M world unit).

(** The receiver takes [m], and asks for the answers [l] while it does. *)
Definition takes (m : message) (l : list answer) : Prop := forall w r,
  working w r -> goes_on (incoming_Accept m) [m] l w r.

(** A read that gets an answer. *)
Lemma ReadMessage_answer pipe w a l :
  pipe <> MOJO_HANDLE_INVALID -> system w = a :: l ->
  match a with
  | MessageThere m rv => ReadMessage debug pipe w = Ok ((rv, m), set_system l w)
  | NoMessage rv => rv <> MOJO_SYSTEM_RESULT_RESOURCE_EXHAUSTED ->
      ReadMessage debug pipe w = Ok ((rv, empty_message), set_system l w)
  | _ => True
  end.
Proof.
  intros Hp%Z.eqb_neq Hl. 
  assert (Hans : next_answer w = Ok (a, set_system l w)).
  { unfold next_answer. by rewrite (run_bind _ _ _ w w eq_refl), Hl. }
  assert (Hrun : forall f : answer -> M world (MojoResult * message), (MOJO_DCHECK debug (negb (pipe =? MOJO_HANDLE_INVALID));;
     if pipe =? MOJO_HANDLE_INVALID then mret (MOJO_SYSTEM_RESULT_INVALID_ARGUMENT, empty_message)
     else a ← next_answer; f a : M world _) w = f a (set_system l w)).
  { intros f. rewrite Hp. rewrite (run_bind _ _ w tt w) by (by destruct debug). by rewrite (run_bind _ _ _ _ _ Hans). }
  unfold ReadMessage. destruct a as [|?|rv|m rv| |]; try done.
  intros Hne%Z.eqb_neq. rewrite Hrun. by rewrite Hne.
Qed.

(** What one read does while the connector stays. *)
Lemma ReadSingleMessage_run w r rv ok w2 r2 :
  router w = Some r ->
  let n := length (destroyed_flags w) in
  let w1 := flagged (Some n) (destroyed_flags w ++ [false]) r w in
  ReadAndDispatchMessage debug incoming_Accept w1 = Ok ((rv, ok), w2) ->
  router w2 = Some r2 -> destroyed_flags w2 = destroyed_flags w ++ [false] ->
  let w3 := flagged (destroyed_flag_ (connector_ r)) (destroyed_flags w) r2 w2 in
  ok = true \/ rv = MOJO_SYSTEM_RESULT_SHOULD_WAIT -> rv = MOJO_RESULT_OK \/ rv = MOJO_SYSTEM_RESULT_SHOULD_WAIT ->
  ReadSingleMessage debug incoming_Accept handler w = Ok ((true, rv), w3).
Proof.
  intros Hr n w1 Hread Hr2 Hfs w3 Hok Hrv. unfold ReadSingleMessage.
  run (run_this_connector w r Hr). do 2 (erewrite run_bind; [|reflexivity]; cbn beta iota zeta).
  unfold set_destroyed_flag at 1. erewrite run_bind; [|by apply run_update_connector]. cbn beta iota zeta.
  run Hread. do 2 (erewrite run_bind; [|reflexivity]; cbn beta iota zeta).
  rewrite Hfs, list_lookup_middle, take_app_length by done. change (default false (Some false)) with false. cbn iota.
  unfold set_destroyed_flag. erewrite run_bind; [|by apply run_update_connector]. cbn beta iota zeta.
  change (set_router _ _) with w3.
  destruct (Z.eqb_spec rv MOJO_SYSTEM_RESULT_SHOULD_WAIT); [done|].
  destruct Hrv as [->|?]; [|done]. destruct Hok as [->|?]; [|done].
  erewrite run_bind; [|by apply (run_this_connector w3 (with_flag (destroyed_flag_ (connector_ r)) r2))].
  cbn beta iota zeta. by rewrite andb_false_r.
Qed.
Lemma ReadSingleMessage_delivers w r m ans l :
  working w r -> system w = MessageThere m MOJO_RESULT_OK :: ans ++ l -> takes m ans ->
  exists w' r' tr, ReadSingleMessage debug incoming_Accept handler w = Ok ((true, MOJO_RESULT_OK), w') /\
    working w' r' /\ system w' = l /\ trace w' = tr ++ trace w /\ deliveries tr = [m].
Proof.
  intros Hw Hl Htakes. pose proof Hw as [Hr Hrecv He Hp Ha Hnx Hself]. set (n := length (destroyed_flags w)).
  set (w1 := flagged (Some n) (destroyed_flags w ++ [false]) r w). set (w1' := set_system (ans ++ l) w1).
  destruct (goes _ _ _ _ _ (Htakes w1' (with_flag (Some n) r) ltac:(by split)) l eq_refl)
    as (w2 & r2 & tr & Hrun & [Hr2 Hrecv2 He2 Hp2 Ha2 Hnx2 Hself2] & Hf2 & Hfs2 & Hs2 & Ht2 & Hd).
  assert (Hread : ReadAndDispatchMessage debug incoming_Accept w1 = Ok ((MOJO_RESULT_OK, true), w2)).
  { unfold ReadAndDispatchMessage. run (run_this_connector w1 _ eq_refl).
    run (ReadMessage_answer _ w1 _ (ans ++ l) Hp Hl). change (MOJO_RESULT_OK =? MOJO_RESULT_OK) with true. cbn iota.
    by rewrite (run_bind _ _ _ _ _ Hrun). }
  pose proof (ReadSingleMessage_run w r _ _ _ r2 Hr Hread Hr2 Hfs2 (or_introl eq_refl) (or_introl eq_refl)) as Hsingle.
  eexists _, (with_flag (destroyed_flag_ (connector_ r)) r2), tr. split; [exact Hsingle|]. split; [by split|].
  split; [done|]. by split.
Qed.

Lemma ReadSingleMessage_empty w r l :
  router w = Some r -> message_pipe_ (connector_ r) <> MOJO_HANDLE_INVALID ->
  system w = NoMessage MOJO_SYSTEM_RESULT_SHOULD_WAIT :: l ->
  ReadSingleMessage debug incoming_Accept handler w = Ok ((true, MOJO_SYSTEM_RESULT_SHOULD_WAIT), set_system l w).
Proof.
  intros Hr Hp Hl. set (n := length (destroyed_flags w)).
  set (w1 := flagged (Some n) (destroyed_flags w ++ [false]) r w).
  assert (Hread : ReadAndDispatchMessage debug incoming_Accept w1 =
    Ok ((MOJO_SYSTEM_RESULT_SHOULD_WAIT, false), set_system l w1)).
  { unfold ReadAndDispatchMessage. run (run_this_connector w1 _ eq_refl).
    pose proof (ReadMessage_answer _ w1 _ l Hp Hl) as Hread. run (Hread ltac:(done)). done. }
  rewrite (ReadSingleMessage_run w r _ _ _ (with_flag (Some n) r) Hr Hread); [|done|done|by right|by right].
  do 2 f_equal. destruct w as [rt ? ? ? ? ? ? ? ? ? ?]. simpl in *. subst rt. by destruct r as [[]].
Qed.

(** The connector's wait is renewed. *)
Definition renewed (r : Router) (w : world) : world :=
  set_router (Some (with_connector {| message_pipe_ := message_pipe_ (connector_ r);
    async_wait_id_ := next_wait w; error_ := error_ (connector_ r); drop_writes_ := drop_writes_ (connector_ r);
    enforce_errors_from_incoming_receiver_ := enforce_errors_from_incoming_receiver_ (connector_ r);
    destroyed_flag_ := destroyed_flag_ (connector_ r) |} r))
  (set_waits ({[next_wait w]} ∪ waits w) (next_wait w + 1) w).

Lemma WaitToReadMore_renews w r :
  router w = Some r -> async_wait_id_ (connector_ r) = 0 -> WaitToReadMore w = Ok (tt, renewed r w).
Proof.
  intros Hr Ha. unfold WaitToReadMore. run (run_this_connector w r Hr).
  erewrite run_bind; [|by rewrite Ha]. cbn beta iota zeta. erewrite run_bind; [|reflexivity]. cbn beta iota zeta.
  unfold set_async_wait_id. by rewrite (run_update_connector _ _ r).
Qed.

Lemma ReadAllAvailableMessages_run q : forall w r l fuel,
  working w r -> Forall (fun x => takes x.1 x.2) q ->
  system w = (q ≫= fun x => MessageThere x.1 MOJO_RESULT_OK :: x.2) ++ NoMessage MOJO_SYSTEM_RESULT_SHOULD_WAIT :: l ->
  (length q < fuel)%nat ->
  exists w' r' tr, ReadAllAvailableMessages debug incoming_Accept handler fuel w = Ok (tt, renewed r' w') /\
    working w' r' /\ system w' = l /\ trace w' = tr ++ trace w /\ deliveries tr = q.*1.
Proof.
  unfold ReadAllAvailableMessages.
  induction q as [|[m ans] q IH]; intros w r l fuel Hw Hq Hl Hfuel; (destruct fuel as [|fuel]; [simpl in Hfuel; lia|]);
    pose proof Hw as [Hr Hrecv He Hp Ha Hnx Hself]; simpl in Hl.
  - exists (set_system l w), r, []. split; [|by repeat split].
    apply run_while_done. cbn beta. run (run_this_connector w r Hr). rewrite He.
    run (ReadSingleMessage_empty w r l Hr Hp Hl). cbn [negb].
    change (MOJO_SYSTEM_RESULT_SHOULD_WAIT =? MOJO_SYSTEM_RESULT_SHOULD_WAIT) with true. cbn iota.
    by run (WaitToReadMore_renews (set_system l w) r Hr Ha).
  - apply Forall_cons in Hq as [Hm Hq]. rewrite <- app_assoc in Hl.
    destruct (ReadSingleMessage_delivers w r m ans _ Hw Hl Hm) as (w1 & r1 & tr1 & Hrun & Hw1 & Hs1 & Ht1 & Hd1).
    destruct (IH w1 r1 l fuel Hw1 Hq Hs1) as (w2 & r2 & tr2 & Hrun2 & Hw2 & Hs2 & Ht2 & Hd2); [simpl in Hfuel; lia|].
    exists w2, r2, (tr2 ++ tr1). rewrite (run_while_more _ _ _ _ tt w1).
    + split; [exact Hrun2|]. split; [done|]. split; [done|]. rewrite Ht2, Ht1, app_assoc. split; [done|].
      by rewrite deliveries_app, Hd1, Hd2.
    + run (run_this_connector w r Hr). rewrite He. by run Hrun.
Qed.
End Reads.

(** ** Through the router *)

Section Incoming.
Context (validators_ : list (mem -> Serialization.Message -> outcome ValidationError)).
Context (receiver_Accept : message -> app) (receiver_AcceptWithResponder : message -> thunk -> app)
  (responder_Accept : responder -> message -> app) (error_handler : app).

(** A valid message that is neither a request with a response nor a response. *)
Definition plain (m : message) : Prop :=
  RunValidatorsOnMessage ((fun v => v (message_mem m)) <$> validators_) (message_data m) = Ok NONE /\
  Message_has_flag (message_mem m) (message_data m) kMessageExpectsResponse = Ok false /\
  Message_has_flag (message_mem m) (message_data m) kMessageIsResponse = Ok false.

Abbreviation run_app := (run_app debug validators_ receiver_Accept receiver_AcceptWithResponder
  responder_Accept error_handler).

(** A valid request that is not a response. *)
Definition a_request (m : message) : Prop :=
  RunValidatorsOnMessage ((fun v => v (message_mem m)) <$> validators_) (message_data m) = Ok NONE /\
  Message_has_flag (message_mem m) (message_data m) kMessageExpectsResponse = Ok true.

(** What the receiver does with a message, and with a request that it is given a thunk for:
    anything that returns true and leaves the router at work. It may use the answers [l]
    and delivers nothing itself. *)
Definition handles (fuel : nat) (x : message * list answer) : Prop :=
  (plain x.1 /\ forall w r, working w r -> goes_on (run_app fuel (receiver_Accept x.1)) [] x.2 w r) \/
  (a_request x.1 /\ forall w r t, working w r -> thunks w !! t = Some false ->
     goes_on (run_app fuel (receiver_AcceptWithResponder x.1 t)) [] x.2 w r).

Lemma HandleIncomingMessage_takes fuel x :
  handles fuel x ->
  takes (HandleIncomingMessage debug validators_ receiver_Accept receiver_AcceptWithResponder
    responder_Accept (run_app fuel)) x.1 x.2.
Proof.
  intros Hx w r Hw. pose proof Hw as [Hr Hrecv _ _ _ _ _]. split. intros rest Hl.
  assert (Hlift : forall A (o : outcome A) a, o = Ok a -> lift o w = Ok (a, w)) by (by intros A o a ->).
  assert (Hthis : this w = Ok (r, w)) by (unfold this; by rewrite (run_bind _ _ w w w eq_refl), Hr).
  unfold HandleIncomingMessage, has_message_flag. destruct Hx as [[(Hv & Hexp & Hresp) Hdo]|[(Hv & Hexp) Hdo]];
    run (Hlift _ _ _ Hv); (rewrite bool_decide_eq_false_2 by (intros H; by apply H)); run (Hlift _ _ _ Hexp).
  - set (w1 := noted (Delivered x.1) w).
    destruct (goes _ _ _ _ _ (Hdo w1 r ltac:(by destruct Hw; split)) rest Hl) as (w2 & r2 & tr & Hrun & Hw2 & Hf & Hfs & Hs & Ht & Hd).
    exists w2, r2, (tr ++ [Delivered x.1]). split.
    { run (Hlift _ _ _ Hresp). run Hthis. rewrite Hrecv. erewrite run_bind; [|reflexivity]. exact Hrun. }
    do 4 (split; [done|]). split; [by rewrite Ht, <- app_assoc|]. by rewrite deliveries_app, Hd.
  - set (t := next_thunk w).
    set (w1 := noted (Delivered x.1) (set_thunks (<[t := false]> (thunks w)) (S t) w)).
    destruct (goes _ _ _ _ _ (Hdo w1 r t ltac:(by destruct Hw; split) (lookup_insert_eq _ _ _)) rest Hl)
      as (w2 & r2 & tr & Hrun & Hw2 & Hf & Hfs & Hs & Ht & Hd).
    exists w2, r2, (tr ++ [Delivered x.1]). split.
    { run Hthis. rewrite Hrecv. erewrite run_bind; [|reflexivity]. erewrite run_bind; [|reflexivity].
      erewrite run_bind; [|unfold call_AcceptWithResponder; erewrite run_bind; [|exact Hrun];
        erewrite run_bind; [|reflexivity]; reflexivity]. reflexivity. }
    do 4 (split; [done|]). split; [by rewrite Ht, <- app_assoc|]. by rewrite deliveries_app, Hd.
Qed.

(** The connector waits for a pipe that is ready. *)
Record waiting (w : world) (r : Router) : Prop := {
  waiting_router : router w = Some r;
  waiting_receiver : incoming_receiver_ r = true;
  waiting_error : error_ (connector_ r) = false;
  waiting_pipe : message_pipe_ (connector_ r) <> MOJO_HANDLE_INVALID;
  waiting_id : async_wait_id_ (connector_ r) <> 0 /\ async_wait_id_ (connector_ r) ∈ waits w;
  waiting_next : 0 < next_wait w;
  waiting_self : weak_self_ w = true;
}.

Lemma nested_loop_run w r q l fuel :
  waiting w r ->
  system w = Signalled MOJO_RESULT_OK ::
    (q ≫= fun x => MessageThere x.1 MOJO_RESULT_OK :: x.2) ++ NoMessage MOJO_SYSTEM_RESULT_SHOULD_WAIT :: l ->
  Forall (handles fuel) q -> (length q <= fuel)%nat ->
  exists w' r' tr, run_app (S fuel) (NestedLoop (Done true)) w = Ok (true, renewed r' w') /\
    working w' r' /\ system w' = l /\ trace w' = tr ++ trace w /\ deliveries tr = q.*1.
Proof.
  intros [Hr Hrecv He Hp [Ha Hin] Hnx Hself] Hl Hq Hfuel.
  set (a := async_wait_id_ (connector_ r)) in *. set (rest := _ ++ NoMessage _ :: l) in Hl.
  set (w1 := set_waits (waits w ∖ {[a]}) (next_wait w) (set_system rest w)).
  set (w0 := set_router (Some (no_wait r)) w1).
  destruct (ReadAllAvailableMessages_run
    (HandleIncomingMessage debug validators_ receiver_Accept receiver_AcceptWithResponder responder_Accept (run_app fuel))
    (handle_error error_handler (run_app fuel)) q w0 (no_wait r) l (S fuel)) as (w' & r' & tr & Hrun & Hw' & Hrest);
    [by split| |done|lia|].
  { eapply Forall_impl; [exact Hq|]. intros x. apply HandleIncomingMessage_takes. }
  exists w', r', tr. split; [|by split].
  cbn [Router.run_app run_calls]. erewrite run_bind; [done|]. unfold nested_loop.
  erewrite run_bind; [|reflexivity]. cbn beta. rewrite Hr. fold a. rewrite decide_True by done.
  assert (Hans : next_answer w = Ok (Signalled MOJO_RESULT_OK, set_system rest w)).
  { unfold next_answer. by rewrite (run_bind _ _ w w w eq_refl), Hl. }
  run Hans. erewrite run_bind; [|reflexivity]. fold w1. unfold OnHandleReady.
  run (run_this_connector w1 r Hr). fold a.
  erewrite run_bind; [|by rewrite (proj2 (Z.eqb_neq a 0) Ha)]. cbn beta iota zeta.
  unfold set_async_wait_id. run (run_update_connector (fun c =>
    {| message_pipe_ := message_pipe_ c; async_wait_id_ := 0; error_ := error_ c; drop_writes_ := drop_writes_ c;
       enforce_errors_from_incoming_receiver_ := enforce_errors_from_incoming_receiver_ c;
       destroyed_flag_ := destroyed_flag_ c |}) w1 r Hr).
  change (set_router _ w1) with w0. change (negb (MOJO_RESULT_OK =? MOJO_RESULT_OK)) with false. cbn iota. exact Hrun.
Qed.

(** C21: messages are delivered in order. Whatever the application does and whatever the
    peer sends, what the receiver gets is among the messages that were read from the pipe,
    in their order, none more often than it was read. And when the pipe becomes ready,
    nothing is left out: if the messages in it are valid, each is a message or a request,
    and the receiver takes each - doing whatever leaves the router at work, such as to send
    messages and to respond - then each of them is delivered, in the order of the pipe and
    once, however many there are, and the connector waits again, without an error. *)
Theorem queue_delivered_in_order fuel :
  (forall a w ok w', run_app fuel a w = Ok (ok, w') ->
     exists l tr, system w = l ++ system w' /\ trace w' = tr ++ trace w /\ deliveries tr `sublist_of` messages l) /\
  (forall w r q l,
     waiting w r ->
     system w = Signalled MOJO_RESULT_OK ::
       (q ≫= fun x => MessageThere x.1 MOJO_RESULT_OK :: x.2) ++ NoMessage MOJO_SYSTEM_RESULT_SHOULD_WAIT :: l ->
     Forall (handles fuel) q -> (length q <= fuel)%nat ->
     exists w' r' tr, run_app (S fuel) (NestedLoop (Done true)) w = Ok (true, w') /\
       trace w' = tr ++ trace w /\ deliveries tr = q.*1 /\ system w' = l /\ waiting w' r').
Proof.
  split.
  - intros a w ok w' Hrun.
    exact (run_app_orderly debug validators_ receiver_Accept receiver_AcceptWithResponder responder_Accept error_handler
      fuel a w ok w' Hrun).
  - intros w r q l Hw Hl Hq Hfuel.
    destruct (nested_loop_run w r q l fuel Hw Hl Hq Hfuel) as (w' & r' & tr & Hrun & [Hr' Hi' He' Hp' _ Hnx' Hself'] & Hs & Ht & Hd).
    eexists _, _, tr. split; [exact Hrun|]. split; [done|]. split; [done|]. split; [done|].
    split; [reflexivity|done|done|done| |cbn; lia|done]. cbn. split; [lia|set_solver].
Qed.
End Incoming.
End Delivery.
