(* ===== verification/RouterExamples.v ===== *)
(** Concrete runs of the router, those that end in an assertion or in an unwanted
    error among them. *)
From stdpp Require Import base numbers list option gmap sets.
From coqutil Require Import Byte.
From Stdlib Require Import ZArith Lia.
From S2P Require Import Prelude Result CMem Buffer Descriptor Validate Samples Message Serialization.
From S2P Require Import SerializationFacts Router RouterFacts RouterSpec RouterRuns.

(** * Messages *)

Definition message_of (ws : list Z) : message :=
  {| message_mem := mem_of 4096 ws;
     message_data := {| data_ := 4096; data_num_bytes_ := 4 * Z.of_nat (length ws); handles_ := [] |} |}.

Definition plain_message : message := message_of [16; 0; 7; 0].
Definition request_message : message := message_of [24; 1; 7; 1; 0; 0].
Definition response_message (id : Z) : message := message_of [24; 1; 7; 2; id; 0].

Lemma message_of_sendable n ws : n <= 4 * Z.of_nat (length ws) -> sendable n (message_of ws).
Proof. intros Hn. eapply mapped_weaken; [apply (mem_of_mapped 4096 ws)|simpl; lia..]. Qed.

Lemma message_of_readable ws : Z.of_nat (length ws) < 100 -> readable (message_of ws).
Proof. intros Hn. split; [by apply message_of_sendable|]. simpl. lia. Qed.

(** * A well-behaved application

    It answers every request, takes every message, and leaves the pipe alone. *)

Definition header_only : list (mem -> Serialization.Message -> outcome ValidationError) :=
  [MessageHeaderValidator_Validate false].
Definition take_message (m : message) : app := Done true.
Definition answer_request (m : message) (t : thunk) : app := Respond t (response_message 0) Done.
Definition take_response (r : responder) (m : message) : app := Done true.
Definition sample_program : app :=
  SetIncomingReceiver true (Request request_message (fun _ => NestedLoop (Done true))).

(** A response, a request and a message come in at once. *)
Definition sample_answers : list answer :=
  [Written MOJO_RESULT_OK; Signalled MOJO_RESULT_OK; MessageThere (response_message 1) MOJO_RESULT_OK;
   MessageThere request_message MOJO_RESULT_OK; Written MOJO_RESULT_OK;
   MessageThere plain_message MOJO_RESULT_OK; NoMessage MOJO_SYSTEM_RESULT_SHOULD_WAIT].
Definition sample_run : outcome (bool * world) :=
  run_program false header_only take_message answer_request take_response (Done true) 5 sample_answers 9
    sample_program.

Lemma sample_setting may_abort :
  setting may_abort header_only take_message answer_request take_response (Done true) 5 sample_answers
    sample_program.
Proof.
  split; [| | | |done].
  - apply header_validator_first. intros v m []%elem_of_nil.
  - split; try done. intros m t. split; [by apply message_of_sendable|done].
  - split; [by apply message_of_sendable|done].
  - repeat constructor; try done; by apply message_of_readable.
Qed.

Example sample_run_trace : match sample_run with
  | Ok (_, w) => trace w = [Delivered plain_message; Delivered request_message; Responded 1 0; Requested 1 0]
  | _ => False
  end.
Proof. vm_compute. reflexivity. Qed.

(** * The theorems, on this application *)

Lemma Router_memory_safe_witness :
  exists ok w, sample_run = Ok (ok, w) /\ sample_run <> Fault.
Proof.
  destruct (outcome_returns sample_run (fun _ => true)) as ([ok w] & Hrun & _); [by vm_compute|].
  refine (ex_intro _ ok (ex_intro _ w (conj Hrun _))).
  exact (Router_memory_safe false header_only take_message answer_request take_response (Done true) 5
    sample_answers 9 sample_program (sample_setting true)).
Defined.

Lemma Router_release_never_aborts_witness :
  exists ok w, sample_run = Ok (ok, w) /\ sample_run <> Abort.
Proof.
  destruct (outcome_returns sample_run (fun _ => true)) as ([ok w] & Hrun & _); [by vm_compute|].
  refine (ex_intro _ ok (ex_intro _ w (conj Hrun _))).
  exact (Router_release_never_aborts header_only take_message answer_request take_response (Done true) 5
    sample_answers 9 sample_program (sample_setting false)).
Defined.

(** The last state of the run. *)
Definition sample_end : world :=
  match sample_run with Ok (_, w) => w | _ => new_world 5 [] end.
Lemma sample_run_ends : sample_run = Ok (true, sample_end).
Proof. vm_compute. reflexivity. Qed.

Lemma responses_match_requests_witness :
  Requested 1 0 ∈ [Requested 1 0] /\
  forall id', Responded id' 0 ∉ [Delivered plain_message; Delivered request_message] ++ [Requested 1 0].
Proof.
  destruct (responses_match_requests false header_only take_message answer_request take_response (Done true)
    5 sample_answers 9 sample_program true sample_end
    [Delivered plain_message; Delivered request_message] [Requested 1 0] (Responded 1 0)
    (sample_setting true) sample_run_ends) as (H1 & _ & H2); [by vm_compute|].
  exact (conj H1 H2).
Defined.

Lemma request_ids_fresh_witness :
  attempts (trace sample_end) < 2 ^ 64 /\ forall r', Requested 1 r' ∉ [Delivered plain_message;
    Delivered request_message; Responded 1 0] ++ [].
Proof.
  destruct (request_ids_fresh false header_only take_message answer_request take_response (Done true)
    5 sample_answers 9 sample_program true sample_end
    [Delivered plain_message; Delivered request_message; Responded 1 0] [] 1 0
    (sample_setting true) sample_run_ends) as (_ & H); [by vm_compute|].
  assert (Hlt : attempts (trace sample_end) < 2 ^ 64) by by vm_compute.
  exact (conj Hlt (proj2 (H Hlt))).
Defined.

(** Two messages and a request in the pipe. The receiver waits for another message when it
    gets one, in vain, and keeps the thunk of a request if it is valid. *)
Definition look_for_more (m : message) : app := CallWaitForIncomingMessage 0 (fun _ => Done true).
Definition keep_if_valid (m : message) (t : thunk) : app := IsValid t Done.
Definition in_vain : list answer := [Waited MOJO_SYSTEM_RESULT_SHOULD_WAIT].
Definition queued : list (message * list answer) :=
  [(plain_message, in_vain); (request_message, []); (message_of [16; 0; 9; 0; 1; 2], in_vain)].
Definition queue_answers : list answer :=
  Signalled MOJO_RESULT_OK ::
    (queued ≫= fun x => MessageThere x.1 MOJO_RESULT_OK :: x.2) ++ [NoMessage MOJO_SYSTEM_RESULT_SHOULD_WAIT].
Definition queue_router : Router :=
  {| connector_ := {| message_pipe_ := 5; async_wait_id_ := 1; error_ := false; drop_writes_ := false;
       enforce_errors_from_incoming_receiver_ := true; destroyed_flag_ := None |};
     incoming_receiver_ := true; responders_ := ∅; next_request_id_ := 0; testing_mode_ := false |}.
Definition queue_world : world :=
  set_router (Some queue_router) (set_waits {[1]} 2 (new_world 5 queue_answers)).

Abbreviation run_queue := (run_app true header_only look_for_more keep_if_valid take_response (Done true)).

Lemma look_for_more_goes_on fuel m w r : working w r -> goes_on (run_queue fuel (look_for_more m)) [] in_vain w r.
Proof.
  intros Hw. pose proof Hw as [Hr _ He Hp _ _ _]. split. intros rest Hl.
  exists (set_system rest w), r, []. split; [|by destruct Hw].
  assert (Hrouter : has_router w = Ok (tt, w)) by (unfold has_router; by rewrite (run_bind _ _ w w w eq_refl), Hr).
  assert (Hans : next_answer w = Ok (Waited MOJO_SYSTEM_RESULT_SHOULD_WAIT, set_system rest w))
    by (unfold next_answer; by rewrite (run_bind _ _ w w w eq_refl), Hl).
  assert (Hwait : forall incoming handler,
    Connector_WaitForIncomingMessage true incoming handler 0 w = Ok (false, set_system rest w)).
  { intros incoming handler. unfold Connector_WaitForIncomingMessage. run (run_this_connector w r Hr). rewrite He.
    erewrite run_bind; [|unfold Wait; rewrite (proj2 (Z.eqb_neq _ _) Hp); run Hans; reflexivity]. done. }
  destruct fuel as [|fuel]; cbn [run_app run_calls look_for_more]; run Hrouter; by erewrite run_bind; [|apply Hwait].
Qed.

Lemma keep_if_valid_goes_on fuel m w r t :
  working w r -> thunks w !! t = Some false -> goes_on (run_queue fuel (keep_if_valid m t)) [] [] w r.
Proof.
  intros Hw Ht. pose proof Hw as [Hr _ He Hp _ _ Hself]. split. intros rest Hl.
  exists w, r, []. split; [|by destruct Hw].
  assert (Hthunk : has_thunk t w = Ok (tt, w)) by (unfold has_thunk; by rewrite (run_bind _ _ w w w eq_refl), Ht).
  assert (Hvalid : ResponderThunk_IsValid t w = Ok (true, w)).
  { unfold ResponderThunk_IsValid, thunk_accept_was_invoked. erewrite run_bind; [|by rewrite (run_bind _ _ w w w eq_refl), Ht].
    erewrite run_bind; [|reflexivity]. rewrite Hself. unfold Connector_encountered_error, Connector_is_valid.
    do 2 (erewrite run_bind; [|by run (run_this_connector w r Hr)]). by rewrite He, (proj2 (Z.eqb_neq _ _) Hp). }
  destruct fuel as [|fuel]; cbn [run_app run_calls keep_if_valid]; run Hthunk; by run Hvalid.
Qed.

Lemma queue_delivered_in_order_witness :
  exists w' tr, run_queue 4 (NestedLoop (Done true)) queue_world = Ok (true, w') /\
    trace w' = tr /\ deliveries tr = queued.*1 /\ deliveries tr `sublist_of` messages queue_answers.
Proof.
  destruct (queue_delivered_in_order true header_only look_for_more keep_if_valid take_response (Done true) 3) as [_ Hall].
  destruct (Hall queue_world queue_router queued []) as (w' & r' & tr & H1 & H2 & H3 & H4 & _).
  - split; done.
  - done.
  - assert (Hplain : forall m, plain header_only m -> handles true header_only look_for_more keep_if_valid take_response (Done true) 3 (m, in_vain))
      by (intros m Hm; left; split; [exact Hm|intros w r Hw; by apply look_for_more_goes_on]).
    apply Forall_cons_2; [|apply Forall_cons_2; [|apply Forall_cons_2; [|by apply Forall_nil_2]]].
    + apply Hplain. by repeat split; vm_compute.
    + right. split; [by repeat split; vm_compute|]. intros w r t Hw Ht. by apply keep_if_valid_goes_on.
    + apply Hplain. by repeat split; vm_compute.
  - done.
  - rewrite app_nil_r in H2. exists w', tr. split; [exact H1|]. split; [exact H2|]. split; [exact H3|].
    destruct (proj1 (queue_delivered_in_order true header_only look_for_more keep_if_valid take_response (Done true) 4)
      _ _ _ _ H1) as (l & tr' & Hs & Ht & Hin). rewrite H4, app_nil_r in Hs. change (trace queue_world) with (@nil event) in Ht.
    rewrite app_nil_r, H2 in Ht. subst. exact Hin.
Defined.

(** * Runs that go wrong *)

Definition keep_request (m : message) (t : thunk) : app := Done true.
Definition pass_pipe (m : message) : app := CallPassMessagePipe (Done true).

(** The wait of the connector, if it has one, is one that can be cancelled. *)
Definition cancellable (w : world) (r : Router) : Prop :=
  async_wait_id_ (connector_ r) = 0 \/ async_wait_id_ (connector_ r) ∈ waits w.

Lemma CancelWait_run w r : router w = Some r -> cancellable w r ->
  exists w' r', CancelWait w = Ok (tt, w') /\ router w' = Some r' /\ error_ (connector_ r') = error_ (connector_ r) /\
    message_pipe_ (connector_ r') = message_pipe_ (connector_ r) /\
    weak_self_ w' = weak_self_ w /\ thunks w' = thunks w /\ trace w' = trace w.
Proof.
  intros Hr Hc. unfold CancelWait. destruct (Z.eqb_spec (async_wait_id_ (connector_ r)) 0) as [H0|H0].
  - exists w, r. split; [|done]. run (run_this_connector w r Hr). by rewrite H0.
  - destruct Hc as [|Hin]; [done|]. eexists _, _. split.
    + run (run_this_connector w r Hr). rewrite (proj2 (Z.eqb_neq _ _) H0).
      erewrite run_bind; [|unfold CancelAsyncWait; erewrite run_bind; [|reflexivity]; rewrite decide_True by exact Hin; reflexivity].
      unfold set_async_wait_id. by apply run_update_connector.
    + done.
Qed.

Lemma Connector_CloseMessagePipe_run w r : router w = Some r -> cancellable w r ->
  exists w' r', Connector_CloseMessagePipe w = Ok (tt, w') /\ router w' = Some r' /\
    error_ (connector_ r') = error_ (connector_ r) /\ message_pipe_ (connector_ r') = MOJO_HANDLE_INVALID /\
    weak_self_ w' = weak_self_ w /\ thunks w' = thunks w /\
    trace w' = (if message_pipe_ (connector_ r) =? MOJO_HANDLE_INVALID then [] else [PipeClosed]) ++ trace w.
Proof.
  intros Hr Hc. destruct (CancelWait_run w r Hr Hc) as (w1 & r1 & Hrun & Hr1 & He1 & Hp1 & Hs1 & Ht1 & Htr1).
  unfold Connector_CloseMessagePipe. eexists _, _. split.
  - run Hrun. run (run_this_connector w1 r1 Hr1). rewrite Hp1.
    erewrite (run_bind _ _ w1 tt (if message_pipe_ (connector_ r) =? MOJO_HANDLE_INVALID then w1 else noted PipeClosed w1));
      [|by destruct (message_pipe_ (connector_ r) =? MOJO_HANDLE_INVALID)].
    unfold set_message_pipe. apply (run_update_connector _ _ r1). by destruct (message_pipe_ (connector_ r) =? MOJO_HANDLE_INVALID).
  - destruct (message_pipe_ (connector_ r) =? MOJO_HANDLE_INVALID); cbn; by rewrite ?Htr1.
Qed.

(** C40: An application may drop the callback of a request without calling it. That closes
    the pipe, but it is no error, so the router goes on as if it had one: if the
    application then responds to another request that waits for its response, whatever the
    message is, or sends a message, [Connector::Accept] fails its [MOJO_CHECK], in a release
    build too. That the callback is no longer valid it can ask. *)
Theorem response_after_dropped_request_aborts debug w r t t' m :
  router w = Some r -> weak_self_ w = true -> error_ (connector_ r) = false -> cancellable w r ->
  thunks w !! t = Some false -> is_Some (thunks w !! t') -> t' <> t ->
  (forall flag, exists b, Message_has_flag (message_mem m) (message_data m) flag = Ok b) ->
  exists w' r', delete_thunk t w = Ok (tt, w') /\
    trace w' = (if message_pipe_ (connector_ r) =? MOJO_HANDLE_INVALID then [] else [PipeClosed]) ++ trace w /\
    router w' = Some r' /\ error_ (connector_ r') = false /\
    ResponderThunk_IsValid t' w' = Ok (false, w') /\
    ResponderThunk_Accept debug t' m w' = Abort /\ Router_Accept debug m w' = Abort.
Proof.
  intros Hr Hself He Hc Ht [b Ht'] Hne Hm.
  destruct (Connector_CloseMessagePipe_run w r Hr Hc) as (w1 & r1 & Hrun & Hr1 & He1 & Hp1 & Hs1 & Ht1 & Htr1).
  set (w' := set_thunks (delete t (thunks w1)) (next_thunk w1) w1). exists w', r1.
  assert (Hconn : this_connector w' = Ok (connector_ r1, w')) by by apply run_this_connector.
  assert (Hinv : thunk_accept_was_invoked t' w' = Ok (b, w')).
  { unfold thunk_accept_was_invoked. erewrite run_bind; [|reflexivity]. cbn. by rewrite Ht1, lookup_delete_ne, Ht'. }
  assert (Haccept : forall w2, router w2 = Some r1 -> Router_Accept debug m w2 = Abort).
  { intros w2 Hr2. assert (Hcon : Connector_Accept m w2 = Abort).
    { unfold Connector_Accept. run (run_this_connector w2 r1 Hr2). by rewrite He1, He, Hp1. }
    unfold Router_Accept. destruct debug; [|by erewrite run_bind].
    unfold has_message_flag, mbind, M_bind. destruct (Hm kMessageExpectsResponse) as [[] ->]; [done|exact Hcon]. }
  split; [|split; [exact Htr1|split; [exact Hr1|split; [by rewrite He1|split; [|split]]]]].
  - unfold delete_thunk. erewrite run_bind; [|unfold thunk_accept_was_invoked; erewrite run_bind; [|reflexivity]; rewrite Ht; reflexivity].
    cbn [negb]. erewrite run_bind; [|erewrite run_bind; [|reflexivity]; rewrite Hself; exact Hrun]. done.
  - unfold ResponderThunk_IsValid. run Hinv. erewrite run_bind; [|reflexivity]. cbn [weak_self_ set_thunks w']. rewrite Hs1, Hself.
    unfold Connector_encountered_error, Connector_is_valid. do 2 (erewrite run_bind; [|by run Hconn]). by rewrite Hp1, andb_false_r.
  - unfold ResponderThunk_Accept. run Hinv. erewrite run_bind; [|reflexivity]. cbn beta iota zeta.
    set (w2 := set_thunks (<[t' := true]> (thunks w')) (next_thunk w') w').
    assert (Hend : (w ← get; if weak_self_ w then Router_Accept debug m else mret false) w2 = Abort).
    { erewrite run_bind; [|reflexivity]. cbn [weak_self_ set_thunks w' w2]. rewrite Hs1, Hself. by apply Haccept. }
    destruct debug; [|by erewrite run_bind]. unfold has_message_flag, mbind at 1 2, M_bind at 1 2.
    destruct (Hm kMessageIsResponse) as [[] ->]; [exact Hend|done].
  - by apply Haccept.
Qed.

(** Two requests that wait for their responses. *)
Definition two_requests : outcome (bool * world) :=
  run_program false header_only take_message keep_request take_response (Done true) 5
    [Signalled MOJO_RESULT_OK; MessageThere request_message MOJO_RESULT_OK;
     MessageThere request_message MOJO_RESULT_OK; NoMessage MOJO_SYSTEM_RESULT_SHOULD_WAIT] 5
    (SetIncomingReceiver true (NestedLoop (Done true))).
Lemma response_after_dropped_request_aborts_witness : exists w w',
  two_requests = Ok (true, w) /\ delete_thunk 0 w = Ok (tt, w') /\ trace w' = PipeClosed :: trace w /\
  ResponderThunk_Accept false 1 (response_message 0) w' = Abort.
Proof.
  destruct (outcome_returns two_requests (fun x => x.1 && weak_self_ x.2 && bool_decide (thunks x.2 !! 0%nat = Some false) &&
      bool_decide (is_Some (thunks x.2 !! 1%nat)) &&
      match router x.2 with
      | Some r => negb (error_ (connector_ r)) && bool_decide (async_wait_id_ (connector_ r) ∈ waits x.2) &&
                  negb (message_pipe_ (connector_ r) =? MOJO_HANDLE_INVALID)
      | None => false
      end)) as ([ok w] & Hrun & Hw); [vm_compute; reflexivity|].
  cbn [fst snd] in Hw. destruct ok; [|done]. destruct (router w) as [r|] eqn:Hr; [|by rewrite andb_false_r in Hw].
  apply andb_true_iff in Hw as [Hw1 Hw2]. apply andb_true_iff in Hw1 as [Hw1 Ht1%bool_decide_eq_true].
  apply andb_true_iff in Hw1 as [Hself Ht0%bool_decide_eq_true].
  apply andb_true_iff in Hw2 as [Hw2 Hp%negb_true_iff]. apply andb_true_iff in Hw2 as [He%negb_true_iff Hwait%bool_decide_eq_true].
  destruct (response_after_dropped_request_aborts false w r 0 1 (response_message 0) Hr Hself He (or_intror Hwait) Ht0 Ht1
    ltac:(discriminate)) as (w' & r' & Hdrop & Htr & _ & _ & _ & Habort & _).
  { intros flag. by eexists. }
  rewrite Hp in Htr. exists w, w'. auto.
Defined.

(** A receiver that passes the pipe on while it handles a message: a release
    build goes on to read the invalid handle, takes the failure for an error of the
    pipe and calls the error handler; a debug build fails an assertion. *)
Theorem pass_pipe_in_receiver_is_an_error :
  let run debug := run_program debug header_only pass_pipe keep_request take_response (Done true) 5
    [Signalled MOJO_RESULT_OK; MessageThere plain_message MOJO_RESULT_OK] 5
    (SetIncomingReceiver true (NestedLoop (Done true))) in
  run true = Abort /\
  match run false with Ok (_, w) => trace w = [ErrorNotified; Delivered plain_message] | _ => False end.
Proof. split; vm_compute; reflexivity. Qed.

(** A response that answers no request: a debug build fails an assertion, which
    the peer can make happen; a release build takes it for an error of the pipe. *)
Theorem unknown_response_aborts_debug_build :
  let run debug := run_program debug header_only take_message keep_request take_response (Done true) 5
    [Signalled MOJO_RESULT_OK; MessageThere (response_message 7) MOJO_RESULT_OK] 5
    (SetIncomingReceiver true (NestedLoop (Done true))) in
  run true = Abort /\ match run false with Ok (_, w) => trace w = [ErrorNotified; PipeClosed] | _ => False end.
Proof. split; vm_compute; reflexivity. Qed.
