(* ===== verification/SendExamples.v ===== *)
(** Sending at work: sizes, deep copies and message headers on the sample types
    of Samples.v. *)
From stdpp Require Import base numbers list list_numbers option gmap.
From coqutil Require Import Byte.
From Stdlib Require Import ZArith Lia.
From S2P Require Import Prelude CMem Buffer Descriptor Validate Samples Layout LayoutFacts.
From S2P Require Import ValidateFacts ValidateSpec Codec CodecFacts CodecRuns Relocate CodecSpec.
From S2P Require Import DeepCopy Size CopyFacts CopySpec UnionPtr Message Examples.

(** * A graph to copy *)

(** The sample message as a sender builds it, with pointers and handles, at 4096;
    a pointer variable at 4192; a buffer of 128 bytes at 4200. *)
Definition copy_words : list Z :=
  [ 40; 0;   4136; 0;   22; 0;   16; 1;   4176; 0;
    24; 2;   0; 0;   4160; 0;
    16; 0;   11; 0;
    16; 0;   33; 0;
    0; 0 ] ++ replicate 32 0.
Definition copy_mem : mem := mem_of 4096 copy_words.
Definition copy_buffer : MojomBuffer := {| buf := 4200; buf_size := 128; num_bytes_used := 16 |}.
Definition small_buffer : MojomBuffer := {| buf := 4200; buf_size := 104; num_bytes_used := 16 |}.

Lemma copy_mem_mapped lo hi : 4096 <= lo -> hi <= 4328 -> mapped copy_mem lo hi.
Proof. intros ??. eapply mapped_weaken; [apply (mem_of_mapped 4096 copy_words)|done|done]. Qed.

Lemma copy_leaf a np t :
  load64 copy_mem a = Ok t -> pointer_ok 4192 np a t -> t <> 0 ->
  load32 copy_mem t = Ok 16 -> load32 copy_mem (t + 4) = Ok 0 -> t + 16 <= 4192 ->
  forall nullable,
  lay sample_env Decoded copy_mem 4192
    {| s_type := STRUCT_PTR; s_desc := Some 3%nat; s_nullable := nullable; s_addr := a |} np (t + 16)
    [EPtr a; EHandle (t + 8) true].
Proof.
  intros Hv Hp Ht Hnb Hver Hlim nullable.
  apply (lay_struct _ _ _ _ {| s_type := STRUCT_PTR; s_desc := Some 3%nat; s_nullable := nullable;
    s_addr := a |} _ _ _ t t leaf_struct 16 0);
    try first [assumption|side].
  apply (lays_cons _ _ _ _ (entry_slot t (entry HANDLE None 0 true)) [] _ (t + 16) _
    [EHandle (t + 8) true] []); [|constructor].
  replace (t + 8) with (s_addr (entry_slot t (entry HANDLE None 0 true)))
    by (simpl; unfold sizeof_MojomStructHeader; lia).
  apply lay_handle. by left.
Qed.

Lemma copy_lay : lay_top sample_env Decoded copy_mem 4192 (Some 0%nat) 4096 4192 sample_events.
Proof.
  exists root_struct, 40, 0. repeat (split; [side|]).
  apply (lays_cons _ _ _ _ _ _ _ 4176 _ [EPtr 4104; EPtr 4144; EPtr 4152; EHandle 4168 true]
    [EHandle 4112 false; EPtr 4128; EHandle 4184 true]).
  - apply (lay_array _ _ _ _ (entry_slot 4096 (entry ARRAY_PTR (Some 1%nat) 0 false)) _ _ _
      4136 4136 leaves_array 24 2); side.
    apply (lays_cons _ _ _ _ _ _ _ 4160 _ [EPtr 4144] [EPtr 4152; EHandle 4168 true]).
    + apply (lay_null _ _ _ _ (element_slot leaves_array 4136 0)); side.
    + apply (lays_cons _ _ _ _ _ _ _ 4176 _ [EPtr 4152; EHandle 4168 true] []); [|constructor].
      apply (copy_leaf 4152 _ 4160); side.
  - apply (lays_cons _ _ _ _ _ _ _ 4176 _ [EHandle 4112 false] [EPtr 4128; EHandle 4184 true]).
    + apply (lay_handle _ _ _ _ (entry_slot 4096 (entry HANDLE None 8 false))). by left.
    + apply (lays_cons _ _ _ _ _ _ _ 4192 _ [EPtr 4128; EHandle 4184 true] []); [|constructor].
      eapply (lay_union_active _ _ _ _ _ _ _ _ sample_union 16 1); try side.
      apply (copy_leaf 4128 _ 4176); side.
Qed.

Definition present (m : mem) (e : event) : bool :=
  match e with
  | EPtr _ => true
  | EHandle a nullable =>
      match load32 m a with
      | Ok h => negb (h =? MOJO_HANDLE_INVALID) || nullable
      | _ => false
      end
  end.

Lemma handles_present_check m evs : forallb (present m) evs = true -> handles_present m evs.
Proof.
  rewrite forallb_forall. intros H a nullable Ha. apply list_elem_of_In in Ha.
  specialize (H _ Ha). unfold present in H. destruct (load32 m a) as [h| | |]; [|done..].
  exists h. split; [done|]. intros ->. by destruct nullable.
Qed.

Lemma copy_built : built sample_env copy_mem (Some 0%nat) 4096 96 4192 sample_events.
Proof.
  split; [done|done|lia|lia| | |].
  - by apply copy_mem_mapped.
  - exact copy_lay.
  - apply handles_present_check. by vm_compute.
Qed.

Lemma copy_arguments b :
  b = copy_buffer \/ b = small_buffer ->
  copy_args sample_env copy_mem b (Some 0%nat) 4096 96 4192.
Proof.
  intros Hb.
  assert (Hg : buffer_wf b /\ buf b = 4200 /\ 0 <= num_bytes_used b /\ buf_size b <= 128).
  { unfold buffer_wf. destruct Hb as [-> | ->]; simpl; lia. }
  destruct Hg as (Hwf & Hbuf & Hu & Hsz). split; [by vm_compute| |done| |lia|lia|].
  - intros d ver Hd Hver. vm_compute in Hd. injection Hd as <-.
    assert (Hv : load32 copy_mem (4096 + 4) = Ok 0) by (by vm_compute). rewrite Hv in Hver.
    injection Hver as <-.
    assert (H : forallb (tags_ok sample_env copy_mem 5) (struct_slots (sd_entries root_struct) 0 4096) = true)
      by (by vm_compute).
    rewrite forallb_forall in H. apply Forall_forall. intros s Hs.
    eapply tags_ok_sound, H. by apply list_elem_of_In.
  - rewrite Hbuf. apply copy_mem_mapped; lia.
  - split; [by apply copy_mem_mapped|]. cbn [snd]. lia.
Qed.

Lemma ComputeSerializedSize_witness :
  compute_serialized_size sample_env copy_mem 98 (Some 0%nat) 4096 = Ok 96.
Proof.
  destruct (ComputeSerializedSize_spec sample_env copy_mem (Some 0%nat) 4096 4192 4192 sample_events 98
    eq_refl eq_refl ltac:(lia) ltac:(lia) ltac:(lia) copy_lay) as (nb & Hnb & H & _).
  rewrite H. vm_compute in Hnb. injection Hnb as <-. by vm_compute.
Defined.

Lemma DeepCopy_copies_graph_witness :
  exists m' b' np2 evs',
    deep_copy_struct sample_env 98 (Some 0%nat) 4096 4192 (copy_mem, copy_buffer) = Ok (true, (m', b')) /\
    load64 m' 4192 = Ok 4216 /\
    built sample_env m' (Some 0%nat) 4216 (graph_space copy_mem 4096 sample_events) np2 evs' /\
    collected m' evs' = collected copy_mem sample_events.
Proof.
  destruct (DeepCopy_copies_graph _ _ _ _ _ _ _ _ _ 98 copy_built (copy_arguments copy_buffer (or_introl eq_refl))
    ltac:(unfold enough_fuel; lia) ltac:(vm_compute; discriminate))
    as (m' & b' & H & _ & _ & Hout & np2 & evs' & nb & Hb & _ & Hc & _).
  exists m', b', np2, evs'. split; [exact H|]. split; [exact Hout|]. split; [exact Hb|exact Hc].
Defined.

(** 88 bytes are left, 96 are needed. *)
Lemma DeepCopy_reports_space_witness :
  exists m' b',
    deep_copy_struct sample_env 98 (Some 0%nat) 4096 4192 (copy_mem, small_buffer) = Ok (false, (m', b')) /\
    buffer_wf b'.
Proof.
  destruct (DeepCopy_reports_space _ _ _ _ _ _ _ _ _ 98 copy_built (copy_arguments small_buffer (or_intror eq_refl))
    ltac:(unfold enough_fuel; lia)) as (r & m' & b' & H & Hr & Hb & _).
  exists m', b'. split; [|exact Hb]. destruct r; [|exact H].
  destruct Hr as [Hr _]. specialize (Hr eq_refl). vm_compute in Hr. by destruct Hr.
Defined.

Lemma whole_words_check m evs :
  forallb (fun e => match e with
    | EPtr a => match load64 m a with
                | Ok v => match load32 m v with Ok nb => nb mod 8 =? 0 | _ => true end
                | _ => true
                end
    | _ => true
    end) evs = true -> whole_words m evs.
Proof.
  rewrite forallb_forall. intros H a v nb Ha Hv _ Hnb. apply list_elem_of_In in Ha.
  specialize (H _ Ha). cbv beta iota in H. rewrite Hv, Hnb in H. by apply Z.eqb_eq.
Qed.

Lemma copy_whole_words : whole_words copy_mem sample_events.
Proof. apply whole_words_check. by vm_compute. Qed.

Lemma copy_computed_size :
  compute_serialized_size sample_env copy_mem 98 (Some 0%nat) 4096 = Ok 96.
Proof. by vm_compute. Qed.

Lemma ComputeSerializedSize_suffices_witness :
  exists m' b',
    deep_copy_struct sample_env 98 (Some 0%nat) 4096 4192 (copy_mem, copy_buffer) = Ok (true, (m', b')) /\
    num_bytes_used b' = 112.
Proof.
  exact (ComputeSerializedSize_suffices _ _ _ _ _ _ _ _ _ 98 96 copy_built
    (copy_arguments copy_buffer (or_introl eq_refl)) ltac:(unfold enough_fuel; lia)
    copy_whole_words copy_computed_size ltac:(simpl; lia)).
Defined.

Lemma DeepCopy_Encode_Validate_witness :
  exists m' b' m1 c,
    deep_copy_struct sample_env 98 (Some 0%nat) 4096 4192 (copy_mem, copy_buffer) = Ok (true, (m', b')) /\
    validate_struct sample_env m1 98 (Some 0%nat) 4216 (graph_space copy_mem 4096 sample_events) 3
      {| next_handle_index := 0; next_pointer := 0 |} = Ok (MOJOM_VALIDATION_ERROR_NONE, c).
Proof.
  assert (Hn : collected copy_mem sample_events = [11; 22; 33]) by (by vm_compute).
  destruct (DeepCopy_Encode_Validate _ _ _ _ _ _ _ _ _ 98 [0; 0; 0] 3 0 copy_built
    (copy_arguments copy_buffer (or_introl eq_refl)) ltac:(unfold enough_fuel; lia)
    ltac:(vm_compute; discriminate) ltac:(vm_compute; discriminate)
    ltac:(rewrite Hn; simpl; lia) ltac:(simpl; lia) ltac:(lia))
    as (m' & b' & m1 & c & H1 & _ & H3 & _).
  rewrite Hn in H3. exists m', b', m1, c. split; [exact H1|exact H3].
Defined.

(** * Unions in unions

    The nested graph of Samples.v has objects of 24 + 16 + 16 = 56 bytes. The
    computed size is 40: the size of the nested union's own object is read through
    the wrong pointer. A copy into that many bytes fails, into 56 it succeeds. *)

Definition nested_memory (n : nat) : mem := store_bytes nested_built 4200 (words (replicate n 0)).
Definition nested_buffer (n : Z) : MojomBuffer := {| buf := 4208; buf_size := n; num_bytes_used := 0 |}.

(** For a union in a union, [MojomStruct_ComputeSerializedSize] announces 40
    bytes - it does not count the object that the inner union points to - and a
    copy into that many bytes fails; the 56 bytes that the graph takes are
    enough. *)
Theorem union_ptr_size_too_small :
  compute_serialized_size nested_env nested_built 98 (Some 0%nat) 4096 = Ok 40 /\
  (exists st, deep_copy_struct nested_env 98 (Some 0%nat) 4096 4200
     (nested_memory 40, nested_buffer 40) = Ok (false, st)) /\
  (exists st, deep_copy_struct nested_env 98 (Some 0%nat) 4096 4200
     (nested_memory 40, nested_buffer 56) = Ok (true, st)).
Proof.
  split; [by vm_compute|].
  assert (H : forall n r, match deep_copy_struct nested_env 98 (Some 0%nat) 4096 4200
    (nested_memory 40, nested_buffer n) with Ok (r', _) => bool_decide (r' = r) | _ => false end = true ->
    exists st, deep_copy_struct nested_env 98 (Some 0%nat) 4096 4200
      (nested_memory 40, nested_buffer n) = Ok (r, st)).
  { intros n r H. destruct (deep_copy_struct _ _ _ _ _ _) as [[r' st]| | |]; try done.
    apply bool_decide_eq_true in H as ->. by exists st. }
  split; apply H; by vm_compute.
Qed.

(** * Message headers *)

(** A request expecting a response: version 1, 24 bytes, ordinal 7, request 5. *)
Definition request_header : mem := mem_of 4096 [24; 1; 7; 1; 5; 0].

Lemma request_header_mapped : mapped request_header 4096 (4096 + 24).
Proof. apply (mem_of_mapped 4096 [24; 1; 7; 1; 5; 0]). Qed.

Lemma ValidateHeader_witness :
  MojomMessage_ValidateHeader request_header 4096 24 = Ok MOJOM_VALIDATION_ERROR_NONE.
Proof.
  destruct (ValidateHeader_spec _ _ _ request_header_mapped) as (r & H & Hr).
  rewrite H. f_equal. apply Hr. split; [lia|]. exists 24, 1, 1.
  do 3 (split; [by vm_compute|]). split; [lia|]. right; left. split; [done|]. split; [done|].
  by exists RequestExpectingResponse.
Defined.

Lemma validated_message_witness :
  MojomMessage_ValidateRequestExpectingResponse request_header 4096 = Ok MOJOM_VALIDATION_ERROR_NONE.
Proof.
  destruct (validated_message_has_one_kind _ _ _ request_header_mapped) as [kind H]; [by vm_compute|].
  assert (kind = RequestExpectingResponse) as ->.
  { specialize (H RequestExpectingResponse). case_decide as Hk; [done|]. by vm_compute in H. }
  exact (H RequestExpectingResponse).
Defined.
