(* ===== verification/ControlMessagesSpec.v ===== *)
(** Asking for a version and requiring one, from end to end: the message that the proxy
    makes, as the router sends it and the peer receives it, the handler, its response and
    the callback; and concrete messages. *)
From stdpp Require Import base numbers list option gmap.
From coqutil Require Import Byte Word.LittleEndianList.
From Stdlib Require Import ZArith Lia.
From S2P Require Import Prelude CMem Buffer Descriptor Validate Router.
From S2P Require Import Message Serialization SerializationFacts.
From S2P Require Import ControlMessages ControlMessagesFacts.

Section Spec.
Context (debug : bool).
Context `{run_laws : GeneratedLaws RunMessageParams good_run wire_run}.
Context `{response_laws : GeneratedLaws RunResponseMessageParams good_response wire_response}.
Context `{close_laws : GeneratedLaws RunOrClosePipeMessageParams good_close wire_close}.

(** Where data is allocated. *)
Definition allocated (memory : Z) : Prop := 0 < memory < 2 ^ 63 /\ IsAligned memory = true.

Lemma validated_kind {P} `{GeneratedLaws P good wire} k name id (p : P) m msg :
  carries (wire := wire) k name id p m msg -> ValidateMessageKind m k msg = Ok NONE.
Proof. intros Hc. rewrite (ValidateMessageKind_spec m k msg _ (carries_flags _ _ _ _ _ _ Hc)). by destruct k. Qed.

(** The parameters of the response. *)
Definition version_response (version : Z) : RunResponseMessageParams :=
  {| response_reserved0 := 16; response_reserved1 := 0; query_version_result := Some {| result_version := version |} |}.

Lemma request_kind : RequestExpectingResponse <> Request.
Proof. done. Qed.
Lemma response_kind : Response <> Request.
Proof. done. Qed.

Lemma request_stored name id0 (p : RunMessageParams) m msg id :
  good_run p -> 0 <= id < 2 ^ 64 -> carries (wire := wire_run) RequestExpectingResponse name id0 p m msg ->
  exists m', set_request_id debug {| message_mem := m; message_data := msg |} id =
      Ok {| message_mem := m'; message_data := msg |} /\
    carries (wire := wire_run) RequestExpectingResponse name id p m' msg.
Proof.
  intros Hp Hid Hc.
  assert (Hm : mapped m (data_ msg + 16) (data_ msg + 16 + Z.of_nat 8)).
  { exact (load_Ok_mapped _ _ _ _ (carries_id _ _ _ _ _ _ Hc ltac:(done))). }
  pose proof (store_Ok m (data_ msg + 16) 8 id Hm) as Hs. eexists. split; [|by eapply carries_with_id].
  unfold set_request_id, has_request_id, header_version. cbn [message_mem message_data].
  rewrite (carries_version _ _ _ _ _ _ Hc). cbn. rewrite andb_false_r, Hs. reflexivity.
Qed.

Lemma handler_responds interface_version accept del memory' name id (p : RunMessageParams) m msg response m2 :
  name = kRunMessageId -> carries (wire := wire_run) RequestExpectingResponse name id p m msg ->
  ('(message, buffer) ← with_state FixedBuffer_new (build debug Response memory' kRunMessageId
      (GetSerializedSize_ (version_response interface_version)) id);
   fill debug (version_response interface_version) message buffer) m = Ok (response, m2) ->
  ControlMessageHandler_AcceptWithResponder debug interface_version accept del memory' msg m =
    (accept response;; del;; mret true) m2.
Proof.
  intros -> Hc Hrun. unfold ControlMessageHandler_AcceptWithResponder.
  assert (Hn : in_message (fun m => header_name m msg) m = Ok (kRunMessageId, m)).
  { unfold in_message, header_name. by rewrite (carries_name _ _ _ _ _ _ Hc). }
  rewrite (run_bind _ _ _ _ _ Hn). cbn beta. rewrite Z.eqb_refl. unfold ControlMessageHandler_Run.
  assert (Hid : in_message (fun m => request_id debug m msg) m = Ok (id, m)).
  { unfold in_message. by rewrite (carries_request_id (P := RunMessageParams) debug _ _ _ _ _ _ request_kind Hc). }
  assert (Hr : run_response debug interface_version memory' msg m = Ok (response, m2)).
  { unfold run_response. by rewrite (run_bind _ _ _ _ _ Hid). }
  by rewrite (run_bind _ _ _ _ _ Hr).
Qed.

Lemma response_read name id interface_version m msg :
  good_response (version_response interface_version) ->
  carries (wire := wire_response) Response name id (version_response interface_version) m msg ->
  exists m4, forall A (callback : Z -> M mem A),
    RunResponseForwardToCallback_Accept callback msg m = (callback interface_version;; mret true) m4.
Proof.
  intros Hp Hc. destruct (carries_decoded _ _ _ _ _ _ Hp Hc) as (m2 & m3 & Hd & Hs). exists m3. intros A callback.
  assert (Hr : response_params msg m = Ok (Some {| result_version := interface_version |}, m3)).
  { unfold response_params.
    assert (Hpl : (fun m => p ← payload m msg; mret (p, m)) m = Ok (data_ msg + header_size Response, m)).
    { by rewrite (carries_payload _ _ _ _ _ _ Hp Hc). }
    by rewrite (run_bind _ _ _ _ _ Hpl), (run_bind _ _ _ _ _ Hd), (run_bind _ _ _ _ _ Hs). }
  unfold RunResponseForwardToCallback_Accept. by rewrite (run_bind _ _ _ _ _ Hr).
Qed.

(** C26: A version is refused exactly when it is newer than the interface's: the message
    that [RequireVersion] sends is a request without response and a control message, and
    the handler of the peer that receives it says whether its version is at least the one
    required; on [false] the router closes the pipe. No assertion fails. *)
Theorem RequireVersion_refuses interface_version version memory m :
  allocated memory ->
  good_close {| close_reserved0 := 16; close_reserved1 := 0;
                require_version := Some {| required_version := version |} |} ->
  exists msg m1,
    run_or_close_pipe_message debug memory (Some {| required_version := version |}) m = Ok (msg, m1) /\
    IsControlMessage m1 msg = Ok true /\ ValidateMessageIsRequestWithoutResponse m1 msg = Ok NONE /\
    deliverable msg /\ forall m' msg', received m1 msg m' msg' ->
    exists m2, ControlMessageHandler_Accept debug interface_version msg' m' =
      Ok (interface_version >=? version, m2).
Proof.
  intros [Hmem Hal] Hp. set (p := {| close_reserved0 := 16 |}) in Hp.
  destruct (build_carries debug Request memory kRunOrClosePipeMessageId 0 p m FixedBuffer_new) as (msg & m1 & Hrun & Hc);
    [done|lia|done|lia|done|done|].
  exists msg, m1. split; [exact Hrun|]. split; [by rewrite (carries_control _ _ _ _ _ _ Hc)|].
  split; [exact (validated_kind _ _ _ _ _ _ Hc)|]. split; [by eapply carries_deliverable|]. intros m' msg' Hr.
  pose proof (carries_received _ _ _ _ _ _ _ _ Hp Hc Hr) as Hc'.
  destruct (carries_decoded _ _ _ _ _ _ Hp Hc') as (m2 & m3 & Hd & Hs).
  exists m3. unfold ControlMessageHandler_Accept.
  assert (Hn : in_message (fun m => header_name m msg') m' = Ok (kRunOrClosePipeMessageId, m')).
  { unfold in_message, header_name. by rewrite (carries_name _ _ _ _ _ _ Hc'). }
  rewrite (run_bind _ _ _ _ _ Hn). cbn beta. rewrite Z.eqb_refl. unfold RunOrClosePipe.
  assert (Hpl : in_message (fun m => payload m msg') m' = Ok (data_ msg' + header_size Request, m')).
  { unfold in_message. by rewrite (carries_payload _ _ _ _ _ _ Hp Hc'). }
  rewrite (run_bind _ _ _ _ _ Hpl), (run_bind _ _ _ _ _ Hd), (run_bind _ _ _ _ _ Hs). reflexivity.
Qed.

(** C25: The version that is asked for is the one the peer has: the message that
    [QueryVersion] sends, with the id that the router gives it, makes the peer's handler
    send a response with this id that is a response of the kind asked for; and when that
    is received, the callback is called with the version of the peer's interface. No
    assertion fails. *)
Theorem QueryVersion_answers interface_version memory memory' m :
  allocated memory -> allocated memory' ->
  good_run {| run_reserved0 := 16; run_reserved1 := 0; query_version := Some tt |} ->
  good_response {| response_reserved0 := 16; response_reserved1 := 0;
                   query_version_result := Some {| result_version := interface_version |} |} ->
  exists msg m1, run_message debug memory (Some tt) m = Ok (msg, m1) /\ IsControlMessage m1 msg = Ok true /\
    ValidateMessageIsRequestExpectingResponse m1 msg = Ok NONE /\
    forall id, 0 <= id < 2 ^ 64 ->
    exists req, set_request_id debug {| message_mem := m1; message_data := msg |} id = Ok req /\
    deliverable (message_data req) /\ forall m' msg', received (message_mem req) (message_data req) m' msg' ->
    exists response m2,
      (forall responder_Accept delete_responder,
        ControlMessageHandler_AcceptWithResponder debug interface_version responder_Accept delete_responder memory' msg' m' =
          (responder_Accept response;; delete_responder;; mret true) m2) /\
      ValidateMessageIsResponse m2 response = Ok NONE /\ request_id debug m2 response = Ok id /\
      deliverable response /\ forall m3 response', received m2 response m3 response' ->
      exists m4, forall A (callback : Z -> M mem A),
        RunResponseForwardToCallback_Accept callback response' m3 = (callback interface_version;; mret true) m4.
Proof.
  intros [Hmem Hal] [Hmem' Hal'] Hp Hp'. set (p := {| run_reserved0 := 16 |}) in Hp. fold (version_response interface_version) in Hp'.
  set (p' := version_response interface_version) in Hp'.
  destruct (build_carries debug RequestExpectingResponse memory kRunMessageId 0 p m FixedBuffer_new)
    as (msg & m1 & Hrun & Hc); [done|lia|done|lia|done|done|].
  exists msg, m1. split; [exact Hrun|]. split; [by rewrite (carries_control _ _ _ _ _ _ Hc)|].
  split; [exact (validated_kind _ _ _ _ _ _ Hc)|]. intros id Hid.
  destruct (request_stored _ _ _ _ _ id Hp Hid Hc) as (m1' & Hs & Hc1).
  eexists. split; [exact Hs|]. split; [exact (carries_deliverable _ _ _ _ _ _ Hc1)|]. intros m' msg' Hr. cbn [message_mem message_data] in Hr.
  pose proof (carries_received _ _ _ _ _ _ _ _ Hp Hc1 Hr) as Hc'.
  destruct (build_carries debug Response memory' kRunMessageId id p' m' FixedBuffer_new)
    as (response & m2 & Hrun2 & Hc2); [done|lia|done|lia|done|done|].
  exists response, m2. split; [|split; [exact (validated_kind _ _ _ _ _ _ Hc2)|split; [|split; [exact (carries_deliverable _ _ _ _ _ _ Hc2)|]]]].
  - intros accept del. exact (handler_responds interface_version accept del memory' _ _ _ _ _ _ _ eq_refl Hc' Hrun2).
  - exact (carries_request_id (P := RunResponseMessageParams) debug _ _ _ _ _ _ response_kind Hc2).
  - intros m3 response' Hr3. pose proof (carries_received _ _ _ _ _ _ _ _ Hp' Hc2 Hr3) as Hc3.
    exact (response_read _ _ _ _ _ Hp' Hc3).
Qed.
End Spec.

(** * The control messages with concrete code for their structs: four words each *)

Module Samples.
(** A struct as four words. *)
Record words := { w0 : Z; w1 : Z; w2 : Z; w3 : Z }.
Class Flat (P : Type) := {
  to_words : P -> words;
  of_words : words -> P;
  words_back : forall p, of_words (to_words p) = p;
}.
Definition words_bytes (w : words) : list byte :=
  le_split 4 (w0 w) ++ le_split 4 (w1 w) ++ le_split 4 (w2 w) ++ le_split 4 (w3 w).
Definition words_ok (w : words) : Prop :=
  0 <= w0 w < 2 ^ 32 /\ 0 <= w1 w < 2 ^ 32 /\ 0 <= w2 w < 2 ^ 32 /\ 0 <= w3 w < 2 ^ 32.

Section Flat.
Context {P : Type} `{Flat P}.

Definition flat_Serialize (p : P) : M (mem * FixedBuffer) (ValidationError * Z) := fun '(m, b) =>
  let a := ptr_ b + cursor_ b in Ok ((NONE, a), (store_bytes m a (words_bytes (to_words p)), b)).
Definition flat_Deserialize (a : Z) : M mem P := fun m =>
  x0 ← load32 m a; x1 ← load32 m (a + 4); x2 ← load32 m (a + 8); x3 ← load32 m (a + 12);
  mret (of_words {| w0 := x0; w1 := x1; w2 := x2; w3 := x3 |}, m).

#[global] Instance flat_generated : Generated P := {|
  GetSerializedSize_ := fun _ => 16;
  Serialize_ := flat_Serialize;
  EncodePointersAndHandles := fun _ => mret tt;
  DecodePointersAndHandles := fun _ => mret tt;
  Deserialize_ := flat_Deserialize;
|}.

Lemma words_bytes_length w : length (words_bytes w) = 16%nat.
Proof. unfold words_bytes. by rewrite !length_app, !length_le_split. Qed.

(** The words at an address. *)
Lemma load_words m a w : load_bytes m a 16 = Some (words_bytes w) -> words_ok w ->
  load32 m a = Ok (w0 w) /\ load32 m (a + 4) = Ok (w1 w) /\ load32 m (a + 8) = Ok (w2 w) /\ load32 m (a + 12) = Ok (w3 w).
Proof.
  intros Hb (H0 & H1 & H2 & H3). unfold words_bytes in Hb.
  assert (Hsplit : forall k n x l b, load_bytes m b (4 + n) = Some (le_split 4 x ++ l) -> b = a + k -> 0 <= x < 2 ^ 32 ->
    load32 m (a + k) = Ok x /\ load_bytes m (a + (k + 4)) n = Some l).
  { intros k n x l b Hl -> Hx. apply load_bytes_app in Hl as [Hh Ht].
    rewrite take_app_length', drop_app_length' in * by (by rewrite length_le_split).
    unfold load. rewrite Hh, le_combine_split. split; [f_equal; apply Z.mod_small; simpl; lia|].
    by rewrite Z.add_assoc. }
  destruct (Hsplit 0 12%nat (w0 w) _ a Hb) as [L0 B1]; [lia|done|].
  destruct (Hsplit 4 8%nat (w1 w) _ _ B1) as [L1 B2]; [lia|done|].
  destruct (Hsplit 8 4%nat (w2 w) _ _ B2) as [L2 B3]; [lia|done|].
  rewrite <- (app_nil_r (le_split 4 (w3 w))) in B3.
  destruct (Hsplit 12 0%nat (w3 w) _ _ B3) as [L3 _]; [lia|done|].
  rewrite Z.add_0_r in L0. done.
Qed.

#[global] Instance flat_laws :
  GeneratedLaws P (fun p => words_ok (to_words p)) (fun p bs => bs = words_bytes (to_words p)).
Proof.
  split.
  - intros p _. simpl. lia.
  - intros p m b Hp Hptr Hc Hal Hhi Hroom Hz. eexists _, _, _, _. split; [reflexivity|]. split; [reflexivity|].
    cbn [GetSerializedSize_ flat_generated] in *. split; [|split; [|reflexivity]].
    + intros x Hx. rewrite store_bytes_lookup_out; [done|]. rewrite words_bytes_length. lia.
    + pose proof (load_bytes_store_bytes m (ptr_ b + cursor_ b) (words_bytes (to_words p))) as Hl.
      rewrite words_bytes_length in Hl. exact Hl.
  - intros p m a bs Hp Ha Hal Hhi Hb ->. destruct (load_words _ _ _ Hb Hp) as (L0 & L1 & L2 & L3).
    eexists m, m. split; [reflexivity|]. cbn [Deserialize_ flat_generated]. unfold flat_Deserialize.
    rewrite L0, L1, L2, L3. cbn.
    replace {| w0 := w0 (to_words p) |} with (to_words p) by (by destruct (to_words p)). by rewrite words_back.
Qed.
End Flat.

(** A null pointer is a word of its own. *)
#[global] Instance flat_run : Flat RunMessageParams.
Proof.
  refine {|
    to_words := fun p => {| w0 := run_reserved0 p; w1 := run_reserved1 p;
                            w2 := match query_version p with Some _ => 1 | None => 0 end; w3 := 0 |};
    of_words := fun w => {| run_reserved0 := w0 w; run_reserved1 := w1 w;
                            query_version := if w2 w =? 0 then None else Some tt |} |}.
  by intros [? ? [[]|]].
Defined.
#[global] Instance flat_response : Flat RunResponseMessageParams.
Proof.
  refine {|
    to_words := fun p => {| w0 := response_reserved0 p; w1 := response_reserved1 p;
                            w2 := match query_version_result p with Some _ => 1 | None => 0 end;
                            w3 := match query_version_result p with Some r => result_version r | None => 0 end |};
    of_words := fun w => {| response_reserved0 := w0 w; response_reserved1 := w1 w;
                            query_version_result := if w2 w =? 0 then None else Some {| result_version := w3 w |} |} |}.
  by intros [? ? [[]|]].
Defined.
#[global] Instance flat_close : Flat RunOrClosePipeMessageParams.
Proof.
  refine {|
    to_words := fun p => {| w0 := close_reserved0 p; w1 := close_reserved1 p;
                            w2 := match require_version p with Some _ => 1 | None => 0 end;
                            w3 := match require_version p with Some r => required_version r | None => 0 end |};
    of_words := fun w => {| close_reserved0 := w0 w; close_reserved1 := w1 w;
                            require_version := if w2 w =? 0 then None else Some {| required_version := w3 w |} |} |}.
  by intros [? ? [[]|]].
Defined.
End Samples.
Import Samples.

(** Version 5 is refused by an interface of version 3, when the message arrives where it
    was made. *)
Lemma RequireVersion_refuses_witness :
  exists msg m1, run_or_close_pipe_message true 64 (Some {| required_version := 5 |}) ∅ = Ok (msg, m1) /\
    exists m2, ControlMessageHandler_Accept true 3 msg m1 = Ok (false, m2).
Proof.
  destruct (RequireVersion_refuses true 3 5 64 ∅) as (msg & m1 & Hrun & _ & _ & Hd & Hr);
    [split; [lia|reflexivity]|repeat split; simpl; lia|].
  exists msg, m1. split; [exact Hrun|]. exact (Hr m1 msg (received_same m1 msg Hd)).
Defined.

(** An interface of version 3 says so. *)
Lemma QueryVersion_answers_witness :
  exists msg m1 req response m2 m4,
    run_message true 64 (Some tt) ∅ = Ok (msg, m1) /\
    set_request_id true {| message_mem := m1; message_data := msg |} 7 = Ok req /\
    request_id true m2 response = Ok 7 /\
    RunResponseForwardToCallback_Accept (fun v => if v =? 3 then mret tt else lift Fault) response m2 = Ok (true, m4).
Proof.
  destruct (QueryVersion_answers true 3 64 256 ∅) as (msg & m1 & Hrun & _ & _ & Hr);
    [split; [lia|reflexivity]|split; [lia|reflexivity]|repeat split; simpl; lia|repeat split; simpl; lia|].
  destruct (Hr 7) as (req & Hreq & Hd & Hr1); [lia|].
  destruct (Hr1 _ _ (received_same (message_mem req) _ Hd)) as (response & m2 & _ & _ & Hid & Hd2 & Hr2).
  destruct (Hr2 _ _ (received_same m2 _ Hd2)) as [m4 Hcb].
  exists msg, m1, req, response, m2, m4. do 3 (split; [assumption|]).
  exact (Hcb unit (fun v => if v =? 3 then mret tt else lift Fault)).
Defined.
