(* ===== verification/Interfaces.v ===== *)
(** Interface handles, requests, pointers and bindings, on top of the router:
    src/cpp/bindings/interface_handle.h, interface_request.h, interface_ptr.h,
    lib/interface_ptr_internal.h, binding.h and strong_binding.h. *)
From stdpp Require Import base numbers list option gmap sets.
From Stdlib Require Import ZArith Lia.
From S2P Require Import Prelude Result CMem Buffer Descriptor Validate Message Serialization ControlMessages Router.
From S2P Require Handles.

(** * Objects

    An object has an address; a router has an identity of its own, and so does an
    implementation of an interface. A scoped handle that is a member is its value. *)
Abbreviation addr := nat.
Abbreviation rid := nat.
Abbreviation impl := nat.
Abbreviation callback := nat.

Abbreviation is_valid := Handles.is_valid.

Record InterfaceHandle := {
  ih_handle_ : Z;
  ih_version_ : Z;
}.
Definition null_handle : InterfaceHandle := {| ih_handle_ := MOJO_HANDLE_INVALID; ih_version_ := 0 |}.

(** The proxy is the router that it refers to; of the waiter only whether it is set. *)
Record InterfacePtrState := {
  proxy_ : option rid;
  router_ : option rid;
  handle_ : Z;
  waiter_ : bool;
  version_ : Z;
}.
Definition unbound : InterfacePtrState :=
  {| proxy_ := None; router_ := None; handle_ := MOJO_HANDLE_INVALID; waiter_ := false; version_ := 0 |}.

(** What a binding runs when its connection fails: nothing, code of the program, or the
    function that a [StrongBinding], the captured [this], has set. *)
Inductive binding_handler :=
  | NoHandler
  | UserHandler (f : callback)
  | StrongError (this : addr).

Record Binding := {
  internal_router_ : option rid;
  impl_ : impl;
  connection_error_handler_ : binding_handler;
}.

Record StrongBinding := {
  strong_handler_ : option callback;
  binding_ : addr;
}.

(** The error handler of a router: a binding sets one that captures it. *)
Inductive router_handler :=
  | UserRouterHandler (f : callback)
  | RunBindingHandler (this : addr).

Inductive iobject :=
  | OHandle (x : InterfaceHandle)
  | ORequest (handle : Z)
  | OPtr (x : InterfacePtrState)
  | OBinding (x : Binding)
  | OStrong (x : StrongBinding).

(** The handles of the process; the objects; the routers, of which a deleted one keeps
    what others can still see of it; their error handlers; the responders that are
    callbacks of [QueryVersion], with the pointer that they capture; what the system will
    answer to the routers to come; the implementations that were deleted, the last first. *)
Record heap := {
  proc : Handles.process;
  objs : gmap addr iobject;
  next_addr : addr;
  routers : gmap rid Router.world;
  next_router : rid;
  error_handlers : gmap rid router_handler;
  queries : gmap (rid * responder) (addr * callback);
  router_answers : list (list Router.answer);
  deleted_impls : list impl;
}.

Definition set_proc (x : Handles.process) (w : heap) : heap :=
  {| proc := x; objs := objs w; next_addr := next_addr w; routers := routers w; next_router := next_router w;
     error_handlers := error_handlers w; queries := queries w; router_answers := router_answers w;
     deleted_impls := deleted_impls w |}.
Definition set_objs (x : gmap addr iobject) (n : addr) (w : heap) : heap :=
  {| proc := proc w; objs := x; next_addr := n; routers := routers w; next_router := next_router w;
     error_handlers := error_handlers w; queries := queries w; router_answers := router_answers w;
     deleted_impls := deleted_impls w |}.
Definition set_routers (x : gmap rid Router.world) (w : heap) : heap :=
  {| proc := proc w; objs := objs w; next_addr := next_addr w; routers := x; next_router := next_router w;
     error_handlers := error_handlers w; queries := queries w; router_answers := router_answers w;
     deleted_impls := deleted_impls w |}.
Definition set_error_handlers (x : gmap rid router_handler) (w : heap) : heap :=
  {| proc := proc w; objs := objs w; next_addr := next_addr w; routers := routers w; next_router := next_router w;
     error_handlers := x; queries := queries w; router_answers := router_answers w;
     deleted_impls := deleted_impls w |}.
Definition set_queries (x : gmap (rid * responder) (addr * callback)) (w : heap) : heap :=
  {| proc := proc w; objs := objs w; next_addr := next_addr w; routers := routers w; next_router := next_router w;
     error_handlers := error_handlers w; queries := x; router_answers := router_answers w;
     deleted_impls := deleted_impls w |}.

(** Code on the handles of the process. *)
Definition on_process {A} (c : M Handles.process A) : M heap A := fun w =>
  '(a, p) ← c (proc w); mret (a, set_proc p w).

(** Access to an object that is gone, or is another's, is undefined. *)
Definition object_at (a : addr) : M heap iobject :=
  w ← get; match objs w !! a with Some o => mret o | None => lift Fault end.
Definition set_object (a : addr) (o : iobject) : M heap unit :=
  object_at a;; modify (fun w => set_objs (<[a := o]> (objs w)) (next_addr w) w).
Definition new_object (o : iobject) : M heap addr :=
  w ← get; put (set_objs (<[next_addr w := o]> (objs w)) (S (next_addr w)) w);; mret (next_addr w).
Definition delete_object (a : addr) : M heap unit :=
  object_at a;; modify (fun w => set_objs (delete a (objs w)) (next_addr w) w).

Definition get_handle (a : addr) : M heap InterfaceHandle :=
  o ← object_at a; match o with OHandle x => mret x | _ => lift Fault end.
Definition get_request (a : addr) : M heap Z :=
  o ← object_at a; match o with ORequest h => mret h | _ => lift Fault end.
Definition get_ptr (a : addr) : M heap InterfacePtrState :=
  o ← object_at a; match o with OPtr x => mret x | _ => lift Fault end.
Definition get_binding (a : addr) : M heap Binding :=
  o ← object_at a; match o with OBinding x => mret x | _ => lift Fault end.
Definition get_strong (a : addr) : M heap StrongBinding :=
  o ← object_at a; match o with OStrong x => mret x | _ => lift Fault end.

Section Code.
Context (debug : bool).
(** [Interface::Version_], and where the data of messages is allocated. *)
Context (interface_version memory : Z).
Context `{Generated RunMessageParams, Generated RunOrClosePipeMessageParams}.

Definition c_assert (b : bool) : M heap unit := MOJO_DCHECK debug b.

(** [ScopedHandleBase::CloseIfNecessary] of a member. *)
Definition close_member (h : Z) : M heap unit :=
  if negb (is_valid h) then mret tt
  else
    result ← on_process (Handles.MojoClose h);
    c_assert (result =? MOJO_RESULT_OK).

(** [MessagePipe pipe;], of which both ends are passed on. *)
Definition message_pipe : M heap (Z * Z) :=
  on_process
    ('(handle0, handle1) ← Handles.MessagePipe_new debug;
     h0 ← Handles.release handle0;
     h1 ← Handles.release handle1;
     Handles.ScopedHandle_destructor debug handle1;;
     Handles.ScopedHandle_destructor debug handle0;;
     mret (h0, h1)).

(** * Routers

    A call of a router. It closes its pipe when it notes so. *)
Fixpoint pipes_closed (tr : list event) : nat :=
  match tr with
  | [] => 0
  | PipeClosed :: tr => S (pipes_closed tr)
  | _ :: tr => pipes_closed tr
  end.
Definition pipe_of (w : Router.world) : Z :=
  match router w with Some r => message_pipe_ (connector_ r) | None => MOJO_HANDLE_INVALID end.

Definition on_router {A} (r : rid) (c : M Router.world A) : M heap A :=
  w ← get;
  match routers w !! r with
  | None => lift Fault
  | Some rw =>
      '(a, rw') ← lift (c rw);
      put (set_routers (<[r := rw']> (routers w)) w);;
      (if (pipes_closed (trace rw) <? pipes_closed (trace rw'))%nat then close_member (pipe_of rw) else mret tt);;
      mret a
  end.

(** [new Router(std::move(handle), ...)] *)
Definition new_router (handle : Z) : M heap rid :=
  w ← get;
  '(_, rw) ← lift (WaitToReadMore (new_world handle (default [] (head (router_answers w)))));
  put {| proc := proc w; objs := objs w; next_addr := next_addr w; routers := <[next_router w := rw]> (routers w);
         next_router := S (next_router w); error_handlers := error_handlers w; queries := queries w;
         router_answers := tail (router_answers w); deleted_impls := deleted_impls w |};;
  mret (next_router w).

Definition delete_router (r : rid) : M heap unit := on_router r Router_destructor.

Definition set_router_error_handler (r : rid) (h : router_handler) : M heap unit :=
  on_router r this;; modify (fun w => set_error_handlers (<[r := h]> (error_handlers w)) w).

(** * interface_handle.h *)

Definition InterfaceHandle_new (handle version : Z) : M heap addr :=
  new_object (OHandle {| ih_handle_ := handle; ih_version_ := version |}).

(** A handle that is moved to a temporary. *)
Definition InterfaceHandle_take (other : addr) : M heap InterfaceHandle :=
  x ← get_handle other;
  set_object other (OHandle null_handle);;
  mret x.
Definition InterfaceHandle_move (other : addr) : M heap addr :=
  x ← InterfaceHandle_take other; new_object (OHandle x).

(** Assignment from a temporary, and from another. *)
Definition InterfaceHandle_assign_value (this : addr) (other : InterfaceHandle) : M heap unit :=
  x ← get_handle this;
  close_member (ih_handle_ x);;
  set_object this (OHandle other).
Definition InterfaceHandle_assign (this other : addr) : M heap unit :=
  if (this =? other)%nat then mret tt
  else
    x ← InterfaceHandle_take other;
    InterfaceHandle_assign_value this x.
Definition InterfaceHandle_destructor (this : addr) : M heap unit :=
  x ← get_handle this; close_member (ih_handle_ x);; delete_object this.
Definition InterfaceHandle_is_valid (this : addr) : M heap bool := x ← get_handle this; mret (is_valid (ih_handle_ x)).
(** The version stays. *)
Definition PassHandle (this : addr) : M heap Z :=
  x ← get_handle this;
  set_object this (OHandle {| ih_handle_ := MOJO_HANDLE_INVALID; ih_version_ := ih_version_ x |});;
  mret (ih_handle_ x).
Definition set_version (this : addr) (version : Z) : M heap unit :=
  x ← get_handle this; set_object this (OHandle {| ih_handle_ := ih_handle_ x; ih_version_ := version |}).

(** * interface_request.h *)

Definition InterfaceRequest_new (handle : Z) : M heap addr := new_object (ORequest handle).
(** [PassMessagePipe], and moves. *)
Definition PassMessagePipe (this : addr) : M heap Z :=
  h ← get_request this; set_object this (ORequest MOJO_HANDLE_INVALID);; mret h.
Definition InterfaceRequest_move (other : addr) : M heap addr := h ← PassMessagePipe other; new_object (ORequest h).
(** Also [Bind], and with an invalid handle the assignment of null. *)
Definition InterfaceRequest_assign_value (this : addr) (handle : Z) : M heap unit :=
  h ← get_request this; close_member h;; set_object this (ORequest handle).
Definition InterfaceRequest_assign (this other : addr) : M heap unit :=
  h ← PassMessagePipe other;
  InterfaceRequest_assign_value this h.
Definition InterfaceRequest_destructor (this : addr) : M heap unit :=
  h ← get_request this; close_member h;; delete_object this.
Definition is_pending (this : addr) : M heap bool := h ← get_request this; mret (is_valid h).

(** * interface_ptr_internal.h *)

Definition InterfacePtrState_destructor (this : addr) : M heap unit :=
  s ← get_ptr this;
  (match router_ s with Some r => delete_router r | None => mret tt end);;
  close_member (handle_ s);;
  delete_object this.

Definition ConfigureProxyIfNecessary (this : addr) : M heap unit :=
  s ← get_ptr this;
  match proxy_ s with
  | Some _ => c_assert (bool_decide (is_Some (router_ s)))
  | None =>
      if negb (waiter_ s) then c_assert (negb (is_valid (handle_ s)))
      else
        r ← new_router (handle_ s);
        set_object this (OPtr {| proxy_ := Some r; router_ := Some r; handle_ := MOJO_HANDLE_INVALID;
                                 waiter_ := false; version_ := version_ s |})
  end.

Definition instance (this : addr) : M heap (option rid) :=
  ConfigureProxyIfNecessary this;; s ← get_ptr this; mret (proxy_ s).

(** The messages of control_message_proxy.cc. *)
Definition query_message : outcome message :=
  '(msg, m) ← run_message debug memory (Some tt) ∅; mret {| message_mem := m; message_data := msg |}.
Definition require_message (version : Z) : outcome message :=
  '(msg, m) ← run_or_close_pipe_message debug memory (Some {| required_version := version |}) ∅;
  mret {| message_mem := m; message_data := msg |}.

(** A call through a proxy; through a null pointer it is undefined. *)
Definition through (proxy : option rid) {A} (c : rid -> M heap A) : M heap A :=
  match proxy with Some r => c r | None => lift Fault end.

(** [SendRunMessage]: the responder is deleted if it is not accepted. *)
Definition send_query (m : message) : M Router.world (bool * responder) :=
  responder ← new_responder;
  ok ← Router_AcceptWithResponder debug m responder;
  (if negb ok then delete_responder responder else mret tt);;
  mret (ok, responder).

(** The callback captures [this]. *)
Definition QueryVersion (this : addr) (f : callback) : M heap unit :=
  ConfigureProxyIfNecessary this;;
  s ← get_ptr this;
  through (proxy_ s) (fun r =>
    m ← lift query_message;
    '(ok, responder) ← on_router r (send_query m);
    if (ok : bool) then modify (fun w => set_queries (<[(r, responder) := (this, f)]> (queries w)) w)
    else mret tt).

Definition RequireVersion (this : addr) (version : Z) : M heap unit :=
  ConfigureProxyIfNecessary this;;
  s ← get_ptr this;
  if version <=? version_ s then mret tt
  else
    set_object this (OPtr {| proxy_ := proxy_ s; router_ := router_ s; handle_ := handle_ s;
                             waiter_ := waiter_ s; version_ := version |});;
    through (proxy_ s) (fun r =>
      m ← lift (require_message version);
      on_router r (Router_Accept debug m);;
      mret tt).

Definition Swap (this other : addr) : M heap unit :=
  s ← get_ptr this;
  t ← get_ptr other;
  set_object this (OPtr t);;
  set_object other (OPtr s).

(** [info] is a temporary. *)
Definition State_Bind (this : addr) (info : InterfaceHandle) : M heap unit :=
  s ← get_ptr this;
  c_assert (bool_decide (proxy_ s = None));;
  c_assert (bool_decide (router_ s = None));;
  c_assert (negb (is_valid (handle_ s)));;
  c_assert (negb (waiter_ s));;
  c_assert (version_ s =? 0);;
  c_assert (is_valid (ih_handle_ info));;
  close_member (handle_ s);;
  set_object this (OPtr {| proxy_ := proxy_ s; router_ := router_ s; handle_ := ih_handle_ info;
                           waiter_ := true; version_ := ih_version_ info |}).

Definition State_PassInterfaceHandle (this : addr) : M heap InterfaceHandle :=
  s ← get_ptr this;
  h ← match router_ s with
      | Some r => on_router r Connector_PassMessagePipe
      | None =>
          set_object this (OPtr {| proxy_ := proxy_ s; router_ := router_ s; handle_ := MOJO_HANDLE_INVALID;
                                   waiter_ := waiter_ s; version_ := version_ s |});;
          mret (handle_ s)
      end;
  mret {| ih_handle_ := h; ih_version_ := version_ s |}.

Definition is_bound (this : addr) : M heap bool :=
  s ← get_ptr this; mret (is_valid (handle_ s) || bool_decide (is_Some (router_ s))).
Definition encountered_error (this : addr) : M heap bool :=
  s ← get_ptr this;
  match router_ s with Some r => on_router r Connector_encountered_error | None => mret false end.
Definition set_connection_error_handler (this : addr) (f : callback) : M heap unit :=
  ConfigureProxyIfNecessary this;;
  s ← get_ptr this;
  c_assert (bool_decide (is_Some (router_ s)));;
  through (router_ s) (fun r => set_router_error_handler r (UserRouterHandler f)).

(** * interface_ptr.h *)

Definition InterfacePtr_new : M heap addr := new_object (OPtr unbound).
Definition InterfacePtr_move (other : addr) : M heap addr :=
  this ← InterfacePtr_new; Swap this other;; mret this.
Definition InterfacePtr_destructor (this : addr) : M heap unit := InterfacePtrState_destructor this.
Definition reset (this : addr) : M heap unit :=
  doomed ← new_object (OPtr unbound); Swap this doomed;; InterfacePtrState_destructor doomed.
Definition InterfacePtr_assign (this other : addr) : M heap unit :=
  reset this;; Swap this other.
Definition Bind (this : addr) (info : InterfaceHandle) : M heap unit :=
  reset this;;
  if is_valid (ih_handle_ info) then State_Bind this info else mret tt.
Definition Create (info : InterfaceHandle) : M heap addr :=
  ptr ← InterfacePtr_new;
  (if is_valid (ih_handle_ info) then Bind ptr info else mret tt);;
  mret ptr.
Definition PassInterfaceHandle (this : addr) : M heap InterfaceHandle :=
  state ← new_object (OPtr unbound);
  Swap this state;;
  x ← State_PassInterfaceHandle state;
  InterfacePtrState_destructor state;;
  mret x.

(** * [GetProxy]

    The request that is returned is a temporary. *)
Definition GetProxy (handle : addr) : M heap Z :=
  '(handle0, handle1) ← message_pipe;
  InterfaceHandle_assign_value handle {| ih_handle_ := handle0; ih_version_ := 0 |};;
  mret handle1.
Definition GetProxy_ptr (ptr : addr) : M heap Z :=
  iface_handle ← InterfaceHandle_new MOJO_HANDLE_INVALID 0;
  retval ← GetProxy iface_handle;
  info ← InterfaceHandle_take iface_handle;
  created ← Create info;
  InterfacePtr_assign ptr created;;
  InterfacePtr_destructor created;;
  InterfaceHandle_destructor iface_handle;;
  mret retval.

(** * binding.h *)

Definition Binding_new (implementation : impl) : M heap addr :=
  new_object (OBinding {| internal_router_ := None; impl_ := implementation; connection_error_handler_ := NoHandler |}).

(** [internal_router_.reset(router)] *)
Definition reset_router (this : addr) (router : option rid) : M heap unit :=
  x ← get_binding this;
  set_object this (OBinding {| internal_router_ := router; impl_ := impl_ x;
                               connection_error_handler_ := connection_error_handler_ x |});;
  match internal_router_ x with Some old => delete_router old | None => mret tt end.

Definition set_incoming_receiver : M Router.world unit :=
  update_this (fun r =>
    {| connector_ := connector_ r; incoming_receiver_ := true; responders_ := responders_ r;
       next_request_id_ := next_request_id_ r; testing_mode_ := testing_mode_ r |}).

Definition Binding_Bind (this : addr) (handle : Z) : M heap unit :=
  x ← get_binding this;
  c_assert (bool_decide (internal_router_ x = None));;
  r ← new_router handle;
  reset_router this (Some r);;
  on_router r set_incoming_receiver;;
  set_router_error_handler r (RunBindingHandler this).

Definition Binding_Bind_handle (this interface_handle : addr) : M heap unit :=
  '(handle0, handle1) ← message_pipe;
  InterfaceHandle_assign_value interface_handle {| ih_handle_ := handle0; ih_version_ := interface_version |};;
  Binding_Bind this handle1.

Definition Close (this : addr) : M heap unit :=
  x ← get_binding this;
  c_assert (bool_decide (is_Some (internal_router_ x)));;
  reset_router this None.

Definition Unbind (this : addr) : M heap Z :=
  x ← get_binding this;
  h ← through (internal_router_ x) (fun r => on_router r Connector_PassMessagePipe);
  reset_router this None;;
  mret h.

Definition set_binding_error_handler (this : addr) (h : binding_handler) : M heap unit :=
  x ← get_binding this;
  set_object this (OBinding {| internal_router_ := internal_router_ x; impl_ := impl_ x;
                               connection_error_handler_ := h |}).
Definition Binding_is_bound (this : addr) : M heap bool :=
  x ← get_binding this; mret (bool_decide (is_Some (internal_router_ x))).
Definition Binding_destructor (this : addr) : M heap unit :=
  x ← get_binding this;
  (match internal_router_ x with Some r => delete_router r | None => mret tt end);;
  delete_object this.

(** * strong_binding.h *)

Definition StrongBinding_new (implementation : impl) : M heap addr :=
  b ← Binding_new implementation;
  this ← new_object (OStrong {| strong_handler_ := None; binding_ := b |});
  set_binding_error_handler b (StrongError this);;
  mret this.
Definition StrongBinding_Bind (this : addr) (handle : Z) : M heap unit :=
  x ← get_strong this;
  bound ← Binding_is_bound (binding_ x);
  c_assert (negb bound);;
  Binding_Bind (binding_ x) handle.
Definition StrongBinding_Close (this : addr) : M heap unit := x ← get_strong this; Close (binding_ x).
Definition StrongBinding_Unbind (this : addr) : M heap Z := x ← get_strong this; Unbind (binding_ x).
Definition StrongBinding_set_error_handler (this : addr) (f : callback) : M heap unit :=
  x ← get_strong this; set_object this (OStrong {| strong_handler_ := Some f; binding_ := binding_ x |}).
Definition StrongBinding_destructor (this : addr) : M heap unit :=
  x ← get_strong this; Binding_destructor (binding_ x);; delete_object this.

(** * Errors and responses *)

(** The waiter tells the connector that its wait has failed. *)
Definition signal_error (result : MojoResult) : M Router.world unit :=
  w ← get;
  match router w with
  | None => lift OutOfFuel
  | Some r =>
      if negb (result =? MOJO_RESULT_OK) && bool_decide (async_wait_id_ (connector_ r) ∈ waits w) then
        modify (fun w => set_waits (waits w ∖ {[async_wait_id_ (connector_ r)]}) (next_wait w) w);;
        OnHandleReady debug (fun _ => mret false) (mret tt) 0 result
      else lift OutOfFuel
  end.

(** The router takes the responder for a response out of its map; after an error nothing
    is read. *)
Definition take_responder (id : Z) : M Router.world responder :=
  self ← this;
  if error_ (connector_ self) then lift OutOfFuel
  else
  match responders_ self !! id with
  | None => lift OutOfFuel
  | Some x =>
      set_responder_map (delete id (responders_ self)) (next_request_id_ self);;
      check_responder x;;
      note (Responded id x);;
      mret x
  end.

Section Callbacks.
(** Runs a callback of the program, with the version for those of [QueryVersion], and the
    destructor of an implementation. *)
Context (run_callback : callback -> Z -> M heap unit) (impl_destructor : impl -> M heap unit).

Definition delete_impl (i : impl) : M heap unit :=
  modify (fun w =>
    {| proc := proc w; objs := objs w; next_addr := next_addr w; routers := routers w; next_router := next_router w;
       error_handlers := error_handlers w; queries := queries w; router_answers := router_answers w;
       deleted_impls := i :: deleted_impls w |});;
  impl_destructor i.

Definition OnConnectionError (this : addr) : M heap unit :=
  x ← get_strong this;
  (match strong_handler_ x with Some f => run_callback f 0 | None => mret tt end);;
  x ← get_strong this;
  b ← get_binding (binding_ x);
  delete_impl (impl_ b).

Definition run_binding_handler (this : addr) : M heap unit :=
  x ← get_binding this;
  match connection_error_handler_ x with
  | NoHandler => mret tt
  | UserHandler f => run_callback f 0
  | StrongError strong => OnConnectionError strong
  end.

Definition connection_error (r : rid) (result : MojoResult) : M heap unit :=
  on_router r (signal_error result);;
  w ← get;
  match error_handlers w !! r with
  | None => mret tt
  | Some (UserRouterHandler f) => run_callback f 0
  | Some (RunBindingHandler b) => run_binding_handler b
  end.

(** A response to [QueryVersion]: [callback_wrapper] runs, then the responder is deleted. *)
Definition version_response (r : rid) (id version : Z) : M heap unit :=
  x ← on_router r (take_responder id);
  w ← get;
  match queries w !! (r, x) with
  | None => lift OutOfFuel
  | Some (ptr, f) =>
      put (set_queries (delete (r, x) (queries w)) w);;
      s ← get_ptr ptr;
      set_object ptr (OPtr {| proxy_ := proxy_ s; router_ := router_ s; handle_ := handle_ s;
                              waiter_ := waiter_ s; version_ := version |});;
      run_callback f version;;
      on_router r (delete_responder x)
  end.
End Callbacks.

(** * Programs

    Code that uses these objects, and what happens to it: [Fail] is a wait of a router
    that fails, [Answer] a response to a request for a version. It uses objects that it
    has, as they are meant to be used, and puts into them only handles that are open and
    that no object has; a program that does not is not considered, and ends. There are two
    rules: a pointer is not moved while it waits for a version (a rule that the code does
    not state), and the error handler of a strong binding does not delete the
    implementation, and with it the binding (which [OnConnectionError] does itself, as the
    comment in strong_binding.h says). With [rules] the program is watched, and ends when it
    breaks one; without, the code runs on. *)
Inductive prog :=
  | Exit
  | NewHandle (h version : Z) (k : addr -> prog)
  | MoveHandle (x : addr) (k : addr -> prog)
  | AssignHandle (x y : addr) (k : prog)
  | SetVersion (x : addr) (version : Z) (k : prog)
  | CallPassHandle (x : addr) (k : Z -> prog)
  | DestroyHandle (x : addr) (k : prog)
  | NewRequest (h : Z) (k : addr -> prog)
  | MoveRequest (x : addr) (k : addr -> prog)
  | AssignRequest (x y : addr) (k : prog)
  | BindRequest (x : addr) (h : Z) (k : prog)
  | CallPassMessagePipe (x : addr) (k : Z -> prog)
  | DestroyRequest (x : addr) (k : prog)
  | NewPtr (k : addr -> prog)
  | MovePtr (p : addr) (k : addr -> prog)
  | AssignPtr (p q : addr) (k : prog)
  | ResetPtr (p : addr) (k : prog)
  | BindPtr (p x : addr) (k : prog)
  | CreatePtr (x : addr) (k : addr -> prog)
  | GetInstance (p : addr) (k : bool -> prog)
  | CallQueryVersion (p : addr) (f : callback) (k : prog)
  | CallRequireVersion (p : addr) (version : Z) (k : prog)
  | SetPtrErrorHandler (p : addr) (f : callback) (k : prog)
  | CallPassInterfaceHandle (p : addr) (k : addr -> prog)
  | DestroyPtr (p : addr) (k : prog)
  | CallGetProxy (x : addr) (k : addr -> prog)
  | CallGetProxy_ptr (p : addr) (k : addr -> prog)
  | NewBinding (i : impl) (k : addr -> prog)
  | BindBinding (b x : addr) (k : prog)
  | BindNewPipe (b x : addr) (k : prog)
  | CloseBinding (b : addr) (k : prog)
  | UnbindBinding (b : addr) (k : addr -> prog)
  | SetBindingErrorHandler (b : addr) (f : callback) (k : prog)
  | DestroyBinding (b : addr) (k : prog)
  | NewStrong (i : impl) (k : addr -> prog)
  | BindStrong (s x : addr) (k : prog)
  | CloseStrong (s : addr) (k : prog)
  | UnbindStrong (s : addr) (k : addr -> prog)
  | SetStrongErrorHandler (s : addr) (f : callback) (k : prog)
  | DestroyStrong (s : addr) (k : prog)
  | Fail (r : rid) (result : MojoResult) (k : prog)
  | Answer (r : rid) (id version : Z) (k : prog).

Definition require (b : heap -> bool) : M heap unit := w ← get; if b w then mret tt else lift OutOfFuel.

Definition is_handle (a : addr) (w : heap) : bool := match objs w !! a with Some (OHandle _) => true | _ => false end.
Definition is_request (a : addr) (w : heap) : bool := match objs w !! a with Some (ORequest _) => true | _ => false end.
Definition is_ptr (a : addr) (w : heap) : bool := match objs w !! a with Some (OPtr _) => true | _ => false end.
Definition is_bound_ptr (a : addr) (w : heap) : bool :=
  match objs w !! a with
  | Some (OPtr s) => is_valid (handle_ s) || bool_decide (is_Some (router_ s))
  | _ => false
  end.
(** A binding of the program, and not of a strong binding. *)
Definition is_binding (bound : option bool) (a : addr) (w : heap) : bool :=
  match objs w !! a with
  | Some (OBinding x) =>
      match connection_error_handler_ x with StrongError _ => false | _ => true end &&
      match bound with Some b => eqb b (bool_decide (is_Some (internal_router_ x))) | None => true end
  | _ => false
  end.
Definition is_strong (bound : option bool) (a : addr) (w : heap) : bool :=
  match objs w !! a with
  | Some (OStrong s) =>
      match bound, objs w !! binding_ s with
      | None, _ => true
      | Some b, Some (OBinding x) => eqb b (bool_decide (is_Some (internal_router_ x)))
      | _, _ => false
      end
  | _ => false
  end.

Definition handles_in (o : iobject) : list Z :=
  List.filter is_valid (match o with
                        | OHandle x => [ih_handle_ x]
                        | ORequest h => [h]
                        | OPtr s => [handle_ s]
                        | OBinding _ | OStrong _ => []
                        end).
Definition held (w : heap) : list Z :=
  (map_to_list (objs w) ≫= fun x => handles_in x.2) ++
  (map_to_list (routers w) ≫= fun x => List.filter is_valid [pipe_of x.2]).
Definition adoptable (h : Z) (w : heap) : bool :=
  negb (is_valid h) || bool_decide (h ∈ Handles.open_handles (proc w)) && bool_decide (h ∉ held w).

(** What the rules are about: a router that exists; a pointer whose state a callback of
    [QueryVersion] captures; the strong binding that is told of an error of a router. *)
Definition alive (w : heap) (r : rid) : bool :=
  match routers w !! r with Some rw => bool_decide (is_Some (router rw)) | None => false end.
Definition waits_for_version (w : heap) (this : addr) : bool :=
  existsb (fun x => bool_decide (x.2.1 = this) && alive w x.1.1) (map_to_list (queries w)).
Definition told_strong (w : heap) (r : rid) : option addr :=
  match error_handlers w !! r with
  | Some (RunBindingHandler b) =>
      match objs w !! b with
      | Some (OBinding x) => match connection_error_handler_ x with StrongError s => Some s | _ => None end
      | _ => None
      end
  | _ => None
  end.

(** Handles that come in and go out, for the record. *)
Definition adopt (h : Z) : M heap unit :=
  require (adoptable h);; on_process (Handles.notes Handles.Took (List.filter is_valid [h])).
Definition give (h : Z) : M heap unit := on_process (Handles.notes Handles.Gave (List.filter is_valid [h])).

Section Run.
Context (rules : bool).
Definition keep_rule (b : heap -> bool) : M heap unit := require (fun w => negb rules || b w).
Definition keep_strong (s : option addr) : M heap unit :=
  match s with Some s => keep_rule (is_strong None s) | None => mret tt end.

(** What callbacks do, and destructors of implementations. *)
Context (run_callback : callback -> Z -> prog) (impl_destructor : impl -> prog).

Fixpoint run_calls (call : prog -> M heap unit) (a : prog) : M heap unit :=
  let run_calls := run_calls call in
  match a with
  | Exit => mret tt
  | NewHandle h version k => adopt h;; x ← InterfaceHandle_new h version; run_calls (k x)
  | MoveHandle x k => require (is_handle x);; y ← InterfaceHandle_move x; run_calls (k y)
  | AssignHandle x y k =>
      require (is_handle x);; require (is_handle y);; InterfaceHandle_assign x y;; run_calls k
  | SetVersion x version k => require (is_handle x);; set_version x version;; run_calls k
  | CallPassHandle x k => require (is_handle x);; h ← PassHandle x; give h;; run_calls (k h)
  | DestroyHandle x k => require (is_handle x);; InterfaceHandle_destructor x;; run_calls k
  | NewRequest h k => adopt h;; x ← InterfaceRequest_new h; run_calls (k x)
  | MoveRequest x k => require (is_request x);; y ← InterfaceRequest_move x; run_calls (k y)
  | AssignRequest x y k =>
      require (is_request x);; require (is_request y);; InterfaceRequest_assign x y;; run_calls k
  | BindRequest x h k => require (is_request x);; adopt h;; InterfaceRequest_assign_value x h;; run_calls k
  | CallPassMessagePipe x k => require (is_request x);; h ← PassMessagePipe x; give h;; run_calls (k h)
  | DestroyRequest x k => require (is_request x);; InterfaceRequest_destructor x;; run_calls k
  | NewPtr k => p ← InterfacePtr_new; run_calls (k p)
  | MovePtr p k =>
      require (is_ptr p);; keep_rule (fun w => negb (waits_for_version w p));;
      q ← InterfacePtr_move p; run_calls (k q)
  | AssignPtr p q k =>
      require (is_ptr p);; require (is_ptr q);; keep_rule (fun w => negb (waits_for_version w q));;
      InterfacePtr_assign p q;; run_calls k
  | ResetPtr p k => require (is_ptr p);; reset p;; run_calls k
  | BindPtr p x k =>
      require (is_ptr p);; require (is_handle x);; info ← InterfaceHandle_take x; Bind p info;; run_calls k
  | CreatePtr x k => require (is_handle x);; info ← InterfaceHandle_take x; p ← Create info; run_calls (k p)
  | GetInstance p k => require (is_ptr p);; proxy ← instance p; run_calls (k (bool_decide (is_Some proxy)))
  | CallQueryVersion p f k => require (is_bound_ptr p);; QueryVersion p f;; run_calls k
  | CallRequireVersion p version k =>
      require (is_bound_ptr p);; require (fun _ => is_u32 version);; RequireVersion p version;; run_calls k
  | SetPtrErrorHandler p f k => require (is_bound_ptr p);; set_connection_error_handler p f;; run_calls k
  | CallPassInterfaceHandle p k =>
      require (is_ptr p);; x ← PassInterfaceHandle p; y ← new_object (OHandle x); run_calls (k y)
  | DestroyPtr p k => require (is_ptr p);; InterfacePtr_destructor p;; run_calls k
  | CallGetProxy x k => require (is_handle x);; h ← GetProxy x; y ← InterfaceRequest_new h; run_calls (k y)
  | CallGetProxy_ptr p k => require (is_ptr p);; h ← GetProxy_ptr p; y ← InterfaceRequest_new h; run_calls (k y)
  | NewBinding i k => b ← Binding_new i; run_calls (k b)
  | BindBinding b x k =>
      require (is_binding (Some false) b);; require (is_request x);;
      h ← PassMessagePipe x; Binding_Bind b h;; run_calls k
  | BindNewPipe b x k =>
      require (is_binding (Some false) b);; require (is_handle x);; Binding_Bind_handle b x;; run_calls k
  | CloseBinding b k => require (is_binding (Some true) b);; Close b;; run_calls k
  | UnbindBinding b k =>
      require (is_binding (Some true) b);; h ← Unbind b; y ← InterfaceRequest_new h; run_calls (k y)
  | SetBindingErrorHandler b f k =>
      require (is_binding None b);; set_binding_error_handler b (UserHandler f);; run_calls k
  | DestroyBinding b k => require (is_binding None b);; Binding_destructor b;; run_calls k
  | NewStrong i k => s ← StrongBinding_new i; run_calls (k s)
  | BindStrong s x k =>
      require (is_strong (Some false) s);; require (is_request x);;
      h ← PassMessagePipe x; StrongBinding_Bind s h;; run_calls k
  | CloseStrong s k => require (is_strong (Some true) s);; StrongBinding_Close s;; run_calls k
  | UnbindStrong s k =>
      require (is_strong (Some true) s);; h ← StrongBinding_Unbind s; y ← InterfaceRequest_new h; run_calls (k y)
  | SetStrongErrorHandler s f k => require (is_strong None s);; StrongBinding_set_error_handler s f;; run_calls k
  | DestroyStrong s k => require (is_strong None s);; StrongBinding_destructor s;; run_calls k
  | Fail r result k =>
      require (fun w => alive w r);;
      w ← get;
      connection_error (fun f v => call (run_callback f v);; keep_strong (told_strong w r)) (fun i => call (impl_destructor i)) r result;;
      run_calls k
  | Answer r id version k =>
      require (fun w => alive w r);;
      version_response (fun f v => call (run_callback f v)) r id version;; run_calls k
  end.

(** [fuel] bounds the depth of callbacks. *)
Fixpoint run_prog (fuel : nat) : prog -> M heap unit :=
  run_calls (match fuel with O => fun _ => lift OutOfFuel | S fuel' => run_prog fuel' end).
End Run.
End Code.

Definition empty_heap (hs : gset Z) (l : list Handles.sys_answer) (ls : list (list Router.answer)) : heap :=
  {| proc := Handles.new_process hs l; objs := ∅; next_addr := 1; routers := ∅; next_router := 0;
     error_handlers := ∅; queries := ∅; router_answers := ls; deleted_impls := [] |}.
