(* ===== verification/InterfacesRouters.v ===== *)
(** What the operations that interface pointers and bindings use on a router do to its
    pipe, its invariant and the responders that it does not own, in any build. *)
From stdpp Require Import base numbers list option gmap sets.
From Stdlib Require Import ZArith Lia.
From S2P Require Import Prelude Result CMem Buffer Descriptor Validate Router RouterFacts RouterSpec.
From S2P Require Import Message Serialization SerializationFacts ControlMessages ControlMessagesFacts Interfaces.

(** * The pipe of a router *)

Definition valid_pipe (w : Router.world) : list Z := List.filter is_valid [pipe_of w].

Lemma valid_pipe_eq w w' : pipe_of w' = pipe_of w -> valid_pipe w' = valid_pipe w.
Proof. unfold valid_pipe. by intros ->. Qed.
Lemma valid_pipe_some w : is_valid (pipe_of w) = true -> valid_pipe w = [pipe_of w].
Proof. unfold valid_pipe. cbn. by intros ->. Qed.
Lemma valid_pipe_none w : is_valid (pipe_of w) = false -> valid_pipe w = [].
Proof. unfold valid_pipe. cbn. by intros ->. Qed.

(** The handle goes where the caller sees it, or the router closes it and notes so. *)
Inductive settled (w w' : Router.world) : list Z -> Prop :=
  | settled_kept given :
      pipes_closed (trace w') = pipes_closed (trace w) ->
      valid_pipe w = given ++ valid_pipe w' -> settled w w' given
  | settled_closed :
      (pipes_closed (trace w) < pipes_closed (trace w'))%nat ->
      is_valid (pipe_of w) = true -> valid_pipe w' = [] -> settled w w' [].

(** An operation that leaves a router that keeps its promises, with the pipe in [given]. *)
Record stepped (given : list Z) (w w' : Router.world) : Prop := {
  stepped_inv : inv false w';
  stepped_held : forall x, RouterFacts.held w x -> RouterFacts.held w' x;
  stepped_settled : settled w w' given;
}.

Lemma stepped_after given w w' : after false w w' -> settled w w' given -> stepped given w w'.
Proof. intros [Hinv Hk] Hs. split; [done|apply Hk|done]. Qed.

Lemma stepped_self w : inv false w -> stepped [] w w.
Proof. intros Hinv. split; [done..|by apply settled_kept]. Qed.

(** A pipe that is closed, if there is one. *)
Lemma settled_pipe_closed w r w' :
  router w = Some r -> pipe_of w' = MOJO_HANDLE_INVALID ->
  (exists e, trace w' = e ++ pipe_closed (message_pipe_ (connector_ r)) ++ trace w /\ pipes_closed e = 0%nat) ->
  settled w w' [].
Proof.
  intros Hr Hp (e & Ht & He). unfold pipe_closed in Ht.
  assert (Hpre : forall tr, pipes_closed (e ++ tr) = pipes_closed tr).
  { intros tr. clear Ht. induction e as [|[] e IH]; simpl in *; auto; done. }
  assert (Hw : pipe_of w = message_pipe_ (connector_ r)) by (unfold pipe_of; by rewrite Hr).
  destruct (Z.eqb_spec (message_pipe_ (connector_ r)) MOJO_HANDLE_INVALID) as [Hi|Hi].
  - apply settled_kept; [by rewrite Ht, Hpre|]. rewrite !valid_pipe_none; [done|..].
    + by rewrite Hp.
    + rewrite Hw. by rewrite Hi.
  - apply settled_closed.
    + rewrite Ht, Hpre. simpl. lia.
    + rewrite Hw. unfold is_valid, Handles.is_valid. by apply negb_true_iff, Z.eqb_neq.
    + apply valid_pipe_none. by rewrite Hp.
Qed.

Section Operations.
Context (debug : bool).

Lemma wlp_pass w r :
  inv false w -> router w = Some r ->
  wlp Connector_PassMessagePipe w (fun h w' => stepped (List.filter is_valid [h]) w w' /\ is_Some (router w')).
Proof.
  intros Hinv Hr. unfold Connector_PassMessagePipe. wlp_step.
  apply (wlp_CancelWait false w r); [apply Hinv|done|]. wlp_step.
  apply (wlp_this_connector false _ (no_wait r)); [done|]. wlp_step.
  apply (wlp_update_connector false _ _ (no_wait r)); [done|]. wlp_step. split; [|done]. apply stepped_after.
  - split; [apply inv_connector; try done; by apply inv_waitless|].
    etransitivity; [by apply kept_waitless|]. by apply kept_connector.
  - apply settled_kept; [done|]. unfold valid_pipe, pipe_of. rewrite Hr. cbn. by destruct (is_valid _).
Qed.

Lemma wlp_destroy w r :
  inv false w -> router w = Some r -> wlp Router_destructor w (fun _ w' => stepped [] w w' /\ router w' = None).
Proof.
  intros Hinv Hr. apply (wlp_Router_destructor false false ltac:(done) w r); [done..|].
  intros w' Ha Hn Ht. split; [|done]. apply stepped_after; [done|].
  apply (settled_pipe_closed w r); [done|unfold pipe_of; by rewrite Hn|by exists []].
Qed.

Lemma wlp_receiver_set w r :
  inv false w -> router w = Some r ->
  wlp set_incoming_receiver w (fun _ w' => stepped [] w w' /\ is_Some (router w') /\
    (RouterFacts.open false w -> RouterFacts.open false w')).
Proof.
  intros Hinv Hr. unfold set_incoming_receiver, update_this. wlp_step. apply (wlp_this false w r); [done|]. wlp_step.
  split; [|split; [done|intros Hopen Hs r' [= <-]; exact (Hopen Hs r Hr)]]. apply stepped_after; [|apply settled_kept; [done|]].
  - pose proof Hinv as []. destruct (inv_router r Hr). split; [split; try done|split; simpl; [by rewrite Hr|]].
    + simpl. by rewrite inv_weak, Hr.
    + unfold waits_ok in *. by rewrite Hr in inv_waits.
    + by intros r' [= <-].
    + intros x [Hx Hown]. split; [done|]. intros r' id [= <-]. exact (Hown r id Hr).
  - unfold valid_pipe, pipe_of. by rewrite Hr.
Qed.

(** ** Errors *)

Lemma wlp_signal_error w r result :
  inv false w -> router w = Some r ->
  wlp (signal_error debug result) w (fun _ w' => stepped [] w w' /\ is_Some (router w') /\ RouterFacts.open false w').
Proof.
  intros Hinv Hr. unfold signal_error. do 2 wlp_step. rewrite Hr.
  destruct (negb (result =? MOJO_RESULT_OK)) eqn:Hres; [|done]. cbn [andb].
  case_bool_decide as Hin; [|done]. wlp_step. wlp_step.
  assert (Ha : waits w = {[async_wait_id_ (connector_ r)]} /\ async_wait_id_ (connector_ r) <> 0).
  { pose proof (inv_waits _ w Hinv) as [_ Hw]. rewrite Hr in Hw. destruct Hw as (_ & _ & Hw).
    destruct (Z.eqb_spec (async_wait_id_ (connector_ r)) 0); [|done]. rewrite Hw in Hin. set_solver. }
  destruct Ha as [Hw Ha].
  replace (waits w ∖ {[async_wait_id_ (connector_ r)]}) with (∅ : gset Z) by (rewrite Hw; set_solver).
  unfold OnHandleReady. wlp_step. apply (wlp_this_connector false _ r); [done|]. wlp_step.
  apply wlp_check; [intros _; by apply negb_true_iff, Z.eqb_neq|]. intros _. wlp_step. unfold set_async_wait_id.
  apply (wlp_update_connector false _ _ r); [done|]. rewrite Hres.
  pose proof (inv_waitless false w r Hinv Hr) as Hinv1. pose proof (kept_waitless w r Hr) as Hk1.
  set (w1 := waitless w r) in *. change (set_router _ _) with w1.
  unfold NotifyError. wlp_step. unfold set_error. apply (wlp_update_connector false _ _ (no_wait r)); [done|].
  set (c := {| message_pipe_ := _ |}).
  assert (Hinv2 : inv false (set_router (Some (with_connector c (no_wait r))) w1)) by by apply inv_connector.
  assert (Hk2 : kept w1 (set_router (Some (with_connector c (no_wait r))) w1)) by by apply kept_connector.
  set (w2 := set_router _ w1) in *.
  wlp_step. apply (wlp_Connector_CloseMessagePipe false w2 (with_connector c (no_wait r))); [done..|].
  intros w3 r3 [Hinv3 Hk3] Hr3 He _ Hp Ht. wlp_step. apply wlp_note. wlp_step. split; [|split].
  - apply stepped_after.
    + split.
      * apply inv_noted; try done. intros _ r' Hr'. simpl in He. congruence.
      * transitivity w1; [done|]. transitivity w2; [done|]. transitivity w3; [done|]. apply kept_noted.
    + apply (settled_pipe_closed w r); [done|unfold pipe_of; cbn; by rewrite Hr3|].
      exists [ErrorNotified]. split; [|done]. cbn. by rewrite Ht.
  - cbn. by rewrite Hr3.
  - intros _ r' Hr' He'. cbn in Hr'. simpl in He. congruence.
Qed.

(** ** Responses *)

Lemma wlp_take_responder w r id :
  inv false w -> router w = Some r ->
  wlp (take_responder id) w (fun x w' => stepped [] w w' /\ is_Some (router w') /\
    (RouterFacts.open false w -> RouterFacts.open false w') /\ RouterFacts.held w' x /\ ~ RouterFacts.held w x).
Proof.
  intros Hinv Hr. unfold take_responder. wlp_step. apply (wlp_this false w r); [done|].
  destruct (error_ (connector_ r)) eqn:He; [done|].
  destruct (responders_ r !! id) as [x|] eqn:Hx; [|done].
  wlp_step. unfold set_responder_map, update_this. wlp_step. apply (wlp_this false w r); [done|]. do 2 wlp_step.
  unfold check_responder. do 2 wlp_step.
  destruct (inv_responded false id x r w) as (Hinv1 & Hk1 & Hheld); [done..|].
  rewrite decide_True by apply Hheld. do 2 wlp_step. apply wlp_note. wlp_step.
  change (noted _ _) with (responded id x r w). split; [|split; [done|split; [|split; [done|]]]].
  - split; [done|apply Hk1|]. apply settled_kept; [done|]. unfold valid_pipe, pipe_of. by rewrite Hr.
  - intros Hopen Hs r' [= <-]. exact (Hopen Hs r Hr).
  - intros [_ Hn]. by apply (Hn r id Hr).
Qed.

Lemma wlp_responder_ends w x :
  inv false w -> RouterFacts.held w x ->
  wlp (delete_responder x) w (fun _ w' => inv false w' /\ router w' = router w /\ trace w' = trace w /\
    forall y, RouterFacts.held w y -> y <> x -> RouterFacts.held w' y).
Proof.
  intros Hinv Hx. apply (wlp_delete_responder false); [apply Hx|].
  split; [by apply inv_responder_ends|]. split; [done|]. split; [done|].
  intros y [Hy Hown] Hne. split; [cbn; set_solver|exact Hown].
Qed.
End Operations.

(** * Sending control messages

    Their flags are such that no assertion of the router fails. *)
Lemma gwlp_ext {S A} b (c c' : M S A) s (Q : A -> S -> Prop) : c s = c' s -> gwlp b c' s Q -> gwlp b c s Q.
Proof. unfold gwlp. by intros ->. Qed.

Section Send.
Context (debug : bool) (memory : Z).
Context `{run_laws : GeneratedLaws RunMessageParams good_run wire_run}.
Context `{close_laws : GeneratedLaws RunOrClosePipeMessageParams good_close wire_close}.
Context (memory_ok : 0 < memory < 2 ^ 63 /\ IsAligned memory = true).
Context (run_ok : good_run {| run_reserved0 := 16; run_reserved1 := 0; query_version := Some tt |}).
Context (close_ok : forall version, is_u32 version = true ->
  good_close {| close_reserved0 := 16; close_reserved1 := 0;
                require_version := Some {| required_version := version |} |}).

Lemma Router_Accept_release m w :
  load32 (message_mem m) (data_ (message_data m) + 12) = Ok (built_flags Message.Request) ->
  Router_Accept debug m w = Router_Accept false m w.
Proof.
  intros Hf. unfold Router_Accept, has_message_flag, Message_has_flag, header_flags. rewrite Hf. by destruct debug.
Qed.

Lemma Router_AcceptWithResponder_release m x w :
  load32 (message_mem m) (data_ (message_data m) + 12) = Ok (built_flags RequestExpectingResponse) ->
  load32 (message_mem m) (data_ (message_data m) + 4) = Ok 1 ->
  Router_AcceptWithResponder debug m x w = Router_AcceptWithResponder false m x w.
Proof.
  intros Hf Hv. unfold Router_AcceptWithResponder, has_message_flag, Message_has_flag, header_flags, set_request_id,
    has_request_id, header_version. rewrite Hf, Hv. by destruct debug.
Qed.

Lemma send_query_request d m w (P : Router.world -> Prop) :
  wlp (send_request d m) w (fun _ w' => P w') -> wlp (send_query d m) w (fun _ w' => P w').
Proof.
  unfold gwlp, send_request, send_query, mbind, M_bind. destruct (new_responder w) as [[x w1]| | |]; try done.
  destruct (Router_AcceptWithResponder d m x w1) as [[ok w2]| | |]; try done.
  destruct (negb ok); [|done]. by destruct (delete_responder x w2) as [[? ?]| | |].
Qed.

Lemma query_message_made :
  exists m, query_message debug memory = Ok m /\ sendable 24 m /\
    forall x w, Router_AcceptWithResponder debug m x w = Router_AcceptWithResponder false m x w.
Proof.
  destruct memory_ok as [Hm Hal].
  destruct (build_carries debug RequestExpectingResponse memory kRunMessageId 0 _ ∅ FixedBuffer_new run_ok)
    as (msg & m1 & Hrun & Hc); [lia|done|lia|done|done|].
  exists {| message_mem := m1; message_data := msg |}. split; [|split].
  - unfold query_message. change (run_message debug memory (Some tt) ∅) with
      (('(message, buffer) ← with_state FixedBuffer_new (build debug RequestExpectingResponse memory kRunMessageId
          (GetSerializedSize_ {| run_reserved0 := 16; run_reserved1 := 0; query_version := Some tt |}) 0);
        fill debug {| run_reserved0 := 16; run_reserved1 := 0; query_version := Some tt |} message buffer) ∅).
    by rewrite Hrun.
  - pose proof (load_Ok_mapped _ _ _ _ (carries_size _ _ _ _ _ _ Hc)) as M0.
    pose proof (load_Ok_mapped _ _ _ _ (carries_version _ _ _ _ _ _ Hc)) as M4.
    pose proof (load_Ok_mapped _ _ _ _ (carries_name _ _ _ _ _ _ Hc)) as M8.
    pose proof (load_Ok_mapped _ _ _ _ (carries_flags _ _ _ _ _ _ Hc)) as M12.
    pose proof (load_Ok_mapped _ _ _ _ (carries_id _ _ _ _ _ _ Hc ltac:(done))) as M16.
    unfold sendable. cbn [message_mem message_data]. intros a Ha.
    destruct (decide (a < data_ msg + 4)); [apply M0; lia|].
    destruct (decide (a < data_ msg + 8)); [apply M4; lia|].
    destruct (decide (a < data_ msg + 12)); [apply M8; lia|].
    destruct (decide (a < data_ msg + 16)); [apply M12; lia|apply M16; lia].
  - intros x w. apply Router_AcceptWithResponder_release; cbn [message_mem message_data].
    + exact (carries_flags _ _ _ _ _ _ Hc).
    + exact (carries_version _ _ _ _ _ _ Hc).
Qed.

Lemma require_message_made version :
  is_u32 version = true ->
  exists m, require_message debug memory version = Ok m /\
    forall w, Router_Accept debug m w = Router_Accept false m w.
Proof.
  intros Hv. destruct memory_ok as [Hm Hal].
  destruct (build_carries debug Message.Request memory kRunOrClosePipeMessageId 0 _ ∅ FixedBuffer_new (close_ok version Hv))
    as (msg & m1 & Hrun & Hc); [lia|done|lia|done|done|].
  exists {| message_mem := m1; message_data := msg |}. split.
  - unfold require_message. change (run_or_close_pipe_message debug memory (Some {| required_version := version |}) ∅) with
      (('(message, buffer) ← with_state FixedBuffer_new (build debug Message.Request memory kRunOrClosePipeMessageId
          (GetSerializedSize_ {| close_reserved0 := 16; close_reserved1 := 0;
                                 require_version := Some {| required_version := version |} |}) 0);
        fill debug {| close_reserved0 := 16; close_reserved1 := 0;
                      require_version := Some {| required_version := version |} |} message buffer) ∅).
    by rewrite Hrun.
  - intros w. apply Router_Accept_release. exact (carries_flags _ _ _ _ _ _ Hc).
Qed.

(** A router whose pipe is open sends them, whatever the system answers. *)
Lemma wlp_send_query m w r :
  query_message debug memory = Ok m -> inv false w -> RouterFacts.open false w -> router w = Some r ->
  wlp (send_query debug m) w (fun _ w' => stepped [] w w' /\ is_Some (router w') /\ RouterFacts.open false w').
Proof.
  intros Hq Hinv Hopen Hr. destruct query_message_made as (m' & Hm' & Hs & He). rewrite Hm' in Hq. injection Hq as ->.
  assert (Hsame : send_query debug m w = send_query false m w).
  { unfold send_query, mbind, M_bind. destruct (new_responder w) as [[x w1]| | |]; [|done..]. cbn beta iota. by rewrite He. }
  eapply gwlp_ext; [exact Hsame|]. apply (send_query_request false m w (fun w' => stepped [] w w' /\ is_Some (router w') /\ RouterFacts.open false w')).
  apply (wlp_send_request false false ltac:(done) m w r); [done..|].
  intros _ w' (Hinv' & Hopen' & Hk) ((ok & id & x & Ht) & r' & Hr' & Hp). split; [|by rewrite Hr'].
  apply stepped_after; [done|]. apply settled_kept.
  - rewrite Ht. by destruct ok.
  - unfold valid_pipe, pipe_of. by rewrite Hr, Hr', Hp.
Qed.

Lemma wlp_send_require version m w r :
  is_u32 version = true -> require_message debug memory version = Ok m ->
  inv false w -> RouterFacts.open false w -> router w = Some r ->
  wlp (Router_Accept debug m) w (fun _ w' => stepped [] w w' /\ is_Some (router w') /\ RouterFacts.open false w').
Proof.
  intros Hv Hq Hinv Hopen Hr. destruct (require_message_made version Hv) as (m' & Hm' & He). rewrite Hm' in Hq. injection Hq as ->.
  eapply gwlp_ext; [apply He|]. unfold Router_Accept. do 2 wlp_step.
  apply (wlp_Connector_Accept false _ _ r); [apply Hinv|done|done|]. intros ok w' Hw'.
  destruct (wrote_fine false w r w' Hinv Hopen Hr Hw') as (Hinv' & Hopen' & Hk).
  destruct Hw' as (c & l & -> & _ & Hp & _). split; [|done]. apply stepped_after; [done|]. apply settled_kept; [done|].
  unfold valid_pipe, pipe_of. rewrite Hr. cbn. by rewrite Hp.
Qed.
End Send.

(** * A new router *)

Lemma waiting_made handle l : exists w, WaitToReadMore (new_world handle l) = Ok (tt, w) /\
  (Forall (answer_ok false) l -> inv false w) /\ is_Some (router w) /\ pipe_of w = handle /\
  (is_valid handle = true -> RouterFacts.open false w).
Proof.
  eexists. split; [reflexivity|]. split; [|split; [done|split; [done|]]].
  - intros Hl. split; simpl; try done; [by intros t [? ?]|by intros ? ? ?%elem_of_nil|].
    intros r [= <-]. by split; simpl; try done; intros ?%elem_of_nil.
  - intros Hv _ r [= <-] _. cbn. apply negb_true_iff in Hv. by apply Z.eqb_neq.
Qed.

(** * Responses as the router dispatches them

    What the router does to a response is to take its responder, have it accept the
    message, and delete it; a failed wait is what runs the error handler last. *)
Section Dispatch.
Context (debug : bool) (validators_ : list (mem -> Serialization.Message -> outcome ValidationError)).
Context (receiver_Accept : message -> app) (receiver_AcceptWithResponder : message -> thunk -> app)
  (responder_Accept : responder -> message -> app) (call : app -> M Router.world bool).

Lemma HandleIncomingMessage_response m id w r :
  RunValidatorsOnMessage ((fun v => v (message_mem m)) <$> validators_) (message_data m) = Ok NONE ->
  Message_has_flag (message_mem m) (message_data m) kMessageExpectsResponse = Ok false ->
  Message_has_flag (message_mem m) (message_data m) kMessageIsResponse = Ok true ->
  request_id debug (message_mem m) (message_data m) = Ok id ->
  router w = Some r -> error_ (connector_ r) = false -> is_Some (responders_ r !! id) ->
  HandleIncomingMessage debug validators_ receiver_Accept receiver_AcceptWithResponder responder_Accept call m w =
    (x ← take_responder id; ok ← call (responder_Accept x m); delete_responder x;; mret ok) w.
Proof.
  intros Hv Hf1 Hf2 Hid Hr He [x Hx]. unfold HandleIncomingMessage, has_message_flag. rewrite Hv, Hf1, Hf2, Hid.
  assert (Hl : forall A (a : A), lift (Ok a) w = Ok (a, w)) by done.
  assert (Ht : this w = Ok (r, w)) by (unfold this, mbind, M_bind, get; by rewrite Hr).
  rewrite (run_bind _ _ _ _ _ (Hl _ NONE)), bool_decide_eq_false_2 by auto.
  rewrite (run_bind _ _ _ _ _ (Hl _ false)), (run_bind _ _ _ _ _ (Hl _ true)), (run_bind _ _ _ _ _ (Hl _ id)).
  rewrite (run_bind _ _ _ _ _ Ht), Hx.
  assert (Htk : take_responder id w = (set_responder_map (delete id (responders_ r)) (next_request_id_ r);;
      check_responder x;; note (Responded id x);; mret x) w).
  { unfold take_responder. by rewrite (run_bind _ _ _ _ _ Ht), He, Hx. }
  unfold mbind, M_bind in *. rewrite Htk. destruct (set_responder_map _ _ w) as [[? w1]| | |]; try done.
  destruct (check_responder x w1) as [[? w2]| | |]; try done.
Qed.
End Dispatch.
