(* ===== verification/InterfacesFacts.v ===== *)
(** What holds of the objects, their routers and the handles between any two calls of a
    program that uses interface pointers, requests and bindings. *)
From stdpp Require Import base numbers list option gmap sets.
From Stdlib Require Import ZArith Lia.
From S2P Require Import Prelude Result CMem Buffer Descriptor Validate Router RouterFacts.
From S2P Require Import Message Serialization HandlesFacts ControlMessages Interfaces InterfacesRouters.
From Stdlib Require Import Permutation.
From S2P Require Handles.

(** * The invariant *)

Definition routers_in (o : iobject) : list rid :=
  match o with
  | OPtr s => option_list (router_ s)
  | OBinding x => option_list (internal_router_ x)
  | _ => []
  end.
Definition collected {A} (f : iobject -> list A) (os : gmap addr iobject) : list A := map_to_list os ≫= fun x => f x.2.
Definition owned_routers (w : heap) : list rid := collected routers_in (objs w).
Definition pipes (rs : gmap rid Router.world) : list Z := map_to_list rs ≫= fun x => valid_pipe x.2.

Definition is_alive (rw : Router.world) : Prop := is_Some (Router.router rw).

(** Who may see a router: the pointer that has it waits for the versions asked of it; a
    binding that has it is the one that is told of errors. *)
Definition asked_by (w : heap) (r : rid) (a : addr) : Prop :=
  forall x p f, queries w !! (r, x) = Some (p, f) -> p = a.
Definition not_asked (w : heap) (r : rid) : Prop := forall x, queries w !! (r, x) = None.
Definition told (w : heap) (r : rid) (a : option addr) : Prop :=
  forall b, error_handlers w !! r = Some (RunBindingHandler b) -> a = Some b.

Definition object_ok (w : heap) (a : addr) (o : iobject) : Prop :=
  match o with
  | OHandle _ | ORequest _ => True
  | OPtr s =>
      proxy_ s = router_ s /\
      match router_ s with
      | None => waiter_ s = is_valid (handle_ s)
      | Some r =>
          is_valid (handle_ s) = false /\ waiter_ s = false /\ asked_by w r a /\ told w r None /\
          forall rw, routers w !! r = Some rw -> RouterFacts.open false rw
      end
  | OBinding x =>
      (forall r, internal_router_ x = Some r -> not_asked w r /\ told w r (Some a)) /\
      forall s, connection_error_handler_ x = StrongError s ->
        exists y, objs w !! s = Some (OStrong y) /\ binding_ y = a
  | OStrong y => exists x, objs w !! binding_ y = Some (OBinding x) /\ connection_error_handler_ x = StrongError a
  end.

Section Facts.
Context (debug : bool).

(** What holds while code has the handles [l] and the routers [rs] in hand. *)
Record hinv (l : list Z) (rs : list rid) (w : heap) : Prop := {
  hi_owned : owned debug (l ++ held w) [] (proc w);
  hi_scoped : Handles.objects (proc w) = ∅;
  hi_addrs : forall a, is_Some (objs w !! a) -> (a < next_addr w)%nat;
  hi_fresh : forall r, (next_router w <= r)%nat -> routers w !! r = None /\ not_asked w r /\ error_handlers w !! r = None;
  hi_routers : forall r rw, routers w !! r = Some rw -> inv false rw;
  hi_owners : NoDup (rs ++ owned_routers w);
  hi_alive : forall r, r ∈ rs ++ owned_routers w <-> exists rw, routers w !! r = Some rw /\ is_alive rw;
  hi_objects : forall a o, objs w !! a = Some o -> object_ok w a o;
  hi_answers : Forall (Forall (answer_ok false)) (router_answers w);
}.

Lemma held_collected w : Interfaces.held w = collected handles_in (objs w) ++ pipes (routers w).
Proof. done. Qed.

Lemma hinv_perm l l' rs w : hinv l rs w -> l ≡ₚ l' -> hinv l' rs w.
Proof. intros [] Hl. split; try done. eapply owned_perm; [done|by rewrite Hl|done]. Qed.

(** ** Changes to the objects *)

Lemma collected_insert {A} (f : iobject -> list A) os a o :
  os !! a = None -> collected f (<[a := o]> os) ≡ₚ f o ++ collected f os.
Proof. apply (collect_insert f). Qed.
Lemma collected_delete {A} (f : iobject -> list A) os a o :
  os !! a = Some o -> collected f os ≡ₚ f o ++ collected f (delete a os).
Proof. apply (collect_delete f). Qed.
Lemma collected_update {A} (f : iobject -> list A) os a o o' :
  os !! a = Some o -> f o ++ collected f (<[a := o']> os) ≡ₚ f o' ++ collected f os.
Proof. apply (collect_update f). Qed.

Lemma elem_of_collected {A} (f : iobject -> list A) os x :
  x ∈ collected f os <-> exists a o, os !! a = Some o /\ x ∈ f o.
Proof.
  unfold collected. rewrite list_elem_of_bind. split.
  - intros ([a o] & Hx & Ha%elem_of_map_to_list). eauto.
  - intros (a & o & Ha & Hx). exists (a, o). split; [done|by apply elem_of_map_to_list].
Qed.

(** A router has one owner. *)
Lemma one_owner l rs w a o b o' r :
  hinv l rs w -> objs w !! a = Some o -> objs w !! b = Some o' -> r ∈ routers_in o -> r ∈ routers_in o' -> a = b.
Proof.
  intros Hw Ha Hb Hr Hr'. destruct (decide (a = b)) as [|Hne]; [done|].
  pose proof (hi_owners _ _ _ Hw) as Hn. unfold owned_routers in Hn.
  rewrite (collected_delete routers_in _ _ _ Ha) in Hn.
  rewrite (collected_delete routers_in (delete a (objs w)) b o') in Hn by by rewrite lookup_delete_ne.
  apply NoDup_app in Hn as (_ & _ & Hn). apply NoDup_app in Hn as (_ & Hn & _).
  destruct (Hn r Hr). apply elem_of_app. by left.
Qed.
Lemma not_in_hand l rs w a o r : hinv l rs w -> objs w !! a = Some o -> r ∈ routers_in o -> r ∉ rs.
Proof.
  intros Hw Ha Hr Hin. pose proof (hi_owners _ _ _ Hw) as Hn. apply NoDup_app in Hn as (_ & Hn & _).
  apply (Hn r Hin), elem_of_collected. eauto.
Qed.
Lemma owned_alive l rs w a o r :
  hinv l rs w -> objs w !! a = Some o -> r ∈ routers_in o -> exists rw, routers w !! r = Some rw /\ is_alive rw.
Proof. intros Hw Ha Hr. apply (hi_alive _ _ _ Hw), elem_of_app. right. apply elem_of_collected. eauto. Qed.

Lemma hinv_objs l rs l' rs' os n w :
  hinv l rs w -> (forall a, is_Some (os !! a) -> (a < n)%nat) ->
  l' ++ collected handles_in os ≡ₚ l ++ collected handles_in (objs w) ->
  rs' ++ collected routers_in os ≡ₚ rs ++ collected routers_in (objs w) ->
  (forall a o, os !! a = Some o -> object_ok (set_objs os n w) a o) ->
  hinv l' rs' (set_objs os n w).
Proof.
  intros [] Ha Hl Hr Ho. split; try done; unfold owned_routers in *; cbn [objs set_objs] in *.
  - eapply owned_perm; [exact hi_owned0| |done]. rewrite !held_collected. cbn. by rewrite !app_assoc, Hl.
  - by rewrite Hr.
  - intros r. by rewrite Hr.
Qed.

(** An object that others do not refer to. *)
Definition plain (o : iobject) : bool :=
  match o with OHandle _ | ORequest _ | OPtr _ => true | OBinding _ | OStrong _ => false end.

(** What refers to other objects: bindings and strong bindings stay what they are. *)
Definition same_link (o o' : iobject) : Prop :=
  match o, o' with
  | OBinding x, OBinding x' => connection_error_handler_ x' = connection_error_handler_ x
  | OStrong y, OStrong y' => binding_ y' = binding_ y
  | OBinding _, _ | OStrong _, _ => False
  | _, _ => plain o' = true
  end.

Lemma object_ok_links os n w b p :
  object_ok w b p ->
  (forall a o, objs w !! a = Some o -> match o with OBinding _ | OStrong _ => exists o', os !! a = Some o' /\ same_link o o' | _ => True end) ->
  object_ok (set_objs os n w) b p.
Proof.
  intros Hp Hos. destruct p as [x|h|s|x|y]; try done; cbn [object_ok] in *.
  - destruct Hp as [H1 H2]. split; [done|]. intros s Hs. destruct (H2 s Hs) as (y & Hy & <-).
    destruct (Hos _ _ Hy) as (o' & Ho' & Hl). destruct o'; try done. eauto.
  - destruct Hp as (x & Hx & Hh). destruct (Hos _ _ Hx) as (o' & Ho' & Hl). destruct o'; try done. cbn in Hl.
    eexists. split; [exact Ho'|congruence].
Qed.

Lemma same_link_refl o : same_link o o.
Proof. by destruct o. Qed.

(** One object changes. *)
Lemma hinv_update l rs l' rs' w a o o' :
  hinv l rs w -> objs w !! a = Some o ->
  l' ++ handles_in o' ≡ₚ l ++ handles_in o -> rs' ++ routers_in o' ≡ₚ rs ++ routers_in o ->
  same_link o o' -> (object_ok w a o -> object_ok w a o') ->
  hinv l' rs' (set_objs (<[a := o']> (objs w)) (next_addr w) w).
Proof.
  intros Hw Ha Hl Hr Hlink Hok.
  assert (Hos : forall b p, objs w !! b = Some p ->
    match p with OBinding _ | OStrong _ => exists p', <[a := o']> (objs w) !! b = Some p' /\ same_link p p' | _ => True end).
  { intros b p Hb. destruct (decide (a = b)) as [<-|Hne].
    - simplify_eq. destruct o; try done; exists o'; by rewrite lookup_insert_eq.
    - destruct p; try done; eexists; rewrite lookup_insert_ne by done; (split; [exact Hb|apply same_link_refl]). }
  apply (hinv_objs l rs); [done| | | |].
  - intros b. rewrite lookup_insert_is_Some'. intros [<-|Hb]; apply (hi_addrs _ _ _ Hw); [by eexists|done].
  - exact (move_update _ _ _ _ _ _ (collected_update handles_in _ _ _ o' Ha) Hl).
  - exact (move_update _ _ _ _ _ _ (collected_update routers_in _ _ _ o' Ha) Hr).
  - intros b p [[<- <-]|[Hne Hb]]%lookup_insert_Some; (apply object_ok_links; [|exact Hos]).
    + by apply Hok, (hi_objects _ _ _ Hw).
    + by apply (hi_objects _ _ _ Hw).
Qed.

Lemma hinv_new l rs w o :
  hinv (handles_in o ++ l) (routers_in o ++ rs) w -> plain o = true \/ (exists x, o = OBinding x) ->
  object_ok w (next_addr w) o ->
  hinv l rs (set_objs (<[next_addr w := o]> (objs w)) (S (next_addr w)) w).
Proof.
  intros Hw Hp Hok. assert (Hn : objs w !! next_addr w = None).
  { apply eq_None_not_Some. intros H%(hi_addrs _ _ _ Hw). lia. }
  assert (Hos : forall b p, objs w !! b = Some p ->
    match p with OBinding _ | OStrong _ => exists p', <[next_addr w := o]> (objs w) !! b = Some p' /\ same_link p p' | _ => True end).
  { intros b p Hb. assert (Hne : next_addr w <> b) by congruence.
    destruct p; try done; eexists; rewrite lookup_insert_ne by done; (split; [exact Hb|apply same_link_refl]). }
  eapply hinv_objs; [exact Hw| | | |].
  - intros b. rewrite lookup_insert_is_Some'. intros [<-|Hb%(hi_addrs _ _ _ Hw)]; lia.
  - rewrite collected_insert by done. rewrite <- app_assoc. apply Permutation_app_swap_app.
  - rewrite collected_insert by done. rewrite <- app_assoc. apply Permutation_app_swap_app.
  - intros b p [[<- <-]|[Hne Hb]]%lookup_insert_Some; (apply object_ok_links; [|exact Hos]); [done|].
    by apply (hi_objects _ _ _ Hw).
Qed.

(** An object that others do not refer to goes, and leaves what it has in hand. *)
Lemma hinv_delete l rs w a o :
  hinv l rs w -> objs w !! a = Some o -> 
  match o with OBinding x => forall s, connection_error_handler_ x <> StrongError s | OStrong _ => False | _ => True end ->
  hinv (handles_in o ++ l) (routers_in o ++ rs) (set_objs (delete a (objs w)) (next_addr w) w).
Proof.
  intros Hw Ha Hp. apply (hinv_objs l rs); [done| | | |].
  - intros b [_ Hb]%lookup_delete_is_Some. by apply (hi_addrs _ _ _ Hw).
  - rewrite (collected_delete handles_in _ _ _ Ha). rewrite <- app_assoc. apply Permutation_app_swap_app.
  - rewrite (collected_delete routers_in _ _ _ Ha). rewrite <- app_assoc. apply Permutation_app_swap_app.
  - intros b p [Hne Hb]%lookup_delete_Some. pose proof (hi_objects _ _ _ Hw _ _ Hb) as Hok.
    destruct p as [x|h|s|x|y]; try done; cbn [object_ok set_objs objs] in *.
    + destruct Hok as [H1 H2]. split; [done|]. intros s Hs. destruct (H2 s Hs) as (y & Hy & Hb').
      exists y. split; [|done]. apply lookup_delete_Some. split; [|done]. intros <-. by simplify_eq.
    + destruct Hok as (x & Hx & Hh). exists x. split; [|done]. apply lookup_delete_Some. split; [|done].
      intros ->. simplify_eq. by apply (Hp b).
Qed.
End Facts.
