(* ===== verification/InterfacesSteps.v ===== *)
(** The steps of interface pointers and bindings keep the invariant: operations on a
    router, on the handles of the process and on the objects. *)
From stdpp Require Import base numbers list option gmap sets.
From Stdlib Require Import ZArith Lia.
From S2P Require Import Prelude Result CMem Buffer Descriptor Validate Router RouterFacts.
From S2P Require Import Message Serialization HandlesFacts ControlMessages Interfaces InterfacesRouters InterfacesFacts.
From Stdlib Require Import Permutation.
From S2P Require Handles.

(** What a call leaves of the routers: each is still known, and the responders that it
    does not own stay. *)
Definition hkept (w w' : heap) : Prop :=
  forall r rw, routers w !! r = Some rw ->
    exists rw', routers w' !! r = Some rw' /\ forall x, RouterFacts.held rw x -> RouterFacts.held rw' x.

#[export] Instance hkept_reflexive : Reflexive hkept.
Proof. intros w r rw Hr. eauto. Qed.
#[export] Instance hkept_transitive : Transitive hkept.
Proof.
  intros w w1 w2 H1 H2 r rw Hr. destruct (H1 r rw Hr) as (rw1 & Hr1 & Hk1). destruct (H2 r rw1 Hr1) as (rw2 & Hr2 & Hk2).
  eauto.
Qed.
Lemma hkept_same w w' : routers w' = routers w -> hkept w w'.
Proof. intros Hr r rw. rewrite <- Hr. eauto. Qed.

(** Only the handles of the process and the routers change. *)
Definition elsewhere (w w' : heap) : Prop := exists p m, w' = set_proc p (set_routers m w).
#[export] Instance elsewhere_reflexive : Reflexive elsewhere.
Proof. intros w. exists (proc w), (routers w). by destruct w. Qed.
#[export] Instance elsewhere_transitive : Transitive elsewhere.
Proof. intros w w1 w2 (p & m & ->) (p' & m' & ->). by exists p', m'. Qed.

Lemma set_objs_same w : set_objs (objs w) (next_addr w) w = w.
Proof. by destruct w. Qed.

(** What becomes of a router, of those in hand before and after. *)
Inductive fate (r : rid) (rw rw' : Router.world) : list rid -> list rid -> Prop :=
  | fate_stays rs :
      (is_alive rw' <-> is_alive rw) -> (RouterFacts.open false rw -> RouterFacts.open false rw') -> fate r rw rw' rs rs
  | fate_in_hand rs : r ∈ rs -> is_alive rw' -> is_alive rw -> fate r rw rw' rs rs
  | fate_ends rs : ~ is_alive rw' -> fate r rw rw' (r :: rs) rs.

Section Steps.
Context (debug : bool).
Abbreviation hinv := (hinv debug).

(** * Routers *)

Lemma pipes_update rs r rw rw' given :
  rs !! r = Some rw -> valid_pipe rw = given ++ valid_pipe rw' ->
  pipes rs ≡ₚ given ++ pipes (<[r := rw']> rs).
Proof.
  intros Hr Hp. pose proof (collect_update valid_pipe rs r rw rw' Hr) as Hu. rewrite Hp in Hu. unfold pipes.
  apply (Permutation_app_inv_l (valid_pipe rw')). symmetry. rewrite Permutation_app_swap_app. rewrite <- Hu.
  by rewrite <- app_assoc.
Qed.

Lemma hinv_router l rs rs' w r rw rw' given :
  hinv l rs w -> routers w !! r = Some rw -> inv false rw' ->
  valid_pipe rw = given ++ valid_pipe rw' -> fate r rw rw' rs rs' ->
  hinv (given ++ l) rs' (set_routers (<[r := rw']> (routers w)) w).
Proof.
  intros Hw Hr Hinv Hp Hf.
  assert (Halive : forall r', r' ∈ rs' ++ owned_routers w <-> exists rw1, <[r := rw']> (routers w) !! r' = Some rw1 /\ is_alive rw1).
  { intros r'. pose proof (hi_alive _ _ _ _ Hw r') as Ha. pose proof (hi_owners _ _ _ _ Hw) as Hn.
    destruct (decide (r = r')) as [<-|Hne].
    - rewrite lookup_insert_eq. rewrite Hr in Ha. destruct Hf as [rs Hiff Ho|rs Hin Hal Hal'|rs Hd].
      + rewrite Ha. split; intros (rw1 & [= <-] & Hx); [exists rw'|exists rw]; split; tauto.
      + rewrite Ha. split; intros (rw1 & [= <-] & Hx); eauto.
      + cbn in Hn. apply NoDup_cons in Hn as [Hn _]. split; [done|]. by intros (rw1 & [= <-] & Hx).
    - rewrite lookup_insert_ne by done. rewrite <- Ha. destruct Hf; [done|done|]. cbn. rewrite elem_of_cons. split; [by right|].
      by intros [->|?]. }
  assert (Hopen : forall a s rw1, objs w !! a = Some (OPtr s) -> router_ s = Some r ->
    <[r := rw']> (routers w) !! r = Some rw1 -> (forall rw0, routers w !! r = Some rw0 -> RouterFacts.open false rw0) ->
    RouterFacts.open false rw1).
  { intros a s rw1 Ha Hs. rewrite lookup_insert_eq. intros [= <-] Ho.
    assert (Hin : r ∉ rs) by (apply (not_in_hand debug l rs w a (OPtr s)); [done..|cbn; rewrite Hs; by left]).
    destruct Hf; [by auto|done|]. by destruct Hin; left. }
  pose proof Hw as []. split; try done; cbn [routers set_routers proc objs next_addr next_router].
  - eapply owned_perm; [exact hi_owned| |done]. rewrite !held_collected. cbn [objs set_routers routers].
    rewrite (pipes_update _ _ _ _ _ Hr Hp). rewrite <- !app_assoc.
    rewrite (Permutation_app_swap_app _ given). rewrite (Permutation_app_swap_app l given). done.
  - intros r' Hr'. destruct (hi_fresh r' Hr') as (H1 & H2 & H3). split; [|done]. apply lookup_insert_None.
    split; [done|]. intros ->. congruence.
  - intros r' rw1 [[<- <-]|[_ H]]%lookup_insert_Some; [done|by eapply hi_routers].
  - cbn. destruct Hf; [done|done|]. by apply NoDup_cons in hi_owners as [_ ?].
  - intros a o Ha. specialize (hi_objects a o Ha). destruct o as [x|h|s|x|y]; try done. cbn [object_ok] in *.
    destruct hi_objects as [Hpr Hs]. split; [done|]. destruct (router_ s) as [r'|] eqn:Hrs; [|done].
    destruct Hs as (? & ? & ? & ? & Ho). repeat (split; [done|]). cbn. intros rw1 Hr1.
    destruct (decide (r = r')) as [<-|Hne]; [by eapply Hopen|]. rewrite lookup_insert_ne in Hr1 by done. by apply Ho.
Qed.

(** * Handles *)

Lemma hinv_proc l l' rs w p :
  hinv l rs w -> owned debug (l' ++ held w) [] p -> Handles.objects p = ∅ -> hinv l' rs (set_proc p w).
Proof. intros [] Hp Ho. by split. Qed.

Lemma set_objects_scoped p : Handles.objects p = ∅ -> Handles.set_objects ∅ p = p.
Proof. destruct p. cbn. by intros ->. Qed.

Lemma gwlp_on_process {A} (c : M Handles.process A) w (Q : A -> heap -> Prop) :
  wlp c (proc w) (fun a p => Q a (set_proc p w)) -> wlp (on_process c) w Q.
Proof. unfold gwlp, on_process, mbind, outcome_bind. by destruct (c (proc w)) as [[a p]| | |]. Qed.

(** A handle in hand is closed, whatever the objects are to have. *)
Lemma wlp_close_member h os n l rs w (Q : unit -> heap -> Prop) :
  hinv (List.filter is_valid [h] ++ l) rs (set_objs os n w) ->
  (forall w', hinv l rs (set_objs os n w') -> elsewhere w w' -> routers w' = routers w -> Q tt w') ->
  wlp (close_member debug h) w Q.
Proof.
  intros Hw HQ. unfold close_member. cbn in Hw. destruct (is_valid h) eqn:Hv; cbn [negb].
  - wlp_step. apply gwlp_on_process. pose proof (hi_owned _ _ _ _ Hw) as Ho. cbn in Ho.
    pose proof (hi_scoped _ _ _ _ Hw) as He. cbn in He.
    eapply (wlp_MojoClose debug _ _ ∅); [rewrite set_objects_scoped by done; exact Ho|].
    intros p Hp Hop. rewrite He in Hop. rewrite set_objects_scoped in Hp by done.
    assert (Hq : Q tt (set_proc p w)).
    { apply HQ; [|by exists p, (routers w); destruct w|done]. by eapply (hinv_proc _ _ _ (set_objs os n w)). }
    unfold Interfaces.c_assert, MOJO_DCHECK. by destruct debug.
  - wlp_step. apply HQ; [done|reflexivity|done].
Qed.

(** ** A call of a router *)

Lemma wlp_on_router {A} (c : M Router.world A) r rw (P : A -> Router.world -> Prop) given os n l rs rs' w (Q : A -> heap -> Prop) :
  hinv l rs (set_objs os n w) -> routers w !! r = Some rw -> wlp c rw P ->
  (forall a rw', P a rw' -> inv false rw' /\ settled rw rw' (given a) /\ fate r rw rw' rs rs') ->
  (forall a rw' w', P a rw' -> hinv (given a ++ l) rs' (set_objs os n w') -> elsewhere w w' ->
     routers w' = <[r := rw']> (routers w) -> Q a w') ->
  wlp (on_router debug r c) w Q.
Proof.
  intros Hw Hr Hc Hst HQ. unfold on_router. wlp_step. wlp_step. rewrite Hr. wlp_step.
  unfold gwlp in Hc |- *. unfold lift. destruct (c rw) as [[a rw']| | |]; try done.
  fold (gwlp false ((put (set_routers (<[r:=rw']> (routers w)) w);;
    (if (pipes_closed (trace rw) <? pipes_closed (trace rw'))%nat then close_member debug (pipe_of rw) else mret ());;
    mret a)) w Q).
  destruct (Hst a rw' Hc) as (Hinv & Hs & Hf). specialize (HQ a rw').
  assert (Hel : elsewhere w (set_routers (<[r := rw']> (routers w)) w)) by (by exists (proc w), (<[r := rw']> (routers w)); destruct w).
  wlp_step. wlp_step. wlp_step.
  set (w1 := set_routers _ w) in *. revert HQ. destruct Hs as [given' Hpc Hv|Hpc Hv Hn]; intros HQ.
  - rewrite Hpc, Nat.ltb_irrefl. do 2 wlp_step. apply HQ; [done| |done|done].
    exact (hinv_router l rs rs' (set_objs os n w) r rw rw' given' Hw Hr Hinv Hv Hf).
  - rewrite (proj2 (Nat.ltb_lt _ _) Hpc).
    pose proof (hinv_router l rs rs' (set_objs os n w) r rw rw' [pipe_of rw] Hw Hr Hinv) as H1.
    rewrite (valid_pipe_some _ Hv), Hn in H1. specialize (H1 eq_refl Hf).
    eapply (wlp_close_member (pipe_of rw) os n); [|intros w2 H2 He2 Hr2; wlp_step; apply HQ; [done|exact H2| |by rewrite Hr2]].
    + cbn. rewrite Hv. exact H1.
    + by transitivity w1.
Qed.

Lemma hkept_router w w' r rw rw' :
  routers w !! r = Some rw -> routers w' = <[r := rw']> (routers w) ->
  (forall x, RouterFacts.held rw x -> RouterFacts.held rw' x) -> hkept w w'.
Proof.
  intros Hr Hr' Hh r' rw1 H1. rewrite Hr'. destruct (decide (r = r')) as [<-|Hne].
  - rewrite lookup_insert_eq. simplify_eq. eauto.
  - rewrite lookup_insert_ne by done. eauto.
Qed.

(** The router in hand is deleted. *)
Lemma wlp_delete_router r os n l rs w (Q : unit -> heap -> Prop) :
  hinv l (r :: rs) (set_objs os n w) ->
  (forall w', hinv l rs (set_objs os n w') -> elsewhere w w' -> hkept w w' -> Q tt w') -> wlp (delete_router debug r) w Q.
Proof.
  intros Hw HQ. unfold delete_router.
  assert (Hal : exists rw, routers w !! r = Some rw /\ is_alive rw) by (apply (hi_alive _ _ _ _ Hw r); by left).
  destruct Hal as (rw & Hr & [ro Hro]). pose proof (hi_routers _ _ _ _ Hw r rw Hr) as Hinv.
  eapply (wlp_on_router _ r rw _ (fun _ => []) os n l (r :: rs) rs); [done|done|exact (wlp_destroy rw ro Hinv Hro)| |].
  - intros _ rw' [[] Hd]. split; [done|]. split; [done|]. apply fate_ends. unfold is_alive. rewrite Hd. by intros [].
  - intros [] rw' w' [[] _] H1 H2 H3. apply HQ; [done..|]. by eapply hkept_router.
Qed.
Lemma wlp_delete_routers ro os n l rs w (Q : unit -> heap -> Prop) :
  hinv l (option_list ro ++ rs) (set_objs os n w) ->
  (forall w', hinv l rs (set_objs os n w') -> elsewhere w w' -> hkept w w' -> Q tt w') ->
  wlp (match ro with Some r => delete_router debug r | None => mret tt end) w Q.
Proof.
  intros Hw HQ. destruct ro as [r|]; [exact (wlp_delete_router r os n l rs w Q Hw HQ)|]. wlp_step. apply HQ; [done|reflexivity..].
Qed.
End Steps.
