(* ===== verification/InterfacesOps.v ===== *)
(** Every operation of interface handles, requests and pointers keeps the invariant. *)
From stdpp Require Import base numbers list option gmap sets.
From Stdlib Require Import ZArith Lia.
From S2P Require Import Prelude Result CMem Buffer Descriptor Validate Router RouterFacts.
From S2P Require Import Message Serialization HandlesFacts ControlMessages ControlMessagesFacts.
From S2P Require Import Interfaces InterfacesRouters InterfacesFacts InterfacesSteps.
From Stdlib Require Import Permutation.
From S2P Require Handles.

(** ** What stays *)

Lemma elsewhere_same w w' : elsewhere w w' ->
  objs w' = objs w /\ next_addr w' = next_addr w /\ queries w' = queries w /\ error_handlers w' = error_handlers w.
Proof. by intros (p & m & ->). Qed.

(** Objects stay what they are. *)
Definition same_kind (o o' : iobject) : Prop :=
  match o, o' with
  | OHandle _, OHandle _ | ORequest _, ORequest _ | OPtr _, OPtr _ | OBinding _, OBinding _ | OStrong _, OStrong _ => True
  | _, _ => False
  end.
Definition kinds (w w' : heap) : Prop :=
  forall a o, objs w !! a = Some o -> exists o', objs w' !! a = Some o' /\ same_kind o o'.
#[export] Instance kinds_reflexive : Reflexive kinds.
Proof. intros w a o Ha. exists o. split; [done|by destruct o]. Qed.
#[export] Instance kinds_transitive : Transitive kinds.
Proof.
  intros w w1 w2 H1 H2 a o Ha. destruct (H1 a o Ha) as (o1 & Ha1 & K1). destruct (H2 a o1 Ha1) as (o2 & Ha2 & K2).
  exists o2. split; [done|]. by destruct o, o1, o2.
Qed.
Lemma kinds_same w w' : objs w' = objs w -> kinds w w'.
Proof. intros H a o. rewrite <- H. intros Ha. exists o. split; [done|by destruct o]. Qed.
Lemma kinds_update w w' a o o' : objs w !! a = Some o -> same_kind o o' -> objs w' = <[a := o']> (objs w) -> kinds w w'.
Proof.
  intros Ha Hk Ho b p Hb. rewrite Ho. destruct (decide (a = b)) as [<-|Hne].
  - rewrite lookup_insert_eq. simplify_eq. eauto.
  - rewrite lookup_insert_ne by done. exists p. split; [done|by destruct p].
Qed.
Lemma kinds_new w w' a o : objs w !! a = None -> objs w' = <[a := o]> (objs w) -> kinds w w'.
Proof.
  intros Ha Ho b p Hb. rewrite Ho. rewrite lookup_insert_ne by congruence. exists p. split; [done|by destruct p].
Qed.

(** ** Access to objects *)

Lemma wlp_iobject_at w a o (Q : iobject -> heap -> Prop) : objs w !! a = Some o -> Q o w -> wlp (object_at a) w Q.
Proof. intros Ha HQ. unfold object_at. do 2 wlp_step. by rewrite Ha. Qed.
Lemma wlp_set_object w a o o' (Q : unit -> heap -> Prop) :
  objs w !! a = Some o -> Q tt (set_objs (<[a := o']> (objs w)) (next_addr w) w) -> wlp (set_object a o') w Q.
Proof. intros Ha HQ. unfold set_object. wlp_step. eapply wlp_iobject_at; [done|]. by wlp_step. Qed.
Lemma wlp_new_object w o (Q : addr -> heap -> Prop) :
  Q (next_addr w) (set_objs (<[next_addr w := o]> (objs w)) (S (next_addr w)) w) -> wlp (new_object o) w Q.
Proof. intros HQ. unfold new_object. do 2 wlp_step. do 2 wlp_step. by wlp_step. Qed.
Lemma wlp_delete_object w a o (Q : unit -> heap -> Prop) :
  objs w !! a = Some o -> Q tt (set_objs (delete a (objs w)) (next_addr w) w) -> wlp (delete_object a) w Q.
Proof. intros Ha HQ. unfold delete_object. wlp_step. eapply wlp_iobject_at; [done|]. by wlp_step. Qed.
Lemma wlp_get_ihandle w a x (Q : InterfaceHandle -> heap -> Prop) :
  objs w !! a = Some (OHandle x) -> Q x w -> wlp (get_handle a) w Q.
Proof. intros Ha HQ. unfold get_handle. wlp_step. by eapply wlp_iobject_at. Qed.
Lemma wlp_get_request w a x (Q : Z -> heap -> Prop) :
  objs w !! a = Some (ORequest x) -> Q x w -> wlp (get_request a) w Q.
Proof. intros Ha HQ. unfold get_request. wlp_step. by eapply wlp_iobject_at. Qed.
Lemma wlp_get_ptr w a x (Q : InterfacePtrState -> heap -> Prop) :
  objs w !! a = Some (OPtr x) -> Q x w -> wlp (get_ptr a) w Q.
Proof. intros Ha HQ. unfold get_ptr. wlp_step. by eapply wlp_iobject_at. Qed.
Lemma wlp_get_binding w a x (Q : Binding -> heap -> Prop) :
  objs w !! a = Some (OBinding x) -> Q x w -> wlp (get_binding a) w Q.
Proof. intros Ha HQ. unfold get_binding. wlp_step. by eapply wlp_iobject_at. Qed.
Lemma wlp_get_strong w a x (Q : StrongBinding -> heap -> Prop) :
  objs w !! a = Some (OStrong x) -> Q x w -> wlp (get_strong a) w Q.
Proof. intros Ha HQ. unfold get_strong. wlp_step. by eapply wlp_iobject_at. Qed.

Lemma wlp_assertion debug b (w : heap) (Q : unit -> heap -> Prop) : b = true -> Q tt w -> wlp (c_assert debug b) w Q.
Proof. intros -> HQ. unfold c_assert, MOJO_DCHECK. by destruct debug. Qed.

Section Operations.
Context (debug : bool).
Abbreviation hinv := (hinv debug).

(** What holds after an operation. *)
Definition step_to (l : list Z) (rs : list rid) (w w' : heap) : Prop := hinv l rs w' /\ hkept w w' /\ kinds w w'.

Lemma step_to_trans l rs l' rs' w w1 w2 : step_to l rs w w1 -> step_to l' rs' w1 w2 -> step_to l' rs' w w2.
Proof. intros (_ & ? & ?) (? & ? & ?). split; [done|]. split; [by transitivity w1|by transitivity w1]. Qed.

Lemma fresh_addr l rs w : hinv l rs w -> objs w !! next_addr w = None.
Proof. intros Hw. apply eq_None_not_Some. intros H%(hi_addrs _ _ _ _ Hw). lia. Qed.

(** An object that is not referred to changes, or a new one is made. *)
Lemma step_update l rs l' rs' w a o o' :
  hinv l rs w -> objs w !! a = Some o ->
  l' ++ handles_in o' ≡ₚ l ++ handles_in o -> rs' ++ routers_in o' ≡ₚ rs ++ routers_in o ->
  same_link o o' -> same_kind o o' -> (object_ok w a o -> object_ok w a o') ->
  step_to l' rs' w (set_objs (<[a := o']> (objs w)) (next_addr w) w).
Proof.
  intros Hw Ha Hl Hr Hlink Hk Hok. split; [by eapply hinv_update|]. split; [by apply hkept_same|].
  by eapply kinds_update.
Qed.

Lemma step_new l rs w o :
  hinv (handles_in o ++ l) (routers_in o ++ rs) w -> plain o = true \/ (exists x, o = OBinding x) ->
  object_ok w (next_addr w) o ->
  step_to l rs w (set_objs (<[next_addr w := o]> (objs w)) (S (next_addr w)) w).
Proof.
  intros Hw Hp Hok. split; [by apply hinv_new|]. split; [by apply hkept_same|].
  eapply kinds_new; [by eapply fresh_addr|done].
Qed.

(** Permutations of what is in hand. *)
Lemma hand_swap {A} (l a b : list A) : (a ++ l) ++ b ≡ₚ (b ++ l) ++ a.
Proof. rewrite <- !app_assoc, (Permutation_app_comm l b), (Permutation_app_comm l a). apply Permutation_app_swap_app. Qed.
Lemma hand_take {A} (l a : list A) : (a ++ l) ++ [] ≡ₚ l ++ a.
Proof. rewrite app_nil_r. apply Permutation_app_comm. Qed.

(** * Interface handles *)

Lemma InterfaceHandle_new_ok h v l rs w :
  hinv (List.filter is_valid [h] ++ l) rs w -> wlp (InterfaceHandle_new h v) w (fun _ w' => step_to l rs w w').
Proof. intros Hw. apply wlp_new_object. apply step_new; [done|by left|done]. Qed.

Lemma InterfaceHandle_take_ok a x l rs w :
  hinv l rs w -> objs w !! a = Some (OHandle x) ->
  wlp (InterfaceHandle_take a) w (fun y w' => y = x /\ step_to (List.filter is_valid [ih_handle_ x] ++ l) rs w w').
Proof.
  intros Hw Ha. unfold InterfaceHandle_take. wlp_step. eapply wlp_get_ihandle; [done|]. wlp_step.
  eapply wlp_set_object; [done|]. wlp_step. split; [done|].
  eapply step_update; [done|done|apply hand_take|done..].
Qed.

Lemma InterfaceHandle_move_ok a x l rs w :
  hinv l rs w -> objs w !! a = Some (OHandle x) -> wlp (InterfaceHandle_move a) w (fun _ w' => step_to l rs w w').
Proof.
  intros Hw Ha. unfold InterfaceHandle_move. wlp_step. eapply wlp_mono; [by eapply InterfaceHandle_take_ok|].
  intros y w1 [-> Hs]. apply wlp_new_object. eapply step_to_trans; [done|]. apply step_new; [apply Hs|by left|done].
Qed.

(** A member that is closed, and an object that then has another value. *)
Lemma wlp_replace a o o' h l rs w (Q : unit -> heap -> Prop) :
  hinv (handles_in o' ++ l) rs w -> objs w !! a = Some o -> handles_in o = List.filter is_valid [h] ->
  routers_in o = [] -> routers_in o' = [] -> same_link o o' -> same_kind o o' -> (forall w, object_ok w a o') ->
  (forall w', step_to l rs w w' -> Q tt w') -> wlp (close_member debug h;; set_object a o') w Q.
Proof.
  intros Hw Ha Hh Hr Hr' Hlink Hk Hok HQ.
  assert (H1 : hinv (List.filter is_valid [h] ++ l) rs (set_objs (<[a := o']> (objs w)) (next_addr w) w)).
  { eapply hinv_update; [exact Hw|done| |by rewrite Hr, Hr'|done|done]. rewrite <- Hh. apply hand_swap. }
  wlp_step. eapply wlp_close_member; [exact H1|]. intros w1 H2 He Hr1. destruct (elsewhere_same _ _ He) as (Ho & Hn & _).
  eapply wlp_set_object; [by rewrite Ho|]. apply HQ. split; [|split].
  - by rewrite Ho, Hn.
  - by apply hkept_same.
  - eapply kinds_update; [done|done|]. cbn. by rewrite Ho.
Qed.

Lemma InterfaceHandle_assign_value_ok a x y l rs w :
  hinv (List.filter is_valid [ih_handle_ y] ++ l) rs w -> objs w !! a = Some (OHandle x) ->
  wlp (InterfaceHandle_assign_value debug a y) w (fun _ w' => step_to l rs w w').
Proof.
  intros Hw Ha. unfold InterfaceHandle_assign_value. wlp_step. eapply wlp_get_ihandle; [done|].
  eapply (wlp_replace a (OHandle x) (OHandle y)); done.
Qed.

Lemma InterfaceHandle_assign_ok a b x y l rs w :
  hinv l rs w -> objs w !! a = Some (OHandle x) -> objs w !! b = Some (OHandle y) ->
  wlp (InterfaceHandle_assign debug a b) w (fun _ w' => step_to l rs w w').
Proof.
  intros Hw Ha Hb. unfold InterfaceHandle_assign. destruct (Nat.eqb_spec a b) as [<-|Hne]; [by wlp_step|].
  wlp_step. eapply wlp_mono; [by eapply InterfaceHandle_take_ok|]. intros z w1 [-> Hs].
  destruct Hs as (H1 & H2 & H3). destruct (H3 a _ Ha) as ([x'| | | |] & Ha1 & Hk); try done.
  eapply wlp_mono; [by eapply InterfaceHandle_assign_value_ok|]. intros [] w2 H4. by eapply step_to_trans.
Qed.

Lemma InterfaceHandle_destructor_ok a x l rs w :
  hinv l rs w -> objs w !! a = Some (OHandle x) ->
  wlp (InterfaceHandle_destructor debug a) w (fun _ w' => hinv l rs w' /\ hkept w w').
Proof.
  intros Hw Ha. unfold InterfaceHandle_destructor. wlp_step. eapply wlp_get_ihandle; [done|]. wlp_step.
  pose proof (hinv_delete debug l rs w a _ Hw Ha Logic.I) as Hd.
  eapply wlp_close_member; [exact Hd|]. intros w1 H1 He Hr. destruct (elsewhere_same _ _ He) as (Ho & Hn & _).
  eapply wlp_delete_object; [by rewrite Ho|]. split; [by rewrite Ho, Hn|]. by apply hkept_same.
Qed.

Lemma PassHandle_ok a x l rs w :
  hinv l rs w -> objs w !! a = Some (OHandle x) ->
  wlp (PassHandle a) w (fun h w' => step_to (List.filter is_valid [h] ++ l) rs w w').
Proof.
  intros Hw Ha. unfold PassHandle. wlp_step. eapply wlp_get_ihandle; [done|]. wlp_step.
  eapply wlp_set_object; [done|]. wlp_step. eapply step_update; [done|done|apply hand_take|done..].
Qed.

Lemma set_version_ok a x v l rs w :
  hinv l rs w -> objs w !! a = Some (OHandle x) -> wlp (set_version a v) w (fun _ w' => step_to l rs w w').
Proof.
  intros Hw Ha. unfold set_version. wlp_step. eapply wlp_get_ihandle; [done|].
  eapply wlp_set_object; [done|]. by eapply step_update.
Qed.

(** * Requests *)

Lemma InterfaceRequest_new_ok h l rs w :
  hinv (List.filter is_valid [h] ++ l) rs w -> wlp (InterfaceRequest_new h) w (fun _ w' => step_to l rs w w').
Proof. intros Hw. apply wlp_new_object. apply step_new; [done|by left|done]. Qed.

Lemma PassMessagePipe_ok a x l rs w :
  hinv l rs w -> objs w !! a = Some (ORequest x) ->
  wlp (PassMessagePipe a) w (fun h w' => step_to (List.filter is_valid [h] ++ l) rs w w' /\
    objs w' = <[a := ORequest MOJO_HANDLE_INVALID]> (objs w)).
Proof.
  intros Hw Ha. unfold PassMessagePipe. wlp_step. eapply wlp_get_request; [done|]. wlp_step.
  eapply wlp_set_object; [done|]. wlp_step. split; [|done]. eapply step_update; [done|done|apply hand_take|done..].
Qed.

Lemma InterfaceRequest_move_ok a x l rs w :
  hinv l rs w -> objs w !! a = Some (ORequest x) -> wlp (InterfaceRequest_move a) w (fun _ w' => step_to l rs w w').
Proof.
  intros Hw Ha. unfold InterfaceRequest_move. wlp_step. eapply wlp_mono; [by eapply PassMessagePipe_ok|].
  intros y w1 [Hs _]. apply wlp_new_object. eapply step_to_trans; [exact Hs|]. apply step_new; [apply Hs|by left|done].
Qed.

Lemma InterfaceRequest_assign_value_ok a x h l rs w :
  hinv (List.filter is_valid [h] ++ l) rs w -> objs w !! a = Some (ORequest x) ->
  wlp (InterfaceRequest_assign_value debug a h) w (fun _ w' => step_to l rs w w').
Proof.
  intros Hw Ha. unfold InterfaceRequest_assign_value. wlp_step. eapply wlp_get_request; [done|].
  eapply (wlp_replace a (ORequest x) (ORequest h)); done.
Qed.

Lemma InterfaceRequest_assign_ok a b x y l rs w :
  hinv l rs w -> objs w !! a = Some (ORequest x) -> objs w !! b = Some (ORequest y) ->
  wlp (InterfaceRequest_assign debug a b) w (fun _ w' => step_to l rs w w').
Proof.
  intros Hw Ha Hb. unfold InterfaceRequest_assign. wlp_step. eapply wlp_mono; [by eapply PassMessagePipe_ok|]. intros z w1 [Hs _].
  destruct Hs as (H1 & H2 & H3). destruct (H3 a _ Ha) as ([|x'| | |] & Ha1 & Hk); try done.
  eapply wlp_mono; [by eapply InterfaceRequest_assign_value_ok|]. intros [] w2 H4. by eapply step_to_trans.
Qed.

Lemma InterfaceRequest_destructor_ok a x l rs w :
  hinv l rs w -> objs w !! a = Some (ORequest x) ->
  wlp (InterfaceRequest_destructor debug a) w (fun _ w' => hinv l rs w' /\ hkept w w').
Proof.
  intros Hw Ha. unfold InterfaceRequest_destructor. wlp_step. eapply wlp_get_request; [done|]. wlp_step.
  pose proof (hinv_delete debug l rs w a _ Hw Ha Logic.I) as Hd.
  eapply wlp_close_member; [exact Hd|]. intros w1 H1 He Hr. destruct (elsewhere_same _ _ He) as (Ho & Hn & _).
  eapply wlp_delete_object; [by rewrite Ho|]. split; [by rewrite Ho, Hn|]. by apply hkept_same.
Qed.

(** ** A message pipe *)

Lemma message_pipe_ok l rs w :
  hinv l rs w ->
  wlp (message_pipe debug) w (fun '(h0, h1) w' =>
    step_to (List.filter is_valid [h0] ++ List.filter is_valid [h1] ++ l) rs w w' /\ elsewhere w w').
Proof.
  intros Hw. unfold message_pipe. apply gwlp_on_process.
  pose proof (hi_owned _ _ _ _ Hw) as Ho. pose proof (hi_scoped _ _ _ _ Hw) as He.
  wlp_step. eapply wlp_mono; [exact (MessagePipe_new_spec debug _ _ _ Ho)|].
  intros [x y] p1 (Hp1 & Hne & _ & _ & hx & hy & Hop1). rewrite He in Hop1. wlp_step.
  eapply wlp_mono; [eapply (release_spec debug); [exact Hp1|rewrite Hop1; by rewrite lookup_insert_ne, lookup_insert_eq]|].
  intros h0 p2 (-> & Hop2 & Hp2). wlp_step.
  eapply wlp_mono; [eapply (release_spec debug); [exact Hp2|rewrite Hop2, Hop1; by rewrite lookup_insert_ne, lookup_insert_eq]|].
  intros h1 p3 (-> & Hop3 & Hp3). wlp_step.
  assert (Hx3 : Handles.objects p3 !! x = Some (Handles.Scoped MOJO_HANDLE_INVALID)).
  { rewrite Hop3, Hop2. by rewrite lookup_insert_ne, lookup_insert_eq. }
  assert (Hy3 : Handles.objects p3 !! y = Some (Handles.Scoped MOJO_HANDLE_INVALID)) by (rewrite Hop3; apply lookup_insert_eq).
  eapply wlp_mono; [by eapply (ScopedHandle_destructor_spec debug)|]. intros _ p4 [Hp4 Hop4]. wlp_step.
  eapply wlp_mono; [eapply (ScopedHandle_destructor_spec debug); [exact Hp4|rewrite Hop4; by rewrite lookup_delete_ne]|].
  intros _ p5 [Hp5 Hop5]. wlp_step.
  split; [|by exists p5, (routers w); destruct w].
  split; [|split; [by apply hkept_same|by apply kinds_same]].
  eapply hinv_proc; [exact Hw| |].
  - eapply owned_perm; [exact Hp5| |done]. change (Handles.handles_in (Handles.Scoped ?h)) with (List.filter is_valid [h]).
    rewrite <- !app_assoc. apply Permutation_app_swap_app.
  - rewrite Hop5, Hop4, Hop3, Hop2, Hop1. apply map_eq. intros z.
    destruct (decide (z = x)) as [->|]; [by rewrite lookup_delete_eq|].
    destruct (decide (z = y)) as [->|]; [by rewrite lookup_delete_ne, lookup_delete_eq|].
    by rewrite !lookup_delete_ne, !lookup_insert_ne.
Qed.
End Operations.
