(* ===== verification/InterfacesPtr.v ===== *)
(** Every operation of interface pointers keeps the invariant. *)
From stdpp Require Import base numbers list option gmap sets.
From Stdlib Require Import ZArith Lia.
From S2P Require Import Prelude Result CMem Buffer Descriptor Validate Router RouterFacts.
From S2P Require Import Message Serialization HandlesFacts ControlMessages ControlMessagesFacts.
From S2P Require Import Interfaces InterfacesRouters InterfacesFacts InterfacesSteps InterfacesOps.
From Stdlib Require Import Permutation.
From S2P Require Handles.
Section Operations.
Context (debug : bool).
Abbreviation hinv := (hinv debug).
Abbreviation step_to := (step_to debug).

(** * New routers, error handlers and questions *)

Lemma wlp_new_router h os n l rs w (Q : rid -> heap -> Prop) :
  hinv (List.filter is_valid [h] ++ l) rs (set_objs os n w) ->
  (forall r w', hinv l (r :: rs) (set_objs os n w') -> objs w' = objs w -> next_addr w' = next_addr w -> hkept w w' ->
     not_asked w' r -> error_handlers w' !! r = None ->
     (is_valid h = true -> forall rw, routers w' !! r = Some rw -> RouterFacts.open false rw) -> Q r w') ->
  wlp (new_router h) w Q.
Proof.
  intros Hw HQ. unfold new_router. wlp_step. wlp_step.
  destruct (waiting_made h (default [] (head (router_answers w)))) as (rw & Hrw & Hinv & Hal & Hp & Hopen).
  rewrite Hrw. wlp_step. apply (wlp_lift _ (tt, rw)); [done|]. wlp_step. wlp_step. wlp_step.
  pose proof Hw as []. destruct (hi_fresh (next_router w)) as (Hf1 & Hf2 & Hf3); [done|]. cbn in Hf1, Hf2, Hf3.
  assert (Hi : inv false rw).
  { apply Hinv. cbn in hi_answers. by destruct (router_answers w); [|inversion hi_answers]. }
  assert (Hnew : next_router w ∉ rs ++ owned_routers (set_objs os n w)).
  { intros Hin. apply hi_alive in Hin as (rw0 & Hin & _). cbn in Hin. congruence. }
  apply HQ; try done.
  - split; try done; cbn [routers proc objs next_addr next_router queries error_handlers router_answers set_objs].
    + eapply owned_perm; [exact hi_owned| |done]. rewrite !held_collected. cbn [objs routers set_objs]. unfold pipes.
      rewrite (collect_insert valid_pipe) by done. unfold valid_pipe at 2. rewrite Hp.
      rewrite <- !app_assoc. rewrite (Permutation_app_swap_app _ l). apply Permutation_app_head.
      apply Permutation_app_swap_app.
    + intros r Hr. destruct (hi_fresh r) as (H1 & H2 & H3); [cbn; lia|]. split; [|done]. cbn in H1.
      apply lookup_insert_None. split; [done|lia].
    + intros r rw1 [[<- <-]|[_ H]]%lookup_insert_Some; [done|by eapply hi_routers].
    + cbn. by apply NoDup_cons.
    + intros r. cbn. rewrite elem_of_cons. destruct (decide (next_router w = r)) as [<-|Hne].
      * rewrite lookup_insert_eq. split; [eauto|by left].
      * rewrite lookup_insert_ne by done. specialize (hi_alive r). cbn in hi_alive. rewrite <- hi_alive.
        split; [by intros [->|?]|by right].
    + intros a o Ha. specialize (hi_objects a o Ha). destruct o as [x|h'|s|x|y]; try done. cbn [object_ok] in *.
      destruct hi_objects as [Hpr Hs]. split; [done|]. destruct (router_ s) as [r|] eqn:Hrs; [|done].
      destruct Hs as (? & ? & ? & ? & Ho). repeat (split; [done|]). cbn in Ho |- *. intros rw1 Hr1.
      apply Ho. rewrite lookup_insert_ne in Hr1; [done|]. intros <-. apply Hnew, elem_of_app. right.
      apply elem_of_collected. exists a, (OPtr s). split; [done|]. cbn. rewrite Hrs. by left.
    + cbn in hi_answers. destruct (router_answers w); [done|]. by inversion hi_answers.
  - intros r rw0 Hr. exists rw0. split; [|done]. cbn. by rewrite lookup_insert_ne by congruence.
  - intros Hv rw1. cbn. rewrite lookup_insert_eq. intros [= <-]. by apply Hopen.
Qed.

(** A router with an owner, or in hand, is known. *)
Lemma alive_known l rs w r : hinv l rs w -> (exists rw, routers w !! r = Some rw /\ is_alive rw) -> (r < next_router w)%nat.
Proof.
  intros Hw (rw & Hr & _). destruct (decide (next_router w <= r)%nat) as [Hle|]; [|lia].
  destruct (hi_fresh _ _ _ _ Hw r Hle) as [H _]. congruence.
Qed.

Lemma hinv_query l rs w r x p f s :
  hinv l rs w -> objs w !! p = Some (OPtr s) -> router_ s = Some r ->
  hinv l rs (set_queries (<[(r, x) := (p, f)]> (queries w)) w).
Proof.
  intros Hw Hp Hr. assert (Hin : r ∈ routers_in (OPtr s)) by (cbn; rewrite Hr; by left).
  pose proof (alive_known _ _ _ _ Hw (owned_alive _ _ _ _ _ _ _ Hw Hp Hin)) as Hlt.
  pose proof Hw as []. split; try done; cbn [routers next_router error_handlers objs set_queries].
  - intros r' Hr'. destruct (hi_fresh r' Hr') as (H1 & H2 & H3). split; [done|]. split; [|done].
    intros y. cbn. rewrite lookup_insert_ne; [done|]. intros [= -> ->]. lia.
  - intros a o Ha. specialize (hi_objects a o Ha). destruct o as [y|h|s'|y|y]; try done; cbn [object_ok] in *.
    + destruct hi_objects as [Hpr Hs]. split; [done|]. destruct (router_ s') as [r'|] eqn:Hrs; [|done].
      destruct Hs as (? & ? & Hask & ? & Ho). repeat (split; [done|]). split; [|done].
      intros y q g. cbn. intros [[Heq Heq']|[_ Hnone]]%lookup_insert_Some; [|by eapply Hask]. simplify_eq.
      eapply (one_owner debug); [exact Hw|exact Hp|exact Ha|done|cbn; rewrite Hrs; by left].
    + destruct hi_objects as [H1 H2]. split; [|done]. intros r' Hr'. destruct (H1 r' Hr') as [Hn Ht]. split; [|done].
      intros z. cbn. rewrite lookup_insert_ne; [done|]. intros [= -> ->].
      assert (a = p); [|by simplify_eq].
      eapply (one_owner debug); [exact Hw|exact Ha|exact Hp|cbn; rewrite Hr'; by left|done].
Qed.

Lemma hinv_handler l rs w r h a o :
  hinv l rs w -> objs w !! a = Some o -> r ∈ routers_in o ->
  match h with UserRouterHandler _ => True | RunBindingHandler b => a = b /\ (exists x, o = OBinding x) end ->
  hinv l rs (set_error_handlers (<[r := h]> (error_handlers w)) w).
Proof.
  intros Hw Ha Hin Hh.
  pose proof (alive_known _ _ _ _ Hw (owned_alive _ _ _ _ _ _ _ Hw Ha Hin)) as Hlt.
  pose proof Hw as []. split; try done; cbn [routers next_router error_handlers objs set_error_handlers].
  - intros r' Hr'. destruct (hi_fresh r' Hr') as (H1 & H2 & H3). split; [done|]. split; [done|].
    rewrite lookup_insert_ne; [done|]. lia.
  - intros b p Hb. specialize (hi_objects b p Hb). destruct p as [y|k|s|y|y]; try done; cbn [object_ok] in *.
    + destruct hi_objects as [Hpr Hs]. split; [done|]. destruct (router_ s) as [r'|] eqn:Hrs; [|done].
      destruct Hs as (? & ? & ? & Ht & Ho). repeat (split; [done|]). split; [|done].
      intros q. cbn. intros [[-> ->]|[_ Hq]]%lookup_insert_Some; [|by apply Ht].
      destruct Hh as (-> & x & ->). assert (b = q); [|by simplify_eq].
      eapply (one_owner debug); [exact Hw|exact Hb|exact Ha|cbn; rewrite Hrs; by left|done].
    + destruct hi_objects as [H1 H2]. split; [|done]. intros r' Hr'. destruct (H1 r' Hr') as [Hn Ht]. split; [done|].
      intros q. cbn. intros [[-> ->]|[_ Hq]]%lookup_insert_Some; [|by apply Ht].
      destruct Hh as (-> & x & ->). f_equal.
      eapply (one_owner debug); [exact Hw|exact Hb|exact Ha|cbn; rewrite Hr'; by left|done].
Qed.

(** * Pointers *)

(** A call of the router that an object has, after which it still has it. *)
Lemma wlp_own_router {A} (c : M Router.world A) a o r l rs w (P : A -> Router.world -> Prop) (Q : A -> heap -> Prop) :
  hinv l rs w -> objs w !! a = Some o -> r ∈ routers_in o ->
  (forall rw ro, routers w !! r = Some rw -> inv false rw -> Router.router rw = Some ro ->
     (match o with OPtr _ => RouterFacts.open false rw | _ => True end) ->
     wlp c rw (fun x rw' => stepped [] rw rw' /\ is_Some (Router.router rw') /\
       (match o with OPtr _ => RouterFacts.open false rw' | _ => RouterFacts.open false rw -> RouterFacts.open false rw' end) /\ P x rw')) ->
  (forall x rw' w', P x rw' -> step_to l rs w w' -> elsewhere w w' -> routers w' = <[r := rw']> (routers w) -> Q x w') ->
  wlp (on_router debug r c) w Q.
Proof.
  intros Hw Ha Hin Hc HQ. destruct (owned_alive _ _ _ _ _ _ _ Hw Ha Hin) as (rw & Hr & ro & Hro).
  pose proof (hi_routers _ _ _ _ Hw r rw Hr) as Hinv.
  assert (Hopen : match o with OPtr _ => RouterFacts.open false rw | _ => True end).
  { pose proof (hi_objects _ _ _ _ Hw a o Ha) as Hok. destruct o as [y|k|s|y|y]; try done. cbn in Hok, Hin.
    destruct Hok as [_ Hs]. destruct (router_ s); [|by apply elem_of_nil in Hin].
    apply list_elem_of_singleton in Hin as ->. by apply Hs. }
  rewrite <- (set_objs_same w) in Hw.
  eapply (wlp_on_router debug c r rw _ (fun _ => []) (objs w) (next_addr w) l rs rs); [exact Hw|done|by eapply Hc| |].
  - intros x rw' (Hs & Hal & Ho & _). split; [apply Hs|]. split; [apply Hs|].
    apply fate_stays; [unfold is_alive; rewrite Hro; split; [eauto|done]|]. by destruct o.
  - intros x rw' w' (Hs & Hal & Ho & HP) H1 H2 H3. destruct (elsewhere_same _ _ H2) as (E1 & E2 & _).
    rewrite <- E1, <- E2, set_objs_same in H1.
    eapply HQ; [done| |done|done]. split; [done|]. split; [|by apply kinds_same].
    eapply hkept_router; [done|done|apply Hs].
Qed.

(** A pointer that is deleted leaves its router and its handle, which go with it. *)
Lemma wlp_state_destructor d s os n l rs w (Q : unit -> heap -> Prop) :
  objs w !! d = Some (OPtr s) ->
  hinv (handles_in (OPtr s) ++ l) (routers_in (OPtr s) ++ rs) (set_objs os n w) ->
  (forall w1, elsewhere w w1 -> hkept w w1 -> hinv l rs (set_objs os n w1) ->
     Q tt (set_objs (delete d (objs w)) (next_addr w) w1)) ->
  wlp (InterfacePtrState_destructor debug d) w Q.
Proof.
  intros Hd Hw HQ. unfold InterfacePtrState_destructor. wlp_step. eapply wlp_get_ptr; [done|]. wlp_step.
  eapply wlp_delete_routers; [exact Hw|]. intros w1 H1 He1 Hk1. wlp_step.
  eapply wlp_close_member; [exact H1|]. intros w2 H2 He2 Hr2.
  assert (He : elsewhere w w2) by by transitivity w1. destruct (elsewhere_same _ _ He) as (E1 & E2 & _).
  eapply wlp_delete_object; [by rewrite E1|]. rewrite E1, E2. apply HQ; [done| |done].
  transitivity w1; [done|by apply hkept_same].
Qed.

Lemma InterfacePtr_new_ok l rs w :
  hinv l rs w -> wlp InterfacePtr_new w (fun p w' => step_to l rs w w' /\ objs w' !! p = Some (OPtr unbound)).
Proof.
  intros Hw. apply wlp_new_object. split; [|apply lookup_insert_eq]. by apply step_new; [|left|].
Qed.

Lemma InterfacePtr_destructor_ok p s l rs w :
  hinv l rs w -> objs w !! p = Some (OPtr s) ->
  wlp (InterfacePtr_destructor debug p) w (fun _ w' => hinv l rs w' /\ hkept w w').
Proof.
  intros Hw Hp. pose proof (hinv_delete debug l rs w p _ Hw Hp Logic.I) as Hd.
  unfold InterfacePtr_destructor. eapply wlp_state_destructor; [done|exact Hd|].
  intros w1 He Hk H1. by split.
Qed.

(** What a pointer had is gone. *)
Lemma wlp_reset p s l rs w (Q : unit -> heap -> Prop) :
  hinv l rs w -> objs w !! p = Some (OPtr s) ->
  (forall w', step_to l rs w w' -> objs w' = <[p := OPtr unbound]> (objs w) -> queries w' = queries w -> Q tt w') ->
  wlp (reset debug p) w Q.
Proof.
  intros Hw Hp HQ. unfold reset. wlp_step. apply wlp_new_object. set (d := next_addr w).
  assert (Hd : objs w !! d = None) by by eapply fresh_addr. assert (Hne : d <> p) by congruence.
  unfold Swap. wlp_step. wlp_step. eapply wlp_get_ptr; [cbn; by rewrite lookup_insert_ne|]. wlp_step.
  eapply wlp_get_ptr; [cbn; by rewrite lookup_insert_eq|]. wlp_step.
  eapply wlp_set_object; [cbn; by rewrite lookup_insert_ne|].
  eapply wlp_set_object; [cbn; rewrite lookup_insert_ne by done; by rewrite lookup_insert_eq|]. cbn [objs set_objs next_addr].
  set (w1 := set_objs _ _ _).
  assert (Hos : objs w1 = <[d := OPtr s]> (<[p := OPtr unbound]> (objs w))).
  { unfold w1. cbn. rewrite (insert_insert_ne _ p d) by done. by rewrite insert_insert_eq. }
  assert (Hu : hinv (handles_in (OPtr s) ++ l) (routers_in (OPtr s) ++ rs) (set_objs (<[p := OPtr unbound]> (objs w)) (next_addr w) w)).
  { eapply hinv_update; [exact Hw|exact Hp|apply hand_take|apply hand_take|done|done]. }
  eapply (wlp_state_destructor d s (<[p := OPtr unbound]> (objs w)) (S d)); [by rewrite Hos, lookup_insert_eq| |].
  - change (set_objs _ (S d) w1) with (set_objs (<[p := OPtr unbound]> (objs w)) (S d) w).
    eapply (hinv_objs debug _ _ _ _ (<[p := OPtr unbound]> (objs w)) (S d)) in Hu; [exact Hu| |done|done|].
    + intros a Ha%(hi_addrs _ _ _ _ Hu). cbn in Ha. unfold d. lia.
    + intros a o Ha. exact (hi_objects _ _ _ _ Hu a o Ha).
  - intros w2 (p2 & m2 & ->) Hk H2. rewrite Hos, delete_insert_id by (rewrite lookup_insert_ne by done; exact Hd).
    apply HQ; [|done|done]. split; [exact H2|]. split; [exact Hk|]. apply (kinds_update w _ p (OPtr s) (OPtr unbound)); done.
Qed.

(** A pointer that is unbound takes over a handle, and starts to wait. *)
Lemma wlp_State_Bind p info l rs w (Q : unit -> heap -> Prop) :
  hinv (List.filter is_valid [ih_handle_ info] ++ l) rs w -> objs w !! p = Some (OPtr unbound) ->
  is_valid (ih_handle_ info) = true ->
  (forall w' s, step_to l rs w w' -> objs w' !! p = Some (OPtr s) -> router_ s = None -> Q tt w') ->
  wlp (State_Bind debug p info) w Q.
Proof.
  intros Hw Hp Hv HQ. unfold State_Bind. wlp_step. eapply wlp_get_ptr; [done|].
  do 5 (wlp_step; apply wlp_assertion; [done|]). wlp_step. apply wlp_assertion; [done|]. cbn [handle_ unbound].
  wlp_step. unfold close_member. change (is_valid MOJO_HANDLE_INVALID) with false. cbn [negb]. wlp_step. eapply wlp_set_object; [done|].
  eapply HQ; [|apply lookup_insert_eq|done].
  eapply step_update; [exact Hw|exact Hp| |done|done|done|].
  - cbn. rewrite Hv. rewrite app_nil_r. cbn. symmetry. apply Permutation_cons_append.
  - intros _. cbn. by rewrite Hv.
Qed.

Lemma wlp_Bind p s info l rs w (Q : unit -> heap -> Prop) :
  hinv (List.filter is_valid [ih_handle_ info] ++ l) rs w -> objs w !! p = Some (OPtr s) ->
  (forall w' t, step_to l rs w w' -> objs w' !! p = Some (OPtr t) -> router_ t = None -> Q tt w') ->
  wlp (Bind debug p info) w Q.
Proof.
  intros Hw Hp HQ. unfold Bind. wlp_step. eapply wlp_reset; [done|done|]. intros w1 H1 Ho1 _.
  assert (Hp1 : objs w1 !! p = Some (OPtr unbound)) by by rewrite Ho1, lookup_insert_eq.
  destruct (is_valid (ih_handle_ info)) eqn:Hv.
  - eapply wlp_State_Bind; [apply H1|done|done|]. intros w2 t H2. apply HQ. by eapply step_to_trans.
  - wlp_step. cbn in H1. rewrite Hv in H1. by eapply HQ.
Qed.
Lemma Bind_ok p s info l rs w :
  hinv (List.filter is_valid [ih_handle_ info] ++ l) rs w -> objs w !! p = Some (OPtr s) ->
  wlp (Bind debug p info) w (fun _ w' => step_to l rs w w').
Proof. intros Hw Hp. by eapply wlp_Bind. Qed.

(** A pointer that is made has a handle at most, and no router. *)
Lemma Create_ok info l rs w :
  hinv (List.filter is_valid [ih_handle_ info] ++ l) rs w ->
  wlp (Create debug info) w (fun p w' => step_to l rs w w' /\ exists s, objs w' !! p = Some (OPtr s) /\ router_ s = None).
Proof.
  intros Hw. unfold Create. wlp_step. eapply wlp_mono; [by apply InterfacePtr_new_ok|]. intros p w1 [H1 Hp]. wlp_step.
  destruct (is_valid (ih_handle_ info)) eqn:Hv.
  - eapply wlp_Bind; [apply H1|done|]. intros w2 t H2 Ht Hr. wlp_step.
    split; [by eapply step_to_trans|by exists t].
  - wlp_step. wlp_step. split; [|by exists unbound]. cbn in H1. by rewrite Hv in H1.
Qed.
End Operations.

(** * Calls through interface pointers, and what takes the pipe elsewhere *)

Section Calls.
Context (debug : bool) (interface_version memory : Z).
Context `{run_laws : GeneratedLaws RunMessageParams good_run wire_run}.
Context `{close_laws : GeneratedLaws RunOrClosePipeMessageParams good_close wire_close}.
Context (memory_ok : 0 < memory < 2 ^ 63 /\ IsAligned memory = true).
Context (run_ok : good_run {| run_reserved0 := 16; run_reserved1 := 0; query_version := Some tt |}).
Context (close_ok : forall version, is_u32 version = true ->
  good_close {| close_reserved0 := 16; close_reserved1 := 0;
                require_version := Some {| required_version := version |} |}).
Abbreviation hinv := (hinv debug).
Abbreviation step_to := (step_to debug).

(** * Calls *)

(** A pointer that is bound has a router afterwards. *)
Definition bound_state (s : InterfacePtrState) : Prop := is_valid (handle_ s) = true \/ is_Some (router_ s).

Lemma wlp_Configure p s l rs w (Q : unit -> heap -> Prop) :
  hinv l rs w -> objs w !! p = Some (OPtr s) ->
  (forall s' w', step_to l rs w w' -> objs w' !! p = Some (OPtr s') -> proxy_ s' = router_ s' ->
     (bound_state s -> is_Some (router_ s')) -> Q tt w') ->
  wlp (ConfigureProxyIfNecessary debug p) w Q.
Proof.
  intros Hw Hp HQ. unfold ConfigureProxyIfNecessary. wlp_step. eapply wlp_get_ptr; [done|].
  pose proof (hi_objects _ _ _ _ Hw p _ Hp) as [Hpr Hs].
  assert (Hself : step_to l rs w w) by done.
  destruct (router_ s) as [r|] eqn:Hr; rewrite Hpr.
  - apply wlp_assertion; [done|]. eapply (HQ s); [done|done|by rewrite Hr|by rewrite Hr].
  - rewrite Hs. destruct (is_valid (handle_ s)) eqn:Hv; cbn [negb].
    + wlp_step.
      assert (Hu : hinv (List.filter is_valid [handle_ s] ++ l) rs (set_objs (<[p := OPtr unbound]> (objs w)) (next_addr w) w)).
      { eapply hinv_update; [exact Hw|exact Hp|apply hand_take|cbn; by rewrite Hr|done|done]. }
      eapply wlp_new_router; [exact Hu|]. intros r w1 H1 Ho1 Hn1 Hk1 Hna Heh Hopen.
      eapply wlp_set_object; [by rewrite Ho1|]. set (s' := {| proxy_ := Some r |}).
      apply (HQ s'); [|cbn; by rewrite lookup_insert_eq|done|done].
      assert (H2 : hinv l rs (set_objs (<[p := OPtr s']> (objs w1)) (next_addr w1) w1)).
      { eapply (hinv_update debug l (r :: rs) l rs _ p (OPtr unbound) (OPtr s')) in H1;
          [|cbn; apply lookup_insert_eq|done| |done|].
        - cbn in H1. rewrite insert_insert_eq in H1. by rewrite Ho1, Hn1.
        - cbn. rewrite app_nil_r. symmetry. apply Permutation_cons_append.
        - intros _. split; [done|]. cbn. split; [done|]. split; [done|].
          split; [intros x q f Hq; by rewrite Hna in Hq|]. split; [intros b Hb; cbn in Hb; by rewrite Heh in Hb|]. by apply Hopen. }
      split; [exact H2|]. split; [exact Hk1|].
      apply (kinds_update w _ p (OPtr s) (OPtr s')); [done|done|]. cbn. by rewrite Ho1.
    + apply wlp_assertion; [done|]. eapply (HQ s); [done|done|by rewrite Hr|].
      intros [Hx|Hx]; [congruence|by rewrite Hr in Hx; destruct Hx].
Qed.

Lemma instance_ok p s l rs w :
  hinv l rs w -> objs w !! p = Some (OPtr s) -> wlp (instance debug p) w (fun _ w' => step_to l rs w w').
Proof.
  intros Hw Hp. unfold instance. wlp_step. eapply wlp_Configure; [done|done|]. intros s' w1 H1 Hp1 _ _. wlp_step.
  eapply wlp_get_ptr; [done|]. by wlp_step.
Qed.

Lemma QueryVersion_ok p s f l rs w :
  hinv l rs w -> objs w !! p = Some (OPtr s) -> bound_state s ->
  wlp (QueryVersion debug memory p f) w (fun _ w' => step_to l rs w w').
Proof.
  intros Hw Hp Hb. unfold QueryVersion. wlp_step. eapply wlp_Configure; [done|done|]. intros s1 w1 H1 Hp1 Hpr Hb1.
  wlp_step. eapply wlp_get_ptr; [done|]. destruct (Hb1 Hb) as [r Hr]. rewrite Hpr, Hr. unfold through.
  destruct (query_message_made debug memory memory_ok run_ok) as (m & Hm & _).
  wlp_step. apply (wlp_lift _ m); [exact Hm|]. wlp_step.
  assert (Hin : r ∈ routers_in (OPtr s1)) by (cbn; rewrite Hr; by left).
  eapply (wlp_own_router debug _ p (OPtr s1) r l rs w1 (fun _ _ => True)); [apply H1|done|done| |].
  - intros rw ro Hrw Hinv Hro Hopen.
    eapply wlp_mono; [by eapply wlp_send_query|]. intros [ok x] rw' (? & ? & ?). done.
  - intros [ok x] rw' w2 _ H2 He Hr2. destruct ok; [|wlp_step; by eapply step_to_trans].
    wlp_step. destruct (elsewhere_same _ _ He) as (Ho & _).
    eapply step_to_trans; [exact H1|]. eapply step_to_trans; [exact H2|].
    split; [|split; [by apply hkept_same|by apply kinds_same]].
    eapply hinv_query; [apply H2|by rewrite Ho|done].
Qed.

Lemma RequireVersion_ok p s version l rs w :
  hinv l rs w -> objs w !! p = Some (OPtr s) -> bound_state s -> is_u32 version = true ->
  wlp (RequireVersion debug memory p version) w (fun _ w' => step_to l rs w w').
Proof.
  intros Hw Hp Hb Hv. unfold RequireVersion. wlp_step. eapply wlp_Configure; [done|done|]. intros s1 w1 H1 Hp1 Hpr Hb1.
  wlp_step. eapply wlp_get_ptr; [done|]. destruct (_ <=? _); [by wlp_step|]. wlp_step.
  eapply wlp_set_object; [done|]. destruct (Hb1 Hb) as [r Hr]. rewrite Hpr, Hr. unfold through.
  set (s2 := {| proxy_ := Some r |}). set (w2 := set_objs _ _ w1).
  assert (H2 : step_to l rs w1 w2).
  { apply (step_update debug l rs l rs w1 p (OPtr s1) (OPtr s2)); try done; [apply H1|cbn; by rewrite Hr|].
    intros [_ Hok]. by rewrite Hr in Hok. }
  destruct (require_message_made debug memory memory_ok close_ok version Hv) as (m & Hm & _).
  wlp_step. apply (wlp_lift _ m); [exact Hm|]. wlp_step.
  assert (Hp2 : objs w2 !! p = Some (OPtr s2)) by (cbn; apply lookup_insert_eq).
  eapply (wlp_own_router debug _ p (OPtr s2) r l rs w2 (fun _ _ => True)); [apply H2|done|by left| |].
  - intros rw ro Hrw Hinv Hro Hopen.
    eapply wlp_mono; [by eapply wlp_send_require|]. intros ok rw' (? & ? & ?). done.
  - intros ok rw' w3 _ H3 He Hr3. wlp_step. eapply step_to_trans; [exact H1|]. by eapply step_to_trans.
Qed.

(** An error handler for the router that an object has. *)
Lemma wlp_set_handler h a o r l rs w :
  hinv l rs w -> objs w !! a = Some o -> r ∈ routers_in o ->
  match h with UserRouterHandler _ => True | RunBindingHandler b => a = b /\ (exists x, o = OBinding x) end ->
  wlp (set_router_error_handler debug r h) w (fun _ w' => step_to l rs w w' /\ objs w' = objs w).
Proof.
  intros Hw Ha Hin Hh. unfold set_router_error_handler. wlp_step.
  eapply (wlp_own_router debug _ a o r l rs w (fun _ _ => True)); [done..| |].
  - intros rw ro Hrw Hinv Hro Hopen. apply (wlp_this false rw ro); [done|]. split; [by apply stepped_self|].
    split; [by rewrite Hro|]. by destruct o.
  - intros x rw' w1 _ H1 He Hr1. wlp_step. destruct (elsewhere_same _ _ He) as (Ho & _). split; [|exact Ho].
    eapply step_to_trans; [exact H1|]. split; [|split; [by apply hkept_same|by apply kinds_same]]. eapply hinv_handler; [apply H1|by rewrite Ho|done|done].
Qed.

Lemma set_connection_error_handler_ok p s f l rs w :
  hinv l rs w -> objs w !! p = Some (OPtr s) -> bound_state s ->
  wlp (set_connection_error_handler debug p f) w (fun _ w' => step_to l rs w w').
Proof.
  intros Hw Hp Hb. unfold set_connection_error_handler. wlp_step. eapply wlp_Configure; [done|done|].
  intros s1 w1 H1 Hp1 Hpr Hb1. wlp_step. eapply wlp_get_ptr; [done|]. destruct (Hb1 Hb) as [r Hr]. rewrite Hr. wlp_step.
  apply wlp_assertion; [done|]. cbn [through].
  eapply wlp_mono; [eapply (wlp_set_handler _ p _ r); [apply H1|done|cbn; rewrite Hr; by left|done]|].
  intros [] w2 [H2 _]. by eapply step_to_trans.
Qed.

(** * Passing the pipe on *)

(** The state of a pointer that has been put into a temporary, as if it were in hand. *)
Lemma temporary p s l rs w :
  hinv l rs w -> objs w !! p = Some (OPtr s) ->
  let d := next_addr w in
  let os := <[p := OPtr unbound]> (objs w) in
  d <> p /\ objs w !! d = None /\
  forall w1, set_objs (objs w) (S d) w1 = set_objs (objs w) (S d) w ->
    hinv (handles_in (OPtr s) ++ l) (routers_in (OPtr s) ++ rs) (set_objs os (S d) w1).
Proof.
  intros Hw Hp d os. assert (Hd : objs w !! d = None) by by eapply fresh_addr.
  split; [congruence|]. split; [done|]. intros w1 Hw1.
  assert (Hu : hinv (handles_in (OPtr s) ++ l) (routers_in (OPtr s) ++ rs) (set_objs os (next_addr w) w)).
  { eapply hinv_update; [exact Hw|exact Hp|apply hand_take|apply hand_take|done|done]. }
  replace (set_objs os (S d) w1) with (set_objs os (S d) w) by (unfold set_objs in *; congruence).
  apply (hinv_objs debug _ _ (handles_in (OPtr s) ++ l) (routers_in (OPtr s) ++ rs) os (S d)) in Hu; [exact Hu| |done|done|].
  - intros a Ha%(hi_addrs _ _ _ _ Hu). cbn in Ha. unfold d. lia.
  - intros a o Ha. exact (hi_objects _ _ _ _ Hu a o Ha).
Qed.

Lemma PassInterfaceHandle_ok p s l rs w :
  hinv l rs w -> objs w !! p = Some (OPtr s) ->
  wlp (PassInterfaceHandle debug p) w (fun x w' =>
    step_to (List.filter is_valid [ih_handle_ x] ++ l) rs w w').
Proof.
  intros Hw Hp. destruct (temporary p s l rs w Hw Hp) as (Hne & Hd & Hu). set (d := next_addr w) in *.
  set (os := <[p := OPtr unbound]> (objs w)) in *.
  unfold PassInterfaceHandle. wlp_step. apply wlp_new_object. fold d. unfold Swap. wlp_step. wlp_step.
  eapply wlp_get_ptr; [cbn; by rewrite lookup_insert_ne|]. wlp_step.
  eapply wlp_get_ptr; [cbn; by rewrite lookup_insert_eq|]. wlp_step.
  eapply wlp_set_object; [cbn; by rewrite lookup_insert_ne|].
  eapply wlp_set_object; [cbn; rewrite lookup_insert_ne by done; by rewrite lookup_insert_eq|]. cbn [objs set_objs next_addr].
  set (w1 := set_objs _ _ _). specialize (Hu w1 eq_refl).
  assert (Hos : objs w1 = <[d := OPtr s]> os).
  { unfold w1. cbn. rewrite (insert_insert_ne _ p d) by done. by rewrite insert_insert_eq. }
  assert (Hds : objs w1 !! d = Some (OPtr s)) by by rewrite Hos, lookup_insert_eq.
  assert (Hend : forall w2 x s', elsewhere w1 (set_objs (objs w1) (next_addr w1) w2) -> hkept w1 w2 -> objs w2 = <[d := OPtr s']> os ->
    next_addr w2 = S d -> hinv (handles_in (OPtr s') ++ List.filter is_valid [ih_handle_ x] ++ l) (routers_in (OPtr s') ++ rs) (set_objs os (S d) w2) ->
    wlp (InterfacePtrState_destructor debug d;; mret x) w2 (fun y w' => step_to (List.filter is_valid [ih_handle_ y] ++ l) rs w w')).
  { intros w2 x s' He Hk Ho Hn H2. wlp_step.
    eapply (wlp_state_destructor debug d s' os (S d)); [by rewrite Ho, lookup_insert_eq|exact H2|].
    intros w3 He3 Hk3 H3. wlp_step. rewrite Ho, Hn, delete_insert_id by (unfold os; by rewrite lookup_insert_ne).
    split; [exact H3|]. split; [by transitivity w2|].
    apply (kinds_update w _ p (OPtr s) (OPtr unbound)); done. }
  pose proof (hi_objects _ _ _ _ Hw p _ Hp) as [_ Hs].
  unfold State_PassInterfaceHandle. wlp_step. wlp_step. eapply wlp_get_ptr; [exact Hds|].
  destruct (router_ s) as [r|] eqn:Hr.
  - destruct Hs as (Hv & _). cbn in Hu. rewrite Hr, Hv in Hu. cbn in Hu. wlp_step.
    assert (Hal : exists rw, routers w1 !! r = Some rw /\ is_alive rw) by (apply (hi_alive _ _ _ _ Hu r); by left).
    destruct Hal as (rw & Hrw & [ro Hro]). pose proof (hi_routers _ _ _ _ Hu r rw Hrw) as Hinv.
    eapply (wlp_on_router debug _ r rw _ (fun h => List.filter is_valid [h]) os (S d) l (r :: rs) (r :: rs));
      [exact Hu|done|exact (wlp_pass rw ro Hinv Hro)| |].
    + intros h rw' [Hst Hal']. split; [apply Hst|]. split; [apply Hst|]. apply fate_in_hand; [by left|done|].
      unfold is_alive. by rewrite Hro.
    + intros h rw' w2 [Hst _] H2 He Hr2. wlp_step. destruct (elsewhere_same _ _ He) as (E1 & E2 & _).
      apply (Hend w2 _ s); [by rewrite <- E1, <- E2, set_objs_same| |by rewrite E1|by rewrite E2|].
      * eapply hkept_router; [done|done|apply Hst].
      * cbn [handles_in routers_in List.filter ih_handle_]. rewrite Hv, Hr. exact H2.
  - wlp_step. wlp_step. eapply wlp_set_object; [done|]. wlp_step. set (s' := {| proxy_ := _ |}).
    wlp_step. apply (Hend _ _ s'); [|by apply hkept_same| |done|].
    { change (elsewhere w1 (set_objs (objs w1) (next_addr w1) w1)). by rewrite set_objs_same. }
    { change (<[d := OPtr s']> (objs w1) = <[d := OPtr s']> os). by rewrite Hos, insert_insert_eq. }
    cbn [handles_in routers_in ih_handle_ handle_ router_ s' List.filter]. cbn in Hu. rewrite Hr in Hu. exact Hu.
Qed.
End Calls.
