(* ===== verification/InterfacesBinding.v ===== *)
(** Moves of interface pointers, new pipes, and every operation of bindings keep the
    invariant. *)
From stdpp Require Import base numbers list option gmap sets.
From Stdlib Require Import ZArith Lia.
From S2P Require Import Prelude Result CMem Buffer Descriptor Validate Router RouterFacts.
From S2P Require Import Message Serialization HandlesFacts ControlMessages ControlMessagesFacts.
From S2P Require Import Interfaces InterfacesRouters InterfacesFacts InterfacesSteps InterfacesOps InterfacesPtr.
From Stdlib Require Import Permutation.
From S2P Require Handles.

Section Operations.
Context (debug : bool) (interface_version : Z).
Abbreviation hinv := (hinv debug).
Abbreviation step_to := (step_to debug).

(** * Moves *)

(** Nothing waits for a version through a pointer that does not. *)
Lemma not_waiting l rs w q t :
  hinv l rs w -> objs w !! q = Some (OPtr t) -> waits_for_version w q = false ->
  forall r, router_ t = Some r -> not_asked w r.
Proof.
  intros Hw Hq Hf r Hr x. destruct (queries w !! (r, x)) as [[p f]|] eqn:Hx; [|done].
  pose proof (hi_objects _ _ _ _ Hw q _ Hq) as [_ Hok]. rewrite Hr in Hok. destruct Hok as (_ & _ & Hask & _).
  specialize (Hask _ _ _ Hx). subst p.
  destruct (owned_alive debug l rs w q (OPtr t) r) as (rw & Hrw & Hal); [done|done|cbn; rewrite Hr; by left|].
  assert (Ht : waits_for_version w q = true); [|congruence].
  apply existsb_exists. exists ((r, x), (q, f)). split; [by apply list_elem_of_In, elem_of_map_to_list|]. cbn.
  rewrite bool_decide_true by done. unfold alive. rewrite Hrw. by apply bool_decide_eq_true.
Qed.

(** What a pointer has goes to one that is unbound. *)
Lemma wlp_Swap p q t l rs w (Q : unit -> heap -> Prop) :
  hinv l rs w -> objs w !! p = Some (OPtr unbound) -> objs w !! q = Some (OPtr t) ->
  (forall r, router_ t = Some r -> not_asked w r) -> (forall w', step_to l rs w w' -> Q tt w') -> wlp (Swap p q) w Q.
Proof.
  intros Hw Hp Hq Hna HQ. unfold Swap. wlp_step. eapply wlp_get_ptr; [done|]. wlp_step. eapply wlp_get_ptr; [done|]. wlp_step.
  eapply wlp_set_object; [done|]. destruct (decide (p = q)) as [<-|Hne].
  { eapply wlp_set_object; [cbn; by rewrite lookup_insert_eq|]. apply HQ. simplify_eq. cbn.
    rewrite insert_insert_eq, insert_id by done. rewrite set_objs_same. by destruct w. }
  eapply wlp_set_object; [cbn; by rewrite lookup_insert_ne|]. apply HQ. cbn. rewrite (insert_insert_ne _ q p) by done.
  set (w1 := set_objs (<[q := OPtr unbound]> (objs w)) (next_addr w) w).
  assert (H1 : step_to (handles_in (OPtr t) ++ l) (routers_in (OPtr t) ++ rs) w w1).
  { eapply step_update; [exact Hw|exact Hq|apply hand_take|apply hand_take|done..]. }
  eapply step_to_trans; [exact H1|].
  change (set_objs _ _ _) with (set_objs (<[p := OPtr t]> (objs w1)) (next_addr w1) w1).
  apply (step_update debug (handles_in (OPtr t) ++ l) (routers_in (OPtr t) ++ rs) _ _ w1 p (OPtr unbound)); try done; [apply H1|..].
  - unfold w1. cbn. by rewrite lookup_insert_ne.
  - cbn. rewrite app_nil_r. apply Permutation_app_comm.
  - cbn. rewrite app_nil_r. apply Permutation_app_comm.
  - intros _. pose proof (hi_objects _ _ _ _ Hw q _ Hq) as [Hpr Hs]. split; [done|].
    destruct (router_ t) as [r|]; [|done]. destruct Hs as (? & ? & Hask & ? & ?).
    split; [done|]. split; [done|]. split; [|done]. intros x p' f Hx. exfalso. unfold w1 in Hx. cbn in Hx.
    by rewrite (Hna r eq_refl) in Hx.
Qed.

Lemma InterfacePtr_move_ok q t l rs w :
  hinv l rs w -> objs w !! q = Some (OPtr t) -> (forall r, router_ t = Some r -> not_asked w r) ->
  wlp (InterfacePtr_move q) w (fun _ w' => step_to l rs w w').
Proof.
  intros Hw Hq Hna. unfold InterfacePtr_move. wlp_step.
  apply wlp_new_object. set (p := next_addr w). set (w1 := set_objs _ _ w).
  assert (H1 : step_to l rs w w1) by (apply step_new; [done|by left|done]).
  assert (Hn : objs w !! p = None) by by eapply fresh_addr. wlp_step.
  eapply (wlp_Swap p q t); [apply H1|unfold w1; cbn; apply lookup_insert_eq| |exact Hna|].
  - unfold w1. cbn. rewrite lookup_insert_ne; [done|]. congruence.
  - intros w2 H2. wlp_step. by eapply step_to_trans.
Qed.

Lemma InterfacePtr_assign_ok p q s t l rs w :
  hinv l rs w -> objs w !! p = Some (OPtr s) -> objs w !! q = Some (OPtr t) ->
  (forall r, router_ t = Some r -> not_asked w r) ->
  wlp (InterfacePtr_assign debug p q) w (fun _ w' => step_to l rs w w').
Proof.
  intros Hw Hp Hq Hna. unfold InterfacePtr_assign. wlp_step.
  eapply wlp_reset; [done|done|]. intros w1 H1 Ho1 Hq1.
  assert (Ht : exists t', objs w1 !! q = Some (OPtr t') /\ forall r, router_ t' = Some r -> not_asked w1 r).
  { rewrite Ho1. destruct (decide (p = q)) as [<-|Hne]; [rewrite lookup_insert_eq; by eexists|].
    rewrite lookup_insert_ne by done. exists t. split; [done|]. intros r Hr x. rewrite Hq1. by apply Hna. }
  destruct Ht as (t' & Hq' & Hna').
  eapply (wlp_Swap p q t'); [apply H1|by rewrite Ho1, lookup_insert_eq|done|done|]. intros w2 H2. by eapply step_to_trans.
Qed.

(** * New pipes *)

Lemma GetProxy_ok a x l rs w :
  hinv l rs w -> objs w !! a = Some (OHandle x) ->
  wlp (GetProxy debug a) w (fun h w' => step_to (List.filter is_valid [h] ++ l) rs w w').
Proof.
  intros Hw Ha. unfold GetProxy. wlp_step. eapply wlp_mono; [by apply message_pipe_ok|]. intros [h0 h1] w1 [H1 He].
  wlp_step. destruct (elsewhere_same _ _ He) as (Ho & _).
  eapply wlp_mono; [eapply InterfaceHandle_assign_value_ok; [apply H1|by rewrite Ho]|]. intros [] w2 H2. wlp_step.
  by eapply step_to_trans.
Qed.

Lemma GetProxy_ptr_ok p s l rs w :
  hinv l rs w -> objs w !! p = Some (OPtr s) ->
  wlp (GetProxy_ptr debug p) w (fun h w' => hinv (List.filter is_valid [h] ++ l) rs w' /\ hkept w w').
Proof.
  intros Hw Hp. unfold GetProxy_ptr. wlp_step. unfold InterfaceHandle_new. apply wlp_new_object. set (a := next_addr w).
  set (w1 := set_objs _ _ w). assert (H1 : step_to l rs w w1) by (apply step_new; [done|by left|done]).
  assert (Ha1 : exists x, objs w1 !! a = Some (OHandle x)) by (unfold w1; cbn; rewrite lookup_insert_eq; eauto).
  destruct Ha1 as (x1 & Ha1). wlp_step.
  eapply wlp_mono; [eapply GetProxy_ok; [apply H1|exact Ha1]|]. intros h w2 H2. wlp_step.
  destruct (proj2 (proj2 H2) _ _ Ha1) as ([x2| | | |] & Ha2 & ?); try done.
  eapply wlp_mono; [eapply InterfaceHandle_take_ok; [apply H2|exact Ha2]|]. intros info w3 [-> H3]. wlp_step.
  eapply wlp_mono; [eapply Create_ok; apply H3|]. intros q w4 [H4 (t & Hq & Hqr)]. wlp_step.
  assert (H14 : hkept w w4 /\ kinds w1 w4 /\ kinds w w4).
  { destruct H1 as (_ & K1 & L1), H2 as (_ & K2 & L2), H3 as (_ & K3 & L3), H4 as (_ & K4 & L4).
    split; [by transitivity w1; [|transitivity w2; [|transitivity w3]]|].
    assert (kinds w1 w4) by (transitivity w2; [done|by transitivity w3]). split; [done|by transitivity w1]. }
  destruct H14 as (K & L1 & L). destruct (L _ _ Hp) as ([| |s4| |] & Hp4 & ?); try done.
  eapply wlp_mono; [eapply (InterfacePtr_assign_ok p q s4 t); [apply H4|done|done|by rewrite Hqr]|]. intros [] w5 H5. wlp_step.
  destruct (proj2 (proj2 H5) _ _ Hq) as ([| |t5| |] & Hq5 & ?); try done.
  destruct (L1 _ _ Ha1) as ([x4| | | |] & Ha4 & ?); try done.
  destruct (proj2 (proj2 H5) _ _ Ha4) as ([x5| | | |] & Ha5 & ?); try done.
  (** The destructors, of which the first leaves the other object. *)
  pose proof (hinv_delete debug _ _ w5 q _ (proj1 H5) Hq5 Logic.I) as Hd.
  unfold InterfacePtr_destructor. eapply wlp_state_destructor; [done|exact Hd|]. intros w6 He6 Hk6 Hi6.
  wlp_step. eapply wlp_mono; [eapply (InterfaceHandle_destructor_ok debug a x5); [exact Hi6|]|].
  - cbn. rewrite lookup_delete_ne; [done|]. congruence.
  - intros [] w7 [Hi7 Hk7]. wlp_step. split; [exact Hi7|].
    transitivity w4; [done|]. transitivity w5; [apply H5|]. transitivity w6; [done|]. exact Hk7.
Qed.

(** * Bindings *)

Lemma Binding_new_ok i l rs w :
  hinv l rs w -> wlp (Binding_new i) w (fun _ w' => step_to l rs w w').
Proof. intros Hw. apply wlp_new_object. apply step_new; [done|right; by eexists|]. by split. Qed.

(** A binding with another router. *)
Definition with_router (x : Binding) (ro : option rid) : Binding :=
  {| internal_router_ := ro; impl_ := impl_ x; connection_error_handler_ := connection_error_handler_ x |}.

Lemma step_router a x ro l rs rs' w :
  hinv l rs w -> objs w !! a = Some (OBinding x) ->
  rs' ++ option_list ro ≡ₚ rs ++ option_list (internal_router_ x) ->
  (forall r, ro = Some r -> not_asked w r /\ told w r (Some a)) ->
  step_to l rs' w (set_objs (<[a := OBinding (with_router x ro)]> (objs w)) (next_addr w) w).
Proof.
  intros Hw Ha Hr Hok. eapply step_update; [exact Hw|exact Ha|done|done|done|done|].
  intros [_ Hs]. by split.
Qed.

Lemma Binding_Bind_exact a x h l rs w :
  hinv (List.filter is_valid [h] ++ l) rs w -> objs w !! a = Some (OBinding x) -> internal_router_ x = None ->
  wlp (Binding_Bind debug a h) w (fun _ w' => step_to l rs w w' /\
    exists r, objs w' = <[a := OBinding (with_router x (Some r))]> (objs w)).
Proof.
  intros Hw Ha Hx. unfold Binding_Bind. wlp_step. eapply wlp_get_binding; [done|]. wlp_step.
  apply wlp_assertion; [by rewrite Hx|]. wlp_step. rewrite <- (set_objs_same w) in Hw.
  eapply wlp_new_router; [exact Hw|]. intros r w1 H1 Ho1 Hn1 Hk1 Hna Heh _. rewrite <- Ho1, <- Hn1, set_objs_same in H1.
  assert (Hw1 : step_to l (r :: rs) w w1) by (split; [done|]; split; [done|by apply kinds_same]).
  unfold reset_router. wlp_step. wlp_step. eapply wlp_get_binding; [by rewrite Ho1|]. wlp_step.
  eapply wlp_set_object; [by rewrite Ho1|]. rewrite Hx. wlp_step. change {| internal_router_ := Some r; impl_ := _; connection_error_handler_ := _ |} with (with_router x (Some r)).
  assert (H2 : step_to l rs w1 (set_objs (<[a := OBinding (with_router x (Some r))]> (objs w1)) (next_addr w1) w1)).
  { eapply step_router; [exact H1|by rewrite Ho1|rewrite Hx; cbn; rewrite app_nil_r; symmetry; apply Permutation_cons_append|].
    intros r' [= <-]. split; [done|]. intros b Hb. by rewrite Heh in Hb. }
  set (w2 := set_objs _ _ w1) in *. assert (Ha2 : objs w2 !! a = Some (OBinding (with_router x (Some r)))) by apply lookup_insert_eq.
  assert (Hin : r ∈ routers_in (OBinding (with_router x (Some r)))) by by left.
  wlp_step. eapply (wlp_own_router debug _ a _ r l rs w2 (fun _ _ => True)); [apply H2|exact Ha2|exact Hin| |].
  - intros rw ro Hrw Hinv Hro _. eapply wlp_mono; [by eapply wlp_receiver_set|]. intros [] rw' (? & ? & ?). done.
  - intros [] rw' w3 _ H3 He Hr3. destruct (elsewhere_same _ _ He) as (Ho & _).
    eapply wlp_mono; [eapply (wlp_set_handler debug _ a); [apply H3|by rewrite Ho|exact Hin|]|].
    + split; [done|by eexists].
    + intros [] w4 [H4 Ho4]. split; [|exists r; by rewrite Ho4, Ho; unfold w2; cbn; rewrite Ho1].
      eapply step_to_trans; [exact Hw1|]. eapply step_to_trans; [exact H2|]. by eapply step_to_trans.
Qed.

Lemma Binding_Bind_ok a x h l rs w :
  hinv (List.filter is_valid [h] ++ l) rs w -> objs w !! a = Some (OBinding x) -> internal_router_ x = None ->
  wlp (Binding_Bind debug a h) w (fun _ w' => step_to l rs w w').
Proof. intros Hw Ha Hx. eapply wlp_mono; [by eapply Binding_Bind_exact|]. by intros [] w' [? _]. Qed.

Lemma Binding_Bind_handle_ok a x b y l rs w :
  hinv l rs w -> objs w !! a = Some (OBinding x) -> internal_router_ x = None -> objs w !! b = Some (OHandle y) ->
  wlp (Binding_Bind_handle debug interface_version a b) w (fun _ w' => step_to l rs w w').
Proof.
  intros Hw Ha Hx Hb. unfold Binding_Bind_handle. wlp_step. eapply wlp_mono; [by apply message_pipe_ok|].
  intros [h0 h1] w1 [H1 He]. wlp_step. destruct (elsewhere_same _ _ He) as (Ho & _).
  unfold InterfaceHandle_assign_value. wlp_step. eapply wlp_get_ihandle; [by rewrite Ho|].
  set (z := {| ih_handle_ := h0 |}). wlp_step.
  assert (Hu : hinv (List.filter is_valid [ih_handle_ y] ++ List.filter is_valid [h1] ++ l) rs
      (set_objs (<[b := OHandle z]> (objs w1)) (next_addr w1) w1)).
  { eapply hinv_update; [apply H1|by rewrite Ho|apply hand_swap|done..]. }
  eapply wlp_close_member; [exact Hu|]. intros w2 H2 He2 Hr2. destruct (elsewhere_same _ _ He2) as (Ho2 & Hn2 & _).
  eapply wlp_set_object; [by rewrite Ho2, Ho|]. rewrite <- Hn2, <- Ho2 in H2. set (w3 := set_objs _ _ w2) in *.
  assert (H3 : step_to (List.filter is_valid [h1] ++ l) rs w w3).
  { split; [exact H2|]. split; [transitivity w1; [apply H1|by apply hkept_same]|].
    apply (kinds_update w _ b (OHandle y) (OHandle z)); [done|done|]. unfold w3. cbn. by rewrite Ho2, Ho. }
  assert (Ha3 : objs w3 !! a = Some (OBinding x)).
  { unfold w3. cbn. rewrite Ho2, Ho, lookup_insert_ne; [done|]. congruence. }
  eapply wlp_mono; [by eapply (Binding_Bind_ok a x)|]. intros [] w4 H4. by eapply step_to_trans.
Qed.

Lemma Close_ok a x l rs w :
  hinv l rs w -> objs w !! a = Some (OBinding x) -> is_Some (internal_router_ x) ->
  wlp (Close debug a) w (fun _ w' => step_to l rs w w').
Proof.
  intros Hw Ha [r Hr]. unfold Close. wlp_step. eapply wlp_get_binding; [done|]. wlp_step.
  apply wlp_assertion; [by rewrite Hr|]. unfold reset_router. wlp_step. eapply wlp_get_binding; [done|]. wlp_step.
  eapply wlp_set_object; [done|]. rewrite Hr. change {| internal_router_ := None; impl_ := _; connection_error_handler_ := _ |} with (with_router x None).
  assert (H1 : step_to l (r :: rs) w (set_objs (<[a := OBinding (with_router x None)]> (objs w)) (next_addr w) w)).
  { eapply step_router; [exact Hw|done| |done]. rewrite Hr. cbn. rewrite app_nil_r. apply Permutation_cons_append. }
  set (w1 := set_objs _ _ w) in *. destruct H1 as (H1 & K1 & L1). rewrite <- (set_objs_same w1) in H1.
  eapply wlp_delete_router; [exact H1|]. intros w2 H2 He Hk. destruct (elsewhere_same _ _ He) as (Ho & Hn & _).
  rewrite <- Ho, <- Hn, set_objs_same in H2. split; [exact H2|]. split; [by transitivity w1|].
  transitivity w1; [done|by apply kinds_same].
Qed.

Lemma Unbind_ok a x l rs w :
  hinv l rs w -> objs w !! a = Some (OBinding x) -> is_Some (internal_router_ x) ->
  wlp (Unbind debug a) w (fun h w' => step_to (List.filter is_valid [h] ++ l) rs w w').
Proof.
  intros Hw Ha [r Hr]. unfold Unbind. wlp_step. eapply wlp_get_binding; [done|]. rewrite Hr. cbn [through]. wlp_step.
  assert (H1 : step_to l (r :: rs) w (set_objs (<[a := OBinding (with_router x None)]> (objs w)) (next_addr w) w)).
  { eapply step_router; [exact Hw|done| |done]. rewrite Hr. cbn. rewrite app_nil_r. apply Permutation_cons_append. }
  destruct H1 as (H1 & _ & L1).
  assert (Hal : exists rw, routers w !! r = Some rw /\ is_alive rw) by (apply (hi_alive _ _ _ _ H1 r); by left).
  destruct Hal as (rw & Hrw & [ro Hro]). pose proof (hi_routers _ _ _ _ Hw r rw Hrw) as Hinv.
  eapply (wlp_on_router debug _ r rw _ (fun h => List.filter is_valid [h]) _ _ l (r :: rs) (r :: rs));
    [exact H1|done|exact (wlp_pass rw ro Hinv Hro)| |].
  - intros h rw' [Hst Hal']. split; [apply Hst|]. split; [apply Hst|]. apply fate_in_hand; [by left|done|].
    unfold is_alive. by rewrite Hro.
  - intros h rw' w2 [Hst _] H2 He Hr2. destruct (elsewhere_same _ _ He) as (Ho & Hn & _). wlp_step.
    unfold reset_router. wlp_step. eapply wlp_get_binding; [by rewrite Ho|]. wlp_step. eapply wlp_set_object; [by rewrite Ho|].
    rewrite Hr. change {| internal_router_ := None; impl_ := _; connection_error_handler_ := _ |} with (with_router x None).
    rewrite <- Ho, <- Hn in H2. set (w3 := set_objs _ _ w2) in *. rewrite <- (set_objs_same w3) in H2.
    eapply wlp_delete_router; [exact H2|]. intros w4 H4 He4 Hk4. destruct (elsewhere_same _ _ He4) as (Ho4 & Hn4 & _).
    rewrite <- Ho4, <- Hn4, set_objs_same in H4. wlp_step. split; [exact H4|]. split.
    + transitivity w2; [|exact Hk4]. eapply hkept_router; [done|done|apply Hst].
    + intros b o Hb. rewrite Ho4. unfold w3. cbn. rewrite Ho. exact (L1 b o Hb).
Qed.

(** A binding of the program gets a handler of the program. *)
Lemma set_binding_error_handler_ok a x f l rs w :
  hinv l rs w -> objs w !! a = Some (OBinding x) -> (forall s, connection_error_handler_ x <> StrongError s) ->
  wlp (set_binding_error_handler a (UserHandler f)) w (fun _ w' => step_to l rs w w' /\
    objs w' = <[a := OBinding {| internal_router_ := internal_router_ x; impl_ := impl_ x;
                                connection_error_handler_ := UserHandler f |}]> (objs w)).
Proof.
  intros Hw Ha Hns. unfold set_binding_error_handler. wlp_step. eapply wlp_get_binding; [done|].
  eapply wlp_set_object; [done|]. set (x' := {| internal_router_ := _ |}). split; [|done].
  split; [|split; [by apply hkept_same|apply (kinds_update w _ a (OBinding x) (OBinding x')); done]].
  apply (hinv_objs debug l rs); [done| | | |].
  - intros b. rewrite lookup_insert_is_Some'. intros [<-|Hb]; apply (hi_addrs _ _ _ _ Hw); [by eexists|done].
  - by rewrite <- (move_update l l _ _ _ _ (collected_update handles_in _ _ _ (OBinding x') Ha)).
  - by rewrite <- (move_update rs rs _ _ _ _ (collected_update routers_in _ _ _ (OBinding x') Ha)).
  - intros b o [[<- <-]|[Hne Hb]]%lookup_insert_Some.
    + pose proof (hi_objects _ _ _ _ Hw _ _ Ha) as [H1 _]. by split.
    + pose proof (hi_objects _ _ _ _ Hw _ _ Hb) as Hok. destruct o as [y|h|s|y|y]; try done; cbn [object_ok objs set_objs] in *.
      * destruct Hok as [H1 H2]. split; [done|]. intros s Hs. destruct (H2 s Hs) as (z & Hz & Hbz). exists z. split; [|done].
        rewrite lookup_insert_ne; [done|]. congruence.
      * destruct Hok as (z & Hz & Hhz). exists z. split; [|done]. rewrite lookup_insert_ne; [done|].
        intros ->. simplify_eq. by apply (Hns b).
Qed.

Lemma Binding_destructor_ok a x l rs w :
  hinv l rs w -> objs w !! a = Some (OBinding x) -> (forall s, connection_error_handler_ x <> StrongError s) ->
  wlp (Binding_destructor debug a) w (fun _ w' => (hinv l rs w' /\ hkept w w') /\ objs w' = delete a (objs w)).
Proof.
  intros Hw Ha Hns. pose proof (hinv_delete debug l rs w a _ Hw Ha Hns) as Hd.
  unfold Binding_destructor. wlp_step. eapply wlp_get_binding; [done|]. wlp_step.
  eapply wlp_delete_routers; [exact Hd|]. intros w1 H1 He Hk. destruct (elsewhere_same _ _ He) as (Ho & Hn & _).
  eapply wlp_delete_object; [by rewrite Ho|]. by rewrite Ho, Hn.
Qed.
End Operations.
