(* ===== verification/InterfacesStrong.v ===== *)
(** Strong bindings, errors and responses keep the invariant, whatever the program does
    when it is called back. *)
From stdpp Require Import base numbers list option gmap sets.
From Stdlib Require Import ZArith Lia.
From S2P Require Import Prelude Result CMem Buffer Descriptor Validate Router RouterFacts.
From S2P Require Import Message Serialization HandlesFacts ControlMessages ControlMessagesFacts.
From S2P Require Import Interfaces InterfacesRouters InterfacesFacts InterfacesSteps InterfacesOps InterfacesPtr InterfacesBinding.
From Stdlib Require Import Permutation.
From S2P Require Handles.

Section Operations.
Context (debug : bool).
Abbreviation hinv := (hinv debug).
Abbreviation step_to := (step_to debug).

(** * Strong bindings *)

(** A strong binding has a binding whose handler it is. *)
Lemma strong_binding l rs w s y :
  hinv l rs w -> objs w !! s = Some (OStrong y) ->
  exists x, objs w !! binding_ y = Some (OBinding x) /\ connection_error_handler_ x = StrongError s.
Proof. intros Hw Hs. exact (hi_objects _ _ _ _ Hw s _ Hs). Qed.

Lemma StrongBinding_new_ok i l rs w :
  hinv l rs w -> wlp (StrongBinding_new i) w (fun _ w' => step_to l rs w w').
Proof.
  intros Hw. unfold StrongBinding_new, Binding_new. wlp_step. apply wlp_new_object. wlp_step. apply wlp_new_object.
  set (b := next_addr w). cbn [next_addr set_objs objs]. set (s := S b).
  assert (Hb : objs w !! b = None) by by eapply fresh_addr.
  assert (Hs : objs w !! s = None).
  { apply eq_None_not_Some. intros Hx%(hi_addrs _ _ _ _ Hw). unfold s, b in Hx. lia. }
  assert (Hne : b <> s) by (unfold s; lia).
  unfold set_binding_error_handler. wlp_step. wlp_step.
  eapply wlp_get_binding; [cbn; rewrite lookup_insert_ne by done; apply lookup_insert_eq|].
  eapply wlp_set_object; [cbn; rewrite lookup_insert_ne by done; apply lookup_insert_eq|]. wlp_step.
  cbn [objs set_objs next_addr]. set (x := {| internal_router_ := _ |}). set (y := {| strong_handler_ := None |}).
  set (os := <[b := OBinding x]> _).
  assert (Hos : os = <[s := OStrong y]> (<[b := OBinding x]> (objs w))).
  { unfold os. rewrite (insert_insert_ne _ b s) by done. by rewrite insert_insert_eq. }
  change (set_objs os _ _) with (set_objs os (S s) w). rewrite Hos. clear Hos os.
  split; [|split; [by apply hkept_same|]].
  - apply (hinv_objs debug l rs); [done| | | |].
    + intros a. rewrite !lookup_insert_is_Some'. intros [<-|[<-|Ha%(hi_addrs _ _ _ _ Hw)]]; unfold s, b in *; lia.
    + rewrite !collected_insert; [done..|by rewrite lookup_insert_ne].
    + rewrite !collected_insert; [done..|by rewrite lookup_insert_ne].
    + intros a o [[<- <-]|[Hsa [[<- <-]|[Hba Ha]]%lookup_insert_Some]]%lookup_insert_Some.
      * exists x. split; [|done]. cbn. by rewrite lookup_insert_ne, lookup_insert_eq.
      * split; [done|]. intros s' [= <-]. exists y. cbn. by rewrite lookup_insert_eq.
      * apply object_ok_links; [by apply (hi_objects _ _ _ _ Hw)|]. intros a' o' Ha'.
        assert (a' <> b /\ a' <> s) as [? ?] by (split; congruence).
        destruct o'; try done; eexists; rewrite !lookup_insert_ne by done; (split; [exact Ha'|apply same_link_refl]).
  - intros a o Ha. exists o. cbn. assert (a <> b /\ a <> s) as [? ?] by (split; congruence).
    rewrite !lookup_insert_ne by done. split; [done|by destruct o].
Qed.

Lemma StrongBinding_Bind_ok s y x h l rs w :
  hinv (List.filter is_valid [h] ++ l) rs w -> objs w !! s = Some (OStrong y) -> objs w !! binding_ y = Some (OBinding x) ->
  internal_router_ x = None -> wlp (StrongBinding_Bind debug s h) w (fun _ w' => step_to l rs w w').
Proof.
  intros Hw Hs Hb Hx. unfold StrongBinding_Bind, Binding_is_bound. wlp_step. eapply wlp_get_strong; [done|]. wlp_step. wlp_step.
  eapply wlp_get_binding; [done|]. wlp_step. rewrite Hx. wlp_step. apply wlp_assertion; [done|]. by eapply Binding_Bind_ok.
Qed.
Lemma StrongBinding_Close_ok s y x l rs w :
  hinv l rs w -> objs w !! s = Some (OStrong y) -> objs w !! binding_ y = Some (OBinding x) ->
  is_Some (internal_router_ x) -> wlp (StrongBinding_Close debug s) w (fun _ w' => step_to l rs w w').
Proof. intros Hw Hs Hb Hx. unfold StrongBinding_Close. wlp_step. eapply wlp_get_strong; [done|]. by eapply Close_ok. Qed.
Lemma StrongBinding_Unbind_ok s y x l rs w :
  hinv l rs w -> objs w !! s = Some (OStrong y) -> objs w !! binding_ y = Some (OBinding x) ->
  is_Some (internal_router_ x) ->
  wlp (StrongBinding_Unbind debug s) w (fun h w' => step_to (List.filter is_valid [h] ++ l) rs w w').
Proof. intros Hw Hs Hb Hx. unfold StrongBinding_Unbind. wlp_step. eapply wlp_get_strong; [done|]. by eapply Unbind_ok. Qed.

Lemma StrongBinding_set_error_handler_ok s y f l rs w :
  hinv l rs w -> objs w !! s = Some (OStrong y) ->
  wlp (StrongBinding_set_error_handler s f) w (fun _ w' => step_to l rs w w').
Proof.
  intros Hw Hs. unfold StrongBinding_set_error_handler. wlp_step. eapply wlp_get_strong; [done|].
  eapply wlp_set_object; [done|]. by eapply step_update.
Qed.

Lemma StrongBinding_destructor_ok s y l rs w :
  hinv l rs w -> objs w !! s = Some (OStrong y) ->
  wlp (StrongBinding_destructor debug s) w (fun _ w' => hinv l rs w' /\ hkept w w').
Proof.
  intros Hw Hs. destruct (strong_binding _ _ _ _ _ Hw Hs) as (x & Hx & Hh). set (b := binding_ y) in *.
  assert (Hne : s <> b) by congruence.
  unfold StrongBinding_destructor. wlp_step. eapply wlp_get_strong; [done|]. fold b. unfold Binding_destructor. wlp_step. wlp_step.
  eapply wlp_get_binding; [exact Hx|]. wlp_step.
  set (os := delete s (delete b (objs w))).
  assert (Hd : hinv l (option_list (internal_router_ x) ++ rs) (set_objs os (next_addr w) w)).
  { apply (hinv_objs debug l rs); [done| | | |].
    - intros a. unfold os. rewrite !lookup_delete_is_Some. intros (_ & _ & Ha). by apply (hi_addrs _ _ _ _ Hw).
    - apply Permutation_app_head. rewrite (collected_delete handles_in _ _ _ Hx).
      rewrite (collected_delete handles_in (delete b (objs w)) s (OStrong y)); [done|]. by rewrite lookup_delete_ne.
    - rewrite (collected_delete routers_in _ _ _ Hx).
      rewrite (collected_delete routers_in (delete b (objs w)) s (OStrong y)) by by rewrite lookup_delete_ne.
      cbn [routers_in]. rewrite <- app_assoc. apply Permutation_app_swap_app.
    - intros a o [Hsa [Hba Ha]%lookup_delete_Some]%lookup_delete_Some. pose proof (hi_objects _ _ _ _ Hw a o Ha) as Hok.
      destruct o as [z|h|z|z|z]; try done; cbn [object_ok objs set_objs] in *.
      + destruct Hok as [H1 H2]. split; [done|]. intros s' Hs'. destruct (H2 s' Hs') as (y' & Hy' & Hby'). exists y'. split; [|done].
        assert (s' <> s) by (intros ->; rewrite Hs in Hy'; injection Hy' as <-; by apply Hba). assert (s' <> b) by (intros ->; congruence).
        unfold os. by rewrite !lookup_delete_ne by done.
      + destruct Hok as (x' & Hx' & Hh'). exists x'. split; [|done].
        assert (binding_ z <> s) by (intros He; rewrite He in Hx'; congruence).
        assert (binding_ z <> b) by (intros He; rewrite He in Hx'; simplify_eq; congruence).
        unfold os. by rewrite !lookup_delete_ne by done. }
  eapply wlp_delete_routers; [exact Hd|]. intros w1 H1 He Hk. destruct (elsewhere_same _ _ He) as (Ho & Hn & _).
  eapply wlp_delete_object; [by rewrite Ho|].
  eapply wlp_delete_object; [cbn; rewrite Ho, lookup_delete_ne by done; exact Hs|]. cbn. rewrite Ho, Hn. by split.
Qed.

(** * Errors and responses *)

(** What code of the program may rely on and is to keep. *)
Definition behaves (c : M heap unit) : Prop :=
  forall w, hinv [] [] w -> wlp c w (fun _ w' => hinv [] [] w' /\ hkept w w').

Section Callbacks.
Context (run_callback : callback -> Z -> M heap unit) (impl_destructor : impl -> M heap unit).
Context (callback_ok : forall f v, behaves (run_callback f v)) (destructor_ok : forall i, behaves (impl_destructor i)).

Lemma impl_deleted_ok i : behaves (delete_impl impl_destructor i).
Proof.
  intros w Hw. unfold delete_impl. wlp_step. wlp_step.
  eapply wlp_mono; [apply destructor_ok; by destruct Hw|]. intros [] w1 [H1 K1]. split; [done|].
  etransitivity; [|exact K1]. by apply hkept_same.
Qed.

(** What the callback of a strong binding leaves there, it deletes itself. *)
Lemma OnConnectionError_ok s w y :
  hinv [] [] w -> objs w !! s = Some (OStrong y) ->
  (forall f v, wlp (run_callback f v) w (fun _ w' => hinv [] [] w' /\ hkept w w' /\ is_strong None s w' = true)) ->
  wlp (OnConnectionError run_callback impl_destructor s) w (fun _ w' => hinv [] [] w' /\ hkept w w').
Proof.
  intros Hw Hs Hcall. unfold OnConnectionError. wlp_step. eapply wlp_get_strong; [done|]. wlp_step.
  apply wlp_mono with (P := fun _ w' => hinv [] [] w' /\ hkept w w' /\ is_strong None s w' = true).
  { destruct (strong_handler_ y); [by apply Hcall|wlp_step]. unfold is_strong. by rewrite Hs. }
  intros [] w1 (H1 & K1 & Hs1). unfold is_strong in Hs1. wlp_step.
  destruct (objs w1 !! s) as [[| | | |y1]|] eqn:Hy1; try done.
  eapply wlp_get_strong; [done|]. wlp_step. destruct (strong_binding _ _ _ _ _ H1 Hy1) as (x & Hx & _).
  eapply wlp_get_binding; [done|]. eapply wlp_mono; [by apply impl_deleted_ok|].
  intros [] w2 [H2 K2]. split; [done|by transitivity w1].
Qed.

(** The callbacks leave the strong binding, if one is told. *)
Definition spares (s : option addr) : Prop := forall f v w, hinv [] [] w ->
  wlp (run_callback f v) w (fun _ w' => hinv [] [] w' /\ hkept w w' /\ from_option (fun s => is_strong None s w' = true) True s).

Lemma run_binding_handler_ok b w x :
  hinv [] [] w -> objs w !! b = Some (OBinding x) ->
  spares (match connection_error_handler_ x with StrongError s => Some s | _ => None end) ->
  wlp (run_binding_handler run_callback impl_destructor b) w (fun _ w' => hinv [] [] w' /\ hkept w w').
Proof.
  intros Hw Hb Hcall. unfold run_binding_handler. wlp_step. eapply wlp_get_binding; [done|].
  destruct (connection_error_handler_ x) as [|f|s] eqn:Hh; [by wlp_step|by apply callback_ok|].
  destruct (proj2 (hi_objects _ _ _ _ Hw b _ Hb) s Hh) as (y & Hy & _). eapply OnConnectionError_ok; [done..|].
  intros f v. by apply Hcall.
Qed.

(** A router of which nothing is in hand has an owner. *)
Lemma has_owner l w r :
  hinv l [] w -> alive w r = true ->
  exists a o, objs w !! a = Some o /\ r ∈ routers_in o.
Proof.
  intros Hw Ha. unfold alive in Ha. destruct (routers w !! r) as [rw|] eqn:Hr; [|done].
  apply bool_decide_eq_true in Ha.
  assert (Hin : r ∈ [] ++ owned_routers w) by (apply (hi_alive _ _ _ _ Hw); eauto). cbn in Hin.
  by apply elem_of_collected in Hin.
Qed.

Lemma connection_error_ok r result w :
  hinv [] [] w -> alive w r = true -> spares (told_strong w r) ->
  wlp (connection_error debug run_callback impl_destructor r result) w (fun _ w' => hinv [] [] w' /\ hkept w w').
Proof.
  intros Hw Hal Hcall. destruct (has_owner _ _ _ Hw Hal) as (a & o & Ha & Hin).
  unfold connection_error. wlp_step.
  eapply (wlp_own_router debug _ a o r [] [] w (fun _ _ => True)); [done..| |].
  - intros rw ro Hrw Hinv Hro _. eapply wlp_mono; [by eapply wlp_signal_error|]. intros [] rw' (? & ? & ?).
    by destruct o.
  - intros [] rw' w1 _ (H1 & K1 & _) He Hr1. do 2 wlp_step.
    assert (Hsame : told_strong w1 r = told_strong w r) by by destruct He as (p & m & ->). destruct (elsewhere_same _ _ He) as (Ho & _).
    rewrite <- Ho in Ha. destruct (error_handlers w1 !! r) as [[f|b]|] eqn:Hh; [| |by wlp_step].
    + eapply wlp_mono; [by apply callback_ok|]. intros [] w2 [H2 K2]. split; [done|by transitivity w1].
    + assert (Hb : exists x, objs w1 !! b = Some (OBinding x)).
      { pose proof (hi_objects _ _ _ _ H1 a o Ha) as Hok. destruct o as [z|z|s|x|z]; cbn in Hin; try by apply elem_of_nil in Hin.
        - destruct Hok as [_ Hok]. destruct (router_ s); [|by apply elem_of_nil in Hin].
          apply list_elem_of_singleton in Hin as ->. destruct Hok as (_ & _ & _ & Ht & _). by specialize (Ht b Hh).
        - destruct Hok as [Hok _]. destruct (internal_router_ x) as [r'|]; [|by apply elem_of_nil in Hin].
          apply list_elem_of_singleton in Hin as ->. destruct (Hok r' eq_refl) as [_ Ht]. specialize (Ht b Hh). simplify_eq. eauto. }
      destruct Hb as (x & Hx). eapply wlp_mono; [eapply run_binding_handler_ok; [done..|]|].
      { unfold told_strong in Hsame at 1. rewrite Hh, Hx in Hsame. by rewrite Hsame. }
      intros [] w2 [H2 K2]. split; [done|by transitivity w1].
Qed.

(** Questions that are answered, and versions, are not anybody's concern. *)
Lemma hinv_answered l rs w k : hinv l rs w -> hinv l rs (set_queries (delete k (queries w)) w).
Proof.
  intros Hw. pose proof Hw as []. split; try done; cbn [routers next_router error_handlers objs set_queries].
  - intros r Hr. destruct (hi_fresh r Hr) as (H1 & H2 & H3). split; [done|]. split; [|done].
    intros x. cbn. by apply lookup_delete_None; right.
  - intros a o Ha. specialize (hi_objects a o Ha). destruct o as [y|h|s|y|y]; try done; cbn [object_ok] in *.
    + destruct hi_objects as [Hpr Hs]. split; [done|]. destruct (router_ s); [|done].
      destruct Hs as (? & ? & Hask & ? & ?). split; [done|]. split; [done|]. split; [|done].
      intros x p f. cbn. intros [_ Hq]%lookup_delete_Some. by eapply Hask.
    + destruct hi_objects as [H1 H2]. split; [|done]. intros r Hr. destruct (H1 r Hr) as [Hn Ht]. split; [|done].
      intros x. cbn. by apply lookup_delete_None; right.
Qed.

(** The responder is held while the callback runs, and then ends. *)
Lemma wlp_end_responder r x rw l rs w (Q : unit -> heap -> Prop) :
  hinv l rs w -> routers w !! r = Some rw -> RouterFacts.held rw x ->
  (forall rw' w', hinv l rs w' -> routers w' = <[r := rw']> (routers w) ->
     (forall y, RouterFacts.held rw y -> y <> x -> RouterFacts.held rw' y) -> Q tt w') ->
  wlp (on_router debug r (delete_responder x)) w Q.
Proof.
  intros Hw Hr Hx HQ. pose proof (hi_routers _ _ _ _ Hw r rw Hr) as Hinv. pose proof Hw as Hw0.
  rewrite <- (set_objs_same w) in Hw.
  eapply (wlp_on_router debug _ r rw _ (fun _ => []) _ _ l rs rs);
    [exact Hw|done|exact (wlp_responder_ends rw x Hinv Hx)| |].
  - intros _ rw' (H1 & H2 & H3 & H4). split; [done|]. split.
    + apply settled_kept; [by rewrite H3|]. unfold valid_pipe, pipe_of. by rewrite H2.
    + apply fate_stays; [unfold is_alive; by rewrite H2|]. unfold RouterFacts.open. by rewrite H2.
  - intros [] rw' w' (H1 & H2 & H3 & H4) H5 He Hr'. destruct (elsewhere_same _ _ He) as (Ho & Hn & _).
    rewrite <- Ho, <- Hn, set_objs_same in H5. by eapply HQ.
Qed.

Lemma version_response_ok r id version w :
  hinv [] [] w -> alive w r = true ->
  wlp (version_response debug run_callback r id version) w (fun _ w' => hinv [] [] w' /\ hkept w w').
Proof.
  intros Hw Hal. destruct (has_owner _ _ _ Hw Hal) as (a & o & Ha & Hin).
  destruct (owned_alive _ _ _ _ _ _ _ Hw Ha Hin) as (rw & Hrw & ro & Hro).
  unfold version_response. wlp_step.
  eapply (wlp_own_router debug _ a o r [] [] w (fun x rw' => RouterFacts.held rw' x /\ ~ RouterFacts.held rw x)); [done..| |].
  - intros rw0 ro0 Hrw0 Hinv Hro0 Hopen. simplify_eq.
    eapply wlp_mono; [by eapply wlp_take_responder|]. intros x rw' (Hs & Hal' & Ho & Hh & Hh').
    split; [done|]. split; [done|]. destruct o; auto.
  - intros x rw1 w1 [Hheld Hnot] (H1 & K1 & _) He Hr1. destruct (elsewhere_same _ _ He) as (Ho & _ & Hq & _).
    do 2 wlp_step. destruct (queries w1 !! (r, x)) as [[p f]|] eqn:Hqx; [|done]. wlp_step. wlp_step. cbn beta.
    rewrite <- Ho in Ha.
    assert (Hp : exists s, o = OPtr s /\ a = p).
    { pose proof (hi_objects _ _ _ _ H1 a o Ha) as Hok. destruct o as [z|z|s|z|z]; cbn in Hin; try by apply elem_of_nil in Hin.
      - destruct Hok as [_ Hok]. destruct (router_ s); [|by apply elem_of_nil in Hin].
        apply list_elem_of_singleton in Hin as ->. destruct Hok as (_ & _ & Hask & _). rewrite (Hask _ _ _ Hqx). eauto.
      - destruct Hok as [Hok _]. destruct (internal_router_ z) as [r'|]; [|by apply elem_of_nil in Hin].
        apply list_elem_of_singleton in Hin as ->. destruct (Hok r' eq_refl) as [Hn _]. by rewrite Hn in Hqx. }
    destruct Hp as (s & -> & ->). set (w2 := set_queries _ w1).
    assert (H2 : hinv [] [] w2) by by apply hinv_answered.
    wlp_step. eapply wlp_get_ptr; [exact Ha|]. wlp_step. eapply wlp_set_object; [exact Ha|]. set (s' := {| proxy_ := _ |}).
    assert (H3 : step_to [] [] w2 (set_objs (<[p := OPtr s']> (objs w2)) (next_addr w2) w2)) by by eapply step_update.
    set (w3 := set_objs _ _ w2) in *. wlp_step. eapply wlp_mono; [apply callback_ok; apply H3|].
    intros [] w4 [H4 K4]. destruct (K4 r rw1) as (rw4 & Hr4 & Hh4); [unfold w3, w2; cbn; rewrite Hr1; apply lookup_insert_eq|].
    eapply wlp_end_responder; [done|exact Hr4|by apply Hh4|]. intros rw5 w5 H5 Hr5 Hh5. split; [done|].
    intros r' rw' Hr'. destruct (decide (r = r')) as [<-|Hne].
    + simplify_eq. exists rw5. split; [by rewrite Hr5, lookup_insert_eq|]. intros z Hz.
      destruct (K1 r rw Hrw) as (rw1' & E1 & Hh1). rewrite Hr1, lookup_insert_eq in E1. simplify_eq.
      apply Hh5; [by apply Hh4, Hh1|]. intros ->. by apply Hnot.
    + destruct (K1 r' rw' Hr') as (rw1' & E1 & Hh1). destruct (K4 r' rw1' E1) as (rw4' & E4 & Hh4').
      exists rw4'. split; [by rewrite Hr5, lookup_insert_ne|]. auto.
Qed.
End Callbacks.
End Operations.
