(* ===== verification/InterfacesSpec.v ===== *)
(** Programs that use interface handles, requests, pointers and bindings: every pipe is
    accounted for, and no object is used after its end. *)
From stdpp Require Import base numbers list option gmap sets.
From Stdlib Require Import ZArith Lia.
From S2P Require Import Prelude Result CMem Buffer Descriptor Validate Router RouterFacts.
From S2P Require Import Message Serialization HandlesFacts ControlMessages ControlMessagesFacts.
From S2P Require Import Interfaces InterfacesRouters InterfacesFacts InterfacesSteps InterfacesOps InterfacesPtr.
From S2P Require Import InterfacesBinding InterfacesStrong.
From Stdlib Require Import Permutation.
From S2P Require Handles.

Section Spec.
Context (debug : bool) (interface_version memory : Z).
Context `{run_laws : GeneratedLaws RunMessageParams good_run wire_run}.
Context `{close_laws : GeneratedLaws RunOrClosePipeMessageParams good_close wire_close}.
Context (memory_ok : 0 < memory < 2 ^ 63 /\ IsAligned memory = true).
Context (run_ok : good_run {| run_reserved0 := 16; run_reserved1 := 0; query_version := Some tt |}).
Context (close_ok : forall version, is_u32 version = true ->
  good_close {| close_reserved0 := 16; close_reserved1 := 0;
                require_version := Some {| required_version := version |} |}).
Abbreviation hinv := (hinv debug).
Abbreviation step_to := (step_to debug).

Definition fine (w w' : heap) : Prop := hinv [] [] w' /\ hkept w w'.

Lemma step_inv l rs w w' : step_to l rs w w' -> hinv l rs w'.
Proof. by intros (? & _). Qed.
Lemma step_fine w w' : step_to [] [] w w' -> fine w w'.
Proof. by intros (? & ? & _). Qed.

Lemma then_ok {A} (c : M heap A) (k : A -> M heap unit) w (P : A -> heap -> Prop) :
  wlp c w P -> (forall x w', P x w' -> fine w w') -> (forall x, behaves debug (k x)) ->
  wlp (c ≫= k) w (fun _ w' => fine w w').
Proof.
  intros Hc HP Hk. wlp_step. eapply wlp_mono; [exact Hc|]. intros x w1 [H1 K1]%HP.
  eapply wlp_mono; [by apply Hk|]. intros [] w2 [H2 K2]. split; [done|by transitivity w1].
Qed.

(** Two operations, of which the first leaves something in hand for the second. *)
Lemma then2_ok {A B} (c : M heap A) (f : A -> M heap B) (k : A -> B -> M heap unit) w (P : A -> heap -> Prop) :
  wlp c w P -> (forall x w1, P x w1 -> wlp (f x) w1 (fun _ w' => fine w w')) ->
  (forall x y, behaves debug (k x y)) -> wlp (c ≫= fun x => f x ≫= k x) w (fun _ w' => fine w w').
Proof.
  intros Hc Hf Hk. wlp_step. eapply wlp_mono; [exact Hc|]. intros x w1 HP. wlp_step.
  eapply wlp_mono; [by apply Hf|]. intros y w2 [H2 K2].
  eapply wlp_mono; [by apply Hk|]. intros [] w3 [H3 K3]. split; [done|by transitivity w2].
Qed.

Lemma wlp_required b (w : heap) (Q : unit -> heap -> Prop) : (b w = true -> Q tt w) -> wlp (require b) w Q.
Proof. intros HQ. unfold require. do 2 wlp_step. destruct (b w); [wlp_step; by apply HQ|done]. Qed.

(** ** Handles that come in and go out *)

Lemma adopt_ok h w : hinv [] [] w -> wlp (adopt h) w (fun _ w' => step_to (List.filter is_valid [h] ++ []) [] w w').
Proof.
  rewrite app_nil_r. intros Hw. unfold adopt. wlp_step. apply wlp_required. intros Ha. apply gwlp_on_process. apply wlp_notes.
  split; [|split; [by apply hkept_same|by apply kinds_same]].
  eapply hinv_proc; [exact Hw| |by rewrite objects_noted_all; apply Hw].
  pose proof (hi_owned _ _ _ _ Hw) as Ho. cbn in Ho. apply owned_took_all; [done|..].
  - cbn. destruct (is_valid h); [apply NoDup_singleton|constructor].
  - intros h' Hin. cbn in Hin. destruct (is_valid h) eqn:Hv; [|by apply elem_of_nil in Hin].
    apply list_elem_of_singleton in Hin as ->. unfold adoptable in Ha. rewrite Hv in Ha. cbn in Ha.
    apply andb_true_iff in Ha as [Ha1%bool_decide_eq_true Ha2%bool_decide_eq_true]. split; [done|].
    assert (He : Handles.held (proc w) = []) by (unfold Handles.held; by rewrite (hi_scoped _ _ _ _ Hw)).
    by rewrite He, app_nil_r.
Qed.

Lemma give_ok h w0 w : step_to (List.filter is_valid [h] ++ []) [] w0 w -> wlp (give h) w (fun _ w' => fine w0 w').
Proof.
  rewrite app_nil_r. intros (Hw & K & _). unfold give. apply gwlp_on_process. apply wlp_notes.
  split; [|etransitivity; [exact K|by apply hkept_same]].
  eapply hinv_proc; [exact Hw| |by rewrite objects_noted_all; apply Hw].
  pose proof (hi_owned _ _ _ _ Hw) as Ho. cbn in Ho |- *. destruct (is_valid h); [|done].
  exact (owned_gone debug h _ _ _ (Handles.open_handles (proc w)) _ Ho (or_introl eq_refl) (fun x Hx _ => Hx) (fun x Hx => Hx)).
Qed.

(** A handle in hand goes into a new request. *)
Lemma request_ok h w0 w :
  hinv (List.filter is_valid [h] ++ []) [] w -> hkept w0 w ->
  wlp (InterfaceRequest_new h) w (fun _ w' => fine w0 w').
Proof.
  intros Hw K. eapply wlp_mono; [by eapply InterfaceRequest_new_ok|]. intros x w' (H1 & K1 & _).
  split; [done|by transitivity w].
Qed.

(** ** What programs require *)

Lemma is_handle_true a w : is_handle a w = true -> exists x, objs w !! a = Some (OHandle x).
Proof. unfold is_handle. destruct (objs w !! a) as [[]|]; eauto; done. Qed.
Lemma is_request_true a w : is_request a w = true -> exists x, objs w !! a = Some (ORequest x).
Proof. unfold is_request. destruct (objs w !! a) as [[]|]; eauto; done. Qed.
Lemma is_ptr_true a w : is_ptr a w = true -> exists x, objs w !! a = Some (OPtr x).
Proof. unfold is_ptr. destruct (objs w !! a) as [[]|]; eauto; done. Qed.
Lemma is_bound_ptr_true a w : is_bound_ptr a w = true -> exists x, objs w !! a = Some (OPtr x) /\ bound_state x.
Proof.
  unfold is_bound_ptr. destruct (objs w !! a) as [[| |s| |]|]; try done. intros [Hx|Hx%bool_decide_eq_true]%orb_true_iff.
  - exists s. split; [done|by left].
  - exists s. split; [done|by right].
Qed.
Lemma is_binding_true b a w : is_binding b a w = true ->
  exists x, objs w !! a = Some (OBinding x) /\ (forall s, connection_error_handler_ x <> StrongError s) /\
    match b with Some true => is_Some (internal_router_ x) | Some false => internal_router_ x = None | None => True end.
Proof.
  unfold is_binding. destruct (objs w !! a) as [[| | |x|]|]; try done. intros [Hx1 Hx2]%andb_true_iff. exists x.
  split; [done|]. split; [intros s Hs; by rewrite Hs in Hx1|].
  destruct b as [[]|]; [apply eqb_prop in Hx2|apply eqb_prop in Hx2|done].
  - symmetry in Hx2. by apply bool_decide_eq_true in Hx2.
  - symmetry in Hx2. apply bool_decide_eq_false in Hx2. by destruct (internal_router_ x); [destruct Hx2|].
Qed.
Lemma is_strong_true b a w : is_strong b a w = true ->
  exists y, objs w !! a = Some (OStrong y) /\
    match b with
    | Some true => exists x, objs w !! binding_ y = Some (OBinding x) /\ is_Some (internal_router_ x)
    | Some false => exists x, objs w !! binding_ y = Some (OBinding x) /\ internal_router_ x = None
    | None => True
    end.
Proof.
  unfold is_strong. destruct (objs w !! a) as [[| | | |y]|]; try done. intros Hx. exists y. split; [done|].
  destruct b as [b|]; [|done]. destruct (objs w !! binding_ y) as [[| | |x|]|]; try done.
  destruct b; apply eqb_prop in Hx; exists x; (split; [done|]); symmetry in Hx.
  - by apply bool_decide_eq_true in Hx.
  - apply bool_decide_eq_false in Hx. by destruct (internal_router_ x); [destruct Hx|].
Qed.

Lemma reset_ok p s l rs w :
  hinv l rs w -> objs w !! p = Some (OPtr s) -> wlp (reset debug p) w (fun _ w' => step_to l rs w w').
Proof. intros Hw Hp. eapply wlp_reset; [done|done|]. auto. Qed.
Lemma new_handle_ok x l rs w :
  hinv (List.filter is_valid [ih_handle_ x] ++ l) rs w -> wlp (new_object (OHandle x)) w (fun _ w' => step_to l rs w w').
Proof. intros Hw. apply wlp_new_object. apply step_new; [done|by left|done]. Qed.

(** * Running programs *)

(** An operation on an object that the program has, and the rest of the program. *)
Ltac required :=
  repeat match goal with
  | |- gwlp _ (keep_rule _ _ ≫= _) _ _ => unfold keep_rule at 1
  | |- gwlp _ (require _ ≫= _) _ _ => wlp_step; apply wlp_required; let Hx := fresh "Hreq" in intros Hx
  end;
  repeat match goal with
  | Hx : negb true || negb _ = true |- _ => apply negb_true_iff in Hx
  | Hx : is_handle _ _ = true |- _ => apply is_handle_true in Hx as (? & ?)
  | Hx : is_request _ _ = true |- _ => apply is_request_true in Hx as (? & ?)
  | Hx : is_ptr _ _ = true |- _ => apply is_ptr_true in Hx as (? & ?)
  | Hx : is_bound_ptr _ _ = true |- _ => apply is_bound_ptr_true in Hx as (? & ? & ?)
  | Hx : is_binding _ _ _ = true |- _ => apply is_binding_true in Hx as (? & ? & ? & ?)
  | Hx : is_strong (Some _) _ _ = true |- _ => apply is_strong_true in Hx as (? & ? & ? & ? & ?)
  | Hx : is_strong None _ _ = true |- _ => apply is_strong_true in Hx as (? & ? & ?)
  end.
(** A step after one that has been made. *)
Ltac step_after := let x := fresh in let w' := fresh in let Hs := fresh in
  intros x w' Hs; apply step_fine; eapply step_to_trans; [eassumption|first [exact Hs|exact (proj1 Hs)]].
Ltac then_ lemma := cbn beta in *; eapply wlp_mono; [eapply lemma; first [eassumption|eapply step_inv; eassumption]|step_after].
Ltac op lemma :=
  eapply then_ok; [by eapply lemma|let x := fresh in let w' := fresh in let Hs := fresh in
    intros x w' Hs; first [exact Hs|exact (proj1 Hs)|apply step_fine; exact Hs|destruct Hs as [Hs _]; apply step_fine; exact Hs]|done].
(** The binding at another address than the request is what it was. *)
Ltac into lemma Ho :=
  eapply wlp_mono;
    [eapply lemma; [eapply step_inv; eassumption|rewrite ?Ho, ?lookup_insert_ne by congruence; eassumption..]|step_after].
(** The object at [a] is still of its kind. *)
Ltac still a := match goal with
  | Ha : objs ?w !! a = Some _, Hs : InterfacesOps.step_to _ _ _ ?w _ |- _ =>
      destruct (proj2 (proj2 Hs) _ _ Ha) as ([] & ? & ?); try done
  end.

Section Run.
Context (run_callback : callback -> Z -> prog) (impl_destructor : impl -> prog).
Abbreviation run_calls := (run_calls debug interface_version memory true run_callback impl_destructor).

(** The rule for strong bindings makes every callback leave the one that is told. *)
Lemma watched_spares (c : M heap unit) o w :
  behaves debug c -> hinv [] [] w ->
  wlp (c;; keep_strong true o) w (fun _ w' => hinv [] [] w' /\ hkept w w' /\ from_option (fun s => is_strong None s w' = true) True o).
Proof.
  intros Hc Hw. wlp_step. eapply wlp_mono; [by apply Hc|]. intros [] w1 [H1 K1].
  destruct o as [s|]; cbn [keep_strong from_option]; [|by wlp_step]. apply wlp_required. done.
Qed.
Lemma watched_behaves (c : M heap unit) o : behaves debug c -> behaves debug (c;; keep_strong true o).
Proof. intros Hc w Hw. eapply wlp_mono; [by apply watched_spares|]. by intros [] w1 (? & ? & _). Qed.

Lemma run_calls_ok call : (forall a, behaves debug (call a)) -> forall a, behaves debug (run_calls call a).
Proof.
  intros Hcall a.
  induction a as [|h v k IH|x k IH|x y k IH|x v k IH|x k IH|x k IH|h k IH|x k IH|x y k IH|x h k IH|x k IH|x k IH
    |k IH|p k IH|p q k IH|p k IH|p x k IH|x k IH|p k IH|p f k IH|p v k IH|p f k IH|p k IH|p k IH|x k IH|p k IH
    |i k IH|b x k IH|b x k IH|b k IH|b k IH|b f k IH|b k IH|i k IH|s x k IH|s k IH|s k IH|s f k IH|s k IH|r res k IH|r id v k IH];
    intros w Hw; cbn [Interfaces.run_calls]; required.
  - by wlp_step.
  - eapply then2_ok; [by apply adopt_ok|intros [] w1 Hs1; then_ InterfaceHandle_new_ok|done].
  - op InterfaceHandle_move_ok.
  - op InterfaceHandle_assign_ok.
  - op set_version_ok.
  - eapply then2_ok; [by eapply PassHandle_ok|intros h w1 Hs1; by apply give_ok|done].
  - op InterfaceHandle_destructor_ok.
  - eapply then2_ok; [by apply adopt_ok|intros [] w1 Hs1; then_ InterfaceRequest_new_ok|done].
  - op InterfaceRequest_move_ok.
  - op InterfaceRequest_assign_ok.
  - eapply then2_ok; [by apply adopt_ok|intros [] w1 Hs1; still x; then_ InterfaceRequest_assign_value_ok|done].
  - eapply then2_ok; [by eapply PassMessagePipe_ok|intros h w1 [Hs1 _]; by apply give_ok|done].
  - op InterfaceRequest_destructor_ok.
  - op InterfacePtr_new_ok.
  - eapply then_ok; [by eapply InterfacePtr_move_ok, not_waiting|intros y w1; apply step_fine|done].
  - eapply then_ok; [by eapply InterfacePtr_assign_ok, not_waiting|intros y w1; apply step_fine|done].
  - op reset_ok.
  - eapply then2_ok; [by eapply InterfaceHandle_take_ok|intros y w1 [-> Hs1]; still p; then_ Bind_ok|done].
  - eapply then2_ok; [by eapply InterfaceHandle_take_ok|intros y w1 [-> Hs1]; then_ Create_ok|done].
  - op instance_ok.
  - op QueryVersion_ok.
  - op RequireVersion_ok.
  - op set_connection_error_handler_ok.
  - eapply then2_ok; [by eapply PassInterfaceHandle_ok|intros y w1 Hs1; then_ new_handle_ok|done].
  - op InterfacePtr_destructor_ok.
  - eapply then2_ok; [by eapply GetProxy_ok|intros h w1 (Hs1 & Hs2 & _); by eapply request_ok|done].
  - eapply then2_ok; [by eapply GetProxy_ptr_ok|intros h w1 (Hs1 & Hs2); by eapply request_ok|done].
  - op Binding_new_ok.
  - eapply then2_ok; [by eapply PassMessagePipe_ok|intros h w1 [Hs1 Ho1]; into Binding_Bind_ok Ho1|done].
  - op Binding_Bind_handle_ok.
  - op Close_ok.
  - eapply then2_ok; [by eapply Unbind_ok|intros h w1 (Hs1 & Hs2 & _); by eapply request_ok|done].
  - op set_binding_error_handler_ok.
  - op Binding_destructor_ok.
  - op StrongBinding_new_ok.
  - eapply then2_ok; [by eapply PassMessagePipe_ok|intros h w1 [Hs1 Ho1]; into StrongBinding_Bind_ok Ho1|done].
  - op StrongBinding_Close_ok.
  - eapply then2_ok; [by eapply StrongBinding_Unbind_ok|intros h w1 (Hs1 & Hs2 & _); by eapply request_ok|done].
  - op StrongBinding_set_error_handler_ok.
  - op StrongBinding_destructor_ok.
  - wlp_step. wlp_step. eapply then_ok; [apply connection_error_ok|done|done]; [|done..|].
    + intros f v. by apply watched_behaves.
    + intros f v w' Hw'. by apply watched_spares.
  - eapply then_ok; [apply version_response_ok; [intros; apply Hcall|done|done]|done|done].
Qed.

Lemma run_prog_ok fuel a : behaves debug (run_prog debug interface_version memory true run_callback impl_destructor fuel a).
Proof.
  revert a. induction fuel as [|fuel IH]; intros a; apply run_calls_ok; [done|exact IH].
Qed.

(** ** A program that keeps the rules runs as if there were none *)

Lemma keep_rule_watched b : watches (keep_rule true b) (keep_rule false b).
Proof.
  intros w. unfold keep_rule, require, mbind, M_bind, get. cbn. destruct (b w); [by right|by left].
Qed.
Lemma keep_strong_watched o : watches (keep_strong true o) (keep_strong false o).
Proof. destruct o; [apply keep_rule_watched|apply watches_refl]. Qed.

Section Watched.
Context (f g : callback -> Z -> M heap unit) (d e : impl -> M heap unit).
Context (fg : forall x v, watches (f x v) (g x v)) (de : forall i, watches (d i) (e i)).

Lemma version_response_watched r id version :
  watches (version_response debug f r id version) (version_response debug g r id version).
Proof. unfold version_response. repeat watch. apply fg. Qed.
Lemma connection_error_watched r result :
  watches (connection_error debug f d r result) (connection_error debug g e r result).
Proof.
  unfold connection_error, run_binding_handler, OnConnectionError, delete_impl.
  repeat first [watch|apply fg|apply de].
Qed.
End Watched.

Lemma run_calls_watched call call' a : (forall a, watches (call a) (call' a)) ->
  watches (run_calls call a) (Interfaces.run_calls debug interface_version memory false run_callback impl_destructor call' a).
Proof.
  intros Hcall. induction a; cbn [Interfaces.run_calls];
    repeat first [done|watch|apply keep_rule_watched].
  - apply connection_error_watched; [intros x v|done]. repeat first [done|watch|apply keep_strong_watched].
  - by apply version_response_watched.
Qed.

Lemma run_prog_watched fuel a :
  watches (run_prog debug interface_version memory true run_callback impl_destructor fuel a)
    (run_prog debug interface_version memory false run_callback impl_destructor fuel a).
Proof.
  revert a. induction fuel as [|fuel IH]; intros a; apply run_calls_watched; [|exact IH]. intros; apply watches_refl.
Qed.

Lemma empty_hinv hs l ls :
  MOJO_HANDLE_INVALID ∉ hs -> Forall (granted debug) l -> Forall (Forall (answer_ok false)) ls -> hinv [] [] (empty_heap hs l ls).
Proof.
  intros Hv Hl Hls. split; cbn; try done.
  - exact (new_process_owned debug hs l Hv Hl).
  - intros a. rewrite lookup_empty. by intros [].
  - constructor.
  - intros r. unfold owned_routers, collected. cbn. rewrite map_to_list_empty. split; [by intros ?%elem_of_nil|].
    intros (rw & Hr & _). by rewrite lookup_empty in Hr.
Qed.

(** C11: A program may do this with interface handles, requests, pointers, bindings and
    strong bindings: bind, move, assign, swap, reset, pass on, ask for and require versions,
    close, unbind, destroy, also while it is told of an error or given a version, and
    whichever waits fail and questions are answered. As long as it moves no pointer that
    waits for a version, and no error handler of a strong binding deletes the implementation
    and the binding - which is when the run that is watched for these rules does not stop -
    no assertion fails and no object,
    router, responder or wait is used after its end. Every pipe that these objects took over
    was given away, closed exactly once, or is held by exactly one of them and open; and the
    routers that exist are those that a pointer or a binding has, each of which has its own. *)
Theorem pipes_accounted hs l ls fuel a :
  MOJO_HANDLE_INVALID ∉ hs -> Forall (granted debug) l -> Forall (Forall (answer_ok false)) ls ->
  run_prog debug interface_version memory true run_callback impl_destructor fuel a (empty_heap hs l ls) <> OutOfFuel ->
  exists w,
    run_prog debug interface_version memory false run_callback impl_destructor fuel a (empty_heap hs l ls) = Ok (tt, w) /\
    took (Handles.trace (proc w)) ≡ₚ gone (Handles.trace (proc w)) ++ held w /\
    Forall no_stray (Handles.trace (proc w)) /\
    NoDup (held w) /\ Forall (fun h => h ∈ Handles.open_handles (proc w)) (held w) /\
    NoDup (owned_routers w) /\ forall r, alive w r = true <-> r ∈ owned_routers w.
Proof.
  intros Hv Hl Hls Hrules.
  destruct (watches_result _ _ _ _ (run_prog_watched fuel a) (run_prog_ok fuel a _ (empty_hinv hs l ls Hv Hl Hls)) Hrules)
    as ([] & w & Hrun & Hw & _). exists w. split; [exact Hrun|].
  assert (He : Handles.held (proc w) = []) by (unfold Handles.held; by rewrite (hi_scoped _ _ _ _ Hw)).
  destruct (hi_owned _ _ _ _ Hw) as [Hd Ho _ _ _ _ _ Hacc Hs _]. rewrite He, app_nil_r in *. cbn in Hd, Ho, Hacc.
  do 3 (split; [done|]). split; [by apply Forall_forall|]. split; [exact (hi_owners _ _ _ _ Hw)|].
  intros r. pose proof (hi_alive _ _ _ _ Hw r) as Ha. cbn in Ha. rewrite Ha. unfold alive.
  destruct (routers w !! r) as [rw|].
  - rewrite bool_decide_eq_true. split; [eauto|]. by intros (rw' & [= <-] & ?).
  - split; [done|]. by intros (rw' & ? & ?).
Qed.
End Run.
End Spec.
