(* ===== verification/InterfacesRoundtrip.v ===== *)
(** A handle that is bound to an interface pointer comes back from it as it was, whether or
    not the pointer was used in between; and programs that use interface pointers and
    bindings, run. *)
From stdpp Require Import base numbers list option gmap sets.
From Stdlib Require Import ZArith Lia.
From S2P Require Import Prelude Result CMem Buffer Descriptor Validate Router RouterFacts.
From S2P Require Import Message Serialization HandlesFacts ControlMessages ControlMessagesFacts ControlMessagesSpec.
From S2P Require Import Interfaces InterfacesFacts InterfacesSpec.
From Stdlib Require Import Permutation.
From S2P Require Handles.

(** ** Access to objects *)

Lemma wp_object_at w a o (Q : iobject -> heap -> Prop) : objs w !! a = Some o -> Q o w -> wp (object_at a) w Q.
Proof. intros Ha HQ. unfold object_at. do 2 wp_step. by rewrite Ha. Qed.
Lemma wp_set_object w a o o' (Q : unit -> heap -> Prop) :
  objs w !! a = Some o -> Q tt (set_objs (<[a := o']> (objs w)) (next_addr w) w) -> wp (set_object a o') w Q.
Proof. intros Ha HQ. unfold set_object. wp_step. eapply wp_object_at; [done|]. by wp_step. Qed.
Lemma wp_new_object w o (Q : addr -> heap -> Prop) :
  Q (next_addr w) (set_objs (<[next_addr w := o]> (objs w)) (S (next_addr w)) w) -> wp (new_object o) w Q.
Proof. intros HQ. unfold new_object. do 4 wp_step. by wp_step. Qed.
Lemma wp_delete_object w a o (Q : unit -> heap -> Prop) :
  objs w !! a = Some o -> Q tt (set_objs (delete a (objs w)) (next_addr w) w) -> wp (delete_object a) w Q.
Proof. intros Ha HQ. unfold delete_object. wp_step. eapply wp_object_at; [done|]. by wp_step. Qed.
Lemma wp_get_ptr w a x (Q : InterfacePtrState -> heap -> Prop) :
  objs w !! a = Some (OPtr x) -> Q x w -> wp (get_ptr a) w Q.
Proof. intros Ha HQ. unfold get_ptr. wp_step. by eapply wp_object_at. Qed.
Lemma wp_assertion debug b (w : heap) (Q : unit -> heap -> Prop) : b = true -> Q tt w -> wp (c_assert debug b) w Q.
Proof. intros -> HQ. unfold c_assert, MOJO_DCHECK. by destruct debug. Qed.

(** The addresses to come are free. *)
Definition addrs_ok (w : heap) : Prop := forall a, (next_addr w <= a)%nat -> objs w !! a = None.
Lemma addrs_below w : forallb (fun x => x.1 <? next_addr w)%nat (map_to_list (objs w)) = true -> addrs_ok w.
Proof.
  intros Hall a Ha. destruct (objs w !! a) as [o|] eqn:Ho; [|done]. exfalso.
  apply elem_of_map_to_list, list_elem_of_In in Ho. rewrite forallb_forall in Hall.
  specialize (Hall _ Ho). apply Nat.ltb_lt in Hall. cbn in Hall. lia.
Qed.

(** A router that has done nothing gives its pipe back, and ends without closing one. *)
Lemma unused_router h l : exists w1 w2 w3,
  WaitToReadMore (new_world h l) = Ok (tt, w1) /\ Connector_PassMessagePipe w1 = Ok (h, w2) /\ Router_destructor w2 = Ok (tt, w3) /\
  pipes_closed (trace w1) = 0%nat /\ pipes_closed (trace w2) = 0%nat /\ pipes_closed (trace w3) = 0%nat.
Proof.
  do 3 eexists. split; [vm_compute; reflexivity|]. split; [vm_compute; reflexivity|]. split; [vm_compute; reflexivity|].
  done.
Qed.

Section Roundtrip.
Context (debug : bool).

(** The state of [p] is taken into a temporary [d], and what is left of it ends there. *)
Lemma wp_swap_out p s w (Q : unit -> heap -> Prop) :
  objs w !! p = Some (OPtr s) -> addrs_ok w ->
  (forall w1, w1 = set_objs (<[next_addr w := OPtr s]> (<[p := OPtr unbound]> (objs w))) (S (next_addr w)) w -> Q tt w1) ->
  wp (Swap p (next_addr w)) (set_objs (<[next_addr w := OPtr unbound]> (objs w)) (S (next_addr w)) w) Q.
Proof.
  intros Hp Hn HQ. assert (Hd : objs w !! next_addr w = None) by (apply Hn; lia).
  assert (Hne : next_addr w <> p) by congruence.
  unfold Swap. wp_step. eapply wp_get_ptr; [cbn; by rewrite lookup_insert_ne|]. wp_step.
  eapply wp_get_ptr; [cbn; by rewrite lookup_insert_eq|]. wp_step.
  eapply wp_set_object; [cbn; by rewrite lookup_insert_ne|].
  eapply wp_set_object; [cbn; rewrite lookup_insert_ne by done; by rewrite lookup_insert_eq|]. cbn [objs set_objs next_addr].
  apply HQ. rewrite (insert_insert_ne _ p) by done. by rewrite insert_insert_eq.
Qed.

Lemma wp_destructor_empty d s w (Q : unit -> heap -> Prop) :
  objs w !! d = Some (OPtr s) -> router_ s = None -> is_valid (handle_ s) = false ->
  Q tt (set_objs (delete d (objs w)) (next_addr w) w) -> wp (InterfacePtrState_destructor debug d) w Q.
Proof.
  intros Hd Hr Hh HQ. unfold InterfacePtrState_destructor. wp_step. eapply wp_get_ptr; [done|]. rewrite Hr. do 2 wp_step.
  unfold close_member. rewrite Hh. cbn [negb]. do 2 wp_step. by eapply wp_delete_object.
Qed.

Lemma wp_reset_unbound p w (Q : unit -> heap -> Prop) :
  objs w !! p = Some (OPtr unbound) -> addrs_ok w -> Q tt (set_objs (objs w) (S (next_addr w)) w) -> wp (reset debug p) w Q.
Proof.
  intros Hp Hn HQ. assert (Hd : objs w !! next_addr w = None) by (apply Hn; lia).
  unfold reset. wp_step. apply wp_new_object. wp_step. eapply wp_swap_out; [done|done|]. intros w1 ->.
  eapply wp_destructor_empty; [cbn; by rewrite lookup_insert_eq|done|done|]. cbn.
  rewrite (insert_id _ p) by done. by rewrite delete_insert_id.
Qed.

(** What [Bind] makes of an unbound pointer. *)
Definition bound_to (info : InterfaceHandle) : InterfacePtrState :=
  {| proxy_ := None; router_ := None; handle_ := ih_handle_ info; waiter_ := true; version_ := ih_version_ info |}.

Lemma wp_Bind p info w (Q : unit -> heap -> Prop) :
  objs w !! p = Some (OPtr unbound) -> addrs_ok w -> is_valid (ih_handle_ info) = true ->
  Q tt (set_objs (<[p := OPtr (bound_to info)]> (objs w)) (S (next_addr w)) w) -> wp (Bind debug p info) w Q.
Proof.
  intros Hp Hn Hv HQ. unfold Bind. wp_step. apply wp_reset_unbound; [done|done|]. rewrite Hv. unfold State_Bind. wp_step.
  eapply wp_get_ptr; [exact Hp|]. do 6 (wp_step; apply wp_assertion; [done|]). wp_step. unfold close_member.
  change (is_valid (handle_ unbound)) with false. cbn [negb]. wp_step. eapply wp_set_object; [exact Hp|]. exact HQ.
Qed.

(** The pointer is given its router. *)
Lemma wp_instance p info w (Q : option rid -> heap -> Prop) :
  objs w !! p = Some (OPtr (bound_to info)) ->
  (forall r w1 rw1, objs w1 = <[p := OPtr {| proxy_ := Some r; router_ := Some r; handle_ := MOJO_HANDLE_INVALID;
                                            waiter_ := false; version_ := ih_version_ info |}]> (objs w) ->
     next_addr w1 = next_addr w -> proc w1 = proc w -> routers w1 !! r = Some rw1 ->
     (exists l, WaitToReadMore (new_world (ih_handle_ info) l) = Ok (tt, rw1)) -> Q (Some r) w1) ->
  wp (instance debug p) w Q.
Proof.
  intros Hp HQ. unfold instance. wp_step. unfold ConfigureProxyIfNecessary. wp_step. eapply wp_get_ptr; [done|].
  cbn [proxy_ waiter_ bound_to negb handle_ version_]. wp_step. unfold new_router. wp_step. wp_step.
  destruct (unused_router (ih_handle_ info) (default [] (head (router_answers w)))) as (rw1 & _ & _ & Hrw & _).
  wp_step. apply (wp_lift _ (tt, rw1)); [done|]. wp_step. wp_step. wp_step.
  eapply wp_set_object; [exact Hp|]. wp_step. eapply wp_get_ptr; [cbn; by rewrite lookup_insert_eq|]. wp_step.
  eapply HQ; [done|done|done|cbn; by rewrite lookup_insert_eq|by eexists].
Qed.

(** A call of a router that closes nothing. *)
Lemma wp_on_router {A} (c : M Router.world A) r rw a rw' w (Q : A -> heap -> Prop) :
  routers w !! r = Some rw -> c rw = Ok (a, rw') -> pipes_closed (trace rw) = 0%nat -> pipes_closed (trace rw') = 0%nat ->
  Q a (set_routers (<[r := rw']> (routers w)) w) -> wp (on_router debug r c) w Q.
Proof.
  intros Hr Hc H0 H1 HQ. unfold on_router. wp_step. wp_step. rewrite Hr. wp_step. apply (wp_lift _ (a, rw')); [done|].
  wp_step. wp_step. rewrite H0, H1. cbn. by do 3 wp_step.
Qed.

Lemma wp_Pass_unused p info w (Q : InterfaceHandle -> heap -> Prop) :
  objs w !! p = Some (OPtr (bound_to info)) -> addrs_ok w ->
  (forall w', objs w' = <[p := OPtr unbound]> (objs w) -> proc w' = proc w -> Q info w') ->
  wp (PassInterfaceHandle debug p) w Q.
Proof.
  intros Hp Hn HQ. assert (Hd : objs w !! next_addr w = None) by (apply Hn; lia).
  assert (Hne : next_addr w <> p) by congruence.
  unfold PassInterfaceHandle. wp_step. apply wp_new_object. wp_step. eapply wp_swap_out; [done|done|]. intros w1 ->.
  wp_step. unfold State_PassInterfaceHandle. wp_step. eapply wp_get_ptr; [cbn; by rewrite lookup_insert_eq|]. cbn [router_ bound_to].
  wp_step. wp_step. eapply wp_set_object; [cbn; by rewrite lookup_insert_eq|]. do 3 wp_step.
  eapply wp_destructor_empty; [cbn; by rewrite lookup_insert_eq|done|done|]. wp_step. destruct info. apply HQ; [|done].
  cbn. rewrite insert_insert_eq, delete_insert_id; [done|]. by rewrite lookup_insert_ne.
Qed.

Lemma wp_Pass_used p r rw1 info l w (Q : InterfaceHandle -> heap -> Prop) :
  objs w !! p = Some (OPtr {| proxy_ := Some r; router_ := Some r; handle_ := MOJO_HANDLE_INVALID;
                              waiter_ := false; version_ := ih_version_ info |}) ->
  addrs_ok w -> routers w !! r = Some rw1 -> WaitToReadMore (new_world (ih_handle_ info) l) = Ok (tt, rw1) ->
  (forall w', objs w' = <[p := OPtr unbound]> (objs w) -> proc w' = proc w -> Q info w') ->
  wp (PassInterfaceHandle debug p) w Q.
Proof.
  intros Hp Hn Hr Hw1 HQ. assert (Hd : objs w !! next_addr w = None) by (apply Hn; lia).
  assert (Hne : next_addr w <> p) by congruence.
  destruct (unused_router (ih_handle_ info) l) as (rw1' & rw2 & rw3 & E1 & E2 & E3 & P1 & P2 & P3). rewrite Hw1 in E1. injection E1 as <-.
  unfold PassInterfaceHandle. wp_step. apply wp_new_object. wp_step. eapply wp_swap_out; [done|done|]. intros w1 ->.
  wp_step. unfold State_PassInterfaceHandle. wp_step. eapply wp_get_ptr; [cbn; by rewrite lookup_insert_eq|]. cbn [router_ version_].
  wp_step. eapply wp_on_router; [exact Hr|exact E2|done|done|]. do 2 wp_step.
  unfold InterfacePtrState_destructor. wp_step. eapply wp_get_ptr; [cbn; by rewrite lookup_insert_eq|]. cbn [router_ handle_]. wp_step.
  unfold delete_router. eapply wp_on_router; [cbn; by rewrite lookup_insert_eq|exact E3|done|done|]. wp_step.
  unfold close_member. change (is_valid MOJO_HANDLE_INVALID) with false. cbn [negb]. wp_step.
  eapply wp_delete_object; [cbn; by rewrite lookup_insert_eq|]. wp_step. destruct info. apply HQ; [|done].
  cbn. rewrite delete_insert_id; [done|]. by rewrite lookup_insert_ne.
Qed.

(** C24: A handle with its version that is bound to an interface pointer comes back from
    [PassInterfaceHandle], and the pointer is unbound then: whether or not the pointer was
    used in between, and so whether it is the pointer or a router that had the pipe. No
    handle is closed, and no assertion fails. *)
Theorem Bind_PassInterfaceHandle_roundtrip p info (used : bool) w :
  objs w !! p = Some (OPtr unbound) -> addrs_ok w -> is_valid (ih_handle_ info) = true ->
  exists w', (Bind debug p info;;
              (if used then instance debug p;; mret tt else mret tt);;
              PassInterfaceHandle debug p) w = Ok (info, w') /\
    objs w' = objs w /\ proc w' = proc w.
Proof.
  intros Hp Hn Hv.
  assert (H : wp (Bind debug p info;; (if used then instance debug p;; mret tt else mret tt);; PassInterfaceHandle debug p) w
                (fun x w' => x = info /\ objs w' = objs w /\ proc w' = proc w)).
  { wp_step. eapply wp_Bind; [done..|]. set (w1 := set_objs _ _ w).
    assert (Hn1 : addrs_ok w1).
    { intros a Ha. cbn in Ha |- *. assert (objs w !! a = None) by (apply Hn; lia). rewrite lookup_insert_ne; [done|congruence]. }
    assert (Hp1 : objs w1 !! p = Some (OPtr (bound_to info))) by apply lookup_insert_eq.
    assert (Hend : <[p := OPtr unbound]> (objs w1) = objs w) by (cbn; by rewrite insert_insert_eq, insert_id).
    wp_step. destruct used.
    - wp_step. eapply wp_instance; [done|]. intros r w2 rw1 Ho2 Hn2 Hpr2 Hr2 [l Hl]. wp_step.
      eapply wp_Pass_used; [by rewrite Ho2, lookup_insert_eq| |done|done|].
      + intros a Ha. rewrite Hn2 in Ha. rewrite Ho2. specialize (Hn1 a Ha). rewrite lookup_insert_ne; [done|congruence].
      + intros w' Ho' Hpr'. split; [done|]. split; [|by rewrite Hpr', Hpr2]. rewrite Ho', Ho2, insert_insert_eq. exact Hend.
    - wp_step. eapply wp_Pass_unused; [done|done|]. intros w' Ho' Hpr'. split; [done|]. by rewrite Ho', Hpr'. }
  apply wp_run in H as (x & w' & Hrun & -> & Ho & Hpr). eauto.
Qed.

(** * Pointers that are moved while they wait for a version *)

(** The pointer at [p], on the router [r], has asked for the version and waits: the
    responder [x] for [id] is in the map of the router, and keeps the callback [f]. *)
Record waits_for (w : heap) (p : addr) (s : InterfacePtrState) (r : rid) (id : Z) (f : callback) : Prop := {
  wf_state : objs w !! p = Some (OPtr s);
  wf_bound : router_ s = Some r;
  wf_query : exists rw ro x, routers w !! r = Some rw /\ router rw = Some ro /\ error_ (connector_ ro) = false /\
    responders_ ro !! id = Some x /\ x ∈ responders_alive rw /\ queries w !! (r, x) = Some (p, f);
}.

(** The same as a check. *)
Definition waits_at (w : heap) (p : addr) (r : rid) (id : Z) (f : callback) : bool :=
  match objs w !! p, routers w !! r with
  | Some (OPtr s), Some rw =>
      match router rw with
      | Some ro =>
          bool_decide (router_ s = Some r) && negb (error_ (connector_ ro)) &&
          match responders_ ro !! id with
          | Some x => bool_decide (x ∈ responders_alive rw) && bool_decide (queries w !! (r, x) = Some (p, f))
          | None => false
          end
      | None => false
      end
  | _, _ => false
  end.
Lemma waits_at_true w p r id f : waits_at w p r id f = true -> exists s, waits_for w p s r id f.
Proof.
  unfold waits_at. destruct (objs w !! p) as [[| |s| |]|] eqn:Hp; try done.
  destruct (routers w !! r) as [rw|] eqn:Hr; [|done]. destruct (router rw) as [ro|] eqn:Hro; [|done].
  destruct (responders_ ro !! id) as [x|] eqn:Hx; [|by rewrite andb_false_r].
  intros [[Hs%bool_decide_eq_true He%negb_true_iff]%andb_true_iff [Ha%bool_decide_eq_true Hq%bool_decide_eq_true]%andb_true_iff]%andb_true_iff.
  exists s. split; [done..|]. by exists rw, ro, x.
Qed.

Lemma take_responder_run id rw ro x :
  router rw = Some ro -> error_ (connector_ ro) = false -> responders_ ro !! id = Some x -> x ∈ responders_alive rw ->
  exists rw', take_responder id rw = Ok (x, rw') /\ pipes_closed (trace rw') = pipes_closed (trace rw).
Proof.
  intros Hro He Hx Hal.
  assert (Hthis : this rw = Ok (ro, rw)) by (unfold this; erewrite run_bind; [|done]; by rewrite Hro).
  unfold take_responder. erewrite run_bind; [|exact Hthis]. rewrite He, Hx. eexists. split.
  - erewrite run_bind; [|unfold set_responder_map, update_this; erewrite run_bind; [done|exact Hthis]].
    erewrite run_bind; [|unfold check_responder; erewrite run_bind; [|done]; rewrite decide_True by exact Hal; done].
    by erewrite run_bind.
  - done.
Qed.

(** A response goes where the callback points, whatever is there. *)
Lemma version_response_goes_to run_callback w p s r id f version w1 :
  waits_for w p s r id f -> routers w1 = routers w -> queries w1 = queries w ->
  exists w2, objs w2 = objs w1 /\ version_response debug run_callback r id version w1 =
    (s ← get_ptr p;
     set_object p (OPtr {| proxy_ := proxy_ s; router_ := router_ s; handle_ := handle_ s;
                           waiter_ := waiter_ s; version_ := version |});;
     run_callback f version;;
     on_router debug r (delete_responder (default 0%nat (rw ← routers w !! r; ro ← router rw; responders_ ro !! id)))) w2.
Proof.
  intros [_ _ (rw & ro & x & Hr & Hro & He & Hx & Hal & Hq)] Hrs Hqs.
  destruct (take_responder_run id rw ro x Hro He Hx Hal) as (rw' & Hrun & Hc).
  set (w2 := set_queries (delete (r, x) (queries w)) (set_routers (<[r := rw']> (routers w1)) w1)).
  exists w2. split; [done|]. unfold version_response. erewrite run_bind.
  2: { unfold on_router. erewrite run_bind; [|done]. rewrite Hrs, Hr. erewrite run_bind; [|by unfold lift; rewrite Hrun].
    cbn beta iota. erewrite run_bind; [|done]. rewrite Hc, Nat.ltb_irrefl. erewrite run_bind; [|done]. done. }
  erewrite run_bind; [|done]. cbn [queries set_routers]. rewrite Hqs, Hq, Hr. cbn. rewrite Hro. cbn. rewrite Hx. unfold w2. by rewrite Hrs.
Qed.
End Roundtrip.

(** * Programs that use interface pointers and bindings, run *)

Import Samples.

Module InterfaceSamples.
(** The program of an example, with the code that it runs when it is called back. *)
Definition run_with := run_prog true 3 64 false.

(** A pointer on pipe 5 asks for the version and is told 7; a strong binding on a new pipe
    deletes its implementation, and is deleted with it, when the connection fails; then the
    pipe of the pointer is passed on, and closed. *)
Definition session : prog :=
  NewHandle 5 0 (fun x => CreatePtr x (fun p => SetPtrErrorHandler p 1 (CallQueryVersion p 2
    (Answer 0 1 7
    (NewHandle MOJO_HANDLE_INVALID 0 (fun y => CallGetProxy y (fun q => NewStrong 9 (fun s => BindStrong s q
    (Fail 1 MOJO_SYSTEM_RESULT_FAILED_PRECONDITION
    (CallPassInterfaceHandle p (fun z => DestroyHandle z Exit))))))))))).
(** The callback for the version requires one more; the implementation has the strong
    binding, which is at 7. *)
Definition session_callback (f : callback) (v : Z) : prog :=
  if (f =? 2)%nat then CallRequireVersion 2 (v + 1) Exit else Exit.
Definition session_destructor (i : impl) : prog := DestroyStrong 7 Exit.
Definition session_heap : heap :=
  empty_heap {[5]} [Handles.NewHandles [6; 7]] [[Written MOJO_RESULT_OK; Written MOJO_RESULT_OK]; []].
Definition session_run := run_with session_callback session_destructor 2 session session_heap.

(** A pointer that asks for the version. *)
Definition ask (f : callback) : prog := NewHandle 5 0 (fun x => CreatePtr x (fun p => CallQueryVersion p f Exit)).
Definition asked_heap : heap :=
  match run_with (fun _ _ => Exit) (fun _ => Exit) 0 (ask 1) (empty_heap {[5]} [] [[Written MOJO_RESULT_OK]]) with
  | Ok (_, w) => w
  | _ => empty_heap ∅ [] []
  end.
(** A strong binding whose error handler deletes the implementation, and with it the
    binding. *)
Definition delete_twice : prog :=
  NewStrong 9 (fun s => SetStrongErrorHandler s 1 (NewRequest 5 (fun q => BindStrong s q
    (Fail 0 MOJO_SYSTEM_RESULT_FAILED_PRECONDITION Exit)))).
Definition destroy_strong (f : callback) (v : Z) : prog := DestroyStrong 2 Exit.
Definition one_pipe : heap := empty_heap {[5]} [] [[Written MOJO_RESULT_OK]].

End InterfaceSamples.
Import InterfaceSamples.

Lemma session_runs : exists w, session_run = Ok (tt, w) /\
  Handles.trace (proc w) = [Handles.Closed 5; Handles.Closed 7; Handles.Took 7; Handles.Took 6; Handles.Took 5] /\
  held w = [6] /\ deleted_impls w = [9%nat].
Proof.
  destruct (outcome_returns session_run (fun x => match x.2 with
      | {| proc := {| Handles.trace := [Handles.Closed 5; Handles.Closed 7; Handles.Took 7; Handles.Took 6; Handles.Took 5] |} |} => true
      | _ => false end)) as ([[] w] & Hrun & _); [vm_compute; reflexivity|].
  exists w. split; [exact Hrun|]. revert Hrun. vm_compute. by intros [= <-].
Qed.

(** Control messages in the layout of the examples. *)
Lemma query_fits : words_ok (to_words {| run_reserved0 := 16; run_reserved1 := 0; query_version := Some tt |}).
Proof. repeat split; simpl; lia. Qed.
Lemma require_fits version : is_u32 version = true ->
  words_ok (to_words {| close_reserved0 := 16; close_reserved1 := 0; require_version := Some {| required_version := version |} |}).
Proof. intros [H1%Z.leb_le H2%Z.ltb_lt]%andb_true_iff. repeat split; simpl; lia. Qed.

Lemma pipes_accounted_witness :
  exists w, session_run = Ok (tt, w) /\
    took (Handles.trace (proc w)) ≡ₚ gone (Handles.trace (proc w)) ++ [6] /\ deleted_impls w = [9%nat].
Proof.
  destruct session_runs as (w & Hrun & _ & Hheld & Hdel). exists w. split; [exact Hrun|]. split; [|exact Hdel].
  assert (Hm : 0 < 64 < 2 ^ 63 /\ IsAligned 64 = true) by (split; [lia|reflexivity]).
  assert (Hs : MOJO_HANDLE_INVALID ∉ ({[5]} : gset Z)) by (intros H%elem_of_singleton; done).
  assert (Ha : Forall (Forall (answer_ok false)) [[Written MOJO_RESULT_OK; Written MOJO_RESULT_OK]; []])
    by (repeat constructor; done).
  destruct (pipes_accounted true 3 64 Hm query_fits require_fits
    session_callback session_destructor {[5]} [Handles.NewHandles [6; 7]]
    [[Written MOJO_RESULT_OK; Written MOJO_RESULT_OK]; []] 2 session Hs ltac:(repeat constructor) Ha) as (w' & Hrun' & Hacc & _).
  - apply outcome_goes_on. vm_compute. reflexivity.
  - change (run_prog _ _ _ _ _ _ _ _ _) with session_run in Hrun'. rewrite Hrun in Hrun'. injection Hrun' as ->.
    rewrite <- Hheld. exact Hacc.
Defined.

(** An unbound pointer at 1, and a handle of version 4. *)
Lemma Bind_PassInterfaceHandle_roundtrip_witness :
  exists w', (Bind true 1%nat {| ih_handle_ := 5; ih_version_ := 4 |};;
              (instance true 1%nat;; mret tt);;
              PassInterfaceHandle true 1%nat) (set_objs {[1%nat := OPtr unbound]} 2 one_pipe) =
            Ok ({| ih_handle_ := 5; ih_version_ := 4 |}, w') /\ proc w' = proc one_pipe.
Proof.
  destruct (Bind_PassInterfaceHandle_roundtrip true 1%nat {| ih_handle_ := 5; ih_version_ := 4 |} true
    (set_objs {[1%nat := OPtr unbound]} 2 one_pipe)) as (w' & Hrun & _ & Hp);
    [reflexivity|intros a Ha; apply lookup_singleton_ne; simpl in Ha; lia|reflexivity|].
  exists w'. by split.
Defined.

(** * Programs that break the rules *)

(** C37: The callback of [QueryVersion] captures where the state of the pointer is, and not
    the pointer. Whatever pointer waits for a version: when it is moved, the router goes to
    the new pointer, which stays bound to it, but the response is delivered to the old one.
    There the version is written, and the new pointer keeps the version that it had. And if
    the old one was destroyed in between, the version is written to an object that does not
    exist. *)
Theorem moved_pointer_dangles debug run_callback p s r id f version w :
  waits_for w p s r id f -> addrs_ok w ->
  exists w1, InterfacePtr_move p w = Ok (next_addr w, w1) /\
    objs w1 !! next_addr w = Some (OPtr s) /\ objs w1 !! p = Some (OPtr unbound) /\
    (exists w2, objs w2 !! next_addr w = Some (OPtr s) /\
       objs w2 !! p = Some (OPtr {| proxy_ := None; router_ := None; handle_ := MOJO_HANDLE_INVALID;
                                    waiter_ := false; version_ := version |}) /\
       version_response debug run_callback r id version w1 =
       (run_callback f version;;
        on_router debug r (delete_responder (default 0%nat (rw ← routers w !! r; ro ← router rw; responders_ ro !! id)))) w2) /\
    exists w3, InterfacePtr_destructor debug p w1 = Ok (tt, w3) /\
      version_response debug run_callback r id version w3 = Fault.
Proof.
  intros Hw Hn. pose proof (wf_state _ _ _ _ _ _ Hw) as Hp. set (q := next_addr w).
  assert (Hq : objs w !! q = None) by (apply Hn; unfold q; lia). assert (Hne : q <> p) by congruence.
  set (w1 := set_objs (<[p := OPtr unbound]> (<[q := OPtr s]> (objs w))) (S q) w).
  assert (Hp1 : objs w1 !! p = Some (OPtr unbound)) by apply lookup_insert_eq.
  assert (Hq1 : objs w1 !! q = Some (OPtr s)) by (cbn; by rewrite lookup_insert_ne, lookup_insert_eq).
  exists w1. split; [|split; [exact Hq1|split; [exact Hp1|split]]].
  - assert (Hmove : wp (InterfacePtr_move p) w (fun x w' => x = q /\ w' = w1)).
    { unfold InterfacePtr_move. wp_step. apply wp_new_object. fold q. wp_step. unfold Swap. wp_step.
      eapply wp_get_ptr; [cbn; apply lookup_insert_eq|]. wp_step.
      eapply wp_get_ptr; [cbn; by rewrite lookup_insert_ne|]. wp_step.
      eapply wp_set_object; [cbn; apply lookup_insert_eq|].
      eapply wp_set_object; [cbn; by rewrite !lookup_insert_ne|]. wp_step. split; [done|].
      unfold w1. cbn. by rewrite insert_insert_eq. }
    by apply wp_run in Hmove as (x & w' & Hrun & -> & ->).
  - destruct (version_response_goes_to debug run_callback w p s r id f version w1 Hw eq_refl eq_refl) as (w2 & Ho & Hresp).
    exists (set_objs (<[p := OPtr {| proxy_ := None; router_ := None; handle_ := MOJO_HANDLE_INVALID;
                                     waiter_ := false; version_ := version |}]> (objs w2)) (next_addr w2) w2).
    split; [cbn; by rewrite lookup_insert_ne, Ho|]. split; [apply lookup_insert_eq|]. rewrite Hresp.
    rewrite <- Ho in Hp1. unfold get_ptr, set_object, object_at. cbv [mbind M_bind get mret M_ret lift modify].
    rewrite Hp1. cbn. by rewrite Hp1.
  - set (w3 := set_objs (delete p (objs w1)) (next_addr w1) w1). exists w3. split.
    + assert (Hend : wp (InterfacePtr_destructor debug p) w1 (fun _ w' => w' = w3)) by by eapply wp_destructor_empty.
      by apply wp_run in Hend as ([] & w' & Hrun & ->).
    + destruct (version_response_goes_to debug run_callback w p s r id f version w3 Hw eq_refl eq_refl) as (w2 & Ho & Hresp).
      rewrite Hresp. assert (Hp3 : objs w2 !! p = None) by (rewrite Ho; apply lookup_delete_eq).
      unfold get_ptr, object_at. cbv [mbind M_bind get]. by rewrite Hp3.
Qed.

Lemma moved_pointer_dangles_witness : exists r id w1 w3,
  InterfacePtr_move 2 asked_heap = Ok (4%nat, w1) /\ InterfacePtr_destructor true 2 w1 = Ok (tt, w3) /\
  version_response true (fun _ _ => mret tt) r id 7 w3 = Fault.
Proof.
  assert (Hw : exists s, waits_for asked_heap 2 s 0 1 1).
  { apply waits_at_true. vm_compute. reflexivity. }
  assert (Hn : addrs_ok asked_heap).
  { apply addrs_below. vm_compute. reflexivity. }
  destruct Hw as [s Hw].
  destruct (moved_pointer_dangles true (fun _ _ => mret tt) 2 s 0 1 1 7 asked_heap Hw Hn)
    as (w1 & Hmove & _ & _ & _ & w3 & Hend & Hresp).
  exists 0%nat, 1, w1, w3. split; [exact Hmove|by split].
Defined.

(** An error handler of a strong binding that deletes the implementation has it deleted
    again, through a binding that is gone. *)
Lemma strong_handler_deletes_twice debug :
  run_prog debug 3 64 false destroy_strong (fun _ => Exit) 1 delete_twice one_pipe = Fault /\
  run_prog debug 3 64 true destroy_strong (fun _ => Exit) 1 delete_twice one_pipe = OutOfFuel.
Proof. destruct debug; vm_compute; split; reflexivity. Qed.
