(* ===== verification/BindingSets.v ===== *)
(** Sets of bindings, clients of the bindings of Interfaces:
    src/cpp/bindings/binding_set.h and strong_binding_set.h. *)
From stdpp Require Import base numbers list option gmap sets.
From Stdlib Require Import ZArith Lia.
From S2P Require Import Prelude Result Serialization Router Interfaces.
From S2P Require Handles.

(** * Objects

    A set has an identity, and so has the function that it gives a binding as its error
    handler, which captures the set and the binding. A [std::unique_ptr] is a binding or
    null. [impls] are the implementations that were not deleted. *)
Abbreviation sid := nat.

Record BindingSet := {
  is_strong : bool;
  bindings_ : list (option addr);
}.

(** [busy]: the sets whose code runs, for the rules. *)
Record world := {
  ifaces : heap;
  binding_sets : gmap sid BindingSet;
  closures : gmap callback (sid * addr);
  impls : gset impl;
  deleted : list impl;
  next_name : nat;
  busy : list sid;
}.
Definition empty_world (h : heap) : world :=
  {| ifaces := h; binding_sets := ∅; closures := ∅; impls := ∅; deleted := []; next_name := 0; busy := [] |}.

Definition set_ifaces (x : heap) (w : world) : world :=
  {| ifaces := x; binding_sets := binding_sets w; closures := closures w; impls := impls w; deleted := deleted w;
     next_name := next_name w; busy := busy w |}.
Definition set_sets (x : gmap sid BindingSet) (w : world) : world :=
  {| ifaces := ifaces w; binding_sets := x; closures := closures w; impls := impls w; deleted := deleted w;
     next_name := next_name w; busy := busy w |}.
Definition set_closures (x : gmap callback (sid * addr)) (w : world) : world :=
  {| ifaces := ifaces w; binding_sets := binding_sets w; closures := x; impls := impls w; deleted := deleted w;
     next_name := next_name w; busy := busy w |}.
Definition set_impls (x : gset impl) (d : list impl) (w : world) : world :=
  {| ifaces := ifaces w; binding_sets := binding_sets w; closures := closures w; impls := x; deleted := d;
     next_name := next_name w; busy := busy w |}.
Definition set_busy (x : list sid) (w : world) : world :=
  {| ifaces := ifaces w; binding_sets := binding_sets w; closures := closures w; impls := impls w; deleted := deleted w;
     next_name := next_name w; busy := x |}.
Definition bump (w : world) : world :=
  {| ifaces := ifaces w; binding_sets := binding_sets w; closures := closures w; impls := impls w; deleted := deleted w;
     next_name := S (next_name w); busy := busy w |}.

Definition on_ifaces {A} (c : M heap A) : M world A := fun w =>
  '(a, h) ← c (ifaces w); mret (a, set_ifaces h w).
Definition new_name : M world nat := w ← get; put (bump w);; mret (next_name w).

Definition set_at (this : sid) : M world BindingSet := w ← get; lift (of_option (binding_sets w !! this)).
Definition vector (this : sid) : M world (list (option addr)) := s ← set_at this; mret (bindings_ s).
Definition set_vector (this : sid) (v : list (option addr)) : M world unit :=
  s ← set_at this;
  modify (fun w => set_sets (<[this := {| is_strong := is_strong s; bindings_ := v |}]> (binding_sets w)) w).

Section Code.
Context (debug : bool).

(** [std::unique_ptr::reset] of what it was. *)
Definition reset_ptr (x : option addr) : M world unit :=
  match x with Some b => on_ifaces (Binding_destructor debug b) | None => mret tt end.
(** [vector::erase] of one element. *)
Definition erase (this : sid) (it : nat) : M world unit :=
  v ← vector this;
  x ← lift (of_option (v !! it));
  set_vector this (delete it v);;
  reset_ptr x.

(** What an iterator refers to, if the vector is what it was. *)
Definition still_valid (this : sid) (v : list (option addr)) : M world unit :=
  v' ← vector this; if bool_decide (v' = v) then mret tt else lift Fault.

Section Destructor.
(** Runs the destructor of an implementation. *)
Context (impl_destructor : impl -> M world unit).

Definition delete_impl (i : impl) : M world unit :=
  w ← get;
  if bool_decide (i ∈ impls w) then
    put (set_impls (impls w ∖ {[i]}) (i :: deleted w) w);; impl_destructor i
  else lift Fault.
Definition while_busy (this : sid) (c : M world unit) : M world unit :=
  modify (fun w => set_busy (this :: busy w) w);; c;; modify (fun w => set_busy (tail (busy w)) w).

(** Of the implementation of what an iterator refers to. *)
Definition delete_impl_of (x : option addr) : M world unit :=
  b ← lift (of_option x); y ← on_ifaces (get_binding b); delete_impl (impl_ y).

(** The function that [AddBinding] makes. *)
Definition run_closure (this : sid) (binding : addr) : M world unit :=
  s ← set_at this;
  let it := fst <$> list_find (fun x => x = Some binding) (bindings_ s) in
  MOJO_DCHECK debug (bool_decide (is_Some it));;
  it ← lift (of_option it);
  (if is_strong s then delete_impl_of (Some binding);; still_valid this (bindings_ s) else mret tt);;
  erase this it.

Definition AddBinding (this : sid) (i : impl) (request : Z) : M world unit :=
  binding ← on_ifaces (b ← Binding_new i; Binding_Bind debug b request;; mret b);
  v ← vector this;
  set_vector this (v ++ [Some binding]);;
  f ← new_name;
  modify (fun w => set_closures (<[f := (this, binding)]> (closures w)) w);;
  on_ifaces (set_binding_error_handler binding (UserHandler f)).

(** [std::remove_if], as libstdc++ and libc++ have it, and the predicate. *)
Definition pred (i : impl) (x : option addr) : M world bool :=
  b ← lift (of_option x); y ← on_ifaces (get_binding b); mret (impl_ y =? i)%nat.
Fixpoint find_if (i : impl) (v : list (option addr)) : M world nat :=
  match v with
  | [] => mret 0%nat
  | x :: v => m ← pred i x; if m : bool then mret 0%nat else n ← find_if i v; mret (S n)
  end.
Definition move_assign (this : sid) (to from : nat) : M world unit :=
  v ← vector this;
  x ← lift (of_option (v !! from));
  old ← lift (of_option (v !! to));
  set_vector this (<[to := x]> (<[from := None]> v));;
  reset_ptr old.
Fixpoint remove_rest (this : sid) (i : impl) (result : nat) (l : list nat) : M world nat :=
  match l with
  | [] => mret result
  | j :: l =>
      v ← vector this;
      x ← lift (of_option (v !! j));
      m ← pred i x;
      if m : bool then remove_rest this i result l
      else move_assign this result j;; remove_rest this i (S result) l
  end.
Definition remove_if (this : sid) (i : impl) : M world nat :=
  v ← vector this;
  first ← find_if i v;
  remove_rest this i first (seq (S first) (length v - S first)).
(** [StrongBindingSet::RemoveBindings] *)
Definition RemoveBindings (this : sid) (i : impl) : M world unit :=
  it ← remove_if this i; erase this it.

Definition clear (this : sid) : M world unit :=
  v ← vector this;
  for_each (R := False) v (fun x => reset_ptr x;; mret None);;
  set_vector this [].
Definition CloseAllBindings (this : sid) : M world unit :=
  s ← set_at this;
  (if is_strong s then
     for_each (R := False) (bindings_ s) (fun x => delete_impl_of x;; still_valid this (bindings_ s);; mret None);; mret tt
   else mret tt);;
  clear this.
Definition BindingSet_size (this : sid) : M world nat := v ← vector this; mret (length v).
Definition BindingSet_new (strong : bool) : M world sid :=
  s ← new_name;
  modify (fun w => set_sets (<[s := {| is_strong := strong; bindings_ := [] |}]> (binding_sets w)) w);;
  mret s.
Definition BindingSet_destructor (this : sid) : M world unit :=
  CloseAllBindings this;; modify (fun w => set_sets (delete this (binding_sets w)) w).
End Destructor.

(** The waiter tells the connector of a router, which tells the binding, whose handler is a
    function of a set. *)
Definition connection_error (call : impl -> M world unit) (r : rid) (result : MojoResult) : M world unit :=
  on_ifaces (on_router debug r (signal_error debug result));;
  w ← get;
  match error_handlers (ifaces w) !! r with
  | Some (RunBindingHandler b) =>
      y ← on_ifaces (get_binding b);
      match connection_error_handler_ y with
      | UserHandler f =>
          match closures w !! f with
          | Some (s, binding) => while_busy s (run_closure call s binding)
          | None => mret tt
          end
      | _ => mret tt
      end
  | _ => mret tt
  end.

(** * Programs

    Code that uses sets, and what happens to it: [Fail] is a wait of a router that fails.
    The rules: an implementation is in one strong set, once; the one that is removed is in
    the set; and while the code of a set runs, the destructors that it runs leave the set
    alone, and its other bindings do not fail. With [rules] the program is watched, and ends
    when it breaks one; without, the code runs on. *)
Inductive prog :=
  | Exit
  | NewImpl (k : impl -> prog)
  | NewSet (strong : bool) (k : sid -> prog)
  | Add (s : sid) (i : impl) (h : Z) (k : prog)
  | Remove (s : sid) (i : impl) (k : prog)
  | CloseAll (s : sid) (k : prog)
  | Size (s : sid) (k : nat -> prog)
  | DestroySet (s : sid) (k : prog)
  | Fail (r : rid) (result : MojoResult) (k : prog).

Definition impls_in (w : world) (s : BindingSet) : list impl :=
  bindings_ s ≫= fun x =>
    match x with
    | Some b => match objs (ifaces w) !! b with Some (OBinding y) => [impl_ y] | _ => [] end
    | None => []
    end.
Definition owned_impls (w : world) : list impl :=
  map_to_list (binding_sets w) ≫= fun x => if is_strong x.2 then impls_in w x.2 else [].

Definition require (b : world -> bool) : M world unit := w ← get; if b w then mret tt else lift OutOfFuel.
Definition is_set (s : sid) (w : world) : bool := bool_decide (is_Some (binding_sets w !! s)).
Definition is_strong_set (s : sid) (w : world) : bool :=
  match binding_sets w !! s with Some x => is_strong x | None => false end.

Section Run.
Context (rules : bool).
Context (impl_destructor : impl -> prog).

Definition keep_rule (b : world -> bool) : M world unit := require (fun w => negb rules || b w).
Definition idle (s : sid) (w : world) : bool := bool_decide (s ∉ busy w).
Definition may_add (s : sid) (i : impl) (w : world) : bool :=
  idle s w &&
  match binding_sets w !! s with
  | Some x => negb (is_strong x) || bool_decide (i ∈ impls w) && bool_decide (i ∉ owned_impls w)
  | None => false
  end.
Definition may_remove (s : sid) (i : impl) (w : world) : bool :=
  idle s w &&
  match binding_sets w !! s with
  | Some x => bool_decide (i ∈ impls_in w x)
  | None => false
  end.

(** The set whose binding is told of an error of a router. *)
Definition may_fail (r : rid) (w : world) : bool :=
  match error_handlers (ifaces w) !! r with
  | Some (RunBindingHandler b) =>
      match objs (ifaces w) !! b with
      | Some (OBinding y) =>
          match connection_error_handler_ y with
          | UserHandler f => match closures w !! f with Some (s, _) => idle s w | None => true end
          | _ => true
          end
      | _ => true
      end
  | _ => true
  end.

Fixpoint run_calls (call : prog -> M world unit) (a : prog) : M world unit :=
  let run_calls := run_calls call in
  let destructor := fun i => call (impl_destructor i) in
  match a with
  | Exit => mret tt
  | NewImpl k => i ← new_name; modify (fun w => set_impls ({[i]} ∪ impls w) (deleted w) w);; run_calls (k i)
  | NewSet strong k => s ← BindingSet_new strong; run_calls (k s)
  | Add s i h k =>
      require (is_set s);; keep_rule (may_add s i);; on_ifaces (adopt h);; AddBinding s i h;; run_calls k
  | Remove s i k => require (is_strong_set s);; keep_rule (may_remove s i);; RemoveBindings s i;; run_calls k
  | CloseAll s k =>
      require (is_set s);; keep_rule (idle s);; while_busy s (CloseAllBindings destructor s);; run_calls k
  | Size s k => require (is_set s);; n ← BindingSet_size s; run_calls (k n)
  | DestroySet s k =>
      require (is_set s);; keep_rule (idle s);; while_busy s (BindingSet_destructor destructor s);; run_calls k
  | Fail r result k =>
      require (fun w => alive (ifaces w) r);; keep_rule (may_fail r);; connection_error destructor r result;; run_calls k
  end.

(** [fuel] bounds the depth of destructors. *)
Fixpoint run_prog (fuel : nat) : prog -> M world unit :=
  run_calls (match fuel with O => fun _ => lift OutOfFuel | S fuel' => run_prog fuel' end).
End Run.
End Code.
