(* ===== verification/BindingSetsFacts.v ===== *)
(** What holds of sets of bindings between any two calls of a program, and what the
    changes that their operations make do to it; and the operations that run no code of the
    program. *)
From stdpp Require Import base numbers list option gmap sets.
From Stdlib Require Import ZArith Lia.
From S2P Require Import Prelude Result Serialization Router RouterFacts HandlesFacts.
From S2P Require Import Interfaces InterfacesFacts InterfacesOps InterfacesBinding InterfacesStrong BindingSets.
From Stdlib Require Import Permutation.
From S2P Require Handles.
Definition bindings_of (x : BindingSet) : list addr := omap id (bindings_ x).
Definition all_bindings (w : world) : list addr := map_to_list (binding_sets w) ≫= fun x => bindings_of x.2.

Section Facts.
Context (debug : bool).

(** A strong set owns the implementation of a binding that is in it, if that was not
    deleted, as those of [G] were. *)
Definition owns (G : list addr) (w : world) (b : addr) (i : impl) : Prop :=
  exists s x y, binding_sets w !! s = Some x /\ is_strong x = true /\ b ∈ bindings_of x /\ b ∉ G /\
    objs (ifaces w) !! b = Some (OBinding y) /\ impl_ y = i.

(** What a set has given its binding. *)
Definition bound_to (w : world) (s : sid) (b : addr) : Prop :=
  exists y f, objs (ifaces w) !! b = Some (OBinding y) /\ connection_error_handler_ y = UserHandler f /\
    closures w !! f = Some (s, b).

Record sinv (G : list addr) (w : world) : Prop := {
  si_heap : hinv debug [] [] (ifaces w);
  si_full : forall s x, binding_sets w !! s = Some x -> bindings_ x = Some <$> bindings_of x;
  si_once : NoDup (all_bindings w);
  si_bound : forall s x b, binding_sets w !! s = Some x -> b ∈ bindings_of x -> bound_to w s b;
  si_only : forall a o, objs (ifaces w) !! a = Some o -> a ∈ all_bindings w;
  si_impls : forall b i, owns G w b i -> i ∈ impls w /\ forall b', owns G w b' i -> b' = b;
  si_gone : forall b, b ∈ G -> exists s x, s ∈ busy w /\ binding_sets w !! s = Some x /\ b ∈ bindings_of x;
  si_fresh : forall n, (next_name w <= n)%nat ->
    binding_sets w !! n = None /\ closures w !! n = None /\ n ∉ impls w /\ n ∉ deleted w;
  si_deleted : NoDup (deleted w) /\ forall i, i ∈ deleted w -> i ∉ impls w;
  si_names : forall s, s ∈ busy w -> (s < next_name w)%nat;
}.

Lemma sinv_ext G G' w : sinv G w -> (forall b, b ∈ G <-> b ∈ G') -> sinv G' w.
Proof.
  intros [] HG.
  assert (Ho : forall b i, owns G' w b i -> owns G w b i).
  { intros b i (s & x & y & ? & ? & ? & Hb & ?). exists s, x, y. rewrite HG. done. }
  split; try done.
  - intros b i Hb. destruct (si_impls0 b i (Ho _ _ Hb)) as [? Hu]. split; [done|]. intros b' Hb'. by apply Hu, Ho.
  - intros b. rewrite <- HG. apply si_gone0.
Qed.

Lemma elem_of_all w b : b ∈ all_bindings w <-> exists s x, binding_sets w !! s = Some x /\ b ∈ bindings_of x.
Proof.
  unfold all_bindings. rewrite list_elem_of_bind. split.
  - intros ([s x] & Hb & Hs%elem_of_map_to_list). eauto.
  - intros (s & x & Hs & Hb). exists (s, x). split; [done|by apply elem_of_map_to_list].
Qed.
Lemma all_delete w s x :
  binding_sets w !! s = Some x -> all_bindings w ≡ₚ bindings_of x ++ all_bindings (set_sets (delete s (binding_sets w)) w).
Proof. apply (collect_delete bindings_of). Qed.
Lemma all_update w s x x' : binding_sets w !! s = Some x ->
  all_bindings (set_sets (<[s := x']> (binding_sets w)) w) ≡ₚ
  bindings_of x' ++ all_bindings (set_sets (delete s (binding_sets w)) w).
Proof.
  intros Hs. rewrite (all_delete _ s x') by (cbn; apply lookup_insert_eq).
  unfold all_bindings. cbn. by rewrite delete_insert_eq.
Qed.

(** A binding is in one set. *)
Lemma one_set G w s s' x x' b : sinv G w -> binding_sets w !! s = Some x -> binding_sets w !! s' = Some x' ->
  b ∈ bindings_of x -> b ∈ bindings_of x' -> s' = s.
Proof.
  intros Hw Hs Hs' Hb Hb'. destruct (decide (s' = s)) as [|Hne]; [done|]. pose proof (si_once _ _ Hw) as Hn.
  rewrite (all_delete _ _ _ Hs) in Hn. apply NoDup_app in Hn as (_ & Hn & _). destruct (Hn b Hb).
  apply elem_of_all. exists s', x'. cbn. by rewrite lookup_delete_ne.
Qed.
Lemma bindings_once G w s x : sinv G w -> binding_sets w !! s = Some x -> NoDup (bindings_of x).
Proof. intros Hw Hs. pose proof (si_once _ _ Hw) as Hn. rewrite (all_delete _ _ _ Hs) in Hn. by apply NoDup_app in Hn as (? & _). Qed.
Lemma somes (D : list addr) : omap id (Some <$> D) = D.
Proof. induction D as [|b D IH]; [done|]. cbn. by rewrite IH. Qed.
Lemma in_vector x b : Some b ∈ bindings_ x <-> b ∈ bindings_of x.
Proof. unfold bindings_of. rewrite list_elem_of_omap. split; [by exists (Some b)|]. intros (y & Hy & He). unfold id in He. by subst. Qed.

(** * Changes *)

(** The same names, implementations and running code. *)
Definition same_names (w w' : world) : Prop :=
  closures w' = closures w /\ impls w' = impls w /\ deleted w' = deleted w /\ next_name w' = next_name w /\ busy w' = busy w.

(** The bindings [D] leave a set, and are gone. *)
Lemma sinv_remove G G' w w' s x x' D :
  sinv G w -> binding_sets w !! s = Some x -> is_strong x' = is_strong x -> bindings_ x ≡ₚ (Some <$> D) ++ bindings_ x' ->
  bindings_ x' = Some <$> bindings_of x' -> hinv debug [] [] (ifaces w') ->
  (forall a, objs (ifaces w') !! a = if decide (a ∈ D) then None else objs (ifaces w) !! a) ->
  binding_sets w' = <[s := x']> (binding_sets w) -> same_names w w' -> (forall b, b ∈ G' <-> b ∈ G /\ b ∉ D) -> sinv G' w'.
Proof.
  intros Hw Hs Hst Hp Hfull Hh Hobj Hsets (Hc & Hi & Hdel & Hn & Hb) HG.
  assert (Hof : bindings_of x ≡ₚ D ++ bindings_of x').
  { unfold bindings_of. rewrite Hp, omap_app. by rewrite somes. }
  assert (Hall : all_bindings w ≡ₚ D ++ all_bindings w').
  { assert (He : all_bindings w' = all_bindings (set_sets (<[s := x']> (binding_sets w)) w)) by (unfold all_bindings; by rewrite Hsets).
    rewrite He, (all_update _ _ _ _ Hs), (all_delete _ _ _ Hs), Hof. by rewrite app_assoc. }
  pose proof (si_once _ _ Hw) as Hnd. rewrite Hall in Hnd. apply NoDup_app in Hnd as (HndD & Hdisj & Hnd').
  assert (Hold : forall s0 x0 b, binding_sets w' !! s0 = Some x0 -> b ∈ bindings_of x0 ->
    b ∉ D /\ exists x1, binding_sets w !! s0 = Some x1 /\ is_strong x1 = is_strong x0 /\ b ∈ bindings_of x1).
  { intros s0 x0 b H0 Hb0. split.
    - intros HD. apply (Hdisj b HD). apply elem_of_all. eauto.
    - rewrite Hsets in H0. apply lookup_insert_Some in H0 as [[<- <-]|[Hne H0]]; [|eauto].
      exists x. rewrite Hof, elem_of_app. auto. }
  assert (Howns : forall b i, owns G' w' b i -> owns G w b i).
  { intros b i (s0 & x0 & y & H0 & Hst0 & Hb0 & Hg & Hy & ?). destruct (Hold _ _ _ H0 Hb0) as (HD & x1 & H1 & Hst1 & Hb1).
    rewrite Hobj, decide_False in Hy by done. exists s0, x1, y. rewrite Hst1. do 3 (split; [done|]). split; [|done].
    intros Hin. apply Hg, HG. done. }
  pose proof Hw as []. split.
  - done.
  - intros s0 x0. rewrite Hsets. intros [[<- <-]|[Hne H0]]%lookup_insert_Some; [done|by eapply si_full0].
  - done.
  - intros s0 x0 b H0 Hb0. destruct (Hold _ _ _ H0 Hb0) as (HD & x1 & H1 & _ & Hb1).
    destruct (si_bound0 _ _ _ H1 Hb1) as (y & f & ?). exists y, f. rewrite Hobj, decide_False by done. by rewrite Hc.
  - intros a o Ha. rewrite Hobj in Ha. destruct (decide (a ∈ D)) as [|HD]; [done|]. apply si_only0 in Ha.
    rewrite Hall, elem_of_app in Ha. by destruct Ha.
  - intros b i Hbi. destruct (si_impls0 b i (Howns _ _ Hbi)) as [? Hu]. rewrite Hi. split; [done|]. intros b' Hb'. by apply Hu, Howns.
  - intros b [Hg HD]%HG. destruct (si_gone0 b Hg) as (s0 & x0 & Hs0 & Hx0 & Hb0). rewrite Hb, Hsets.
    destruct (decide (s = s0)) as [<-|Hne].
    + simplify_eq. exists s, x'. split; [done|]. rewrite lookup_insert_eq. split; [done|].
      rewrite Hof, elem_of_app in Hb0. by destruct Hb0.
    + exists s0, x0. by rewrite lookup_insert_ne.
  - intros n. rewrite Hn, Hsets, Hc, Hi, Hdel. intros Hle. destruct (si_fresh0 n Hle) as (H1 & ?). split; [|done].
    apply lookup_insert_None. split; [done|]. intros ->. congruence.
  - by rewrite Hdel, Hi.
  - by rewrite Hb, Hn.
Qed.

(** An implementation is deleted. *)
Lemma sinv_impl_gone G w b i s x :
  sinv G w -> owns G w b i -> binding_sets w !! s = Some x -> b ∈ bindings_of x -> s ∈ busy w ->
  sinv (b :: G) (set_impls (impls w ∖ {[i]}) (i :: deleted w) w).
Proof.
  intros Hw Hown Hs Hb Hbusy. destruct (si_impls _ _ Hw _ _ Hown) as [Hi Hu].
  assert (Howns : forall b' i', owns (b :: G) (set_impls (impls w ∖ {[i]}) (i :: deleted w) w) b' i' -> owns G w b' i' /\ b' <> b).
  { intros b' i' (s0 & x0 & y & ? & ? & ? & Hg & ?). rewrite elem_of_cons in Hg. split; [|tauto]. exists s0, x0, y.
    do 3 (split; [done|]). split; [tauto|done]. }
  pose proof Hw as []. split; try done.
  - intros b' i' [Ho Hne]%Howns. destruct (si_impls0 _ _ Ho) as [Hi' Hu']. split.
    + cbn. apply elem_of_difference. split; [done|]. intros ->%elem_of_singleton. by apply Hne, Hu.
    + intros b'' [Ho'' _]%Howns. by apply Hu'.
  - intros b' [->|Hg]%elem_of_cons; [by exists s, x|by apply si_gone0].
  - intros n Hle. destruct (si_fresh0 n Hle) as (? & ? & ? & ?). cbn. split; [done|]. split; [done|].
    split; [intros [? _]%elem_of_difference; done|]. rewrite elem_of_cons. intros [->|?]; done.
  - cbn. destruct si_deleted0 as [Hd Hdi]. split; [constructor; [|done]|].
    + intros Hin. by apply (Hdi i).
    + intros i' [->|Hin]%elem_of_cons; rewrite elem_of_difference; [by intros [_ []]; apply elem_of_singleton|].
      intros [? _]. by apply (Hdi i').
Qed.

(** Code of a set starts and ends. *)
Lemma sinv_busy G w bs : sinv G w ->
  (forall b, b ∈ G -> exists s x, s ∈ bs /\ binding_sets w !! s = Some x /\ b ∈ bindings_of x) ->
  (forall s, s ∈ bs -> (s < next_name w)%nat) -> sinv G (set_busy bs w).
Proof. intros [] Hg Hbs. by split. Qed.

Lemma sinv_names G w n : sinv G w -> (next_name w <= n)%nat ->
  sinv G {| ifaces := ifaces w; binding_sets := binding_sets w; closures := closures w; impls := impls w;
            deleted := deleted w; next_name := n; busy := busy w |}.
Proof.
  intros [] Hn. split; try done; cbn.
  - intros m Hm. apply si_fresh0. lia.
  - intros s Hs. specialize (si_names0 s Hs). lia.
Qed.

(** What was in a set before, or the binding that has joined one. *)
Lemma joined w w' s x b :
  let x' := {| is_strong := is_strong x; bindings_ := bindings_ x ++ [Some b] |} in
  binding_sets w !! s = Some x -> b ∉ all_bindings w -> binding_sets w' = <[s := x']> (binding_sets w) ->
  bindings_of x' ≡ₚ b :: bindings_of x /\ all_bindings w' ≡ₚ b :: all_bindings w /\
  forall s0 x0 b0, binding_sets w' !! s0 = Some x0 -> b0 ∈ bindings_of x0 ->
    (b0 = b /\ s0 = s /\ x0 = x') \/
    (b0 <> b /\ exists x1, binding_sets w !! s0 = Some x1 /\ is_strong x1 = is_strong x0 /\ b0 ∈ bindings_of x1).
Proof.
  intros x' Hs Hbn Hsets.
  assert (Hof : bindings_of x' ≡ₚ b :: bindings_of x).
  { unfold bindings_of, x'. cbn. rewrite omap_app. cbn. symmetry. apply Permutation_cons_append. }
  split; [done|]. split.
  - assert (He : all_bindings w' = all_bindings (set_sets (<[s := x']> (binding_sets w)) w)) by (unfold all_bindings; by rewrite Hsets).
    rewrite He, (all_update _ _ _ _ Hs), (all_delete _ _ _ Hs), Hof. done.
  - intros s0 x0 b0 H0 Hb0. rewrite Hsets in H0. apply lookup_insert_Some in H0 as [[<- <-]|[Hne H0]].
    + rewrite Hof, elem_of_cons in Hb0. destruct Hb0 as [->|Hb0]; [by left|right]. split; [|by exists x].
      intros ->. apply Hbn, elem_of_all. eauto.
    + right. split; [|by exists x0]. intros ->. apply Hbn, elem_of_all. eauto.
Qed.

(** A binding joins a set. *)
Lemma sinv_add G w w' s x b y f :
  sinv G w -> binding_sets w !! s = Some x -> objs (ifaces w) !! b = None -> hinv debug [] [] (ifaces w') ->
  (next_name w <= f)%nat -> connection_error_handler_ y = UserHandler f ->
  (is_strong x = true -> impl_ y ∈ impls w /\ impl_ y ∉ owned_impls w) ->
  objs (ifaces w') = <[b := OBinding y]> (objs (ifaces w)) ->
  binding_sets w' = <[s := {| is_strong := is_strong x; bindings_ := bindings_ x ++ [Some b] |}]> (binding_sets w) ->
  closures w' = <[f := (s, b)]> (closures w) -> impls w' = impls w -> deleted w' = deleted w ->
  (f < next_name w')%nat -> (next_name w <= next_name w')%nat -> busy w' = busy w -> sinv G w'.
Proof.
  intros Hw Hs Hb Hh Hf Hy Hstrong Hobj Hsets Hc Hi Hdel Hn Hnn Hbusy. set (x' := {| is_strong := _ |}) in *.
  assert (Hbn : b ∉ all_bindings w).
  { intros (s0 & x0 & H0 & Hb0)%elem_of_all. destruct (si_bound _ _ Hw _ _ _ H0 Hb0) as (y0 & ? & Hy0 & _). congruence. }
  destruct (joined w w' s x b Hs Hbn Hsets) as (Hof & Hall & Hold). fold x' in Hof, Hold.
  assert (Hbg : b ∉ G).
  { intros Hg. destruct (si_gone _ _ Hw b Hg) as (s0 & x0 & _ & H0 & Hb0). apply Hbn, elem_of_all. eauto. }
  assert (Howns : forall b0 i, owns G w' b0 i -> owns G w b0 i \/ (b0 = b /\ i = impl_ y /\ is_strong x = true)).
  { intros b0 i (s0 & x0 & y0 & H0 & Hst0 & Hb0 & Hg & Hy0 & Hi0). rewrite Hobj in Hy0.
    destruct (Hold _ _ _ H0 Hb0) as [(-> & -> & ->)|(Hne & x1 & H1 & Hst1 & Hb1)].
    - rewrite lookup_insert_eq in Hy0. simplify_eq. by right.
    - rewrite lookup_insert_ne in Hy0 by done. left. exists s0, x1, y0. by rewrite Hst1. }
  assert (Hnot : forall b0, owns G w b0 (impl_ y) -> is_strong x = true -> False).
  { intros b0 (s0 & x0 & y0 & H0 & Hst0 & Hb0 & Hg & Hy0 & Hi0) Hst. destruct (Hstrong Hst) as [_ Hnin]. apply Hnin.
    unfold owned_impls. apply list_elem_of_bind. exists (s0, x0). split; [|by apply elem_of_map_to_list].
    cbn. rewrite Hst0. unfold impls_in. apply list_elem_of_bind. exists (Some b0). split; [|by apply in_vector].
    rewrite Hy0, Hi0. by left. }
  pose proof Hw as []. split; try done.
  - intros s0 x0. rewrite Hsets. intros [[<- <-]|[Hne H0]]%lookup_insert_Some; [|by eapply si_full0].
    unfold bindings_of, x'. cbn. rewrite omap_app, (si_full0 _ _ Hs), somes, fmap_app. done.
  - rewrite Hall. by constructor.
  - intros s0 x0 b0 H0 Hb0. destruct (Hold _ _ _ H0 Hb0) as [(-> & -> & ->)|(Hne & x1 & H1 & Hst1 & Hb1)].
    + exists y, f. by rewrite Hobj, Hc, !lookup_insert_eq.
    + destruct (si_bound0 _ _ _ H1 Hb1) as (y0 & f0 & ? & ? & Hf0). exists y0, f0. rewrite Hobj, lookup_insert_ne by done.
      rewrite Hc, lookup_insert_ne; [done|]. intros <-. destruct (si_fresh0 f Hf) as (_ & ? & _). congruence.
  - intros a o. rewrite Hobj, Hall. intros [[<- _]|[_ Ha]]%lookup_insert_Some; [by left|right]. by eapply si_only0.
  - intros b0 i Ho. rewrite Hi. destruct (Howns _ _ Ho) as [Ho'|(-> & -> & Hst)].
    + destruct (si_impls0 _ _ Ho') as [? Hu]. split; [done|]. intros b1 [Ho1|(-> & -> & Hst)]%Howns; [by apply Hu|].
      by destruct (Hnot _ Ho' Hst).
    + split; [by apply Hstrong|]. intros b1 [Ho1|(-> & _)]%Howns; [by destruct (Hnot _ Ho1 Hst)|done].
  - intros b0 Hg. destruct (si_gone0 b0 Hg) as (s0 & x0 & Hs0 & Hx0 & Hb0). rewrite Hbusy, Hsets.
    destruct (decide (s = s0)) as [<-|Hne]; [|exists s0, x0; by rewrite lookup_insert_ne].
    simplify_eq. exists s, x'. rewrite lookup_insert_eq, Hof. split; [done|]. split; [done|]. by right.
  - intros n Hle. destruct (si_fresh0 n) as (H1 & H2 & H3 & H4); [lia|]. rewrite Hsets, Hc, Hi, Hdel.
    split; [apply lookup_insert_None; split; [done|intros ->; congruence]|].
    split; [apply lookup_insert_None; split; [done|lia]|done].
  - by rewrite Hdel, Hi.
  - intros s0. rewrite Hbusy. intros Hs0%si_names0. lia.
Qed.

(** Sets and implementations are made, and empty sets go. *)
Lemma sinv_new_set G w strong :
  sinv G w ->
  sinv G (set_sets (<[next_name w := {| is_strong := strong; bindings_ := [] |}]> (binding_sets w)) (bump w)).
Proof.
  intros Hw. destruct (si_fresh _ _ Hw (next_name w) (le_n _)) as (Hn & Hcn & Hin & Hdn).
  set (x' := {| is_strong := strong; bindings_ := [] |}). set (w' := set_sets _ _).
  assert (Hold : forall s0 x0 b0, binding_sets w' !! s0 = Some x0 -> b0 ∈ bindings_of x0 -> binding_sets w !! s0 = Some x0).
  { intros s0 x0 b0 H0 Hb0. unfold w' in H0. cbn in H0. apply lookup_insert_Some in H0 as [[<- <-]|[_ H0]]; [by apply elem_of_nil in Hb0|done]. }
  assert (Hall : forall b, b ∈ all_bindings w' <-> b ∈ all_bindings w).
  { intros b. rewrite !elem_of_all. split; intros (s0 & x0 & H0 & Hb0); exists s0, x0; (split; [|done]); [by eapply Hold|].
    unfold w'. cbn. rewrite lookup_insert_ne; [done|]. congruence. }
  assert (Howns : forall b i, owns G w' b i -> owns G w b i).
  { intros b i (s0 & x0 & y & H0 & ? & Hb0 & ?). exists s0, x0, y. split; [by eapply Hold|done]. }
  pose proof Hw as []. split; try done.
  - intros s0 x0. unfold w'. cbn. intros [[<- <-]|[_ H0]]%lookup_insert_Some; [done|by eapply si_full0].
  - assert (He : all_bindings w' ≡ₚ bindings_of x' ++ all_bindings w) by exact (collect_insert bindings_of _ _ x' Hn).
    rewrite He. done.
  - intros s0 x0 b H0 Hb0. exact (si_bound0 _ _ _ (Hold _ _ _ H0 Hb0) Hb0).
  - intros a o Ha. apply Hall. by eapply si_only0.
  - intros b i Ho. destruct (si_impls0 b i (Howns _ _ Ho)) as [? Hu]. split; [done|]. intros b' Hb'. by apply Hu, Howns.
  - intros b Hg. destruct (si_gone0 b Hg) as (s0 & x0 & ? & ? & ?). exists s0, x0. unfold w'. cbn.
    rewrite lookup_insert_ne; [done|]. congruence.
  - intros n Hle. unfold w' in *. cbn in Hle. destruct (si_fresh0 n) as (? & ?); [lia|]. cbn.
    rewrite lookup_insert_ne by lia. done.
  - intros s Hs. specialize (si_names0 s Hs). unfold w'. cbn. lia.
Qed.

Lemma sinv_drop G w s x : sinv G w -> binding_sets w !! s = Some x -> bindings_ x = [] ->
  sinv G (set_sets (delete s (binding_sets w)) w).
Proof.
  intros Hw Hs Hx. set (w' := set_sets _ _).
  assert (Hno : bindings_of x = []) by (unfold bindings_of; by rewrite Hx).
  assert (Hold : forall s0 x0, binding_sets w' !! s0 = Some x0 -> binding_sets w !! s0 = Some x0).
  { intros s0 x0. unfold w'. cbn. by intros [_ ?]%lookup_delete_Some. }
  assert (Hin : forall s0 x0 b, binding_sets w !! s0 = Some x0 -> b ∈ bindings_of x0 -> binding_sets w' !! s0 = Some x0).
  { intros s0 x0 b H0 Hb0. apply lookup_delete_Some. split; [|done]. intros ->. simplify_eq. rewrite Hno in Hb0. by apply elem_of_nil in Hb0. }
  assert (Hall : all_bindings w ≡ₚ all_bindings w') by (by rewrite (all_delete _ _ _ Hs), Hno).
  assert (Howns : forall b i, owns G w' b i -> owns G w b i).
  { intros b i (s0 & x0 & y & H0 & ?). exists s0, x0, y. split; [by apply Hold|done]. }
  pose proof Hw as []. split; try done.
  - intros s0 x0 H0. by eapply si_full0, Hold.
  - by rewrite <- Hall.
  - intros s0 x0 b H0 Hb0. exact (si_bound0 _ _ _ (Hold _ _ H0) Hb0).
  - intros a o Ha. rewrite <- Hall. by eapply si_only0.
  - intros b i Ho. destruct (si_impls0 b i (Howns _ _ Ho)) as [? Hu]. split; [done|]. intros b' Hb'. by apply Hu, Howns.
  - intros b Hg. destruct (si_gone0 b Hg) as (s0 & x0 & ? & ? & ?). exists s0, x0. split; [done|]. split; [by eapply Hin|done].
  - intros n Hle. destruct (si_fresh0 n Hle) as (? & ?). split; [|done]. apply lookup_delete_None. by right.
Qed.

Lemma sinv_new_impl G w : sinv G w -> sinv G (set_impls ({[next_name w]} ∪ impls w) (deleted w) (bump w)).
Proof.
  intros Hw. destruct (si_fresh _ _ Hw (next_name w) (le_n _)) as (Hn & Hcn & Hin & Hdn). pose proof Hw as []. split; try done.
  - intros b i Ho. destruct (si_impls0 b i Ho) as [? Hu]. split; [|done]. cbn. apply elem_of_union. by right.
  - intros n Hle. cbn in Hle. destruct (si_fresh0 n) as (? & ? & ? & ?); [lia|]. cbn. split; [done|]. split; [done|].
    split; [|done]. rewrite elem_of_union, elem_of_singleton. intros [->|?]; [lia|done].
  - destruct si_deleted0 as [Hd Hdi]. split; [done|]. intros i Hi. cbn. rewrite elem_of_union, elem_of_singleton.
    intros [->|?]; [done|]. by apply (Hdi i).
  - intros s Hs. specialize (si_names0 s Hs). cbn. lia.
Qed.
End Facts.

(** * Operations *)

Section Operations.
Context (debug : bool).
Abbreviation sinv := (sinv debug).
Abbreviation hinv := (hinv debug).

(** ** Access *)

Lemma set_ifaces_same w : set_ifaces (ifaces w) w = w.
Proof. by destruct w. Qed.
Lemma wlp_on_ifaces {A} (c : M heap A) w (Q : A -> world -> Prop) :
  wlp c (ifaces w) (fun a h => Q a (set_ifaces h w)) -> wlp (on_ifaces c) w Q.
Proof. unfold gwlp, on_ifaces. by destruct (c (ifaces w)) as [[a h]| | |]. Qed.
Lemma wlp_set_at w s x (Q : BindingSet -> world -> Prop) : binding_sets w !! s = Some x -> Q x w -> wlp (set_at s) w Q.
Proof. intros Hs HQ. unfold set_at. do 2 wlp_step. rewrite Hs. by eapply wlp_lift. Qed.
Lemma wlp_vector w s x (Q : list (option addr) -> world -> Prop) :
  binding_sets w !! s = Some x -> Q (bindings_ x) w -> wlp (vector s) w Q.
Proof. intros Hs HQ. unfold vector. wlp_step. eapply wlp_set_at; [done|]. by wlp_step. Qed.
Lemma wlp_set_vector w s x v (Q : unit -> world -> Prop) :
  binding_sets w !! s = Some x ->
  Q tt (set_sets (<[s := {| is_strong := is_strong x; bindings_ := v |}]> (binding_sets w)) w) -> wlp (set_vector s v) w Q.
Proof. intros Hs HQ. unfold set_vector. wlp_step. eapply wlp_set_at; [done|]. by wlp_step. Qed.
Lemma wlp_binding_at w b y (Q : Binding -> world -> Prop) :
  objs (ifaces w) !! b = Some (OBinding y) -> Q y w -> wlp (on_ifaces (get_binding b)) w Q.
Proof. intros Hb HQ. apply wlp_on_ifaces. eapply wlp_get_binding; [done|]. by rewrite set_ifaces_same. Qed.
Lemma wlp_still_valid w s x (Q : unit -> world -> Prop) :
  binding_sets w !! s = Some x -> Q tt w -> wlp (still_valid s (bindings_ x)) w Q.
Proof. intros Hs HQ. unfold still_valid. wlp_step. eapply wlp_vector; [done|]. rewrite bool_decide_true by done. by wlp_step. Qed.

(** A binding that a set has given its function has no other. *)
Lemma bound_not_strong w s b : bound_to w s b ->
  exists y, objs (ifaces w) !! b = Some (OBinding y) /\ forall s', connection_error_handler_ y <> StrongError s'.
Proof. intros (y & f & Hy & Hf & _). exists y. split; [done|]. intros s'. by rewrite Hf. Qed.

Lemma reset_ptr_ok b y w :
  hinv [] [] (ifaces w) -> objs (ifaces w) !! b = Some (OBinding y) -> (forall s, connection_error_handler_ y <> StrongError s) ->
  wlp (reset_ptr debug (Some b)) w (fun _ w' =>
    exists h, w' = set_ifaces h w /\ hinv [] [] h /\ objs h = delete b (objs (ifaces w))).
Proof.
  intros Hw Hb Hs. unfold reset_ptr. apply wlp_on_ifaces. eapply wlp_mono; [by eapply Binding_destructor_ok|].
  intros [] h [[Hh _] Ho]. by exists h.
Qed.

(** ** What stays of the rest *)

(** The sets whose code runs are left alone, all or all but one. *)
Definition others (s : sid) (w w' : world) : Prop :=
  busy w' = busy w /\ forall s', s' ∈ busy w -> s' <> s -> binding_sets w' !! s' = binding_sets w !! s'.
Definition skept (w w' : world) : Prop :=
  busy w' = busy w /\ forall s, s ∈ busy w -> binding_sets w' !! s = binding_sets w !! s.
#[export] Instance skept_reflexive : Reflexive skept.
Proof. by intros w. Qed.
#[export] Instance skept_transitive : Transitive skept.
Proof. intros w w1 w2 [B1 K1] [B2 K2]. split; [congruence|]. intros s Hs. rewrite K2 by congruence. by apply K1. Qed.
Lemma others_kept s w w' : others s w w' -> s ∉ busy w -> skept w w'.
Proof. intros [B K] Hs. split; [done|]. intros s' Hs'. apply K; [done|]. by intros ->. Qed.
Lemma skept_others s w w' : skept w w' -> others s w w'.
Proof. intros [B K]. split; [done|]. intros s' Hs' _. by apply K. Qed.
#[export] Instance others_transitive s : Transitive (others s).
Proof. intros w w1 w2 [B1 K1] [B2 K2]. split; [congruence|]. intros s' Hs' Hne. rewrite K2 by congruence. by apply K1. Qed.

Definition keeps (c : M world unit) : Prop := forall G w, sinv G w -> wlp c w (fun _ w' => sinv G w' /\ skept w w').

(** * Removing one binding, and all *)

Lemma erase_ok G G' w s x it b :
  sinv G w -> binding_sets w !! s = Some x -> bindings_ x !! it = Some (Some b) ->
  (forall b', b' ∈ G' <-> b' ∈ G /\ b' <> b) ->
  wlp (erase debug s it) w (fun _ w' => sinv G' w' /\ others s w w').
Proof.
  intros Hw Hs Hit HG. assert (Hb : b ∈ bindings_of x) by (apply in_vector; by eapply list_elem_of_lookup_2).
  destruct (bound_not_strong _ _ _ (si_bound _ _ _ Hw _ _ _ Hs Hb)) as (y & Hy & Hns).
  unfold erase. wlp_step. eapply wlp_vector; [done|]. wlp_step. eapply wlp_lift; [by rewrite Hit|]. wlp_step.
  eapply wlp_set_vector; [done|]. set (x' := {| is_strong := _ |}). set (w1 := set_sets _ w).
  eapply wlp_mono; [apply (reset_ptr_ok b y w1); [apply Hw|done|done]|]. intros [] w2 (h & -> & Hh & Ho).
  assert (Hx : bindings_ x ≡ₚ (Some <$> [b]) ++ bindings_ x') by (cbn; by apply delete_Permutation).
  split.
  - apply (sinv_remove debug G G' w _ s x x' [b]); try done.
    + cbn. unfold bindings_of, x'. cbn. pose proof (si_full _ _ _ Hw _ _ Hs) as Hf.
      rewrite Hf, <- list_fmap_delete, somes. done.
    + intros a. cbn. rewrite Ho. unfold w1. cbn. destruct (decide (a ∈ [b])) as [->%list_elem_of_singleton|Hne].
      * apply lookup_delete_eq.
      * apply lookup_delete_ne. intros ->. apply Hne. by left.
    + intros b'. rewrite list_elem_of_singleton. apply HG.
  - split; [done|]. intros s' _ Hne. cbn. by apply lookup_insert_ne.
Qed.

Lemma resets_ok D : forall w,
  hinv [] [] (ifaces w) -> NoDup D ->
  (forall b, b ∈ D -> exists y, objs (ifaces w) !! b = Some (OBinding y) /\ forall s, connection_error_handler_ y <> StrongError s) ->
  wlp (for_each (R := False) (Some <$> D) (fun x => reset_ptr debug x;; mret None)) w (fun _ w' =>
    exists h, w' = set_ifaces h w /\ hinv [] [] h /\
      forall a, objs h !! a = if decide (a ∈ D) then None else objs (ifaces w) !! a).
Proof.
  induction D as [|b D IH]; intros w Hw Hd HD; cbn [fmap list_fmap for_each].
  - wlp_step. exists (ifaces w). rewrite set_ifaces_same. split; [done|]. split; [done|]. intros a.
    by rewrite decide_False by apply not_elem_of_nil.
  - apply NoDup_cons in Hd as [Hb Hd]. destruct (HD b) as (y & Hy & Hns); [by left|]. wlp_step. wlp_step.
    eapply wlp_mono; [by apply (reset_ptr_ok b y w)|]. intros [] w1 (h & -> & Hh & Ho). wlp_step.
    eapply wlp_mono; [apply (IH (set_ifaces h w)); [done|done|]|].
    + intros b' Hb'. cbn. rewrite Ho, lookup_delete_ne by (by intros ->). apply HD. by right.
    + intros r w2 (h' & -> & Hh' & Ho'). exists h'. split; [done|]. split; [done|]. intros a. rewrite Ho'. cbn. rewrite Ho.
      destruct (decide (a ∈ b :: D)) as [Hin|Hin], (decide (a ∈ D)) as [Hin'|Hin']; try done.
      * apply elem_of_cons in Hin as [->|?]; [apply lookup_delete_eq|done].
      * destruct Hin. by right.
      * apply lookup_delete_ne. intros ->. apply Hin. by left.
Qed.

Lemma clear_ok G G' w s x :
  sinv G w -> binding_sets w !! s = Some x -> (forall b', b' ∈ G' <-> b' ∈ G /\ b' ∉ bindings_of x) ->
  wlp (clear debug s) w (fun _ w' => sinv G' w' /\ others s w w' /\
    exists x', binding_sets w' !! s = Some x' /\ bindings_ x' = []).
Proof.
  intros Hw Hs HG. unfold clear. wlp_step. eapply wlp_vector; [done|]. wlp_step. rewrite (si_full _ _ _ Hw _ _ Hs).
  eapply wlp_mono; [apply (resets_ok (bindings_of x) w); [apply Hw|by eapply bindings_once|]|].
  - intros b Hb. by eapply bound_not_strong, si_bound.
  - intros r w1 (h & -> & Hh & Ho). eapply (wlp_set_vector _ s x); [done|]. set (x' := {| is_strong := _ |}). split; [|split].
    + apply (sinv_remove debug G G' w _ s x x' (bindings_of x)); try done. cbn. rewrite app_nil_r. by rewrite <- (si_full _ _ _ Hw _ _ Hs).
    + split; [done|]. intros s' _ Hne. cbn. by apply lookup_insert_ne.
    + exists x'. cbn. by rewrite lookup_insert_eq.
Qed.
End Operations.
