(* ===== verification/BindingSetsCalls.v ===== *)
(** The calls of a program on sets of bindings, with the destructors that they run, keep
    the invariant. *)
From stdpp Require Import base numbers list option gmap sets.
From Stdlib Require Import ZArith Lia.
From S2P Require Import Prelude Result Serialization Router RouterFacts HandlesFacts.
From S2P Require Import Interfaces InterfacesRouters InterfacesFacts InterfacesSteps InterfacesOps InterfacesPtr.
From S2P Require Import InterfacesBinding InterfacesStrong InterfacesSpec.
From S2P Require Import BindingSets BindingSetsFacts.
From Stdlib Require Import Permutation.
From S2P Require Handles.
Section Calls.
Context (debug : bool).
Abbreviation sinv := (sinv debug).
Abbreviation keeps := (keeps debug).

(** * Adding *)

Lemma wlp_both {S A} (c : M S A) (w : S) (P Q : A -> S -> Prop) :
  wlp c w P -> wlp c w Q -> wlp c w (fun a w' => P a w' /\ Q a w').
Proof. unfold gwlp. by destruct (c w) as [[a w']| | |]. Qed.

Lemma adopt_objs h w : hinv debug [] [] w ->
  wlp (adopt h) w (fun _ w' => step_to debug (List.filter is_valid [h] ++ []) [] w w' /\ objs w' = objs w).
Proof.
  intros Hw. apply wlp_both; [by apply adopt_ok|]. unfold adopt. wlp_step. apply wlp_required. intros _.
  apply gwlp_on_process. by apply wlp_notes.
Qed.

(** The constructor of a binding from an implementation and a request. *)
Lemma Binding_bound_ok i h w :
  hinv debug (List.filter is_valid [h] ++ []) [] w ->
  wlp (b ← Binding_new i; Binding_Bind debug b h;; mret b) w (fun b w' => hinv debug [] [] w' /\ objs w !! b = None /\
    exists r, objs w' = <[b := OBinding {| internal_router_ := Some r; impl_ := i; connection_error_handler_ := NoHandler |}]> (objs w)).
Proof.
  intros Hw. unfold Binding_new. wlp_step. apply wlp_new_object. set (x0 := {| internal_router_ := None |}). wlp_step.
  assert (H1 : step_to debug (List.filter is_valid [h] ++ []) [] w (set_objs (<[next_addr w := OBinding x0]> (objs w)) (S (next_addr w)) w)).
  { apply step_new; [done|right; by eexists|]. by split. }
  eapply wlp_mono; [eapply (Binding_Bind_exact debug (next_addr w) x0); [apply H1|cbn; apply lookup_insert_eq|done]|].
  intros [] w2 [H2 [r Ho]]. wlp_step. split; [apply H2|]. split; [by eapply fresh_addr|]. exists r.
  rewrite Ho. cbn. by rewrite insert_insert_eq.
Qed.

Lemma Add_ok G s i h w :
  sinv G w -> may_add s i w = true ->
  wlp (on_ifaces (adopt h);; AddBinding debug s i h) w (fun _ w' => sinv G w' /\ skept w w').
Proof.
  intros Hw Hadd. unfold may_add, idle in Hadd. apply andb_true_iff in Hadd as [Hidle%bool_decide_eq_true Hadd].
  destruct (binding_sets w !! s) as [x|] eqn:Hs; [|done]. wlp_step. apply wlp_on_ifaces.
  eapply wlp_mono; [apply adopt_objs, Hw|]. intros [] h1 [(Hh1 & _) Ho1]. unfold AddBinding. wlp_step. apply wlp_on_ifaces.
  eapply wlp_mono; [by apply Binding_bound_ok|]. intros b h2 (Hh2 & Hb & r & Ho2). cbn [ifaces set_ifaces]. wlp_step.
  eapply wlp_vector; [exact Hs|]. wlp_step. eapply wlp_set_vector; [exact Hs|]. wlp_step. unfold new_name. do 5 wlp_step.
  apply wlp_on_ifaces. cbn [ifaces set_ifaces set_sets set_closures bump].
  eapply wlp_mono; [eapply set_binding_error_handler_ok; [exact Hh2|by rewrite Ho2, lookup_insert_eq|done]|].
  intros [] h3 [[Hh3 _] Ho3]. split; [|split; [done|]].
  - eapply (sinv_add debug G w _ s x b {| internal_router_ := Some r; impl_ := i; connection_error_handler_ := UserHandler (next_name w) |} (next_name w)); try done; [by rewrite <- Ho1| | |cbn; lia|cbn; lia].
    + cbn. intros Hst. rewrite Hst in Hadd. cbn in Hadd. by apply andb_true_iff in Hadd as [?%bool_decide_eq_true ?%bool_decide_eq_true].
    + cbn. cbn in Ho2. rewrite Ho3, Ho2, insert_insert_eq, Ho1. reflexivity.
  - intros s' Hs'. cbn. apply lookup_insert_ne. by intros ->.
Qed.

(** * Deleting implementations *)

Lemma find_binding (b : addr) (v : list (option addr)) : Some b ∈ v ->
  exists it : nat, v !! it = Some (Some b) /\ fst <$> list_find (fun x => x = Some b) v = Some it.
Proof.
  intros Hb. destruct (list_find_elem_of (fun x => x = Some b) v (Some b) Hb eq_refl) as [[it x] Hf].
  exists it. rewrite Hf. apply list_find_Some in Hf as (Hit & -> & _). done.
Qed.
Lemma wlp_sets_dcheck b (w : world) (Q : unit -> world -> Prop) : b = true -> Q tt w -> wlp (MOJO_DCHECK debug b) w Q.
Proof. intros -> HQ. unfold MOJO_DCHECK. by destruct debug. Qed.


Section Destructor.
Context (impl_destructor : impl -> M world unit).
Context (destructor_ok : forall i, keeps (impl_destructor i)).

Lemma delete_impl_of_ok G w s x b :
  sinv G w -> binding_sets w !! s = Some x -> is_strong x = true -> b ∈ bindings_of x -> b ∉ G -> s ∈ busy w ->
  wlp (delete_impl_of impl_destructor (Some b)) w (fun _ w' => sinv (b :: G) w' /\ skept w w').
Proof.
  intros Hw Hs Hst Hb HG Hbusy. destruct (si_bound _ _ _ Hw _ _ _ Hs Hb) as (y & f & Hy & _).
  assert (Hown : owns G w b (impl_ y)) by (exists s, x, y; done).
  unfold delete_impl_of. wlp_step. eapply wlp_lift; [done|]. wlp_step. eapply wlp_binding_at; [done|].
  unfold delete_impl. wlp_step. wlp_step. rewrite bool_decide_true by (by eapply si_impls). wlp_step. wlp_step.
  eapply wlp_mono; [eapply destructor_ok; by eapply (sinv_impl_gone debug G w b)|]. done.
Qed.

(** While the code of a set runs, no binding of it is gone but is still in it before. *)
Lemma while_busy_ok G w s (c : M world unit) :
  sinv G w -> s ∉ busy w -> (s < next_name w)%nat ->
  (forall w0, w0 = set_busy (s :: busy w) w -> sinv G w0 -> wlp c w0 (fun _ w1 => sinv G w1 /\ others s w0 w1)) ->
  wlp (while_busy s c) w (fun _ w' => sinv G w' /\ skept w w').
Proof.
  intros Hw Hs Hlt Hc. unfold while_busy. do 2 wlp_step. wlp_step.
  assert (H0 : sinv G (set_busy (s :: busy w) w)).
  { apply sinv_busy; [done| |].
    - intros b Hb. destruct (si_gone _ _ _ Hw b Hb) as (s' & x' & ? & ? & ?). exists s', x'. split; [by right|done].
    - intros s' [->|Hs']%elem_of_cons; [done|by apply (si_names _ _ _ Hw)]. }
  eapply wlp_mono; [by apply Hc|]. intros [] w1 [H1 [B1 K1]]. wlp_step. cbn in B1. rewrite B1. cbn [tail].
  split; [|split; [done|]].
  - apply sinv_busy; [done| |].
    + intros b Hb. destruct (si_gone _ _ _ Hw b Hb) as (s' & x' & ? & ? & ?).
      exists s', x'. split; [done|]. rewrite K1; [done|by right|]. by intros ->.
    + intros s' Hs'. apply (si_names _ _ _ H1). rewrite B1. by right.
  - intros s' Hs'. cbn. apply K1; [by right|]. by intros ->.
Qed.

Lemma set_name G w s x : sinv G w -> binding_sets w !! s = Some x -> (s < next_name w)%nat.
Proof.
  intros Hw Hs. destruct (decide (next_name w <= s)%nat) as [Hle|]; [|lia]. destruct (si_fresh _ _ _ Hw s Hle) as (? & _). congruence.
Qed.
(** No binding of an idle set is gone. *)
Lemma idle_whole G w s x b : sinv G w -> s ∉ busy w -> binding_sets w !! s = Some x -> b ∈ bindings_of x -> b ∉ G.
Proof.
  intros Hw Hs Hx Hb Hg. destruct (si_gone _ _ _ Hw b Hg) as (s' & x' & Hs' & Hx' & Hb').
  assert (s' = s) as -> by (by eapply (one_set debug G w s s' x x' b)). done.
Qed.

Lemma run_closure_ok G w s b :
  sinv G w -> s ∉ busy w -> bound_to w s b -> b ∈ all_bindings w ->
  wlp (while_busy s (run_closure debug impl_destructor s b)) w (fun _ w' => sinv G w' /\ skept w w').
Proof.
  intros Hw Hs (y & f & Hy & Hf & Hc) (s' & x & Hx & Hb)%elem_of_all.
  destruct (si_bound _ _ _ Hw _ _ _ Hx Hb) as (y' & f' & Hy' & Hf' & Hc'). simplify_eq. rewrite Hf' in Hf. simplify_eq.
  pose proof (idle_whole _ _ _ _ _ Hw Hs Hx Hb) as HG.
  apply while_busy_ok; [done|done|by eapply set_name|]. intros w0 -> H0. unfold run_closure. wlp_step. eapply wlp_set_at; [exact Hx|].
  destruct (find_binding b (bindings_ x)) as (it & Hit & Hfind); [by apply in_vector|]. rewrite Hfind. wlp_step.
  apply wlp_sets_dcheck; [done|]. wlp_step. eapply wlp_lift; [done|]. wlp_step.
  destruct (is_strong x) eqn:Hst.
  - wlp_step. eapply wlp_mono; [eapply (delete_impl_of_ok G _ s x b); try done; by left|].
    intros [] w1 [H1 [B1 K1]]. assert (Hx1 : binding_sets w1 !! s = Some x) by (rewrite K1 by (by left); exact Hx).
    eapply wlp_still_valid; [done|]. eapply wlp_mono; [eapply (erase_ok debug (b :: G) G); try done|].
    + intros b'. rewrite elem_of_cons. split; [|tauto]. intros Hg. split; [by right|]. by intros ->.
    + intros [] w2 [H2 K2]. split; [done|]. transitivity w1; [|done]. by apply skept_others.
  - wlp_step. eapply wlp_mono; [eapply (erase_ok debug G G); try done|].
    + intros b'. split; [|tauto]. intros Hg. split; [done|]. by intros ->.
    + done.
Qed.

(** * Closing all *)

Lemma close_loop_ok s x D : forall G w,
  sinv G w -> binding_sets w !! s = Some x -> is_strong x = true -> s ∈ busy w -> NoDup D ->
  (forall b, b ∈ D -> b ∈ bindings_of x /\ b ∉ G) ->
  wlp (for_each (R := False) (Some <$> D)
         (fun o => delete_impl_of impl_destructor o;; still_valid s (bindings_ x);; mret None)) w
    (fun _ w' => skept w w' /\ exists G', sinv G' w' /\ forall b, b ∈ G' <-> b ∈ D \/ b ∈ G).
Proof.
  induction D as [|b D IH]; intros G w Hw Hs Hst Hbusy Hd HD; cbn [fmap list_fmap for_each].
  - wlp_step. split; [done|]. exists G. split; [done|]. intros b. split; [by right|]. by intros [?%elem_of_nil|].
  - apply NoDup_cons in Hd as [Hb Hd]. destruct (HD b) as [Hbx HbG]; [by left|]. wlp_step. wlp_step.
    eapply wlp_mono; [by eapply delete_impl_of_ok|]. intros [] w1 [H1 [B1 K1]]. wlp_step.
    assert (Hs1 : binding_sets w1 !! s = Some x) by (by rewrite K1).
    eapply wlp_still_valid; [done|]. wlp_step. eapply wlp_mono; [apply (IH (b :: G) w1); try done; [by rewrite B1|]|].
    + intros b' Hb'. destruct (HD b') as [? ?]; [by right|]. split; [done|]. intros [->|?]%elem_of_cons; done.
    + intros r w2 [K2 (G' & H2 & HG')]. split; [transitivity w1; [by split|done]|]. exists G'. split; [done|].
      intros b'. rewrite HG', !elem_of_cons. tauto.
Qed.

Lemma CloseAllBindings_ok G w s x :
  sinv G w -> binding_sets w !! s = Some x -> s ∈ busy w -> (forall b, b ∈ bindings_of x -> b ∉ G) ->
  wlp (CloseAllBindings debug impl_destructor s) w (fun _ w' => sinv G w' /\ others s w w' /\
    exists x', binding_sets w' !! s = Some x' /\ bindings_ x' = []).
Proof.
  intros Hw Hs Hbusy HG. unfold CloseAllBindings. wlp_step. eapply wlp_set_at; [done|]. wlp_step.
  destruct (is_strong x) eqn:Hst.
  - wlp_step. rewrite (si_full _ _ _ Hw _ _ Hs) at 1. eapply wlp_mono.
    { apply (close_loop_ok s x (bindings_of x) G w); try done; [by eapply bindings_once|]. intros b Hb. by split; [|apply HG]. }
    intros r w1 [[B1 K1] (G' & H1 & HG')]. wlp_step.
    eapply wlp_mono; [apply (clear_ok debug G' G w1 s x); [done|by rewrite K1|]|].
    + intros b. rewrite HG'. split; [|tauto]. intros Hg. split; [by right|]. intros Hb. by apply (HG b).
    + intros [] w2 (H2 & O2 & Hx2). split; [done|]. split; [|done]. transitivity w1; [by apply skept_others; split|done].
  - wlp_step. apply (clear_ok debug G G w s x); [done..|]. intros b. split; [|tauto]. intros Hg. split; [done|].
    intros Hb. by apply (HG b).
Qed.

Lemma CloseAll_ok G w s :
  sinv G w -> is_Some (binding_sets w !! s) -> s ∉ busy w ->
  wlp (while_busy s (CloseAllBindings debug impl_destructor s)) w (fun _ w' => sinv G w' /\ skept w w').
Proof.
  intros Hw [x Hx] Hs. apply while_busy_ok; [done|done|by eapply set_name|]. intros w0 -> H0.
  eapply wlp_mono; [eapply (CloseAllBindings_ok G _ s x); [done|exact Hx|by left|]|].
  - intros b Hb. by eapply (idle_whole G w s x).
  - by intros [] w1 (? & ? & _).
Qed.
Lemma BindingSet_destructor_ok G w s :
  sinv G w -> is_Some (binding_sets w !! s) -> s ∉ busy w ->
  wlp (while_busy s (BindingSet_destructor debug impl_destructor s)) w (fun _ w' => sinv G w' /\ skept w w').
Proof.
  intros Hw [x Hx] Hs. apply while_busy_ok; [done|done|by eapply set_name|]. intros w0 -> H0. unfold BindingSet_destructor. wlp_step.
  eapply wlp_mono; [eapply (CloseAllBindings_ok G _ s x); [done|exact Hx|by left|]|].
  - intros b Hb. by eapply (idle_whole G w s x).
  - intros [] w1 (H1 & [B1 K1] & x1 & Hx1 & He). wlp_step. split; [by eapply (sinv_drop debug G w1 s x1)|]. split; [done|].
    intros s' Hs' Hne. cbn. rewrite lookup_delete_ne by done. by apply K1.
Qed.

(** * Errors *)

Lemma signal_ok r result w :
  hinv debug [] [] w -> alive w r = true ->
  wlp (on_router debug r (signal_error debug result)) w (fun _ w' => hinv debug [] [] w' /\ objs w' = objs w /\ error_handlers w' = error_handlers w /\
    forall b, error_handlers w' !! r = Some (RunBindingHandler b) -> exists y, objs w !! b = Some (OBinding y)).
Proof.
  intros Hw Hal. destruct (has_owner _ _ _ _ Hw Hal) as (a & o & Ha & Hin).
  eapply (wlp_own_router debug _ a o r [] [] w (fun _ _ => True)); [done..| |].
  - intros rw ro Hrw Hinv Hro _. eapply wlp_mono; [by eapply wlp_signal_error|]. intros [] rw' (? & ? & ?). by destruct o.
  - intros [] rw' w1 _ (H1 & _) He Hr1. destruct (elsewhere_same _ _ He) as (Ho & _ & _ & Heh). do 3 (split; [done|]).
    intros b Hb. rewrite Heh in Hb. pose proof (hi_objects _ _ _ _ Hw a o Ha) as Hok.
    destruct o as [z|z|t|y|z]; cbn in Hin; try by apply elem_of_nil in Hin.
    + destruct Hok as [_ Hok]. destruct (router_ t); [|by apply elem_of_nil in Hin].
      apply list_elem_of_singleton in Hin as ->. destruct Hok as (_ & _ & _ & Ht & _). by specialize (Ht b Hb).
    + destruct Hok as [Hok _]. destruct (internal_router_ y) as [r'|]; [|by apply elem_of_nil in Hin].
      apply list_elem_of_singleton in Hin as ->. destruct (Hok r' eq_refl) as [_ Ht]. specialize (Ht b Hb). simplify_eq. eauto.
Qed.

Lemma connection_error_keeps r result G w :
  sinv G w -> alive (ifaces w) r = true -> may_fail r w = true ->
  wlp (connection_error debug impl_destructor r result) w (fun _ w' => sinv G w' /\ skept w w').
Proof.
  intros Hw Hal Hidle. unfold connection_error. wlp_step. apply wlp_on_ifaces.
  eapply wlp_mono; [apply signal_ok; [apply Hw|done]|]. intros [] h (Hh & Ho & He & Hb). do 2 wlp_step.
  set (w1 := set_ifaces h w). assert (H1 : sinv G w1).
  { destruct Hw. split; try done; unfold owns, bound_to in *; cbn; rewrite ?Ho; try done. }
  assert (K1 : skept w w1) by done.
  destruct (error_handlers (ifaces w1) !! r) as [[f|b]|] eqn:Heh; [by wlp_step| |by wlp_step].
  destruct (Hb b Heh) as (y & Hy). wlp_step. eapply (wlp_binding_at _ _ y); [cbn; by rewrite Ho|].
  destruct (connection_error_handler_ y) as [|f|?] eqn:Hf; [by wlp_step| |by wlp_step].
  pose proof (si_only _ _ _ Hw _ _ Hy) as Hall. pose proof Hall as (s & x & Hx & Hbx)%elem_of_all.
  destruct (si_bound _ _ _ Hw _ _ _ Hx Hbx) as (y' & f' & Hy' & Hf' & Hc). simplify_eq. rewrite Hf' in Hf. simplify_eq.
  change (closures w1 !! f) with (closures w !! f). rewrite Hc.
  unfold may_fail in Hidle. cbn in Heh. rewrite <- He, Heh, Hy, Hf', Hc in Hidle. apply bool_decide_eq_true in Hidle.
  eapply wlp_mono; [apply (run_closure_ok G w1 s b); [done|done| |exact Hall]|].
  - by eapply (si_bound _ _ _ H1).
  - intros [] w2 [H2 K2]. split; [done|by transitivity w1].
Qed.
End Destructor.
End Calls.

(** * Removing

    [StrongBindingSet::RemoveBindings]: the loop of [std::remove_if] moves the bindings of
    other implementations to the front, and of the slots that are left behind one is
    erased. *)
Section Remove.
Context (debug : bool).
Abbreviation sinv := (sinv debug).
Abbreviation hinv := (hinv debug).

(** What a slot holds, and the objects when it is gone. *)
Definition without (slot : option addr) (os : gmap addr iobject) : gmap addr iobject :=
  match slot with Some b => delete b os | None => os end.
Definition slot_ok (slot : option addr) (os : gmap addr iobject) : Prop :=
  forall b, slot = Some b -> exists y, os !! b = Some (OBinding y) /\ forall s, connection_error_handler_ y <> StrongError s.

Lemma reset_slot_ok slot w :
  hinv [] [] (ifaces w) -> slot_ok slot (objs (ifaces w)) ->
  wlp (reset_ptr debug slot) w (fun _ w' =>
    exists h, w' = set_ifaces h w /\ hinv [] [] h /\ objs h = without slot (objs (ifaces w))).
Proof.
  intros Hw Hok. destruct slot as [b|]; [|unfold reset_ptr; wlp_step; exists (ifaces w); by rewrite set_ifaces_same].
  destruct (Hok b eq_refl) as (y & Hy & Hns). by apply (reset_ptr_ok debug b y w).
Qed.

(** The objects when what several slots hold is gone. *)
Definition without_all (junk : list (option addr)) (os : gmap addr iobject) : gmap addr iobject := foldr without os junk.
Lemma without_comm o junk os : without_all junk (without o os) = without o (without_all junk os).
Proof.
  unfold without_all. induction junk as [|[b|] junk IH]; cbn; [done| |done]. rewrite IH. destruct o; [apply delete_delete|done].
Qed.
Lemma without_app junk junk' os : without_all (junk ++ junk') os = without_all junk' (without_all junk os).
Proof.
  revert os. induction junk as [|o junk IH]; intros os; [done|]. cbn [Datatypes.app]. unfold without_all in *. cbn. rewrite IH.
  symmetry. apply without_comm.
Qed.

(** The vector of a set, and the objects, with what is elsewhere as it was. *)
Definition with_vector (s : sid) (x : BindingSet) (v : list (option addr)) (h : heap) (w : world) : world :=
  set_ifaces h (set_sets (<[s := {| is_strong := is_strong x; bindings_ := v |}]> (binding_sets w)) w).

(** Which bindings [m] have the implementation [i]. *)
Context (i : impl) (m : addr -> bool).
Definition bound_at (os : gmap addr iobject) (c : addr) : Prop :=
  exists y, os !! c = Some (OBinding y) /\ (impl_ y =? i)%nat = m c /\ forall s, connection_error_handler_ y <> StrongError s.
Definition matching (l : list addr) : list addr := List.filter m l.
Definition others (l : list addr) : list addr := List.filter (fun c => negb (m c)) l.

Lemma wlp_pred b w (Q : bool -> world -> Prop) :
  bound_at (objs (ifaces w)) b -> Q (m b) w -> wlp (pred i (Some b)) w Q.
Proof.
  intros (y & Hy & Hm & _) HQ. unfold pred. wlp_step. eapply wlp_lift; [done|]. wlp_step.
  eapply wlp_binding_at; [done|]. wlp_step. by rewrite Hm.
Qed.

Lemma find_if_ok bs w : Forall (bound_at (objs (ifaces w))) bs ->
  wlp (find_if i (Some <$> bs)) w (fun n w' => w' = w /\ exists D1 D2, bs = D1 ++ D2 /\ n = length D1 /\
    matching D1 = [] /\ (D2 = [] \/ exists b D, D2 = b :: D /\ m b = true)).
Proof.
  induction bs as [|c bs IH]; intros Hbs; cbn [fmap list_fmap find_if].
  - wlp_step. split; [done|]. exists [], []. auto.
  - apply Forall_cons in Hbs as [Hc Hbs]. wlp_step. apply wlp_pred; [done|]. destruct (m c) eqn:Hm.
    + wlp_step. split; [done|]. exists [], (c :: bs). eauto 10.
    + wlp_step. eapply wlp_mono; [by apply IH|]. intros n w' (-> & D1 & D2 & -> & -> & H1 & H2). wlp_step. split; [done|].
      exists (c :: D1), D2. split; [done|]. split; [done|]. split; [|done]. unfold matching. cbn. by rewrite Hm.
Qed.

(** The loop: [junk] is what lies between the elements that stay and those to come. *)
Definition slots_ok (junk : list (option addr)) (os : gmap addr iobject) : Prop := Forall (fun o => slot_ok o os) junk.

Lemma remove_rest_ok s x w0 rest : forall pre junk h,
  hinv [] [] h -> junk <> [] -> slots_ok junk (objs h) -> Forall (bound_at (objs h)) rest -> NoDup (omap id junk ++ rest) ->
  wlp (remove_rest debug s i (length pre) (seq (length pre + length junk) (length rest)))
    (with_vector s x ((Some <$> pre) ++ junk ++ (Some <$> rest)) h w0)
    (fun n w' => exists junk' h', n = length (pre ++ others rest) /\
      w' = with_vector s x ((Some <$> (pre ++ others rest)) ++ junk') h' w0 /\ hinv [] [] h' /\
      length junk' = (length junk + length (matching rest))%nat /\ slots_ok junk' (objs h') /\
      NoDup (omap id junk') /\ (forall b, Some b ∈ junk' -> Some b ∈ junk \/ b ∈ matching rest) /\
      without_all junk' (objs h') = without_all (Some <$> matching rest) (without_all junk (objs h))).
Proof.
  induction rest as [|c rest IH]; intros pre junk h Hh Hne Hslots Hrest Hd; cbn [length seq remove_rest].
  - wlp_step. exists junk, h. cbn. rewrite !app_nil_r in *. rewrite Nat.add_0_r. auto 10.
  - apply Forall_cons in Hrest as [Hc Hrest]. set (v := _ ++ junk ++ _). set (w := with_vector _ _ _ _ _).
    assert (Hw : binding_sets w !! s = Some {| is_strong := is_strong x; bindings_ := v |}) by apply lookup_insert_eq.
    assert (Hfrom : v !! (length pre + length junk)%nat = Some (Some c)).
    { unfold v. rewrite app_assoc. apply list_lookup_middle. by rewrite length_app, length_fmap. }
    wlp_step. eapply wlp_vector; [exact Hw|]. cbn [bindings_]. wlp_step. eapply wlp_lift; [by rewrite Hfrom|]. wlp_step.
    apply wlp_pred; [exact Hc|]. destruct (m c) eqn:Hm.
    + assert (Hv : v = (Some <$> pre) ++ (junk ++ [Some c]) ++ (Some <$> rest)) by (unfold v; by rewrite <- (app_assoc junk)).
      unfold w. rewrite Hv. replace (S (length pre + length junk)) with (length pre + length (junk ++ [Some c]))%nat
        by (rewrite length_app; cbn; lia).
      eapply wlp_mono; [apply IH|]; [done|by destruct junk|..].
      * apply Forall_app. split; [done|]. apply Forall_singleton. intros b [= <-]. destruct Hc as (y & Hy & _ & Hns). by exists y.
      * done.
      * rewrite omap_app. cbn. by rewrite <- app_assoc.
      * intros n w' (junk' & h' & -> & -> & Hh' & Hlen & Hs' & Hd' & Hin & Hwo). exists junk', h'.
        unfold others, matching in *. cbn. rewrite Hm. cbn. split; [done|]. split; [done|]. split; [done|].
        split; [rewrite Hlen, length_app; cbn; lia|]. split; [done|]. split; [done|]. split.
        -- intros b Hb. destruct (Hin b Hb) as [[Hj| [= ->]%list_elem_of_singleton]%elem_of_app|Hb']; [by left|right; left|right; by right].
        -- rewrite Hwo, without_app. change (without_all [Some c] ?os) with (without (Some c) os). by rewrite without_comm.
    + destruct junk as [|o junk]; [done|]. apply Forall_cons in Hslots as [Ho Hslots].
      assert (Hto : v !! length pre = Some o) by (apply list_lookup_middle; by rewrite length_fmap).
      wlp_step. unfold move_assign. wlp_step. eapply wlp_vector; [exact Hw|]. cbn [bindings_].
      wlp_step. eapply wlp_lift; [by rewrite Hfrom|]. wlp_step. eapply wlp_lift; [by rewrite Hto|]. wlp_step.
      eapply wlp_set_vector; [exact Hw|]. cbn [is_strong].
      assert (Hv : <[length pre := Some c]> (<[(length pre + length (o :: junk))%nat := None]> v) =
        (Some <$> (pre ++ [c])) ++ (junk ++ [None]) ++ (Some <$> rest)).
      { unfold v. rewrite (app_assoc (Some <$> pre)). rewrite (insert_app_r_alt _ _ (length pre + _)) by (rewrite length_app, length_fmap; lia).
        rewrite length_app, length_fmap, Nat.sub_diag. cbn [fmap list_fmap insert list_insert].
        rewrite <- app_assoc. rewrite insert_app_r_alt by (by rewrite length_fmap). rewrite length_fmap, Nat.sub_diag. cbn.
        by rewrite fmap_app, <- !app_assoc. }
      rewrite Hv. eapply wlp_mono; [by apply reset_slot_ok|]. intros [] w1 (h1 & -> & Hh1 & Ho1).
      change (objs (ifaces (set_sets _ w))) with (objs h) in Ho1.
      assert (Hw1 : set_ifaces h1 (set_sets (<[s := {| is_strong := is_strong x;
          bindings_ := (Some <$> (pre ++ [c])) ++ (junk ++ [None]) ++ (Some <$> rest) |}]> (binding_sets w)) w) =
        with_vector s x ((Some <$> (pre ++ [c])) ++ (junk ++ [None]) ++ (Some <$> rest)) h1 w0).
      { unfold w, with_vector, set_ifaces, set_sets. cbn. by rewrite insert_insert_eq. }
      rewrite Hw1. replace (S (length pre)) with (length (pre ++ [c])) by (rewrite length_app; cbn; lia).
      replace (S (length pre + length (o :: junk))) with (length (pre ++ [c]) + length (junk ++ [None]))%nat
        by (rewrite !length_app; cbn; lia).
      (** What stays is what it was: the old pointer is none of it. *)
      assert (Hkeep : forall b, b ∈ omap id junk ++ rest -> objs h1 !! b = objs h !! b).
      { intros b Hb. rewrite Ho1. destruct o as [a|]; [|done]. cbn. apply lookup_delete_ne. intros ->.
        cbn in Hd. apply NoDup_cons in Hd as [Hd _]. apply Hd. rewrite elem_of_app, elem_of_cons.
        apply elem_of_app in Hb as [?|?]; auto. }
      eapply wlp_mono; [apply (IH (pre ++ [c]) (junk ++ [None]) h1)|]; [done|by destruct junk|..].
      * apply Forall_app. split; [|by apply Forall_singleton; intros ?]. apply Forall_forall. intros o' Hin b ->.
        rewrite Hkeep; [|apply elem_of_app; left; apply list_elem_of_omap; by exists (Some b)].
        rewrite Forall_forall in Hslots. by apply (Hslots (Some b)).
      * rewrite Forall_forall in Hrest |- *. intros b Hb. unfold bound_at. rewrite Hkeep by (apply elem_of_app; by right). by apply Hrest.
      * rewrite omap_app. cbn. rewrite app_nil_r. apply (sublist_NoDup _ (omap id (o :: junk) ++ c :: rest)); [done|].
        apply sublist_app; [destruct o; cbn; [apply sublist_cons|]; reflexivity|apply sublist_cons; reflexivity].
      * intros n w' (junk' & h' & -> & -> & Hh' & Hlen & Hs' & Hd' & Hin & Hwo). exists junk', h'.
        unfold others, matching in *. cbn. rewrite Hm. cbn. rewrite <- app_assoc. split; [done|]. split; [done|]. split; [done|].
        split; [rewrite Hlen, length_app; cbn; lia|]. split; [done|]. split; [done|]. split.
        -- intros b Hb. destruct (Hin b Hb) as [[Hj|Hn%list_elem_of_singleton]%elem_of_app|Hb']; [left; by right|done|by right].
        -- rewrite Hwo, without_app, Ho1, without_comm. done.
Qed.

Lemma with_own_vector w s x : binding_sets w !! s = Some x -> w = with_vector s x (bindings_ x) (ifaces w) w.
Proof.
  intros Hs. unfold with_vector. assert (Hx : {| is_strong := is_strong x; bindings_ := bindings_ x |} = x) by by destruct x.
  rewrite Hx, insert_id by done. by destruct w.
Qed.

(** The first of the slots that are left behind is erased. *)
Lemma erase_slot_ok s x D o junk h w :
  hinv [] [] h -> slot_ok o (objs h) ->
  wlp (erase debug s (length D)) (with_vector s x ((Some <$> D) ++ o :: junk) h w) (fun _ w' =>
    exists h', w' = with_vector s x ((Some <$> D) ++ junk) h' w /\ hinv [] [] h' /\ objs h' = without o (objs h)).
Proof.
  intros Hh Hslot. set (v := (Some <$> D) ++ o :: junk). set (w1 := with_vector _ _ _ _ _).
  assert (Hv : binding_sets w1 !! s = Some {| is_strong := is_strong x; bindings_ := v |}) by apply lookup_insert_eq.
  unfold erase. wlp_step. eapply wlp_vector; [exact Hv|]. cbn [bindings_]. wlp_step.
  assert (Hat : v !! length D = Some o) by (unfold v; by rewrite list_lookup_middle by (by rewrite length_fmap)).
  eapply wlp_lift; [by rewrite Hat|]. wlp_step. eapply wlp_set_vector; [exact Hv|].
  assert (Hdel : delete (length D) v = (Some <$> D) ++ junk).
  { unfold v. rewrite <- (length_fmap Some D). by rewrite delete_middle. }
  rewrite Hdel. eapply wlp_mono; [by apply reset_slot_ok|]. intros [] w2 (h2 & -> & Hh2 & Ho2).
  exists h2. split; [|done]. unfold w1, with_vector, set_ifaces, set_sets. cbn. by rewrite insert_insert_eq.
Qed.

Lemma none_matching D : matching D = [] -> others D = D.
Proof.
  unfold matching, others. induction D as [|c D IH]; [done|]. cbn. destruct (m c); [done|]. cbn. intros H. by rewrite IH.
Qed.

(** What is left: the bindings of other implementations in their order, and behind them as
    many slots as there were bindings of the implementation, less one. *)
Lemma RemoveBindings_leaves s x bs w :
  hinv [] [] (ifaces w) -> binding_sets w !! s = Some x -> bindings_ x = Some <$> bs -> NoDup bs ->
  Forall (bound_at (objs (ifaces w))) bs -> matching bs <> [] ->
  wlp (RemoveBindings debug s i) w (fun _ w' => exists junk h',
    w' = with_vector s x ((Some <$> others bs) ++ junk) h' w /\ hinv [] [] h' /\
    S (length junk) = length (matching bs) /\ (forall b, Some b ∈ junk -> b ∈ matching bs) /\
    without_all junk (objs h') = without_all (Some <$> matching bs) (objs (ifaces w))).
Proof.
  intros Hw Hs Hfull Hd Hbs Hm. unfold RemoveBindings, remove_if. wlp_step. wlp_step. eapply wlp_vector; [exact Hs|]. wlp_step.
  rewrite Hfull. eapply wlp_mono; [by apply find_if_ok|]. intros n w1 (-> & D1 & D2 & -> & -> & Hm1 & HD2).
  assert (Happ : forall f, List.filter f (D1 ++ D2) = List.filter f D1 ++ List.filter f D2) by (intros f; apply List.filter_app).
  destruct HD2 as [->|(b & D & -> & Hb)].
  { destruct Hm. unfold matching in *. by rewrite Happ, Hm1. }
  assert (Ho : others (D1 ++ b :: D) = D1 ++ others D).
  { unfold others. rewrite Happ. fold (others D1). rewrite none_matching by done. cbn. by rewrite Hb. }
  assert (Hma : matching (D1 ++ b :: D) = b :: matching D).
  { unfold matching in *. rewrite Happ, Hm1. cbn. by rewrite Hb. }
  rewrite Ho, Hma. rewrite length_fmap, length_app. cbn [length].
  replace (length D1 + S (length D) - S (length D1))%nat with (length D) by lia.
  rewrite (with_own_vector w s x Hs) at 1. rewrite Hfull, fmap_app. cbn [fmap list_fmap].
  apply Forall_app in Hbs as [_ [Hbb HbD]%Forall_cons]. apply NoDup_app in Hd as (_ & _ & Hd).
  replace (S (length D1)) with (length D1 + length [Some b])%nat by (cbn; lia).
  eapply wlp_mono; [apply (remove_rest_ok s x w D D1 [Some b] (ifaces w)); try done|].
  { apply Forall_singleton. intros b' [= <-]. destruct Hbb as (y & Hy & _ & Hns). by exists y. }
  intros n w1 (junk & h & -> & -> & Hh & Hlen & Hslots & _ & Hin & Hwo).
  destruct junk as [|o junk]; [done|]. apply Forall_cons in Hslots as [Hslot _].
  eapply wlp_mono; [by apply erase_slot_ok|]. intros [] w2 (h2 & -> & Hh2 & Ho2). exists junk, h2.
  split; [done|]. split; [done|]. split; [by injection Hlen as ->|]. split.
  - intros b' Hb'. rewrite elem_of_cons. destruct (Hin b') as [[= ->]%list_elem_of_singleton|?]; [by right|by left|by right].
  - rewrite Ho2, without_comm. exact (eq_trans Hwo (without_comm (Some b) _ _)).
Qed.

(** Without such a binding, what [std::remove_if] returns is the end. *)
Lemma find_if_none bs w : Forall (bound_at (objs (ifaces w))) bs -> matching bs = [] ->
  find_if i (Some <$> bs) w = Ok (length bs, w).
Proof.
  unfold matching. induction bs as [|c bs IH]; intros Hbs Hm; [done|]. apply Forall_cons in Hbs as [(y & Hy & Hc & _) Hbs].
  cbn in Hm. destruct (m c) eqn:Hmc; [done|]. cbn [fmap list_fmap find_if].
  erewrite run_bind; [|unfold pred; erewrite run_bind; [|done]; unfold on_ifaces, get_binding, object_at;
    cbv [mbind M_bind get mret M_ret]; by rewrite Hy].
  cbn. rewrite Hc. rewrite set_ifaces_same. erewrite run_bind; [|by apply IH]. done.
Qed.
Lemma RemoveBindings_none s x bs w :
  binding_sets w !! s = Some x -> bindings_ x = Some <$> bs ->
  Forall (bound_at (objs (ifaces w))) bs -> matching bs = [] -> RemoveBindings debug s i w = Fault.
Proof.
  intros Hs Hfull Hbs Hm. unfold RemoveBindings, remove_if.
  assert (Hv : vector s w = Ok (Some <$> bs, w)).
  { unfold vector, set_at. cbv [mbind M_bind get]. rewrite Hs. cbn. by rewrite Hfull. }
  erewrite run_bind.
  2: { erewrite run_bind; [|exact Hv]. erewrite run_bind; [|by apply find_if_none]. rewrite length_fmap.
       replace (length bs - S (length bs))%nat with 0%nat by lia. done. }
  unfold erase. erewrite run_bind; [|exact Hv]. unfold mbind, M_bind. rewrite lookup_ge_None_2; [done|by rewrite length_fmap].
Qed.
End Remove.

(** ** Programs that keep the rules *)
Section RemoveOne.
Context (debug : bool).
Abbreviation sinv := (sinv debug).
Abbreviation hinv := (hinv debug).

(** The binding at an address has, or does not have, the implementation [i]. *)
Definition has_impl (i : impl) (os : gmap addr iobject) (b : addr) : Prop :=
  exists y, os !! b = Some (OBinding y) /\ impl_ y = i.
Definition has_other (i : impl) (os : gmap addr iobject) (b : addr) : Prop :=
  exists y, os !! b = Some (OBinding y) /\ impl_ y <> i.

(** A strong set that is idle has one binding of an implementation. *)
Lemma one_binding G w s x i :
  sinv G w -> binding_sets w !! s = Some x -> is_strong x = true -> s ∉ busy w -> i ∈ impls_in w x ->
  exists D1 b D2, bindings_of x = D1 ++ b :: D2 /\ b ∉ G /\ has_impl i (objs (ifaces w)) b /\
    forall c, c ∈ D1 \/ c ∈ D2 -> c <> b /\ has_other i (objs (ifaces w)) c.
Proof.
  intros Hw Hs Hst Hidle Hi. apply list_elem_of_bind in Hi as ([b|] & Hin & Hb); [|by apply elem_of_nil in Hin].
  apply in_vector in Hb. destruct (objs (ifaces w) !! b) as [[| | |y|]|] eqn:Hy; try by apply elem_of_nil in Hin.
  apply list_elem_of_singleton in Hin as ->. pose proof (bindings_once _ _ _ _ _ Hw Hs) as Hnd.
  assert (HG : forall c, c ∈ bindings_of x -> c ∉ G) by (intros c Hc; by eapply (idle_whole debug G w s x)).
  assert (Hother : forall c, c ∈ bindings_of x -> c <> b -> has_other (impl_ y) (objs (ifaces w)) c).
  { intros c Hc Hne. destruct (si_bound _ _ _ Hw _ _ _ Hs Hc) as (z & f & Hz & _). exists z. split; [done|]. intros He.
    apply Hne. assert (Hown : owns G w b (impl_ y)) by (exists s, x, y; auto 10).
    destruct (si_impls _ _ _ Hw _ _ Hown) as [_ Hu]. apply Hu. exists s, x, z. auto 10. }
  pose proof Hb as Hb0. apply list_elem_of_split in Hb as (D1 & D2 & HD). exists D1, b, D2.
  split; [done|]. split; [by apply HG|]. split; [by exists y|]. intros c Hc. rewrite HD in Hnd, Hother.
  apply NoDup_app in Hnd as (_ & Hdis & [Hb2 _]%NoDup_cons).
  assert (Hne : c <> b). { intros ->. destruct Hc as [Hc|Hc]; [|done]. apply (Hdis b Hc). by left. }
  split; [done|]. apply Hother; [|done]. rewrite elem_of_app, elem_of_cons. tauto.
Qed.

(** One binding leaves a set. *)
Lemma sinv_left G w s x D1 b D2 h :
  sinv G w -> binding_sets w !! s = Some x -> bindings_of x = D1 ++ b :: D2 -> b ∉ G -> hinv [] [] h ->
  objs h = delete b (objs (ifaces w)) -> sinv G (with_vector s x (Some <$> (D1 ++ D2)) h w).
Proof.
  intros Hw Hs HD HG Hh Ho. set (x' := {| is_strong := is_strong x; bindings_ := Some <$> (D1 ++ D2) |}).
  apply (sinv_remove debug G G w _ s x x' [b]); try done.
  - rewrite (si_full _ _ _ Hw _ _ Hs), HD, fmap_app. cbn. rewrite fmap_app. symmetry. apply Permutation_middle.
  - unfold x', bindings_of. cbn. by rewrite somes.
  - intros a. cbn. rewrite Ho. destruct (decide (a ∈ [b])) as [->%list_elem_of_singleton|Hne]; [apply lookup_delete_eq|].
    apply lookup_delete_ne. intros ->. apply Hne. by left.
  - intros b'. rewrite list_elem_of_singleton. split; [|tauto]. intros Hg. split; [done|]. by intros ->.
Qed.

Lemma RemoveBindings_ok G w s x i :
  sinv G w -> binding_sets w !! s = Some x -> is_strong x = true -> s ∉ busy w -> i ∈ impls_in w x ->
  wlp (RemoveBindings debug s i) w (fun _ w' => sinv G w' /\ skept w w').
Proof.
  intros Hw Hs Hst Hidle Hi. destruct (one_binding _ _ _ _ _ Hw Hs Hst Hidle Hi) as (D1 & b & D2 & HD & HG & Hb & Hother).
  set (m := fun c => (c =? b)%nat).
  assert (Hno : forall D, (forall c, c ∈ D -> c <> b) -> matching m D = [] /\ others m D = D).
  { intros D HD'. assert (Hm : matching m D = []); [|split; [done|by apply none_matching]].
    unfold matching. induction D as [|c D IH]; [done|]. cbn. unfold m at 1. rewrite (proj2 (Nat.eqb_neq c b)) by (apply HD'; by left).
    apply IH. intros c' Hc'. apply HD'. by right. }
  destruct (Hno D1) as [Hm1 Ho1]; [intros c Hc; apply Hother; by left|].
  destruct (Hno D2) as [Hm2 Ho2]; [intros c Hc; apply Hother; by right|].
  assert (Hm : matching m (D1 ++ b :: D2) = [b]).
  { unfold matching in *. rewrite List.filter_app, Hm1. cbn. unfold m at 1. by rewrite Nat.eqb_refl, Hm2. }
  assert (Ho : others m (D1 ++ b :: D2) = D1 ++ D2).
  { unfold others in *. rewrite List.filter_app, Ho1. cbn. unfold m at 1. by rewrite Nat.eqb_refl, Ho2. }
  eapply wlp_mono; [apply (RemoveBindings_leaves debug i m s x (D1 ++ b :: D2) w)|].
  - apply Hw.
  - done.
  - rewrite <- HD. by apply (si_full _ _ _ Hw s).
  - rewrite <- HD. by apply (bindings_once _ _ _ _ _ Hw Hs).
  - apply Forall_forall. intros c Hc. destruct (bound_not_strong w s c) as (y & Hy & Hns).
    { apply (si_bound _ _ _ Hw _ _ _ Hs). by rewrite HD. }
    exists y. split; [done|]. split; [|done]. unfold m. destruct (decide (c = b)) as [->|Hne].
    + destruct Hb as (y' & Hy' & <-). simplify_eq. by rewrite !Nat.eqb_refl.
    + destruct (Hother c) as [_ (y' & Hy' & Hi')].
      { rewrite elem_of_app, elem_of_cons in Hc. tauto. }
      simplify_eq. by rewrite (proj2 (Nat.eqb_neq _ _) Hi'), (proj2 (Nat.eqb_neq _ _) Hne).
  - by rewrite Hm.
  - intros [] w' (junk & h & -> & Hh & Hlen & _ & Hwo). rewrite Hm in Hlen, Hwo. destruct junk; [|done].
    rewrite Ho, app_nil_r. split; [by eapply sinv_left|]. split; [done|]. intros s' Hs'. cbn. apply lookup_insert_ne. by intros ->.
Qed.
End RemoveOne.
