(* ===== verification/BindingSetsSpec.v ===== *)
(** Programs that use sets of bindings: each binding is in one set as long as its pipe is
    open, and each implementation that a strong set owns is deleted at most once. *)
From stdpp Require Import base numbers list option gmap sets.
From Stdlib Require Import ZArith Lia.
From S2P Require Import Prelude Result CMem Buffer Descriptor Validate Serialization Router RouterFacts HandlesFacts.
From S2P Require Import Interfaces InterfacesFacts InterfacesOps InterfacesBinding InterfacesStrong InterfacesSpec.
From S2P Require Import BindingSets BindingSetsFacts BindingSetsCalls.
From Stdlib Require Import Permutation.
From S2P Require Handles ControlMessagesSpec InterfacesRoundtrip.
Section Spec.
Context (debug : bool) (impl_destructor : impl -> prog).
Abbreviation sinv := (sinv debug).
Abbreviation keeps := (keeps debug).

Lemma sets_then {A} (c : M world A) (k : A -> M world unit) G w :
  wlp c w (fun _ w' => sinv G w' /\ skept w w') -> (forall x, keeps (k x)) ->
  wlp (c ≫= k) w (fun _ w' => sinv G w' /\ skept w w').
Proof.
  intros Hc Hk. wlp_step. eapply wlp_mono; [exact Hc|]. intros x w1 [H1 K1].
  eapply wlp_mono; [by apply Hk|]. intros [] w2 [H2 K2]. split; [done|by transitivity w1].
Qed.
Lemma sets_require b (k : M world unit) w (Q : unit -> world -> Prop) :
  (b w = true -> wlp k w Q) -> wlp (require b;; k) w Q.
Proof. intros Hk. unfold require. do 3 wlp_step. destruct (b w); [wlp_step; by apply Hk|done]. Qed.


Lemma bind_assoc_sets {A B C} (c : M world A) (f : A -> M world B) (g : B -> M world C) w (Q : C -> world -> Prop) :
  wlp ((c ≫= f) ≫= g) w Q -> wlp (c ≫= fun x => f x ≫= g) w Q.
Proof. unfold gwlp, mbind, M_bind. by destruct (c w) as [[x w1]| | |]. Qed.

Lemma NewSet_ok G w strong : sinv G w -> wlp (BindingSet_new strong) w (fun _ w' => sinv G w' /\ skept w w').
Proof.
  intros Hw. unfold BindingSet_new, new_name. do 8 wlp_step. split; [by apply (sinv_new_set debug G w strong)|].
  split; [done|]. intros s Hs. cbn. apply lookup_insert_ne. pose proof (si_names _ _ _ Hw s Hs). lia.
Qed.

Lemma run_calls_keeps call : (forall a, keeps (call a)) -> forall a, keeps (run_calls debug true impl_destructor call a).
Proof.
  intros Hcall a.
  induction a as [|k IH|strong k IH|s i h k IH|s i k IH|s k IH|s k IH|s k IH|r res k IH]; intros G w Hw;
    cbn [run_calls]; unfold keep_rule; repeat (apply sets_require; intros ?); cbn [negb orb] in *;
    repeat match goal with
    | Hs : is_set _ _ = true |- _ => apply bool_decide_eq_true in Hs
    | Hs : idle _ _ = true |- _ => apply bool_decide_eq_true in Hs
    end.
  - by wlp_step.
  - unfold new_name. do 5 wlp_step. wlp_step. eapply wlp_mono; [apply IH; exact (sinv_new_impl debug G w Hw)|]. done.
  - apply sets_then; [by apply NewSet_ok|done].
  - apply bind_assoc_sets. apply sets_then; [by apply Add_ok|done].
  - apply sets_then; [|done]. unfold is_strong_set, may_remove in *.
    destruct (binding_sets w !! s) as [x|] eqn:Hx; [|done].
    match goal with Hr : _ && _ = true |- _ => apply andb_true_iff in Hr as [?%bool_decide_eq_true ?%bool_decide_eq_true] end.
    by apply (RemoveBindings_ok debug G w s x i).
  - apply sets_then; [|done]. by apply CloseAll_ok.
  - unfold BindingSet_size. destruct (binding_sets w !! s) as [x|] eqn:Hx; [|by destruct H].
    wlp_step. wlp_step. eapply wlp_vector; [exact Hx|]. wlp_step. by apply IH.
  - apply sets_then; [|done]. by apply BindingSet_destructor_ok.
  - apply sets_then; [|done]. by apply connection_error_keeps.
Qed.

Lemma run_prog_sets fuel a : keeps (run_prog debug true impl_destructor fuel a).
Proof. revert a. induction fuel as [|fuel IH]; intros a; apply run_calls_keeps; [done|exact IH]. Qed.

(** A program that keeps the rules runs as if there were none. *)
Lemma set_rule_watched b : watches (keep_rule true b) (keep_rule false b).
Proof. intros w. unfold keep_rule, require, mbind, M_bind, get. cbn. destruct (b w); [by right|by left]. Qed.

Section Watched.
Context (d e : impl -> M world unit) (de : forall i, watches (d i) (e i)).
Lemma delete_impl_of_watched x : watches (delete_impl_of d x) (delete_impl_of e x).
Proof. unfold delete_impl_of, delete_impl. repeat first [apply de|watch]. Qed.
Lemma CloseAllBindings_watched s : watches (CloseAllBindings debug d s) (CloseAllBindings debug e s).
Proof. unfold CloseAllBindings. repeat first [apply delete_impl_of_watched|watch]. Qed.
Lemma set_error_watched r result : watches (connection_error debug d r result) (connection_error debug e r result).
Proof. unfold connection_error, while_busy, run_closure. repeat first [apply delete_impl_of_watched|watch]. Qed.
End Watched.

Lemma set_calls_watched call call' a : (forall a, watches (call a) (call' a)) ->
  watches (run_calls debug true impl_destructor call a) (run_calls debug false impl_destructor call' a).
Proof.
  intros Hcall. induction a; cbn [run_calls]; unfold BindingSet_destructor, while_busy;
    repeat first [done|apply set_rule_watched|watch|apply CloseAllBindings_watched|apply set_error_watched].
Qed.
Lemma set_prog_watched fuel a :
  watches (run_prog debug true impl_destructor fuel a) (run_prog debug false impl_destructor fuel a).
Proof.
  revert a. induction fuel as [|fuel IH]; intros a; apply set_calls_watched; [|exact IH]. intros; apply watches_refl.
Qed.

Lemma empty_sinv h : hinv debug [] [] h -> objs h = ∅ -> sinv [] (empty_world h).
Proof.
  intros Hh Ho. split; cbn; try done; try (intros *; rewrite ?Ho, lookup_empty; done).
  - constructor.
  - by intros b i (s & x & y & Hs & _).
  - by intros b ?%elem_of_nil.
  - intros n _. rewrite !lookup_empty. split; [done|]. split; [done|]. split; [set_solver|apply not_elem_of_nil].
  - split; [constructor|]. by intros i ?%elem_of_nil.
  - by intros s ?%elem_of_nil.
Qed.

(** C32: A program may do this with sets of bindings: add bindings, remove and close them,
    destroy sets, also while the destructor of an implementation runs, and whichever
    connections fail. The rules: an implementation is in one strong set, once; the one that
    is removed is in the set; while the code of a set runs, the destructors that it runs
    leave the set alone, and its other bindings do not fail. As long as the program keeps
    them - which is when the run that is watched for them does not stop - no assertion
    fails, no set or binding is used after its end and no iterator after it is invalid. The
    bindings that exist are those that are in a set, each in one set, once, and no set has a
    null pointer; a binding's error handler is the function that removes it from its set. An
    implementation in a strong set is in no other place of one and was not deleted, and none
    is deleted twice. Every pipe that came in is closed once or held by a binding. *)
Theorem sets_own_their_bindings hs l ls fuel a :
  MOJO_HANDLE_INVALID ∉ hs -> Forall (granted debug) l -> Forall (Forall (answer_ok false)) ls ->
  run_prog debug true impl_destructor fuel a (empty_world (Interfaces.empty_heap hs l ls)) <> OutOfFuel ->
  exists w, run_prog debug false impl_destructor fuel a (empty_world (Interfaces.empty_heap hs l ls)) = Ok (tt, w) /\
    (forall s x, binding_sets w !! s = Some x -> None ∉ bindings_ x) /\
    NoDup (all_bindings w) /\ (forall a, is_Some (objs (ifaces w) !! a) <-> a ∈ all_bindings w) /\
    (forall s x b, binding_sets w !! s = Some x -> Some b ∈ bindings_ x -> bound_to w s b) /\
    (forall b i, owns [] w b i -> i ∈ impls w /\ forall b', owns [] w b' i -> b' = b) /\
    NoDup (deleted w) /\ (forall i, i ∈ deleted w -> i ∉ impls w) /\
    took (Handles.trace (proc (ifaces w))) ≡ₚ gone (Handles.trace (proc (ifaces w))) ++ Interfaces.held (ifaces w).
Proof.
  intros Hv Hl Hls Hrules.
  destruct (watches_result _ _ _ _ (set_prog_watched fuel a)
    (run_prog_sets fuel a [] _ (empty_sinv _ (empty_hinv debug hs l ls Hv Hl Hls) eq_refl)) Hrules) as ([] & w & Hrun & Hw & _).
  exists w. split; [exact Hrun|]. pose proof Hw as [].
  split; [|split; [done|split; [|split; [|split; [done|split; [apply si_deleted|split; [apply si_deleted|]]]]]]].
  - intros s x Hs Hn. rewrite (si_full s x Hs) in Hn. by apply list_elem_of_fmap in Hn as (? & ? & _).
  - intros b. split; [by intros [o Ho]; eapply si_only|]. intros (s & x & Hs & Hb)%elem_of_all.
    destruct (si_bound s x b Hs Hb) as (y & f & Hy & _). by eexists.
  - intros s x b Hs Hb%in_vector. by eapply si_bound.
  - destruct (hi_owned _ _ _ _ si_heap) as [_ _ _ _ _ _ _ Hacc _ _].
    assert (He : Handles.held (proc (ifaces w)) = []) by (unfold Handles.held; by rewrite (hi_scoped _ _ _ _ si_heap)).
    by rewrite He, app_nil_r in Hacc.
Qed.
End Spec.

(** * Sets of bindings at concrete inputs *)

Module BindingSetSamples.
Definition two_pipes : world := empty_world (Interfaces.empty_heap {[5; 6]} [] [[]; []]).
Definition no_destructor (i : impl) : prog := Exit.

(** Two implementations in a strong set; the connection of the first fails; the second is
    removed. *)
Definition fail_and_remove : prog :=
  NewImpl (fun i => NewImpl (fun j => NewSet true (fun s => Add s i 5 (Add s j 6
    (Fail 0 MOJO_SYSTEM_RESULT_FAILED_PRECONDITION (Size s (fun n =>
      if (n =? 1)%nat then Remove s j Exit else DestroySet s Exit))))))).

(** Another implementation than those in the set is removed. *)
Definition remove_none : prog :=
  NewImpl (fun i => NewImpl (fun j => NewSet true (fun s => Add s i 5 (Remove s j Exit)))).
(** One that has two bindings, with another binding behind them; then the set is closed. *)
Definition three_pipes : world := empty_world (Interfaces.empty_heap {[5; 6; 7]} [] [[]; []; []]).
Definition remove_two_of_three (close : bool) : prog :=
  NewImpl (fun i => NewImpl (fun j => NewSet true (fun s => Add s i 5 (Add s i 6 (Add s j 7 (Remove s i
    (if close then CloseAll s Exit else Exit))))))).
End BindingSetSamples.
Import BindingSetSamples.

Lemma fail_and_remove_runs : exists w,
  run_prog true false no_destructor 1 fail_and_remove two_pipes = Ok (tt, w) /\
  bindings_ <$> binding_sets w !! 2%nat = Some [] /\ deleted w = [0%nat] /\
  gone (Handles.trace (proc (ifaces w))) = [6; 5] /\ Interfaces.held (ifaces w) = [].
Proof.
  destruct (outcome_returns (run_prog true false no_destructor 1 fail_and_remove two_pipes) (fun _ => true)) as ([[] w] & Hrun & _);
    [vm_compute; reflexivity|].
  exists w. split; [exact Hrun|]. revert Hrun. vm_compute. by intros [= <-].
Qed.

Lemma sets_own_their_bindings_witness : exists w,
  run_prog true false no_destructor 1 fail_and_remove two_pipes = Ok (tt, w) /\
  took (Handles.trace (proc (ifaces w))) ≡ₚ [6; 5] /\ deleted w = [0%nat] /\ NoDup (deleted w).
Proof.
  destruct fail_and_remove_runs as (w & Hrun & _ & Hdel & Hgone & Hheld). exists w. split; [exact Hrun|].
  destruct (sets_own_their_bindings true no_destructor {[5; 6]} [] [[]; []] 1 fail_and_remove
    ltac:(intros [H%elem_of_singleton|H%elem_of_singleton]%elem_of_union; discriminate)
    ltac:(constructor) ltac:(repeat constructor)) as (w' & Hrun' & _ & _ & _ & _ & _ & Hnd & _ & Hacc).
  - apply outcome_goes_on. vm_compute. reflexivity.
  - change (empty_world _) with two_pipes in Hrun'. rewrite Hrun in Hrun'. injection Hrun' as <-.
    rewrite Hgone, Hheld in Hacc. auto.
Defined.

(** Bindings that have the implementation [i]. *)
Definition has_implementation (i : impl) (w : world) (b : addr) : bool :=
  match objs (ifaces w) !! b with Some (OBinding y) => (impl_ y =? i)%nat | _ => false end.

(** C38: [RemoveBindings] is to remove the bindings of an implementation; it erases one
    element, whatever number there is. With none, that is what the end of the vector refers
    to, which is undefined. With several, the bindings of other implementations are moved to
    the front in their order, one element behind them is erased, and so all but one of the
    elements that were to go stay: bindings of the implementation, and null pointers. *)
Theorem RemoveBindings_erases_one debug s i x bs w :
  hinv debug [] [] (ifaces w) -> binding_sets w !! s = Some x -> bindings_ x = Some <$> bs -> NoDup bs ->
  Forall (fun b => exists y, objs (ifaces w) !! b = Some (OBinding y) /\
            forall t, connection_error_handler_ y <> StrongError t) bs ->
  match matching (has_implementation i w) bs with
  | [] => RemoveBindings debug s i w = Fault
  | _ :: less_one =>
      wlp (RemoveBindings debug s i) w (fun _ w' => exists junk,
        bindings_ <$> binding_sets w' !! s = Some ((Some <$> others (has_implementation i w) bs) ++ junk) /\
        length junk = length less_one /\ forall b, Some b ∈ junk -> b ∈ matching (has_implementation i w) bs)
  end.
Proof.
  intros Hw Hs Hfull Hd Hbs. set (m := has_implementation i w).
  assert (Hbound : Forall (bound_at i m (objs (ifaces w))) bs).
  { eapply Forall_impl; [exact Hbs|]. intros b (y & Hy & Hns). exists y. split; [done|]. split; [|done].
    unfold m, has_implementation. by rewrite Hy. }
  destruct (matching m bs) as [|c less_one] eqn:Hm; [by apply (RemoveBindings_none debug i m s x bs)|].
  eapply wlp_mono; [apply (RemoveBindings_leaves debug i m s x bs w); try done; by rewrite Hm|].
  intros [] w' (junk & h & -> & _ & Hlen & Hin & _). rewrite Hm in Hlen, Hin. exists junk.
  split; [|split; [by injection Hlen|done]]. cbn. by rewrite lookup_insert_eq.
Qed.

(** Control messages in the layout of the examples. *)
Import ControlMessagesSpec.Samples.

(** Three bindings in a strong set, the first and the third of which have the
    implementation 7: one element stays behind that of the other. *)
Definition three_bindings : Interfaces.prog :=
  Interfaces.NewBinding 7 (fun _ => Interfaces.NewBinding 8 (fun _ => Interfaces.NewBinding 7 (fun _ => Interfaces.Exit))).
Definition run_three := Interfaces.run_prog true 0 64 true (fun _ _ => Interfaces.Exit) (fun _ => Interfaces.Exit) 1 three_bindings
  (Interfaces.empty_heap ∅ [] []).
Lemma RemoveBindings_erases_one_witness : exists h, run_three = Ok (tt, h) /\
  let w := set_sets {[5%nat := {| is_strong := true; bindings_ := [Some 1; Some 2; Some 3]%nat |}]} (empty_world h) in
  wlp (RemoveBindings true 5 7) w (fun _ w' => exists o, bindings_ <$> binding_sets w' !! 5%nat = Some [Some 2%nat; o]) /\
  RemoveBindings true 5 9 w = Fault.
Proof.
  assert (Hm : 0 < 64 < 2 ^ 63 /\ IsAligned 64 = true) by (split; [lia|reflexivity]).
  pose proof (InterfacesSpec.run_prog_ok true 0 64 Hm InterfacesRoundtrip.query_fits InterfacesRoundtrip.require_fits
    (fun _ _ => Interfaces.Exit) (fun _ => Interfaces.Exit) 1 three_bindings (Interfaces.empty_heap ∅ [] [])
    (empty_hinv true ∅ [] [] ltac:(set_solver) ltac:(constructor) ltac:(constructor))) as Hok.
  destruct (outcome_returns run_three (fun x => match objs x.2 !! 1%nat, objs x.2 !! 2%nat, objs x.2 !! 3%nat with
      | Some (OBinding {| impl_ := 7; connection_error_handler_ := NoHandler |}),
        Some (OBinding {| impl_ := 8; connection_error_handler_ := NoHandler |}),
        Some (OBinding {| impl_ := 7; connection_error_handler_ := NoHandler |}) => true
      | _, _, _ => false
      end)) as ([[] h] & Hrun & Hobjs); [vm_compute; reflexivity|].
  exists h. split; [exact Hrun|]. intros w.
  pose proof (wlp_result _ _ _ _ _ Hok Hrun) as [Hh _]. cbn [snd] in Hobjs.
  destruct (objs h !! 1%nat) as [[| | |y1|]|] eqn:H1; try done. destruct y1 as [? [|[|[|[|[|[|[|[|]]]]]]]] []]; try done.
  destruct (objs h !! 2%nat) as [[| | |y2|]|] eqn:H2; try done. destruct y2 as [? [|[|[|[|[|[|[|[|[|]]]]]]]]] []]; try done.
  destruct (objs h !! 3%nat) as [[| | |y3|]|] eqn:H3; try done. destruct y3 as [? [|[|[|[|[|[|[|[|]]]]]]]] []]; try done.
  assert (Hbs : Forall (fun b => exists y, objs (ifaces w) !! b = Some (OBinding y) /\
            forall t, connection_error_handler_ y <> StrongError t) [1; 2; 3]%nat)
    by (repeat constructor; eexists; split; try eassumption; done).
  assert (Hd : NoDup [1; 2; 3]%nat) by (apply (bool_decide_unpack _); vm_compute; reflexivity).
  pose proof (fun i => RemoveBindings_erases_one true 5 i {| is_strong := true; bindings_ := [Some 1; Some 2; Some 3]%nat |}
    [1; 2; 3]%nat w Hh (lookup_singleton_eq _ _) eq_refl Hd Hbs) as H. split.
  - specialize (H 7%nat). unfold matching, others, has_implementation in H. cbn in H. rewrite H1, H2, H3 in H. cbn in H.
    eapply wlp_mono; [exact H|]. intros [] w' ([|o [|? ?]] & Hv & Hlen & _); try done. by exists o.
  - specialize (H 9%nat). unfold matching, others, has_implementation in H. cbn in H. rewrite H1, H2, H3 in H. exact H.
Defined.

(** With another binding behind two of the implementation a null pointer stays, which
    closing the set then follows; programs that do so are what the rules stop. *)
Lemma null_pointer_stays debug :
  match run_prog debug false no_destructor 1 (remove_two_of_three false) three_pipes with
  | Ok (_, w) => bindings_ <$> binding_sets w !! 2%nat = Some [Some 3%nat; None]
  | _ => False
  end /\
  run_prog debug false no_destructor 1 (remove_two_of_three true) three_pipes = Fault /\
  run_prog debug true no_destructor 1 (remove_two_of_three true) three_pipes = OutOfFuel /\
  run_prog debug true no_destructor 1 remove_none two_pipes = OutOfFuel.
Proof. destruct debug; vm_compute; auto. Qed.
