(* ===== verification/Callbacks.v ===== *)
(** Callbacks and the reference counts that they share what they run with:
    src/cpp/bindings/lib/shared_data.h, lib/shared_ptr.h and callback.h. *)
From stdpp Require Import base numbers list option gmap sets.
From Stdlib Require Import ZArith Lia.
From S2P Require Import Prelude Result.

(** * Objects

    A holder and the runnable that it owns have identities. The members of a runnable are
    callbacks that it has captured: what it runs is a name. A [SharedData], which is all
    that a [SharedPtr] and a [Callback] have, is the holder that it refers to; it is a
    variable of the program, or captured. *)
Abbreviation var := nat.
Abbreviation hid := nat.
Abbreviation rid := nat.

Record Holder := {
  value_ptr : option rid;
  ref_count_ : Z;
}.
Record Runnable := {
  code : nat;
  captured : list hid;
}.
Inductive loc :=
  | Var (x : var)
  | Captured (r : rid) (i : nat).

(** The holders, the runnables and the variables that exist, and what was deleted, the
    last first. *)
Record heap := {
  holders : gmap hid Holder;
  runnables : gmap rid Runnable;
  vars : gmap var hid;
  next_id : nat;
  deleted : list rid;
}.
Definition empty_heap : heap := {| holders := ∅; runnables := ∅; vars := ∅; next_id := 0; deleted := [] |}.

Definition set_holders (x : gmap hid Holder) (w : heap) : heap :=
  {| holders := x; runnables := runnables w; vars := vars w; next_id := next_id w; deleted := deleted w |}.
Definition set_runnables (x : gmap rid Runnable) (w : heap) : heap :=
  {| holders := holders w; runnables := x; vars := vars w; next_id := next_id w; deleted := deleted w |}.
Definition set_vars (x : gmap var hid) (w : heap) : heap :=
  {| holders := holders w; runnables := runnables w; vars := x; next_id := next_id w; deleted := deleted w |}.

Definition new_id : M heap nat :=
  w ← get;
  put {| holders := holders w; runnables := runnables w; vars := vars w; next_id := S (next_id w); deleted := deleted w |};;
  mret (next_id w).

(** Access to an object that is gone is undefined. *)
Definition holder_at (h : hid) : M heap Holder := w ← get; lift (of_option (holders w !! h)).
Definition runnable_at (r : rid) : M heap Runnable := w ← get; lift (of_option (runnables w !! r)).
Definition read (x : loc) : M heap hid :=
  match x with
  | Var x => w ← get; lift (of_option (vars w !! x))
  | Captured r i => f ← runnable_at r; lift (of_option (captured f !! i))
  end.
Definition write (x : var) (h : hid) : M heap unit :=
  read (Var x);; modify (fun w => set_vars (<[x := h]> (vars w)) w).

(** * shared_data.h *)

Definition INT_MAX : Z := 2 ^ 31 - 1.

Definition Holder_new (ptr : option rid) : M heap hid :=
  h ← new_id;
  modify (fun w => set_holders (<[h := {| value_ptr := ptr; ref_count_ := 1 |}]> (holders w)) w);;
  mret h.

(** The count is an [int], of which the overflow is undefined. *)
Definition Retain (h : hid) : M heap unit :=
  x ← holder_at h;
  if ref_count_ x =? INT_MAX then lift Fault
  else modify (fun w => set_holders (<[h := {| value_ptr := value_ptr x; ref_count_ := ref_count_ x + 1 |}]> (holders w)) w).

(** An object is gone when its destructor starts. The members of a runnable are destroyed
    in the reverse order. [fuel] bounds the depth of what is deleted with the holder. *)
Fixpoint Release (fuel : nat) (h : hid) : M heap unit :=
  match fuel with
  | O => lift OutOfFuel
  | S fuel' =>
      x ← holder_at h;
      if ref_count_ x - 1 =? 0 then
        modify (fun w => set_holders (delete h (holders w)) w);;
        match value_ptr x with
        | None => mret tt
        | Some r =>
            f ← runnable_at r;
            modify (fun w => {| holders := holders w; runnables := delete r (runnables w); vars := vars w;
                                next_id := next_id w; deleted := r :: deleted w |});;
            for_each (R := False) (rev (captured f)) (fun h' => Release fuel' h';; mret None);;
            mret tt
        end
      else modify (fun w => set_holders (<[h := {| value_ptr := value_ptr x; ref_count_ := ref_count_ x - 1 |}]> (holders w)) w)
  end.
(** Every holder is deleted once. *)
Definition holder_Release (h : hid) : M heap unit := w ← get; Release (S (size (holders w))) h.

Definition new_var (h : hid) : M heap var :=
  x ← new_id; modify (fun w => set_vars (<[x := h]> (vars w)) w);; mret x.

Definition SharedData_new : M heap var := h ← Holder_new None; new_var h.
Definition SharedData_copy (other : loc) : M heap var :=
  h ← read other; x ← new_var h; Retain h;; mret x.
Definition SharedData_destructor (this : var) : M heap unit :=
  h ← read (Var this);
  holder_Release h;;
  modify (fun w => set_vars (delete this (vars w)) w).
Definition SharedData_assign (this : var) (other : loc) : M heap unit :=
  h ← read (Var this);
  h' ← read other;
  if (h' =? h)%nat then mret tt
  else
    holder_Release h;;
    h' ← read other;
    write this h';;
    Retain h'.
Definition SharedData_reset (this : var) : M heap unit :=
  h ← read (Var this);
  holder_Release h;;
  h' ← Holder_new None;
  write this h'.

(** * shared_ptr.h *)

Definition SharedPtr_new (ptr : rid) : M heap var :=
  x ← SharedData_new;
  h ← read (Var x);
  v ← holder_at h;
  modify (fun w => set_holders (<[h := {| value_ptr := Some ptr; ref_count_ := ref_count_ v |}]> (holders w)) w);;
  mret x.
Definition SharedPtr_get (this : loc) : M heap (option rid) :=
  h ← read this; v ← holder_at h; mret (value_ptr v).

(** * callback.h *)

(** [new sink_type(sink)]: what the sink has captured is copied. *)
Fixpoint copy_all (l : list loc) : M heap (list hid) :=
  match l with
  | [] => mret []
  | x :: l => h ← read x; Retain h;; hs ← copy_all l; mret (h :: hs)
  end.
Definition new_runnable (c : nat) (l : list loc) : M heap rid :=
  hs ← copy_all l;
  r ← new_id;
  modify (fun w => set_runnables (<[r := {| code := c; captured := hs |}]> (runnables w)) w);;
  mret r.

Definition Callback_null : M heap var := SharedData_new.
Definition Callback_runnable (runnable : rid) : M heap var := SharedPtr_new runnable.
Definition Callback_sink (c : nat) (l : list loc) : M heap var :=
  this ← SharedData_new;
  sink ← new_runnable c l;
  temporary ← SharedPtr_new sink;
  SharedData_assign this (Var temporary);;
  SharedData_destructor temporary;;
  mret this.
(** [run] runs the code of a name, with the runnable that it is called on. *)
Definition Callback_Run (run : nat -> rid -> M heap unit) (this : loc) : M heap unit :=
  sink ← SharedPtr_get this;
  match sink with
  | None => mret tt
  | Some r => f ← runnable_at r; run (code f) r
  end.
Definition is_null (this : loc) : M heap bool := r ← SharedPtr_get this; mret (bool_decide (r = None)).
Definition Callback_reset (this : var) : M heap unit := SharedData_reset this.

(** * Programs

    Code that uses callbacks, and what the callbacks run. It uses those that it has, and
    has fewer copies of all than a count can count. The rule: a callback that is
    assigned from is not captured. With [rules] the program is watched, and ends when
    it breaks it; without, the code runs on. *)
Inductive prog :=
  | Exit
  | NewNull (k : var -> prog)
  | NewCallback (c : nat) (l : list loc) (k : var -> prog)
  | NewRunnable (c : nat) (l : list loc) (k : var -> prog)
  | Copy (x : loc) (k : var -> prog)
  | Assign (x : var) (y : loc) (k : prog)
  | ResetCallback (x : var) (k : prog)
  | Destroy (x : var) (k : prog)
  | IsNull (x : loc) (k : bool -> prog)
  | Run (x : loc) (k : prog).

Definition refs (w : heap) : list hid :=
  (map_to_list (vars w) ≫= fun x => [x.2]) ++ (map_to_list (runnables w) ≫= fun x => captured x.2).

Definition require (b : heap -> bool) : M heap unit := w ← get; if b w then mret tt else lift OutOfFuel.
Definition exists_at (x : loc) (w : heap) : bool :=
  match x with
  | Var x => bool_decide (is_Some (vars w !! x))
  | Captured r i =>
      match runnables w !! r with Some f => bool_decide (is_Some (captured f !! i)) | None => false end
  end.
Definition few (n : nat) (w : heap) : bool := Z.of_nat (length (refs w)) + Z.of_nat n + 2 <? INT_MAX.
Definition not_captured (x : loc) : bool := match x with Var _ => true | Captured _ _ => false end.

Section Run.
Context (rules : bool).
(** What the runnable of a name runs: it can name what it has captured. *)
Context (run_code : nat -> rid -> prog).

Fixpoint run_calls (call : prog -> M heap unit) (a : prog) : M heap unit :=
  let run_calls := run_calls call in
  match a with
  | Exit => mret tt
  | NewNull k => x ← Callback_null; run_calls (k x)
  | NewCallback c l k =>
      require (fun w => forallb (fun x => exists_at x w) l);; require (few (length l));;
      x ← Callback_sink c l; run_calls (k x)
  | NewRunnable c l k =>
      require (fun w => forallb (fun x => exists_at x w) l);; require (few (length l));;
      r ← new_runnable c l; x ← Callback_runnable r; run_calls (k x)
  | Copy x k => require (exists_at x);; require (few 1);; y ← SharedData_copy x; run_calls (k y)
  | Assign x y k =>
      require (exists_at (Var x));; require (exists_at y);; require (few 1);;
      require (fun _ => negb rules || not_captured y);;
      SharedData_assign x y;; run_calls k
  | ResetCallback x k => require (exists_at (Var x));; Callback_reset x;; run_calls k
  | Destroy x k => require (exists_at (Var x));; SharedData_destructor x;; run_calls k
  | IsNull x k => require (exists_at x);; b ← is_null x; run_calls (k b)
  | Run x k => require (exists_at x);; Callback_Run (fun c r => call (run_code c r)) x;; run_calls k
  end.

(** [fuel] bounds the depth of callbacks that run callbacks. *)
Fixpoint run_prog (fuel : nat) : prog -> M heap unit :=
  run_calls (match fuel with O => fun _ => lift OutOfFuel | S fuel' => run_prog fuel' end).
End Run.
