(* ===== verification/CallbacksFacts.v ===== *)
(** The reference counts are right: a runnable is deleted when the last callback that
    refers to it goes, and not before. *)
From stdpp Require Import base numbers list option gmap sets.
From Stdlib Require Import ZArith Lia.
From S2P Require Import Prelude Result HandlesFacts Callbacks.
From Stdlib Require Import Permutation.

(** * The invariant *)

Definition count (h : hid) (l : list hid) : Z := Z.of_nat (count_occ Nat.eq_dec l h).

Lemma count_perm h l l' : l ≡ₚ l' -> count h l = count h l'.
Proof. intros Hl. unfold count. f_equal. revert h. by apply Permutation_count_occ. Qed.
Lemma count_cons h h' l : count h (h' :: l) = count h l + (if decide (h' = h) then 1 else 0).
Proof. unfold count. cbn. destruct (Nat.eq_dec h' h); destruct (decide (h' = h)); lia || done. Qed.
Lemma count_pos h l : h ∈ l <-> 0 < count h l.
Proof.
  unfold count. rewrite list_elem_of_In, (count_occ_In Nat.eq_dec). lia.
Qed.
Lemma count_le h l : count h l <= Z.of_nat (length l).
Proof. unfold count. pose proof (count_occ_bound Nat.eq_dec h l). lia. Qed.

(** What holds while code has the references [l] and the runnables [rs] in hand. *)
Record cinv (l : list hid) (rs : list rid) (w : heap) : Prop := {
  ci_count : forall h x, holders w !! h = Some x -> ref_count_ x = count h (l ++ refs w) /\ 0 < ref_count_ x;
  ci_refs : forall h, h ∈ l ++ refs w -> is_Some (holders w !! h);
  ci_owner : forall h x r, holders w !! h = Some x -> value_ptr x = Some r -> r ∉ rs /\
    forall h' x', holders w !! h' = Some x' -> value_ptr x' = Some r -> h' = h;
  ci_runnables : forall r, is_Some (runnables w !! r) <->
    r ∈ rs \/ exists h x, holders w !! h = Some x /\ value_ptr x = Some r;
  ci_fresh : forall n, (next_id w <= n)%nat ->
    holders w !! n = None /\ runnables w !! n = None /\ vars w !! n = None /\ n ∉ deleted w;
  ci_deleted : NoDup (deleted w) /\ forall r, r ∈ deleted w -> runnables w !! r = None;
  (** Nothing refers to what was made after it. *)
  ci_older : forall h x r, holders w !! h = Some x -> value_ptr x = Some r -> (r < h)%nat;
  ci_captured : forall r f h, runnables w !! r = Some f -> h ∈ captured f -> (h < r)%nat;
}.

Lemma cinv_perm l l' rs w : cinv l rs w -> l ≡ₚ l' -> cinv l' rs w.
Proof.
  intros [] Hl. split; try done.
  - intros h x Hx. destruct (ci_count0 h x Hx) as [-> ?]. split; [|done]. apply count_perm. by rewrite Hl.
  - intros h. rewrite <- Hl. apply ci_refs0.
Qed.

Lemma cinv_vars l l' rs vs vs' w :
  cinv l rs (set_vars vs w) -> (forall n, (next_id w <= n)%nat -> vs' !! n = None) ->
  l' ++ refs (set_vars vs' w) ≡ₚ l ++ refs (set_vars vs w) -> cinv l' rs (set_vars vs' w).
Proof.
  intros [] Hf Hl. split; try done.
  - intros h x Hx. destruct (ci_count0 h x Hx) as [-> ?]. split; [|done]. apply count_perm. by rewrite Hl.
  - intros h. rewrite Hl. apply ci_refs0.
  - intros n Hn. destruct (ci_fresh0 n Hn) as (? & ? & _ & ?). cbn. auto.
Qed.

Lemma set_vars_same w : set_vars (vars w) w = w.
Proof. by destruct w. Qed.

Definition singles (vs : gmap var hid) : list hid := map_to_list vs ≫= fun x => [x.2].
Definition captures (rs : gmap rid Runnable) : list hid := map_to_list rs ≫= fun x => captured x.2.
Lemma refs_split w : refs w = singles (vars w) ++ captures (runnables w).
Proof. done. Qed.

Lemma singles_insert vs x h : vs !! x = None -> singles (<[x := h]> vs) ≡ₚ h :: singles vs.
Proof. apply (collect_insert (fun h => [h])). Qed.
Lemma singles_delete vs x h : vs !! x = Some h -> singles vs ≡ₚ h :: singles (delete x vs).
Proof. apply (collect_delete (fun h => [h])). Qed.

(** The variable [x] is put in hand, or a reference in hand becomes a variable. *)
Lemma cinv_take l rs w x h :
  cinv l rs w -> vars w !! x = Some h -> cinv (h :: l) rs (set_vars (delete x (vars w)) w).
Proof.
  intros Hw Hx. rewrite <- (set_vars_same w) in Hw. eapply cinv_vars; [exact Hw| |].
  - intros n Hn. destruct (ci_fresh _ _ _ Hw n Hn) as (_ & _ & Hv & _). cbn in Hv. apply lookup_delete_None. by right.
  - rewrite !refs_split. cbn [set_vars vars runnables]. rewrite (singles_delete _ _ _ Hx). cbn.
    apply Permutation_middle.
Qed.
Lemma cinv_store l rs vs w x h :
  cinv (h :: l) rs (set_vars vs w) -> vs !! x = None -> (x < next_id w)%nat ->
  cinv l rs (set_vars (<[x := h]> vs) w).
Proof.
  intros Hw Hx Hlt. eapply cinv_vars; [exact Hw| |].
  - intros n Hn. rewrite lookup_insert_ne by lia. by apply (ci_fresh _ _ _ Hw n Hn).
  - rewrite !refs_split. cbn [set_vars vars runnables]. rewrite (singles_insert _ _ _ Hx). cbn. symmetry. apply Permutation_middle.
Qed.

(** * References *)

Lemma wp_holder_at w h x (Q : Holder -> heap -> Prop) : holders w !! h = Some x -> Q x w -> wp (holder_at h) w Q.
Proof. intros Hh HQ. unfold holder_at. do 2 wp_step. rewrite Hh. by apply (wp_lift _ x). Qed.
Lemma wp_runnable_at w r f (Q : Runnable -> heap -> Prop) : runnables w !! r = Some f -> Q f w -> wp (runnable_at r) w Q.
Proof. intros Hr HQ. unfold runnable_at. do 2 wp_step. rewrite Hr. by apply (wp_lift _ f). Qed.
Lemma wp_read_var w x h (Q : hid -> heap -> Prop) : vars w !! x = Some h -> Q h w -> wp (read (Var x)) w Q.
Proof. intros Hx HQ. unfold read. do 2 wp_step. rewrite Hx. by apply (wp_lift _ h). Qed.
Lemma wp_write w x h h' (Q : unit -> heap -> Prop) :
  vars w !! x = Some h -> Q tt (set_vars (<[x := h']> (vars w)) w) -> wp (write x h') w Q.
Proof. intros Hx HQ. unfold write. wp_step. eapply wp_read_var; [done|]. by wp_step. Qed.

(** One holder changes its count, or goes. *)
Lemma cinv_recount l l' rs w h x n :
  cinv l rs w -> holders w !! h = Some x -> 0 < n -> n = count h (l' ++ refs w) ->
  (forall h', h' <> h -> count h' (l' ++ refs w) = count h' (l ++ refs w)) ->
  cinv l' rs (set_holders (<[h := {| value_ptr := value_ptr x; ref_count_ := n |}]> (holders w)) w).
Proof.
  intros [] Hh Hn Hc Hoth.
  assert (Hptr : forall h' x' r, <[h := {| value_ptr := value_ptr x; ref_count_ := n |}]> (holders w) !! h' = Some x' ->
    value_ptr x' = Some r -> exists x0, holders w !! h' = Some x0 /\ value_ptr x0 = Some r).
  { intros h' x' r [[<- <-]|[_ H]]%lookup_insert_Some Hr; eauto. }
  split; cbn [holders set_holders runnables vars next_id deleted]; change (refs (set_holders _ w)) with (refs w).
  - intros h' x' [[<- <-]|[Hne H]]%lookup_insert_Some; [by rewrite Hc in *|]. rewrite Hoth by done. by apply ci_count0.
  - intros h' Hin. apply lookup_insert_is_Some'. destruct (decide (h = h')) as [|Hne]; [by left|right].
    apply ci_refs0, count_pos. rewrite <- Hoth by done. by apply count_pos.
  - intros h' x' r Hx' Hr. destruct (Hptr _ _ _ Hx' Hr) as (x0 & Hx0 & Hr0). destruct (ci_owner0 _ _ _ Hx0 Hr0) as [Hrs Hone].
    split; [done|]. intros h'' x'' Hx'' Hr''. destruct (Hptr _ _ _ Hx'' Hr'') as (x1 & Hx1 & Hr1). by eapply Hone.
  - intros r. rewrite ci_runnables0. split; intros [Hrs|(h' & x' & Hx' & Hr)]; try (by left); right.
    + destruct (decide (h = h')) as [<-|Hne].
      * simplify_eq. eexists h, _. by rewrite lookup_insert_eq.
      * exists h', x'. by rewrite lookup_insert_ne.
    + destruct (Hptr _ _ _ Hx' Hr) as (x0 & ? & ?). eauto.
  - intros m Hm. destruct (ci_fresh0 m Hm) as (H1 & ?). split; [|done]. apply lookup_insert_None. split; [done|]. intros ->. congruence.
  - done.
  - intros h' x' r Hx' Hr. destruct (Hptr _ _ _ Hx' Hr) as (x0 & Hx0 & Hr0). by eapply ci_older0.
  - done.
Qed.

Lemma Retain_ok h l rs vs w :
  cinv l rs (set_vars vs w) -> is_Some (holders w !! h) -> count h (l ++ refs (set_vars vs w)) < INT_MAX ->
  wp (Retain h) w (fun _ w' => cinv (h :: l) rs (set_vars vs w') /\
    exists hs, w' = set_holders hs w).
Proof.
  intros Hw [x Hx] Hlt. unfold Retain. wp_step. eapply wp_holder_at; [done|].
  destruct (ci_count _ _ _ Hw h x Hx) as [Hc Hpos].
  destruct (Z.eqb_spec (ref_count_ x) INT_MAX) as [|Hne]; [lia|]. wp_step. split; [|by eexists].
  apply (cinv_recount l (h :: l) rs (set_vars vs w) h x); [done|done|lia| |].
  - cbn [app]. rewrite count_cons, decide_True by done. lia.
  - intros h' Hne'. cbn [app]. rewrite count_cons, decide_False by done. lia.
Qed.

(** The last reference goes: the holder is gone, and what it held is in hand. *)
Lemma cinv_free h x l rs w :
  cinv (h :: l) rs w -> holders w !! h = Some x -> ref_count_ x = 1 ->
  cinv l (option_list (value_ptr x) ++ rs) (set_holders (delete h (holders w)) w).
Proof.
  intros [] Hx H1. destruct (ci_count0 h x Hx) as [Hc _]. cbn [app] in *. rewrite count_cons, decide_True, H1 in Hc by done.
  assert (Hno : h ∉ l ++ refs w) by (rewrite count_pos; lia).
  split; cbn [holders set_holders runnables vars next_id deleted]; change (refs (set_holders _ w)) with (refs w).
  - intros h' x' [Hne H]%lookup_delete_Some. destruct (ci_count0 h' x' H) as [-> ?]. split; [|done].
    rewrite count_cons, decide_False by done. lia.
  - intros h' Hin. apply lookup_delete_is_Some. split; [by intros ->|]. apply ci_refs0. by right.
  - intros h' x' r [Hne H]%lookup_delete_Some Hr. destruct (ci_owner0 _ _ _ H Hr) as [Hrs Hone]. split.
    + rewrite elem_of_app. intros [Hin|Hin]; [|done]. destruct (value_ptr x) as [r'|] eqn:Hr'; [|by apply elem_of_nil in Hin].
      apply list_elem_of_singleton in Hin as ->. by apply Hne, (Hone h x).
    + intros h'' x'' [Hne'' H'']%lookup_delete_Some Hr''. by eapply Hone.
  - intros r. rewrite ci_runnables0, elem_of_app. split.
    + intros [?|(h' & x' & Hx' & Hr)]; [by left; right|]. destruct (decide (h = h')) as [<-|Hne].
      * simplify_eq. left. left. rewrite Hr. by left.
      * right. exists h', x'. by rewrite lookup_delete_ne.
    + intros [[Hin|?]|(h' & x' & [Hne Hx']%lookup_delete_Some & Hr)]; [|by left|right; eauto].
      right. exists h, x. destruct (value_ptr x); [|by apply elem_of_nil in Hin]. by apply list_elem_of_singleton in Hin as ->.
  - intros m Hm. destruct (ci_fresh0 m Hm) as (Hn & ?). split; [|done]. apply lookup_delete_None. by right.
  - done.
  - intros h' x' r [_ H]%lookup_delete_Some Hr. by eapply ci_older0.
  - done.
Qed.

(** A runnable in hand goes, and what it had captured is in hand. *)
Definition without_runnable (r : rid) (w : heap) : heap :=
  {| holders := holders w; runnables := delete r (runnables w); vars := vars w; next_id := next_id w; deleted := r :: deleted w |}.

Lemma cinv_destroy r f l rs w :
  cinv l (r :: rs) w -> runnables w !! r = Some f -> r ∉ rs -> cinv (captured f ++ l) rs (without_runnable r w).
Proof.
  intros [] Hr Hrs.
  assert (Hp : (captured f ++ l) ++ refs (without_runnable r w) ≡ₚ l ++ refs w).
  { rewrite !refs_split. cbn [vars runnables without_runnable]. unfold captures.
    rewrite (collect_delete captured _ _ _ Hr). rewrite <- app_assoc.
    rewrite (Permutation_app_swap_app (captured f) l). apply Permutation_app_head.
    apply Permutation_app_swap_app. }
  split; cbn [holders runnables vars next_id deleted without_runnable].
  - intros h x Hx. rewrite (count_perm _ _ _ Hp). by apply ci_count0.
  - intros h. rewrite Hp. apply ci_refs0.
  - intros h x r' Hx Hr'. destruct (ci_owner0 _ _ _ Hx Hr') as [Hn Hone]. split; [|done]. intros Hin. apply Hn. by right.
  - intros r'. rewrite lookup_delete_is_Some, ci_runnables0, elem_of_cons. split.
    + intros (Hne & [[->|?]|?]); [done|by left|by right].
    + intros [Hin|(h & x & Hx & Hr')].
      * split; [by intros ->|left; by right].
      * split; [|right; eauto]. destruct (ci_owner0 _ _ _ Hx Hr') as [Hn _]. intros ->. apply Hn. by left.
  - intros m Hm. destruct (ci_fresh0 m Hm) as (H1 & H2 & H3 & H4). split; [done|]. split; [apply lookup_delete_None; by right|].
    split; [done|]. rewrite elem_of_cons. intros [->|?]; [congruence|done].
  - destruct ci_deleted0 as [Hnd Hd]. split.
    + apply NoDup_cons. split; [|done]. intros Hin%Hd. congruence.
    + intros r' [->|Hin]%elem_of_cons; [apply lookup_delete_eq|]. apply lookup_delete_None. right. auto.
  - done.
  - intros r' f' h [_ H]%lookup_delete_Some. by apply ci_captured0.
Qed.

(** * Release

    What [Release] does to what it deletes with the holder: every nested call is for a
    holder that is still there, and there are fewer of them each time. *)
Definition same_vars (w w' : heap) : Prop :=
  vars w' = vars w /\ next_id w' = next_id w /\ (size (holders w') <= size (holders w))%nat /\ runnables w' ⊆ runnables w.
Lemma same_vars_trans w w1 w2 : same_vars w w1 -> same_vars w1 w2 -> same_vars w w2.
Proof. intros (V1 & N1 & S1 & R1) (V2 & N2 & S2 & R2). split; [congruence|]. split; [congruence|]. split; [lia|by etransitivity]. Qed.

Lemma wp_release_all fuel l rs vs hs :
  (forall h l w, cinv (h :: l) rs (set_vars vs w) -> (size (holders w) < fuel)%nat ->
     wp (Release fuel h) w (fun _ w' => cinv l rs (set_vars vs w') /\ same_vars w w')) ->
  forall w, cinv (hs ++ l) rs (set_vars vs w) -> (size (holders w) < fuel)%nat ->
  wp (for_each (R := False) hs (fun h => Release fuel h;; mret None)) w
    (fun _ w' => cinv l rs (set_vars vs w') /\ same_vars w w').
Proof.
  intros IH. induction hs as [|h hs IHhs]; intros w Hw Hlt; cbn [for_each]; [by wp_step|].
  wp_step. wp_step. eapply wp_mono; [by apply (IH h (hs ++ l))|]. intros [] w1 [H1 V1]. wp_step.
  eapply wp_mono; [apply IHhs; [done|]|].
  - destruct V1 as (_ & _ & S1 & _). lia.
  - intros r w2 [H2 V2]. split; [done|by eapply same_vars_trans].
Qed.

Lemma Release_ok fuel : forall h l rs vs w,
  cinv (h :: l) rs (set_vars vs w) -> (size (holders w) < fuel)%nat ->
  wp (Release fuel h) w (fun _ w' => cinv l rs (set_vars vs w') /\ same_vars w w').
Proof.
  induction fuel as [|fuel IH]; intros h l rs vs w Hw Hlt; [lia|]. cbn [Release]. wp_step.
  destruct (ci_refs _ _ _ Hw h) as [x Hx]; [by left|]. cbn in Hx. eapply wp_holder_at; [exact Hx|].
  destruct (ci_count _ _ _ Hw h x Hx) as [Hc Hpos]. cbn [app] in Hc. rewrite count_cons, decide_True in Hc by done.
  destruct (Z.eqb_spec (ref_count_ x - 1) 0) as [H1|H1].
  - pose proof (cinv_free h x l rs _ Hw Hx ltac:(lia)) as Hf. wp_step. wp_step.
    set (w1 := set_holders _ w).
    assert (Hs : size (holders w) = S (size (holders w1))).
    { unfold w1. cbn. rewrite map_size_delete_Some; [|by eexists]. pose proof (map_size_ne_0_lookup_2 (holders w) h (ex_intro _ x Hx)). lia. }
    destruct (value_ptr x) as [r|] eqn:Hr; [|wp_step; split; [exact Hf|split; [done|split; [done|split; [lia|done]]]]].
    destruct (proj2 (ci_runnables _ _ _ Hf r)) as [f Hrf]; [left; by left|]. cbn in Hrf. wp_step.
    eapply wp_runnable_at; [exact Hrf|]. wp_step. wp_step.
    destruct (ci_owner _ _ _ Hw _ _ _ Hx Hr) as [Hrs _].
    pose proof (cinv_destroy r f l rs _ Hf Hrf Hrs) as Hd. wp_step.
    eapply wp_mono; [apply (wp_release_all fuel l rs vs (rev (captured f)) (fun h l w => IH h l rs vs w)); [|cbn in Hs |- *; lia]|].
    + apply (cinv_perm (captured f ++ l)); [exact Hd|]. by rewrite <- Permutation_rev.
    + intros _ w2 [H2 V2]. wp_step. split; [done|]. eapply same_vars_trans; [|exact V2].
      split; [done|]. split; [done|]. split; [cbn in Hs |- *; lia|apply delete_subseteq].
  - wp_step. split.
    + apply (cinv_recount (h :: l) l rs (set_vars vs w) h x); [done|done|lia|lia|].
      intros h' Hne. cbn [app]. rewrite count_cons, decide_False by done. lia.
    + split; [done|]. split; [done|]. split; [|done]. cbn. rewrite map_size_insert_Some by (by eexists). lia.
Qed.

Lemma holder_Release_ok h l rs vs w :
  cinv (h :: l) rs (set_vars vs w) -> wp (holder_Release h) w (fun _ w' => cinv l rs (set_vars vs w') /\ same_vars w w').
Proof. intros Hw. unfold holder_Release. wp_step. wp_step. apply Release_ok; [done|lia]. Qed.
