(* ===== verification/CallbacksOps.v ===== *)
(** The operations on shared data, shared pointers and callbacks: each keeps the
    reference counts right, and returns. *)
From stdpp Require Import base numbers list option gmap sets.
From Stdlib Require Import ZArith Lia.
From S2P Require Import Prelude Result HandlesFacts Callbacks CallbacksFacts.
From Stdlib Require Import Permutation.

(** * Counts that can be counted *)

Definition room (n : nat) (w : heap) : Prop := Z.of_nat (length (refs w)) + Z.of_nat n < INT_MAX.

Lemma captures_mono rs rs' : rs' ⊆ rs -> (length (captures rs') <= length (captures rs))%nat.
Proof.
  intros Hs. apply submseteq_length. unfold captures. pose proof (map_to_list_submseteq _ _ Hs) as Hm.
  generalize (map_to_list rs') (map_to_list rs) Hm. clear.
  intros l l' Hm. induction Hm as [|x l l' _ IH|x y l|x l l' _ IH|l1 l2 l3 _ IH1 _ IH2]; cbn; [done|..].
  - by apply submseteq_skips_l.
  - rewrite !app_assoc. apply Permutation_submseteq. apply Permutation_app_tail, Permutation_app_comm.
  - by apply submseteq_inserts_l.
  - by etransitivity.
Qed.

Lemma singles_length vs : length (singles vs) = size vs.
Proof.
  unfold singles. rewrite <- length_map_to_list. induction (map_to_list vs) as [|x l IH]; [done|]. cbn. by rewrite IH.
Qed.
Lemma refs_length w : length (refs w) = (size (vars w) + length (captures (runnables w)))%nat.
Proof. rewrite refs_split, length_app. by rewrite singles_length. Qed.

Lemma count_room h n w : room n w -> count h (refs w) + Z.of_nat n < INT_MAX.
Proof. unfold room. pose proof (count_le h (refs w)). lia. Qed.

(** * What is at a location *)

Definition at_loc (x : loc) (w : heap) : option hid :=
  match x with
  | Var x => vars w !! x
  | Captured r i => f ← runnables w !! r; captured f !! i
  end.

Lemma exists_at_true x w : exists_at x w = true -> is_Some (at_loc x w).
Proof.
  unfold exists_at, at_loc. destruct x as [x|r i]; [by intros ?%bool_decide_eq_true|].
  destruct (runnables w !! r) as [f|]; [|done]. by intros ?%bool_decide_eq_true.
Qed.
Lemma wp_read w x h (Q : hid -> heap -> Prop) : at_loc x w = Some h -> Q h w -> wp (read x) w Q.
Proof.
  destruct x as [x|r i]; cbn [at_loc]; [apply wp_read_var|]. intros Hx HQ. unfold read. wp_step.
  destruct (runnables w !! r) as [f|] eqn:Hr; [|done]. cbn in Hx. eapply wp_runnable_at; [done|]. rewrite Hx. by apply (wp_lift _ h).
Qed.
Lemma at_refs x w h : at_loc x w = Some h -> h ∈ refs w.
Proof.
  rewrite refs_split, elem_of_app. destruct x as [x|r i]; cbn [at_loc].
  - intros Hx. left. unfold singles. rewrite list_elem_of_bind. exists (x, h). split; [by left|]. by apply elem_of_map_to_list.
  - destruct (runnables w !! r) as [f|] eqn:Hr; [|done]. cbn. intros Hi. right. unfold captures. rewrite list_elem_of_bind.
    exists (r, f). split; [by eapply list_elem_of_lookup_2|]. by apply elem_of_map_to_list.
Qed.
Lemma at_holder x w h l rs : cinv l rs w -> at_loc x w = Some h -> is_Some (holders w !! h).
Proof. intros Hw Hx. apply (ci_refs _ _ _ Hw). apply elem_of_app. right. by eapply at_refs. Qed.

(** * New objects *)

Definition bump (w : heap) : heap :=
  {| holders := holders w; runnables := runnables w; vars := vars w; next_id := S (next_id w); deleted := deleted w |}.

Lemma wp_new_id w (Q : nat -> heap -> Prop) : Q (next_id w) (bump w) -> wp new_id w Q.
Proof. intros HQ. unfold new_id. by repeat wp_step. Qed.

Lemma cinv_bump l rs w : cinv l rs w -> cinv l rs (bump w).
Proof. intros []. split; try done. intros n Hn. apply ci_fresh. cbn in Hn. lia. Qed.

(** A holder in hand is made. *)
Lemma cinv_new_holder l rs ptr w :
  cinv l (option_list ptr ++ rs) w -> Forall (fun r => r ∉ rs) (option_list ptr) ->
  cinv (next_id w :: l) rs (set_holders (<[next_id w := {| value_ptr := ptr; ref_count_ := 1 |}]> (holders w)) (bump w)).
Proof.
  intros [] Hd. destruct (ci_fresh (next_id w) (le_n _)) as (Hh & Hr & Hv & Hdel).
  assert (Hno : next_id w ∉ l ++ refs w).
  { intros Hin%ci_refs. rewrite Hh in Hin. by destruct Hin. }
  split; cbn [holders set_holders runnables vars next_id deleted bump];
    change (refs (set_holders _ (bump w))) with (refs w).
  - intros h x [[<- <-]|[Hne Hx]]%lookup_insert_Some; cbn [app].
    + rewrite count_cons, decide_True by done. cbn. rewrite count_pos in Hno. unfold count in *. lia.
    + rewrite count_cons, decide_False by done. rewrite Z.add_0_r. by apply ci_count.
  - intros h [->|Hin]%elem_of_cons; [by rewrite lookup_insert_eq|]. apply lookup_insert_is_Some'. right. by apply ci_refs.
  - intros h x r [[<- <-]|[Hne Hx]]%lookup_insert_Some Hx'; cbn in Hx'.
    + subst ptr. cbn in Hd. apply Forall_cons in Hd as [Hd _]. split; [done|].
      intros h' x' [[<- _]|[Hne' Hx]]%lookup_insert_Some Hr'; [done|]. destruct (ci_owner _ _ _ Hx Hr') as [Hrs _].
      destruct Hrs. cbn. by left.
    + destruct (ci_owner _ _ _ Hx Hx') as [Hrs Hone]. split; [intros Hin; apply Hrs, elem_of_app; by right|].
      intros h' x' [[<- <-]|[Hne' Hy]]%lookup_insert_Some Hr'; [|by eapply Hone]. cbn in Hr'. subst ptr. destruct Hrs. cbn. by left.
  - intros r. rewrite ci_runnables, elem_of_app. split.
    + intros [[Hin|Hin]|(h & x & Hx & Hx')]; [right|by left|right].
      * eexists _, _. rewrite lookup_insert_eq. split; [done|]. cbn. destruct ptr; [|by apply elem_of_nil in Hin].
        by apply list_elem_of_singleton in Hin as ->.
      * exists h, x. rewrite lookup_insert_ne by congruence. done.
    + intros [Hin|(h & x & [[<- <-]|[Hne Hx]]%lookup_insert_Some & Hx')]; [left; by right|left; left|right; eauto].
      cbn in Hx'. subst ptr. by left.
  - intros n Hn. destruct (ci_fresh n) as (? & ?); [lia|]. rewrite lookup_insert_ne by lia. done.
  - done.
  - intros h x r [[<- <-]|[Hne Hx]]%lookup_insert_Some Hx'; [|by eapply ci_older]. cbn in Hx'. subst ptr.
    assert (is_Some (runnables w !! r)) as [f Hf] by (apply ci_runnables; left; by left).
    destruct (decide (next_id w <= r)%nat) as [Hle|]; [|lia]. destruct (ci_fresh r Hle) as (_ & Hn & _). congruence.
  - done.
Qed.

(** A runnable is made of references in hand. *)
Lemma cinv_new_runnable c hs l rs w :
  cinv (hs ++ l) rs w ->
  cinv l (next_id w :: rs) (set_runnables (<[next_id w := {| code := c; captured := hs |}]> (runnables w)) (bump w)).
Proof.
  intros []. destruct (ci_fresh (next_id w) (le_n _)) as (Hh & Hr & Hv & Hdel).
  assert (Hp : l ++ refs (set_runnables (<[next_id w := {| code := c; captured := hs |}]> (runnables w)) (bump w)) ≡ₚ (hs ++ l) ++ refs w).
  { rewrite !refs_split. cbn [vars runnables set_runnables bump]. unfold captures.
    rewrite (collect_insert captured _ _ _ Hr). cbn [captured]. rewrite <- app_assoc.
    rewrite (Permutation_app_swap_app hs l). apply Permutation_app_head. apply Permutation_app_swap_app. }
  split; cbn [holders set_runnables runnables vars next_id deleted bump].
  - intros h x Hx. rewrite (count_perm _ _ _ Hp). by apply ci_count.
  - intros h. rewrite Hp. apply ci_refs.
  - intros h x r Hx Hx'. destruct (ci_owner _ _ _ Hx Hx') as [Hrs Hone]. split; [|done].
    intros [->|?]%elem_of_cons; [|done]. specialize (ci_older _ _ _ Hx Hx').
    destruct (ci_fresh h) as (Hn & _); [lia|]. congruence.
  - intros r. rewrite lookup_insert_is_Some', ci_runnables, elem_of_cons. naive_solver.
  - intros n Hn. destruct (ci_fresh n) as (? & ? & ?); [lia|]. rewrite lookup_insert_ne by lia. done.
  - destruct ci_deleted as [Hnd Hd]. split; [done|]. intros r Hin. rewrite lookup_insert_ne; [by apply Hd|]. by intros <-.
  - done.
  - intros r f h [[<- <-]|[Hne Hf]]%lookup_insert_Some Hin; [|by eapply ci_captured]. cbn in Hin.
    destruct (ci_refs h) as [x Hx]; [rewrite !elem_of_app; auto|].
    destruct (decide (next_id w <= h)%nat) as [Hle|]; [|lia]. destruct (ci_fresh h Hle) as (Hn & _). congruence.
Qed.

(** A holder without a value gets the runnable in hand. *)
Lemma cinv_give l r w h x :
  cinv l [r] w -> holders w !! h = Some x -> value_ptr x = None -> (r < h)%nat ->
  cinv l [] (set_holders (<[h := {| value_ptr := Some r; ref_count_ := ref_count_ x |}]> (holders w)) w).
Proof.
  intros [] Hh Hv Hlt. split; cbn [holders set_holders runnables vars next_id deleted];
    change (refs (set_holders _ w)) with (refs w).
  - intros h' x' [[<- <-]|[_ Hx]]%lookup_insert_Some; [exact (ci_count h x Hh)|by apply ci_count].
  - intros h' Hin. apply lookup_insert_is_Some'. right. by apply ci_refs.
  - intros h' x' r' [[<- <-]|[Hne Hx]]%lookup_insert_Some Hr'; (split; [by intros ?%elem_of_nil|]);
      intros h'' x'' [[<- <-]|[Hne' Hy]]%lookup_insert_Some Hr''; try done.
    + cbn in Hr'. simplify_eq. destruct (ci_owner _ _ _ Hy Hr'') as [Hn _]. destruct Hn. by left.
    + cbn in Hr''. simplify_eq. destruct (ci_owner _ _ _ Hx Hr') as [Hn _]. destruct Hn. by left.
    + destruct (ci_owner _ _ _ Hx Hr') as [_ Hone]. by eapply Hone.
  - intros r'. rewrite ci_runnables, list_elem_of_singleton. split.
    + intros [->|(h' & x' & Hx & Hr')]; right.
      * eexists h, _. by rewrite lookup_insert_eq.
      * exists h', x'. rewrite lookup_insert_ne; [done|]. intros <-. by simplify_eq.
    + intros [Hin|(h' & x' & [[<- <-]|[Hne Hx]]%lookup_insert_Some & Hr')]; [by apply elem_of_nil in Hin| |right; eauto].
      cbn in Hr'. simplify_eq. by left.
  - intros n Hn. destruct (ci_fresh n Hn) as (Hf & ?). split; [|done]. apply lookup_insert_None. split; [done|]. intros ->. congruence.
  - done.
  - intros h' x' r' [[<- <-]|[Hne Hx]]%lookup_insert_Some Hr'; [by simplify_eq/=|by eapply ci_older].
  - done.
Qed.

(** * shared_data.h *)

Lemma room_length h l n w : (length l <= n)%nat -> room n w -> count h (l ++ refs w) < INT_MAX.
Proof. unfold room. pose proof (count_le h (l ++ refs w)) as Hc. rewrite length_app in Hc. lia. Qed.
Lemma room_vars n w w' :
  (size (vars w') <= size (vars w))%nat -> runnables w' ⊆ runnables w -> room n w -> room n w'.
Proof. unfold room. rewrite !refs_length. intros Hv Hr%captures_mono. lia. Qed.

Lemma Holder_new_ok l rs ptr w :
  cinv l (option_list ptr ++ rs) w -> Forall (fun r => r ∉ rs) (option_list ptr) ->
  wp (Holder_new ptr) w (fun h w' => cinv (h :: l) rs w' /\ h = next_id w /\
    w' = set_holders (<[h := {| value_ptr := ptr; ref_count_ := 1 |}]> (holders w)) (bump w)).
Proof.
  intros Hw Hd. unfold Holder_new. wp_step. apply wp_new_id. do 3 wp_step. split; [exact (cinv_new_holder _ _ _ _ Hw Hd)|done].
Qed.

Lemma wp_new_var h w (Q : var -> heap -> Prop) :
  Q (next_id w) (set_vars (<[next_id w := h]> (vars w)) (bump w)) -> wp (new_var h) w Q.
Proof. intros HQ. unfold new_var. wp_step. apply wp_new_id. by do 3 wp_step. Qed.

Lemma cinv_new_var h l rs w :
  cinv (h :: l) rs w -> cinv l rs (set_vars (<[next_id w := h]> (vars w)) (bump w)).
Proof.
  intros Hw. destruct (ci_fresh _ _ _ Hw (next_id w) (le_n _)) as (_ & _ & Hv & _).
  eapply (cinv_store _ _ (vars w) (bump w)); [|done|cbn; lia]. by apply cinv_bump in Hw.
Qed.

(** A new variable and a new holder. *)
Definition declared (x : var) (h : hid) (w w' : heap) : Prop :=
  vars w !! x = None /\ vars w' = <[x := h]> (vars w) /\ runnables w' = runnables w.

Lemma SharedData_new_ok l rs w :
  cinv l rs w -> wp SharedData_new w (fun x w' => cinv l rs w' /\
    exists h, declared x h w w' /\ (next_id w <= h)%nat /\ holders w' !! h = Some {| value_ptr := None; ref_count_ := 1 |}).
Proof.
  intros Hw. unfold SharedData_new. wp_step. eapply wp_mono; [apply (Holder_new_ok l rs None); [done|constructor]|].
  intros h w1 (H1 & Hh & ->). apply wp_new_var. split; [by apply cinv_new_var|]. exists h.
  split; [split; [|done]|split; [lia|cbn; by rewrite lookup_insert_eq]].
  by apply (ci_fresh _ _ _ H1).
Qed.

Lemma SharedData_copy_ok x w :
  cinv [] [] w -> is_Some (at_loc x w) -> room 1 w -> wp (SharedData_copy x) w (fun _ w' => cinv [] [] w').
Proof.
  intros Hw [h Hx] Hroom. unfold SharedData_copy. wp_step. eapply wp_read; [done|]. wp_step. apply wp_new_var.
  set (w1 := set_vars _ _). assert (H1 : cinv [] [] (set_vars (vars w) w1)) by (apply cinv_bump in Hw; by destruct w).
  wp_step. eapply wp_mono; [apply (Retain_ok h [] [] (vars w) w1 H1)|].
  - exact (at_holder _ _ _ _ _ Hw Hx).
  - apply (room_length h [] 1); [cbn; lia|]. exact Hroom.
  - intros [] w2 [H2 [hs ->]]. wp_step. eapply (cinv_store [] [] _ _ (next_id w)) in H2; [exact H2| |cbn; lia].
    by apply (ci_fresh _ _ _ Hw).
Qed.

Lemma SharedData_destructor_ok x l rs w :
  cinv l rs w -> is_Some (vars w !! x) ->
  wp (SharedData_destructor x) w (fun _ w' => cinv l rs w' /\ vars w' = delete x (vars w) /\ runnables w' ⊆ runnables w).
Proof.
  intros Hw [h Hx]. unfold SharedData_destructor. wp_step. eapply wp_read_var; [done|]. wp_step.
  eapply wp_mono; [apply holder_Release_ok; by apply cinv_take|].
  intros [] w1 [H1 (V1 & N1 & S1 & R1)]. wp_step. rewrite V1. done.
Qed.

Lemma SharedData_assign_ok x y w :
  cinv [] [] w -> is_Some (vars w !! x) -> is_Some (vars w !! y) -> room 0 w ->
  wp (SharedData_assign x (Var y)) w (fun _ w' => cinv [] [] w' /\ dom (vars w') = dom (vars w)).
Proof.
  intros Hw [h Hx] [h' Hy] Hroom. unfold SharedData_assign. wp_step. eapply wp_read_var; [done|]. wp_step.
  eapply wp_read_var; [done|]. destruct (Nat.eqb_spec h' h) as [|Hne]; [by wp_step|]. wp_step.
  pose proof (cinv_take _ _ _ _ _ Hw Hx) as Ht. eapply wp_mono; [apply holder_Release_ok; exact Ht|].
  intros [] w1 [H1 (V1 & N1 & S1 & R1)]. wp_step. eapply (wp_read_var w1 y h'); [by rewrite V1|].
  wp_step. eapply (wp_write w1 x h h'); [by rewrite V1|]. set (w2 := set_vars _ w1).
  assert (Hxy : x <> y) by congruence.
  assert (Hvs : delete x (vars w) !! y = Some h') by (by rewrite lookup_delete_ne).
  eapply wp_mono; [apply (Retain_ok h' [] [] (delete x (vars w)) w2); [exact H1|..]|].
  - exact (at_holder (Var y) _ h' [] [] H1 Hvs).
  - apply (room_length h' [] 0); [cbn; lia|]. eapply room_vars; [| |exact Hroom]; [|exact R1].
    cbn. rewrite map_size_delete_Some by (by eexists). lia.
  - intros [] w3 [H3 [hs ->]]. split.
    + eapply (cinv_store [] [] _ _ x) in H3; [|apply lookup_delete_eq|].
      * rewrite insert_delete_eq in H3. unfold w2 in *. cbn in *. by rewrite V1.
      * cbn. rewrite N1. destruct (decide (next_id w <= x)%nat) as [Hle|]; [|lia].
        destruct (ci_fresh _ _ _ Hw x Hle) as (_ & _ & Hv & _). congruence.
    + unfold w2. cbn. rewrite V1, dom_insert_lookup_L; [done|by eexists].
Qed.

Lemma SharedData_reset_ok x w :
  cinv [] [] w -> is_Some (vars w !! x) -> wp (SharedData_reset x) w (fun _ w' => cinv [] [] w').
Proof.
  intros Hw [h Hx]. unfold SharedData_reset. wp_step. eapply wp_read_var; [done|]. wp_step.
  eapply wp_mono; [apply holder_Release_ok; by apply cinv_take|]. intros [] w1 [H1 (V1 & N1 & S1 & R1)].
  pose proof (cinv_new_holder [] [] None _ H1 ltac:(by constructor)) as H2. wp_step. unfold Holder_new. wp_step.
  apply wp_new_id. do 3 wp_step. eapply (wp_write _ x h); [cbn; by rewrite V1|].
  assert (Hlt : (x < S (next_id w1))%nat).
  { destruct (decide (next_id w <= x)%nat) as [Hle|]; [|lia].
    destruct (ci_fresh _ _ _ Hw x Hle) as (_ & _ & Hv & _). congruence. }
  pose proof (cinv_store [] [] (delete x (vars w))
    (set_holders (<[next_id w1 := {| value_ptr := None; ref_count_ := 1 |}]> (holders w1)) (bump w1))
    x (next_id w1) H2 (lookup_delete_eq _ _) Hlt) as H3.
  cbn. rewrite V1. rewrite <- (insert_delete_eq (vars w)). exact H3.
Qed.

(** * shared_ptr.h and callback.h *)

Lemma SharedPtr_new_ok r w :
  cinv [] [r] w ->
  wp (SharedPtr_new r) w (fun x w' => cinv [] [] w' /\ exists h, declared x h w w').
Proof.
  intros Hw. unfold SharedPtr_new. wp_step. eapply wp_mono; [by apply SharedData_new_ok|].
  intros x w1 (H1 & h & (Hf & V1 & R1) & Hle & Hh). wp_step. eapply (wp_read_var _ x h); [rewrite V1; apply lookup_insert_eq|].
  wp_step. eapply wp_holder_at; [done|]. do 3 wp_step. split; [|by exists h].
  apply (cinv_give [] r w1 h _ H1 Hh); [done|].
  assert (is_Some (runnables w !! r)) as [f Hr] by (apply (ci_runnables _ _ _ Hw); left; by left).
  destruct (decide (next_id w <= r)%nat) as [Hn|]; [|lia]. destruct (ci_fresh _ _ _ Hw r Hn) as (_ & ? & _). congruence.
Qed.

Lemma SharedPtr_get_ok x w h v (Q : option rid -> heap -> Prop) :
  at_loc x w = Some h -> holders w !! h = Some v -> Q (value_ptr v) w -> wp (SharedPtr_get x) w Q.
Proof. intros Hx Hh HQ. unfold SharedPtr_get. wp_step. eapply wp_read; [done|]. wp_step. eapply wp_holder_at; [done|]. by wp_step. Qed.

Lemma copy_all_ok rs xs : forall l w,
  cinv l rs w -> Forall (fun x => is_Some (at_loc x w)) xs -> room (length l + length xs) w ->
  wp (copy_all xs) w (fun hs w' => cinv (hs ++ l) rs w' /\ length hs = length xs /\ exists m, w' = set_holders m w).
Proof.
  induction xs as [|x xs IH]; intros l w Hw Hxs Hroom; cbn [copy_all].
  - wp_step. split; [done|]. split; [done|]. exists (holders w). by destruct w.
  - apply Forall_cons in Hxs as [[h Hx] Hxs]. wp_step. eapply wp_read; [done|]. wp_step.
    eapply wp_mono; [apply (Retain_ok h l rs (vars w) w); [by rewrite set_vars_same|by eapply at_holder|]|].
    { rewrite set_vars_same. eapply room_length; [|exact Hroom]. cbn. lia. }
    intros [] w1 [H1 [m ->]]. wp_step. eapply wp_mono; [apply (IH (h :: l)); [by destruct w|exact Hxs|]|].
    + unfold room in *. cbn in *. change (refs (set_holders m w)) with (refs w). lia.
    + intros hs w2 (H2 & Hl & [m' ->]). wp_step. split; [|split; [cbn; lia|by exists m']].
      eapply cinv_perm; [exact H2|]. cbn. symmetry. apply Permutation_middle.
Qed.

Lemma new_runnable_ok c xs w :
  cinv [] [] w -> Forall (fun x => is_Some (at_loc x w)) xs -> room (length xs) w ->
  wp (new_runnable c xs) w (fun r w' => cinv [] [r] w' /\ vars w' = vars w /\
    exists hs, length hs = length xs /\ runnables w !! r = None /\ runnables w' = <[r := {| code := c; captured := hs |}]> (runnables w)).
Proof.
  intros Hw Hxs Hroom. unfold new_runnable. wp_step. eapply wp_mono; [by apply copy_all_ok|].
  intros hs w1 (H1 & Hl & [m ->]). wp_step. apply wp_new_id. do 3 wp_step. split; [exact (cinv_new_runnable c hs [] [] _ H1)|].
  split; [done|]. exists hs. split; [done|]. split; [|done]. by apply (ci_fresh _ _ _ Hw).
Qed.

Lemma Callback_sink_ok c xs w :
  cinv [] [] w -> Forall (fun x => is_Some (at_loc x w)) xs -> room (length xs + 2) w ->
  wp (Callback_sink c xs) w (fun _ w' => cinv [] [] w').
Proof.
  intros Hw Hxs Hroom. unfold Callback_sink. wp_step. eapply wp_mono; [by apply SharedData_new_ok|].
  intros x w1 (H1 & h & (Hf & V1 & R1) & _). wp_step.
  assert (Hlen1 : length (refs w1) = S (length (refs w))).
  { rewrite !refs_length, V1, R1, map_size_insert_None by done. done. }
  eapply wp_mono; [apply new_runnable_ok; [done| |]|].
  - eapply Forall_impl; [exact Hxs|]. intros [y|r i] [v Hy]; cbn [at_loc] in *; rewrite ?V1, ?R1; [|by eexists].
    apply lookup_insert_is_Some'. right. by eexists.
  - unfold room in *. lia.
  - intros r w2 (H2 & V2 & hs & Hl & Hr & R2). wp_step. eapply wp_mono; [by apply SharedPtr_new_ok|].
    intros t w3 (H3 & h' & Hf3 & V3 & R3). wp_step.
    assert (Hlen3 : (length (refs w3) = length (refs w1) + length xs + 1)%nat).
    { rewrite !refs_length, V3, R3, V2, R2, map_size_insert_None by (by rewrite <- V2).
      unfold captures. rewrite (collect_insert captured _ _ _ Hr). cbn [captured]. rewrite length_app, Hl. lia. }
    assert (Hx3 : is_Some (vars w3 !! x)).
    { rewrite V3, V2, V1. rewrite !lookup_insert_is_Some'. auto. }
    eapply wp_mono; [apply SharedData_assign_ok; [done|done| |]|].
    + rewrite V3, lookup_insert_eq. by eexists.
    + unfold room in *. lia.
    + intros [] w4 [H4 D4]. wp_step. eapply wp_mono; [apply SharedData_destructor_ok; [done|]|].
      * apply elem_of_dom. rewrite D4. apply elem_of_dom. rewrite V3, lookup_insert_eq. by eexists.
      * intros [] w5 [H5 _]. by wp_step.
Qed.
