(* ===== verification/CallbacksSpec.v ===== *)
(** Programs that use callbacks: every count is the number of references, nothing is used
    after its end, and what is no longer referred to is gone. *)
From stdpp Require Import base numbers list option gmap sets.
From Stdlib Require Import ZArith Lia.
From S2P Require Import Prelude Result HandlesFacts Callbacks CallbacksFacts CallbacksOps.
From Stdlib Require Import Permutation.

Section Spec.
Context (run_code : nat -> rid -> prog).

(** From any state in which the counts are right, code leads to one, if it ends. *)
Definition keeps_counts (c : M heap unit) : Prop :=
  forall w, cinv [] [] w -> wlp c w (fun _ w' => cinv [] [] w').

Lemma wlp_after {A B} (c : M heap A) (k : A -> M heap B) w P Q :
  wp c w P -> (forall x w', P x w' -> wlp (k x) w' Q) -> wlp (c ≫= k) w Q.
Proof. intros Hc Hk. wlp_step. unfold wp, gwlp in *. destruct (c w) as [[a w1]| | |]; try done. by apply Hk. Qed.
Lemma wp_then {A} (c : M heap A) (k : A -> M heap unit) w :
  wp c w (fun _ w' => cinv [] [] w') -> (forall x, keeps_counts (k x)) -> wlp (c ≫= k) w (fun _ w' => cinv [] [] w').
Proof. intros Hc Hk. eapply wlp_after; [exact Hc|]. intros x w' Hw'. by apply Hk. Qed.
Lemma required b w (k : M heap unit) (Q : unit -> heap -> Prop) :
  (b w = true -> wlp k w Q) -> wlp (require b;; k) w Q.
Proof. intros Hk. unfold require. do 3 wlp_step. destruct (b w); [wlp_step; by apply Hk|done]. Qed.

Lemma few_room n w : few n w = true -> room (n + 2) w.
Proof. unfold few, room. intros H%Z.ltb_lt. lia. Qed.
Lemma few_room_le n m w : few n w = true -> (m <= n + 2)%nat -> room m w.
Proof. intros H%few_room Hm. unfold room in *. lia. Qed.
Lemma all_exist l w : forallb (fun x => exists_at x w) l = true -> Forall (fun x => is_Some (at_loc x w)) l.
Proof. rewrite forallb_forall. intros Hl. apply Forall_forall. intros x Hx%list_elem_of_In. by apply exists_at_true, Hl. Qed.

Lemma IsNull_ok x w :
  cinv [] [] w -> is_Some (at_loc x w) -> wp (is_null x) w (fun _ w' => cinv [] [] w').
Proof.
  intros Hw [h Hx]. unfold is_null. wp_step. destruct (at_holder _ _ _ _ _ Hw Hx) as [v Hv].
  eapply SharedPtr_get_ok; [done..|]. by wp_step.
Qed.

(** What a callback refers to is there when it runs. *)
Lemma Run_ok call x k w :
  (forall a, keeps_counts (call a)) -> keeps_counts k -> cinv [] [] w -> is_Some (at_loc x w) ->
  wlp (Callback_Run (fun c r => call (run_code c r)) x;; k) w (fun _ w' => cinv [] [] w').
Proof.
  intros Hcall Hk Hw [h Hx]. destruct (at_holder _ _ _ _ _ Hw Hx) as [v Hv].
  wlp_step. unfold Callback_Run. eapply wlp_after; [by eapply (SharedPtr_get_ok _ _ _ _ (fun r w' => r = value_ptr v /\ w' = w))|].
  intros r w' [-> ->]. destruct (value_ptr v) as [r|] eqn:Hr; [|by wlp_step; apply Hk].
  assert (is_Some (runnables w !! r)) as [f Hf] by (apply (ci_runnables _ _ _ Hw); right; eauto).
  unfold runnable_at. wlp_step. do 2 wlp_step. rewrite Hf. eapply wlp_lift; [done|].
  eapply wlp_mono; [by apply Hcall|]. intros [] w1 H1. by apply Hk.
Qed.

Abbreviation run_calls := (run_calls true run_code).

Lemma run_calls_keep call : (forall a, keeps_counts (call a)) -> forall a, keeps_counts (run_calls call a).
Proof.
  intros Hcall a.
  induction a as [|k IH|c l k IH|c l k IH|x k IH|x y k IH|x k IH|x k IH|x k IH|x k IH]; intros w Hw;
    cbn [Callbacks.run_calls]; repeat (apply required; intros ?);
    repeat match goal with
    | Hx : exists_at _ _ = true |- _ => apply exists_at_true in Hx
    | Hx : forallb _ _ = true |- _ => apply all_exist in Hx
    end.
  - by wlp_step.
  - apply wp_then; [|done]. eapply wp_mono; [by apply SharedData_new_ok|]. by intros ? ? [? _].
  - apply wp_then; [|done]. apply Callback_sink_ok; [done..|]. by apply few_room.
  - eapply wlp_after; [apply new_runnable_ok; [done..|]; eapply few_room_le; [done|lia]|].
    intros r w1 [H1 _]. apply wp_then; [|done]. eapply wp_mono; [by apply SharedPtr_new_ok|]. by intros ? ? [? _].
  - apply wp_then; [|done]. apply SharedData_copy_ok; [done..|]. eapply few_room_le; [done|lia].
  - destruct y as [y|r i]; [|done]. apply wp_then; [|done].
    eapply wp_mono; [apply SharedData_assign_ok; [done..|]|by intros ? ? [? _]]. eapply few_room_le; [done|lia].
  - apply wp_then; [|done]. by apply SharedData_reset_ok.
  - apply wp_then; [|done]. eapply wp_mono; [by apply SharedData_destructor_ok|]. by intros ? ? [? _].
  - apply wp_then; [by apply IsNull_ok|done].
  - by apply Run_ok.
Qed.

Lemma run_prog_keeps fuel a : keeps_counts (run_prog true run_code fuel a).
Proof. revert a. induction fuel as [|fuel IH]; intros a; apply run_calls_keep; [done|exact IH]. Qed.

Lemma empty_cinv : cinv [] [] empty_heap.
Proof.
  split; cbn; try (intros *; rewrite lookup_empty; done).
  - by intros h ?%elem_of_nil.
  - intros r. rewrite lookup_empty. split; [by intros []|]. by intros [?%elem_of_nil|(h & x & ? & _)].
  - intros n _. rewrite !lookup_empty. repeat split; try done. by intros ?%elem_of_nil.
  - split; [constructor|]. by intros r ?%elem_of_nil.
Qed.

(** Nothing can keep itself: what a runnable has captured is older than what it belongs to. *)
Lemma nothing_left w : cinv [] [] w -> vars w = ∅ -> holders w = ∅ /\ runnables w = ∅.
Proof.
  intros Hw Hv.
  assert (Hnone : forall n h x, (next_id w - h <= n)%nat -> holders w !! h = Some x -> False).
  { induction n as [|n IH]; intros h x Hn Hx.
    - destruct (ci_fresh _ _ _ Hw h ltac:(lia)) as (? & _). congruence.
    - destruct (ci_count _ _ _ Hw _ _ Hx) as [Hc Hpos]. rewrite Hc in Hpos. apply count_pos in Hpos. cbn in Hpos.
      rewrite refs_split, Hv in Hpos. unfold singles in Hpos. rewrite map_to_list_empty in Hpos. cbn in Hpos.
      unfold captures in Hpos. apply list_elem_of_bind in Hpos as ([r f] & Hin & Hrf%elem_of_map_to_list). cbn in Hin.
      assert (is_Some (runnables w !! r)) as Hr by (by eexists).
      apply (ci_runnables _ _ _ Hw) in Hr as [?%elem_of_nil|(h' & x' & Hx' & Hv')]; [done|].
      pose proof (ci_captured _ _ _ Hw _ _ _ Hrf Hin). pose proof (ci_older _ _ _ Hw _ _ _ Hx' Hv').
      apply (IH h' x'); [|done]. destruct (decide (next_id w <= h)%nat) as [Hle|]; [|lia].
      destruct (ci_fresh _ _ _ Hw h Hle) as (? & _). congruence. }
  assert (Hh : holders w = ∅).
  { apply map_empty. intros h. destruct (holders w !! h) as [x|] eqn:Hx; [|done]. by destruct (Hnone _ h x (le_n _)). }
  split; [done|]. apply map_empty. intros r. destruct (runnables w !! r) as [f|] eqn:Hr; [|done].
  assert (is_Some (runnables w !! r)) as Hs by (by eexists).
  apply (ci_runnables _ _ _ Hw) in Hs as [?%elem_of_nil|(h & x & Hx & _)]; [done|]. by rewrite Hh, lookup_empty in Hx.
Qed.

Definition destroy_all (xs : list var) : M heap (option False) :=
  for_each xs (fun x => SharedData_destructor x;; mret None).

Lemma destroy_all_ok xs : forall w, cinv [] [] w -> NoDup xs -> (forall x, x ∈ xs -> is_Some (vars w !! x)) ->
  wp (destroy_all xs) w (fun _ w' => cinv [] [] w' /\ forall x, vars w' !! x = if decide (x ∈ xs) then None else vars w !! x).
Proof.
  unfold destroy_all. induction xs as [|x xs IH]; intros w Hw Hd Hxs; cbn [for_each].
  - wp_step. split; [done|]. intros x. by rewrite decide_False by apply not_elem_of_nil.
  - apply NoDup_cons in Hd as [Hx Hd]. wp_step. wp_step.
    eapply wp_mono; [apply SharedData_destructor_ok; [done|]; apply Hxs; by left|].
    intros [] w1 (H1 & V1 & _). wp_step. eapply wp_mono; [apply IH; [done..|]|].
    + intros y Hy. rewrite V1, lookup_delete_ne by (by intros ->). apply Hxs. by right.
    + intros r w2 (H2 & V2). split; [done|]. intros y. rewrite V2, V1.
      destruct (decide (y ∈ x :: xs)) as [Hin|Hin]; destruct (decide (y ∈ xs)) as [Hin'|Hin']; try done.
      * apply elem_of_cons in Hin as [->|?]; [apply lookup_delete_eq|done].
      * destruct Hin. by right.
      * rewrite lookup_delete_ne; [done|]. intros ->. apply Hin. by left.
Qed.

(** A program that keeps the rule runs as if there were none. *)
Lemma callback_calls_watched call call' a : (forall a, watches (call a) (call' a)) ->
  watches (run_calls call a) (Callbacks.run_calls false run_code call' a).
Proof.
  intros Hcall. induction a; cbn [Callbacks.run_calls]; unfold Callback_Run; repeat first [done|watch].
  intros w. unfold require, mbind, M_bind, get. cbn. destruct (not_captured y); [by right|by left].
Qed.
Lemma callback_prog_watched fuel a : watches (run_prog true run_code fuel a) (run_prog false run_code fuel a).
Proof.
  revert a. induction fuel as [|fuel IH]; intros a; apply callback_calls_watched; [|exact IH]. intros; apply watches_refl.
Qed.

(** C17: A program may do this with callbacks: make them of runnables or of functors that
    capture other callbacks, copy, assign, reset, run and destroy them, also while one of
    them runs. As long as no callback is assigned from a captured one - which is when the
    run that is watched for this rule does not stop - no holder or runnable is used after
    its end and no count overflows: a holder's count is the number of callbacks, variables
    and captured ones, that refer to it, and is not 0; a runnable exists exactly as long as
    a callback refers to its holder, of which there is one; and no runnable is deleted
    twice. *)
Theorem reference_counts_exact fuel a :
  run_prog true run_code fuel a empty_heap <> OutOfFuel ->
  exists w, run_prog false run_code fuel a empty_heap = Ok (tt, w) /\
    (forall h x, holders w !! h = Some x -> ref_count_ x = count h (refs w) /\ h ∈ refs w) /\
    (forall h, h ∈ refs w -> is_Some (holders w !! h)) /\
    (forall r, is_Some (runnables w !! r) <->
      exists h x, holders w !! h = Some x /\ value_ptr x = Some r /\
        forall h' x', holders w !! h' = Some x' -> value_ptr x' = Some r -> h' = h) /\
    NoDup (deleted w) /\ forall r, r ∈ deleted w -> runnables w !! r = None.
Proof.
  intros Hrule.
  destruct (watches_result _ _ _ _ (callback_prog_watched fuel a) (run_prog_keeps fuel a _ empty_cinv) Hrule) as ([] & w & Hrun & Hw).
  exists w. split; [exact Hrun|]. split; [|split; [exact (ci_refs _ _ _ Hw)|]].
  - intros h x Hx. destruct (ci_count _ _ _ Hw _ _ Hx) as [Hc Hp]. split; [done|].
    rewrite Hc in Hp. by apply count_pos in Hp.
  - split; [|exact (ci_deleted _ _ _ Hw)]. intros r. rewrite (ci_runnables _ _ _ Hw). split.
    + intros [?%elem_of_nil|(h & x & Hx & Hr)]; [done|]. exists h, x. do 2 (split; [done|]).
      by apply (ci_owner _ _ _ Hw _ _ _ Hx Hr).
    + intros (h & x & Hx & Hr & _). right. eauto.
Qed.

(** C23: Releasing terminates, however deep callbacks are captured in callbacks, and nothing
    leaks: when a program has ended, its callbacks can be destroyed in any order, and then
    no holder and no runnable is left. *)
Theorem destroying_callbacks_frees_all fuel a w xs :
  run_prog true run_code fuel a empty_heap = Ok (tt, w) -> xs ≡ₚ map fst (map_to_list (vars w)) ->
  exists w', destroy_all xs w = Ok (None, w') /\ holders w' = ∅ /\ runnables w' = ∅ /\ vars w' = ∅.
Proof.
  intros Hrun Hxs. pose proof (wlp_result _ _ _ _ _ (run_prog_keeps fuel a _ empty_cinv) Hrun) as Hw. cbn beta in Hw.
  assert (Hin : forall x, x ∈ xs <-> is_Some (vars w !! x)).
  { intros x. rewrite Hxs. rewrite list_elem_of_fmap. split.
    - intros ([y h] & -> & Hy%elem_of_map_to_list). by eexists.
    - intros [h Hx]. exists (x, h). split; [done|]. by apply elem_of_map_to_list. }
  assert (Hd : NoDup xs) by (rewrite Hxs; apply NoDup_fst_map_to_list).
  pose proof (destroy_all_ok xs w Hw Hd (fun x Hx => proj1 (Hin x) Hx)) as Hdes.
  apply wp_run in Hdes as (r & w' & Hr & H' & V'). exists w'.
  assert (He : vars w' = ∅).
  { apply map_empty. intros x. rewrite V'. destruct (decide (x ∈ xs)) as [|Hn]; [done|].
    destruct (vars w !! x) eqn:Hx; [|done]. destruct Hn. apply Hin. by eexists. }
  destruct (nothing_left w' H' He) as [Hh Hrs]. split; [|done]. rewrite Hr. by destruct r.
Qed.
End Spec.

(** * Callbacks at concrete inputs *)

(** The code 1 runs the first callback that it has captured; the code 0 does nothing. *)
Definition runs_captured (c : nat) (r : rid) : prog := if (c =? 1)%nat then Run (Captured r 0) Exit else Exit.

(** Three callbacks, each of which is captured by the next: the first two variables go, and
    what they referred to is still there when the last one runs. *)
Definition chain : prog :=
  NewRunnable 0 [] (fun x => NewCallback 1 [Var x] (fun y => NewCallback 1 [Var y; Var x] (fun z =>
    Destroy x (Destroy y (Run (Var z) (NewNull (fun n => Copy (Var z) (fun c => Assign n (Var c) Exit)))))))).
Lemma chain_keeps_captured :
  match run_prog true runs_captured 3 chain empty_heap with
  | Ok (_, w) => size (holders w) = 3%nat /\ size (runnables w) = 3%nat /\ deleted w = [] /\ size (vars w) = 3%nat
  | _ => False
  end.
Proof. vm_compute. auto. Qed.

Lemma reference_counts_exact_witness :
  exists w, run_prog false runs_captured 3 chain empty_heap = Ok (tt, w) /\ size (holders w) = 3%nat /\
    forall h x, holders w !! h = Some x -> ref_count_ x = count h (refs w).
Proof.
  destruct (reference_counts_exact runs_captured 3 chain) as (w & Hrun & Hcount & _);
    [apply outcome_goes_on; vm_compute; reflexivity|].
  exists w. split; [exact Hrun|]. split; [|intros h x Hx; exact (proj1 (Hcount h x Hx))].
  assert (Hsize : match run_prog false runs_captured 3 chain empty_heap with Ok (_, w) => size (holders w) | _ => 0%nat end = 3%nat)
    by (vm_compute; reflexivity).
  rewrite Hrun in Hsize. exact Hsize.
Defined.

Lemma destroying_callbacks_frees_all_witness :
  exists w xs w', run_prog true runs_captured 3 chain empty_heap = Ok (tt, w) /\ length xs = 3%nat /\
    destroy_all xs w = Ok (None, w') /\ holders w' = ∅ /\ runnables w' = ∅ /\ vars w' = ∅.
Proof.
  destruct (run_prog true runs_captured 3 chain empty_heap) as [[[] w]| | |] eqn:Hrun;
    [|exfalso; revert Hrun; vm_compute; discriminate..].
  exists w, (map fst (map_to_list (vars w))).
  destruct (destroying_callbacks_frees_all runs_captured 3 chain w (map fst (map_to_list (vars w))) Hrun (reflexivity _)) as (w' & Hd).
  exists w'. split; [reflexivity|]. split; [|exact Hd].
  pose proof chain_keeps_captured as Hc. rewrite Hrun in Hc. destruct Hc as (_ & _ & _ & Hc).
  rewrite length_map. rewrite length_map_to_list. exact Hc.
Defined.

(** Assignment to a callback from one that only it keeps, say the next of a chain: the old
    holder is released first, so that the callback that is assigned from is gone. *)
Lemma assign_from_captured_faults :
  run_prog false runs_captured 1
    (NewNull (fun x => NewCallback 1 [Var x] (fun y => Assign y (Captured 4 0) Exit))) empty_heap = Fault /\
  match run_prog false runs_captured 1 (NewNull (fun x => NewCallback 1 [Var x] (fun y => Run (Var y) Exit))) empty_heap with
  | Ok (_, w) => captured <$> runnables w !! 4%nat = Some [0%nat]
  | _ => False
  end.
Proof. split; vm_compute; reflexivity. Qed.
