(* ===== verification/HandleWatcher.v ===== *)
(** The handle watcher of the Dart embedding (src/platform/dart/dart_handle_watcher.h
    and dart_handle_watcher.cc): a thread that waits on many handles and timers for
    isolates, which send it commands over a pipe and get their answers at ports. *)
From stdpp Require Import base numbers list option gmap.
From coqutil Require Import Byte Word.LittleEndianList.
From Stdlib Require Import ZArith Lia.
From S2P Require Import Prelude Result CMem Validate Serialization.

Abbreviation MojoHandle := Z.
Abbreviation MojoHandleSignals := Z.
(** An [int64_t], in dart_api.h. *)
Abbreviation Dart_Port := Z.

Definition MOJO_HANDLE_SIGNAL_ALL : MojoHandleSignals :=
  Z.lor (Z.lor MOJO_HANDLE_SIGNAL_READABLE MOJO_HANDLE_SIGNAL_WRITABLE) MOJO_HANDLE_SIGNAL_PEER_CLOSED.

(** Conversion to a signed integer of the width, as compilers define it. *)
Definition signed (width x : Z) : Z :=
  let y := x mod 2 ^ width in if y <? 2 ^ (width - 1) then y else y - 2 ^ width.
Definition to_int32 : Z -> Z := signed 32.
Definition to_int64 : Z -> Z := signed 64.

(** * Commands *)

Inductive Command :=
  | kCommandAddHandle
  | kCommandRemoveHandle
  | kCommandCloseHandle
  | kCommandAddTimer
  | kCommandShutdownHandleWatcher.

Definition Command_value (c : Command) : Z :=
  match c with
  | kCommandAddHandle => 0
  | kCommandRemoveHandle => 1
  | kCommandCloseHandle => 2
  | kCommandAddTimer => 3
  | kCommandShutdownHandleWatcher => 4
  end.

(** The enumerator of a value, [None] for the [default] of a [switch]. *)
Definition Command_of (v : Z) : option Command :=
  if v =? 0 then Some kCommandAddHandle
  else if v =? 1 then Some kCommandRemoveHandle
  else if v =? 2 then Some kCommandCloseHandle
  else if v =? 3 then Some kCommandAddTimer
  else if v =? 4 then Some kCommandShutdownHandleWatcher
  else None.

Record HandleWatcherCommand := {
  handle_or_deadline_ : Z;
  port_ : Dart_Port;
  data_ : Z;
}.

#[export] Instance HandleWatcherCommand_eq_dec : EqDecision HandleWatcherCommand.
Proof. solve_decision. Defined.

(** The check that the signals fit in three bits is of constants. *)
Definition set_data (command : Command) (signals : MojoHandleSignals) (result : HandleWatcherCommand) :
    HandleWatcherCommand :=
  {| handle_or_deadline_ := handle_or_deadline_ result; port_ := port_ result;
     data_ := Z.lor (Z.shiftl (Command_value command) 3) (Z.land signals MOJO_HANDLE_SIGNAL_ALL) |}.

(** The value of [command()], before it is matched with the enumerators. *)
Definition command (c : HandleWatcherCommand) : Z := Z.shiftr (data_ c) 3.
Definition signals (c : HandleWatcherCommand) : MojoHandleSignals :=
  wrap32 (Z.land (data_ c) MOJO_HANDLE_SIGNAL_ALL).
Definition handle (c : HandleWatcherCommand) : MojoHandle := wrap32 (handle_or_deadline_ c).
Definition deadline (c : HandleWatcherCommand) : Z := handle_or_deadline_ c.
Definition port (c : HandleWatcherCommand) : Dart_Port := port_ c.

(** [sizeof(HandleWatcherCommand)], and its three 64-bit fields as bytes. *)
Definition sizeof_HandleWatcherCommand : Z := 24.
Definition command_bytes (c : HandleWatcherCommand) : list byte :=
  le_split 8 (handle_or_deadline_ c) ++ le_split 8 (port_ c) ++ le_split 8 (data_ c).
Definition command_of_bytes (bs : list byte) : HandleWatcherCommand := {|
  handle_or_deadline_ := to_int64 (le_combine (take 8 bs));
  port_ := to_int64 (le_combine (take 8 (drop 8 bs)));
  data_ := to_int64 (le_combine (take 8 (drop 16 bs)));
|}.

(** * The system and the isolates *)

Record MojoHandleSignalsState := {
  satisfied_signals : MojoHandleSignals;
  satisfiable_signals : MojoHandleSignals;
}.

(** What the system answers, in the order it is asked. *)
Inductive answer :=
  | TimeTicks (now : Z)
  | WaitedMany (result : MojoResult) (signals_states : list MojoHandleSignalsState)
  | Waited (handle : MojoHandle) (result : MojoResult)
  | MessageRead (result : MojoResult) (bytes : list byte) (num_handles : Z).

(** What the watcher learns from its commands, from the clock and from waits, and
    what it does that others can see. *)
Inductive event :=
  | CommandRead (c : HandleWatcherCommand)
  | TimeRead (millis : Z)
  | ManyWaited (result : MojoResult) (states : list (MojoHandle * MojoHandleSignalsState))
  | OneWaited (handle : MojoHandle) (result : MojoResult)
  | PostedNull (port : Dart_Port)
  | PostedSignal (port : Dart_Port) (signalled : Z)
  | Closed (handle : MojoHandle).

(** * State *)

Record HandleWatcherTimer := {
  timer_deadline : Z;
  timer_port : Dart_Port;
}.

Definition HandleWatcherTimer_lt (l r : HandleWatcherTimer) : bool :=
  timer_deadline l <? timer_deadline r.

Record HandleWatcherThreadState := {
  shutdown_ : bool;
  control_pipe_consumer_handle_ : MojoHandle;
  wait_many_handles_ : list MojoHandle;
  wait_many_signals_ : list MojoHandleSignals;
  wait_many_signals_state_ : list MojoHandleSignalsState;
  handle_ports_ : list Dart_Port;
  handle_to_index_map_ : gmap MojoHandle Z;
  timers_ : list HandleWatcherTimer;
}.

Record world := {
  self : HandleWatcherThreadState;
  answers : list answer;
  trace : list event;
}.

Definition set_self (s : HandleWatcherThreadState) (w : world) : world :=
  {| self := s; answers := answers w; trace := trace w |}.
Definition set_answers (l : list answer) (w : world) : world :=
  {| self := self w; answers := l; trace := trace w |}.
Definition note (e : event) : M world unit :=
  modify (fun w => {| self := self w; answers := answers w; trace := e :: trace w |}).

Definition set_shutdown (b : bool) (s : HandleWatcherThreadState) : HandleWatcherThreadState :=
  {| shutdown_ := b; control_pipe_consumer_handle_ := control_pipe_consumer_handle_ s;
     wait_many_handles_ := wait_many_handles_ s; wait_many_signals_ := wait_many_signals_ s;
     wait_many_signals_state_ := wait_many_signals_state_ s; handle_ports_ := handle_ports_ s;
     handle_to_index_map_ := handle_to_index_map_ s; timers_ := timers_ s |}.
Definition set_control (h : MojoHandle) (s : HandleWatcherThreadState) : HandleWatcherThreadState :=
  {| shutdown_ := shutdown_ s; control_pipe_consumer_handle_ := h;
     wait_many_handles_ := wait_many_handles_ s; wait_many_signals_ := wait_many_signals_ s;
     wait_many_signals_state_ := wait_many_signals_state_ s; handle_ports_ := handle_ports_ s;
     handle_to_index_map_ := handle_to_index_map_ s; timers_ := timers_ s |}.
Definition set_vectors (hs : list MojoHandle) (sigs : list MojoHandleSignals)
    (states : list MojoHandleSignalsState) (ports : list Dart_Port) (m : gmap MojoHandle Z)
    (s : HandleWatcherThreadState) : HandleWatcherThreadState :=
  {| shutdown_ := shutdown_ s; control_pipe_consumer_handle_ := control_pipe_consumer_handle_ s;
     wait_many_handles_ := hs; wait_many_signals_ := sigs; wait_many_signals_state_ := states;
     handle_ports_ := ports; handle_to_index_map_ := m; timers_ := timers_ s |}.
Definition set_signals_state (states : list MojoHandleSignalsState) (s : HandleWatcherThreadState) :
    HandleWatcherThreadState :=
  set_vectors (wait_many_handles_ s) (wait_many_signals_ s) states (handle_ports_ s)
    (handle_to_index_map_ s) s.
Definition set_timers (l : list HandleWatcherTimer) (s : HandleWatcherThreadState) :
    HandleWatcherThreadState :=
  {| shutdown_ := shutdown_ s; control_pipe_consumer_handle_ := control_pipe_consumer_handle_ s;
     wait_many_handles_ := wait_many_handles_ s; wait_many_signals_ := wait_many_signals_ s;
     wait_many_signals_state_ := wait_many_signals_state_ s; handle_ports_ := handle_ports_ s;
     handle_to_index_map_ := handle_to_index_map_ s; timers_ := l |}.

Definition this : M world HandleWatcherThreadState := w ← get; mret (self w).
Definition update (f : HandleWatcherThreadState -> HandleWatcherThreadState) : M world unit :=
  modify (fun w => set_self (f (self w)) w).

(** [v[i]], [v[i] = x] and [v.pop_back()], undefined out of range. *)
Definition vec_get {A} (v : list A) (i : Z) : M world A :=
  lift (of_option (if i <? 0 then None else v !! Z.to_nat i)).
Definition vec_set {A} (v : list A) (i : Z) (x : A) : M world (list A) :=
  vec_get v i;; mret (<[Z.to_nat i := x]> v).
Definition vec_pop_back {A} (v : list A) : M world (list A) :=
  match v with [] => lift Fault | _ => mret (removelast v) end.
Definition size_of {A} (v : list A) : Z := Z.of_nat (length v).

(** An [int64_t] result; overflow is undefined. *)
Definition int64 (x : Z) : M world Z :=
  if (- 2 ^ 63 <=? x) && (x <? 2 ^ 63) then mret x else lift Fault.

(** [std::set::insert], which does nothing when an equivalent element is there. *)
Fixpoint timers_insert (t : HandleWatcherTimer) (l : list HandleWatcherTimer) : list HandleWatcherTimer :=
  match l with
  | [] => [t]
  | u :: l' =>
      if HandleWatcherTimer_lt t u then t :: l
      else if HandleWatcherTimer_lt u t then u :: timers_insert t l'
      else l
  end.

(** ** System calls

    A run for which the answers run out, or do not fit the question, stops. *)

Definition MojoClose (h : MojoHandle) : M world unit := note (Closed h).

(** [GetDartTimeInMillis] divides rounding to zero. *)
Definition MojoGetTimeTicksNow : M world Z :=
  w ← get;
  match answers w with
  | TimeTicks now :: l => put (set_answers l w);; mret now
  | _ => lift OutOfFuel
  end.

Definition MojoWait (h : MojoHandle) : M world MojoResult :=
  w ← get;
  match answers w with
  | Waited h' r :: l =>
      if h' =? h then put (set_answers l w);; note (OneWaited h r);; mret r else lift OutOfFuel
  | _ => lift OutOfFuel
  end.

(** The signals states are written unless the result is one of two; a wait without
    deadline does not time out. *)
Definition MojoWaitMany (num_handles deadline : Z) : M world MojoResult :=
  w ← get;
  match answers w with
  | WaitedMany r states :: l =>
      if (r =? MOJO_SYSTEM_RESULT_DEADLINE_EXCEEDED) && (deadline =? MOJO_DEADLINE_INDEFINITE)
      then lift OutOfFuel
      else
        put (set_answers l w);;
        (if (r =? MOJO_SYSTEM_RESULT_INVALID_ARGUMENT) || (r =? MOJO_SYSTEM_RESULT_RESOURCE_EXHAUSTED)
         then mret tt
         else
           if size_of states =? num_handles then update (set_signals_state states)
           else lift OutOfFuel);;
        note (ManyWaited r (zip (wait_many_handles_ (self w)) states));;
        mret r
  | _ => lift OutOfFuel
  end.

Definition MojoReadMessage : M world (MojoResult * list byte * Z) :=
  w ← get;
  match answers w with
  | MessageRead r bytes num_handles :: l => put (set_answers l w);; mret (r, bytes, num_handles)
  | _ => lift OutOfFuel
  end.

Section HandleWatcher.
(** A constant of dart_api.h. *)
Context (ILLEGAL_PORT : Dart_Port).

(** ** Making commands *)

Definition Empty : HandleWatcherCommand :=
  {| handle_or_deadline_ := 0; port_ := ILLEGAL_PORT; data_ := 0 |}.

(** The constructor, and the fields that the factories set. *)
Definition make (handle_or_deadline : Z) (p : Dart_Port) : HandleWatcherCommand :=
  {| handle_or_deadline_ := handle_or_deadline; port_ := p; data_ := data_ Empty |}.

Definition Add (handle : MojoHandle) (signals : MojoHandleSignals) (port : Dart_Port) :=
  set_data kCommandAddHandle signals (make handle port).
Definition Remove (handle : MojoHandle) :=
  set_data kCommandRemoveHandle MOJO_HANDLE_SIGNAL_NONE (make handle ILLEGAL_PORT).
Definition Close (handle : MojoHandle) (port : Dart_Port) :=
  set_data kCommandCloseHandle MOJO_HANDLE_SIGNAL_NONE (make handle port).
Definition Timer (deadline : Z) (port : Dart_Port) :=
  set_data kCommandAddTimer MOJO_HANDLE_SIGNAL_NONE (make deadline port).
Definition Shutdown_command :=
  set_data kCommandShutdownHandleWatcher MOJO_HANDLE_SIGNAL_NONE (make MOJO_HANDLE_INVALID ILLEGAL_PORT).

(** [int64_t] arguments are converted to those of the factories. *)
Definition FromDart (command handle_or_deadline : Z) (port : Dart_Port) (signals : Z) :
    outcome HandleWatcherCommand :=
  match Command_of command with
  | Some kCommandAddHandle => Ok (Add (wrap32 handle_or_deadline) (wrap32 signals) port)
  | Some kCommandRemoveHandle => Ok (Remove (wrap32 handle_or_deadline))
  | Some kCommandCloseHandle => Ok (Close (wrap32 handle_or_deadline) port)
  | Some kCommandAddTimer => Ok (Timer handle_or_deadline port)
  | Some kCommandShutdownHandleWatcher => Ok Shutdown_command
  | None => Abort
  end.

(** ** Messages to ports *)

Definition PostNull (port : Dart_Port) : M world unit :=
  if port =? ILLEGAL_PORT then mret tt else note (PostedNull port).
Definition PostSignal (port : Dart_Port) (signalled : Z) : M world unit :=
  if port =? ILLEGAL_PORT then mret tt else note (PostedSignal port (to_int32 signalled)).

(** * Handles *)

Definition CONTROL_HANDLE_INDEX : Z := 0.

Definition AddHandle (handle : MojoHandle) (signals : MojoHandleSignals) (port : Dart_Port) :
    M world unit :=
  s ← this;
  let index := size_of (wait_many_handles_ s) in
  match handle_to_index_map_ s !! handle with
  | Some index =>
      h ← vec_get (wait_many_handles_ s) index;
      MOJO_CHECK (h =? handle);;
      p ← vec_get (handle_ports_ s) index;
      if negb (p =? port) then PostSignal port MOJO_HANDLE_SIGNAL_PEER_CLOSED
      else
        old ← vec_get (wait_many_signals_ s) index;
        sigs ← vec_set (wait_many_signals_ s) index (Z.lor old signals);
        update (set_vectors (wait_many_handles_ s) sigs (wait_many_signals_state_ s)
                  (handle_ports_ s) (handle_to_index_map_ s));;
        MOJO_CHECK (size_of (wait_many_handles_ s) =? Z.of_nat (size (handle_to_index_map_ s)))
  | None =>
      update (set_vectors (wait_many_handles_ s ++ [handle]) (wait_many_signals_ s ++ [signals])
        (wait_many_signals_state_ s ++
          [{| satisfied_signals := MOJO_HANDLE_SIGNAL_NONE; satisfiable_signals := MOJO_HANDLE_SIGNAL_NONE |}])
        (handle_ports_ s ++ [port]) (<[handle := index]> (handle_to_index_map_ s)));;
      s ← this;
      MOJO_CHECK (size_of (wait_many_handles_ s) =? Z.of_nat (size (handle_to_index_map_ s)))
  end.

(** The last element takes the place of the one removed. *)
Definition replace_with_last {A} (v : list A) (index last_index : Z) : M world (list A) :=
  x ← vec_get v last_index; vec_set v index x.

Definition RemoveHandleAtIndex (index : Z) : M world unit :=
  MOJO_CHECK (negb (index =? CONTROL_HANDLE_INDEX));;
  s ← this;
  let last_index := size_of (wait_many_handles_ s) - 1 in
  h ← vec_get (wait_many_handles_ s) index;
  update (fun s => set_vectors (wait_many_handles_ s) (wait_many_signals_ s)
    (wait_many_signals_state_ s) (handle_ports_ s) (delete h (handle_to_index_map_ s)) s);;
  (if negb (index =? last_index) then
     s ← this;
     handle ← vec_get (wait_many_handles_ s) last_index;
     hs ← replace_with_last (wait_many_handles_ s) index last_index;
     sigs ← replace_with_last (wait_many_signals_ s) index last_index;
     states ← replace_with_last (wait_many_signals_state_ s) index last_index;
     ports ← replace_with_last (handle_ports_ s) index last_index;
     update (set_vectors hs sigs states ports (<[handle := index]> (handle_to_index_map_ s)))
   else mret tt);;
  s ← this;
  hs ← vec_pop_back (wait_many_handles_ s);
  sigs ← vec_pop_back (wait_many_signals_ s);
  states ← vec_pop_back (wait_many_signals_state_ s);
  ports ← vec_pop_back (handle_ports_ s);
  update (set_vectors hs sigs states ports (handle_to_index_map_ s));;
  MOJO_CHECK (size_of hs >=? 1);;
  MOJO_CHECK (size_of hs =? Z.of_nat (size (handle_to_index_map_ s))).

Definition RemoveHandle (handle : MojoHandle) : M world unit :=
  s ← this;
  match handle_to_index_map_ s !! handle with
  | None => mret tt
  | Some index =>
      MOJO_CHECK (negb (index =? CONTROL_HANDLE_INDEX));;
      RemoveHandleAtIndex index
  end.

Definition CloseHandle (handle : MojoHandle) (port : Dart_Port) (pruning : bool) : M world unit :=
  MOJO_CHECK (negb pruning || (port =? ILLEGAL_PORT));;
  s ← this;
  match handle_to_index_map_ s !! handle with
  | None => MojoClose handle;; PostNull port
  | Some index =>
      MojoClose handle;;
      PostNull port;;
      MOJO_CHECK (negb (index =? CONTROL_HANDLE_INDEX));;
      (if pruning then
         p ← vec_get (handle_ports_ s) index;
         PostSignal p MOJO_HANDLE_SIGNAL_PEER_CLOSED
       else mret tt);;
      RemoveHandle handle
  end.

(** * Timers *)

(** Erases the first timer of the port. *)
Fixpoint erase_port (port : Dart_Port) (l : list HandleWatcherTimer) : list HandleWatcherTimer :=
  match l with
  | [] => []
  | t :: l => if timer_port t =? port then l else t :: erase_port port l
  end.

Definition UpdateTimer (deadline : Z) (port : Dart_Port) : M world unit :=
  update (fun s => set_timers (erase_port port (timers_ s)) s);;
  if deadline <? 0 then mret tt
  else update (fun s => set_timers
    (timers_insert {| timer_deadline := deadline; timer_port := port |} (timers_ s)) s).

Definition HasTimers : M world bool := s ← this; mret (negb (bool_decide (length (timers_ s) = 0%nat))).

Definition NextTimerDeadline : M world Z :=
  s ← this;
  match timers_ s with
  | [] => lift Abort
  | t :: _ => mret (timer_deadline t)
  end.

Definition CompleteNextTimer : M world unit :=
  s ← this;
  match timers_ s with
  | [] => lift Abort
  | t :: rest => PostNull (timer_port t);; update (set_timers rest)
  end.

Definition GetDartTimeInMillis : M world Z :=
  ticks ← MojoGetTimeTicksNow;
  note (TimeRead (Z.quot ticks 1000));;
  mret (Z.quot ticks 1000).

(** [now >= NextTimerDeadline()] is evaluated only when there are timers. *)
Definition ProcessTimers (fuel : nat) : M world unit :=
  now ← GetDartTimeInMillis;
  while_ fuel (fun now =>
    has ← HasTimers;
    if (has : bool) then
      next ← NextTimerDeadline;
      if now >=? next then
        CompleteNextTimer;;
        now ← GetDartTimeInMillis;
        mret (inl now)
      else mret (inr tt)
    else mret (inr tt)) now.

(** The [int64_t] is converted to the unsigned [MojoDeadline] of the wait. *)
Definition WaitDeadline : M world Z :=
  has ← HasTimers;
  if negb has then mret MOJO_DEADLINE_INDEFINITE
  else
    now ← GetDartTimeInMillis;
    next ← NextTimerDeadline;
    difference ← int64 (next - now);
    micros ← int64 (difference * 1000);
    mret (wrap64 micros).

Definition Shutdown : M world unit := update (set_shutdown true).

(** * The thread *)

Definition ProcessControlMessage : M world unit :=
  '(res, bytes, num_handles) ← MojoReadMessage;
  MOJO_CHECK (res =? MOJO_RESULT_OK);;
  MOJO_CHECK (size_of bytes =? sizeof_HandleWatcherCommand);;
  MOJO_CHECK (num_handles =? 0);;
  let c := command_of_bytes bytes in
  note (CommandRead c);;
  match Command_of (command c) with
  | Some kCommandAddHandle => AddHandle (handle c) (signals c) (port c)
  | Some kCommandRemoveHandle => RemoveHandle (handle c)
  | Some kCommandCloseHandle => CloseHandle (handle c) (port c) false
  | Some kCommandAddTimer => UpdateTimer (deadline c) (port c)
  | Some kCommandShutdownHandleWatcher => Shutdown
  | None => MOJO_CHECK false
  end.

Definition ShouldCloseHandle (h : MojoHandle) : M world bool :=
  if h =? MOJO_HANDLE_INVALID then mret false
  else
    result ← MojoWait h;
    mret (negb (result =? MOJO_RESULT_OK) && negb (result =? MOJO_SYSTEM_RESULT_DEADLINE_EXCEEDED)).

(** The handles, from index [i] on, that are closed: the two loops that collect
    [closed_handles]. *)
Fixpoint closed_by_state (hs : list MojoHandle) (i : Z) : M world (list MojoHandle) :=
  match hs with
  | [] => mret []
  | h :: hs =>
      s ← this;
      state ← vec_get (wait_many_signals_state_ s) i;
      rest ← closed_by_state hs (i + 1);
      mret (if negb (Z.land (satisfied_signals state) MOJO_HANDLE_SIGNAL_PEER_CLOSED =? 0)
            then h :: rest else rest)
  end.
Fixpoint closed_by_waiting (hs : list MojoHandle) : M world (list MojoHandle) :=
  match hs with
  | [] => mret []
  | h :: hs =>
      close ← ShouldCloseHandle h;
      rest ← closed_by_waiting hs;
      mret (if (close : bool) then h :: rest else rest)
  end.

Fixpoint close_all (hs : list MojoHandle) : M world unit :=
  match hs with
  | [] => mret tt
  | h :: hs => CloseHandle h ILLEGAL_PORT true;; close_all hs
  end.

Definition PruneClosedHandles (signals_state_is_valid : bool) : M world unit :=
  s ← this;
  closed_handles ←
    (if signals_state_is_valid then closed_by_state (wait_many_handles_ s) 0
     else closed_by_waiting (wait_many_handles_ s));
  close_all closed_handles.

(** The loop from the highest index down to 1; [i] counts the handles that are left
    to visit, the control handle included. The result is [to_remove]. *)
Fixpoint notify_ready (i : nat) : M world (list Z) :=
  match i with
  | O | S O => mret []
  | S i' =>
      s ← this;
      sigs ← vec_get (wait_many_signals_ s) (Z.of_nat i');
      state ← vec_get (wait_many_signals_state_ s) (Z.of_nat i');
      let satisfied := Z.land (satisfied_signals state) sigs in
      if negb (satisfied =? 0) then
        p ← vec_get (handle_ports_ s) (Z.of_nat i');
        PostSignal p satisfied;;
        rest ← notify_ready i';
        mret (Z.of_nat i' :: rest)
      else notify_ready i'
  end.

Fixpoint remove_all (to_remove : list Z) : M world unit :=
  match to_remove with
  | [] => mret tt
  | i :: rest => RemoveHandleAtIndex i;; remove_all rest
  end.

Definition ProcessWaitManyResults (result : MojoResult) : M world unit :=
  MOJO_CHECK (negb (result =? MOJO_SYSTEM_RESULT_DEADLINE_EXCEEDED));;
  if negb (result =? MOJO_RESULT_OK) then
    PruneClosedHandles (negb (result =? MOJO_SYSTEM_RESULT_INVALID_ARGUMENT))
  else
    s ← this;
    to_remove ← notify_ready (length (wait_many_handles_ s));
    remove_all to_remove;;
    s ← this;
    sigs ← vec_get (wait_many_signals_ s) CONTROL_HANDLE_INDEX;
    state ← vec_get (wait_many_signals_state_ s) CONTROL_HANDLE_INDEX;
    if negb (Z.land (satisfied_signals state) sigs =? 0) then ProcessControlMessage else mret tt.

(** One iteration of [Run]. *)
Definition run_once (fuel : nat) : M world unit :=
  ProcessTimers fuel;;
  s ← this;
  let num_handles := wrap32 (size_of (wait_many_handles_ s)) in
  MOJO_CHECK (size_of (wait_many_signals_ s) =? num_handles);;
  d ← WaitDeadline;
  result ← MojoWaitMany num_handles d;
  if result =? MOJO_SYSTEM_RESULT_DEADLINE_EXCEEDED then mret tt
  else ProcessWaitManyResults result.

Definition Run (fuel : nat) : M world unit :=
  while_ fuel (fun _ : unit =>
    s ← this;
    if shutdown_ s then mret (inr tt) else run_once fuel;; mret (inl tt)) tt;;
  s ← this;
  MojoClose (control_pipe_consumer_handle_ s).

(** The constructor, on a thread that is to get the answers [l]. *)
Definition new_world (l : list answer) : world := {|
  self := {| shutdown_ := false; control_pipe_consumer_handle_ := MOJO_HANDLE_INVALID;
             wait_many_handles_ := []; wait_many_signals_ := []; wait_many_signals_state_ := [];
             handle_ports_ := []; handle_to_index_map_ := ∅; timers_ := [] |};
  answers := l; trace := [];
|}.
Definition HandleWatcherThreadState_constructor (control_pipe_consumer_handle : MojoHandle) :
    M world unit :=
  update (set_control control_pipe_consumer_handle);;
  MOJO_CHECK (negb (control_pipe_consumer_handle =? MOJO_HANDLE_INVALID));;
  AddHandle control_pipe_consumer_handle MOJO_HANDLE_SIGNAL_READABLE ILLEGAL_PORT.

Definition HandleWatcherThreadState_destructor : M world unit :=
  s ← this;
  if negb (control_pipe_consumer_handle_ s =? MOJO_HANDLE_INVALID) then
    MojoClose (control_pipe_consumer_handle_ s);;
    update (set_control MOJO_HANDLE_INVALID)
  else mret tt.

Definition ThreadMain (fuel : nat) (control_pipe_consumer_handle : MojoHandle) : M world unit :=
  HandleWatcherThreadState_constructor control_pipe_consumer_handle;;
  Run fuel;;
  HandleWatcherThreadState_destructor.
End HandleWatcher.
