(* ===== verification/HandleWatcherFacts.v ===== *)
(** The handle watcher keeps its vectors and its index in step, fails no check and
    stays in range; each of its functions as a change of the list of entries that
    the vectors hold. *)
From stdpp Require Import base numbers list option gmap sorting.
From coqutil Require Import Byte Word.LittleEndianList.
From Stdlib Require Import ZArith Lia.
From S2P Require Import Prelude Result CMem Validate Serialization HandleWatcher.

(** * Entries: one index of the four vectors *)

Record entry := {
  e_handle : MojoHandle;
  e_signals : MojoHandleSignals;
  e_state : MojoHandleSignalsState;
  e_port : Dart_Port;
}.

Definition handles (es : list entry) : list MojoHandle := e_handle <$> es.

#[export] Instance handles_perm : Proper (Permutation ==> Permutation) handles.
Proof. intros es es' Hp. unfold handles. by rewrite Hp. Qed.

Lemma handles_cons e es : handles (e :: es) = e_handle e :: handles es.
Proof. done. Qed.

(** The index of the vectors: handle to position. *)
Definition index_map (es : list entry) : gmap MojoHandle Z :=
  list_to_map (zip (handles es) (seqZ 0 (Z.of_nat (length es)))).

Lemma length_handles es : length (handles es) = length es.
Proof. apply length_fmap. Qed.

Lemma fst_index es : (zip (handles es) (seqZ 0 (Z.of_nat (length es)))).*1 = handles es.
Proof. apply fst_zip. rewrite length_handles, length_seqZ. lia. Qed.

Lemma index_map_lookup es h i : NoDup (handles es) ->
  index_map es !! h = Some i <-> 0 <= i /\ handles es !! Z.to_nat i = Some h.
Proof.
  intros Hnd. unfold index_map. rewrite <- elem_of_list_to_map by (by rewrite fst_index).
  rewrite list_elem_of_lookup. setoid_rewrite lookup_zip_with_Some.
  split.
  - intros (k & a & b & [= -> ->] & Ha & Hb). apply lookup_seqZ in Hb as [-> Hb].
    split; [lia|]. by replace (Z.to_nat (0 + Z.of_nat k)) with k by lia.
  - intros [Hi Hh]. exists (Z.to_nat i), h, i. split_and!; [done|done|].
    apply lookup_lt_Some in Hh. rewrite length_handles in Hh. apply lookup_seqZ. lia.
Qed.

Lemma index_map_unique es (m : gmap MojoHandle Z) : NoDup (handles es) ->
  (forall h i, m !! h = Some i <-> 0 <= i /\ handles es !! Z.to_nat i = Some h) -> m = index_map es.
Proof.
  intros Hnd Hm. apply map_eq. intros h. apply option_eq. intros i.
  by rewrite Hm, index_map_lookup.
Qed.

Lemma index_map_size es : NoDup (handles es) -> size (index_map es) = length es.
Proof.
  intros Hnd. unfold index_map. rewrite map_size_list_to_map by (by rewrite fst_index).
  rewrite length_zip_with, length_handles, length_seqZ. lia.
Qed.

(** ** Taking out an entry: the last one takes its place *)

Definition swap_remove {A} (i : nat) (l : list A) : list A :=
  match last l with Some x => <[i := x]> (removelast l) | None => [] end.

Lemma swap_remove_snoc {A} i (l : list A) x : swap_remove i (l ++ [x]) = <[i := x]> l.
Proof. unfold swap_remove. by rewrite last_snoc, removelast_last. Qed.

Lemma swap_remove_fmap {A B} (f : A -> B) i (l : list A) :
  f <$> swap_remove i l = swap_remove i (f <$> l).
Proof.
  destruct l as [|x l _] using rev_ind; [reflexivity|].
  rewrite fmap_app, swap_remove_snoc, list_fmap_insert. symmetry. apply swap_remove_snoc.
Qed.

Lemma swap_remove_perm {A} i (l : list A) e : l !! i = Some e -> l ≡ₚ e :: swap_remove i l.
Proof.
  destruct l as [|x l _] using rev_ind; [done|]. intros He. rewrite swap_remove_snoc.
  destruct (decide (i < length l)%nat) as [Hi|Hi].
  - rewrite lookup_app_l in He by done. rewrite insert_take_drop by done.
    transitivity ((take i l ++ e :: drop (S i) l) ++ [x]); [by rewrite take_drop_middle|].
    rewrite (Permutation_app_comm _ [x]). simpl.
    transitivity (x :: e :: (take i l ++ drop (S i) l)); [apply perm_skip; by rewrite Permutation_middle|].
    etransitivity; [apply perm_swap|apply perm_skip, Permutation_middle].
  - assert (i = length l) by (apply lookup_lt_Some in He; rewrite length_app in He; simpl in He; lia).
    subst i. rewrite lookup_app_r, Nat.sub_diag in He by lia. injection He as <-.
    rewrite list_insert_ge by lia. by rewrite Permutation_app_comm.
Qed.

Lemma length_swap_remove {A} i (l : list A) : length (swap_remove i l) = (length l - 1)%nat.
Proof.
  destruct l as [|x l _] using rev_ind; [done|].
  rewrite swap_remove_snoc, length_insert, length_app. simpl. lia.
Qed.

Lemma swap_remove_lookup {A} i (l : list A) k :
  (i < length l)%nat ->
  swap_remove i l !! k =
    if decide (k < length l - 1)%nat then
      if decide (k = i) then last l else l !! k
    else None.
Proof.
  destruct l as [|x l _] using rev_ind; [done|].
  rewrite length_app, swap_remove_snoc, last_snoc. simpl. intros Hi.
  destruct (decide (k < length l + 1 - 1)%nat); [|apply lookup_ge_None; rewrite length_insert; lia].
  destruct (decide (k = i)) as [->|Hne].
  - apply list_lookup_insert_eq. lia.
  - rewrite list_lookup_insert_ne by done. by rewrite lookup_app_l by lia.
Qed.

Lemma swap_remove_head {A} i (x : A) l : (0 < i)%nat -> (i < length (x :: l))%nat ->
  swap_remove i (x :: l) = x :: swap_remove (i - 1) l.
Proof.
  intros H0 Hi. destruct l as [|y l _] using rev_ind; [simpl in Hi; lia|].
  rewrite (app_comm_cons l [y] x), !swap_remove_snoc.
  destruct i as [|i]; [lia|]. simpl. by rewrite Nat.sub_0_r.
Qed.

(** * The state of the thread *)

(** The longest deadline whose distance from any time is in range, in microseconds. *)
Definition max_deadline : Z := (2 ^ 63 - 1) / 1000.

Definition timers_ok (ts : list HandleWatcherTimer) : Prop :=
  StronglySorted (fun t u => timer_deadline t < timer_deadline u) ts /\
  NoDup (timer_port <$> ts) /\
  Forall (fun t => 0 <= timer_deadline t <= max_deadline) ts.

(** The thread's state for a list of entries and a list of timers. *)
Definition watcher_world (control : MojoHandle) (es : list entry) (ts : list HandleWatcherTimer) (sd : bool)
    (l : list answer) (tr : list event) : world := {|
  self := {|
    shutdown_ := sd; control_pipe_consumer_handle_ := control;
    wait_many_handles_ := handles es; wait_many_signals_ := e_signals <$> es;
    wait_many_signals_state_ := e_state <$> es; handle_ports_ := e_port <$> es;
    handle_to_index_map_ := index_map es; timers_ := ts |};
  answers := l;
  trace := tr;
|}.

(** Running a function call by call. *)
Ltac watcher_simpl := cbn beta iota zeta;
  cbn [self watcher_world answers trace shutdown_ control_pipe_consumer_handle_ wait_many_handles_
       wait_many_signals_ wait_many_signals_state_ handle_ports_ handle_to_index_map_ timers_ negb orb andb];
  cbn iota.
Ltac run_by t := erewrite run_bind; [|t]; watcher_simpl.
Ltac run_step := run_by ltac:(reflexivity).

Section Facts.
Context (ILLEGAL_PORT : Dart_Port) (control : MojoHandle).

(** The control handle comes first; its peer stays open. *)
Definition control_entry (e : entry) : Prop :=
  e_handle e = control /\ e_signals e = MOJO_HANDLE_SIGNAL_READABLE /\ e_port e = ILLEGAL_PORT /\
  Z.land (satisfied_signals (e_state e)) MOJO_HANDLE_SIGNAL_PEER_CLOSED = 0.

Record entries_ok (es : list entry) : Prop := {
  eo_control : exists e rest, es = e :: rest /\ control_entry e;
  eo_distinct : NoDup (handles es);
  eo_range : Forall (fun e => 0 < e_handle e < 2 ^ 32) es;
}.

Abbreviation world_of := (watcher_world control).

(** ** Vectors *)

Lemma vec_get_run {A B} (f : A -> B) (l : list A) (i : nat) x w :
  l !! i = Some x -> vec_get (f <$> l) (Z.of_nat i) w = Ok (f x, w).
Proof.
  intros Hx. unfold vec_get. destruct (Z.ltb_spec (Z.of_nat i) 0); [lia|].
  by rewrite Nat2Z.id, list_lookup_fmap, Hx.
Qed.

Lemma replace_with_last_run {A B} (f : A -> B) (l : list A) (i : nat) x w :
  (i < length l)%nat -> last l = Some x ->
  replace_with_last (f <$> l) (Z.of_nat i) (Z.of_nat (length l) - 1) w = Ok (f <$> <[i := x]> l, w).
Proof.
  intros Hi Hx. unfold replace_with_last. rewrite last_lookup in Hx.
  replace (Z.of_nat (length l) - 1) with (Z.of_nat (pred (length l))) by lia.
  erewrite run_bind; [|by apply vec_get_run]. unfold vec_set.
  destruct (lookup_lt_is_Some_2 l i Hi) as [y Hy].
  erewrite run_bind; [|by apply vec_get_run]. by rewrite Nat2Z.id, <- list_fmap_insert.
Qed.

Lemma vec_pop_back_run {A B} (f : A -> B) (l : list A) w :
  l <> [] -> vec_pop_back (f <$> l) w = Ok (f <$> removelast l, w).
Proof.
  intros Hl. unfold vec_pop_back. destruct l as [|x l _] using rev_ind; [done|].
  rewrite removelast_last, fmap_app. simpl. rewrite removelast_last. by destruct (f <$> l).
Qed.

(** ** Adding and removing entries *)

Lemma vec_get_handles es (i : nat) e w : es !! i = Some e ->
  vec_get (handles es) (Z.of_nat i) w = Ok (e_handle e, w).
Proof. apply vec_get_run. Qed.

Lemma index_of es (i : nat) e : NoDup (handles es) -> es !! i = Some e ->
  index_map es !! e_handle e = Some (Z.of_nat i).
Proof.
  intros Hnd He. apply index_map_lookup; [done|]. split; [lia|].
  by rewrite Nat2Z.id; unfold handles; rewrite list_lookup_fmap, He.
Qed.

Lemma index_of_None es h : NoDup (handles es) -> h ∉ handles es -> index_map es !! h = None.
Proof.
  intros Hnd Hh. destruct (index_map es !! h) as [i|] eqn:Hi; [|done].
  apply index_map_lookup in Hi as [_ Hi]; [|done]. by apply list_elem_of_lookup_2 in Hi.
Qed.

Lemma sizes_agree es : NoDup (handles es) -> (size_of (handles es) =? Z.of_nat (size (index_map es))) = true.
Proof. intros Hnd. rewrite index_map_size by done. unfold size_of. rewrite length_handles. lia. Qed.

Definition initial_state : MojoHandleSignalsState :=
  {| satisfied_signals := MOJO_HANDLE_SIGNAL_NONE; satisfiable_signals := MOJO_HANDLE_SIGNAL_NONE |}.
Definition new_entry (h : MojoHandle) (sg : MojoHandleSignals) (p : Dart_Port) : entry :=
  {| e_handle := h; e_signals := sg; e_state := initial_state; e_port := p |}.
Definition add_signals (sg : MojoHandleSignals) (e : entry) : entry :=
  {| e_handle := e_handle e; e_signals := Z.lor (e_signals e) sg; e_state := e_state e; e_port := e_port e |}.

Lemma index_map_snoc es e : NoDup (handles (es ++ [e])) ->
  <[e_handle e := size_of (handles es)]> (index_map es) = index_map (es ++ [e]).
Proof.
  intros Hnd. assert (Hnd' : NoDup (handles es) /\ e_handle e ∉ handles es).
  { unfold handles in *. rewrite fmap_app in Hnd. apply NoDup_app in Hnd as (H1 & H2 & _).
    split; [done|]. intros H. apply (H2 _ H). simpl. set_solver. }
  destruct Hnd' as [Hnd1 Hnew]. apply index_map_unique; [done|]. intros h i.
  unfold handles at 2. rewrite fmap_app, lookup_app.
  destruct (decide (h = e_handle e)) as [->|Hne].
  - rewrite lookup_insert_eq. split.
    + intros [= <-]. unfold size_of. rewrite Nat2Z.id. split; [lia|].
      destruct ((e_handle <$> es) !! length (handles es)) eqn:H; [|by rewrite Nat.sub_diag].
      apply lookup_lt_Some in H. unfold handles in H. lia.
    + intros [Hi Hl]. destruct ((e_handle <$> es) !! Z.to_nat i) eqn:H.
      * injection Hl as ->. by apply list_elem_of_lookup_2 in H.
      * apply list_lookup_singleton_Some in Hl as [Hl _]. apply lookup_ge_None in H.
        unfold size_of, handles. f_equal. lia.
  - rewrite lookup_insert_ne, index_map_lookup by done. split.
    + intros [Hi Hl]. split; [done|]. unfold handles in Hl. by rewrite Hl.
    + intros [Hi Hl]. split; [done|]. unfold handles. destruct ((e_handle <$> es) !! Z.to_nat i); [done|].
      apply list_lookup_singleton_Some in Hl as [_ Hl]. by subst.
Qed.

(** A handle that is new. *)
Lemma AddHandle_new es ts sd l tr h sg p :
  NoDup (handles es) -> h ∉ handles es ->
  AddHandle ILLEGAL_PORT h sg p (world_of es ts sd l tr) = Ok (tt, world_of (es ++ [new_entry h sg p]) ts sd l tr).
Proof.
  intros Hnd Hnew. unfold AddHandle. run_step.
  rewrite index_of_None by done.
  assert (Hnd2 : NoDup (handles (es ++ [new_entry h sg p]))).
  { unfold handles. rewrite fmap_app. apply NoDup_app. split_and!; [done| |apply NoDup_singleton].
    intros x Hx Hx'. apply list_elem_of_singleton in Hx'. by subst. }
  assert (Hup : update (set_vectors (handles es ++ [h]) ((e_signals <$> es) ++ [sg])
     ((e_state <$> es) ++ [initial_state]) ((e_port <$> es) ++ [p])
     (<[h := size_of (handles es)]> (index_map es))) (world_of es ts sd l tr) =
    Ok (tt, world_of (es ++ [new_entry h sg p]) ts sd l tr)).
  { unfold update, modify, watcher_world. repeat f_equal.
    all: unfold handles; rewrite ?fmap_app; try done. unfold set_self. cbn. rewrite <- index_map_snoc by done. done. }
  run_by ltac:(exact Hup). run_step.
  by rewrite sizes_agree.
Qed.

(** A signal to a port, unless there is none. *)
Definition signal (p : Dart_Port) (v : Z) : list event :=
  if p =? ILLEGAL_PORT then [] else [PostedSignal p (to_int32 v)].
Definition null (p : Dart_Port) : list event := if p =? ILLEGAL_PORT then [] else [PostedNull p].

Lemma PostSignal_run p v es ts sd l tr :
  PostSignal ILLEGAL_PORT p v (world_of es ts sd l tr) = Ok (tt, world_of es ts sd l (signal p v ++ tr)).
Proof. unfold PostSignal, signal. by destruct (p =? ILLEGAL_PORT). Qed.
Lemma PostNull_run p es ts sd l tr :
  PostNull ILLEGAL_PORT p (world_of es ts sd l tr) = Ok (tt, world_of es ts sd l (null p ++ tr)).
Proof. unfold PostNull, null. by destruct (p =? ILLEGAL_PORT). Qed.

Lemma index_map_handles es es' : handles es = handles es' -> index_map es = index_map es'.
Proof.
  intros H. unfold index_map. by rewrite <- (length_handles es), H, length_handles.
Qed.

(** A handle that is watched: for the same port, or for another one. *)
Lemma AddHandle_old es ts sd l tr i e sg p :
  NoDup (handles es) -> es !! i = Some e ->
  AddHandle ILLEGAL_PORT (e_handle e) sg p (world_of es ts sd l tr) =
    Ok (tt, if e_port e =? p then world_of (<[i := add_signals sg e]> es) ts sd l tr
            else world_of es ts sd l (signal p MOJO_HANDLE_SIGNAL_PEER_CLOSED ++ tr)).
Proof.
  intros Hnd He. unfold AddHandle. run_step.
  rewrite (index_of es i e) by done.
  run_by ltac:(by apply vec_get_handles). rewrite Z.eqb_refl. run_step.
  run_by ltac:(by apply vec_get_run). destruct (e_port e =? p); watcher_simpl; [|apply PostSignal_run].
  run_by ltac:(by apply vec_get_run). unfold vec_set.
  run_by ltac:(erewrite run_bind; [reflexivity|by apply vec_get_run]). rewrite Nat2Z.id.
  change (Z.lor (e_signals e) sg) with (e_signals (add_signals sg e)). rewrite <- list_fmap_insert.
  assert (Hsame : forall B (f : entry -> B), f (add_signals sg e) = f e -> f <$> <[i := add_signals sg e]> es = f <$> es).
  { intros B f Hf. rewrite list_fmap_insert, Hf. apply list_insert_id. by rewrite list_lookup_fmap, He. }
  assert (Hup : update (set_vectors (handles es) (e_signals <$> <[i:=add_signals sg e]> es) (e_state <$> es)
      (e_port <$> es) (index_map es)) (world_of es ts sd l tr) =
    Ok (tt, world_of (<[i := add_signals sg e]> es) ts sd l tr)).
  { unfold update, modify, watcher_world, set_self, set_vectors. watcher_simpl. unfold handles.
    rewrite !(Hsame _ e_state), !(Hsame _ e_port), !(Hsame _ e_handle) by done.
    by rewrite (index_map_handles (<[i := add_signals sg e]> es) es) by (by apply Hsame). }
  run_by ltac:(exact Hup). by rewrite sizes_agree.
Qed.

Lemma NoDup_swap_remove es i : (i < length es)%nat -> NoDup (handles es) -> NoDup (handles (swap_remove i es)).
Proof.
  intros Hi Hnd. destruct (lookup_lt_is_Some_2 es i Hi) as [e He].
  pose proof (swap_remove_perm i es e He) as Hp. unfold handles in *. rewrite Hp in Hnd.
  by apply NoDup_cons in Hnd as [_ Hnd].
Qed.

Lemma handles_last es x : last es = Some x -> handles es !! (length es - 1)%nat = Some (e_handle x).
Proof.
  rewrite last_lookup. intros Hx. unfold handles. rewrite list_lookup_fmap.
  by replace (length es - 1)%nat with (pred (length es)) by lia; rewrite Hx.
Qed.

Lemma handles_swap_remove es i x k : (i < length es)%nat -> last es = Some x ->
  handles (swap_remove i es) !! k =
    if decide (k < length es - 1)%nat then if decide (k = i) then Some (e_handle x) else handles es !! k
    else None.
Proof.
  intros Hi Hx. unfold handles. rewrite list_lookup_fmap, swap_remove_lookup, Hx, list_lookup_fmap by done.
  by destruct (decide (k < length es - 1)%nat), (decide (k = i)).
Qed.

(** Where a handle is, after the last entry [x] took the place of entry [i]. *)
Lemma swap_remove_position es i e x h k :
  NoDup (handles es) -> es !! i = Some e -> last es = Some x ->
  handles (swap_remove i es) !! k = Some h <->
    h <> e_handle e /\ ((k = i /\ h = e_handle x) \/ ((k < length es - 1)%nat /\ handles es !! k = Some h)).
Proof.
  intros Hnd He Hx. pose proof (lookup_lt_Some _ _ _ He) as Hi. rewrite (handles_swap_remove _ _ x) by done.
  assert (Hei : handles es !! i = Some (e_handle e)) by (unfold handles; by rewrite list_lookup_fmap, He).
  pose proof (handles_last es x Hx) as Hl.
  assert (Huniq : forall a b y, handles es !! a = Some y -> handles es !! b = Some y -> a = b)
    by (intros a b y; by apply NoDup_lookup).
  split.
  - destruct (decide (k < length es - 1)%nat) as [Hlt|]; [|done]. destruct (decide (k = i)) as [->|Hne].
    + intros [= <-]. split; [|by left]. intros Heq. rewrite <- Heq in Hei. pose proof (Huniq _ _ _ Hei Hl). lia.
    + intros Hk. split; [|by right]. intros ->. by apply Hne, (Huniq _ _ _ Hk Hei).
  - intros [Hne [[-> ->]|[Hlt Hk]]].
    + assert (i <> length es - 1)%nat by (intros ->; congruence). by rewrite !decide_True by lia.
    + rewrite decide_True, decide_False; [done| |done]. intros ->. congruence.
Qed.

(** The index is updated likewise. *)
Lemma index_map_swap_remove es i e x : NoDup (handles es) -> es !! i = Some e -> last es = Some x ->
  index_map (swap_remove i es) =
    if decide (i = length es - 1)%nat then delete (e_handle e) (index_map es)
    else <[e_handle x := Z.of_nat i]> (delete (e_handle e) (index_map es)).
Proof.
  intros Hnd He Hx. pose proof (lookup_lt_Some _ _ _ He) as Hi. pose proof (handles_last es x Hx) as Hl.
  assert (Hlen : forall k h, handles es !! k = Some h -> (k < length es)%nat).
  { intros k h Hk. apply lookup_lt_Some in Hk. by rewrite length_handles in Hk. }
  assert (Hei : handles es !! i = Some (e_handle e)) by (unfold handles; by rewrite list_lookup_fmap, He).
  symmetry. apply index_map_unique; [by apply NoDup_swap_remove|]. intros h k.
  rewrite (swap_remove_position es i e x) by done. pose proof (Hlen (Z.to_nat k) h) as Hk.
  destruct (decide (i = length es - 1)%nat) as [->|Hlast].
  - assert (e_handle x = e_handle e) by congruence. rewrite lookup_delete_Some, index_map_lookup by done.
    split; [|naive_solver]. intros (Hne & H0 & Hkh). split_and!; try done. right. split; [|done].
    assert (Z.to_nat k <> length es - 1)%nat by (intros Heq; rewrite Heq in Hkh; congruence). specialize (Hk Hkh). lia.
  - assert (Hxe : e_handle x <> e_handle e).
    { intros Heq. rewrite Heq in Hl. apply Hlast. by apply (NoDup_lookup _ _ _ _ Hnd Hei). }
    destruct (decide (h = e_handle x)) as [->|Hne].
    + rewrite lookup_insert_eq. split.
      * intros [= <-]. rewrite Nat2Z.id. split; [lia|]. split; [done|by left].
      * intros (H0 & _ & [[Hki _]|[Hlt Hkh]]); [f_equal; lia|].
        pose proof (NoDup_lookup _ _ _ _ Hnd Hkh Hl). lia.
    + rewrite lookup_insert_ne, lookup_delete_Some, index_map_lookup by done. split; [|naive_solver].
      intros (Hne' & H0 & Hkh). split_and!; try done. right. split; [|done].
      assert (Z.to_nat k <> length es - 1)%nat by (intros Heq; rewrite Heq in Hkh; congruence). specialize (Hk Hkh). lia.
Qed.

(** ** Removing and closing *)

Lemma removelast_insert_last {A} (l : list A) i x : last l = Some x -> (i < length l)%nat ->
  removelast (if decide (i = length l - 1)%nat then l else <[i := x]> l) = swap_remove i l.
Proof.
  destruct l as [|y l _] using rev_ind; [done|]. rewrite last_snoc. intros [= ->].
  rewrite length_app, swap_remove_snoc. simpl. intros Hi. destruct (decide _) as [->|Hne].
  - rewrite removelast_last. symmetry. apply list_insert_ge. lia.
  - rewrite insert_app_l by lia. apply removelast_last.
Qed.

Lemma RemoveHandleAtIndex_run es ts sd l tr i e :
  NoDup (handles es) -> es !! i = Some e -> (0 < i)%nat ->
  RemoveHandleAtIndex (Z.of_nat i) (world_of es ts sd l tr) = Ok (tt, world_of (swap_remove i es) ts sd l tr).
Proof.
  intros Hnd He H0. pose proof (lookup_lt_Some _ _ _ He) as Hi.
  destruct (last es) as [x|] eqn:Hx; [|by apply last_None in Hx; subst].
  unfold RemoveHandleAtIndex, CONTROL_HANDLE_INDEX.
  destruct (Z.eqb_spec (Z.of_nat i) 0); [lia|]. run_step. run_step.
  run_by ltac:(by apply vec_get_handles). run_step.
  set (es1 := if decide (i = length es - 1)%nat then es else <[i := x]> es).
  set (m1 := index_map (swap_remove i es)).
  unfold size_of. rewrite length_handles.
  erewrite run_bind with (s' := {| self := {| shutdown_ := sd; control_pipe_consumer_handle_ := control;
    wait_many_handles_ := handles es1; wait_many_signals_ := e_signals <$> es1;
    wait_many_signals_state_ := e_state <$> es1; handle_ports_ := e_port <$> es1;
    handle_to_index_map_ := m1; timers_ := ts |}; answers := l; trace := tr |}).
  2: { unfold m1, es1. rewrite (index_map_swap_remove es i e x) by done.
    destruct (decide (i = length es - 1)%nat) as [Hl|Hl].
    - rewrite (proj2 (Z.eqb_eq (Z.of_nat i) _)) by lia. reflexivity.
    - rewrite (proj2 (Z.eqb_neq (Z.of_nat i) _)) by lia. watcher_simpl. run_step.
      run_by ltac:(replace (Z.of_nat (length es) - 1) with (Z.of_nat (pred (length es))) by lia;
        apply vec_get_handles; by rewrite <- last_lookup).
      do 4 run_by ltac:(by apply replace_with_last_run). done. }
  assert (Hne1 : es1 <> []).
  { unfold es1. destruct (decide _); intros H; apply (f_equal length) in H; rewrite ?length_insert in H; simpl in H; lia. }
  run_step. do 4 run_by ltac:(by apply vec_pop_back_run).
  unfold es1. rewrite removelast_insert_last by done. run_step.
  assert (Hone : (size_of (handles (swap_remove i es)) >=? 1) = true).
  { apply Z.geb_le. unfold size_of. rewrite length_handles, length_swap_remove. lia. }
  pose proof (sizes_agree (swap_remove i es) (NoDup_swap_remove _ _ Hi Hnd)) as Hsize.
  unfold handles, size_of in Hone, Hsize. fold m1 in Hsize. rewrite Hone. run_step. by rewrite Hsize.
Qed.

Lemma RemoveHandle_unknown es ts sd l tr h :
  NoDup (handles es) -> h ∉ handles es ->
  RemoveHandle h (world_of es ts sd l tr) = Ok (tt, world_of es ts sd l tr).
Proof. intros Hnd Hh. unfold RemoveHandle. run_step. by rewrite index_of_None. Qed.

Lemma RemoveHandle_known es ts sd l tr i e :
  NoDup (handles es) -> es !! i = Some e -> (0 < i)%nat ->
  RemoveHandle (e_handle e) (world_of es ts sd l tr) = Ok (tt, world_of (swap_remove i es) ts sd l tr).
Proof.
  intros Hnd He H0. unfold RemoveHandle. run_step. rewrite (index_of es i e) by done.
  unfold CONTROL_HANDLE_INDEX. destruct (Z.eqb_spec (Z.of_nat i) 0); [lia|]. run_step.
  by apply (RemoveHandleAtIndex_run _ _ _ _ _ _ e).
Qed.

Lemma CloseHandle_unknown es ts sd l tr h p :
  NoDup (handles es) -> h ∉ handles es ->
  CloseHandle ILLEGAL_PORT h p false (world_of es ts sd l tr) =
    Ok (tt, world_of es ts sd l (null p ++ Closed h :: tr)).
Proof.
  intros Hnd Hh. unfold CloseHandle. run_step. run_step. rewrite index_of_None by done.
  run_step. apply PostNull_run.
Qed.

(** What closing a handle that is watched shows. *)
Definition close_events (pruning : bool) (p : Dart_Port) (e : entry) : list event :=
  (if pruning then signal (e_port e) MOJO_HANDLE_SIGNAL_PEER_CLOSED else []) ++ null p ++ [Closed (e_handle e)].

Lemma CloseHandle_known es ts sd l tr i e p pruning :
  NoDup (handles es) -> es !! i = Some e -> (0 < i)%nat -> pruning = false \/ p = ILLEGAL_PORT ->
  CloseHandle ILLEGAL_PORT (e_handle e) p pruning (world_of es ts sd l tr) =
    Ok (tt, world_of (swap_remove i es) ts sd l (close_events pruning p e ++ tr)).
Proof.
  intros Hnd He H0 Hp. unfold CloseHandle.
  assert (Hc : negb pruning || (p =? ILLEGAL_PORT) = true) by (destruct Hp as [-> | ->]; [done|by rewrite Z.eqb_refl, orb_true_r]).
  rewrite Hc. run_step. run_step. rewrite (index_of es i e) by done.
  run_step. run_by ltac:(apply (PostNull_run p es ts sd l (Closed (e_handle e) :: tr))).
  unfold CONTROL_HANDLE_INDEX. destruct (Z.eqb_spec (Z.of_nat i) 0); [lia|]. run_step.
  unfold close_events. destruct pruning; watcher_simpl.
  - erewrite run_bind; [|run_by ltac:(by apply vec_get_run); apply PostSignal_run].
    rewrite <- !app_assoc. by apply RemoveHandle_known.
  - run_step. rewrite <- !app_assoc. by apply RemoveHandle_known.
Qed.
End Facts.
