(* ===== verification/HandleWatcherSpec.v ===== *)
(** What the handle watcher promises: an abstract watcher, which has a map of
    watches and a map of alarms and no indices, and the proof that the thread
    implements it. *)
From stdpp Require Import base numbers list option gmap sorting.
From coqutil Require Import Byte Word.LittleEndianList.
From Stdlib Require Import ZArith Lia Permutation.
From S2P Require Import Prelude Result CMem Validate Serialization HandleWatcher HandleWatcherFacts.

(** * The abstract watcher *)

Record watch := {
  w_signals : MojoHandleSignals;
  w_state : MojoHandleSignalsState;
  w_port : Dart_Port;
}.

(** [alarms] gives the deadline of a port; [clock] is the last time read. *)
Record spec := {
  watches : gmap MojoHandle watch;
  alarms : gmap Dart_Port Z;
  clock : Z;
  stopped : bool;
}.

Definition set_watches (m : gmap MojoHandle watch) (a : spec) : spec :=
  {| watches := m; alarms := alarms a; clock := clock a; stopped := stopped a |}.
Definition set_alarms (m : gmap Dart_Port Z) (a : spec) : spec :=
  {| watches := watches a; alarms := m; clock := clock a; stopped := stopped a |}.
Definition set_clock (t : Z) (a : spec) : spec :=
  {| watches := watches a; alarms := alarms a; clock := t; stopped := stopped a |}.
Definition stop (a : spec) : spec :=
  {| watches := watches a; alarms := alarms a; clock := clock a; stopped := true |}.

(** The alarm of a port is replaced. An alarm for a time that is taken is lost. *)
Definition set_alarm (d : Z) (p : Dart_Port) (m : gmap Dart_Port Z) : gmap Dart_Port Z :=
  let m := delete p m in
  if d <? 0 then m
  else if bool_decide (map_Exists (fun _ d' => d' = d) m) then m
  else <[p := d]> m.

(** The signals a watch waits for that are satisfied. *)
Definition satisfied (w : watch) : Z := Z.land (satisfied_signals (w_state w)) (w_signals w).
Definition is_ready (x : MojoHandle * watch) : Prop := satisfied x.2 <> 0.
Definition peer_closed (x : MojoHandle * watch) : Prop :=
  Z.land (satisfied_signals (w_state x.2)) MOJO_HANDLE_SIGNAL_PEER_CLOSED <> 0.
#[export] Instance is_ready_dec x : Decision (is_ready x).
Proof. unfold is_ready. apply _. Defined.
#[export] Instance peer_closed_dec x : Decision (peer_closed x).
Proof. unfold peer_closed. apply _. Defined.

(** The handles whose waits, in [checks], found them closed. *)
Definition found_closed (r : MojoResult) : bool :=
  negb (r =? MOJO_RESULT_OK) && negb (r =? MOJO_SYSTEM_RESULT_DEADLINE_EXCEEDED).
Definition found_bad (checks : list (MojoHandle * MojoResult)) (x : MojoHandle * watch) : Prop :=
  Exists (fun c => c.1 = x.1 /\ found_closed c.2 = true) checks.
#[export] Instance found_bad_dec checks x : Decision (found_bad checks x).
Proof. unfold found_bad. apply _. Defined.

Definition set_state (st : MojoHandleSignalsState) (w : watch) : watch :=
  {| w_signals := w_signals w; w_state := st; w_port := w_port w |}.
Definition widen (sg : MojoHandleSignals) (w : watch) : watch :=
  {| w_signals := Z.lor (w_signals w) sg; w_state := w_state w; w_port := w_port w |}.

(** The states that a wait reports. *)
Definition observe (report : list (MojoHandle * MojoHandleSignalsState)) (m : gmap MojoHandle watch) :
    gmap MojoHandle watch :=
  map_imap (fun h w => Some (match (list_to_map report : gmap _ _) !! h with
                             | Some st => set_state st w
                             | None => w
                             end)) m.

Section Spec.
Context (ILLEGAL_PORT : Dart_Port) (control : MojoHandle).
Abbreviation signal := (signal ILLEGAL_PORT).
Abbreviation null := (null ILLEGAL_PORT).

(** What a command does, and what it makes visible (the last event first). *)
Definition spec_command (c : HandleWatcherCommand) (a : spec) : list event * spec :=
  match Command_of (command c) with
  | Some kCommandAddHandle =>
      match watches a !! handle c with
      | None =>
          ([], set_watches (<[handle c := {| w_signals := signals c; w_state := initial_state;
                                             w_port := port c |}]> (watches a)) a)
      | Some w =>
          if w_port w =? port c
          then ([], set_watches (<[handle c := widen (signals c) w]> (watches a)) a)
          else (signal (port c) MOJO_HANDLE_SIGNAL_PEER_CLOSED, a)
      end
  | Some kCommandRemoveHandle => ([], set_watches (delete (handle c) (watches a)) a)
  | Some kCommandCloseHandle =>
      (null (port c) ++ [Closed (handle c)], set_watches (delete (handle c) (watches a)) a)
  | Some kCommandAddTimer => ([], set_alarms (set_alarm (deadline c) (port c) (alarms a)) a)
  | Some kCommandShutdownHandleWatcher => ([], stop a)
  | None => ([], a)
  end.

(** A watch is over when its signals are there, or its handle is closed. *)
Definition fire (x : MojoHandle * watch) : list event := signal (w_port x.2) (satisfied x.2).
Definition prune (x : MojoHandle * watch) : list event :=
  signal (w_port x.2) MOJO_HANDLE_SIGNAL_PEER_CLOSED ++ [Closed x.1].

Inductive spec_step : spec -> list event -> spec -> Prop :=
  | spec_obeys a c :
      spec_step a ((spec_command c a).1 ++ [CommandRead c]) (spec_command c a).2
  | spec_time a t : spec_step a [TimeRead t] (set_clock t a)
  | spec_alarm a p d :
      alarms a !! p = Some d -> d <= clock a ->
      (forall p' d', alarms a !! p' = Some d' -> d <= d') ->
      spec_step a (null p) (set_alarms (delete p (alarms a)) a)
  | spec_timeout a report :
      spec_step a [ManyWaited MOJO_SYSTEM_RESULT_DEADLINE_EXCEEDED report]
        (set_watches (observe report (watches a)) a)
  | spec_ready a report fired :
      let m := observe report (watches a) in
      fired ≡ₚ map_to_list (filter is_ready m) ->
      spec_step a ((fired ≫= fire) ++ [ManyWaited MOJO_RESULT_OK report])
        (set_watches (filter (fun x => ~ is_ready x) m) a)
  | spec_prune a r report closed :
      let m := if r =? MOJO_SYSTEM_RESULT_RESOURCE_EXHAUSTED then watches a
               else observe report (watches a) in
      r <> MOJO_RESULT_OK -> r <> MOJO_SYSTEM_RESULT_DEADLINE_EXCEEDED ->
      r <> MOJO_SYSTEM_RESULT_INVALID_ARGUMENT ->
      closed ≡ₚ map_to_list (filter peer_closed m) ->
      spec_step a ((closed ≫= prune) ++ [ManyWaited r report])
        (set_watches (filter (fun x => ~ peer_closed x) m) a)
  | spec_search a report checks closed :
      checks.*1 ≡ₚ control :: (map_to_list (watches a)).*1 ->
      closed ≡ₚ map_to_list (filter (found_bad checks) (watches a)) ->
      spec_step a ((closed ≫= prune) ++ reverse ((fun x => OneWaited x.1 x.2) <$> checks) ++
          [ManyWaited MOJO_SYSTEM_RESULT_INVALID_ARGUMENT report])
        (set_watches (filter (fun x => ~ found_bad checks x) (watches a)) a).

(** A history of the abstract watcher, the last event first. Nothing is done once it
    is stopped. *)
Inductive history : spec -> list event -> Prop :=
  | history_start :
      history {| watches := ∅; alarms := ∅; clock := 0; stopped := false |} []
  | history_step a tr evs a' :
      history a tr -> stopped a = false -> spec_step a evs a' -> history a' (evs ++ tr).
End Spec.

(** * The entries as watches *)

Definition watch_of (e : entry) : watch :=
  {| w_signals := e_signals e; w_state := e_state e; w_port := e_port e |}.
Definition pair_of (e : entry) : MojoHandle * watch := (e_handle e, watch_of e).
Definition watches_of (es : list entry) : gmap MojoHandle watch := list_to_map (pair_of <$> es).

Lemma fst_pairs es : (pair_of <$> es).*1 = handles es.
Proof. unfold handles. by rewrite <- list_fmap_compose. Qed.

Lemma watches_of_perm es es' : NoDup (handles es) -> es ≡ₚ es' -> watches_of es = watches_of es'.
Proof.
  intros Hnd Hp. apply list_to_map_proper; [by rewrite fst_pairs|]. by rewrite Hp.
Qed.

Lemma watches_of_list es : NoDup (handles es) -> map_to_list (watches_of es) ≡ₚ pair_of <$> es.
Proof. intros Hnd. apply map_to_list_to_map. by rewrite fst_pairs. Qed.

Lemma watches_of_lookup es i e : NoDup (handles es) -> es !! i = Some e ->
  watches_of es !! e_handle e = Some (watch_of e).
Proof.
  intros Hnd He. apply elem_of_list_to_map_1; [by rewrite fst_pairs|].
  apply list_elem_of_fmap. exists e. split; [done|]. by apply list_elem_of_lookup_2 in He.
Qed.

Lemma watches_of_None es h : h ∉ handles es -> watches_of es !! h = None.
Proof. intros Hh. apply not_elem_of_list_to_map_1. by rewrite fst_pairs. Qed.

Lemma watches_of_cons e es : watches_of (e :: es) = <[e_handle e := watch_of e]> (watches_of es).
Proof. done. Qed.

Lemma watches_of_snoc es e : NoDup (handles (es ++ [e])) ->
  watches_of (es ++ [e]) = <[e_handle e := watch_of e]> (watches_of es).
Proof. intros Hnd. by rewrite (watches_of_perm _ (e :: es)) by (done || by rewrite Permutation_app_comm). Qed.

Lemma watches_of_remove es e K : NoDup (handles es) -> es ≡ₚ e :: K ->
  watches_of K = delete (e_handle e) (watches_of es).
Proof.
  intros Hnd Hp. rewrite (watches_of_perm es (e :: K)) by done. rewrite watches_of_cons, delete_insert_id; [done|].
  apply watches_of_None. unfold handles in *. rewrite Hp in Hnd. by apply NoDup_cons in Hnd as [Hn _].
Qed.

Lemma watches_of_update es i e e' : NoDup (handles es) -> es !! i = Some e -> e_handle e' = e_handle e ->
  watches_of (<[i := e']> es) = <[e_handle e := watch_of e']> (watches_of es).
Proof.
  intros Hnd He Hh. assert (Hi : (i < length es)%nat) by (by apply lookup_lt_Some in He).
  assert (Hsplit : es ≡ₚ e :: take i es ++ drop (S i) es).
  { rewrite <- (take_drop_middle es i e He) at 1. symmetry. apply Permutation_middle. }
  assert (Hnd2 : NoDup (handles (e' :: take i es ++ drop (S i) es))).
  { rewrite handles_cons, Hh, <- handles_cons. by rewrite <- Hsplit. }
  rewrite insert_take_drop by done.
  rewrite <- (watches_of_perm (e' :: take i es ++ drop (S i) es)); [|done|apply Permutation_middle].
  rewrite (watches_of_perm es (e :: take i es ++ drop (S i) es)) by done.
  by rewrite !watches_of_cons, Hh, insert_insert_eq.
Qed.

Lemma filter_pairs (P : MojoHandle * watch -> Prop) `{!forall x, Decision (P x)} (es : list entry) :
  filter P (pair_of <$> es) = pair_of <$> filter (fun e => P (pair_of e)) es.
Proof.
  induction es as [|e es IH]; [done|]. rewrite fmap_cons, !filter_cons, IH.
  by destruct (decide (P (pair_of e))).
Qed.

Lemma NoDup_filter_handles (P : entry -> Prop) `{!forall x, Decision (P x)} (es : list entry) :
  NoDup (handles es) -> NoDup (handles (filter P es)).
Proof. unfold handles. intros Hnd. eapply sublist_NoDup; [exact Hnd|]. by apply fmap_sublist, sublist_filter. Qed.

Lemma watches_of_filter (P : MojoHandle * watch -> Prop) `{!forall x, Decision (P x)} (es : list entry) :
  NoDup (handles es) -> filter P (watches_of es) = watches_of (filter (fun e => P (pair_of e)) es).
Proof.
  intros Hnd. rewrite map_filter_alt. apply list_to_map_proper.
  - rewrite watches_of_list, filter_pairs, fst_pairs by done. by apply NoDup_filter_handles.
  - by rewrite watches_of_list, filter_pairs by done.
Qed.

Lemma watches_of_filter_list (P : MojoHandle * watch -> Prop) `{!forall x, Decision (P x)} (es : list entry) :
  NoDup (handles es) ->
  map_to_list (filter P (watches_of es)) ≡ₚ pair_of <$> filter (fun e => P (pair_of e)) es.
Proof.
  intros Hnd. rewrite watches_of_filter by done. apply watches_of_list. by apply NoDup_filter_handles.
Qed.

(** The wait writes the states of all entries. *)
Definition with_state (e : entry) (st : MojoHandleSignalsState) : entry :=
  {| e_handle := e_handle e; e_signals := e_signals e; e_state := st; e_port := e_port e |}.

Lemma handles_with_state es states : length states = length es ->
  handles (zip_with with_state es states) = handles es.
Proof.
  revert states. induction es as [|e es IH]; intros [|st states]; simpl; try done.
  intros [= Hl]. unfold handles in *. simpl. by rewrite IH.
Qed.

Lemma observe_entries c rest st0 sts : NoDup (handles (c :: rest)) -> length sts = length rest ->
  observe (zip (handles (c :: rest)) (st0 :: sts)) (watches_of rest) = watches_of (zip_with with_state rest sts).
Proof.
  intros Hnd Hl. apply map_eq. intros h. unfold observe. rewrite map_lookup_imap.
  assert (Hnd' : NoDup (handles rest)) by (by apply NoDup_cons in Hnd as [_ ?]).
  destruct (decide (h ∈ handles rest)) as [Hin|Hout].
  2: { rewrite !watches_of_None; [done| |done]. by rewrite handles_with_state. }
  apply list_elem_of_fmap in Hin as (e & -> & He). apply list_elem_of_lookup in He as [i He].
  destruct (lookup_lt_is_Some_2 sts i) as [st Hst]; [rewrite Hl; by apply lookup_lt_Some in He|].
  rewrite (watches_of_lookup rest i e) by done. cbn [mbind option_bind].
  rewrite (elem_of_list_to_map_1 _ (e_handle e) st).
  - change (e_handle e) with (e_handle (with_state e st)). symmetry. apply (watches_of_lookup _ i).
    + by rewrite handles_with_state.
    + by rewrite lookup_zip_with, He; simpl; rewrite Hst.
  - rewrite fst_zip; [done|]. unfold handles. simpl. rewrite length_fmap. lia.
  - apply list_elem_of_lookup. exists (S i). apply lookup_zip_with_Some. exists (e_handle e), st.
    unfold handles. simpl. by rewrite list_lookup_fmap, He.
Qed.

(** * The timers as alarms *)

Definition alarms_of (ts : list HandleWatcherTimer) : gmap Dart_Port Z :=
  list_to_map ((fun t => (timer_port t, timer_deadline t)) <$> ts).

Lemma alarms_of_lookup ts p d : NoDup (timer_port <$> ts) ->
  alarms_of ts !! p = Some d <-> exists t, t ∈ ts /\ timer_port t = p /\ timer_deadline t = d.
Proof.
  intros Hnd. unfold alarms_of. rewrite <- elem_of_list_to_map.
  - rewrite list_elem_of_fmap. naive_solver.
  - by rewrite <- list_fmap_compose.
Qed.

Lemma alarms_of_perm ts ts' : NoDup (timer_port <$> ts) -> ts ≡ₚ ts' -> alarms_of ts = alarms_of ts'.
Proof.
  intros Hnd Hp. apply list_to_map_proper; [by rewrite <- list_fmap_compose|]. by rewrite Hp.
Qed.

Lemma alarms_of_cons t ts : alarms_of (t :: ts) = <[timer_port t := timer_deadline t]> (alarms_of ts).
Proof. done. Qed.

Lemma alarms_of_None ts p : p ∉ (timer_port <$> ts) -> alarms_of ts !! p = None.
Proof. intros Hp. apply not_elem_of_list_to_map_1. by rewrite <- list_fmap_compose. Qed.

(** The first timer of a port is its only one. *)
Lemma erase_port_perm p ts : NoDup (timer_port <$> ts) ->
  p ∉ (timer_port <$> erase_port p ts) /\
  (ts = erase_port p ts \/ exists t, timer_port t = p /\ ts ≡ₚ t :: erase_port p ts).
Proof.
  induction ts as [|t ts IH]; intros Hnd; [split; [set_solver|by left]|].
  apply NoDup_cons in Hnd as [Hn Hnd]. simpl. destruct (Z.eqb_spec (timer_port t) p) as [<-|Hne].
  - split; [done|]. right. by exists t.
  - destruct (IH Hnd) as [Hp Hor]. split.
    + simpl. by rewrite not_elem_of_cons.
    + destruct Hor as [<-|(u & Hu & Hperm)]; [by left|]. right. exists u. split; [done|].
      etransitivity; [by apply perm_skip|apply perm_swap].
Qed.

Lemma erase_port_sublist p ts : erase_port p ts `sublist_of` ts.
Proof.
  induction ts as [|t ts IH]; simpl; [done|]. destruct (timer_port t =? p); [by apply sublist_cons|by apply sublist_skip].
Qed.

Lemma Forall_sublist {A} (P : A -> Prop) (l k : list A) : Forall P l -> k `sublist_of` l -> Forall P k.
Proof. intros Hl Hs. induction Hs; inversion Hl; subst; auto. Qed.

Lemma timers_ok_sublist ts ts' : ts' `sublist_of` ts -> timers_ok ts -> timers_ok ts'.
Proof.
  intros Hs (Hsort & Hnd & Hr). split_and!.
  - clear Hnd Hr. induction Hs as [|t ts' ts Hs IH|t ts' ts Hs IH]; [done| |];
      apply StronglySorted_inv in Hsort as [Hsort Hall]; [|by apply IH].
    constructor; [by apply IH|]. by apply (Forall_sublist _ ts).
  - eapply sublist_NoDup; [exact Hnd|by apply fmap_sublist].
  - by apply (Forall_sublist _ ts).
Qed.

Lemma alarms_of_erase p ts : NoDup (timer_port <$> ts) -> alarms_of (erase_port p ts) = delete p (alarms_of ts).
Proof.
  intros Hnd. destruct (erase_port_perm p ts Hnd) as [Hp [He|(t & <- & Hperm)]].
  - rewrite <- He. rewrite delete_id; [done|]. apply alarms_of_None. by rewrite He.
  - rewrite (alarms_of_perm ts _ Hnd Hperm), alarms_of_cons, delete_insert_id; [done|]. by apply alarms_of_None.
Qed.

(** A timer for a time that no other has is added; another one is lost. *)
Lemma timers_insert_cases t ts : StronglySorted (fun x y => timer_deadline x < timer_deadline y) ts ->
  (exists u, u ∈ ts /\ timer_deadline u = timer_deadline t) /\ timers_insert t ts = ts \/
  Forall (fun u => timer_deadline u <> timer_deadline t) ts /\ timers_insert t ts ≡ₚ t :: ts /\
  StronglySorted (fun x y => timer_deadline x < timer_deadline y) (timers_insert t ts).
Proof.
  induction 1 as [|u ts Hs IH Hall]; [right; split_and!; [done|done|by repeat constructor]|].
  simpl. unfold HandleWatcherTimer_lt. destruct (Z.ltb_spec (timer_deadline t) (timer_deadline u)) as [Hlt|Hge].
  - right. assert (Hl : Forall (fun y => timer_deadline t < timer_deadline y) (u :: ts)).
    { constructor; [done|]. eapply Forall_impl; [exact Hall|]. simpl. lia. }
    split_and!; [|done|by constructor; [constructor|]]. eapply Forall_impl; [exact Hl|]. simpl. lia.
  - destruct (Z.ltb_spec (timer_deadline u) (timer_deadline t)) as [Hlt|Hge2].
    + destruct IH as [[(v & Hv & Heq) ->]|(Hne & Hperm & Hsort)].
      * left. split; [|done]. exists v. split; [by apply list_elem_of_further|done].
      * right. split_and!; [constructor; [lia|done]| |].
        -- etransitivity; [by apply perm_skip|apply perm_swap].
        -- constructor; [done|]. rewrite Hperm. by constructor.
    + left. split; [|done]. exists u. split; [by apply list_elem_of_here|lia].
Qed.

Lemma set_alarm_timers d p ts : timers_ok ts -> 0 <= d <= max_deadline ->
  let ts' := timers_insert {| timer_deadline := d; timer_port := p |} (erase_port p ts) in
  timers_ok ts' /\ alarms_of ts' = set_alarm d p (alarms_of ts).
Proof.
  intros Hok Hd ts'. pose proof (timers_ok_sublist _ _ (erase_port_sublist p ts) Hok) as Hok1.
  destruct Hok as (_ & Hnd & _). destruct (erase_port_perm p ts Hnd) as [Hp _].
  unfold set_alarm. destruct (Z.ltb_spec d 0); [lia|]. rewrite <- alarms_of_erase by done.
  destruct Hok1 as (Hs1 & Hnd1 & Hr1).
  destruct (timers_insert_cases {| timer_deadline := d; timer_port := p |} _ Hs1) as [[(u & Hu & Heq) He]|(Hne & Hperm & Hsort)].
  - unfold ts'. rewrite He. split; [done|]. rewrite bool_decide_true; [done|].
    exists (timer_port u), (timer_deadline u). split; [|done]. apply alarms_of_lookup; [done|]. by exists u.
  - assert (Hnd' : NoDup (timer_port <$> ts')) by (unfold ts'; rewrite Hperm; by constructor).
    split; [split_and!; [done|done|]|].
    + unfold ts'. rewrite Hperm. constructor; [exact Hd|done].
    + rewrite bool_decide_false; [by rewrite (alarms_of_perm ts' _ Hnd' Hperm)|].
      intros (q & d' & Hq & ->). apply alarms_of_lookup in Hq as (t & Ht & _ & Hdt); [|done].
      rewrite Forall_forall in Hne. by apply (Hne t).
Qed.
