(* ===== verification/HandleWatcherRuns.v ===== *)
(** The thread of the handle watcher implements the abstract watcher: each function
    of the loop as steps of the abstract one, under any system and any commands that
    keep to their side. *)
From stdpp Require Import base numbers list option gmap sorting.
From coqutil Require Import Byte Word.LittleEndianList.
From Stdlib Require Import ZArith Lia Permutation.
From S2P Require Import Prelude Result CMem Validate Serialization.
From S2P Require Import HandleWatcher HandleWatcherFacts HandleWatcherSpec.

Section Runs.
Context (ILLEGAL_PORT : Dart_Port) (control : MojoHandle).
Abbreviation signal := (signal ILLEGAL_PORT).
Abbreviation null := (null ILLEGAL_PORT).
Abbreviation world_of := (watcher_world control).
Abbreviation fire := (fire ILLEGAL_PORT).
Abbreviation prune := (prune ILLEGAL_PORT).

(** * Removing many entries *)

Lemma swap_remove_rest i (c : entry) rest e : rest !! i = Some e ->
  swap_remove (S i) (c :: rest) = c :: swap_remove i rest /\ rest ≡ₚ e :: swap_remove i rest.
Proof.
  intros He. split; [|by apply swap_remove_perm].
  rewrite swap_remove_head; [|lia|simpl; apply lookup_lt_Some in He; lia]. by rewrite Nat.sub_succ, Nat.sub_0_r.
Qed.

Lemma NoDup_rest c rest rest' : NoDup (handles (c :: rest)) -> rest ≡ₚ rest' -> NoDup (handles (c :: rest')).
Proof. rewrite !handles_cons. intros Hnd Hp. by rewrite <- Hp. Qed.

Lemma NoDup_drop_entry c rest e rest' :
  NoDup (handles (c :: rest)) -> rest ≡ₚ e :: rest' -> NoDup (handles (c :: rest')).
Proof.
  intros Hnd Hp. apply (NoDup_rest c rest (e :: rest')) in Hnd; [|done]. rewrite !handles_cons in *.
  apply NoDup_cons in Hnd as [Hc Hnd]. apply NoDup_cons in Hnd as [_ Hnd].
  apply NoDup_cons. split; [|done]. intros Hin. apply Hc. by apply list_elem_of_further.
Qed.

Lemma close_prune e : close_events ILLEGAL_PORT true ILLEGAL_PORT e = prune (pair_of e).
Proof. unfold close_events, HandleWatcherFacts.null. by rewrite Z.eqb_refl. Qed.

Lemma close_all_run L : forall c rest K ts sd l tr,
  NoDup (handles (c :: rest)) -> rest ≡ₚ L ++ K ->
  exists K', K' ≡ₚ K /\
    close_all ILLEGAL_PORT (handles L) (world_of (c :: rest) ts sd l tr) =
      Ok (tt, world_of (c :: K') ts sd l ((reverse (pair_of <$> L) ≫= prune) ++ tr)).
Proof.
  induction L as [|e L IH]; intros c rest K ts sd l tr Hnd Hp; [by exists rest|].
  assert (Hin : e ∈ rest) by (rewrite Hp; set_solver).
  apply list_elem_of_lookup in Hin as [i Hi]. destruct (swap_remove_rest i c rest e Hi) as [Hsw Hperm].
  assert (Hp' : swap_remove i rest ≡ₚ L ++ K).
  { apply (Permutation_cons_inv (a := e)). rewrite <- Hperm, Hp. done. }
  destruct (IH c (swap_remove i rest) K ts sd l (prune (pair_of e) ++ tr)) as (K' & HK & Hrun);
    [by apply (NoDup_drop_entry c rest e)|done|].
  exists K'. split; [done|]. rewrite handles_cons. cbn [close_all].
  erewrite run_bind; [|apply (CloseHandle_known _ _ _ _ _ _ _ (S i) e); [done|done|lia|by right]].
  rewrite Hsw, close_prune, Hrun.
  rewrite fmap_cons, reverse_cons, bind_app. simpl. by rewrite app_nil_r, <- app_assoc.
Qed.

Lemma remove_all_run idx : forall L c rest ts sd l tr,
  NoDup (handles (c :: rest)) ->
  Forall2 (fun i e => rest !! i = Some e) idx L -> StronglySorted (fun i j => (j < i)%nat) idx ->
  exists K, rest ≡ₚ L ++ K /\
    remove_all ((fun i => Z.of_nat (S i)) <$> idx) (world_of (c :: rest) ts sd l tr) =
      Ok (tt, world_of (c :: K) ts sd l tr).
Proof.
  induction idx as [|i idx IH]; intros L c rest ts sd l tr Hnd Hat Hs; inversion Hat as [|? e ? L' Hi Hat']; subst.
  { by exists rest. }
  apply StronglySorted_inv in Hs as [Hs Hlt]. destruct (swap_remove_rest i c rest e Hi) as [Hsw Hperm].
  destruct (IH L' c (swap_remove i rest) ts sd l tr) as (K & HK & Hrun).
  - by apply (NoDup_drop_entry c rest e).
  - pose proof (lookup_lt_Some _ _ _ Hi) as Hil. clear -Hat' Hlt Hil. induction Hat' as [|j f idx L Hj _ IH]; [done|].
    apply Forall_cons in Hlt as [Hji Hlt]. constructor; [|by apply IH].
    rewrite swap_remove_lookup by done. by rewrite decide_True, decide_False by lia.
  - done.
  - exists K. split; [by rewrite Hperm, HK|]. simpl.
    erewrite run_bind; [|by apply (RemoveHandleAtIndex_run _ _ _ _ _ _ (S i) e); [| |lia]]. by rewrite Hsw.
Qed.

(** * Notifying *)

Lemma notify_ready_run c rest ts sd l tr : forall k, (k <= length rest)%nat ->
  exists idx L, notify_ready ILLEGAL_PORT (S k) (world_of (c :: rest) ts sd l tr) =
      Ok ((fun i => Z.of_nat (S i)) <$> idx,
          world_of (c :: rest) ts sd l ((reverse (pair_of <$> L) ≫= fire) ++ tr)) /\
    Forall2 (fun i e => rest !! i = Some e) idx L /\ StronglySorted (fun i j => (j < i)%nat) idx /\
    Forall (fun i => (i < k)%nat) idx /\
    L ≡ₚ filter (fun e => is_ready (pair_of e)) (take k rest).
Proof.
  intros k. revert tr. induction k as [|k IH]; intros tr Hk; [by exists [], []; repeat constructor|].
  destruct (lookup_lt_is_Some_2 rest k) as [e He]; [lia|]. rewrite (take_S_r _ _ e He), filter_app.
  change (notify_ready ILLEGAL_PORT (S (S k))) with
    (s ← this; sigs ← vec_get (wait_many_signals_ s) (Z.of_nat (S k));
     state ← vec_get (wait_many_signals_state_ s) (Z.of_nat (S k));
     let satisfied := Z.land (satisfied_signals state) sigs in
     if negb (satisfied =? 0) then
       p ← vec_get (handle_ports_ s) (Z.of_nat (S k));
       PostSignal ILLEGAL_PORT p satisfied;;
       rest ← notify_ready ILLEGAL_PORT (S k); mret (Z.of_nat (S k) :: rest)
     else notify_ready ILLEGAL_PORT (S k)).
  run_step. do 2 run_by ltac:(by apply (vec_get_run _ (c :: rest) (S k) e)).
  change (Z.land (satisfied_signals (e_state e)) (e_signals e)) with (satisfied (watch_of e)).
  rewrite filter_cons. simpl filter at 2. destruct (Z.eqb_spec (satisfied (watch_of e)) 0) as [Hz|Hz]; watcher_simpl.
  - destruct (IH tr) as (idx & L & Hrun & Hat & Hs & Hlt & Hperm); [lia|]. exists idx, L. split_and!; try done.
    + eapply Forall_impl; [exact Hlt|]. simpl. lia.
    + rewrite decide_False by (intros H; by apply H). by rewrite app_nil_r.
  - run_by ltac:(by apply (vec_get_run _ (c :: rest) (S k) e)). run_by ltac:(apply PostSignal_run).
    destruct (IH (signal (e_port e) (satisfied (watch_of e)) ++ tr)) as (idx & L & Hrun & Hat & Hs & Hlt & Hperm); [lia|].
    exists (k :: idx), (e :: L). split_and!.
    + run_by ltac:(exact Hrun). rewrite !fmap_cons, reverse_cons, bind_app. simpl. by rewrite app_nil_r, <- app_assoc.
    + by constructor.
    + by constructor.
    + constructor; [lia|]. eapply Forall_impl; [exact Hlt|]. simpl. lia.
    + rewrite decide_True by done. rewrite Hperm. apply Permutation_cons_append.
Qed.

(** * Looking for closed handles *)

Lemma closed_by_state_run es2 : forall es1 ts sd l tr,
  closed_by_state (handles es2) (Z.of_nat (length es1)) (world_of (es1 ++ es2) ts sd l tr) =
    Ok (handles (filter (fun e => peer_closed (pair_of e)) es2), world_of (es1 ++ es2) ts sd l tr).
Proof.
  induction es2 as [|e es2 IH]; intros es1 ts sd l tr; [done|]. rewrite handles_cons. cbn [closed_by_state].
  run_step. run_by ltac:(apply (vec_get_run _ _ _ e); by rewrite lookup_app_r, Nat.sub_diag by lia).
  specialize (IH (es1 ++ [e]) ts sd l tr). rewrite length_app, <- app_assoc in IH. simpl in IH.
  replace (Z.of_nat (length es1) + 1) with (Z.of_nat (length es1 + 1)) by lia.
  run_by ltac:(exact IH). rewrite filter_cons. unfold peer_closed at 2. cbn [pair_of snd watch_of w_state].
  destruct (Z.eqb_spec (Z.land (satisfied_signals (e_state e)) MOJO_HANDLE_SIGNAL_PEER_CLOSED) 0) as [Hz|Hz]; watcher_simpl.
  - rewrite decide_False by (intros H; by apply H). done.
  - by rewrite decide_True.
Qed.

(** ** What the system may answer *)

Definition command_ok (c : HandleWatcherCommand) : Prop :=
  - 2 ^ 63 <= handle_or_deadline_ c < 2 ^ 63 /\ - 2 ^ 63 <= port_ c < 2 ^ 63 /\ - 2 ^ 63 <= data_ c < 2 ^ 63 /\
  match Command_of (command c) with
  | Some kCommandAddHandle => handle c <> control /\ handle c <> MOJO_HANDLE_INVALID
  | Some kCommandRemoveHandle | Some kCommandCloseHandle => handle c <> control
  | Some kCommandAddTimer => deadline c <= max_deadline
  | Some kCommandShutdownHandleWatcher => True
  | None => False
  end.

(** Times are not negative; the peer of the control pipe is open, and sends commands
    that do not name the control pipe itself. *)
Definition answer_ok (x : answer) : Prop :=
  match x with
  | TimeTicks now => 0 <= now < 2 ^ 63
  | WaitedMany _ (st :: _) => Z.land (satisfied_signals st) MOJO_HANDLE_SIGNAL_PEER_CLOSED = 0
  | WaitedMany _ [] => True
  | Waited h r => h = control -> found_closed r = false
  | MessageRead r bytes num_handles =>
      r = MOJO_RESULT_OK /\ num_handles = 0 /\ exists c, command_ok c /\ bytes = command_bytes c
  end.

(** A run that is known. *)
Lemma wlp_run {S A} (c : M S A) s a s' (Q : A -> S -> Prop) : c s = Ok (a, s') -> Q a s' -> wlp c s Q.
Proof. intros Hc HQ. unfold gwlp. by rewrite Hc. Qed.

Lemma ShouldCloseHandle_run h es ts sd l tr : 0 < h < 2 ^ 32 ->
  wlp (ShouldCloseHandle h) (world_of es ts sd l tr) (fun b w' => exists r l',
    l = Waited h r :: l' /\ w' = world_of es ts sd l' (OneWaited h r :: tr) /\ b = found_closed r).
Proof.
  intros Hh. unfold ShouldCloseHandle, MOJO_HANDLE_INVALID. destruct (Z.eqb_spec h 0); [lia|].
  apply wlp_bind. unfold MojoWait. apply wlp_bind, wlp_get. cbn [answers watcher_world].
  destruct l as [|[| |h' r|] l']; try done. destruct (Z.eqb_spec h' h) as [->|]; [|done].
  eapply wlp_run; [by run_step|]. apply wlp_ret. by exists r, l'.
Qed.

Lemma closed_by_waiting_run hs : forall es ts sd l tr,
  Forall answer_ok l -> Forall (fun h => 0 < h < 2 ^ 32) hs ->
  wlp (closed_by_waiting hs) (world_of es ts sd l tr) (fun closed w' => exists checks l',
    w' = world_of es ts sd l' (reverse ((fun x => OneWaited x.1 x.2) <$> checks) ++ tr) /\
    Forall answer_ok l' /\ checks.*1 = hs /\
    closed = (filter (fun x => found_closed x.2 = true) checks).*1 /\ control ∉ closed).
Proof.
  induction hs as [|h hs IH]; intros es ts sd l tr Hl Hhs; cbn [closed_by_waiting].
  { apply wlp_ret. exists [], l. split_and!; try done; set_solver. }
  apply Forall_cons in Hhs as [Hh Hhs]. apply wlp_bind.
  eapply wlp_mono; [by apply ShouldCloseHandle_run|]. intros b w1 (r & l1 & -> & -> & ->).
  apply Forall_cons in Hl as [Hr Hl]. apply wlp_bind. eapply wlp_mono; [by apply IH|].
  intros closed w2 (checks & l2 & -> & Hl2 & <- & -> & Hc). apply wlp_ret.
  exists ((h, r) :: checks), l2. split_and!; try done.
  - rewrite fmap_cons, reverse_cons. by rewrite <- app_assoc.
  - rewrite filter_cons. simpl. case_decide as Hd; [by rewrite Hd|]. by apply not_true_is_false in Hd as ->.
  - destruct (found_closed r) eqn:Hf; [|done]. apply not_elem_of_cons. split; [|done].
    intros ->. by rewrite Hr in Hf.
Qed.

(** The handles found closed are those of the entries whose check failed. *)
Lemma found_bad_entries checks es : NoDup (handles es) -> checks.*1 = handles es ->
  (filter (fun x => found_closed x.2 = true) checks).*1 =
    handles (filter (fun e => found_bad checks (pair_of e)) es).
Proof.
  intros Hnd Hc.
  assert (Hgen : forall pre post, checks = pre ++ post -> forall es2, post.*1 = handles es2 ->
    (filter (fun x => found_closed x.2 = true) post).*1 = handles (filter (fun e => found_bad checks (pair_of e)) es2)).
  2: { by apply (Hgen []). }
  intros pre post. revert pre. induction post as [|[h r] post IH]; intros pre Hpre [|e es2] He; try done.
  injection He as -> He. rewrite !filter_cons.
  specialize (IH (pre ++ [(e_handle e, r)])). rewrite <- app_assoc in IH. specialize (IH Hpre es2 He).
  assert (Hiff : found_bad checks (pair_of e) <-> found_closed r = true).
  { unfold found_bad. rewrite Exists_exists. simpl. split.
    - intros ([h' r'] & Hin & Hh & Hr). simpl in *. subst h'.
      assert (Hnd' : NoDup checks.*1) by (by rewrite Hc).
      assert (Hin2 : (e_handle e, r) ∈ checks) by (rewrite Hpre; set_solver).
      apply list_elem_of_lookup in Hin as [i Hi], Hin2 as [j Hj].
      assert (i = j); [|congruence]. apply (NoDup_lookup _ _ _ (e_handle e) Hnd'); by rewrite list_lookup_fmap, ?Hi, ?Hj.
    - intros Hr. exists (e_handle e, r). split; [rewrite Hpre; set_solver|done]. }
  destruct (decide (found_bad checks (pair_of e))) as [Hb|Hb].
  - rewrite decide_True by (simpl; by apply Hiff). by rewrite fmap_cons, IH, handles_cons.
  - rewrite decide_False by (simpl; by rewrite <- Hiff). done.
Qed.

(** * The invariant of the entries *)

Lemma entries_ok_rest c rest K L :
  entries_ok ILLEGAL_PORT control (c :: rest) -> rest ≡ₚ L ++ K -> entries_ok ILLEGAL_PORT control (c :: K).
Proof.
  intros [(e & r & [= <- <-] & Hc) Hnd Hr] Hp. split; [by exists c, K| |].
  - apply (NoDup_rest c rest (L ++ K)) in Hnd; [|done]. rewrite handles_cons in *. unfold handles in *.
    rewrite fmap_app in Hnd. apply NoDup_cons in Hnd as [Hn Hnd]. apply NoDup_app in Hnd as (_ & _ & Hnd).
    apply NoDup_cons. split; [|done]. intros Hin. apply Hn. rewrite elem_of_app. by right.
  - apply Forall_cons in Hr as [Hrc Hr]. constructor; [done|]. rewrite Hp in Hr. by apply Forall_app in Hr as [_ Hr].
Qed.

Lemma entries_ok_add c rest h sg p :
  entries_ok ILLEGAL_PORT control (c :: rest) -> h ∉ handles (c :: rest) -> 0 < h < 2 ^ 32 ->
  entries_ok ILLEGAL_PORT control (c :: rest ++ [new_entry h sg p]).
Proof.
  intros [(e & r & [= <- <-] & Hc) Hnd Hr] Hh Hrange. split; [by exists c, (rest ++ [new_entry h sg p])| |].
  - rewrite app_comm_cons. unfold handles in *. rewrite fmap_app. apply NoDup_app. split_and!; [done| |apply NoDup_singleton].
    intros x Hx Hx'. apply list_elem_of_singleton in Hx'. by subst.
  - rewrite app_comm_cons. apply Forall_app. split; [done|]. by constructor.
Qed.

Lemma entries_ok_update c rest i e e' :
  entries_ok ILLEGAL_PORT control (c :: rest) -> rest !! i = Some e -> e_handle e' = e_handle e ->
  entries_ok ILLEGAL_PORT control (c :: <[i := e']> rest).
Proof.
  intros [(x & r & [= <- <-] & Hc) Hnd Hr] He Hh.
  assert (Hsame : handles (<[i := e']> rest) = handles rest).
  { unfold handles. rewrite list_fmap_insert, Hh. apply list_insert_id. by rewrite list_lookup_fmap, He. }
  split; [by exists c, (<[i := e']> rest)|by rewrite handles_cons, Hsame|].
  apply Forall_cons in Hr as [Hrc Hr]. constructor; [done|]. apply Forall_insert; [done|].
  cbn beta. rewrite Hh. exact (Forall_lookup_1 _ _ _ _ Hr He).
Qed.

Lemma entries_ok_states c rest st0 sts :
  entries_ok ILLEGAL_PORT control (c :: rest) -> length sts = length rest ->
  Z.land (satisfied_signals st0) MOJO_HANDLE_SIGNAL_PEER_CLOSED = 0 ->
  entries_ok ILLEGAL_PORT control (with_state c st0 :: zip_with with_state rest sts).
Proof.
  intros [(x & r & [= <- <-] & (Hc1 & Hc2 & Hc3 & Hc4)) Hnd Hr] Hl Hst. split.
  - by exists (with_state c st0), (zip_with with_state rest sts).
  - rewrite handles_cons, handles_with_state by done. exact Hnd.
  - apply Forall_cons in Hr as [Hrc Hr]. constructor; [done|]. clear -Hr Hl. revert sts Hl.
    induction Hr as [|e rest He Hr IH]; intros [|st sts]; simpl; try done; constructor; [done|].
    apply IH. lia.
Qed.

(** Handles are distinct 32-bit numbers: their count does not wrap around. *)
Lemma entries_count es : entries_ok ILLEGAL_PORT control es -> Z.of_nat (length es) < 2 ^ 32.
Proof.
  intros [_ Hnd Hr]. assert (Hsub : handles es ⊆+ seqZ 1 (2 ^ 32 - 1)).
  { apply NoDup_submseteq; [done|]. intros h Hh. apply list_elem_of_fmap in Hh as (e & -> & He).
    rewrite Forall_forall in Hr. specialize (Hr e He). apply elem_of_seqZ. lia. }
  apply submseteq_length in Hsub. rewrite length_handles, length_seqZ in Hsub. lia.
Qed.

(** * The simulation *)

Record simulates (a : spec) (es : list entry) (ts : list HandleWatcherTimer) (l : list answer)
    (tr : list event) : Prop := {
  sim_entries : entries_ok ILLEGAL_PORT control es;
  sim_timers : timers_ok ts;
  sim_answers : Forall answer_ok l;
  sim_watches : watches_of (tail es) = watches a;
  sim_alarms : alarms_of ts = alarms a;
  sim_history : history ILLEGAL_PORT control a tr;
}.

Definition represented (sd : bool) (w : world) : Prop :=
  exists a es ts l tr, w = world_of es ts sd l tr /\ simulates a es ts l tr /\ stopped a = sd.

Lemma represented_eq w w' sd : w = w' -> represented sd w -> represented sd w'.
Proof. by intros ->. Qed.

Lemma represented_step a es ts l tr evs a' es' ts' l' sd :
  simulates a es ts l tr -> stopped a = false -> spec_step ILLEGAL_PORT control a evs a' ->
  entries_ok ILLEGAL_PORT control es' -> timers_ok ts' -> Forall answer_ok l' ->
  watches_of (tail es') = watches a' -> alarms_of ts' = alarms a' -> stopped a' = sd ->
  represented sd (world_of es' ts' sd l' (evs ++ tr)).
Proof.
  intros [] Hs Hstep He Ht Hl Hw Ha Hsd. exists a', es', ts', l', (evs ++ tr). split_and!; [done| |done].
  split; try done. by eapply history_step.
Qed.

Lemma simulates_head a es ts l tr : simulates a es ts l tr ->
  exists c rest, es = c :: rest /\ control_entry ILLEGAL_PORT control c /\ NoDup (handles (c :: rest)) /\
    NoDup (handles rest) /\ watches_of rest = watches a.
Proof.
  intros [[(c & rest & -> & Hc) Hnd _] _ _ Hw _ _]. exists c, rest. split_and!; try done.
  by apply NoDup_cons in Hnd as [_ Hnd].
Qed.

(** A handle that is watched has an entry, another one has none. *)
Lemma watched rest h w : NoDup (handles rest) -> watches_of rest !! h = Some w ->
  exists i e, rest !! i = Some e /\ e_handle e = h /\ w = watch_of e.
Proof.
  intros Hnd Hw. apply elem_of_list_to_map_2 in Hw. apply list_elem_of_fmap in Hw as (e & [= -> ->] & He).
  apply list_elem_of_lookup in He as [i Hi]. by exists i, e.
Qed.

Lemma not_watched c rest h : NoDup (handles rest) -> control_entry ILLEGAL_PORT control c ->
  h <> control -> watches_of rest !! h = None -> h ∉ handles (c :: rest).
Proof.
  intros Hnd (Hc & _) Hne Hw. rewrite handles_cons, not_elem_of_cons. split; [by rewrite Hc|].
  intros Hin. apply list_elem_of_fmap in Hin as (e & -> & He). apply list_elem_of_lookup in He as [i Hi].
  by rewrite (watches_of_lookup rest i e) in Hw.
Qed.

(** * Commands *)

Section Obey.
Context (a : spec) (c0 : entry) (rest : list entry) (ts : list HandleWatcherTimer) (l : list answer) (tr : list event).
Context (Hsim : simulates a (c0 :: rest) ts l tr) (Hgo : stopped a = false).
Context (c : HandleWatcherCommand) (Hok : command_ok c).

Let Hnd : NoDup (handles (c0 :: rest)) := eo_distinct _ _ _ (sim_entries _ _ _ _ _ Hsim).

Lemma NoDup_tail : NoDup (handles rest).
Proof. by apply NoDup_cons in Hnd as [_ ?]. Qed.

Lemma is_control : control_entry ILLEGAL_PORT control c0.
Proof. by destruct (eo_control _ _ _ (sim_entries _ _ _ _ _ Hsim)) as (? & ? & [= <- <-] & ?). Qed.

(** The command is obeyed: the state becomes what the abstract command makes it. *)
Lemma obeyed outs a' es' ts' sd :
  spec_command ILLEGAL_PORT c a = (outs, a') ->
  entries_ok ILLEGAL_PORT control es' -> timers_ok ts' ->
  watches_of (tail es') = watches a' -> alarms_of ts' = alarms a' -> stopped a' = sd ->
  represented sd (world_of es' ts' sd l (outs ++ CommandRead c :: tr)).
Proof.
  intros Hc He Ht Hw Ha Hsd. change (CommandRead c :: tr) with ([CommandRead c] ++ tr). rewrite app_assoc.
  eapply represented_step; try done; [|apply Hsim].
  replace outs with (spec_command ILLEGAL_PORT c a).1 by (by rewrite Hc).
  replace a' with (spec_command ILLEGAL_PORT c a).2 by (by rewrite Hc). constructor.
Qed.

Abbreviation before := (world_of (c0 :: rest) ts false l (CommandRead c :: tr)).

Lemma obey_add : Command_of (command c) = Some kCommandAddHandle ->
  exists w', AddHandle ILLEGAL_PORT (handle c) (signals c) (port c) before = Ok (tt, w') /\ represented false w'.
Proof.
  intros Hc. pose proof NoDup_tail as Hndt. pose proof is_control as Hctl. destruct Hok as (_ & _ & _ & H).
  rewrite Hc in H. destruct H as [Hne Hval]. pose proof (sim_watches _ _ _ _ _ Hsim) as Hw. simpl in Hw.
  destruct (watches a !! handle c) as [w|] eqn:Hwatch.
  - assert (Hwatch' := Hwatch). rewrite <- Hw in Hwatch'. apply watched in Hwatch' as (i & e & Hi & He & ->); [|done].
    eexists. split.
    { rewrite <- He. by apply (AddHandle_old _ _ _ _ _ _ _ (S i) e). }
    destruct (Z.eqb_spec (e_port e) (port c)) as [Hp|Hp].
    + change (CommandRead c :: tr) with ([] ++ CommandRead c :: tr).
      apply (obeyed [] (set_watches (<[handle c := widen (signals c) (watch_of e)]> (watches a)) a)).
      * unfold spec_command. rewrite Hc, Hwatch. simpl. by rewrite (proj2 (Z.eqb_eq _ _) Hp).
      * apply (entries_ok_update c0 rest i e); [apply Hsim|done|done].
      * apply Hsim.
      * simpl. rewrite <- Hw, <- He. by rewrite (watches_of_update rest i e).
      * apply Hsim.
      * exact Hgo.
    + apply (obeyed _ a); try apply Hsim; [|exact Hgo].
      unfold spec_command. rewrite Hc, Hwatch. simpl. by rewrite (proj2 (Z.eqb_neq _ _) Hp).
  - eexists. split.
    { apply AddHandle_new; [done|]. apply not_watched; [done|done|done|by rewrite Hw]. }
    change (CommandRead c :: tr) with ([] ++ CommandRead c :: tr).
    apply (obeyed [] (set_watches (<[handle c := watch_of (new_entry (handle c) (signals c) (port c))]> (watches a)) a)).
    + unfold spec_command. by rewrite Hc, Hwatch.
    + apply entries_ok_add; [apply Hsim| |]; [apply not_watched; [done|done|done|by rewrite Hw]|].
      unfold handle, MOJO_HANDLE_INVALID in *. pose proof (wrap32_range (handle_or_deadline_ c)). lia.
    + apply Hsim.
    + simpl. rewrite <- Hw, watches_of_snoc; [done|]. unfold handles. rewrite fmap_app. apply NoDup_app.
      split_and!; [done| |apply NoDup_singleton]. intros x Hx Hx'. apply list_elem_of_singleton in Hx' as ->.
      apply (not_watched c0 rest (handle c) Hndt Hctl Hne ltac:(by rewrite Hw)).
      rewrite handles_cons. by apply list_elem_of_further.
    + apply Hsim.
    + exact Hgo.
Qed.

Lemma obey_remove : Command_of (command c) = Some kCommandRemoveHandle ->
  exists w', RemoveHandle (handle c) before = Ok (tt, w') /\ represented false w'.
Proof.
  intros Hc. pose proof NoDup_tail as Hndt. pose proof is_control as Hctl. destruct Hok as (_ & _ & _ & Hne).
  rewrite Hc in Hne. pose proof (sim_watches _ _ _ _ _ Hsim) as Hw. simpl in Hw.
  assert (Hcmd : spec_command ILLEGAL_PORT c a = ([], set_watches (delete (handle c) (watches a)) a))
    by (unfold spec_command; by rewrite Hc).
  destruct (watches a !! handle c) as [w|] eqn:Hwatch; rewrite <- Hw in Hwatch.
  - apply watched in Hwatch as (i & e & Hi & He & ->); [|done]. destruct (swap_remove_rest i c0 rest e Hi) as [Hsw Hperm].
    eexists. split; [rewrite <- He; by apply (RemoveHandle_known _ _ _ _ _ _ (S i) e); [| |lia]|].
    rewrite Hsw. apply (obeyed [] _ (c0 :: swap_remove i rest) ts false Hcmd).
    + apply (entries_ok_rest c0 rest _ [e]); [apply Hsim|done].
    + apply Hsim.
    + simpl. rewrite <- Hw, <- He. by apply watches_of_remove.
    + apply Hsim.
    + exact Hgo.
  - eexists. split; [apply RemoveHandle_unknown; [done|by apply not_watched]|].
    apply (obeyed [] _ (c0 :: rest) ts false Hcmd); try apply Hsim; [|exact Hgo].
    simpl. rewrite <- Hw. by rewrite delete_id.
Qed.

Lemma obey_close : Command_of (command c) = Some kCommandCloseHandle ->
  exists w', CloseHandle ILLEGAL_PORT (handle c) (port c) false before = Ok (tt, w') /\ represented false w'.
Proof.
  intros Hc. pose proof NoDup_tail as Hndt. pose proof is_control as Hctl. destruct Hok as (_ & _ & _ & Hne).
  rewrite Hc in Hne. pose proof (sim_watches _ _ _ _ _ Hsim) as Hw. simpl in Hw.
  assert (Hcmd : spec_command ILLEGAL_PORT c a =
    (null (port c) ++ [Closed (handle c)], set_watches (delete (handle c) (watches a)) a))
    by (unfold spec_command; by rewrite Hc).
  assert (Htr : forall w, null (port c) ++ Closed (handle c) :: w = (null (port c) ++ [Closed (handle c)]) ++ w)
    by (intros w; by rewrite <- app_assoc).
  destruct (watches a !! handle c) as [w|] eqn:Hwatch; rewrite <- Hw in Hwatch.
  - apply watched in Hwatch as (i & e & Hi & He & ->); [|done]. destruct (swap_remove_rest i c0 rest e Hi) as [Hsw Hperm].
    eexists. split; [rewrite <- He; by apply (CloseHandle_known _ _ _ _ _ _ _ (S i) e); [| |lia|left]|].
    unfold close_events. rewrite He, Hsw.
    apply (obeyed _ _ (c0 :: swap_remove i rest) ts false Hcmd).
    + apply (entries_ok_rest c0 rest _ [e]); [apply Hsim|done].
    + apply Hsim.
    + simpl. rewrite <- Hw, <- He. by apply watches_of_remove.
    + apply Hsim.
    + exact Hgo.
  - eexists. split; [apply CloseHandle_unknown; [done|by apply not_watched]|].
    rewrite Htr. apply (obeyed _ _ (c0 :: rest) ts false Hcmd); try apply Hsim; [|exact Hgo].
    simpl. rewrite <- Hw. by rewrite delete_id.
Qed.

Lemma obey_timer : Command_of (command c) = Some kCommandAddTimer ->
  exists w', UpdateTimer (deadline c) (port c) before = Ok (tt, w') /\ represented false w'.
Proof.
  intros Hc. destruct Hok as (_ & _ & _ & Hmax). rewrite Hc in Hmax.
  pose proof (sim_timers _ _ _ _ _ Hsim) as Hts. pose proof (sim_alarms _ _ _ _ _ Hsim) as Hal.
  assert (Hcmd : spec_command ILLEGAL_PORT c a = ([], set_alarms (set_alarm (deadline c) (port c) (alarms a)) a))
    by (unfold spec_command; by rewrite Hc).
  unfold UpdateTimer. destruct (Z.ltb_spec (deadline c) 0) as [Hneg|Hpos].
  - eexists. split; [run_step; reflexivity|].
    apply (obeyed [] _ _ _ false Hcmd); try apply Hsim; [| |exact Hgo].
    + by apply (timers_ok_sublist ts); [apply erase_port_sublist|].
    + simpl. unfold set_alarm. rewrite (proj2 (Z.ltb_lt _ _)) by done. rewrite <- Hal.
      apply alarms_of_erase. apply Hts.
  - eexists. split; [run_step; reflexivity|]. destruct (set_alarm_timers (deadline c) (port c) ts Hts) as [Hok' Hal']; [lia|].
    apply (obeyed [] _ _ _ false Hcmd); try apply Hsim; [done| |exact Hgo]. simpl. by rewrite <- Hal.
Qed.

Lemma obey_shutdown : Command_of (command c) = Some kCommandShutdownHandleWatcher ->
  exists w', Shutdown before = Ok (tt, w') /\ represented true w'.
Proof.
  intros Hc. assert (Hcmd : spec_command ILLEGAL_PORT c a = ([], stop a)) by (unfold spec_command; by rewrite Hc).
  eexists. split; [reflexivity|].
  apply (obeyed [] _ (c0 :: rest) ts true Hcmd); try apply Hsim. done.
Qed.
End Obey.

Lemma signed_id w x : 0 < w -> - 2 ^ (w - 1) <= x < 2 ^ (w - 1) -> signed w (x mod 2 ^ w) = x.
Proof.
  intros Hw Hx. unfold signed. rewrite Z.mod_mod by (apply Z.pow_nonzero; lia).
  assert (Hp : 2 ^ w = 2 * 2 ^ (w - 1)) by (rewrite <- Z.pow_succ_r by lia; f_equal; lia).
  assert (0 < 2 ^ (w - 1)) by (apply Z.pow_pos_nonneg; lia).
  destruct (decide (0 <= x)).
  - rewrite Z.mod_small by lia. destruct (Z.ltb_spec x (2 ^ (w - 1))); lia.
  - replace (x mod 2 ^ w) with (x + 2 ^ w).
    + destruct (Z.ltb_spec (x + 2 ^ w) (2 ^ (w - 1))); lia.
    + rewrite <- (Z.mod_small (x + 2 ^ w) (2 ^ w)) by lia.
      rewrite <- (Z.mul_1_l (2 ^ w)) at 1. by rewrite Z.mod_add by lia.
Qed.

(** Commands come out of the pipe as they went in. *)
Lemma bytes_roundtrip c : - 2 ^ 63 <= handle_or_deadline_ c < 2 ^ 63 -> - 2 ^ 63 <= port_ c < 2 ^ 63 ->
  - 2 ^ 63 <= data_ c < 2 ^ 63 -> command_of_bytes (command_bytes c) = c.
Proof.
  destruct c as [d p x]. intros H1 H2 H3. unfold command_of_bytes, command_bytes, to_int64.
  cbn [handle_or_deadline_ port_ data_] in *.
  rewrite take_app_length' by (by rewrite length_le_split).
  rewrite drop_app_length', take_app_length' by (by rewrite length_le_split).
  change 16%nat with (8 + 8)%nat. rewrite <- drop_drop, !drop_app_length' by (by rewrite length_le_split).
  rewrite take_ge by (rewrite length_le_split; lia). rewrite !le_combine_split.
  change (2 ^ (Z.of_nat 8 * 8)) with (2 ^ 64). by rewrite !signed_id by lia.
Qed.

Lemma command_bytes_roundtrip c : command_ok c ->
  command_of_bytes (command_bytes c) = c /\ size_of (command_bytes c) = sizeof_HandleWatcherCommand.
Proof.
  intros (H1 & H2 & H3 & _). split; [by apply bytes_roundtrip|].
  unfold size_of, command_bytes. by rewrite !length_app, !length_le_split.
Qed.

Lemma ProcessControlMessage_runs a es ts l tr : simulates a es ts l tr -> stopped a = false ->
  wlp (ProcessControlMessage ILLEGAL_PORT) (world_of es ts false l tr) (fun _ w' => exists sd, represented sd w').
Proof.
  intros Hsim Hgo. destruct (simulates_head _ _ _ _ _ Hsim) as (c0 & rest & -> & _).
  unfold ProcessControlMessage. apply wlp_bind. unfold MojoReadMessage. apply wlp_bind, wlp_get. cbn [answers watcher_world].
  destruct l as [|[| | |r bytes n] l']; try done. apply wlp_bind, wlp_put, wlp_ret.
  destruct Hsim as [He Ht Hl Hw Ha Hh]. apply Forall_cons in Hl as [(-> & -> & c & Hok & ->) Hl].
  assert (Hsim : simulates a (c0 :: rest) ts l' tr) by (by split).
  destruct (command_bytes_roundtrip c Hok) as [Hrt Hsize].
  assert (Hfin : forall f sd w', f (world_of (c0 :: rest) ts false l' (CommandRead c :: tr)) = Ok (tt, w') ->
    represented sd w' -> wlp f (world_of (c0 :: rest) ts false l' (CommandRead c :: tr)) (fun _ w' => exists sd, represented sd w')).
  { intros f sd w' Hf Hr. eapply wlp_run; [exact Hf|]. by exists sd. }
  rewrite Hsize. do 3 (apply wlp_bind; eapply wlp_run; [reflexivity|]). rewrite Hrt.
  apply wlp_bind. eapply wlp_run; [reflexivity|]. assert (Hcmd := Hok). destruct Hcmd as (_ & _ & _ & Hcmd).
  destruct (Command_of (command c)) as [[]|] eqn:Hc; [| | | | |done].
  - edestruct (obey_add a c0 rest ts l' tr) as (w' & Hrun & Hr); eauto.
  - edestruct (obey_remove a c0 rest ts l' tr) as (w' & Hrun & Hr); eauto.
  - edestruct (obey_close a c0 rest ts l' tr) as (w' & Hrun & Hr); eauto.
  - edestruct (obey_timer a c0 rest ts l' tr) as (w' & Hrun & Hr); eauto.
  - edestruct (obey_shutdown a c0 rest ts l' tr) as (w' & Hrun & Hr); eauto.
Qed.

(** * Timers *)

(** A running thread whose last reading of the clock is [now]. *)
Definition running (now : Z) (w : world) : Prop :=
  exists a es ts l tr, w = world_of es ts false l tr /\ simulates a es ts l tr /\ stopped a = false /\ clock a = now.

Lemma running_represented now w : running now w -> represented false w.
Proof. intros (a & es & ts & l & tr & Hw & Hs & Hgo & _). by exists a, es, ts, l, tr. Qed.

Lemma running_step a es ts l tr evs a' ts' l' now :
  simulates a es ts l tr -> stopped a = false -> spec_step ILLEGAL_PORT control a evs a' ->
  timers_ok ts' -> Forall answer_ok l' -> watches a' = watches a -> alarms_of ts' = alarms a' ->
  stopped a' = false -> clock a' = now ->
  running now (world_of es ts' false l' (evs ++ tr)).
Proof.
  intros [] Hs Hstep Ht Hl Hw Ha Hsd Hc. exists a', es, ts', l', (evs ++ tr). split_and!; [done| |done|done].
  split; try done; [by rewrite Hw|]. by eapply history_step.
Qed.

(** A time read is not negative, and in range as microseconds. *)
Definition millis_ok (t : Z) : Prop := 0 <= t /\ t * 1000 < 2 ^ 63.

Lemma GetDartTimeInMillis_runs w : represented false w ->
  wlp GetDartTimeInMillis w (fun t w' => running t w' /\ millis_ok t /\ self w' = self w).
Proof.
  intros (a & es & ts & l & tr & -> & Hsim & Hgo). unfold GetDartTimeInMillis, MojoGetTimeTicksNow.
  apply wlp_bind, wlp_bind, wlp_get. cbn [answers watcher_world].
  destruct l as [|[now| | |] l']; try done. apply wlp_bind, wlp_put, wlp_ret.
  pose proof (sim_answers _ _ _ _ _ Hsim) as Hl. apply Forall_cons in Hl as [Hnow Hl]. simpl in Hnow.
  apply wlp_bind. eapply wlp_run; [reflexivity|]. apply wlp_ret. split_and!.
  - change (running (Z.quot now 1000) (world_of es ts false l' ([TimeRead (Z.quot now 1000)] ++ tr))).
    eapply running_step; [exact Hsim|done|apply spec_time| | | | | |]; try done; apply Hsim.
  - rewrite Z.quot_div_nonneg by lia. unfold millis_ok. lia.
  - done.
Qed.

Lemma CompleteNextTimer_runs a es t ts l tr : simulates a es (t :: ts) l tr -> stopped a = false ->
  timer_deadline t <= clock a ->
  exists w', CompleteNextTimer ILLEGAL_PORT (world_of es (t :: ts) false l tr) = Ok (tt, w') /\ represented false w'.
Proof.
  intros Hsim Hgo Hdue. pose proof (sim_timers _ _ _ _ _ Hsim) as Hts. pose proof (sim_alarms _ _ _ _ _ Hsim) as Hal.
  assert (Hnd : NoDup (timer_port <$> t :: ts)) by apply Hts.
  eexists. split; [unfold CompleteNextTimer; run_step; run_by ltac:(apply PostNull_run); reflexivity|].
  eapply represented_step; [exact Hsim|done|eapply (spec_alarm _ _ _ (timer_port t) (timer_deadline t))| | | | | |].
  - rewrite <- Hal. apply alarms_of_lookup; [done|]. exists t. split; [by apply list_elem_of_here|done].
  - done.
  - intros p' d'. rewrite <- Hal, alarms_of_lookup by done. intros (u & Hu & _ & <-).
    apply elem_of_cons in Hu as [->|Hu]; [lia|]. destruct Hts as (Hs & _ & _).
    apply StronglySorted_inv in Hs as [_ Hall]. rewrite Forall_forall in Hall. specialize (Hall u Hu). lia.
  - apply Hsim.
  - by apply (timers_ok_sublist (t :: ts)); [apply sublist_cons|].
  - apply Hsim.
  - apply Hsim.
  - simpl. rewrite <- Hal, alarms_of_cons, delete_insert_id; [done|]. apply alarms_of_None.
    by apply NoDup_cons in Hnd as [Hn _].
  - done.
Qed.

Lemma ProcessTimers_runs fuel w : represented false w ->
  wlp (ProcessTimers ILLEGAL_PORT fuel) w (fun _ w' => represented false w').
Proof.
  intros Hw. unfold ProcessTimers. apply wlp_bind. eapply wlp_mono; [by apply GetDartTimeInMillis_runs|].
  intros now w1 (Hrun & _ & _). apply (wlp_while (fun now w => running now w)); [done|]. clear now w1 w Hw Hrun.
  intros now w Hrun. pose proof (running_represented _ _ Hrun) as Hrep.
  destruct Hrun as (a & es & ts & l & tr & -> & Hsim & Hgo & <-).
  apply wlp_bind. unfold HasTimers. eapply wlp_run; [by run_step|].
  destruct ts as [|t ts]; cbn [length]; [by apply wlp_ret|]. rewrite bool_decide_false by done. cbn [negb].
  apply wlp_bind. unfold NextTimerDeadline. eapply wlp_run; [by run_step|]. rewrite Z.geb_leb.
  destruct (Z.leb_spec (timer_deadline t) (clock a)) as [Hdue|]; [|by apply wlp_ret].
  destruct (CompleteNextTimer_runs a es t ts l tr Hsim Hgo Hdue) as (w' & Hc & Hrep').
  apply wlp_bind. eapply wlp_run; [exact Hc|]. apply wlp_bind.
  eapply wlp_mono; [by apply GetDartTimeInMillis_runs|]. intros t' w2 (Hr & _ & _). by apply wlp_ret.
Qed.

(** The distance to the next timer is in range. *)
Lemma WaitDeadline_runs w : represented false w ->
  wlp WaitDeadline w (fun _ w' => represented false w' /\ self w' = self w).
Proof.
  intros Hrep. assert (Hrep' := Hrep). destruct Hrep' as (a & es & ts & l & tr & -> & Hsim & Hgo).
  unfold WaitDeadline. apply wlp_bind. unfold HasTimers. eapply wlp_run; [by run_step|].
  destruct ts as [|t ts]; cbn [length]; [by apply wlp_ret|]. rewrite bool_decide_false by done. cbn [negb].
  apply wlp_bind. eapply wlp_mono; [by apply GetDartTimeInMillis_runs|]. intros now w1 (Hr & Hm & Hts).
  apply wlp_bind. assert (Hnext : NextTimerDeadline w1 = Ok (timer_deadline t, w1)).
  { unfold NextTimerDeadline. rewrite (run_bind _ _ w1 (self w1) w1 eq_refl). by rewrite Hts. }
  eapply wlp_run; [exact Hnext|]. destruct (sim_timers _ _ _ _ _ Hsim) as (_ & _ & Hd).
  apply Forall_cons in Hd as [Hd _]. unfold max_deadline in Hd. destruct Hm as [Hm1 Hm2].
  assert (Hint : forall x, - 2 ^ 63 <= x < 2 ^ 63 -> int64 x w1 = Ok (x, w1)).
  { intros x Hx. unfold int64. rewrite (proj2 (Z.leb_le _ _)), (proj2 (Z.ltb_lt _ _)) by lia. done. }
  apply wlp_bind. eapply wlp_run; [apply Hint; lia|]. apply wlp_bind. eapply wlp_run; [apply Hint; lia|].
  apply wlp_ret. split; [by apply (running_represented now)|done].
Qed.

(** * Waiting *)

Lemma with_state_fmap {B} (f : entry -> B) es states :
  (forall e st, f (with_state e st) = f e) -> length states = length es ->
  f <$> zip_with with_state es states = f <$> es.
Proof.
  intros Hf. revert states. induction es as [|e es IH]; intros [|st states]; try done.
  intros [= Hl]. simpl. by rewrite Hf, IH.
Qed.

Lemma write_states es ts sd l tr states : length states = length es ->
  update (set_signals_state states) (world_of es ts sd l tr) =
    Ok (tt, world_of (zip_with with_state es states) ts sd l tr).
Proof.
  intros Hl. unfold update, modify, watcher_world, set_self, set_signals_state, set_vectors. watcher_simpl.
  rewrite (with_state_fmap e_signals), (with_state_fmap e_port), handles_with_state by done.
  rewrite (index_map_handles (zip_with with_state es states) es) by (by apply handles_with_state).
  assert (Hst : e_state <$> zip_with with_state es states = states); [|by rewrite Hst].
  revert states Hl. induction es as [|e es IH]; intros [|st states]; try done. intros [= Hl]. simpl. by rewrite IH.
Qed.

(** The results for which the states are written. *)
Definition writes (r : MojoResult) : bool :=
  negb ((r =? MOJO_SYSTEM_RESULT_INVALID_ARGUMENT) || (r =? MOJO_SYSTEM_RESULT_RESOURCE_EXHAUSTED)).

Lemma MojoWaitMany_runs es ts l tr n d : n = Z.of_nat (length es) ->
  wlp (MojoWaitMany n d) (world_of es ts false l tr) (fun r w' => exists states l',
    l = WaitedMany r states :: l' /\ (writes r = true -> length states = length es) /\
    w' = world_of (if writes r then zip_with with_state es states else es) ts false l'
           (ManyWaited r (zip (handles es) states) :: tr)).
Proof.
  intros ->. unfold MojoWaitMany. apply wlp_bind, wlp_get. cbn [answers watcher_world].
  destruct l as [|[|r states| |] l']; try done. destruct (_ && _); [done|]. unfold writes.
  apply wlp_bind. eapply wlp_run; [reflexivity|].
  destruct ((r =? MOJO_SYSTEM_RESULT_INVALID_ARGUMENT) || (r =? MOJO_SYSTEM_RESULT_RESOURCE_EXHAUSTED)) eqn:Hb; cbn [negb].
  - apply wlp_bind, wlp_ret. apply wlp_bind. eapply wlp_run; [reflexivity|]. apply wlp_ret.
    exists states, l'. by rewrite Hb.
  - unfold size_of. destruct (Z.eqb_spec (Z.of_nat (length states)) (Z.of_nat (length es))) as [Hl|]; [|done].
    assert (Hlen : length states = length es) by lia.
    apply wlp_bind. eapply wlp_run; [by apply write_states|]. apply wlp_bind. eapply wlp_run; [reflexivity|].
    apply wlp_ret. exists states, l'. by rewrite Hb.
Qed.

(** What is left of the entries, and of the watches, when some are over. *)
Lemma filter_rest (P : MojoHandle * watch -> Prop) `{!forall x, Decision (P x)} rest L K :
  NoDup (handles rest) -> rest ≡ₚ L ++ K -> L ≡ₚ filter (fun e => P (pair_of e)) rest ->
  watches_of K = filter (fun x => ~ P x) (watches_of rest).
Proof.
  intros Hnd Hp HL. rewrite watches_of_filter by done.
  assert (HK : K ≡ₚ filter (fun e => ~ P (pair_of e)) rest).
  { apply (Permutation_app_inv_l L). rewrite <- Hp. rewrite HL. symmetry. apply filter_app_complement. }
  apply watches_of_perm; [|done]. rewrite HK. by apply NoDup_filter_handles.
Qed.

Lemma over_list (P : MojoHandle * watch -> Prop) `{!forall x, Decision (P x)} rest L :
  NoDup (handles rest) -> L ≡ₚ filter (fun e => P (pair_of e)) rest ->
  reverse (pair_of <$> L) ≡ₚ map_to_list (filter P (watches_of rest)).
Proof. intros Hnd HL. rewrite reverse_Permutation, HL. symmetry. by apply watches_of_filter_list. Qed.

(** The control handle is not pruned. *)
Lemma control_not_pruned c0 rest :
  control_entry ILLEGAL_PORT control c0 ->
  filter (fun e => peer_closed (pair_of e)) (c0 :: rest) = filter (fun e => peer_closed (pair_of e)) rest.
Proof. intros (_ & _ & _ & Hc). rewrite filter_cons, decide_False; [done|]. intros H. by apply H. Qed.

Lemma prune_by_state c0 rest ts l tr : control_entry ILLEGAL_PORT control c0 -> NoDup (handles (c0 :: rest)) ->
  exists L K, rest ≡ₚ L ++ K /\ L ≡ₚ filter (fun e => peer_closed (pair_of e)) rest /\
    PruneClosedHandles ILLEGAL_PORT true (world_of (c0 :: rest) ts false l tr) =
      Ok (tt, world_of (c0 :: K) ts false l ((reverse (pair_of <$> L) ≫= prune) ++ tr)).
Proof.
  intros Hc Hnd. set (L := filter (fun e => peer_closed (pair_of e)) rest).
  destruct (close_all_run L c0 rest (filter (fun e => ~ peer_closed (pair_of e)) rest) ts false l tr Hnd) as (K & HK & Hrun).
  { symmetry. apply filter_app_complement. }
  exists L, K. split_and!; [by rewrite HK; symmetry; apply filter_app_complement|done|].
  unfold PruneClosedHandles. run_step. run_by ltac:(apply (closed_by_state_run (c0 :: rest) [] ts false l tr)).
  by rewrite control_not_pruned.
Qed.

Lemma prune_by_waiting c0 rest ts l tr :
  entries_ok ILLEGAL_PORT control (c0 :: rest) -> Forall answer_ok l ->
  wlp (PruneClosedHandles ILLEGAL_PORT false) (world_of (c0 :: rest) ts false l tr) (fun _ w' =>
    exists checks L K l', rest ≡ₚ L ++ K /\ L ≡ₚ filter (fun e => found_bad checks (pair_of e)) rest /\
      checks.*1 = handles (c0 :: rest) /\ Forall answer_ok l' /\
      w' = world_of (c0 :: K) ts false l'
             ((reverse (pair_of <$> L) ≫= prune) ++ reverse ((fun x => OneWaited x.1 x.2) <$> checks) ++ tr)).
Proof.
  intros He Hl. pose proof (eo_distinct _ _ _ He) as Hnd. pose proof (eo_range _ _ _ He) as Hr.
  destruct (eo_control _ _ _ He) as (? & ? & [= <- <-] & Hc).
  unfold PruneClosedHandles. apply wlp_bind. eapply wlp_run; [reflexivity|]. apply wlp_bind.
  eapply wlp_mono; [apply closed_by_waiting_run; [done|]|].
  { watcher_simpl. apply Forall_forall. intros h Hh. apply list_elem_of_fmap in Hh as (e & -> & He').
    rewrite Forall_forall in Hr. by apply Hr. }
  intros closed w1 (checks & l' & -> & Hl' & Hck & -> & Hctl). watcher_simpl. cbn [self wait_many_handles_ watcher_world] in Hck.
  rewrite (found_bad_entries checks (c0 :: rest)) in * by done.
  assert (Hf : filter (fun e => found_bad checks (pair_of e)) (c0 :: rest) = filter (fun e => found_bad checks (pair_of e)) rest).
  { rewrite filter_cons. rewrite decide_False; [done|]. intros Hb. apply Hctl. destruct Hc as [<- _].
    apply list_elem_of_fmap. exists c0. split; [done|]. apply list_elem_of_filter. split; [done|]. apply list_elem_of_here. }
  rewrite Hf. set (L := filter (fun e => found_bad checks (pair_of e)) rest).
  destruct (close_all_run L c0 rest (filter (fun e => ~ found_bad checks (pair_of e)) rest) ts false l'
    (reverse ((fun x => OneWaited x.1 x.2) <$> checks) ++ tr) Hnd) as (K & HK & Hrun).
  { symmetry. apply filter_app_complement. }
  eapply wlp_run; [exact Hrun|]. exists checks, L, K, l'. split_and!; try done.
  rewrite HK. symmetry. apply filter_app_complement.
Qed.

(** * The results of a wait *)

Lemma length_cons {A} (l : list A) n : length l = S n -> exists x xs, l = x :: xs /\ length xs = n.
Proof. destruct l as [|x xs]; [done|]. intros [= Hl]. by exists x, xs. Qed.

Section Waited.
Context (a : spec) (c0 : entry) (rest : list entry) (ts : list HandleWatcherTimer) (tr : list event).
Context (r : MojoResult) (states : list MojoHandleSignalsState) (l : list answer).
Context (Hsim : simulates a (c0 :: rest) ts (WaitedMany r states :: l) tr) (Hgo : stopped a = false).
Abbreviation report := (zip (handles (c0 :: rest)) states).

Lemma waited_facts : control_entry ILLEGAL_PORT control c0 /\ NoDup (handles (c0 :: rest)) /\ NoDup (handles rest) /\
  watches_of rest = watches a /\ Forall answer_ok l.
Proof.
  destruct (simulates_head _ _ _ _ _ Hsim) as (? & ? & [= <- <-] & Hc & Hnd & Hnd' & Hw). split_and!; try done.
  pose proof (sim_answers _ _ _ _ _ Hsim) as Hl. by apply Forall_cons in Hl as [_ Hl].
Qed.

(** The entries after the states are written, against the abstract watches. *)
Lemma written : length states = length (c0 :: rest) -> exists c1 rest1,
  zip_with with_state (c0 :: rest) states = c1 :: rest1 /\
  entries_ok ILLEGAL_PORT control (c1 :: rest1) /\ watches_of rest1 = observe report (watches a) /\
  length rest1 = length rest.
Proof.
  intros Hlen. destruct waited_facts as (Hc & Hnd & Hnd' & Hw & _).
  destruct (length_cons states (length rest) Hlen) as (st0 & sts & Hst & Hl).
  pose proof (sim_answers _ _ _ _ _ Hsim) as Hans. apply Forall_cons in Hans as [Hans _]. rewrite Hst in Hans |- *.
  exists (with_state c0 st0), (zip_with with_state rest sts). split_and!; [done| | |].
  - by apply entries_ok_states; [apply Hsim| |].
  - rewrite <- Hw. symmetry. by apply observe_entries.
  - rewrite length_zip_with. lia.
Qed.

Lemma after_timeout : r = MOJO_SYSTEM_RESULT_DEADLINE_EXCEEDED -> length states = length (c0 :: rest) ->
  represented false (world_of (zip_with with_state (c0 :: rest) states) ts false l (ManyWaited r report :: tr)).
Proof.
  intros Hr Hlen. rewrite Hr. destruct (written Hlen) as (c1 & rest1 & -> & He & Hw & _).
  destruct waited_facts as (_ & _ & _ & _ & Hl).
  apply (represented_step a (c0 :: rest) ts _ tr [_] _ _ _ _ _ Hsim Hgo (spec_timeout _ _ a _)); try done; apply Hsim.
Qed.

Lemma after_prune c1 rest1 :
  r <> MOJO_RESULT_OK -> r <> MOJO_SYSTEM_RESULT_DEADLINE_EXCEEDED -> r <> MOJO_SYSTEM_RESULT_INVALID_ARGUMENT ->
  entries_ok ILLEGAL_PORT control (c1 :: rest1) ->
  watches_of rest1 = (if r =? MOJO_SYSTEM_RESULT_RESOURCE_EXHAUSTED then watches a else observe report (watches a)) ->
  exists w', PruneClosedHandles ILLEGAL_PORT true (world_of (c1 :: rest1) ts false l (ManyWaited r report :: tr)) = Ok (tt, w') /\
    represented false w'.
Proof.
  intros H1 H2 H3 He Hw. destruct waited_facts as (_ & _ & _ & _ & Hl).
  destruct (eo_control _ _ _ He) as (? & ? & [= <- <-] & Hc). pose proof (eo_distinct _ _ _ He) as Hnd.
  assert (Hnd' : NoDup (handles rest1)) by (by apply NoDup_cons in Hnd as [_ ?]).
  destruct (prune_by_state c1 rest1 ts l (ManyWaited r report :: tr) Hc Hnd) as (L & K & Hp & HL & Hrun).
  eexists. split; [exact Hrun|]. change (ManyWaited r report :: tr) with ([ManyWaited r report] ++ tr).
  rewrite app_assoc. eapply represented_step; [exact Hsim|done|apply (spec_prune _ _ a r report (reverse (pair_of <$> L)))| | | | | |];
    try done; try apply Hsim.
  - rewrite <- Hw. by apply over_list.
  - by apply (entries_ok_rest c1 rest1 K L).
  - cbn [watches set_watches tail]. rewrite <- Hw. by apply (filter_rest _ rest1 L K).
Qed.

Lemma after_search : r = MOJO_SYSTEM_RESULT_INVALID_ARGUMENT ->
  wlp (PruneClosedHandles ILLEGAL_PORT false) (world_of (c0 :: rest) ts false l (ManyWaited r report :: tr))
    (fun _ w' => represented false w').
Proof.
  intros Hr. rewrite Hr. destruct waited_facts as (Hc & Hnd & Hnd' & Hw & Hl). pose proof (sim_entries _ _ _ _ _ Hsim) as He.
  eapply wlp_mono; [by apply prune_by_waiting|]. intros _ w' (checks & L & K & l' & Hp & HL & Hck & Hl' & ->).
  set (ones := reverse ((fun x => OneWaited x.1 x.2) <$> checks)).
  set (mw := ManyWaited MOJO_SYSTEM_RESULT_INVALID_ARGUMENT report).
  replace ((reverse (pair_of <$> L) ≫= prune) ++ ones ++ mw :: tr)
    with (((reverse (pair_of <$> L) ≫= prune) ++ ones ++ [mw]) ++ tr) by (by rewrite <- !app_assoc).
  eapply represented_step; [exact Hsim|done|apply (spec_search _ _ a report checks (reverse (pair_of <$> L)))| | | | | |];
    try done; try apply Hsim.
  - rewrite Hck, handles_cons. destruct Hc as [-> _]. apply perm_skip. rewrite <- Hw, watches_of_list by done.
    by rewrite fst_pairs.
  - rewrite <- Hw. by apply over_list.
  - by apply (entries_ok_rest c0 rest K L).
  - cbn [watches set_watches tail]. rewrite <- Hw. by apply (filter_rest _ rest L K).
Qed.

Lemma after_ready : r = MOJO_RESULT_OK -> length states = length (c0 :: rest) ->
  wlp (ProcessWaitManyResults ILLEGAL_PORT r)
    (world_of (zip_with with_state (c0 :: rest) states) ts false l (ManyWaited r report :: tr))
    (fun _ w' => exists sd, represented sd w').
Proof.
  intros Hr Hlen. destruct (written Hlen) as (c1 & rest1 & Hz & He & Hw & Hl1). rewrite Hz.
  destruct waited_facts as (_ & _ & _ & _ & Hl). pose proof (eo_distinct _ _ _ He) as Hnd.
  assert (Hnd' : NoDup (handles rest1)) by (by apply NoDup_cons in Hnd as [_ ?]).
  destruct (notify_ready_run c1 rest1 ts false l (ManyWaited r report :: tr) (length rest1)) as
    (idx & L & Hrun & Hat & Hs & _ & HL); [done|]. rewrite firstn_all in HL.
  destruct (remove_all_run idx L c1 rest1 ts false l ((reverse (pair_of <$> L) ≫= fire) ++ ManyWaited r report :: tr)
    Hnd Hat Hs) as (K & HK & Hrem).
  unfold ProcessWaitManyResults. rewrite Hr in Hrun, Hrem |- *. apply wlp_bind.
  eapply wlp_run; [reflexivity|]. watcher_simpl. apply wlp_bind. eapply wlp_run; [reflexivity|]. watcher_simpl. rewrite length_handles.
  apply wlp_bind. eapply wlp_run; [exact Hrun|]. apply wlp_bind. eapply wlp_run; [exact Hrem|].
  apply wlp_bind. eapply wlp_run; [reflexivity|].
  apply wlp_bind. eapply wlp_run; [by apply (vec_get_run e_signals (c1 :: K) 0 c1)|].
  apply wlp_bind. eapply wlp_run; [by apply (vec_get_run e_state (c1 :: K) 0 c1)|].
  set (a1 := set_watches (filter (fun x => ~ is_ready x) (observe report (watches a))) a).
  assert (Hsim1 : simulates a1 (c1 :: K) ts l ((reverse (pair_of <$> L) ≫= fire) ++ ManyWaited MOJO_RESULT_OK report :: tr)).
  { split; try done; try apply Hsim; [by apply (entries_ok_rest c1 rest1 K L)| |].
    - cbn [tail a1 watches set_watches]. rewrite <- Hw. by apply (filter_rest _ rest1 L K).
    - change (ManyWaited MOJO_RESULT_OK report :: tr) with ([ManyWaited MOJO_RESULT_OK report] ++ tr). rewrite app_assoc.
      eapply history_step; [apply Hsim|done|]. apply spec_ready. rewrite <- Hw. by apply over_list. }
  destruct (negb _); [by eapply ProcessControlMessage_runs|]. apply wlp_ret.
  exists false. eexists a1, (c1 :: K), ts, l, _. done.
Qed.

(** Whatever the wait's result, the thread goes on as the abstract watcher does. *)
Lemma after_wait : (writes r = true -> length states = length (c0 :: rest)) ->
  wlp (if r =? MOJO_SYSTEM_RESULT_DEADLINE_EXCEEDED then mret tt else ProcessWaitManyResults ILLEGAL_PORT r)
    (world_of (if writes r then zip_with with_state (c0 :: rest) states else c0 :: rest) ts false l
      (ManyWaited r report :: tr))
    (fun _ w' => exists sd, represented sd w').
Proof.
  intros Hlen. destruct (Z.eqb_spec r MOJO_SYSTEM_RESULT_DEADLINE_EXCEEDED) as [Hd|Hd].
  { assert (Hwr : writes r = true) by (by rewrite Hd). rewrite Hwr. apply wlp_ret. exists false.
    by apply after_timeout; [|apply Hlen]. }
  destruct (decide (r = MOJO_RESULT_OK)) as [Hok|Hok].
  { assert (Hwr : writes r = true) by (by rewrite Hok). rewrite Hwr. by apply after_ready; [|apply Hlen]. }
  unfold ProcessWaitManyResults. rewrite (proj2 (Z.eqb_neq _ _) Hd), (proj2 (Z.eqb_neq _ _) Hok). cbn [negb].
  apply wlp_bind. eapply wlp_run; [reflexivity|].
  destruct (Z.eqb_spec r MOJO_SYSTEM_RESULT_INVALID_ARGUMENT) as [Hi|Hi]; cbn [negb].
  { assert (Hwr : writes r = false) by (by rewrite Hi). rewrite Hwr.
    eapply wlp_mono; [by apply after_search|]. intros ? w' Hw'. by exists false. }
  assert (Hpr : forall c1 rest1, entries_ok ILLEGAL_PORT control (c1 :: rest1) ->
    watches_of rest1 = (if r =? MOJO_SYSTEM_RESULT_RESOURCE_EXHAUSTED then watches a else observe report (watches a)) ->
    wlp (PruneClosedHandles ILLEGAL_PORT true) (world_of (c1 :: rest1) ts false l (ManyWaited r report :: tr))
      (fun _ w' => exists sd, represented sd w')).
  { intros c1 rest1 He Hw. destruct (after_prune c1 rest1 Hok Hd Hi He Hw) as (w' & Hrun & Hrep).
    eapply wlp_run; [exact Hrun|]. by exists false. }
  unfold writes in *. rewrite (proj2 (Z.eqb_neq _ _) Hi) in Hlen |- *. cbn [orb] in Hlen |- *.
  destruct (r =? MOJO_SYSTEM_RESULT_RESOURCE_EXHAUSTED) eqn:Hre; cbn [negb] in Hlen |- *.
  - apply Hpr; [apply Hsim|]. apply waited_facts.
  - destruct (written (Hlen eq_refl)) as (c1 & rest1 & -> & He & Hw & _). by apply Hpr.
Qed.
End Waited.

(** * The loop *)

Lemma run_once_runs fuel w : represented false w ->
  wlp (run_once ILLEGAL_PORT fuel) w (fun _ w' => exists sd, represented sd w').
Proof.
  intros Hw. unfold run_once. apply wlp_bind. eapply wlp_mono; [by apply ProcessTimers_runs|].
  clear w Hw. intros _ w (a & es & ts & l & tr & -> & Hsim & Hgo).
  pose proof (entries_count es (sim_entries _ _ _ _ _ Hsim)) as Hcount.
  apply wlp_bind. eapply wlp_run; [reflexivity|]. watcher_simpl.
  assert (Hn : wrap32 (size_of (handles es)) = Z.of_nat (length es)).
  { unfold size_of. rewrite length_handles. apply wrap32_small. lia. }
  assert (Hsz : (size_of (e_signals <$> es) =? wrap32 (size_of (handles es))) = true).
  { rewrite Hn. unfold size_of. rewrite length_fmap. apply Z.eqb_refl. }
  rewrite Hsz, Hn. apply wlp_bind. eapply wlp_run; [reflexivity|]. apply wlp_bind.
  eapply wlp_mono; [by apply WaitDeadline_runs; exists a, es, ts, l, tr|].
  intros d w ((a2 & es' & ts2 & l2 & tr2 & -> & Hsim2 & Hgo2) & Hself).
  assert (Hes : length es = length es').
  { apply (f_equal wait_many_handles_) in Hself. simpl in Hself. by rewrite <- !length_handles, Hself. }
  apply wlp_bind. eapply wlp_mono; [by apply MojoWaitMany_runs; rewrite Hes|].
  intros r w (states & l' & -> & Hlen & ->). destruct (simulates_head _ _ _ _ _ Hsim2) as (c0 & rest & -> & _).
  by apply (after_wait a2).
Qed.

(** The loop ends only after it was told to stop. *)
Lemma Run_runs fuel w : represented false w ->
  wlp (Run ILLEGAL_PORT fuel) w (fun _ w' => exists w1, represented true w1 /\
    self w' = self w1 /\ trace w' = Closed control :: trace w1).
Proof.
  intros Hw. unfold Run. apply wlp_bind.
  eapply wlp_mono; [apply (wlp_while (fun _ w => exists sd, represented sd w) _ _ _ _ (fun _ w => represented true w));
    [by exists false|]|].
  - clear w Hw. intros _ w [sd Hrep]. apply wlp_bind. eapply wlp_run; [reflexivity|].
    assert (Hsd : shutdown_ (self w) = sd) by (by destruct Hrep as (? & ? & ? & ? & ? & -> & _ & _)).
    rewrite Hsd. destruct sd; [by apply wlp_ret|]. apply wlp_bind.
    eapply wlp_mono; [by apply run_once_runs|]. intros ? w' Hw'. by apply wlp_ret.
  - intros ? w1 Hrep. apply wlp_bind. eapply wlp_run; [reflexivity|]. eapply wlp_run; [reflexivity|].
    exists w1. split; [done|]. destruct Hrep as (? & ? & ? & ? & ? & -> & _ & _). done.
Qed.

(** The thread just made represents the abstract watcher at its start. *)
Lemma constructor_runs l : 0 < control < 2 ^ 32 -> Forall answer_ok l ->
  exists w, HandleWatcherThreadState_constructor ILLEGAL_PORT control (new_world l) = Ok (tt, w) /\ represented false w.
Proof.
  intros Hc Hl. set (c0 := new_entry control MOJO_HANDLE_SIGNAL_READABLE ILLEGAL_PORT).
  exists (world_of [c0] [] false l []). split.
  - unfold HandleWatcherThreadState_constructor. erewrite run_bind; [|reflexivity].
    destruct (Z.eqb_spec control MOJO_HANDLE_INVALID) as [Heq|_]; [unfold MOJO_HANDLE_INVALID in Heq; lia|]. erewrite run_bind; [|reflexivity].
    apply (AddHandle_new ILLEGAL_PORT control [] [] false l []); [constructor|set_solver].
  - exists {| watches := ∅; alarms := ∅; clock := 0; stopped := false |}, [c0], [], l, [].
    split_and!; [done| |done]. split; try done.
    + split; [by exists c0, []|apply NoDup_singleton|by constructor].
    + repeat constructor.
    + constructor.
Qed.

End Runs.
