(* ===== verification/HandleWatcherTheorems.v ===== *)
(** What is proved of the handle watcher, and runs of it, among them some that show
    what is wrong with it. *)
From stdpp Require Import base numbers list option gmap sorting.
From coqutil Require Import Byte Word.LittleEndianList.
From Stdlib Require Import ZArith Lia Permutation.
From S2P Require Import Prelude Result CMem Validate Serialization.
From S2P Require Import HandleWatcher HandleWatcherFacts HandleWatcherSpec HandleWatcherRuns.

(** * The vectors and the index are in step *)

Record in_step (s : HandleWatcherThreadState) : Prop := {
  is_signals : length (wait_many_signals_ s) = length (wait_many_handles_ s);
  is_states : length (wait_many_signals_state_ s) = length (wait_many_handles_ s);
  is_ports : length (handle_ports_ s) = length (wait_many_handles_ s);
  is_distinct : NoDup (wait_many_handles_ s);
  is_index : forall h i, handle_to_index_map_ s !! h = Some i <->
    0 <= i /\ wait_many_handles_ s !! Z.to_nat i = Some h;
}.

Fixpoint entries_of (hs : list MojoHandle) (sigs : list MojoHandleSignals)
    (states : list MojoHandleSignalsState) (ports : list Dart_Port) : list entry :=
  match hs, sigs, states, ports with
  | h :: hs, sg :: sigs, st :: states, p :: ports =>
      {| e_handle := h; e_signals := sg; e_state := st; e_port := p |} :: entries_of hs sigs states ports
  | _, _, _, _ => []
  end.

Lemma entries_of_fields hs : forall sigs states ports,
  length sigs = length hs -> length states = length hs -> length ports = length hs ->
  handles (entries_of hs sigs states ports) = hs /\ e_signals <$> entries_of hs sigs states ports = sigs /\
  e_state <$> entries_of hs sigs states ports = states /\ e_port <$> entries_of hs sigs states ports = ports.
Proof.
  induction hs as [|h hs IH]; intros [|sg sigs] [|st states] [|p ports]; try done.
  intros [= H1] [= H2] [= H3]. destruct (IH sigs states ports H1 H2 H3) as (E1 & E2 & E3 & E4).
  cbn [entries_of]. rewrite handles_cons, !fmap_cons. cbn [e_handle e_signals e_state e_port]. by rewrite E1, E2, E3, E4.
Qed.

Lemma in_step_world w : in_step (self w) -> exists es,
  NoDup (handles es) /\
  w = watcher_world (control_pipe_consumer_handle_ (self w)) es (timers_ (self w)) (shutdown_ (self w)) (answers w) (trace w).
Proof.
  destruct w as [[sd c hs sigs states ports m ts] l tr]. intros [H1 H2 H3 Hnd Hm]. simpl in *.
  destruct (entries_of_fields hs sigs states ports H1 H2 H3) as (E1 & E2 & E3 & E4).
  exists (entries_of hs sigs states ports). split; [by rewrite E1|]. unfold watcher_world. rewrite E2, E3, E4, E1.
  rewrite (index_map_unique (entries_of hs sigs states ports) m); rewrite ?E1; done.
Qed.

Lemma world_in_step control es ts sd l tr : NoDup (handles es) -> in_step (self (watcher_world control es ts sd l tr)).
Proof.
  intros Hnd. split; simpl; rewrite ?length_fmap, ?length_handles; try done.
  intros h i. by apply index_map_lookup.
Qed.

Lemma handles_after_removal es i e : NoDup (handles es) -> es !! i = Some e ->
  NoDup (handles (swap_remove i es)) /\ e_handle e ∉ handles (swap_remove i es).
Proof.
  intros Hnd He. pose proof (swap_remove_perm i es e He) as Hp. rewrite Hp, handles_cons in Hnd.
  by apply NoDup_cons in Hnd as [? ?].
Qed.

Lemma NoDup_snoc_entry es h sg p : NoDup (handles es) -> h ∉ handles es -> NoDup (handles (es ++ [new_entry h sg p])).
Proof.
  intros Hnd Hh. rewrite (Permutation_app_comm es). cbn [app]. rewrite handles_cons. by apply NoDup_cons.
Qed.

Lemma NoDup_widen es i e sg : NoDup (handles es) -> es !! i = Some e -> NoDup (handles (<[i := add_signals sg e]> es)).
Proof.
  intros Hnd He. unfold handles in *. rewrite list_fmap_insert. rewrite list_insert_id; [done|].
  by rewrite list_lookup_fmap, He.
Qed.

(** Adding, removing and closing handles keeps the four vectors of the watcher at
    one length, their handles distinct, and the index the exact inverse of the vector
    of handles; in such a state these functions return, with no check failed and no
    access out of range, but for a removal of the control handle. *)
Theorem handle_operations_keep_index ILLEGAL_PORT w h (Hin : in_step (self w)) :
  (forall sg p, exists w', AddHandle ILLEGAL_PORT h sg p w = Ok (tt, w') /\ in_step (self w')) /\
  (handle_to_index_map_ (self w) !! h <> Some CONTROL_HANDLE_INDEX ->
   (exists w', RemoveHandle h w = Ok (tt, w') /\ in_step (self w') /\ h ∉ wait_many_handles_ (self w')) /\
   forall p, exists w', CloseHandle ILLEGAL_PORT h p false w = Ok (tt, w') /\ in_step (self w') /\
     h ∉ wait_many_handles_ (self w')).
Proof.
  destruct (in_step_world w Hin) as (es & Hnd & Hw). set (c := control_pipe_consumer_handle_ (self w)) in Hw.
  set (ts := timers_ (self w)) in Hw. set (sd := shutdown_ (self w)) in Hw. rewrite Hw.
  destruct (decide (h ∈ handles es)) as [Hh|Hh].
  - apply list_elem_of_fmap in Hh as (e & -> & He). apply list_elem_of_lookup in He as [i He].
    destruct (handles_after_removal es i e Hnd He) as [Hnd' Hgone]. split.
    + intros sg p. eexists. split; [by apply AddHandle_old|].
      destruct (e_port e =? p); apply world_in_step; [by apply NoDup_widen|done].
    + cbn [self watcher_world handle_to_index_map_]. rewrite (index_of es i e) by done. intros Hi.
      assert (0 < i)%nat by (destruct i; [by destruct Hi|lia]). split.
      * eexists. split; [by apply RemoveHandle_known|]. split; [by apply world_in_step|done].
      * intros p. eexists. split; [by apply CloseHandle_known; [| | |left]|]. split; [by apply world_in_step|done].
  - split.
    + intros sg p. eexists. split; [by apply AddHandle_new|]. by apply world_in_step, NoDup_snoc_entry.
    + intros _. split.
      * eexists. split; [by apply RemoveHandle_unknown|]. split; [by apply world_in_step|done].
      * intros p. eexists. split; [by apply CloseHandle_unknown|]. split; [by apply world_in_step|done].
Qed.

(** * The thread implements the abstract watcher *)

Lemma ThreadMain_history ILLEGAL_PORT control fuel l :
  0 < control < 2 ^ 32 -> Forall (answer_ok control) l ->
  wlp (ThreadMain ILLEGAL_PORT fuel control) (new_world l) (fun _ w' =>
    exists a tr, history ILLEGAL_PORT control a tr /\ stopped a = true /\
      trace w' = Closed control :: Closed control :: tr).
Proof.
  intros Hc Hl. destruct (constructor_runs ILLEGAL_PORT control l Hc Hl) as (w & Hrun & Hrep).
  unfold ThreadMain. apply wlp_bind. eapply wlp_run; [exact Hrun|]. apply wlp_bind.
  eapply wlp_mono; [by apply Run_runs|]. intros ? w2 (w1 & (a & es & ts & l1 & tr & -> & Hsim & Hstop) & Hself & Htr).
  unfold HandleWatcherThreadState_destructor. apply wlp_bind. eapply wlp_run; [reflexivity|]. rewrite Hself.
  cbn [self watcher_world control_pipe_consumer_handle_].
  destruct (Z.eqb_spec control MOJO_HANDLE_INVALID) as [Heq|_]; [unfold MOJO_HANDLE_INVALID in Heq; lia|]. cbn [negb].
  apply wlp_bind. eapply wlp_run; [reflexivity|]. eapply wlp_run; [reflexivity|].
  exists a, tr. split_and!; [apply Hsim|done|]. cbn [trace set_self]. by rewrite Htr.
Qed.

(** C13: the handle watcher thread is correct as long as its owner keeps its end of the
    control pipe open and sends commands that do not name the control pipe, with deadlines
    that fit a time, and the clock is not negative ([answer_ok]; [abandoned_watcher_aborts]
    shows what happens otherwise). Then, whatever else the system answers, it fails no check,
    goes out of no vector's range and overflows nothing; and if it ends, then what it did is
    a history of the abstract watcher - a map from handles to watches and a map from ports
    to alarms - that was told to stop. (At the end it closes the control pipe twice.) *)
Theorem ThreadMain_implements_watcher ILLEGAL_PORT control fuel l
    (Hc : 0 < control < 2 ^ 32) (Hl : Forall (answer_ok control) l) :
  wlp (ThreadMain ILLEGAL_PORT fuel control) (new_world l) (fun _ w' =>
    exists a tr, history ILLEGAL_PORT control a tr /\ stopped a = true /\
      trace w' = Closed control :: Closed control :: tr).
Proof. by apply ThreadMain_history. Qed.

(** * Every answer belongs to a request *)

Definition count (f : event -> bool) (tr : list event) : nat := length (List.filter f tr).

Definition signals_to (p : Dart_Port) (e : event) : bool :=
  match e with PostedSignal q _ => q =? p | _ => false end.
Definition nulls_to (p : Dart_Port) (e : event) : bool :=
  match e with PostedNull q => q =? p | _ => false end.

(** Commands of a kind that name the port. *)
Definition asks (kind : Command -> bool) (p : Dart_Port) (e : event) : bool :=
  match e with
  | CommandRead c => match Command_of (command c) with Some k => kind k && (port c =? p) | None => false end
  | _ => false
  end.
Definition is_add (k : Command) : bool := match k with kCommandAddHandle => true | _ => false end.
Definition is_null_request (k : Command) : bool :=
  match k with kCommandAddTimer | kCommandCloseHandle => true | _ => false end.

Lemma count_app f l1 l2 : count f (l1 ++ l2) = (count f l1 + count f l2)%nat.
Proof. unfold count. by rewrite List.filter_app, length_app. Qed.

(** The watches whose port is [p]. *)
Definition watches_for (p : Dart_Port) (m : gmap MojoHandle watch) : nat :=
  length (filter (fun x => w_port x.2 = p) (map_to_list m)).
Definition one (b : bool) : nat := if b then 1%nat else 0%nat.

Lemma watches_for_insert p h w m : m !! h = None ->
  watches_for p (<[h := w]> m) = (one (w_port w =? p)%Z + watches_for p m)%nat.
Proof.
  intros Hh. unfold watches_for. rewrite map_to_list_insert by done. rewrite filter_cons. simpl.
  destruct (Z.eqb_spec (w_port w) p); case_decide; done.
Qed.

Lemma watches_for_delete p h w m : m !! h = Some w ->
  watches_for p m = (one (w_port w =? p)%Z + watches_for p (delete h m))%nat.
Proof.
  intros Hh. rewrite <- (watches_for_insert p h w) by apply lookup_delete_eq. by rewrite insert_delete_id.
Qed.

Lemma watches_for_update p h w w' m : m !! h = Some w -> w_port w' = w_port w ->
  watches_for p (<[h := w']> m) = watches_for p m.
Proof.
  intros Hh Hp. rewrite <- insert_delete_eq, watches_for_insert by apply lookup_delete_eq.
  by rewrite Hp, (watches_for_delete p h w m).
Qed.

Lemma watches_for_observe p r m : watches_for p (observe r m) = watches_for p m.
Proof.
  induction m as [|h w m Hh IH] using map_ind; [done|].
  unfold observe. erewrite map_imap_insert_Some by reflexivity. fold (observe r m).
  rewrite !watches_for_insert; [|done|unfold observe; by rewrite map_lookup_imap, Hh].
  rewrite IH. by destruct (list_to_map r !! h).
Qed.

Lemma watches_for_split p (P : MojoHandle * watch -> Prop) `{!forall x, Decision (P x)} m over :
  over ≡ₚ map_to_list (filter P m) ->
  (length (filter (fun x => w_port x.2 = p) over) + watches_for p (filter (fun x => ~ P x) m))%nat = watches_for p m.
Proof.
  intros ->. unfold watches_for.
  assert (Hf : forall (Q : MojoHandle * watch -> Prop) `{!forall x, Decision (Q x)},
    map_to_list (filter Q m) ≡ₚ filter Q (map_to_list m)).
  { intros Q HQ. rewrite map_filter_alt at 1. apply map_to_list_to_map.
    eapply sublist_NoDup; [apply (NoDup_fst_map_to_list m)|]. apply fmap_sublist, sublist_filter. }
  rewrite !Hf. rewrite <- length_app, <- filter_app. by rewrite filter_app_complement.
Qed.

Section Balance.
Context (ILLEGAL_PORT : Dart_Port) (control : MojoHandle) (p : Dart_Port) (Hp : p <> ILLEGAL_PORT).

(** What ends a watch sends one signal, to its port. *)
Lemma count_over (f : MojoHandle * watch -> list event) over :
  (forall x, count (signals_to p) (f x) = one (w_port x.2 =? p)) ->
  count (signals_to p) (over ≫= f) = length (filter (fun x => w_port x.2 = p) over).
Proof.
  intros Hf. induction over as [|x over IH]; [done|].
  change ((x :: over) ≫= f) with (f x ++ (over ≫= f)). rewrite count_app, Hf, IH, filter_cons.
  destruct (Z.eqb_spec (w_port x.2) p); case_decide; done.
Qed.

Lemma count_signal q v : count (signals_to p) (signal ILLEGAL_PORT q v) = one (q =? p).
Proof.
  unfold signal. destruct (Z.eqb_spec q ILLEGAL_PORT) as [->|_]; [by destruct (Z.eqb_spec ILLEGAL_PORT p)|].
  unfold count. simpl. by destruct (q =? p).
Qed.

Lemma count_zero f tr : Forall (fun e => f e = false) tr -> count f tr = 0%nat.
Proof. induction 1 as [|e tr He _ IH]; [done|]. unfold count in *. simpl. by rewrite He. Qed.

Lemma waited_one (f : event -> bool) (checks : list (MojoHandle * MojoResult)) :
  (forall h r, f (OneWaited h r) = false) -> count f (reverse ((fun x => OneWaited x.1 x.2) <$> checks)) = 0%nat.
Proof.
  intros Hf. apply count_zero. rewrite reverse_Permutation. apply Forall_fmap, Forall_true. intros x. apply Hf.
Qed.

Lemma command_owes a c :
  (count (signals_to p) ((spec_command ILLEGAL_PORT c a).1 ++ [CommandRead c]) +
     watches_for p (watches (spec_command ILLEGAL_PORT c a).2) <=
   count (asks is_add p) ((spec_command ILLEGAL_PORT c a).1 ++ [CommandRead c]) + watches_for p (watches a))%nat.
Proof.
  assert (Hdel : forall h, (watches_for p (delete h (watches a)) <= watches_for p (watches a))%nat).
  { intros h. destruct (watches a !! h) as [w|] eqn:Hw; [rewrite (watches_for_delete p h w (watches a)) by done; lia|].
    by rewrite delete_id. }
  unfold spec_command. destruct (Command_of (command c)) as [[]|] eqn:Hc; rewrite !count_app;
    unfold count at 2 4; cbn [List.filter asks signals_to]; rewrite Hc; cbn [is_add andb length fst snd app watches].
  - destruct (watches a !! handle c) as [w|] eqn:Hw; [destruct (Z.eqb_spec (w_port w) (port c)) as [Hpc|_]|];
      cbn [fst snd watches set_watches].
    + rewrite (watches_for_update p (handle c) w) by done. unfold count. simpl. lia.
    + rewrite count_signal. destruct (Z.eqb_spec (port c) p); simpl; lia.
    + rewrite watches_for_insert by done. simpl. destruct (Z.eqb_spec (port c) p); unfold count; simpl; lia.
  - unfold count. simpl. apply Hdel.
  - rewrite (count_zero (signals_to p)); [|].
    + specialize (Hdel (handle c)). simpl. lia.
    + apply Forall_app. split; [|by repeat constructor]. unfold null. destruct (port c =? ILLEGAL_PORT); by repeat constructor.
  - simpl. lia.
  - simpl. lia.
  - simpl. lia.
Qed.

(** No step answers more than what was asked, or was owed. *)
Lemma step_owes a evs a' : spec_step ILLEGAL_PORT control a evs a' ->
  (count (signals_to p) evs + watches_for p (watches a') <=
   count (asks is_add p) evs + watches_for p (watches a))%nat.
Proof.
  assert (Hfire : forall x, count (signals_to p) (fire ILLEGAL_PORT x) = one (w_port x.2 =? p))
    by (intros x; apply count_signal).
  assert (Hprune : forall x, count (signals_to p) (prune ILLEGAL_PORT x) = one (w_port x.2 =? p)).
  { intros x. unfold prune. rewrite count_app, count_signal. unfold count. simpl. lia. }
  destruct 1 as [a c|a t|a q d Hq _ _|a report|a report fired m Hf|a r report closed m _ _ _ Hcl|a report checks closed _ Hcl].
  - apply command_owes.
  - done.
  - rewrite count_zero; [simpl; lia|]. unfold null. destruct (q =? ILLEGAL_PORT); by repeat constructor.
  - simpl. rewrite watches_for_observe. done.
  - rewrite count_app, count_over by done. simpl. pose proof (watches_for_split p is_ready m fired Hf) as Hs.
    unfold m in Hs at 2. rewrite watches_for_observe in Hs. fold m. unfold count at 1. simpl. lia.
  - rewrite count_app, count_over by done. simpl. pose proof (watches_for_split p peer_closed m closed Hcl) as Hs.
    assert (Hm : watches_for p m = watches_for p (watches a)).
    { unfold m. destruct (r =? _); [done|]. apply watches_for_observe. }
    unfold count at 1. simpl. lia.
  - rewrite !count_app, count_over, waited_one by done.
    pose proof (watches_for_split p (found_bad checks) (watches a) closed Hcl) as Hs. unfold count at 1. simpl. lia.
Qed.

(** The same of alarms, and of requests to close. *)
Definition alarm_for (a : spec) : nat := one (bool_decide (is_Some (alarms a !! p))).

Lemma count_null q : count (nulls_to p) (null ILLEGAL_PORT q) = one (q =? p).
Proof.
  unfold null. destruct (Z.eqb_spec q ILLEGAL_PORT) as [->|_]; [by destruct (Z.eqb_spec ILLEGAL_PORT p)|].
  unfold count. simpl. by destruct (q =? p).
Qed.

Lemma no_nulls over f : (forall x : MojoHandle * watch, count (nulls_to p) (f x) = 0%nat) ->
  count (nulls_to p) (over ≫= f) = 0%nat.
Proof.
  intros Hf. induction over as [|x over IH]; [done|].
  change ((x :: over) ≫= f) with (f x ++ (over ≫= f)). by rewrite count_app, Hf, IH.
Qed.

Lemma alarm_for_set d q a :
  (one (bool_decide (is_Some (set_alarm d q (alarms a) !! p))) <= one (q =? p)%Z + alarm_for a)%nat.
Proof.
  unfold alarm_for. destruct (Z.eqb_spec q p) as [->|Hne]; [by destruct (bool_decide (is_Some (set_alarm _ _ _ !! _))); simpl; lia|].
  assert (Hsame : set_alarm d q (alarms a) !! p = alarms a !! p); [|by rewrite Hsame].
  unfold set_alarm. destruct (d <? 0); [by rewrite lookup_delete_ne|].
  destruct (bool_decide _); [by rewrite lookup_delete_ne|]. by rewrite lookup_insert_ne, lookup_delete_ne.
Qed.

Lemma step_owes_nulls a evs a' : spec_step ILLEGAL_PORT control a evs a' ->
  (count (nulls_to p) evs + alarm_for a' <= count (asks is_null_request p) evs + alarm_for a)%nat.
Proof.
  assert (Hfire : forall x, count (nulls_to p) (fire ILLEGAL_PORT x) = 0%nat).
  { intros x. unfold fire, signal. by destruct (w_port x.2 =? ILLEGAL_PORT). }
  assert (Hprune : forall x, count (nulls_to p) (prune ILLEGAL_PORT x) = 0%nat).
  { intros x. unfold prune, signal. by destruct (w_port x.2 =? ILLEGAL_PORT). }
  destruct 1 as [a c|a t|a q d Hq _ _|a report|a report fired m Hf|a r report closed m _ _ _ Hcl|a report checks closed _ Hcl].
  - unfold spec_command. destruct (Command_of (command c)) as [[]|] eqn:Hc; rewrite !count_app;
      unfold count at 2 4; cbn [List.filter asks nulls_to]; rewrite Hc; cbn [is_null_request andb length fst snd app].
    + destruct (watches a !! handle c) as [w|]; [destruct (w_port w =? port c)|]; cbn [fst snd];
        rewrite ?(count_zero (nulls_to p) (signal _ _ _)); unfold alarm_for; simpl; try lia.
      unfold signal. destruct (port c =? ILLEGAL_PORT); by repeat constructor.
    + unfold alarm_for. simpl. lia.
    + rewrite count_app, count_null. unfold alarm_for. destruct (Z.eqb_spec (port c) p); unfold count; simpl; lia.
    + pose proof (alarm_for_set (deadline c) (port c) a). unfold alarm_for at 1. cbn [alarms set_alarms].
      destruct (Z.eqb_spec (port c) p); unfold count; simpl in *; lia.
    + unfold alarm_for. simpl. lia.
    + unfold alarm_for. simpl. lia.
  - done.
  - rewrite count_null. unfold alarm_for. cbn [alarms set_alarms].
    rewrite (count_zero (asks _ _)); [|unfold null; destruct (q =? ILLEGAL_PORT); by repeat constructor].
    destruct (Z.eqb_spec q p) as [->|Hne].
    + rewrite lookup_delete_eq, Hq. simpl. done.
    + by rewrite lookup_delete_ne.
  - done.
  - rewrite !count_app, no_nulls by done. unfold count, alarm_for. simpl. lia.
  - rewrite !count_app, no_nulls by done. unfold count, alarm_for. simpl. lia.
  - rewrite !count_app, no_nulls, waited_one by done. unfold count, alarm_for. simpl. lia.
Qed.

Lemma history_owes a tr : history ILLEGAL_PORT control a tr ->
  (count (signals_to p) tr + watches_for p (watches a) <= count (asks is_add p) tr)%nat /\
  (count (nulls_to p) tr + alarm_for a <= count (asks is_null_request p) tr)%nat.
Proof.
  induction 1 as [|a tr evs a' _ [IH1 IH2] _ Hstep]; [done|]. rewrite !count_app.
  pose proof (step_owes a evs a' Hstep). pose proof (step_owes_nulls a evs a' Hstep). lia.
Qed.
End Balance.

(** C30: the watcher sends no message that was not asked for: the signals that a port
    gets are at most as many as the requests to watch a handle for it, and the
    notifications of timers and of closed handles at most as many as the requests that
    set a timer or close a handle for it. *)
Theorem answers_belong_to_requests ILLEGAL_PORT control fuel l p w
    (Hc : 0 < control < 2 ^ 32) (Hl : Forall (answer_ok control) l) (Hp : p <> ILLEGAL_PORT)
    (Hrun : ThreadMain ILLEGAL_PORT fuel control (new_world l) = Ok (tt, w)) :
  (count (signals_to p) (trace w) <= count (asks is_add p) (trace w))%nat /\
  (count (nulls_to p) (trace w) <= count (asks is_null_request p) (trace w))%nat.
Proof.
  pose proof (wlp_result _ _ _ _ _ (ThreadMain_history ILLEGAL_PORT control fuel l Hc Hl) Hrun) as (a & tr & Hh & _ & ->).
  destruct (history_owes ILLEGAL_PORT control p Hp a tr Hh) as [H1 H2]. unfold count in *. simpl. lia.
Qed.

(** * Commands through the pipe *)

Lemma data_fields k (sg : MojoHandleSignals) : 0 <= k < 5 ->
  let d := Z.lor (Z.shiftl k 3) (Z.land sg MOJO_HANDLE_SIGNAL_ALL) in
  0 <= d < 2 ^ 63 /\ Z.shiftr d 3 = k /\ wrap32 (Z.land d MOJO_HANDLE_SIGNAL_ALL) = Z.land sg MOJO_HANDLE_SIGNAL_ALL.
Proof.
  intros Hk. change MOJO_HANDLE_SIGNAL_ALL with 7. rewrite (land_7 sg). pose proof (Z.mod_pos_bound sg 8 ltac:(lia)) as Hx.
  set (x := sg mod 8) in *. clearbody x.
  assert (Hks : k = 0 \/ k = 1 \/ k = 2 \/ k = 3 \/ k = 4) by lia.
  assert (Hxs : x = 0 \/ x = 1 \/ x = 2 \/ x = 3 \/ x = 4 \/ x = 5 \/ x = 6 \/ x = 7) by lia.
  destruct Hks as [->|[->|[->|[->| ->]]]]; destruct Hxs as [->|[->|[->|[->|[->|[->|[->| ->]]]]]]];
    by vm_compute.
Qed.

Lemma set_data_command k sg c : command (set_data k sg c) = Command_value k /\
  signals (set_data k sg c) = Z.land sg MOJO_HANDLE_SIGNAL_ALL /\ 0 <= data_ (set_data k sg c) < 2 ^ 63.
Proof.
  destruct (data_fields (Command_value k) sg) as (H1 & H2 & H3); [by destruct k|]. done.
Qed.

Lemma Command_of_value k : Command_of (Command_value k) = Some k.
Proof. by destruct k. Qed.

Lemma make_roundtrip ILLEGAL_PORT k sg h p : - 2 ^ 63 <= h < 2 ^ 63 -> - 2 ^ 63 <= p < 2 ^ 63 ->
  command_of_bytes (command_bytes (set_data k sg (make ILLEGAL_PORT h p))) = set_data k sg (make ILLEGAL_PORT h p).
Proof.
  intros Hh Hp. destruct (set_data_command k sg (make ILLEGAL_PORT h p)) as (_ & _ & Hd).
  apply bytes_roundtrip; [done|done|lia].
Qed.

(** Commands come out of the control pipe as isolates put them in: what [FromDart]
    makes of any arguments is read by the watcher as the same command, with the handle
    in 32 bits, the three signals that exist, and the port and the deadline as given. *)
Theorem commands_roundtrip ILLEGAL_PORT cmd handle_or_deadline p sg c
    (Hh : - 2 ^ 63 <= handle_or_deadline < 2 ^ 63) (Hp : - 2 ^ 63 <= p < 2 ^ 63)
    (Hi : - 2 ^ 63 <= ILLEGAL_PORT < 2 ^ 63)
    (Hc : FromDart ILLEGAL_PORT cmd handle_or_deadline p sg = Ok c) :
  let c' := command_of_bytes (command_bytes c) in
  Command_of (command c') = Command_of cmd /\
  match Command_of cmd with
  | Some kCommandAddHandle =>
      handle c' = wrap32 handle_or_deadline /\
      signals c' = Z.land (wrap32 sg) MOJO_HANDLE_SIGNAL_ALL /\ port c' = p
  | Some kCommandRemoveHandle => handle c' = wrap32 handle_or_deadline
  | Some kCommandCloseHandle => handle c' = wrap32 handle_or_deadline /\ port c' = p
  | Some kCommandAddTimer => deadline c' = handle_or_deadline /\ port c' = p
  | Some kCommandShutdownHandleWatcher => True
  | None => False
  end.
Proof.
  unfold FromDart in Hc. pose proof (wrap32_range handle_or_deadline) as Hw.
  assert (Hww : wrap32 (wrap32 handle_or_deadline) = wrap32 handle_or_deadline) by (by apply wrap32_small).
  destruct (Command_of cmd) as [k|]; [|done].
  destruct k; injection Hc as <-; intros c'; unfold c', Add, Remove, Close, Timer, Shutdown_command; rewrite make_roundtrip by (try done; unfold MOJO_HANDLE_INVALID; lia);
    match goal with |- context [set_data ?k ?sg ?m] => destruct (set_data_command k sg m) as (Hcmd & Hsg & _) end;
    rewrite Hcmd, Command_of_value; (split; [done|]); rewrite ?Hsg; by repeat split.
Qed.

(** * Stopping *)

Section Stopping.
Context (ILLEGAL_PORT : Dart_Port) (control : MojoHandle).
Context (Hport : - 2 ^ 63 <= ILLEGAL_PORT < 2 ^ 63).
Abbreviation world_of := (watcher_world control).

(** The times that the loop reads when no timer is due: a second one if there are
    timers. *)
Definition times (now now' : Z) (ts : list HandleWatcherTimer) : list answer :=
  TimeTicks now :: match ts with [] => [] | _ => [TimeTicks now'] end.

Definition none_due (now : Z) (ts : list HandleWatcherTimer) : Prop :=
  match ts with [] => True | t :: _ => Z.quot now 1000 < timer_deadline t end.

Lemma HasTimers_run es t ts l tr : HasTimers (world_of es (t :: ts) false l tr) = Ok (true, world_of es (t :: ts) false l tr).
Proof. done. Qed.

Lemma ProcessTimers_none_due fuel es ts l tr now : none_due now ts -> (0 < fuel)%nat ->
  ProcessTimers ILLEGAL_PORT fuel (world_of es ts false (TimeTicks now :: l) tr) =
    Ok (tt, world_of es ts false l (TimeRead (Z.quot now 1000) :: tr)).
Proof.
  intros Hdue Hf. destruct fuel as [|fuel]; [lia|]. unfold ProcessTimers. run_step. cbn [while_].
  destruct ts as [|t ts]; [reflexivity|]. simpl in Hdue.
  assert (Hlt : (Z.quot now 1000 >=? timer_deadline t) = false) by (rewrite Z.geb_leb; apply Z.leb_gt; lia).
  erewrite run_bind; [|run_by ltac:(by apply HasTimers_run); run_step; rewrite Hlt; reflexivity]. reflexivity.
Qed.

Lemma WaitDeadline_returns es ts l tr now' : timers_ok ts -> 0 <= now' < 2 ^ 63 ->
  exists d tr', WaitDeadline (world_of es ts false (match ts with [] => l | _ => TimeTicks now' :: l end) tr) =
    Ok (d, world_of es ts false l tr').
Proof.
  intros (_ & _ & Hd) Hnow. unfold WaitDeadline. destruct ts as [|t ts]; [by eexists _, _|].
  apply Forall_cons in Hd as [Hd _]. unfold max_deadline in Hd.
  assert (Hq : 0 <= Z.quot now' 1000 /\ Z.quot now' 1000 * 1000 < 2 ^ 63) by (rewrite Z.quot_div_nonneg by lia; lia).
  assert (Hint : forall x w, - 2 ^ 63 <= x < 2 ^ 63 -> int64 x w = Ok (x, w)).
  { intros x w Hx. unfold int64. rewrite (proj2 (Z.leb_le _ _)), (proj2 (Z.ltb_lt _ _)) by lia. done. }
  eexists _, _. run_by ltac:(by apply HasTimers_run). run_step. run_step.
  run_by ltac:(apply Hint; lia). run_by ltac:(apply Hint; lia). reflexivity.
Qed.

(** A wait that reports that there is a command, and the command to stop. *)
Definition shutdown_next (states : list MojoHandleSignalsState) : list answer :=
  [WaitedMany MOJO_RESULT_OK states;
   MessageRead MOJO_RESULT_OK (command_bytes (Shutdown_command ILLEGAL_PORT)) 0].

Lemma Shutdown_command_read es ts l tr :
  ProcessControlMessage ILLEGAL_PORT
    (world_of es ts false (MessageRead MOJO_RESULT_OK (command_bytes (Shutdown_command ILLEGAL_PORT)) 0 :: l) tr) =
  Ok (tt, world_of es ts true l (CommandRead (Shutdown_command ILLEGAL_PORT) :: tr)).
Proof.
  unfold ProcessControlMessage. run_step. run_step.
  assert (Hsize : (size_of (command_bytes (Shutdown_command ILLEGAL_PORT)) =? sizeof_HandleWatcherCommand) = true).
  { unfold size_of, command_bytes. by rewrite !length_app, !length_le_split. }
  assert (Hrt : command_of_bytes (command_bytes (Shutdown_command ILLEGAL_PORT)) = Shutdown_command ILLEGAL_PORT)
    by (apply make_roundtrip; [unfold MOJO_HANDLE_INVALID; lia|done]).
  assert (Hcmd : Command_of (command (Shutdown_command ILLEGAL_PORT)) = Some kCommandShutdownHandleWatcher) by done.
  rewrite Hsize. run_step. run_step. rewrite Hrt. run_step. by rewrite Hcmd.
Qed.

Lemma run_once_shutdown es ts tr now now' states l fuel :
  entries_ok ILLEGAL_PORT control es -> timers_ok ts -> 0 <= now' < 2 ^ 63 -> none_due now ts ->
  length states = length es -> (0 < fuel)%nat ->
  match states with
  | st :: _ => Z.land (satisfied_signals st) MOJO_HANDLE_SIGNAL_READABLE <> 0
  | [] => False
  end ->
  exists es' over tr',
    over ≡ₚ pair_of <$> filter (fun e => is_ready (pair_of e)) (tail (zip_with with_state es states)) /\
    run_once ILLEGAL_PORT fuel (world_of es ts false (times now now' ts ++ shutdown_next states ++ l) tr) =
      Ok (tt, world_of es' ts true l (CommandRead (Shutdown_command ILLEGAL_PORT) :: (over ≫= fire ILLEGAL_PORT) ++ tr')).
Proof.
  intros He Hts Hnow Hdue Hlen Hfuel Hready.
  destruct (eo_control _ _ _ He) as (c0 & rest & -> & (_ & Hc2 & _ & _)). pose proof (eo_distinct _ _ _ He) as Hnd.
  destruct states as [|st0 sts]; [done|]. injection Hlen as Hlen.
  set (rest1 := zip_with with_state rest sts). set (c1 := with_state c0 st0).
  assert (Hnd1 : NoDup (handles (c1 :: rest1))) by (rewrite handles_cons; unfold rest1; by rewrite handles_with_state).
  destruct (WaitDeadline_returns (c0 :: rest) ts (shutdown_next (st0 :: sts) ++ l) (TimeRead (Z.quot now 1000) :: tr) now' Hts Hnow)
    as (d & tr1 & Hwait).
  set (tr2 := ManyWaited MOJO_RESULT_OK (zip (handles (c0 :: rest)) (st0 :: sts)) :: tr1).
  set (l1 := MessageRead MOJO_RESULT_OK (command_bytes (Shutdown_command ILLEGAL_PORT)) 0 :: l).
  destruct (notify_ready_run ILLEGAL_PORT control c1 rest1 ts false l1 tr2 (length rest1)) as
    (idx & L & Hrun & Hat & Hs & _ & HL); [done|]. rewrite firstn_all in HL.
  destruct (remove_all_run control idx L c1 rest1 ts false l1 ((reverse (pair_of <$> L) ≫= fire ILLEGAL_PORT) ++ tr2)
    Hnd1 Hat Hs) as (K & _ & Hrem).
  exists (c1 :: K), (reverse (pair_of <$> L)), tr2. split; [by rewrite reverse_Permutation, HL|].
  assert (Htimers : ProcessTimers ILLEGAL_PORT fuel (world_of (c0 :: rest) ts false
      (times now now' ts ++ shutdown_next (st0 :: sts) ++ l) tr) =
    Ok (tt, world_of (c0 :: rest) ts false
      (match ts with [] => shutdown_next (st0 :: sts) ++ l | _ => TimeTicks now' :: shutdown_next (st0 :: sts) ++ l end)
      (TimeRead (Z.quot now 1000) :: tr))) by (destruct ts; by apply ProcessTimers_none_due).
  assert (Hn : wrap32 (size_of (handles (c0 :: rest))) = Z.of_nat (length (c0 :: rest))).
  { unfold size_of. rewrite length_handles. apply wrap32_small. pose proof (entries_count ILLEGAL_PORT control _ He). lia. }
  assert (Hmany : MojoWaitMany (Z.of_nat (length (c0 :: rest))) d (world_of (c0 :: rest) ts false (shutdown_next (st0 :: sts) ++ l) tr1) =
    Ok (MOJO_RESULT_OK, world_of (c1 :: rest1) ts false l1 tr2)).
  { unfold MojoWaitMany. run_step. change (shutdown_next (st0 :: sts) ++ l) with (WaitedMany MOJO_RESULT_OK (st0 :: sts) :: l1).
    watcher_simpl. change (MOJO_RESULT_OK =? MOJO_SYSTEM_RESULT_DEADLINE_EXCEEDED) with false. cbn [andb]. cbn iota.
    run_step. assert (Hsz : (size_of (st0 :: sts) =? Z.of_nat (length (c0 :: rest))) = true)
      by (unfold size_of; cbn [length]; rewrite Hlen; apply Z.eqb_refl).
    change (MOJO_RESULT_OK =? _) with false. cbn [orb]. rewrite Hsz.
    run_by ltac:(apply (write_states control (c0 :: rest)); simpl; by rewrite Hlen). by run_step. }
  unfold run_once. run_by ltac:(exact Htimers). run_step. rewrite Hn.
  assert (Hsz : (size_of (e_signals <$> c0 :: rest) =? Z.of_nat (length (c0 :: rest))) = true).
  { unfold size_of. rewrite length_fmap. apply Z.eqb_refl. }
  rewrite Hsz. run_step. run_by ltac:(exact Hwait). run_by ltac:(exact Hmany).
  change (MOJO_RESULT_OK =? MOJO_SYSTEM_RESULT_DEADLINE_EXCEEDED) with false. watcher_simpl.
  unfold ProcessWaitManyResults. run_step. change (MOJO_RESULT_OK =? MOJO_RESULT_OK) with true. watcher_simpl. run_step.
  rewrite length_handles. cbn [length]. run_by ltac:(exact Hrun). run_by ltac:(exact Hrem). run_step.
  run_by ltac:(by apply (vec_get_run e_signals (c1 :: K) 0 c1)).
  run_by ltac:(by apply (vec_get_run e_state (c1 :: K) 0 c1)).
  assert (Hr : (Z.land (satisfied_signals (e_state c1)) (e_signals c1) =? 0) = false).
  { apply Z.eqb_neq. simpl. by rewrite Hc2. }
  rewrite Hr. watcher_simpl. apply Shutdown_command_read.
Qed.

(** C31: the watcher can be stopped: whatever it watches, when no timer is due and a
    wait reports that there is a command, the command to shut down ends the loop. The
    watches that are ready get their signals first; then only the control pipe is
    closed. *)
Theorem Shutdown_ends_loop es ts tr now now' states l fuel
    (He : entries_ok ILLEGAL_PORT control es) (Hts : timers_ok ts) (Hnow : 0 <= now' < 2 ^ 63)
    (Hdue : none_due now ts) (Hlen : length states = length es) (Hfuel : (2 <= fuel)%nat)
    (Hready : match states with
              | st :: _ => Z.land (satisfied_signals st) MOJO_HANDLE_SIGNAL_READABLE <> 0
              | [] => False
              end) :
  exists w', Run ILLEGAL_PORT fuel (world_of es ts false (times now now' ts ++ shutdown_next states ++ l) tr) =
      Ok (tt, w') /\
    exists over tr', over ≡ₚ pair_of <$> filter (fun e => is_ready (pair_of e)) (tail (zip_with with_state es states)) /\
      trace w' = Closed control :: CommandRead (Shutdown_command ILLEGAL_PORT) :: (over ≫= fire ILLEGAL_PORT) ++ tr'.
Proof.
  destruct (run_once_shutdown es ts tr now now' states l fuel He Hts Hnow Hdue Hlen ltac:(lia) Hready)
    as (K & over & tr' & Hover & Hrun).
  destruct fuel as [|[|fuel]]; [lia..|]. eexists. split.
  - unfold Run. erewrite run_bind; [run_step; reflexivity|].
    change (while_ (S (S fuel)) ?f tt) with (r ← f tt; match r with inl a' => while_ (S fuel) f a' | inr v => mret v end).
    erewrite run_bind; [|run_step; run_by ltac:(exact Hrun); reflexivity]. reflexivity.
  - exists over, tr'. split; [done|]. reflexivity.
Qed.
End Stopping.
