(* ===== verification/HandleWatcherExamples.v ===== *)
(** Runs of the handle watcher: the theorems at work, a timer that is lost, a wait
    that is too long, and a watcher left behind by its owner. *)
From stdpp Require Import base numbers list option gmap sorting.
From coqutil Require Import Byte Word.LittleEndianList.
From Stdlib Require Import ZArith Lia.
From S2P Require Import Prelude Result CMem Validate Serialization.
From S2P Require Import HandleWatcher HandleWatcherFacts HandleWatcherSpec HandleWatcherRuns HandleWatcherTheorems.

(** No port is 0; the control pipe is handle 1. *)
Definition no_port : Dart_Port := 0.
Definition state_of (sg : MojoHandleSignals) : MojoHandleSignalsState :=
  {| satisfied_signals := sg; satisfiable_signals := 7 |}.
Definition sent (c : HandleWatcherCommand) : answer := MessageRead MOJO_RESULT_OK (command_bytes c) 0.

(** Handle 5 is watched for port 7 and becomes readable; a timer of port 9 is set for
    100 ms and expires; then the watcher is told to stop. *)
Definition sample_answers : list answer := [
  TimeTicks 0; WaitedMany MOJO_RESULT_OK [state_of 1]; sent (Add no_port 5 1 7);
  TimeTicks 0; WaitedMany MOJO_RESULT_OK [state_of 0; state_of 3];
  TimeTicks 0; WaitedMany MOJO_RESULT_OK [state_of 1]; sent (Timer no_port 100 9);
  TimeTicks 2000; TimeTicks 3000; WaitedMany MOJO_SYSTEM_RESULT_DEADLINE_EXCEEDED [state_of 0];
  TimeTicks 100500; TimeTicks 100600; WaitedMany MOJO_RESULT_OK [state_of 1]; sent (Shutdown_command no_port)
].

Ltac answers_fine := repeat match goal with
  | |- Forall _ (_ :: _) => constructor
  | |- Forall _ [] => constructor
  | |- answer_ok _ (MessageRead _ _ _) =>
      split; [reflexivity|split; [reflexivity|eexists; split; [|reflexivity]; repeat split; by vm_compute]]
  | |- answer_ok _ _ => by vm_compute
  end.

Lemma sample_answers_fine : Forall (answer_ok 1) sample_answers.
Proof. unfold sample_answers, sent. answers_fine. Qed.

Definition run_sample (l : list answer) : outcome (list event) :=
  match ThreadMain no_port 10 1 (new_world l) with
  | Ok (_, w) => Ok (rev (trace w))
  | Abort => Abort
  | Fault => Fault
  | OutOfFuel => OutOfFuel
  end.

(** What the isolates see of it. *)
Definition visible (e : event) : bool :=
  match e with PostedNull _ | PostedSignal _ _ | Closed _ => true | _ => false end.
Definition seen (o : outcome (list event)) : outcome (list event) := l ← o; mret (List.filter visible l).

Example sample_seen :
  seen (run_sample sample_answers) = Ok [PostedSignal 7 1; PostedNull 9; Closed 1; Closed 1].
Proof. vm_compute. reflexivity. Qed.

(** * The theorems *)

Definition small_entries : list entry := [
  {| e_handle := 1; e_signals := 1; e_state := state_of 0; e_port := no_port |};
  {| e_handle := 5; e_signals := 1; e_state := state_of 0; e_port := 7 |};
  {| e_handle := 6; e_signals := 2; e_state := state_of 0; e_port := 8 |}].

Lemma small_entries_distinct : NoDup (handles small_entries).
Proof. apply (bool_decide_unpack _). by vm_compute. Qed.

Lemma small_entries_ok : entries_ok no_port 1 small_entries.
Proof. split; [by eexists _, _|apply small_entries_distinct|by repeat constructor]. Qed.

Definition small_world : world := watcher_world 1 small_entries [] false [] [].

Lemma handle_operations_keep_index_witness :
  exists w', CloseHandle no_port 5 9 false small_world = Ok (tt, w') /\ in_step (self w') /\
    5 ∉ wait_many_handles_ (self w').
Proof.
  destruct (handle_operations_keep_index no_port small_world 5) as [_ H].
  - apply world_in_step, small_entries_distinct.
  - destruct H as [_ H]; [by vm_compute|]. exact (H 9).
Defined.

Lemma ThreadMain_implements_watcher_witness :
  exists a tr, history no_port 1 a tr /\ stopped a = true /\ length tr = 17%nat.
Proof.
  assert (Hw := ThreadMain_implements_watcher no_port 1 10 sample_answers ltac:(lia) sample_answers_fine).
  destruct (outcome_returns (ThreadMain no_port 10 1 (new_world sample_answers))
    (fun x => (length (trace x.2) =? 19)%nat)) as ([u w] & Hrun & Hlen); [by vm_compute|].
  destruct (wlp_result _ _ _ _ _ Hw Hrun) as (a & tr & Hh & Hs & Htr).
  exists a, tr. split; [done|]. split; [done|]. apply Nat.eqb_eq in Hlen. simpl in Hlen. rewrite Htr in Hlen.
  simpl in Hlen. lia.
Defined.

Lemma answers_belong_to_requests_witness :
  exists w, ThreadMain no_port 10 1 (new_world sample_answers) = Ok (tt, w) /\
    (count (signals_to 7) (trace w) <= 1)%nat.
Proof.
  destruct (outcome_returns (ThreadMain no_port 10 1 (new_world sample_answers))
    (fun x => (count (asks is_add 7) (trace x.2) =? 1)%nat)) as ([[] w] & Hrun & Hone); [by vm_compute|].
  exists w. split; [done|]. apply Nat.eqb_eq in Hone. simpl in Hone. rewrite <- Hone.
  apply (answers_belong_to_requests no_port 1 10 sample_answers 7 w ltac:(lia) sample_answers_fine ltac:(done) Hrun).
Defined.

Lemma commands_roundtrip_witness :
  let c := Add no_port 5 1 7 in
  let c' := command_of_bytes (command_bytes c) in
  handle c' = 5 /\ signals c' = 1 /\ port c' = 7.
Proof.
  intros c c'. destruct (commands_roundtrip no_port 0 5 7 (1 + 2 ^ 32) c) as [_ H];
    [lia|lia|by split|by vm_compute|]. exact H.
Defined.

Lemma Shutdown_ends_loop_witness :
  exists w', Run no_port 2 (watcher_world 1 small_entries [{| timer_deadline := 100; timer_port := 9 |}] false
      (times 0 1000 [{| timer_deadline := 100; timer_port := 9 |}] ++
       shutdown_next no_port [state_of 1; state_of 0; state_of 2] ++ []) []) = Ok (tt, w') /\
    exists tr', trace w' = Closed 1 :: CommandRead (Shutdown_command no_port) :: PostedSignal 8 2 :: tr'.
Proof.
  destruct (Shutdown_ends_loop no_port 1 ltac:(by split) small_entries [{| timer_deadline := 100; timer_port := 9 |}] []
    0 1000 [state_of 1; state_of 0; state_of 2] [] 2) as (w' & Hrun & over & tr' & Hover & Htr).
  - apply small_entries_ok.
  - by repeat constructor; [apply not_elem_of_nil| |].
  - lia.
  - by vm_compute.
  - done.
  - lia.
  - done.
  - exists w'. split; [exact Hrun|]. exists tr'. rewrite Htr. vm_compute in Hover.
    apply Permutation_singleton_r in Hover as ->. reflexivity.
Defined.

(** * What goes wrong *)

(** Port 9 and port 8 each set a timer for 100 ms; at 200 ms only the first has been
    notified, and nothing is left to notify the other. *)
Definition two_timers : list answer := [
  TimeTicks 0; WaitedMany MOJO_RESULT_OK [state_of 1]; sent (Timer no_port 100 9);
  TimeTicks 0; TimeTicks 0; WaitedMany MOJO_RESULT_OK [state_of 1]; sent (Timer no_port 100 8);
  TimeTicks 200000; TimeTicks 200000; WaitedMany MOJO_RESULT_OK [state_of 1]; sent (Shutdown_command no_port)
].

(** A timer is lost: the set of timers is ordered by deadline only, so that of two
    ports that ask for the same millisecond only the first is ever notified. *)
Example equal_deadline_timer_lost :
  Forall (answer_ok 1) two_timers /\
  seen (run_sample two_timers) = Ok [PostedNull 9; Closed 1; Closed 1].
Proof.
  split; [unfold two_timers, sent; answers_fine|]. vm_compute. reflexivity.
Qed.

(** A timer that expires after [ProcessTimers] read the clock and before
    [WaitDeadline] does makes the time left negative: as an unsigned number of
    microseconds it is more than half a million years. *)
Example WaitDeadline_underflows :
  exists w, (ProcessTimers no_port 5;; WaitDeadline)
      (watcher_world 1 [] [{| timer_deadline := 100; timer_port := 9 |}] false [TimeTicks 99000; TimeTicks 101000] []) =
    Ok (2 ^ 64 - 1000, w).
Proof. eexists. vm_compute. reflexivity. Qed.

(** When the owner closes its end of the control pipe without a command to shut down,
    the watcher tries to prune the control handle: it closes it and fails a check. *)
Example abandoned_watcher_aborts :
  run_sample [TimeTicks 0; WaitedMany MOJO_SYSTEM_RESULT_FAILED_PRECONDITION [state_of 4]] = Abort.
Proof. vm_compute. reflexivity. Qed.
