(* ===== verification/HandleWatcherThreads.v ===== *)
(** Starting and stopping the threads of the handle watcher (the class
    [HandleWatcher] of src/platform/dart/dart_handle_watcher.cc): calls from any
    number of isolates, interleaved in any order. *)
From stdpp Require Import base numbers list option gmap sets.
From coqutil Require Import Byte Word.LittleEndianList.
From Stdlib Require Import ZArith Lia.
From S2P Require Import Prelude Result CMem Validate Serialization HandleWatcher.

(** A [std::thread*]. *)
Abbreviation thread := nat.

(** What is left to do to stop a thread. *)
Inductive todo := Tell | Join | ClosePipe | Delete.

(** Calls in progress, by what they do next. Between two steps other calls may run;
    what is done under the mutex is one step, or marked by [locked]. *)
Inductive call :=
  | CallStart
  | StartInsert (control_pipe_producer_handle : MojoHandle) (t : thread)
  | CallStop (control_pipe_producer_handle : MojoHandle)
  | Stopping (h : MojoHandle) (t : thread) (next : todo)
  | CallStopAll
  | StoppingAll (control_handles : list MojoHandle) (current : option (MojoHandle * thread * todo))
  | Returned (h : MojoHandle).

(** What the system answers: the two ends of a new pipe, or that it makes none; how a
    write to a pipe ended. *)
Inductive sys_answer :=
  | PipeCreated (consumer producer : MojoHandle)
  | PipeRefused (result : MojoResult)
  | MessageWritten (result : MojoResult).

(** What happens to each thread and to its pipe. *)
Inductive revent :=
  | Spawned (t : thread) (consumer producer : MojoHandle)
  | Told (t : thread) (h : MojoHandle) (bytes : list byte) (result : MojoResult)
  | Joined (t : thread)
  | PipeClosed (t : thread) (h : MojoHandle)
  | Deleted (t : thread).

(** [open_] are the producer ends that are open; [shutting_down] the threads that have a
    command to shut down in their pipes, or had; [ended] those that have ended, which is all
    that is seen here of the threads that HandleWatcher models. *)
Record threads := {
  handle_watcher_threads_ : gmap MojoHandle thread;
  locked : bool;
  open_ : gset MojoHandle;
  next_thread : thread;
  shutting_down : gset thread;
  ended : gset thread;
  system : list sys_answer;
  history_ : list revent;
}.

Definition set_threads (m : gmap MojoHandle thread) (w : threads) : threads :=
  {| handle_watcher_threads_ := m; locked := locked w; open_ := open_ w;
     next_thread := next_thread w; shutting_down := shutting_down w; ended := ended w;
     system := system w; history_ := history_ w |}.
Definition set_locked (b : bool) (w : threads) : threads :=
  {| handle_watcher_threads_ := handle_watcher_threads_ w; locked := b; open_ := open_ w;
     next_thread := next_thread w; shutting_down := shutting_down w; ended := ended w;
     system := system w; history_ := history_ w |}.
Definition happen (e : revent) (w : threads) : threads :=
  {| handle_watcher_threads_ := handle_watcher_threads_ w; locked := locked w; open_ := open_ w;
     next_thread := next_thread w; shutting_down := shutting_down w; ended := ended w;
     system := system w; history_ := e :: history_ w |}.
Definition set_open (s : gset MojoHandle) (w : threads) : threads :=
  {| handle_watcher_threads_ := handle_watcher_threads_ w; locked := locked w; open_ := s;
     next_thread := next_thread w; shutting_down := shutting_down w; ended := ended w;
     system := system w; history_ := history_ w |}.
Definition set_system (l : list sys_answer) (w : threads) : threads :=
  {| handle_watcher_threads_ := handle_watcher_threads_ w; locked := locked w; open_ := open_ w;
     next_thread := next_thread w; shutting_down := shutting_down w; ended := ended w;
     system := l; history_ := history_ w |}.
Definition shut_down (t : thread) (w : threads) : threads :=
  {| handle_watcher_threads_ := handle_watcher_threads_ w; locked := locked w; open_ := open_ w;
     next_thread := next_thread w; shutting_down := {[t]} ∪ shutting_down w; ended := ended w;
     system := system w; history_ := history_ w |}.
Definition end_thread (t : thread) (w : threads) : threads :=
  {| handle_watcher_threads_ := handle_watcher_threads_ w; locked := locked w; open_ := open_ w;
     next_thread := next_thread w; shutting_down := shutting_down w; ended := {[t]} ∪ ended w;
     system := system w; history_ := history_ w |}.

Section Threads.
Context (ILLEGAL_PORT : Dart_Port).
(** The order in which a [std::unordered_map] is visited. *)
Context (visit : gmap MojoHandle thread -> list MojoHandle).

(** A new pipe has handles that are not in use. *)
Definition MojoCreateMessagePipe : M threads (option (MojoHandle * MojoHandle)) :=
  w ← get;
  match system w with
  | PipeCreated consumer producer :: l =>
      if bool_decide (producer ∈ open_ w) || (producer =? MOJO_HANDLE_INVALID) then lift OutOfFuel
      else
        put (set_open ({[producer]} ∪ open_ w) (set_system l w));;
        mret (Some (consumer, producer))
  | PipeRefused r :: l =>
      if r =? MOJO_RESULT_OK then lift OutOfFuel else put (set_system l w);; mret None
  | _ => lift OutOfFuel
  end.

(** [new std::thread(ThreadMain, control_pipe_consumer_handle)] *)
Definition new_thread (consumer producer : MojoHandle) : M threads thread :=
  w ← get;
  put {| handle_watcher_threads_ := handle_watcher_threads_ w; locked := locked w; open_ := open_ w;
         next_thread := S (next_thread w); shutting_down := shutting_down w; ended := ended w;
         system := system w; history_ := Spawned (next_thread w) consumer producer :: history_ w |};;
  mret (next_thread w).

(** [Start], up to the mutex, and under it. *)
Definition Start_create : M threads call :=
  res ← MojoCreateMessagePipe;
  match res with
  | None => mret (Returned MOJO_HANDLE_INVALID)
  | Some (consumer, producer) => t ← new_thread consumer producer; mret (StartInsert producer t)
  end.
Definition Start_insert (control_pipe_producer_handle : MojoHandle) (t : thread) : M threads call :=
  w ← get;
  MOJO_CHECK (bool_decide (handle_watcher_threads_ w !! control_pipe_producer_handle = None));;
  modify (fun w => set_threads (<[control_pipe_producer_handle := t]> (handle_watcher_threads_ w)) w);;
  mret (Returned control_pipe_producer_handle).

Definition RemoveLocked (handle : MojoHandle) : M threads (option thread) :=
  w ← get;
  match handle_watcher_threads_ w !! handle with
  | None => mret None
  | Some t => modify (fun w => set_threads (delete handle (handle_watcher_threads_ w)) w);; mret (Some t)
  end.

Definition is_shutdown (c : HandleWatcherCommand) : bool :=
  match Command_of (command c) with Some kCommandShutdownHandleWatcher => true | _ => false end.

(** Writes the object's bytes. The thread is the one that reads at the other end. *)
Definition SendCommand (t : thread) (handle : MojoHandle) (command : HandleWatcherCommand) :
    M threads MojoResult :=
  w ← get;
  match system w with
  | MessageWritten r :: l =>
      put (happen (Told t handle (command_bytes command) r) (set_system l w));;
      (if (r =? MOJO_RESULT_OK) && is_shutdown command
       then modify (shut_down t) else mret tt);;
      mret r
  | _ => lift OutOfFuel
  end.

(** The rest of [Stop] and of [StopLocked], one statement at a time: what is left to do
    after this one. How the write of the command ended is not looked at. [join] waits until
    the thread has ended. *)
Definition stop_step (h : MojoHandle) (t : thread) (next : todo) : M threads (option todo) :=
  match next with
  | Tell => _ ← SendCommand t h (Shutdown_command ILLEGAL_PORT); mret (Some Join)
  | Join =>
      w ← get;
      if bool_decide (t ∈ ended w) then modify (happen (Joined t));; mret (Some ClosePipe) else mret (Some Join)
  | ClosePipe => modify (fun w => happen (PipeClosed t h) (set_open (open_ w ∖ {[h]}) w));; mret (Some Delete)
  | Delete => modify (happen (Deleted t));; mret None
  end.

(** One step of a call. A call that needs the mutex when it is taken stays where it is. *)
Definition step (c : call) : M threads call :=
  w ← get;
  match c with
  | CallStart => Start_create
  | StartInsert h t => if locked w then mret c else Start_insert h t
  | CallStop h =>
      if locked w then mret c
      else
        t ← RemoveLocked h;
        mret (match t with None => Returned h | Some t => Stopping h t Tell end)
  | Stopping h t next =>
      next ← stop_step h t next;
      mret (match next with Some next => Stopping h t next | None => Returned h end)
  | CallStopAll =>
      if locked w then mret c
      else
        modify (set_locked true);;
        mret (StoppingAll (visit (handle_watcher_threads_ w)) None)
  | StoppingAll hs current =>
      match current, hs with
      | Some (h, t, next), _ =>
          next ← stop_step h t next;
          mret (StoppingAll hs (option_map (pair (h, t)) next))
      | None, h :: hs =>
          t ← RemoveLocked h;
          match t with
          | None => MOJO_CHECK false;; mret c
          | Some t => mret (StoppingAll hs (Some (h, t, Tell)))
          end
      | None, [] => modify (set_locked false);; mret (Returned MOJO_HANDLE_INVALID)
      end
  | Returned h => mret c
  end.

(** A schedule: who takes the next turn. A call, by number; a thread, which ends if it has
    been told to shut down; an isolate that has the handle of a thread, which can send it
    the command too ([FromDart] makes one). *)
Inductive turn :=
  | Call (i : nat)
  | ThreadEnds (t : thread)
  | IsolateCommands (t : thread).

Definition take_turn (x : turn) (cs : list call) : M threads (list call) :=
  match x with
  | Call i => match cs !! i with None => mret cs | Some c => c' ← step c; mret (<[i := c']> cs) end
  | ThreadEnds t =>
      w ← get; (if bool_decide (t ∈ shutting_down w) then modify (end_thread t) else mret tt);; mret cs
  | IsolateCommands t =>
      w ← get; (if (t <? next_thread w)%nat then modify (shut_down t) else mret tt);; mret cs
  end.
Fixpoint interleave (schedule : list turn) (cs : list call) : M threads (list call) :=
  match schedule with
  | [] => mret cs
  | x :: schedule => cs' ← take_turn x cs; interleave schedule cs'
  end.

Definition no_threads (l : list sys_answer) : threads := {|
  handle_watcher_threads_ := ∅; locked := false; open_ := ∅; next_thread := 0; shutting_down := ∅; ended := ∅;
  system := l; history_ := [];
|}.
End Threads.
