(* ===== verification/HandleWatcherStops.v ===== *)
(** Threads of the handle watcher are stopped once, and in order, however the calls
    that start and stop them are interleaved. *)
From stdpp Require Import base numbers list option gmap sets.
From coqutil Require Import Byte Word.LittleEndianList.
From Stdlib Require Import ZArith Lia Permutation.
From S2P Require Import Prelude Result CMem Validate Serialization HandleWatcher HandleWatcherThreads.

(** * The threads that are not stopped, and who is to stop them *)

(** A thread that is not deleted, its pipe, and what is left to do to stop it. *)
Record play := mk_play { p_handle : MojoHandle; p_thread : thread; p_todo : todo }.

#[export] Instance todo_eq_dec : EqDecision todo.
Proof. solve_decision. Defined.

(** In the hands of a call, or in the map. *)
Definition owned (c : call) : list play :=
  match c with
  | StartInsert h t => [mk_play h t Tell]
  | Stopping h t next => [mk_play h t next]
  | StoppingAll _ (Some (h, t, next)) => [mk_play h t next]
  | _ => []
  end.
Definition registered (m : gmap MojoHandle thread) : list play :=
  (fun x => mk_play x.1 x.2 Tell) <$> map_to_list m.

Lemma registered_insert m h t : m !! h = None ->
  registered (<[h := t]> m) ≡ₚ mk_play h t Tell :: registered m.
Proof. intros Hh. unfold registered. by rewrite map_to_list_insert. Qed.

Lemma registered_delete m h t : m !! h = Some t ->
  registered m ≡ₚ mk_play h t Tell :: registered (delete h m).
Proof. intros Hh. unfold registered. by rewrite <- (map_to_list_delete m h t). Qed.

(** What a [StopAll] in progress has still to stop. *)
Definition visiting (c : call) : list (list MojoHandle) :=
  match c with StoppingAll hs _ => [hs] | _ => [] end.

(** * The life of a thread *)

Definition thread_of (e : revent) : thread :=
  match e with Spawned t _ _ | Told t _ _ _ | Joined t | PipeClosed t _ | Deleted t => t end.

Section Lives.
Context (ILLEGAL_PORT : Dart_Port).

(** [r] is how the write of the command ended. *)
Definition life (t : thread) (consumer producer : MojoHandle) (r : MojoResult) : list revent :=
  [Spawned t consumer producer; Told t producer (command_bytes (Shutdown_command ILLEGAL_PORT)) r; Joined t;
   PipeClosed t producer; Deleted t].

Definition so_far (next : todo) : nat :=
  match next with Tell => 1 | Join => 2 | ClosePipe => 3 | Delete => 4 end.

(** What happened to a thread, in the order of time; [tr] has the last event first. *)
Definition happened_to (t : thread) (tr : list revent) : list revent :=
  List.filter (fun e => thread_of e =? t)%nat (rev tr).

Lemma happened_more t e tr :
  happened_to t (e :: tr) = happened_to t tr ++ (if (thread_of e =? t)%nat then [e] else []).
Proof. unfold happened_to. cbn [rev]. rewrite List.filter_app. cbn [List.filter]. by destruct (_ =? _)%nat. Qed.

Lemma happened_other t e tr : thread_of e <> t -> happened_to t (e :: tr) = happened_to t tr.
Proof. intros Hne. rewrite happened_more. by rewrite (proj2 (Nat.eqb_neq _ _) Hne), app_nil_r. Qed.

Lemma happened_same t e tr : thread_of e = t -> happened_to t (e :: tr) = happened_to t tr ++ [e].
Proof. intros Heq. rewrite happened_more. by rewrite (proj2 (Nat.eqb_eq _ _) Heq). Qed.

(** * The invariant *)

Definition holds_pipe (p : play) : bool := negb (bool_decide (p_todo p = Delete)).
Definition pipes_of (P : list play) : list MojoHandle := p_handle <$> List.filter holds_pipe P.

Record good (P : list play) (open : gset MojoHandle) (next : thread) (tr : list revent) : Prop := {
  g_below : forall p, p ∈ P -> (p_thread p < next)%nat;
  g_distinct : NoDup (p_thread <$> P);
  g_pipes : NoDup (pipes_of P);
  g_open : forall h, h ∈ pipes_of P -> h ∈ open;
  g_life : forall p, p ∈ P -> exists c r,
    happened_to (p_thread p) tr = take (so_far (p_todo p)) (life (p_thread p) c (p_handle p) r);
  g_stopped : forall t, (t < next)%nat -> t ∉ p_thread <$> P -> exists c h r, happened_to t tr = life t c h r;
  g_new : forall t, (next <= t)%nat -> happened_to t tr = [];
}.

#[export] Instance filter_perm (f : play -> bool) : Proper (Permutation ==> Permutation) (List.filter f).
Proof.
  intros P P' Hp. induction Hp as [|p P P' Hp IH|p q P|P P' P'' _ IH1 _ IH2]; cbn [List.filter]; [done| | |].
  - destruct (f p); [by rewrite IH|done].
  - destruct (f p), (f q); try done. apply perm_swap.
  - by rewrite IH1.
Qed.

#[export] Instance pipes_perm : Proper (Permutation ==> Permutation) pipes_of.
Proof. intros P P' Hp. unfold pipes_of. by rewrite Hp. Qed.

#[export] Instance good_perm : Proper (Permutation ==> eq ==> eq ==> eq ==> iff) good.
Proof.
  assert (Hgo : forall P P' open next tr, P ≡ₚ P' -> good P open next tr -> good P' open next tr).
  { intros P P' open next tr Hp [H1 H2 H3 H4 H5 H6 H7].
    split; try (intros ?; rewrite <- ?Hp); rewrite <- ?Hp; auto. }
  intros P P' Hp ? ? <- ? ? <- ? ? <-. split; apply Hgo; done.
Qed.

Lemma pipes_cons p P : pipes_of (p :: P) = (if holds_pipe p then [p_handle p] else []) ++ pipes_of P.
Proof. unfold pipes_of. cbn [List.filter]. by destruct (holds_pipe p). Qed.

Lemma good_spawn P open next tr c h : good P open next tr -> h ∉ open ->
  good (mk_play h next Tell :: P) ({[h]} ∪ open) (S next) (Spawned next c h :: tr).
Proof.
  intros [H1 H2 H3 H4 H5 H6 H7] Hh. assert (Hn : next ∉ p_thread <$> P).
  { intros (p & Heq & Hp)%list_elem_of_fmap. specialize (H1 p Hp). lia. }
  split.
  - intros p [->|Hp]%elem_of_cons; [simpl; lia|]. specialize (H1 p Hp). lia.
  - rewrite fmap_cons. by apply NoDup_cons.
  - rewrite pipes_cons. apply (NoDup_cons h). split; [by intros Hin%H4|done].
  - rewrite pipes_cons. intros x [->|Hx]%elem_of_cons; set_solver.
  - intros p [->|Hp]%elem_of_cons.
    + exists c, MOJO_RESULT_OK. cbn [p_thread]. rewrite happened_same by done. by rewrite H7 by lia.
    + destruct (H5 p Hp) as (c' & r & Hc). exists c', r. rewrite happened_other; [done|].
      specialize (H1 p Hp). simpl. lia.
  - intros t Ht. rewrite fmap_cons. intros [Hne Hout]%not_elem_of_cons. cbn [p_thread] in Hne.
    destruct (H6 t) as (c' & h' & r & Hl); [lia|done|]. exists c', h', r. rewrite happened_other; [done|]. simpl. congruence.
  - intros t Ht. rewrite happened_other by (simpl; lia). apply H7. lia.
Qed.

(** One more event of the thread's life. *)
Lemma good_next h t n P open next tr n' e :
  good (mk_play h t n :: P) open next tr -> thread_of e = t -> so_far n' = S (so_far n) ->
  (forall c r, exists r', take (so_far n) (life t c h r') = take (so_far n) (life t c h r) /\
     life t c h r' !! so_far n = Some e) ->
  good (mk_play h t n' :: P) (if decide (n' = Delete) then open ∖ {[h]} else open) next (e :: tr).
Proof.
  intros [H1 H2 H3 H4 H5 H6 H7] He Hn Hlife. rewrite fmap_cons in H2. pose proof H2 as [Hout Hnd]%NoDup_cons.
  rewrite pipes_cons in H3, H4. assert (Hhold : holds_pipe (mk_play h t n) = true) by by destruct n, n'.
  rewrite Hhold in H3, H4. pose proof H3 as [Hh Hpipes]%NoDup_cons. split.
  - intros p [->|Hp]%elem_of_cons; [apply (H1 (mk_play h t n)); left|apply H1; by right].
  - by rewrite fmap_cons.
  - rewrite pipes_cons. destruct (holds_pipe (mk_play h t n')); [exact H3|exact Hpipes].
  - rewrite pipes_cons. unfold holds_pipe. cbn [p_todo p_handle] in *.
    destruct (decide (n' = Delete)) as [->|Hne].
    + intros x Hx. rewrite bool_decide_true in Hx by done. apply elem_of_difference. split; [apply H4; by right|].
      intros ->%elem_of_singleton. done.
    + rewrite bool_decide_false by done. done.
  - intros p [->|Hp]%elem_of_cons.
    + destruct (H5 (mk_play h t n)) as (c & r & Hc); [left|]. cbn [p_thread p_handle p_todo] in *.
      destruct (Hlife c r) as (r' & Htake & Hnext). exists c, r'.
      rewrite happened_same by done. rewrite Hc, Hn, <- Htake. symmetry. by apply take_S_r.
    + destruct (H5 p) as (c & r & Hc); [by right|]. exists c, r. rewrite happened_other; [done|].
      rewrite He. intros ->. apply Hout. cbn [p_thread]. by apply list_elem_of_fmap_2.
  - intros x Hx. rewrite fmap_cons. intros Hx'. cbn [p_thread] in Hx'. destruct (H6 x Hx) as (c & h' & r & Hl); [done|].
    exists c, h', r. rewrite happened_other; [done|]. rewrite He. apply not_elem_of_cons in Hx' as [? _]. congruence.
  - intros x Hx. rewrite happened_other; [by apply H7|].
    specialize (H1 (mk_play h t n) ltac:(left)). simpl in H1. lia.
Qed.

Lemma good_delete h t P open next tr :
  good (mk_play h t Delete :: P) open next tr -> good P open next (Deleted t :: tr).
Proof.
  intros [H1 H2 H3 H4 H5 H6 H7]. rewrite fmap_cons in H2. pose proof H2 as [Hout Hnd]%NoDup_cons.
  rewrite pipes_cons in H3, H4. split; try done.
  - intros p Hp. apply H1. by right.
  - intros p Hp. destruct (H5 p) as (c & r & Hc); [by right|]. exists c, r. rewrite happened_other; [done|].
    simpl. intros ->. apply Hout. cbn [p_thread]. by apply list_elem_of_fmap_2.
  - intros x Hx Hx'. destruct (decide (x = t)) as [->|Hne].
    + destruct (H5 (mk_play h t Delete)) as (c & r & Hc); [left|]. exists c, h, r. cbn [p_thread p_handle p_todo] in Hc.
      rewrite happened_same by done. by rewrite Hc.
    + destruct (H6 x Hx) as (c & h' & r & Hl); [rewrite fmap_cons; by apply not_elem_of_cons|].
      exists c, h', r. rewrite happened_other; [done|]. simpl. congruence.
  - intros x Hx. rewrite happened_other; [by apply H7|].
    specialize (H1 (mk_play h t Delete) ltac:(left)). simpl in *. lia.
Qed.

(** * Steps keep the invariant *)

Context (visit : gmap MojoHandle thread -> list MojoHandle).
Context (visits : forall m, visit m ≡ₚ (map_to_list m).*1).

Definition lock_ok (locked : bool) (m : gmap MojoHandle thread) (vs : list (list MojoHandle)) : Prop :=
  if locked then exists hs, vs = [hs] /\ hs ≡ₚ (map_to_list m).*1 else vs = [].

Definition inv (w : threads) (cs : list call) : Prop :=
  good (registered (handle_watcher_threads_ w) ++ (cs ≫= owned)) (open_ w) (next_thread w) (history_ w) /\
  lock_ok (locked w) (handle_watcher_threads_ w) (cs ≫= visiting).

(** The same, call by call. *)
Definition inv_at (w : threads) (c : call) (rest : list call) : Prop :=
  good (registered (handle_watcher_threads_ w) ++ owned c ++ (rest ≫= owned)) (open_ w) (next_thread w) (history_ w) /\
  lock_ok (locked w) (handle_watcher_threads_ w) (visiting c ++ (rest ≫= visiting)).

Lemma inv_cons w c rest : inv w (c :: rest) -> inv_at w c rest.
Proof. done. Qed.
Lemma cons_inv w c rest : inv_at w c rest -> inv w (c :: rest).
Proof. done. Qed.

Lemma lock_ok_perm b m vs vs' : vs ≡ₚ vs' -> lock_ok b m vs -> lock_ok b m vs'.
Proof.
  intros Hp. destruct b; simpl.
  - intros (hs & -> & Hhs). exists hs. split; [|done]. symmetry in Hp. by apply Permutation_singleton_r in Hp.
  - intros ->. symmetry in Hp. by apply Permutation_nil_r in Hp.
Qed.

Lemma inv_perm w cs cs' : cs ≡ₚ cs' -> inv w cs -> inv w cs'.
Proof.
  intros Hp [Hg Hl]. split; [by rewrite <- Hp|]. eapply lock_ok_perm; [|done]. by rewrite Hp.
Qed.

(** [P] stands for the threads that the step does not touch. *)
Lemma stop_step_ok h t n w : wlp (stop_step ILLEGAL_PORT h t n) w (fun n' w' =>
  handle_watcher_threads_ w' = handle_watcher_threads_ w /\ locked w' = locked w /\
  forall P, good (mk_play h t n :: P) (open_ w) (next_thread w) (history_ w) ->
    good (match n' with Some n' => [mk_play h t n'] | None => [] end ++ P)
      (open_ w') (next_thread w') (history_ w')).
Proof.
  assert (Hsame : forall c r, exists r', take 2 (life t c h r') = take 2 (life t c h r) /\ life t c h r' !! 2%nat = Some (Joined t)).
  { intros c r. by exists r. }
  destruct n; cbn [stop_step]; repeat wlp_step.
  - unfold SendCommand. repeat wlp_step. destruct (system w) as [|[| |r] l]; repeat wlp_step.
    destruct (_ && _); repeat wlp_step; (split_and!; [done..|]); intros P HP;
      refine (good_next h t Tell P _ _ _ Join (Told t h _ r) HP eq_refl eq_refl _); intros c r0; by exists r.
  - destruct (bool_decide (t ∈ ended w)); repeat wlp_step; split_and!; try done. intros P HP.
    exact (good_next h t Join P _ _ _ ClosePipe (Joined t) HP eq_refl eq_refl Hsame).
  - split_and!; [done..|]. intros P HP.
    refine (good_next h t ClosePipe P _ _ _ Delete (PipeClosed t h) HP eq_refl eq_refl _). intros c r. by exists r.
  - split_and!; [done..|]. intros P HP. by eapply good_delete.
Qed.

Lemma RemoveLocked_ok h w : wlp (RemoveLocked h) w (fun t w' =>
  match t with
  | None => handle_watcher_threads_ w !! h = None /\ w' = w
  | Some t => handle_watcher_threads_ w !! h = Some t /\
      w' = set_threads (delete h (handle_watcher_threads_ w)) w
  end).
Proof. unfold RemoveLocked. repeat wlp_step. by destruct (_ !! h) eqn:Hh; repeat wlp_step. Qed.

Lemma Start_create_ok w rest : inv w (CallStart :: rest) ->
  wlp Start_create w (fun c' w' => inv w' (c' :: rest)).
Proof.
  intros [Hg Hl]%inv_cons. unfold Start_create, MojoCreateMessagePipe. repeat wlp_step.
  destruct (system w) as [|[consumer producer|r|r] l]; repeat wlp_step.
  - case_bool_decide as Hopen; cbn [orb]; [apply wlp_fuel|].
    destruct (producer =? MOJO_HANDLE_INVALID); [apply wlp_fuel|]. repeat wlp_step. unfold new_thread. repeat wlp_step.
    apply cons_inv. split; [|exact Hl]. cbn [owned app]. rewrite <- Permutation_middle. by apply good_spawn.
  - destruct (r =? MOJO_RESULT_OK); [apply wlp_fuel|]. repeat wlp_step. done.
Qed.

Lemma Start_insert_ok h t w rest : inv w (StartInsert h t :: rest) -> locked w = false ->
  wlp (Start_insert h t) w (fun c' w' => inv w' (c' :: rest)).
Proof.
  intros [Hg Hl]%inv_cons Hlock. rewrite Hlock in Hl. cbn [owned app visiting] in Hg, Hl.
  rewrite <- Permutation_middle in Hg.
  assert (Hh : handle_watcher_threads_ w !! h = None).
  { destruct (handle_watcher_threads_ w !! h) as [t'|] eqn:Hh; [|done]. exfalso.
    rewrite (registered_delete _ h t' Hh) in Hg. pose proof (g_pipes _ _ _ _ Hg) as Hnd.
    rewrite pipes_cons in Hnd. cbn [app] in Hnd. rewrite pipes_cons in Hnd.
    apply (NoDup_cons h) in Hnd as [Hout _]. apply Hout. left. }
  unfold Start_insert. apply wlp_bind, wlp_get. rewrite Hh. repeat wlp_step. apply cons_inv. split; cbn [owned visiting app].
  - cbn [handle_watcher_threads_ set_threads open_ next_thread history_]. by rewrite registered_insert.
  - simpl. by rewrite Hlock.
Qed.

Lemma Stop_ok h w rest : inv w (CallStop h :: rest) -> locked w = false ->
  wlp (t ← RemoveLocked h; mret (match t with None => Returned h | Some t => Stopping h t Tell end)) w
    (fun c' w' => inv w' (c' :: rest)).
Proof.
  intros [Hg Hl]%inv_cons Hlock. rewrite Hlock in Hl. cbn [owned app visiting] in Hg, Hl.
  apply wlp_bind. eapply wlp_mono; [apply RemoveLocked_ok|]. intros [t|] w'.
  - intros [Hh ->]. apply wlp_ret. apply cons_inv. split; cbn [owned visiting app].
    + cbn [handle_watcher_threads_ set_threads open_ next_thread history_]. rewrite <- Permutation_middle.
      by rewrite (registered_delete _ h t Hh) in Hg.
    + simpl. by rewrite Hlock.
  - intros [_ ->]. apply wlp_ret. split; [done|]. by rewrite Hlock.
Qed.

Lemma StopAll_ok w rest : inv w (CallStopAll :: rest) -> locked w = false ->
  inv (set_locked true w) (StoppingAll (visit (handle_watcher_threads_ w)) None :: rest).
Proof.
  intros [Hg Hl]%inv_cons Hlock. rewrite Hlock in Hl. cbn [owned app visiting] in Hg, Hl.
  apply cons_inv. split; [exact Hg|]. cbn [visiting app]. simpl in Hl. rewrite Hl. by eexists.
Qed.

Lemma stopping_ok h t n w rest (c : option todo -> call) :
  (forall n, owned (c n) = match n with Some n => [mk_play h t n] | None => [] end) ->
  (forall n n', visiting (c n) = visiting (c n')) -> inv w (c (Some n) :: rest) ->
  wlp (stop_step ILLEGAL_PORT h t n) w (fun n' w' => inv w' (c n' :: rest)).
Proof.
  intros Hown Hvis [Hg Hl]%inv_cons. eapply wlp_mono; [apply stop_step_ok|]. intros n' w' (Hm & Hk & HP).
  rewrite Hown in Hg. apply cons_inv. unfold inv_at. rewrite Hm. split; [|by rewrite Hk, (Hvis n' (Some n))].
  rewrite Hown, Permutation_app_comm, <- app_assoc. apply HP.
  by rewrite Permutation_app_comm, <- app_assoc in Hg.
Qed.

(** The next thread of a [StopAll]: it is in the map. *)
Lemma StoppingAll_ok h hs w rest : inv w (StoppingAll (h :: hs) None :: rest) ->
  exists t, RemoveLocked h w = Ok (Some t, set_threads (delete h (handle_watcher_threads_ w)) w) /\
    inv (set_threads (delete h (handle_watcher_threads_ w)) w) (StoppingAll hs (Some (h, t, Tell)) :: rest).
Proof.
  intros [Hg Hl]%inv_cons. cbn [owned app visiting] in Hg, Hl.
  destruct (locked w) eqn:Hlock; [|done]. destruct Hl as (hs' & [= <- Hrest] & Hperm).
  assert (exists t, handle_watcher_threads_ w !! h = Some t) as [t Hh].
  { assert (h ∈ (map_to_list (handle_watcher_threads_ w)).*1) as ((x & t) & Heq & Hx)%list_elem_of_fmap
      by (rewrite <- Hperm; left). exists t. rewrite Heq. by apply elem_of_map_to_list. }
  exists t. split; [unfold RemoveLocked, mbind, M_bind, get; by rewrite Hh|].
  apply cons_inv. split; cbn [owned visiting app].
  - cbn [handle_watcher_threads_ set_threads open_ next_thread history_]. rewrite <- Permutation_middle.
    by rewrite (registered_delete _ h t Hh) in Hg.
  - simpl. rewrite Hlock, Hrest. exists hs. split; [done|].
    rewrite <- (map_to_list_delete _ h t Hh) in Hperm. simpl in Hperm. by apply Permutation_cons_inv in Hperm.
Qed.

Lemma step_ok c w rest : inv w (c :: rest) ->
  wlp (step ILLEGAL_PORT visit c) w (fun c' w' => inv w' (c' :: rest)).
Proof.
  intros Hinv. unfold step. apply wlp_bind, wlp_get.
  destruct c as [|h t|h|h t n| |hs cur|h]; [by apply Start_create_ok| | | | | |by apply wlp_ret];
    try (destruct (locked w) eqn:Hlock; [by apply wlp_ret|]).
  - by apply Start_insert_ok.
  - by apply Stop_ok.
  - apply wlp_bind.
    eapply wlp_mono; [refine (stopping_ok h t n w rest (fun n => match n with Some n => Stopping h t n | None => Returned h end) _ _ Hinv); [by intros []|by intros [] []]|]. intros n' w' Hw. by apply wlp_ret.
  - repeat wlp_step. by apply StopAll_ok.
  - destruct cur as [[[h t] n]|].
    + apply wlp_bind.
      eapply wlp_mono; [refine (stopping_ok h t n w rest (fun n => StoppingAll hs (option_map (pair (h, t)) n)) _ _ Hinv); [by intros []|by intros [] []]|]. intros n' w' Hw. by apply wlp_ret.
    + destruct hs as [|h hs].
      * repeat wlp_step. apply inv_cons in Hinv as [Hg Hl]. apply cons_inv. split; [exact Hg|]. cbn [locked set_locked].
        destruct (locked w); [|done]. destruct Hl as (hs & [= _ Hrest] & _). exact Hrest.
      * destruct (StoppingAll_ok h hs w rest Hinv) as (t & Hrun & Hinv').
        apply wlp_bind. unfold gwlp at 1. rewrite Hrun. by apply wlp_ret.
Qed.

Lemma take_turn_ok x cs w : inv w cs ->
  wlp (take_turn ILLEGAL_PORT visit x cs) w (fun cs' w' => inv w' cs').
Proof.
  intros Hinv. destruct x as [i|t|t]; cbn [take_turn].
  - destruct (cs !! i) as [c|] eqn:Hc; [|by wlp_step]. wlp_step.
    eapply wlp_mono; [apply (step_ok c w (delete i cs))|].
    + eapply inv_perm; [by apply delete_Permutation|done].
    + intros c' w' Hinv'. wlp_step. eapply inv_perm; [|exact Hinv']. symmetry.
      rewrite (delete_Permutation (<[i := c']> cs) i c') by (apply list_lookup_insert_eq; by eapply lookup_lt_Some).
      apply perm_skip. by rewrite !delete_take_drop, take_insert_ge, drop_insert_lt by lia.
  - do 3 wlp_step. destruct (bool_decide _); by repeat wlp_step.
  - do 3 wlp_step. destruct (_ <? _)%nat; by repeat wlp_step.
Qed.

(** ** Which threads have ended *)

Record heard (w : threads) : Prop := {
  heard_ended : ended w ⊆ shutting_down w;
  heard_told : forall t h bytes, Told t h bytes MOJO_RESULT_OK ∈ history_ w -> t ∈ shutting_down w;
  heard_joined : forall t, Joined t ∈ history_ w -> t ∈ ended w;
}.

Lemma heard_initial l : heard (no_threads l).
Proof. split; [done|by intros ? ? ? ?%elem_of_nil|by intros ? ?%elem_of_nil]. Qed.

Lemma heard_more w w' : heard w -> ended w ⊆ ended w' -> shutting_down w ⊆ shutting_down w' ->
  ended w' ⊆ shutting_down w' ->
  (forall e, e ∈ history_ w' -> e ∈ history_ w \/
     match e with Told t _ _ r => r = MOJO_RESULT_OK -> t ∈ shutting_down w' | Joined t => t ∈ ended w' | _ => True end) ->
  heard w'.
Proof.
  intros [H1 H2 H3] He Hs Hin Hnew. split; [done|..].
  - intros t h bytes [Hold|Ht]%Hnew; [apply Hs; by eapply H2|by apply Ht].
  - intros t [Hold|Ht]%Hnew; [by apply He, H3|done].
Qed.

(** What does not tell or join a thread. *)
Lemma heard_same w w' : heard w -> ended w' = ended w -> shutting_down w' = shutting_down w ->
  (forall e, e ∈ history_ w' -> e ∈ history_ w \/
     match e with Told _ _ _ _ | Joined _ => False | _ => True end) -> heard w'.
Proof.
  intros Hw He Hs Hnew. apply (heard_more w); rewrite ?He, ?Hs; try done; [apply Hw|].
  intros e [?|Hx]%Hnew; [by left|right]. by destruct e.
Qed.

Ltac heard_step := (done || (eapply heard_same; [eassumption|reflexivity|reflexivity|];
  cbn; intros e; rewrite ?elem_of_cons; intuition (subst; auto))).

Lemma stop_step_heard h t n w : heard w -> gwlp true (stop_step ILLEGAL_PORT h t n) w (fun _ w' => heard w').
Proof.
  intros Hw. destruct n; cbn [stop_step]; repeat wlp_step; try heard_step.
  - unfold SendCommand. repeat wlp_step. destruct (system w) as [|[| |r] l]; repeat wlp_step.
    change (is_shutdown _) with true. rewrite andb_true_r. destruct (Z.eqb_spec r MOJO_RESULT_OK) as [->|Hr]; repeat wlp_step.
    + eapply (heard_more w); [exact Hw|done|cbn; set_solver|cbn; pose proof (heard_ended _ Hw); set_solver|].
      cbn. intros e [->|He]%elem_of_cons; [right; set_solver|by left].
    + eapply (heard_more w); [exact Hw|done|done|apply Hw|].
      cbn. intros e [->|He]%elem_of_cons; [by right|by left].
  - destruct (bool_decide (t ∈ ended w)) eqn:He; repeat wlp_step; [|done]. apply bool_decide_eq_true in He.
    eapply (heard_more w); [exact Hw|done|done|apply Hw|]. cbn. intros e [->|Hin]%elem_of_cons; [by right|by left].
Qed.

Lemma step_heard c w : heard w -> gwlp true (step ILLEGAL_PORT visit c) w (fun _ w' => heard w').
Proof.
  intros Hw. unfold step. apply wlp_bind, wlp_get.
  destruct c as [|h t|h|h t n| |hs cur|h]; try (destruct (locked w); [by apply wlp_ret|]).
  - unfold Start_create, MojoCreateMessagePipe. repeat wlp_step.
    destruct (system w) as [|[consumer producer|r|r] l]; repeat wlp_step.
    + destruct (_ || _); [apply wlp_fuel|]. repeat wlp_step. unfold new_thread. repeat wlp_step. heard_step.
    + destruct (r =? MOJO_RESULT_OK); [apply wlp_fuel|]. repeat wlp_step. heard_step.
  - unfold Start_insert. repeat wlp_step. unfold MOJO_CHECK, assert_. case_bool_decide; [repeat wlp_step; heard_step|done].
  - unfold RemoveLocked. repeat wlp_step. destruct (_ !! h); repeat wlp_step; heard_step.
  - apply wlp_bind. eapply wlp_mono; [by apply stop_step_heard|]. intros n' w' Hw'. by repeat wlp_step.
  - repeat wlp_step. heard_step.
  - destruct cur as [[[h t] n]|].
    + apply wlp_bind. eapply wlp_mono; [by apply stop_step_heard|]. intros n' w' Hw'. by repeat wlp_step.
    + destruct hs as [|h hs]; [repeat wlp_step; heard_step|]. unfold RemoveLocked. repeat wlp_step.
      destruct (_ !! h); repeat wlp_step; [heard_step|done].
  - by wlp_step.
Qed.

Lemma take_turn_heard x cs w : heard w -> gwlp true (take_turn ILLEGAL_PORT visit x cs) w (fun _ w' => heard w').
Proof.
  intros Hw. destruct x as [i|t|t]; cbn [take_turn].
  - destruct (cs !! i) as [c|]; [|by wlp_step]. wlp_step. eapply wlp_mono; [by apply step_heard|]. intros c' w' Hw'. by wlp_step.
  - do 3 wlp_step. case_bool_decide; repeat wlp_step; [|done]. pose proof (heard_ended _ Hw).
    eapply (heard_more w); [exact Hw|cbn; set_solver|done|cbn; set_solver|]. intros e He. by left.
  - do 3 wlp_step. destruct (_ <? _)%nat; repeat wlp_step; [|done]. pose proof (heard_ended _ Hw).
    eapply (heard_more w); [exact Hw|done|cbn; set_solver|cbn; set_solver|]. intros e He. by left.
Qed.

Lemma wlp_and {A} (c : M threads A) w P Q : wlp c w P -> gwlp true c w Q -> wlp c w (fun x w' => P x w' /\ Q x w').
Proof. unfold gwlp. by destruct (c w) as [[x w']| | |]. Qed.

Lemma interleave_ok schedule : forall cs w, inv w cs -> heard w ->
  wlp (interleave ILLEGAL_PORT visit schedule cs) w (fun cs' w' => inv w' cs' /\ heard w').
Proof.
  induction schedule as [|x schedule IH]; intros cs w Hinv Hw; cbn [interleave]; [by wlp_step|]. wlp_step.
  eapply wlp_mono; [apply wlp_and; [by apply take_turn_ok|by apply take_turn_heard]|].
  intros cs' w' [Hinv' Hw']. by apply IH.
Qed.

Definition not_begun (c : call) : bool :=
  match c with CallStart | CallStop _ | CallStopAll => true | _ => false end.
Definition returned (c : call) : bool := match c with Returned _ => true | _ => false end.

Lemma inv_initial l cs : Forall not_begun cs -> inv (no_threads l) cs.
Proof.
  intros Hcs. assert ((cs ≫= owned) = [] /\ (cs ≫= visiting) = []) as [Ho Hv].
  { induction Hcs as [|c cs Hc _ IH]; [done|]. rewrite !bind_cons. destruct IH as [-> ->]. by destruct c. }
  unfold inv. rewrite Ho, Hv. split; [|done]. split; simpl; try done; try (intros ? []%elem_of_nil); try apply NoDup_nil_2.
  intros t Ht. lia.
Qed.

(** What a call waits for to end, if it is to join a thread. *)
Definition joining (c : call) : option thread :=
  match c with Stopping _ t Join | StoppingAll _ (Some (_, t, Join)) => Some t | _ => None end.

Lemma join_moves h t w : t ∈ ended w -> stop_step ILLEGAL_PORT h t Join w = Ok (Some ClosePipe, happen (Joined t) w).
Proof. intros Ht. unfold stop_step, mbind, M_bind, get. by rewrite bool_decide_true. Qed.
Lemma tell_moves h t w n w' : stop_step ILLEGAL_PORT h t Tell w = Ok (n, w') -> n = Some Join.
Proof. unfold stop_step, mbind, M_bind. destruct (SendCommand _ _ _ _) as [[r w1]| | |]; by intros [= <-]. Qed.

(** A call that is not blocked does something. *)
Lemma step_moves c w : returned c = false -> locked w = false \/ visiting c <> [] ->
  (forall t, joining c = Some t -> t ∈ ended w) -> step ILLEGAL_PORT visit c w <> Ok (c, w).
Proof.
  intros Hr Hfree Hjoin. unfold step, mbind, M_bind, get.
  destruct c as [|h t|h|h t n| |hs cur|h]; try done;
    try (destruct Hfree as [->|[]]; [|done]).
  - unfold Start_create, MojoCreateMessagePipe, mbind, M_bind, get. destruct (system w) as [|[consumer producer|r|r] l]; try done.
    + by destruct (_ || _).
    + by destruct (r =? MOJO_RESULT_OK).
  - unfold Start_insert, mbind, M_bind, get. by destruct (bool_decide _).
  - unfold RemoveLocked, mbind, M_bind, get. by destruct (_ !! h).
  - destruct n; try done; [|by rewrite join_moves by (by apply Hjoin)].
    destruct (stop_step _ _ _ _ w) as [[n' w']| | |] eqn:Hs; try done. by apply tell_moves in Hs as ->.
  - done.
  - destruct cur as [[[h t] n]|].
    + destruct n; try done; [|by rewrite join_moves by (by apply Hjoin)].
    destruct (stop_step _ _ _ _ w) as [[n' w']| | |] eqn:Hs; try done. by apply tell_moves in Hs as ->.
    + destruct hs as [|h hs]; [done|]. unfold RemoveLocked, mbind, M_bind, get. by destruct (_ !! h).
Qed.

Lemma inv_unblocked w cs : inv w cs -> Exists (fun c => returned c = false) cs ->
  exists c, c ∈ cs /\ returned c = false /\ (locked w = false \/ visiting c <> []).
Proof.
  intros [_ Hl] (c & Hc & Hr)%Exists_exists. destruct (locked w) eqn:Hlock; [|by exists c; auto].
  destruct Hl as (hs & Hvs & _).
  assert (hs ∈ cs ≫= visiting) as (c' & Hvis & Hin)%list_elem_of_bind by (rewrite Hvs; left).
  exists c'. assert (visiting c' <> []) by (intros Hnil; rewrite Hnil in Hvis; by apply elem_of_nil in Hvis).
  split_and!; [done|by destruct c'|by right].
Qed.

(** A thread that is to be joined was told to stop. *)
Lemma joining_told w cs c t : inv w cs -> c ∈ cs -> joining c = Some t ->
  exists h bytes r, Told t h bytes r ∈ history_ w.
Proof.
  intros [Hg _] Hc Hj. assert (exists h, mk_play h t Join ∈ owned c) as [h Hp].
  { destruct c as [| | |h t' n| |hs [[[h t'] n]|]|]; try done; destruct n; try done; injection Hj as <-; exists h; left. }
  destruct (g_life _ _ _ _ Hg (mk_play h t Join)) as (c0 & r & Hlife).
  { apply elem_of_app. right. apply list_elem_of_bind. by exists c. }
  cbn [p_thread p_handle p_todo so_far life take] in Hlife.
  set (e := Told t h _ r) in Hlife. exists h, (command_bytes (Shutdown_command ILLEGAL_PORT)), r.
  assert (Hin : List.In e (happened_to t (history_ w))) by (rewrite Hlife; right; by left).
  apply List.filter_In in Hin as [Hin _]. by apply list_elem_of_In, List.in_rev.
Qed.

Lemma inv_moves w cs : inv w cs -> heard w -> Exists (fun c => returned c = false) cs ->
  (exists c, c ∈ cs /\ returned c = false /\ step ILLEGAL_PORT visit c w <> Ok (c, w)) \/
  (exists t, t ∈ shutting_down w /\ t ∉ ended w) \/
  exists t h bytes r, Told t h bytes r ∈ history_ w /\ r <> MOJO_RESULT_OK /\ t ∉ shutting_down w.
Proof.
  intros Hinv Hw (c & Hc & Hr & Hfree)%(inv_unblocked w cs Hinv).
  destruct (joining c) as [t|] eqn:Hj.
  2: { left. exists c. split_and!; [done..|]. apply step_moves; [done..|]. by rewrite Hj. }
  destruct (decide (t ∈ ended w)) as [He|He].
  { left. exists c. split_and!; [done..|]. apply step_moves; [done..|]. rewrite Hj. by intros ? [= <-]. }
  right. destruct (decide (t ∈ shutting_down w)) as [Hs|Hs]; [left; by exists t|right].
  destruct (joining_told w cs c t Hinv Hc Hj) as (h & bytes & r & Hin). exists t, h, bytes, r. split; [done|].
  split; [|done]. intros ->. by apply Hs, (heard_told _ Hw t h bytes).
Qed.

Lemma life_prefix w cs t : inv w cs -> (t < next_thread w)%nat ->
  exists c h r, happened_to t (history_ w) `prefix_of` life t c h r.
Proof.
  intros [Hg _] Ht. destruct (decide (t ∈ p_thread <$> (registered (handle_watcher_threads_ w) ++ (cs ≫= owned)))) as [Hin|Hout].
  - apply list_elem_of_fmap in Hin as (p & -> & Hp). destruct (g_life _ _ _ _ Hg p Hp) as (c & r & Hc).
    exists c, (p_handle p), r. rewrite Hc. eexists. symmetry. apply take_drop.
  - destruct (g_stopped _ _ _ _ Hg t Ht Hout) as (c & h & r & Hc). exists c, h, r. by rewrite Hc.
Qed.

Lemma registered_alive w cs h t : inv w cs -> handle_watcher_threads_ w !! h = Some t ->
  h ∈ open_ w /\ exists c, happened_to t (history_ w) = [Spawned t c h].
Proof.
  intros [Hg _] Hh. rewrite (registered_delete _ h t Hh) in Hg. split.
  - apply (g_open _ _ _ _ Hg). rewrite <- app_comm_cons, pipes_cons. left.
  - destruct (g_life _ _ _ _ Hg (mk_play h t Tell)) as (c & r & Hc); [left|]. by exists c.
Qed.

Lemma all_returned w cs : inv w cs -> Forall returned cs ->
  locked w = false /\ forall t, (t < next_thread w)%nat ->
    (exists h, handle_watcher_threads_ w !! h = Some t) \/ exists c h r, happened_to t (history_ w) = life t c h r.
Proof.
  intros [Hg Hl] Hcs. assert ((cs ≫= owned) = [] /\ (cs ≫= visiting) = []) as [Ho Hv].
  { clear Hg Hl. induction Hcs as [|c cs Hc _ IH]; [done|]. rewrite !bind_cons. destruct IH as [-> ->]. by destruct c. }
  rewrite Ho, app_nil_r in Hg. rewrite Hv in Hl. split; [destruct (locked w); [by destruct Hl as (? & ? & _)|done]|].
  intros t Ht. destruct (decide (t ∈ p_thread <$> registered (handle_watcher_threads_ w))) as [Hin|Hout].
  - left. unfold registered in Hin. rewrite <- list_fmap_compose in Hin.
    apply list_elem_of_fmap in Hin as ([h t'] & -> & Hx). exists h. by apply elem_of_map_to_list.
  - right. by apply (g_stopped _ _ _ _ Hg).
Qed.

Lemma StopAll_empties w cs : inv w cs -> StoppingAll [] None ∈ cs -> handle_watcher_threads_ w = ∅.
Proof.
  intros [_ Hl] Hc. assert ([] ∈ (cs ≫= visiting)) by (apply list_elem_of_bind; eexists; split; [|done]; left).
  destruct (locked w); [|simpl in Hl; rewrite Hl in *; by apply not_elem_of_nil in H].
  destruct Hl as (hs & Hvs & Hperm). rewrite Hvs in H. apply list_elem_of_singleton in H as <-.
  apply Permutation_nil in Hperm. apply map_to_list_empty_iff. by apply fmap_nil_inv in Hperm.
Qed.

(** C29: threads of the handle watcher are stopped once, and completely: however calls
    of [Start], [Stop] and [StopAll] from many isolates are interleaved with each other, with
    the ends of threads and with commands that isolates send themselves, no check fails; to
    each thread at most this happens, in this order: it is spawned, sent the command to shut
    down, joined, its pipe is closed, it is deleted; a thread that was joined had ended, and
    had a command to shut down; a thread in the map is running, and its pipe is open; when
    [StopAll] is done the map is empty; when all calls have returned, the mutex is free, and
    each thread is in the map or was stopped. And there is no deadlock as long as commands
    can be written: while a call has not returned, a call can go on, or a thread that has a
    command to shut down has still to end, or the write of such a command has failed. *)
Theorem threads_stopped_once schedule cs l (Hcs : Forall not_begun cs) :
  wlp (interleave ILLEGAL_PORT visit schedule cs) (no_threads l) (fun cs' w' =>
    (forall t, (t < next_thread w')%nat -> exists c h r, happened_to t (history_ w') `prefix_of` life t c h r) /\
    (forall t, Joined t ∈ history_ w' -> t ∈ ended w' /\ t ∈ shutting_down w') /\
    (forall h t, handle_watcher_threads_ w' !! h = Some t ->
      h ∈ open_ w' /\ exists c, happened_to t (history_ w') = [Spawned t c h]) /\
    (StoppingAll [] None ∈ cs' -> handle_watcher_threads_ w' = ∅) /\
    (Forall returned cs' -> locked w' = false /\ forall t, (t < next_thread w')%nat ->
      (exists h, handle_watcher_threads_ w' !! h = Some t) \/
      exists c h r, happened_to t (history_ w') = life t c h r) /\
    (Exists (fun c => returned c = false) cs' ->
      (exists c, c ∈ cs' /\ returned c = false /\ step ILLEGAL_PORT visit c w' <> Ok (c, w')) \/
      (exists t, t ∈ shutting_down w' /\ t ∉ ended w') \/
      exists t h bytes r, Told t h bytes r ∈ history_ w' /\ r <> MOJO_RESULT_OK /\ t ∉ shutting_down w')).
Proof.
  eapply wlp_mono; [apply interleave_ok; [by apply inv_initial|exact (heard_initial l)]|]. intros cs' w' [Hinv Hw]. split_and!.
  - intros t. exact (life_prefix w' cs' t Hinv).
  - intros t Ht%(heard_joined _ Hw). split; [done|]. by apply (heard_ended _ Hw).
  - intros h t. exact (registered_alive w' cs' h t Hinv).
  - exact (StopAll_empties w' cs' Hinv).
  - exact (all_returned w' cs' Hinv).
  - exact (inv_moves w' cs' Hinv Hw).
Qed.

(** A command that could not be written: the call that joins the thread then waits until
    somebody else stops that thread, and [StopAll] keeps the mutex while it waits. *)
Lemma failed_write_blocks h t hs w : t ∉ ended w -> t ∉ shutting_down w ->
  step ILLEGAL_PORT visit (Stopping h t Join) w = Ok (Stopping h t Join, w) /\
  step ILLEGAL_PORT visit (StoppingAll hs (Some (h, t, Join))) w = Ok (StoppingAll hs (Some (h, t, Join)), w) /\
  forall cs, take_turn ILLEGAL_PORT visit (ThreadEnds t) cs w = Ok (cs, w).
Proof.
  intros He Hs. unfold step, stop_step, take_turn, mbind, M_bind, get.
  rewrite (bool_decide_false (t ∈ ended w)), (bool_decide_false (t ∈ shutting_down w)) by done. done.
Qed.
End Lives.

(** Two isolates start a thread each; one stops its own while all are being stopped. *)
Definition two_isolates : list call := [CallStart; CallStart; CallStop 11; CallStopAll].
Definition two_pipes : list sys_answer :=
  [PipeCreated 10 11; PipeCreated 12 13; MessageWritten MOJO_RESULT_OK; MessageWritten MOJO_RESULT_OK].
Definition in_order (m : gmap MojoHandle thread) : list MojoHandle := (map_to_list m).*1.
Definition turns : list turn :=
  [Call 0; Call 1; Call 0; Call 1; Call 2; Call 3; Call 2; Call 2; ThreadEnds 0; Call 3; Call 3; Call 2; Call 2;
   Call 3; ThreadEnds 1; Call 3; Call 2; Call 3; Call 3; Call 3].

Lemma threads_stopped_once_witness : exists cs' w',
  interleave (-1) in_order turns two_isolates (no_threads two_pipes) = Ok (cs', w') /\
  Forall returned cs' /\ next_thread w' = 2%nat /\ locked w' = false /\
  forall t, (t < 2)%nat ->
    (exists h, handle_watcher_threads_ w' !! h = Some t) \/
    exists c h r, happened_to t (history_ w') = life (-1) t c h r.
Proof.
  assert (Hcs : Forall not_begun two_isolates) by (repeat constructor).
  pose proof (threads_stopped_once (-1) in_order (fun m => Permutation_refl _) turns two_isolates two_pipes Hcs) as H.
  destruct (interleave (-1) in_order turns two_isolates (no_threads two_pipes)) as [[cs' w']| | |] eqn:Hrun;
    try (vm_compute in Hrun; discriminate).
  destruct (wlp_result _ _ _ _ _ H Hrun) as (_ & _ & _ & _ & Hall & _).
  assert (Hret : Forall returned cs' /\ next_thread w' = 2%nat).
  { vm_compute in Hrun. injection Hrun as <- <-. split; [repeat constructor|reflexivity]. }
  destruct Hret as [Hret Hnext]. destruct (Hall Hret) as [Hlock Hlives]. rewrite Hnext in Hlives. by exists cs', w'.
Defined.
